(* ===== verification/_CoqProject ===== *)
-Q . S2P
Prelude.v
Errors.v
Values.v
Session.v
Activation.v
Manager.v
Worker.v
GoStrings.v
Config.v
Loader.v
Ownership.v
Invariant.v
InvariantApi.v
InvariantWorker.v
Effects.v
Drain.v
Scenario.v
ManagerTheorems.v
StartOperation.v
OperationTheorems.v
ConfigTheorems.v
Bypass.v
Flows.v
FlowsInvariant.v
FlowTheorems.v
Engine.v
EngineInvariant.v
EngineTheorems.v
Runtime.v
RuntimeTheorems.v
Native.v
NativeTheorems.v
Desktop.v
DesktopTheorems.v
RoutingPlan.v
Routing.v
RoutingRecovery.v
RoutingTheorems.v
PlatformEngine.v
Dns.v
DnsTheorems.v
Dialing.v
DialingTheorems.v
Sockets.v
Transports.v
TransportTheorems.v
Forwarder.v
ForwarderTheorems.v
Outline.v
OutlineTheorems.v
TrustTunnel.v
TrustTunnelTheorems.v
Protocol.v
Refinement.v
Published.v
Restore.v
RestoreTheorems.v
SavedTheorems.v
Files.v
FilesLogic.v
SourceStore.v
SourceStoreTheorems.v
StoreTheorems.v
MobilePlatform.v
MobilePlatformTheorems.v
OutputGuard.v
OutputGuardTheorems.v
Probe.v
ProbeTheorems.v
ControlLines.v
Control.v
ControlTheorems.v
Xray.v
XrayTheorems.v
Bridge.v
BridgeTheorems.v
Cli.v
CliTheorems.v
UdpAssociation.v
UdpAssociationTheorems.v
