(* ===== verification/Prelude.v ===== *)
(** * DobbyVPN core: a verification library

    DobbyVPN runs one VPN session for a graphical client, a command line and
    two mobile services.  Its logic is Go code under src/core; this library
    models it as pure functions and proves what each component promises.

    ** The program and the files

    A client configures a session, starts it with a profile or a list of
    candidates, watches its snapshots and stops it.  The session manager owns
    that contract; below it the session runtime owns one network and one
    protocol attempt, a native runtime owns the platform's TUN and the packet
    engine, the engine routes flows through the attempt's transport or past it,
    and the routing plan owns what was changed in the system.

    - [Prelude], [Errors], [Values], [GoStrings]: record update, results,
      machine integers, undo stacks; the trees of Go errors with errors.Is,
      errors.As and errors.Join and the program's classifiers
      (sessionapi/api.go, clientserver/controljson/serve.go); the open values of
      a TOML document (protocol/config.go); the text functions of the Go
      standard library the parser uses.
    - [Session], [Activation], [Manager], [Worker]: sessionapi/api.go,
      restore.go, shutdown.go.  The session struct field by field, the
      predicates that read it, one operation for every critical section of the
      API, and the goroutines [runStart] and [finish] cut at their critical
      sections and at every call to the environment.  [Manager] also holds the
      heaps the struct points into: ledgers, budgets, channels and the leases
      that are live.  The machine interleaves API calls, replies of the
      environment and goroutine steps in any order.
    - [Ownership], [Invariant], [InvariantApi], [InvariantWorker], [Effects],
      [Drain]: the lemmas about that machine (lease accounting, the manager
      invariant and its preservation, what each operation emits, the measure
      that makes a requested stop finish).  [Scenario] is a concrete history
      used by the witnesses.  [StartOperation] composes the critical sections
      of Configure and of a Start that brings its own source, with other
      operations in between, and says what each refusal leaves.
      [ManagerTheorems] and [OperationTheorems] state what the manager
      promises and what each operation does.
    - [Protocol], [Refinement]: the session protocol a client may rely on, as a
      transition system over the snapshot fields and the three fences, and the
      simulation of the machine by it.
    - [Config], [Loader], [ConfigTheorems]: sessionapi/config.go and
      config_loader.go, from bytes or an HTTPS source to accepted profiles.
    - [Bypass]: tunnel/bypass_policy.go, the exclusion list and its membership
      test on address bytes.
    - [Flows], [FlowsInvariant], [FlowTheorems]: tunnel/flow_owner.go with the
      dialing code of tunnel.go, socks_tcp.go and udp_transport.go: who owns a
      socket while it is dialed, tracked, idle and closed.
    - [Engine], [EngineInvariant], [EngineTheorems]: the engine handle and the
      switching proxy (tunnel/tunnel.go, switching_proxy.go, owned_engine_fd.go)
      on top of the flows of each attempt.
    - [Runtime], [RuntimeTheorems]: sessionapi/runtime/lifecycle.go, leases with
      their undo stacks, [PrepareNetwork], [Start], readiness and the health
      monitor.  A network keeps the core its preparation built, or none; a call
      returns, waits for its own lock or panics.
    - [Native], [NativeTheorems]: sessionapi/runtime/native_runtime_mobile.go and
      native_lifecycle.go, with the recovery of panics.
    - [Desktop], [DesktopTheorems]: sessionapi/runtime/native_runtime_desktop.go
      and internal/app.go with the Linux sequence of internal/app_linux.go:
      Connect, its goroutine and every Disconnect, step by step.
    - [PlatformEngine]: tunnel/platform_engine/engine.go and engine_fd.go, the
      teardown phases that outlive the stop that began them.
    - [RoutingPlan], [Routing], [RoutingRecovery], [RoutingTheorems]:
      routing/plan.go, network_linux.go, network_rules_linux.go,
      routing_linux.go and recovery_linux.go.
    - [Dns], [DnsTheorems]: dnscache/cache.go and resolver_wire.go, the owner of
      the resolver with its lookups in any order, and the questions put to the
      captured servers.
    - [Dialing], [DialingTheorems]: tunnel/protected_dialer/scope.go and
      dialer.go, the socket scopes of attempts and the dials through them.
    - [Sockets]: the discipline the three protocol devices share, a socket is
      listed by its owner until a close of it succeeded.  Its clients:
      [Transports], [TransportTheorems] (xray/internal/transport_sockets.go,
      protected_system_dialer.go, dialer_owner.go), [Forwarder],
      [ForwarderTheorems] (trusttunnel/endpoint_forwarder.go), [Outline],
      [OutlineTheorems] (outline/outline_device.go, ownership.go): dials,
      workers and closes of each device in any interleaving.
    - [TrustTunnel], [TrustTunnelTheorems]: trusttunnel/trusttunnel_device.go,
      native_readiness.go and internal/config.go, the process's one native
      engine, its readiness and the configuration it is given.
    - [Xray], [XrayTheorems]: xray/xray_device.go with internal/config.go,
      utils.go and dialer_owner.go, the instances of the process and the document
      each is given.
    - [Bridge], [BridgeTheorems]: sessionapi/runtimebridge/native.go, the
      constructors of the three devices behind the protocol interface, with nil
      pointers in interface values, and what [Runtime] makes of them.
    - [Published], [Restore], [RestoreTheorems], [SavedTheorems]:
      sessionapi/restore.go, automatic activation running between the steps of
      the session machine, and the saved selection over every history.
    - [Files], [FilesLogic]: files, permissions, links, flushes and power
      failures as a small monad with triples.  On top of it [SourceStore],
      [SourceStoreTheorems], [StoreTheorems]: sessionapi/source_store.go and
      source_replace_unix.go, and that they implement the store of [Manager].
    - [MobilePlatform], [MobilePlatformTheorems]: sessionapi/mobilebinding
      (platform.go, ownership.go, platform_mobile.go), the shell's descriptors
      and the published states.
    - [OutputGuard], [OutputGuardTheorems]: routing/filter_linux.go and the
      capture of the resolver in internal/app_linux.go; the kernel's packet
      filter is the interface [Netfilter] with its laws.
    - [Probe], [ProbeTheorems]: probe/probe.go, from the SOCKS endpoint to the
      average latency or the errors of all endpoints.
    - [ControlLines], [Control], [ControlTheorems]: the command boundary,
      sessionapi/wire/response.go, mobilebinding/binding.go, log_upload.go,
      clientserver/controljson (server.go, serve.go, client.go) and the peer
      check of controlplane/unix.go.  Its clients see the manager as the
      interface [managerAPI], which [managerAlone] implements with [Manager],
      and encoding/json as the interface [Codec].
    - [Cli], [CliTheorems]: cmd/dobbyvpn/main.go, the commands as programs over
      the calls of the client of [Control].
    - [UdpAssociation], [UdpAssociationTheorems]: outline/udp_association.go,
      one UDP association with its relays in any interleaving.

    ** How code becomes definitions

    Structs are records updated with [r <| f := v |>], enumerations are
    inductive types, maps are [gmap]s, pointers that are shared are keys into a
    heap.  Integers keep their width where they can wrap ([u64], [i64]).
    Fallible code returns [result] or an optional error; an operation that
    could panic or wait for a lock its caller holds returns [None] there, and a
    theorem says it does not happen.  A goroutine is a program counter: it moves
    from one critical section or environment call to the next, and the machine
    runs the steps of all goroutines in any order.  What lies outside src/core
    (the TOML decoder, url.Parse, SHA-256, resolvers, the packet stack, the
    protocol libraries, the kernel behind netlink) is a parameter or a reply
    that can be anything; the few assumptions are named hypotheses or the laws of
    an interface, with a witness.  The file system is a model of its own, in
    which any call may fail.

    ** What the theorems show

    The manager refines the session protocol: every event makes at most the
    one move its caller may make.  It never panics, drives the session with
    one goroutine, starts a protocol only behind active protection, gives
    protection up last, and ends a requested stop within a computed number of
    steps; its ledgers hold every live lease once; each API call does what its
    result says.  A refused start leaves all but what its own accepted
    configuration replaced, and answers with the reason.  A document is
    accepted exactly when it is acceptable; each profile is made from its own
    block of it, and cannot switch certificate verification off; loading is
    bounded and stays on HTTPS.  A bypass policy covers exactly its entries.
    A cleaned-up attempt leaves no socket open, and sockets belong to the one
    current attempt of the one engine.  The runtime releases what it acquires
    once, in reverse order, and never deadlocks on its own lock; a start
    behind a network that was never built panics, recorded as an example;
    readiness and the health monitor decide exactly by their checks.  The
    mobile runtime accounts for its engine and its descriptor even when the
    platform panics: a running engine's wrapper is closed only where the
    engine was handed the descriptor.  The packet engine's teardown runs each
    phase once however often it is retried.  A routing plan releases
    everything once, and recovery after a crash removes all of what the
    program installed and nothing else, where a rule or a route is the
    program's by the values of its fields.  A desktop Disconnect that succeeds
    leaves nothing held; one interleaving of a canceled Connect, recorded as a
    theorem, leaves the desktop runtime in STOPPING for good.  No socket is
    used outside the tunnel before the platform agreed to exclude it.  After a
    Close that returned nil none of the protocol devices owns an open socket,
    and a stream of a canceled Outline dial is closed once or handed off once.
    A lookup is answered by the resolver of the network that is current when
    it returns, and following aliases ends with addresses of the host's own
    names.  The process has one native TrustTunnel engine and one Xray
    instance at a time, each with a configuration confined to its own
    authenticated local listener; TrustTunnel's engine connects to nothing but
    its device's forwarders, which listen while it runs.  A device whose
    constructor fails leaves the runtime with a close that never succeeds,
    recorded as a theorem.  Restore starts only the selection its store held,
    with the inventory saved with it, and sleeps through no decision; the
    saved selection stays well formed.  A save of the configuration URL is
    atomic and private whatever fails, nothing is reached through a symbolic
    link, and the files implement the store the manager works with.  A
    descriptor of the shell has one owner, and the last state published is
    told last.  While the output guard's table stands a packet leaves exactly
    by the VPN, the loopback, the program's mark or as bootstrap traffic; an
    update whose answer was lost can leave stale exceptions in force, recorded
    as a theorem; what an acquisition left in the kernel, a failed one
    included, is given back by the Close.  The connectivity probe succeeds
    with its quorum and reports the furthest stage reached.  Only the
    installed user's requests run, a line is read as it was written, and a
    command reaches the manager and its answer the client.  A start command
    that succeeds has seen its session connected and any other accepted one is
    cleaned up.  A UDP association relays only its client's datagrams, each to
    its destination's connection, and closes what it dialed.

    ** Bounds and fuel

    Recursion is structural except for trimming and scanning text, which is
    given the length of the text, and for the redirect loop of an HTTP fetch,
    which is given eleven rounds: the redirect policy refuses the eleventh
    request, and [loading_is_bounded_and_https] proves that the fuel never
    runs out.  Following aliases inside one DNS answer is given one round more
    than the answer has records, which is enough because no name repeats; the
    rounds of questions end with the context, and
    [captured_lookup_answers_for_the_host] states both.  Resolving a path
    follows at most [maxLinks] nested links, as the kernel does.  Reading a
    line is given one round more than the bytes to come, and
    [lines_are_read_as_written] proves that this is enough.  The polls of a
    command are given more rounds than its context leaves it calls, and
    [every_command_ends] proves that they suffice.  The number of steps of a
    requested stop is a measure of the state, not a bound put in.

    ** Not modelled

    Code that only calls an operating system and whose effects are not in the
    source: routing, filters, TUN devices, socket options and resolvers of
    Windows and macOS, D-Bus requests to systemd-resolved, the path and
    permissions of the control socket, JNI and cgo bindings.  Third-party
    protocol stacks and the packet stack.  Log files, their rotation and export.
    The service process and the command that prints and uploads logs.  Other
    processes that change the stored files during a save.
    Log lines, the timing of timers and the memory model below critical sections
    are left out everywhere. *)

From Stdlib Require Export ZArith Lia.
From stdpp Require Export base gmap strings pretty option list.

#[global] Set Default Goal Selector "!".

(** Arithmetic stays folded under [simpl] and [cbn]. *)
#[global] Arguments Z.ltb : simpl never.
#[global] Arguments Z.leb : simpl never.
#[global] Arguments Z.add : simpl never.
#[global] Arguments Z.sub : simpl never.
#[global] Arguments Z.mul : simpl never.
#[global] Arguments Z.of_nat : simpl never.

(** * Record update

    Go structs are mutated field by field.  [r <| f := v |>] is the record [r]
    with field [f] replaced; [r <| f ::= g |>] applies [g] to the field.  A
    record type opts in by giving its eta expansion. *)

Class Settable (R : Type) := eta_of : R -> R.
Class FieldSetter {R T : Type} (proj : R -> T) := upd_field : (T -> T) -> R -> R.

Arguments eta_of {R} {_} /.
Arguments upd_field {R T} proj {_} _ / _.

Ltac derive_setter :=
  lazymatch goal with
  | |- @FieldSetter ?R ?T ?proj =>
      let inst := constr:(_ : Settable R) in
      let body := eval hnf in inst in
      lazymatch eval pattern proj in body with
      | ?build _ =>
          let setter := eval cbv beta in
            (fun (g : T -> T) => build (fun r : R => g (proj r))) in
          exact setter
      end
  end.

#[global] Hint Extern 0 (FieldSetter _) => derive_setter : typeclass_instances.

Declare Scope record_scope.
Delimit Scope record_scope with record.
#[global] Open Scope record_scope.
#[warnings="-postfix-notation-not-level-1"]
Notation "r <| f ::= g |>" := (upd_field f g r)
  (at level 12, f at next level, left associativity) : record_scope.
#[warnings="-postfix-notation-not-level-1"]
Notation "r <| f := v |>" := (upd_field f (fun _ => v) r)
  (at level 12, f at next level, left associativity) : record_scope.

(** * Results of fallible code *)

Inductive result (A E : Type) : Type :=
| Ok (a : A)
| Err (e : E).
Arguments Ok {A E} a.
Arguments Err {A E} e.

Declare Scope result_scope.
Delimit Scope result_scope with result.
Notation "'let?' x ':=' c 'in' k" :=
  (match c with Ok x => k | Err e => Err e end)
  (at level 10, x pattern, c at level 100, k at level 200) : result_scope.

Definition is_ok {A E} (r : result A E) : bool :=
  match r with Ok _ => true | Err _ => false end.

(** * Machine integers *)

Definition u64 (z : Z) : Z := (z mod 2 ^ 64)%Z.
Definition i64 (z : Z) : Z := ((z + 2 ^ 63) mod 2 ^ 64 - 2 ^ 63)%Z.
Definition i32 (z : Z) : Z := ((z + 2 ^ 31) mod 2 ^ 32 - 2 ^ 31)%Z.
Definition max_int32 : Z := 2147483647%Z.
Definition max_uint32 : Z := 4294967295%Z.
Definition max_int64 : Z := 9223372036854775807%Z.

(** * Stacks of closers

    Several owners of the program keep a stack of release functions, run them
    from the top and stop at the first failure, keeping the failed entry.
    [unwind run l] is that discipline for a stack whose first element is
    released first: it returns what is still owned and the error. *)

Section unwind.
Context {A E : Type} (run : A -> option E).

Fixpoint unwind (l : list A) : list A * option E :=
  match l with
  | [] => ([], None)
  | a :: rest =>
      match run a with
      | Some e => (a :: rest, Some e)
      | None => unwind rest
      end
  end.
End unwind.

(** * Automation *)

Create HintDb dobby.
Create Rewrite HintDb dobby.

(** Split the boolean tests of the translated code. *)
Ltac split_bools :=
  repeat match goal with
    | H : _ && _ = true |- _ => apply andb_true_iff in H; destruct H
    | H : _ || _ = false |- _ => apply orb_false_iff in H; destruct H
    | H : negb _ = true |- _ => apply negb_true_iff in H
    | H : negb _ = false |- _ => apply negb_false_iff in H
    | H : bool_decide _ = true |- _ => apply bool_decide_eq_true in H
    | H : bool_decide _ = false |- _ => apply bool_decide_eq_false in H
    | H : (_ =? _)%Z = true |- _ => apply Z.eqb_eq in H
    | H : (_ =? _)%Z = false |- _ => apply Z.eqb_neq in H
    | H : (_ <? _)%Z = true |- _ => apply Z.ltb_lt in H
    | H : (_ <? _)%Z = false |- _ => apply Z.ltb_ge in H
    | H : (_ <=? _)%Z = true |- _ => apply Z.leb_le in H
    | H : (_ <=? _)%Z = false |- _ => apply Z.leb_gt in H
    end.

(** Case analysis on the scrutinee of a [match] or [if] in the goal. *)
Ltac split_match :=
  match goal with
  | |- context [match ?x with _ => _ end] => destruct x eqn:?
  end.

(** * Lemmas shared by the components *)

Lemma u64_range z : (0 <= u64 z < 2 ^ 64)%Z.
Proof. apply Z.mod_pos_bound. lia. Qed.

Lemma u64_small z : (0 <= z < 2 ^ 64)%Z -> u64 z = z.
Proof. apply Z.mod_small. Qed.

Lemma u64_succ_u64 z : u64 (u64 z + 1) = u64 (z + 1).
Proof. unfold u64. by rewrite Zplus_mod_idemp_l. Qed.

Lemma u64_add_u64 a b : u64 (u64 a + b) = u64 (a + b).
Proof. unfold u64. by rewrite Zplus_mod_idemp_l. Qed.

Lemma i64_small z : (- 2 ^ 63 <= z < 2 ^ 63)%Z -> i64 z = z.
Proof. intros ?. unfold i64. rewrite Z.mod_small; lia. Qed.

Lemma i32_small z : (- 2 ^ 31 <= z < 2 ^ 31)%Z -> i32 z = z.
Proof. intros ?. unfold i32. rewrite Z.mod_small; lia. Qed.

Section unwind_lemmas.
Context {A E : Type} (run : A -> option E).

(** What was released succeeded, in order, and what remains starts with the
    entry that failed. *)
Lemma unwind_spec l rest err :
  unwind run l = (rest, err) ->
  exists released,
    l = released ++ rest /\
    Forall (fun a => run a = None) released /\
    match err with
    | None => rest = []
    | Some e => exists a tl, rest = a :: tl /\ run a = Some e
    end.
Proof.
  revert rest err. induction l as [|a l IH]; intros rest err Hr; simpl in Hr.
  - simplify_eq. by exists [].
  - destruct (run a) as [e|] eqn:Ha; simplify_eq.
    + exists []. split_and!; [done|constructor|by eauto].
    + destruct (IH _ _ Hr) as (rel & -> & Hall & Herr).
      exists (a :: rel). split_and!; [done|by constructor|done].
Qed.

Lemma unwind_all_ok l :
  Forall (fun a => run a = None) l -> unwind run l = ([], None).
Proof. induction 1 as [|a l Ha _ IH]; simpl; [done|by rewrite Ha]. Qed.

Lemma unwind_none l rest : unwind run l = (rest, None) -> rest = [].
Proof. intros (? & _ & _ & H)%unwind_spec. done. Qed.

Lemma unwind_suffix l rest err :
  unwind run l = (rest, err) -> rest `suffix_of` l.
Proof. intros (rel & -> & _)%unwind_spec. by exists rel. Qed.
End unwind_lemmas.

(** * Sums over finite maps *)

Section csum.
Context {A : Type}.
Implicit Types (f : A -> Z) (m : gmap nat A).

Definition csum f m : Z := map_fold (fun _ a acc => (f a + acc)%Z) 0%Z m.

Lemma csum_empty f : csum f ∅ = 0%Z.
Proof. apply map_fold_empty. Qed.

Lemma csum_insert f i a m : m !! i = None -> csum f (<[i := a]> m) = (f a + csum f m)%Z.
Proof. intros Hi. unfold csum. rewrite map_fold_insert_L; [done| |done]. intros. lia. Qed.

Lemma csum_delete f i a m : m !! i = Some a -> csum f (delete i m) = (csum f m - f a)%Z.
Proof.
  intros Hi. rewrite <- (insert_delete_id m i a Hi) at 2.
  rewrite csum_insert by apply lookup_delete_eq. lia.
Qed.

Lemma csum_update f i a b m :
  m !! i = Some a -> csum f (<[i := b]> m) = (csum f m - f a + f b)%Z.
Proof.
  intros Hi. rewrite <- insert_delete_eq.
  rewrite csum_insert by apply lookup_delete_eq. rewrite (csum_delete f i a) by done. lia.
Qed.

Lemma csum_nonneg f m : (forall a, (0 <= f a)%Z) -> (0 <= csum f m)%Z.
Proof.
  intros Hf. induction m as [|i a m Hi IH] using map_ind; [by rewrite csum_empty|].
  rewrite csum_insert by done. specialize (Hf a). lia.
Qed.

Lemma csum_zero f m i a :
  (forall a, (0 <= f a)%Z) -> csum f m = 0%Z -> m !! i = Some a -> f a = 0%Z.
Proof.
  intros Hf Hs Hi. pose proof (csum_delete f i a m Hi) as Hd.
  pose proof (csum_nonneg f (delete i m) Hf). specialize (Hf a). lia.
Qed.

Lemma csum_all_zero f m : (forall i a, m !! i = Some a -> f a = 0%Z) -> csum f m = 0%Z.
Proof.
  induction m as [|i a m Hi IH] using map_ind; intros Hf; [apply csum_empty|].
  rewrite csum_insert by done. rewrite (Hf i a) by apply lookup_insert_eq.
  rewrite IH; [done|]. intros j b Hj. apply (Hf j b). rewrite lookup_insert_ne; congruence.
Qed.
End csum.

#[export] Hint Resolve u64_range unwind_none unwind_suffix : dobby.
#[export] Hint Rewrite u64_succ_u64 u64_add_u64 : dobby.
