(* ===== verification/Errors.v ===== *)
(** * Error values

    Go errors as the program builds and inspects them: [errors.Join],
    [fmt.Errorf] with [%w], the typed [sessionapi.Error] and
    [sessionapi.CleanupFailure] (core/sessionapi/api.go), [errors.Is] and
    [errors.As] as searches of the wrapping tree, and the classifiers the
    components share: [CodeOf], [wrapFailure], [safeConfigError],
    [onlyCanceledLeaves] (core/sessionapi/runtime/lifecycle.go) and
    [routineDisconnect] (core/clientserver/controljson/serve.go). *)

From S2P Require Import Prelude.

(** The failure vocabulary; [NoFailure] is the empty string, the zero value. *)
Inductive FailureCode :=
| NoFailure
| FailureInvalidArgument
| FailureNotFound
| FailureConflict
| FailureNotConfigured
| FailureStaleGeneration
| FailureUnsupported
| FailureMalformedConfig
| FailureProbe
| FailurePlatform
| FailureRuntime
| FailureCanceled
| FailureInternal
| FailureCleanup.

#[export] Instance FailureCode_eq_dec : EqDecision FailureCode.
Proof. solve_decision. Defined.

Definition FailureCode_string (c : FailureCode) : string :=
  match c with
  | NoFailure => ""
  | FailureInvalidArgument => "INVALID_ARGUMENT"
  | FailureNotFound => "NOT_FOUND"
  | FailureConflict => "CONFLICT"
  | FailureNotConfigured => "NOT_CONFIGURED"
  | FailureStaleGeneration => "STALE_GENERATION"
  | FailureUnsupported => "UNSUPPORTED"
  | FailureMalformedConfig => "MALFORMED_CONFIG"
  | FailureProbe => "PROBE_FAILED"
  | FailurePlatform => "PLATFORM_FAILED"
  | FailureRuntime => "RUNTIME_FAILED"
  | FailureCanceled => "CANCELED"
  | FailureInternal => "INTERNAL"
  | FailureCleanup => "CLEANUP_FAILED"
  end.

(** Standard-library error values compared by identity. *)
Inductive sentinel :=
| CtxCanceled
| CtxDeadlineExceeded
| NetErrClosed
| OsErrNotExist
| OsErrClosed
| IoEOF
| IoUnexpectedEOF
| IoShortWrite
| BufioErrBufferFull
| ErrUnsupported
| SyscallEPIPE
| SyscallECONNRESET
| WindowsErrorNoData.

#[export] Instance sentinel_eq_dec : EqDecision sentinel.
Proof. solve_decision. Defined.

Definition sentinel_text (s : sentinel) : string :=
  match s with
  | CtxCanceled => "context canceled"
  | CtxDeadlineExceeded => "context deadline exceeded"
  | NetErrClosed => "use of closed network connection"
  | OsErrNotExist => "file does not exist"
  | OsErrClosed => "file already closed"
  | IoEOF => "EOF"
  | IoUnexpectedEOF => "unexpected EOF"
  | IoShortWrite => "short write"
  | BufioErrBufferFull => "bufio: buffer full"
  | ErrUnsupported => "unsupported operation"
  | SyscallEPIPE => "broken pipe"
  | SyscallECONNRESET => "connection reset by peer"
  | WindowsErrorNoData => "The pipe is being closed."
  end.

(** A non-nil [error]; nil is [None] of [option gerr]. *)
#[warnings="-register-all"]
Inductive gerr :=
| ESent (s : sentinel)
| EText (text : string)
| EWrap (prefix : string) (inner : gerr)
| EJoin (errs : list gerr)
| EDomain (Code : FailureCode) (Message : string) (Cause : option gerr)
| ECleanup (Err : gerr).

Definition newline : string := String (Ascii.ascii_of_nat 10) EmptyString.

(** [Error() string]. *)
Fixpoint error_text (e : gerr) : string :=
  match e with
  | ESent s => sentinel_text s
  | EText m => m
  | EWrap p inner => p +:+ ": " +:+ error_text inner
  | EJoin errs => String.concat newline (map error_text errs)
  | EDomain c m None => FailureCode_string c +:+ ": " +:+ m
  | EDomain c m (Some cause) =>
      FailureCode_string c +:+ ": " +:+ m +:+ ": " +:+ error_text cause
  | ECleanup inner => "cleanup failed: " +:+ error_text inner
  end.

(** [errors.Join]: nil members are dropped, no member left is nil. *)
Definition join (errs : list (option gerr)) : option gerr :=
  match omap id errs with
  | [] => None
  | es => Some (EJoin es)
  end.

(** [errors.Is(err, target)] for a sentinel. *)
Fixpoint is_sent (target : sentinel) (e : gerr) : bool :=
  match e with
  | ESent s => bool_decide (s = target)
  | EText _ => false
  | EWrap _ inner => is_sent target inner
  | EJoin errs => existsb (is_sent target) errs
  | EDomain _ _ None => false
  | EDomain _ _ (Some cause) => is_sent target cause
  | ECleanup inner => is_sent target inner
  end.

Definition errors_Is (e : option gerr) (target : sentinel) : bool :=
  match e with Some e => is_sent target e | None => false end.

(** Closing a socket failed; [net.ErrClosed] says it was closed before. *)
Definition closeFailed (err : option gerr) : bool :=
  match err with Some e => negb (is_sent NetErrClosed e) | None => false end.

(** [errors.As(err, **CleanupFailure)]. *)
Fixpoint has_cleanup (e : gerr) : bool :=
  match e with
  | ESent _ | EText _ => false
  | EWrap _ inner => has_cleanup inner
  | EJoin errs => existsb has_cleanup errs
  | EDomain _ _ None => false
  | EDomain _ _ (Some cause) => has_cleanup cause
  | ECleanup _ => true
  end.

(** [errors.As(err, **Error)]: the code of the first one in pre-order. *)
Fixpoint as_domain (e : gerr) : option FailureCode :=
  match e with
  | ESent _ | EText _ => None
  | EWrap _ inner => as_domain inner
  | EJoin errs =>
      (fix first (l : list gerr) : option FailureCode :=
         match l with
         | [] => None
         | x :: l' =>
             match as_domain x with Some c => Some c | None => first l' end
         end) errs
  | EDomain c _ _ => Some c
  | ECleanup inner => as_domain inner
  end.

Definition failure (code : FailureCode) (message : string) : gerr :=
  EDomain code message None.

Definition failureWithCause (code : FailureCode) (message : string)
    (cause : option gerr) : gerr :=
  EDomain code message cause.

Definition CodeOf (err : option gerr) : FailureCode :=
  match err with
  | None => FailureInternal
  | Some e =>
      if has_cleanup e then FailureCleanup
      else match as_domain e with
           | Some c => c
           | None => FailureInternal
           end
  end.

Definition wrapFailure (code : FailureCode) (err : option gerr) : option gerr :=
  match err with
  | None => None
  | Some e =>
      if bool_decide (code = FailureCleanup) then
        Some (failureWithCause FailureCleanup "cleanup failed" (Some e))
      else if has_cleanup e then
        Some (failureWithCause FailureCleanup "cleanup failed" (Some e))
      else match as_domain e with
           | Some _ => Some e
           | None => Some (failureWithCause code "operation failed" (Some e))
           end
  end.

Definition errorMessage (err : option gerr) : string :=
  match err with None => "" | Some e => error_text e end.

(** [looks_like_url] is the match of [sourceSchemeRE] on the trimmed source. *)
Definition safeConfigError (looks_like_url : bool) (err : gerr) : gerr :=
  if is_sent CtxCanceled err then
    failureWithCause FailureCanceled "configuration loading was canceled" (Some err)
  else if is_sent CtxDeadlineExceeded err then
    failureWithCause FailureCanceled "configuration loading timed out" (Some err)
  else match as_domain err with
       | Some _ => err
       | None =>
           if looks_like_url then
             failureWithCause FailureInvalidArgument
               "configuration URL could not be fetched" (Some err)
           else
             failureWithCause FailureInvalidArgument
               "configuration could not be loaded" (Some err)
       end.

Definition markCleanupFailure (err : option gerr) : option gerr :=
  match err with None => None | Some e => Some (ECleanup e) end.

Fixpoint onlyCanceledLeaves (e : gerr) : bool :=
  match e with
  | EJoin [] => false
  | EJoin errs => forallb onlyCanceledLeaves errs
  | EWrap _ inner => onlyCanceledLeaves inner
  | EDomain _ _ (Some cause) => onlyCanceledLeaves cause
  | ECleanup inner => onlyCanceledLeaves inner
  | ESent s => bool_decide (s = CtxCanceled)
  | EText _ => false
  | EDomain _ _ None => false
  end.

(** [isPlatformRoutineDisconnect] of the Windows build and of the others. *)
Definition isPlatformRoutineDisconnect (windows : bool) (e : gerr) : bool :=
  windows && is_sent WindowsErrorNoData e.

Fixpoint routineDisconnect (windows : bool) (e : gerr) : bool :=
  match e with
  | EJoin [] => false
  | EJoin errs => forallb (routineDisconnect windows) errs
  | EWrap _ inner => routineDisconnect windows inner
  | EDomain _ _ (Some cause) => routineDisconnect windows cause
  | EDomain _ _ None => false
  | ECleanup inner => routineDisconnect windows inner
  | ESent _ | EText _ =>
      is_sent IoEOF e || is_sent NetErrClosed e || is_sent SyscallEPIPE e ||
      is_sent SyscallECONNRESET e || isPlatformRoutineDisconnect windows e
  end.

(** The errors at the ends of the wrapping tree, the reference the two leaf
    classifiers are compared with. *)
Fixpoint leaves (e : gerr) : list gerr :=
  match e with
  | EJoin [] => [e]
  | EJoin errs => concat (map leaves errs)
  | EWrap _ inner => leaves inner
  | EDomain _ _ (Some cause) => leaves cause
  | ECleanup inner => leaves inner
  | ESent _ | EText _ | EDomain _ _ None => [e]
  end.

Definition routine_leaf (windows : bool) (e : gerr) : bool :=
  match e with
  | ESent IoEOF | ESent NetErrClosed | ESent SyscallEPIPE
  | ESent SyscallECONNRESET => true
  | ESent WindowsErrorNoData => windows
  | _ => false
  end.

(** ** Induction over the wrapping tree *)

Section gerr_ind.
Variable P : gerr -> Prop.
Hypothesis HSent : forall s, P (ESent s).
Hypothesis HText : forall m, P (EText m).
Hypothesis HWrap : forall p e, P e -> P (EWrap p e).
Hypothesis HJoin : forall es, Forall P es -> P (EJoin es).
Hypothesis HLeafDomain : forall c m, P (EDomain c m None).
Hypothesis HDomain : forall c m e, P e -> P (EDomain c m (Some e)).
Hypothesis HCleanup : forall e, P e -> P (ECleanup e).

Fixpoint gerr_tree_ind (e : gerr) : P e :=
  match e with
  | ESent s => HSent s
  | EText m => HText m
  | EWrap p e => HWrap p e (gerr_tree_ind e)
  | EJoin es =>
      HJoin es ((fix go (l : list gerr) : Forall P l :=
        match l with
        | [] => Forall_nil_2 P
        | x :: l' => Forall_cons_2 P x l' (gerr_tree_ind x) (go l')
        end) es)
  | EDomain c m None => HLeafDomain c m
  | EDomain c m (Some e) => HDomain c m e (gerr_tree_ind e)
  | ECleanup e => HCleanup e (gerr_tree_ind e)
  end.
End gerr_ind.

(** ** Lemmas *)

Lemma join_None errs : join errs = None <-> Forall (fun e => e = None) errs.
Proof.
  unfold join. induction errs as [|[e|] errs IH]; simpl.
  - split; [constructor|done].
  - split; [done|]. intros H. by inversion H.
  - split.
    + intros H. constructor; [done|]. by apply IH.
    + intros H. inversion H. by apply IH.
Qed.

Lemma join_pair_None a b : join [a; b] = None -> a = None /\ b = None.
Proof. by destruct a, b. Qed.

Lemma join_Some_inv errs e :
  join errs = Some e -> e = EJoin (omap id errs) /\ omap id errs <> [].
Proof. unfold join. destruct (omap id errs); intros; simplify_eq; done. Qed.

Lemma join_single e : join [Some e] = Some (EJoin [e]).
Proof. done. Qed.

Lemma CodeOf_cleanup e : has_cleanup e = true -> CodeOf (Some e) = FailureCleanup.
Proof. intros H. unfold CodeOf. by rewrite H. Qed.

Lemma has_cleanup_join errs e :
  In (Some e) errs -> has_cleanup e = true ->
  exists j, join errs = Some j /\ has_cleanup j = true.
Proof.
  intros Hin He. destruct (join errs) as [j|] eqn:Hj.
  - exists j. split; [done|]. apply join_Some_inv in Hj as [-> _]. simpl.
    apply existsb_exists. exists e. split; [|done].
    apply list_elem_of_In, list_elem_of_omap.
    exists (Some e). split; [by apply list_elem_of_In|done].
  - apply join_None in Hj. eapply List.Forall_forall in Hj; [|exact Hin]. done.
Qed.

Lemma wrapFailure_Some code e : exists e', wrapFailure code (Some e) = Some e'.
Proof. unfold wrapFailure. repeat case_match; eauto. Qed.

#[export] Hint Resolve CodeOf_cleanup wrapFailure_Some : dobby.

Lemma leaves_nonempty e : leaves e <> [].
Proof.
  induction e as [| | |es IH|c m|c m e IH|e IH] using gerr_tree_ind; simpl; try done.
  destruct es as [|x es]; [done|]. inversion IH as [|? ? Hx _]; subst. simpl.
  by intros [Hnil _]%app_nil.
Qed.

(** Both leaf classifiers are "every leaf satisfies [leaf_ok]". *)
Lemma forallb_leaves (f leaf_ok : gerr -> bool) es :
  Forall (fun e => f e = forallb leaf_ok (leaves e)) es ->
  forallb f es = forallb leaf_ok (concat (map leaves es)).
Proof.
  induction 1 as [|x es Hx _ IH]; simpl; [done|].
  by rewrite forallb_app, Hx, IH.
Qed.

Lemma onlyCanceledLeaves_leaves e :
  onlyCanceledLeaves e =
  forallb (fun l => match l with ESent CtxCanceled => true | _ => false end) (leaves e).
Proof.
  induction e as [s|m|p e IH|es IH|c m|c m e IH|e IH] using gerr_tree_ind; simpl; try done.
  - by destruct s.
  - destruct es as [|x es]; [done|].
    exact (forallb_leaves _ _ _ IH).
Qed.

Lemma routineDisconnect_leaves w e :
  routineDisconnect w e = forallb (routine_leaf w) (leaves e).
Proof.
  induction e as [s|m|p e IH|es IH|c m|c m e IH|e IH] using gerr_tree_ind; simpl; try done.
  - unfold isPlatformRoutineDisconnect. destruct s, w; done.
  - unfold isPlatformRoutineDisconnect. by destruct w.
  - destruct es as [|x es]; [done|].
    exact (forallb_leaves _ _ _ IH).
Qed.
