(* ===== verification/Values.v ===== *)
(** * Accepted protocol payloads (core/protocol/config.go)

    The open [map[string]any] values a TOML document decodes to, the
    normalising deep clone [CloneFields], and the accepted payload [Config].
    A Go map is an association list: the code only looks keys up, tests for
    presence and rebuilds maps, so the enumeration order is not observable. *)

From S2P Require Import Prelude.
From Stdlib Require Import SpecFloat.

#[warnings="-register-all"]
Inductive any :=
| ANil
| AString (s : string)
| AInt64 (z : Z)
| AInt (z : Z)
| AFloat64 (f : spec_float)
| ABool (b : bool)
| AMap (m : list (string * any))
| ASlice (l : list any)
| AMapSlice (l : list (list (string * any)))
| AStringSlice (l : list string)
| AOpaque (tag : string).

Definition fields : Type := list (string * any).

(** [value, present := m[key]] *)
Fixpoint lookup_field (key : string) (m : fields) : option any :=
  match m with
  | [] => None
  | (k, v) :: m' => if String.eqb k key then Some v else lookup_field key m'
  end.

(** [m[key]], the zero value [nil] when the key is absent. *)
Definition field (key : string) (m : fields) : any :=
  match lookup_field key m with Some v => v | None => ANil end.

Definition set_field (key : string) (v : any) (m : fields) : fields :=
  (key, v) :: List.filter (fun kv => negb (String.eqb kv.1 key)) m.

Definition delete_field (key : string) (m : fields) : fields :=
  List.filter (fun kv => negb (String.eqb kv.1 key)) m.

Fixpoint cloneValue (value : any) : any :=
  match value with
  | AMap m => AMap (map (fun kv => (kv.1, cloneValue kv.2)) m)
  | ASlice l => ASlice (map cloneValue l)
  | AMapSlice l =>
      ASlice (map (fun m => AMap (map (fun kv => (kv.1, cloneValue kv.2)) m)) l)
  | AStringSlice l => ASlice (map AString l)
  | v => v
  end.

Definition CloneFields (m : fields) : fields :=
  map (fun kv => (kv.1, cloneValue kv.2)) m.

(** No [[]map[string]any] and no [[]string] anywhere: the shape JSON arrays
    have. *)
Fixpoint json_shaped (v : any) : bool :=
  match v with
  | AMap m => forallb (fun kv => json_shaped kv.2) m
  | ASlice l => forallb json_shaped l
  | AMapSlice _ | AStringSlice _ => false
  | _ => true
  end.

Record Config := mkConfig {
  OutlineURL : string;
  Xray : fields;
  TrustTunnel : fields
}.

Definition Empty (c : Config) : bool :=
  String.eqb (OutlineURL c) "" && bool_decide (length (Xray c) = 0) &&
  bool_decide (length (TrustTunnel c) = 0).

(** ** Induction over nested values *)

Section any_ind.
Variable P : any -> Prop.
Hypothesis HLeaf : forall v, cloneValue v = v -> json_shaped v = true -> P v.
Hypothesis HMap : forall m, Forall (fun kv => P kv.2) m -> P (AMap m).
Hypothesis HSlice : forall l, Forall P l -> P (ASlice l).
Hypothesis HMapSlice :
  forall l, Forall (Forall (fun kv => P kv.2)) l -> P (AMapSlice l).
Hypothesis HStrings : forall l, P (AStringSlice l).

Fixpoint any_tree_ind (v : any) : P v :=
  let fields_ind :=
    fix go (m : list (string * any)) : Forall (fun kv => P kv.2) m :=
      match m with
      | [] => Forall_nil_2 _
      | kv :: m' => Forall_cons_2 (fun kv => P kv.2) kv m' (any_tree_ind kv.2) (go m')
      end in
  match v with
  | AMap m => HMap m (fields_ind m)
  | ASlice l =>
      HSlice l ((fix go (l : list any) : Forall P l :=
        match l with
        | [] => Forall_nil_2 _
        | x :: l' => Forall_cons_2 P x l' (any_tree_ind x) (go l')
        end) l)
  | AMapSlice l =>
      HMapSlice l ((fix go (l : list (list (string * any))) :
          Forall (Forall (fun kv => P kv.2)) l :=
        match l with
        | [] => Forall_nil_2 _
        | x :: l' => Forall_cons_2 (Forall (fun kv => P kv.2)) x l' (fields_ind x) (go l')
        end) l)
  | AStringSlice l => HStrings l
  | ANil => HLeaf ANil eq_refl eq_refl
  | AString s => HLeaf (AString s) eq_refl eq_refl
  | AInt64 z => HLeaf (AInt64 z) eq_refl eq_refl
  | AInt z => HLeaf (AInt z) eq_refl eq_refl
  | AFloat64 f => HLeaf (AFloat64 f) eq_refl eq_refl
  | ABool b => HLeaf (ABool b) eq_refl eq_refl
  | AOpaque t => HLeaf (AOpaque t) eq_refl eq_refl
  end.
End any_ind.

(** ** Lemmas *)

Lemma forallb_map_Forall {A B} (g : A -> B) (p : B -> bool) (l : list A) :
  Forall (fun x => p (g x) = true) l -> forallb p (map g l) = true.
Proof. induction 1 as [|x l Hx _ IH]; simpl; [done|by rewrite Hx, IH]. Qed.

Lemma map_Forall_ext {A B} (f g : A -> B) (l : list A) :
  Forall (fun x => f x = g x) l -> map f l = map g l.
Proof. induction 1 as [|x l Hx _ IH]; simpl; [done|by rewrite Hx, IH]. Qed.

Lemma cloneValue_shaped v : json_shaped (cloneValue v) = true.
Proof.
  induction v as [v Hc Hs|m IH|l IH|l IH|l] using any_tree_ind; simpl.
  - by rewrite Hc.
  - by apply forallb_map_Forall.
  - by apply forallb_map_Forall.
  - apply forallb_map_Forall. eapply Forall_impl; [exact IH|]. intros m Hm. simpl.
    by apply forallb_map_Forall.
  - apply forallb_map_Forall, Forall_true. done.
Qed.

Lemma cloneValue_json_id v : json_shaped v = true -> cloneValue v = v.
Proof.
  induction v as [v Hc Hs|m IH|l IH|l IH|l] using any_tree_ind; simpl; intros Hv; try done.
  - f_equal. rewrite <- (map_id m) at 2. apply map_Forall_ext.
    rewrite forallb_forall in Hv. apply List.Forall_forall. intros [k x] Hin. simpl.
    f_equal. eapply List.Forall_forall in IH; [|exact Hin]. apply IH, (Hv (k, x) Hin).
  - f_equal. rewrite <- (map_id l) at 2. apply map_Forall_ext.
    rewrite forallb_forall in Hv. apply List.Forall_forall. intros x Hin.
    eapply List.Forall_forall in IH; [|exact Hin]. apply IH, (Hv x Hin).
Qed.

Lemma lookup_CloneFields key m :
  lookup_field key (CloneFields m) = option_map cloneValue (lookup_field key m).
Proof.
  induction m as [|[k v] m IH]; simpl; [done|]. by destruct (String.eqb k key).
Qed.

Lemma lookup_set_field key key' v m :
  lookup_field key' (set_field key v m) =
  if String.eqb key key' then Some v else lookup_field key' m.
Proof.
  unfold set_field. simpl. destruct (String.eqb_spec key key') as [->|Hne]; [done|].
  induction m as [|[k x] m IH]; [done|]. simpl.
  destruct (String.eqb_spec k key) as [->|Hk]; simpl.
  - destruct (String.eqb_spec key key'); done.
  - by rewrite IH.
Qed.

#[export] Hint Resolve cloneValue_shaped : dobby.
