(* ===== verification/Session.v ===== *)
(** * Session state and its pure predicates (core/sessionapi/api.go)

    The vocabulary shared by every binding (protocols, states, start targets,
    profiles), the [session] struct field by field, and the functions of
    api.go that only read it: the guards of [Configure], [Start] and [Stop],
    [canSwitch], [canRetry], [primaryActionLocked] and [snapshotLocked]. *)

From S2P Require Import Prelude Errors Values.

Inductive Protocol :=
| ProtocolNone
| ProtocolOutline
| ProtocolXray
| ProtocolTrustTunnel.

#[export] Instance Protocol_eq_dec : EqDecision Protocol.
Proof. solve_decision. Defined.

Definition Protocol_string (p : Protocol) : string :=
  match p with
  | ProtocolNone => ""
  | ProtocolOutline => "OUTLINE"
  | ProtocolXray => "XRAY"
  | ProtocolTrustTunnel => "TRUST_TUNNEL"
  end.

Inductive State :=
| StateIdle
| StateConfigured
| StateProbing
| StatePreparing
| StateConnected
| StateStopping
| StateFailed.

#[export] Instance State_eq_dec : EqDecision State.
Proof. solve_decision. Defined.

Definition State_string (s : State) : string :=
  match s with
  | StateIdle => "IDLE"
  | StateConfigured => "CONFIGURED"
  | StateProbing => "PROBING"
  | StatePreparing => "PREPARING"
  | StateConnected => "CONNECTED"
  | StateStopping => "STOPPING"
  | StateFailed => "FAILED"
  end.

Inductive StartMode :=
| AutoSelect
| ProfileIndex
| OtherMode (s : string).

#[export] Instance StartMode_eq_dec : EqDecision StartMode.
Proof. solve_decision. Defined.

Definition StartMode_string (m : StartMode) : string :=
  match m with
  | AutoSelect => "AUTO_SELECT"
  | ProfileIndex => "PROFILE_INDEX"
  | OtherMode s => s
  end.

Inductive ConfigSourceKind :=
| ConfigSourceNone
| ConfigSourceInline
| ConfigSourceURL.

#[export] Instance ConfigSourceKind_eq_dec : EqDecision ConfigSourceKind.
Proof. solve_decision. Defined.

Definition ConfigSourceKind_string (k : ConfigSourceKind) : string :=
  match k with
  | ConfigSourceNone => ""
  | ConfigSourceInline => "INLINE"
  | ConfigSourceURL => "URL"
  end.

Record ProfileSummary := mkProfileSummary {
  ps_Index : Z;
  ps_Protocol : Protocol;
  ps_Description : string
}.

Record RuntimeProfile := mkRuntimeProfile {
  rp_Summary : ProfileSummary;
  rp_Config : Config;
  rp_ExcludeCIDRs : list string
}.

Record ConfigureResult := mkConfigureResult {
  cr_Digest : string;
  cr_Sequence : Z;
  cr_Profiles : list ProfileSummary;
  cr_SourceKind : ConfigSourceKind
}.

(** [Source] is nil ([None]) when the accepted configuration is reused. *)
Record StartTarget := mkStartTarget {
  t_Mode : StartMode;
  t_Index : Z;
  t_ReplaceCurrent : bool;
  t_Digest : string;
  t_Source : option string
}.

#[export] Instance eta_StartTarget : Settable StartTarget := fun t =>
  mkStartTarget (t_Mode t) (t_Index t) (t_ReplaceCurrent t) (t_Digest t) (t_Source t).

Definition zeroTarget : StartTarget := mkStartTarget (OtherMode "") 0 false "" None.

Record Selection := mkSelection {
  sel_Digest : string;
  sel_Mode : StartMode;
  sel_Index : Z
}.

Record pendingStart := mkPendingStart {
  p_target : StartTarget;
  p_profiles : list RuntimeProfile;
  p_digest : string
}.

(** [StartResult] and [StopResult]. *)
Record GenerationResult := mkGenerationResult {
  gr_Generation : Z;
  gr_Sequence : Z
}.

Record StateChange := mkStateChange {
  sc_SessionID : string;
  sc_Generation : Z;
  sc_NetworkGeneration : Z;
  sc_State : State;
  sc_Failure : FailureCode
}.

Record SessionRef := mkSessionRef {
  ref_SessionID : string;
  ref_Generation : Z
}.

#[export] Instance SessionRef_eq_dec : EqDecision SessionRef.
Proof. solve_decision. Defined.

Record SnapshotResult := mkSnapshotResult {
  sn_SessionID : string;
  sn_Sequence : Z;
  sn_Generation : Z;
  sn_NetworkGeneration : Z;
  sn_VPNActive : bool;
  sn_CanRetry : bool;
  sn_State : State;
  sn_Configured : bool;
  sn_LogsUploadAvailable : bool;
  sn_Digest : string;
  sn_SourceKind : ConfigSourceKind;
  sn_SourceURL : string;
  sn_SourceError : string;
  sn_Profiles : list ProfileSummary;
  sn_ActiveDigest : string;
  sn_ActiveMode : StartMode;
  sn_ActiveIndex : Z;
  sn_PendingTarget : option Selection;
  sn_CanSwitch : bool;
  sn_ActiveProfile : option ProfileSummary;
  sn_LastFailure : FailureCode;
  sn_LastFailureMessage : string;
  sn_CleanupComplete : bool;
  sn_Recovering : bool;
  sn_PrimaryAction : string
}.

Definition second : Z := 1000000000%Z.
Definition autoRecoveryLimit : Z := 3%Z.
Definition autoRecoveryStable : Z := (5 * 60 * second)%Z.
Definition autoRecoveryMessage : string :=
  "Automatic reconnect limit reached. Check your connection and connect again.".

(** The [session] struct.  Pointers ([cleanupBudget], [networkLedger],
    [ledger], [cancel]) are addresses into the heaps of the manager; the
    [changed] channel is its epoch: the channel of epoch [n] is closed once
    the field holds a later epoch.  Times are nanoseconds. *)
Record session := mkSession {
  s_closing : bool;
  s_changed : nat;
  s_cleanupBudget : option nat;
  s_networkGeneration : Z;
  s_networkLedger : option nat;
  s_vpnActive : bool;
  s_stopRequested : bool;
  s_startOriginGeneration : Z;
  s_id : string;
  s_state : State;
  s_generation : Z;
  s_configured : bool;
  s_logsEndpoint : string;
  s_digest : string;
  s_sourceKind : ConfigSourceKind;
  s_sourceURL : string;
  s_sourceError : string;
  s_profiles : list RuntimeProfile;
  s_switchOriginGeneration : Z;
  s_configureRequest : Z;
  s_activeProfiles : list RuntimeProfile;
  s_activeDigest : string;
  s_pending : option pendingStart;
  s_active : option ProfileSummary;
  s_lastFailure : FailureCode;
  s_lastFailureMessage : string;
  s_cleanupDone : bool;
  s_cleanupFailed : bool;
  s_cancel : option nat;
  s_ledger : option nat;
  s_activeTarget : StartTarget;
  s_restartAfterCleanup : bool;
  s_failureAfterCleanup : FailureCode;
  s_failureMessageAfterCleanup : string;
  s_recovering : bool;
  s_recoveryOriginGeneration : Z;
  s_recoveryCount : Z;
  s_lastConnectedAt : Z;
  s_hasConnectedAt : bool;
  s_lastTransitionAt : option Z;
  s_sequence : Z
}.

#[export] Instance eta_session : Settable session := fun s =>
  mkSession (s_closing s) (s_changed s) (s_cleanupBudget s) (s_networkGeneration s)
    (s_networkLedger s) (s_vpnActive s) (s_stopRequested s) (s_startOriginGeneration s)
    (s_id s) (s_state s) (s_generation s) (s_configured s) (s_logsEndpoint s)
    (s_digest s) (s_sourceKind s) (s_sourceURL s) (s_sourceError s) (s_profiles s)
    (s_switchOriginGeneration s) (s_configureRequest s) (s_activeProfiles s)
    (s_activeDigest s) (s_pending s) (s_active s) (s_lastFailure s)
    (s_lastFailureMessage s) (s_cleanupDone s) (s_cleanupFailed s) (s_cancel s)
    (s_ledger s) (s_activeTarget s) (s_restartAfterCleanup s) (s_failureAfterCleanup s)
    (s_failureMessageAfterCleanup s) (s_recovering s) (s_recoveryOriginGeneration s)
    (s_recoveryCount s) (s_lastConnectedAt s) (s_hasConnectedAt s)
    (s_lastTransitionAt s) (s_sequence s).

(** The session [NewManager] builds; [id] is empty when no randomness was
    available. *)
Definition newSession (id : string) (sourceURL : string)
    (sourceKind : ConfigSourceKind) (sourceError : string) : session :=
  {| s_closing := false; s_changed := 0; s_cleanupBudget := None;
     s_networkGeneration := 0; s_networkLedger := None; s_vpnActive := false;
     s_stopRequested := false; s_startOriginGeneration := 0;
     s_id := id; s_state := StateIdle; s_generation := 0; s_configured := false;
     s_logsEndpoint := ""; s_digest := ""; s_sourceKind := sourceKind;
     s_sourceURL := sourceURL; s_sourceError := sourceError; s_profiles := [];
     s_switchOriginGeneration := 0; s_configureRequest := 0; s_activeProfiles := [];
     s_activeDigest := ""; s_pending := None; s_active := None;
     s_lastFailure := NoFailure; s_lastFailureMessage := ""; s_cleanupDone := true;
     s_cleanupFailed := false; s_cancel := None; s_ledger := None;
     s_activeTarget := zeroTarget; s_restartAfterCleanup := false;
     s_failureAfterCleanup := NoFailure; s_failureMessageAfterCleanup := "";
     s_recovering := false; s_recoveryOriginGeneration := 0; s_recoveryCount := 0;
     s_lastConnectedAt := 0; s_hasConnectedAt := false; s_lastTransitionAt := None;
     s_sequence := 1 |}.

Definition is_Some_b {A} (o : option A) : bool :=
  match o with Some _ => true | None => false end.

Definition summaries (profiles : list RuntimeProfile) : list ProfileSummary :=
  map rp_Summary profiles.

(** [ctxErr] is [ctx.Err()] of the request. *)
Definition validateConfigureBeforeLoad (ctxErr : option gerr) (s : session)
    (expectedSequence : Z) : option gerr :=
  if negb (s_sequence s =? expectedSequence)%Z then
    Some (failure FailureConflict
      "session changed; refresh its snapshot before configuring")
  else if s_cleanupFailed s || (s_closing s && negb (s_cleanupDone s)) then
    Some (failure FailureConflict "session is shutting down or cleanup has failed")
  else match ctxErr with
       | Some err =>
           Some (failureWithCause FailureCanceled
             "configuration was canceled before loading" (Some err))
       | None => None
       end.

Definition validateConfigureBeforeAccept (ctxErr : option gerr) (s : session)
    (request : Z) : option gerr :=
  if negb (s_configureRequest s =? request)%Z then
    Some (failure FailureConflict "configuration request was superseded")
  else match ctxErr with
       | Some err =>
           Some (failureWithCause FailureCanceled
             "configuration was canceled before it was accepted" (Some err))
       | None =>
           if s_cleanupFailed s || (s_closing s && negb (s_cleanupDone s)) then
             Some (failure FailureConflict
               "session is shutting down or cleanup has failed")
           else None
       end.

Definition configurationBlocked (s : session) : bool :=
  s_closing s || is_Some_b (s_pending s) || bool_decide (s_state s = StateProbing) ||
  bool_decide (s_state s = StatePreparing) || bool_decide (s_state s = StateConnected) ||
  bool_decide (s_state s = StateStopping) || s_recovering s ||
  negb (s_cleanupDone s) || s_cleanupFailed s.

Definition validateStartTarget (s : session) (target : StartTarget) : option gerr :=
  if negb (bool_decide (t_Mode target = AutoSelect)) &&
     negb (bool_decide (t_Mode target = ProfileIndex)) then
    Some (failure FailureInvalidArgument
      "start mode must be AUTO_SELECT or PROFILE_INDEX")
  else if bool_decide (t_Mode target = ProfileIndex) &&
          ((t_Index target <? 0)%Z ||
           (Z.of_nat (length (s_profiles s)) <=? t_Index target)%Z) then
    Some (failure FailureInvalidArgument "profile index is out of range")
  else if negb (String.eqb (t_Digest target) "") &&
          negb (String.eqb (t_Digest target) (s_digest s)) then
    Some (failure FailureConflict "profile inventory changed; refresh its snapshot")
  else None.

Definition retryableCleanup (s : session) : bool :=
  bool_decide (s_state s = StateFailed) && s_cleanupFailed s &&
  (is_Some_b (s_ledger s) || is_Some_b (s_networkLedger s)).

Definition acceptsStop (s : session) (generation : Z) : bool :=
  negb (generation =? 0)%Z &&
  ((generation =? s_generation s)%Z ||
   (s_recovering s && (generation =? s_recoveryOriginGeneration s)%Z) ||
   (generation =? s_switchOriginGeneration s)%Z ||
   (generation =? s_startOriginGeneration s)%Z).

Definition attemptActive (state : State) : bool :=
  match state with
  | StateProbing | StatePreparing | StateConnected | StateStopping => true
  | StateIdle | StateConfigured | StateFailed => false
  end.

Definition canSwitch (s : session) : bool :=
  negb (s_closing s) && bool_decide (s_state s = StateConnected) &&
  negb (s_recovering s) && negb (is_Some_b (s_pending s)) && negb (s_cleanupFailed s).

Definition canRetry (s : session) : bool :=
  negb (s_closing s) && bool_decide (s_state s = StateFailed) && s_vpnActive s &&
  negb (s_cleanupFailed s) && negb (is_Some_b (s_ledger s)).

Definition primaryActionStop : string := "STOP".

Definition primaryActionLocked (s : session) : string :=
  if canRetry s then "RETRY"
  else if bool_decide (s_state s = StateFailed) && s_cleanupFailed s then
    primaryActionStop
  else if is_Some_b (s_pending s) then primaryActionStop
  else if bool_decide (s_state s = StateProbing) ||
          bool_decide (s_state s = StatePreparing) ||
          bool_decide (s_state s = StateConnected) || s_recovering s then
    primaryActionStop
  else if negb (bool_decide (s_state s = StateStopping)) && s_cleanupDone s &&
          negb (s_cleanupFailed s) then "START"
  else "NONE".

Definition snapshotLocked (s : session) : SnapshotResult :=
  {| sn_SessionID := s_id s; sn_Sequence := s_sequence s;
     sn_Generation := s_generation s; sn_State := s_state s;
     sn_VPNActive := s_vpnActive s; sn_NetworkGeneration := s_networkGeneration s;
     sn_CanRetry := canRetry s;
     sn_Configured := s_configured s;
     sn_LogsUploadAvailable := negb (String.eqb (s_logsEndpoint s) "");
     sn_Digest := s_digest s; sn_SourceKind := s_sourceKind s;
     sn_SourceURL := s_sourceURL s; sn_SourceError := s_sourceError s;
     sn_ActiveDigest := s_activeDigest s; sn_ActiveMode := t_Mode (s_activeTarget s);
     sn_ActiveIndex := t_Index (s_activeTarget s);
     sn_PendingTarget :=
       option_map (fun p => mkSelection (p_digest p) (t_Mode (p_target p))
                              (t_Index (p_target p))) (s_pending s);
     sn_CanSwitch := canSwitch s;
     sn_Profiles := summaries (s_profiles s);
     sn_ActiveProfile := s_active s; sn_LastFailure := s_lastFailure s;
     sn_LastFailureMessage := s_lastFailureMessage s;
     sn_CleanupComplete := s_cleanupDone s;
     sn_Recovering := s_recovering s; sn_PrimaryAction := primaryActionLocked s |}.
