(* ===== verification/Activation.v ===== *)
(** * Saved activation (core/sessionapi/restore.go, source_store.go)

    The persisted start selection, its validation, and the abstract contents
    of a source store.  A stored document is represented by its decoding: no
    bytes, bytes [json.Unmarshal] rejects, or a decoded struct. *)

From S2P Require Import Prelude Errors Values Session.

Record savedActivation := mkSavedActivation {
  sa_Version : Z;
  sa_Enabled : bool;
  sa_Mode : StartMode;
  sa_Index : Z;
  sa_Digest : string
}.

#[export] Instance eta_savedActivation : Settable savedActivation := fun a =>
  mkSavedActivation (sa_Version a) (sa_Enabled a) (sa_Mode a) (sa_Index a) (sa_Digest a).

Inductive rawActivation :=
| RawEmpty
| RawInvalid (err : gerr)
| RawJSON (saved : savedActivation).

(** [ss_activation]: the store also implements [ActivationStore]. *)
Record sourceStore := mkSourceStore {
  ss_activation : bool;
  ss_url : option string;
  ss_saved : rawActivation
}.

#[export] Instance eta_sourceStore : Settable sourceStore := fun t =>
  mkSourceStore (ss_activation t) (ss_url t) (ss_saved t).

(** The answer of a storage call.  A failed write may still have reached the
    store ([io_applied]); a successful one always has. *)
Record io_reply := mkIoReply {
  io_err : option gerr;
  io_applied : bool
}.

Definition io_ok : io_reply := mkIoReply None true.

Definition stored (io : io_reply) : bool :=
  negb (is_Some_b (io_err io)) || io_applied io.

Definition decodeActivation (raw : rawActivation) : result savedActivation gerr :=
  match raw with
  | RawEmpty =>
      Err (failure FailureNotConfigured
        "connect a saved configuration before automatic startup")
  | RawInvalid err =>
      Err (failureWithCause FailureMalformedConfig "saved activation is invalid" (Some err))
  | RawJSON saved =>
      if negb (sa_Version saved =? 1)%Z || String.eqb (sa_Digest saved) "" ||
         (negb (bool_decide (sa_Mode saved = AutoSelect)) &&
          negb (bool_decide (sa_Mode saved = ProfileIndex))) ||
         (bool_decide (sa_Mode saved = ProfileIndex) && (sa_Index saved <? 0)%Z)
      then Err (failure FailureMalformedConfig "saved activation selection is invalid")
      else Ok saved
  end.

(** The document [saveActivationLocked] writes for an accepted start. *)
Definition activationFor (digest : string) (target : StartTarget) : savedActivation :=
  mkSavedActivation 1 true (t_Mode target) (t_Index target) digest.

Lemma decodeActivation_valid raw saved :
  decodeActivation raw = Ok saved ->
  raw = RawJSON saved /\ sa_Version saved = 1%Z /\ sa_Digest saved <> "" /\
  (sa_Mode saved = AutoSelect \/ sa_Mode saved = ProfileIndex /\ (0 <= sa_Index saved)%Z).
Proof.
  destruct raw as [| |a]; simpl; try done. case_match eqn:Hc; intros; simplify_eq.
  split_bools. rewrite String.eqb_neq in *.
  repeat match goal with H : _ && _ = false |- _ => apply andb_false_iff in H end.
  split_and!; try done. destruct (sa_Mode saved) as [| |x].
  - by left.
  - right. split; [done|]. intuition (split_bools; done || lia).
  - intuition (split_bools; done).
Qed.
