(* ===== verification/Manager.v ===== *)
(** * The session manager (core/sessionapi/api.go, shutdown.go, restore.go)

    The state shared by every goroutine of the manager: the session struct,
    the heaps its pointers address (ledgers, cleanup budgets, attempt
    contexts), the source store and the attempt workers; and the operations
    executed with the session mutex held.  Each definition is one critical
    section of the Go function it is named after. *)

From S2P Require Import Prelude Errors Values Session Activation.

(** What a worker can own.  Leases are told apart by the address they were
    acquired at. *)
Inductive lease_kind := PlatformLease | NetworkLease | AttemptLease.

#[export] Instance lease_kind_eq_dec : EqDecision lease_kind.
Proof. solve_decision. Defined.

Record lease := mkLease { l_kind : lease_kind; l_id : nat }.

#[export] Instance lease_eq_dec : EqDecision lease.
Proof. solve_decision. Defined.

(** The next thing a worker goroutine does.  Constructors up to [PWait] are
    inside [runStart], the others inside [finish]. *)
Inductive pc :=
| PPrepare
| PTunnel (ref : SessionRef) (profile : RuntimeProfile) (work : option nat)
| PNetwork (ref : SessionRef) (profile : RuntimeProfile) (work : option nat)
| PNetworkUp
| PNetworkCheck
| PProfiles
| PCandidate (index : nat) (rest : list RuntimeProfile) (errs : list (option gerr))
| PAdvance (index : nat) (profile : RuntimeProfile) (rest : list RuntimeProfile)
    (errs : list (option gerr))
| PStarting (index : nat) (profile : RuntimeProfile) (rest : list RuntimeProfile)
    (errs : list (option gerr))
| PCandidateCleanup (index : nat) (rest : list RuntimeProfile)
    (errs : list (option gerr)) (invalidLease : bool)
| PCandidateRelease (index : nat) (rest : list RuntimeProfile)
    (errs : list (option gerr)) (invalidLease : bool) (work : nat)
| PCandidateDone (index : nat) (rest : list RuntimeProfile)
    (errs : list (option gerr)) (invalidLease : bool)
| PConnect (profile : RuntimeProfile)
| PWait (failures_open : bool)
| PFinish (cause : option gerr)
| PRetire (cause : option gerr) (work : option nat)
| PReleaseWork (cause : option gerr) (work : nat)
| PNetworkDecide (cause : option gerr) (cleanupErr : option gerr)
| PReleaseNetworkBegin (cause : option gerr) (network : nat)
| PReleaseNetwork (cause : option gerr) (network : nat)
| PCommit (cause : option gerr) (releaseNetwork : bool) (cleanupErr : option gerr).

(** A goroutine running [runStart] or [finish]; [wk_ctx] is its attempt
    context, [None] for a bare [finish]. *)
Record worker := mkWorker {
  wk_generation : Z;
  wk_target : StartTarget;
  wk_ctx : option nat;
  wk_pc : pc
}.

#[export] Instance eta_worker : Settable worker := fun k =>
  mkWorker (wk_generation k) (wk_target k) (wk_ctx k) (wk_pc k).

(** [cleanupBudget]: the deadline is fixed by the first [begin]. *)
Record cleanupBudget := mkBudget {
  cb_deadline : option Z;
  cb_canceled : bool
}.

Definition CleanupTimeout : Z := (30 * second)%Z.

Definition newBudget : cleanupBudget := mkBudget None false.

(** [once.Do] of [begin]. *)
Definition begin (now : Z) (b : cleanupBudget) : cleanupBudget :=
  match cb_deadline b with
  | Some _ => b
  | None => mkBudget (Some (now + CleanupTimeout)%Z) (cb_canceled b)
  end.

(** [finish] of a budget cancels the context once one was made. *)
Definition finish_budget (b : cleanupBudget) : cleanupBudget :=
  match cb_deadline b with
  | Some d => mkBudget (Some d) true
  | None => b
  end.

(** The observable effects, newest first. *)
Inductive output :=
| OPublish (change : StateChange)
| OPolicy (digest : string) (cidrs : list string)
| OPrepareTunnel (ref : SessionRef)
| OPrepareNetwork (ref : SessionRef)
| ORuntimeStart (ref : SessionRef) (profile : RuntimeProfile)
| ORelease (l : lease).

Record manager := mkManager {
  m_session : session;
  m_sourceStore : option sourceStore;
  m_networkRuntime : bool;
  m_initErr : option gerr;
  m_ledgers : gmap nat (list lease);
  m_budgets : gmap nat cleanupBudget;
  m_canceled : gmap nat bool;
  m_workers : gmap nat worker;
  m_next : nat;
  m_inflight : list Z;
  m_live : list lease;
  m_outputs : list output;
  m_panic : bool
}.

#[export] Instance eta_manager : Settable manager := fun m =>
  mkManager (m_session m) (m_sourceStore m) (m_networkRuntime m) (m_initErr m)
    (m_ledgers m) (m_budgets m) (m_canceled m) (m_workers m) (m_next m)
    (m_inflight m) (m_live m) (m_outputs m) (m_panic m).

(** [NewManager] with the outcome of [randomID] and of the store's [Load]:
    [Ok] the trimmed saved URL, empty when nothing was saved. *)
Definition NewManager (id : string) (initErr : option gerr) (networkRuntime : bool)
    (store : option sourceStore) (saved : result string gerr) : manager :=
  let '(sourceURL, sourceKind, sourceError) :=
    match store, saved with
    | None, _ => ("", ConfigSourceNone, "")
    | Some _, Err err =>
        ("", ConfigSourceNone,
         "saved configuration URL could not be read: " +:+ error_text err)
    | Some _, Ok url =>
        (url, if String.eqb url "" then ConfigSourceNone else ConfigSourceURL, "")
    end in
  {| m_session := newSession id sourceURL sourceKind sourceError;
     m_sourceStore := store; m_networkRuntime := networkRuntime; m_initErr := initErr;
     m_ledgers := ∅; m_budgets := ∅; m_canceled := ∅; m_workers := ∅; m_next := 0;
     m_inflight := []; m_live := []; m_outputs := []; m_panic := false |}.

(** ** Heap and goroutine primitives *)

Definition on_session (f : session -> session) (m : manager) : manager :=
  m <| m_session ::= f |>.

Definition panic (m : manager) : manager := m <| m_panic := true |>.

Definition emit (o : output) (m : manager) : manager := m <| m_outputs ::= cons o |>.

(** [&cleanupBudget{}] stored in the session. *)
Definition alloc_budget (m : manager) : manager :=
  m <| m_budgets ::= <[m_next m := newBudget]> |> <| m_next ::= S |>
    <| m_session ::= fun s => s <| s_cleanupBudget := Some (m_next m) |> |>.

(** [&ledger{}] stored as the attempt ledger, and as the network ledger. *)
Definition alloc_ledger (m : manager) : manager :=
  m <| m_ledgers ::= <[m_next m := []]> |> <| m_next ::= S |>
    <| m_session ::= fun s => s <| s_ledger := Some (m_next m) |> |>.

Definition alloc_networkLedger (m : manager) : manager :=
  m <| m_ledgers ::= <[m_next m := []]> |> <| m_next ::= S |>
    <| m_session ::= fun s => s <| s_networkLedger := Some (m_next m) |> |>.

(** [context.WithCancel] stored as the session's cancel function. *)
Definition alloc_context (m : manager) : manager :=
  m <| m_canceled ::= <[m_next m := false]> |> <| m_next ::= S |>
    <| m_session ::= fun s => s <| s_cancel := Some (m_next m) |> |>.

(** [s.cancel()]; calling a nil function panics. *)
Definition call_cancel (m : manager) : manager :=
  match s_cancel (m_session m) with
  | Some c => m <| m_canceled ::= <[c := true]> |>
  | None => panic m
  end.

(** [if s.cancel != nil { s.cancel() }] *)
Definition cancel_if_set (m : manager) : manager :=
  match s_cancel (m_session m) with
  | Some c => m <| m_canceled ::= <[c := true]> |>
  | None => m
  end.

(** [s.cleanupBudget.begin()]; a nil receiver panics. *)
Definition budget_begin (now : Z) (m : manager) : manager :=
  match s_cleanupBudget (m_session m) with
  | Some b => m <| m_budgets ::= alter (begin now) b |>
  | None => panic m
  end.

(** [s.cleanupBudget.finish()] accepts a nil receiver. *)
Definition budget_finish (m : manager) : manager :=
  match s_cleanupBudget (m_session m) with
  | Some b => m <| m_budgets ::= alter finish_budget b |>
  | None => m
  end.

Definition cleanupContext (now : Z) (m : manager) : manager :=
  match s_cleanupBudget (m_session m) with
  | Some _ => budget_begin now m
  | None => budget_begin now (alloc_budget m)
  end.

(** [go f()] *)
Definition spawn (k : worker) (m : manager) : manager :=
  m <| m_workers ::= <[m_next m := k]> |> <| m_next ::= S |>.

Definition goto (wid : nat) (k : worker) (next : pc) (m : manager) : manager :=
  m <| m_workers ::= <[wid := k <| wk_pc := next |>]> |>.

Definition stop_worker (wid : nat) (m : manager) : manager :=
  m <| m_workers ::= delete wid |>.

(** [ctx.Err()] of an attempt context. *)
Definition ctx_err (k : worker) (m : manager) : option gerr :=
  match wk_ctx k with
  | Some c =>
      match m_canceled m !! c with
      | Some true => Some (ESent CtxCanceled)
      | _ => None
      end
  | None => None
  end.

(** [ledger.push]; a nil receiver panics. *)
Definition push (work : option nat) (l : lease) (m : manager) : manager :=
  match work with
  | Some a => m <| m_ledgers ::= alter (cons l) a |>
  | None => panic m
  end.

(** [profiles[i]], [None] when Go panics. *)
Definition index_profile (profiles : list RuntimeProfile) (i : Z) : option RuntimeProfile :=
  if (i <? 0)%Z then None else profiles !! Z.to_nat i.

(** ** Critical sections *)

Definition appendLocked (now : Z) (m : manager) : manager :=
  let m := on_session (fun s => s <| s_changed ::= S |>
    <| s_sequence ::= fun q => u64 (q + 1) |> <| s_lastTransitionAt := Some now |>) m in
  let s := m_session m in
  emit (OPublish {| sc_SessionID := s_id s; sc_Generation := s_generation s;
                    sc_NetworkGeneration := s_networkGeneration s;
                    sc_State := s_state s; sc_Failure := s_lastFailure s |}) m.

(** [profiles[0]] panics on an empty inventory. *)
Definition retainPolicy (digest : string) (profiles : list RuntimeProfile)
    (m : manager) : manager :=
  match profiles with
  | [] => panic m
  | p :: _ => emit (OPolicy digest (rp_ExcludeCIDRs p)) m
  end.

(** [m.get]: the session, or the error of an unusable or foreign one. *)
Definition get (id : string) (m : manager) : option gerr :=
  let s := m_session m in
  if String.eqb (s_id s) "" then
    Some (failureWithCause FailureInternal "could not allocate a session ID" (m_initErr m))
  else if negb (String.eqb id "") && negb (String.eqb id (s_id s)) then
    Some (failure FailureNotFound "session owner has restarted")
  else None.

Definition Snapshot (id : string) (m : manager) : result SnapshotResult gerr :=
  match get id m with
  | Some err => Err err
  | None => Ok (snapshotLocked (m_session m))
  end.

(** [Start] before its critical section: the source to configure first, if
    any, and the target stored for recovery. *)
Definition Start_begin (sessionID : string) (ctxErr : option gerr) (target : StartTarget)
    (m : manager) : result (option string * StartTarget) gerr :=
  match get sessionID m with
  | Some err => Err err
  | None =>
      match ctxErr with
      | Some err =>
          Err (failureWithCause FailureCanceled "start was canceled before it was accepted"
                 (Some err))
      | None =>
          let source := t_Source target in
          let target := target <| t_Source := None |> in
          match source with
          | Some _ =>
              if negb (bool_decide (t_Mode target = AutoSelect)) then
                Err (failure FailureInvalidArgument
                       "a source can only be started with AUTO_SELECT")
              else Ok (source, target)
          | None => Ok (None, target)
          end
      end
  end.

Record LoadedConfig := mkLoadedConfig {
  lc_Raw : string;
  lc_Kind : ConfigSourceKind;
  lc_SourceURL : string
}.

Record parsedConfig := mkParsedConfig {
  pc_digest : string;
  pc_profiles : list RuntimeProfile;
  pc_logsEndpoint : string
}.

(** First section of [Configure]: validate and take a request number. *)
Definition Configure_begin (ctxErr : option gerr) (expectedSequence : Z)
    (m : manager) : manager * result Z gerr :=
  match validateConfigureBeforeLoad ctxErr (m_session m) expectedSequence with
  | Some err => (m, Err err)
  | None =>
      let m := on_session (fun s => s <| s_configureRequest ::= fun r => u64 (r + 1) |>) m in
      let request := s_configureRequest (m_session m) in
      (m <| m_inflight ::= cons request |>, Ok request)
  end.

(** The source store update of an accepted configuration. *)
Definition saveSource (loaded : LoadedConfig) (io : io_reply) (m : manager) :
    manager * option gerr :=
  match m_sourceStore m with
  | None => (m, None)
  | Some store =>
      if bool_decide (lc_Kind loaded = ConfigSourceURL) then
        let store' := if stored io then store <| ss_url := Some (lc_SourceURL loaded) |>
                      else store in
        (m <| m_sourceStore := Some store' |>,
         match io_err io with
         | Some err => Some (failureWithCause FailurePlatform
                         "accepted configuration URL could not be saved" (Some err))
         | None => None
         end)
      else
        let store' := if stored io then store <| ss_url := None |> else store in
        (m <| m_sourceStore := Some store' |>,
         match io_err io with
         | Some err => Some (failureWithCause FailurePlatform
                         "saved configuration URL could not be cleared" (Some err))
         | None => None
         end)
  end.

(** Second section of [Configure]: accept a loaded and parsed configuration. *)
Definition Configure_accept (now : Z) (ctxErr : option gerr) (request : Z)
    (loaded : LoadedConfig) (parsed : parsedConfig) (io : io_reply)
    (m : manager) : manager * result ConfigureResult gerr :=
  match validateConfigureBeforeAccept ctxErr (m_session m) request with
  | Some err => (m, Err err)
  | None =>
      let '(m, saveErr) := saveSource loaded io m in
      match saveErr with
      | Some err => (m, Err err)
      | None =>
          let m := on_session (fun s => s
            <| s_profiles := pc_profiles parsed |> <| s_digest := pc_digest parsed |>
            <| s_sourceKind := lc_Kind loaded |> <| s_sourceURL := lc_SourceURL loaded |>
            <| s_configured := true |> <| s_logsEndpoint := pc_logsEndpoint parsed |>
            <| s_sourceError := "" |>) m in
          let s := m_session m in
          let m :=
            if s_cleanupDone s && negb (s_cleanupFailed s) && negb (s_recovering s) &&
               negb (is_Some_b (s_pending s))
            then on_session (fun s => s
              <| s_active := None |> <| s_lastFailure := NoFailure |>
              <| s_lastFailureMessage := "" |> <| s_state := StateConfigured |>
              <| s_activeDigest := "" |> <| s_activeProfiles := [] |>
              <| s_activeTarget := zeroTarget |>
              <| s_recoveryOriginGeneration := 0%Z |> <| s_recoveryCount := 0%Z |>) m
            else m in
          let m :=
            if String.eqb (s_activeDigest (m_session m)) ""
            then retainPolicy (s_digest (m_session m)) (s_profiles (m_session m)) m
            else m in
          let m := appendLocked now m in
          let s := m_session m in
          (m, Ok {| cr_Digest := s_digest s; cr_Sequence := s_sequence s;
                    cr_Profiles := summaries (s_profiles s);
                    cr_SourceKind := s_sourceKind s |})
      end
  end.

Definition saveActivationLocked (io : io_reply) (target : StartTarget)
    (m : manager) : manager * option gerr :=
  match m_sourceStore m with
  | None => (m, None)
  | Some store =>
      if negb (ss_activation store) ||
         negb (bool_decide (s_sourceKind (m_session m) = ConfigSourceURL))
      then (m, None)
      else
        let saved := activationFor (s_digest (m_session m)) target in
        let store' := if stored io then store <| ss_saved := RawJSON saved |> else store in
        (m <| m_sourceStore := Some store' |>,
         match io_err io with
         | Some err => Some (failureWithCause FailurePlatform
                         "automatic startup selection could not be saved" (Some err))
         | None => None
         end)
  end.

Definition stopActivationLocked (loadErr : option gerr) (io : io_reply)
    (m : manager) : manager * option gerr :=
  match m_sourceStore m with
  | None => (m, None)
  | Some store =>
      if negb (ss_activation store) then (m, None)
      else match loadErr with
      | Some err => (m, Some err)
      | None =>
          match ss_saved store with
          | RawEmpty => (m, None)
          | raw =>
              match decodeActivation raw with
              | Err err => (m, Some err)
              | Ok saved =>
                  let saved := saved <| sa_Enabled := false |> in
                  let store' :=
                    if stored io then store <| ss_saved := RawJSON saved |> else store in
                  (m <| m_sourceStore := Some store' |>,
                   match io_err io with
                   | Some err => Some (failureWithCause FailurePlatform
                                   "automatic restart could not be disabled" (Some err))
                   | None => None
                   end)
              end
          end
      end
  end.

Definition beginAttemptLocked (now : Z) (target : StartTarget) (m : manager) : manager :=
  let m := on_session (fun s => s <| s_generation ::= fun g => u64 (g + 1) |>) m in
  let m := alloc_budget m in
  let m := alloc_context m in
  let m := alloc_ledger m in
  let m := on_session (fun s => s
    <| s_cleanupDone := false |> <| s_cleanupFailed := false |> <| s_stopRequested := false |>
    <| s_active := None |> <| s_activeTarget := target |>
    <| s_restartAfterCleanup := false |> <| s_failureAfterCleanup := NoFailure |>
    <| s_failureMessageAfterCleanup := "" |> <| s_state := StateProbing |>) m in
  appendLocked now m.

(** [go m.runStart(ctx, s, generation, target)] with the attempt context the
    session holds. *)
Definition spawn_runStart (target : StartTarget) (m : manager) : manager :=
  spawn (mkWorker (s_generation (m_session m)) target (s_cancel (m_session m)) PPrepare) m.

(** [go m.finish(s, generation, nil)] *)
Definition spawn_finish (generation : Z) (m : manager) : manager :=
  spawn (mkWorker generation zeroTarget None (PFinish None)) m.

Definition generation_result (m : manager) : GenerationResult :=
  {| gr_Generation := s_generation (m_session m);
     gr_Sequence := s_sequence (m_session m) |}.

Definition retryLocked (now : Z) (target : StartTarget) (suppliedSource : bool)
    (m : manager) : manager * result GenerationResult gerr :=
  let s := m_session m in
  let active := s_activeTarget s in
  if suppliedSource || t_ReplaceCurrent target ||
     negb (bool_decide (t_Mode target = t_Mode active)) ||
     (bool_decide (t_Mode target = ProfileIndex) &&
      negb (t_Index target =? t_Index active)%Z) ||
     (negb (String.eqb (t_Digest target) "") &&
      negb (String.eqb (t_Digest target) (s_activeDigest s)))
  then (m, Err (failure FailureConflict "retry requires the saved active selection"))
  else
    let m := on_session (fun s => s
      <| s_recoveryCount := 0%Z |> <| s_recoveryOriginGeneration := 0%Z |>) m in
    let m := beginAttemptLocked now active m in
    let m := on_session (fun s => s <| s_startOriginGeneration := s_generation s |>) m in
    let m := spawn_runStart target m in
    (m, Ok (generation_result m)).

Definition replaceLocked (now : Z) (io : io_reply) (target : StartTarget)
    (m : manager) : manager * result GenerationResult gerr :=
  if negb (t_ReplaceCurrent target) || negb (canSwitch (m_session m)) then
    (m, Err (failure FailureConflict "previous generation has not completed cleanup"))
  else
    let '(m, saveErr) := saveActivationLocked io target m in
    match saveErr with
    | Some err => (m, Err err)
    | None =>
        let m := on_session (fun s => s
          <| s_pending := Some {| p_target := target; p_profiles := s_profiles s;
                                  p_digest := s_digest s |} |>
          <| s_switchOriginGeneration := s_generation s |>
          <| s_state := StateStopping |>) m in
        let m := budget_begin now m in
        let m := call_cancel m in
        let m := appendLocked now m in
        (m, Ok (generation_result m))
    end.

(** The section of [Start] after an optional source was configured. *)
Definition Start_locked (now : Z) (io : io_reply) (expectedSequence : Z)
    (target : StartTarget) (suppliedSource : bool)
    (m : manager) : manager * result GenerationResult gerr :=
  let s := m_session m in
  if negb (s_sequence s =? expectedSequence)%Z then
    (m, Err (failure FailureConflict
               "session changed; refresh its snapshot before starting"))
  else if negb (s_configured s) then
    (m, Err (failure FailureNotConfigured "configure a session before starting it"))
  else if canRetry s then retryLocked now target suppliedSource m
  else match validateStartTarget s target with
  | Some err => (m, Err err)
  | None =>
      if configurationBlocked s then replaceLocked now io target m
      else
        let '(m, saveErr) := saveActivationLocked io target m in
        match saveErr with
        | Some err => (m, Err err)
        | None =>
            let m := on_session (fun s => s
              <| s_activeProfiles := s_profiles s |> <| s_activeDigest := s_digest s |>
              <| s_switchOriginGeneration := 0%Z |>) m in
            let m := retainPolicy (s_activeDigest (m_session m))
                       (s_activeProfiles (m_session m)) m in
            let m := on_session (fun s => s
              <| s_networkGeneration ::= fun g => u64 (g + 1) |>) m in
            let m := alloc_networkLedger m in
            let m := on_session (fun s => s
              <| s_vpnActive := false |> <| s_stopRequested := false |>
              <| s_generation ::= fun g => u64 (g + 1) |>) m in
            let m := on_session (fun s => s
              <| s_startOriginGeneration := s_generation s |>) m in
            let m := alloc_context m in
            let m := alloc_budget m in
            let m := alloc_ledger m in
            let m := on_session (fun s => s
              <| s_cleanupDone := false |> <| s_cleanupFailed := false |>
              <| s_active := None |> <| s_lastFailure := NoFailure |>
              <| s_lastFailureMessage := "" |> <| s_activeTarget := target |>
              <| s_restartAfterCleanup := false |> <| s_failureAfterCleanup := NoFailure |>
              <| s_failureMessageAfterCleanup := "" |> <| s_recovering := false |>
              <| s_recoveryOriginGeneration := 0%Z |> <| s_recoveryCount := 0%Z |>
              <| s_lastConnectedAt := 0%Z |> <| s_hasConnectedAt := false |>
              <| s_state := StateProbing |>) m in
            let m := appendLocked now m in
            let m := spawn_runStart target m in
            (m, Ok (generation_result m))
        end
  end.

Definition acknowledgeStoppedLocked (now : Z) (generation : Z) (m : manager) :
    manager * option GenerationResult * option gerr :=
  let s := m_session m in
  if (s_generation s =? generation)%Z && s_cleanupDone s && negb (s_cleanupFailed s) &&
     negb (bool_decide (s_state s = StateConfigured))
  then
    let m :=
      if s_recovering s || negb (s_recoveryOriginGeneration s =? 0)%Z then
        appendLocked now (on_session (fun s => s
          <| s_recovering := false |> <| s_restartAfterCleanup := false |>
          <| s_recoveryOriginGeneration := 0%Z |>) m)
      else m in
    (m, Some {| gr_Generation := generation; gr_Sequence := s_sequence (m_session m) |}, None)
  else (m, None, Some (failure FailureStaleGeneration "generation is no longer active")).

(** [Stop], once persisted: record the request and drop a pending switch. *)
Definition stop_requested (now : Z) (m : manager) : manager :=
  let m := on_session (fun s => s
    <| s_stopRequested := true |> <| s_switchOriginGeneration := 0%Z |>) m in
  if is_Some_b (s_pending (m_session m))
  then appendLocked now (on_session (fun s => s <| s_pending := None |>) m)
  else m.

(** [Stop] behind a failed cleanup ([retry]), or behind the network a failed
    attempt kept: a fresh budget and a bare [finish]. *)
Definition stop_retained (now : Z) (generation : Z) (retry : bool) (m : manager) : manager :=
  let m := budget_begin now (alloc_budget m) in
  let m := on_session (fun s => s <| s_state := StateStopping |>) m in
  let m := if retry then on_session (fun s => s <| s_cleanupFailed := false |>) m else m in
  spawn_finish generation (appendLocked now m).

(** [Stop] of an attempt a worker is driving. *)
Definition stop_attempt (now : Z) (m : manager) : manager :=
  let m :=
    if s_recovering (m_session m) || negb (s_recoveryOriginGeneration (m_session m) =? 0)%Z
    then on_session (fun s => s
      <| s_recovering := false |> <| s_restartAfterCleanup := false |>
      <| s_recoveryOriginGeneration := 0%Z |>) m
    else m in
  if negb (bool_decide (s_state (m_session m) = StateStopping)) then
    let m := on_session (fun s => s <| s_state := StateStopping |>) m in
    cancel_if_set (appendLocked now (budget_begin now m))
  else m.

(** [Stop] returns its result together with a joined persistence error. *)
Definition Stop (now : Z) (loadErr : option gerr) (io : io_reply) (generation : Z)
    (m : manager) : manager * option GenerationResult * option gerr :=
  if negb (acceptsStop (m_session m) generation) then
    (m, None, Some (failure FailureStaleGeneration
                      "generation is not active for this session"))
  else
    let '(m, persistErr) := stopActivationLocked loadErr io m in
    let generation := s_generation (m_session m) in
    let m := stop_requested now m in
    let s := m_session m in
    let '(m, res, err) :=
      if retryableCleanup s then
        let m := stop_retained now generation true m in
        (m, Some {| gr_Generation := generation; gr_Sequence := s_sequence (m_session m) |}, None)
      else if bool_decide (s_state s = StateFailed) && s_vpnActive s &&
              negb (s_cleanupFailed s) then
        let m := stop_retained now generation false m in
        (m, Some {| gr_Generation := generation; gr_Sequence := s_sequence (m_session m) |}, None)
      else if bool_decide (s_state s = StateIdle) ||
              bool_decide (s_state s = StateConfigured) ||
              bool_decide (s_state s = StateFailed) then
        acknowledgeStoppedLocked now generation m
      else
        let m := stop_attempt now m in
        (m, Some {| gr_Generation := generation; gr_Sequence := s_sequence (m_session m) |}, None)
    in
    (m, res, join [err; persistErr]).

(** [ProtectSocket]: whether the request still belongs to the running attempt,
    and the network reference handed to the platform. *)
Definition ProtectSocket (sessionID : string) (generation : Z) (fd : Z)
    (loopback : bool) (platform : SessionRef -> Z -> option gerr)
    (m : manager) : option gerr :=
  if (fd <? 0)%Z then
    Some (failure FailureInvalidArgument "socket descriptor must be non-negative")
  else match get sessionID m with
  | Some err => Some err
  | None =>
      let s := m_session m in
      let valid := (s_generation s =? generation)%Z && negb (s_stopRequested s) &&
        (bool_decide (s_state s = StateProbing) ||
         bool_decide (s_state s = StatePreparing) ||
         bool_decide (s_state s = StateConnected)) in
      let networkRef := mkSessionRef (s_id s) (s_networkGeneration s) in
      if negb valid then
        Some (failure FailureStaleGeneration
                "socket protection belongs to a stale generation")
      else if loopback then None
      else wrapFailure FailurePlatform (platform networkRef fd)
  end.

(** The message of a failed health check, prefixed by the previous failure
    while recovering. *)
Definition healthFailure (cause : gerr) (s : session) : string :=
  let healthFailure := "connected health check failed: " +:+ error_text cause in
  if s_recovering s && negb (String.eqb (s_lastFailureMessage s) "")
  then s_lastFailureMessage s +:+ "; " +:+ healthFailure else healthFailure.

(** A connection that was stable for long enough restores the budget. *)
Definition forgiveStable (now : Z) (s : session) : session :=
  if s_hasConnectedAt s && (autoRecoveryStable <=? now - s_lastConnectedAt s)%Z
  then s <| s_recoveryCount := 0%Z |> <| s_recoveryOriginGeneration := 0%Z |> else s.

(** Queue a restart, or record the failure shown after cleanup. *)
Definition queueRecovery (generation : Z) (message : string) (s : session) : session :=
  if (s_recoveryCount s <? autoRecoveryLimit)%Z then
    let s := s <| s_recoveryCount ::= fun c => (c + 1)%Z |>
               <| s_restartAfterCleanup := true |> <| s_recovering := true |> in
    if (s_recoveryOriginGeneration s =? 0)%Z
    then s <| s_recoveryOriginGeneration := generation |> else s
  else
    s <| s_failureAfterCleanup := FailureRuntime |>
      <| s_failureMessageAfterCleanup := autoRecoveryMessage +:+ ": " +:+ message |>
      <| s_recovering := false |> <| s_recoveryOriginGeneration := 0%Z |>.

Definition prepareHealthRecoveryLocked (now : Z) (generation : Z) (cause : gerr)
    (s : session) : session :=
  let message := healthFailure cause s in
  queueRecovery generation message
    (forgiveStable now
       (s <| s_lastFailure := FailureRuntime |> <| s_lastFailureMessage := message |>)).

Definition reportHealthFailure (now : Z) (generation : Z) (cause : option gerr)
    (m : manager) : manager :=
  let cause := match cause with
               | Some c => c
               | None => EText "connected health check failed"
               end in
  let s := m_session m in
  if (generation =? 0)%Z || negb (generation =? s_generation s)%Z ||
     negb (bool_decide (s_state s = StateConnected)) then m
  else
    let m := on_session (prepareHealthRecoveryLocked now generation cause) m in
    let m := on_session (fun s => s <| s_state := StateStopping |>) m in
    cancel_if_set (appendLocked now m).

(** The fence [StopAndWait] raises. *)
Definition close_requested (m : manager) : manager :=
  on_session (fun s => s
    <| s_closing := true |> <| s_stopRequested := true |> <| s_pending := None |>
    <| s_recovering := false |> <| s_restartAfterCleanup := false |>
    <| s_recoveryOriginGeneration := 0%Z |>) m.

(** Its treatment of an attempt that has not finished cleanup. *)
Definition close_attempt (now : Z) (m : manager) : manager :=
  let wasDormant := bool_decide (s_state (m_session m) = StateFailed) in
  let m := on_session (fun s => s <| s_state := StateStopping |>) m in
  let m :=
    if negb (is_Some_b (s_cleanupBudget (m_session m))) || wasDormant
    then alloc_budget m else m in
  let m := budget_begin now m in
  match s_cancel (m_session m) with
  | Some c => m <| m_canceled ::= <[c := true]> |>
  | None =>
      if wasDormant then spawn_finish (s_generation (m_session m)) m else m
  end.

(** First section of [StopAndWait]; the wait loop is [StopAndWait_poll]. *)
Definition StopAndWait_begin (now : Z) (m : manager) : manager :=
  let m := close_requested m in
  let m :=
    if negb (s_cleanupDone (m_session m)) && negb (s_cleanupFailed (m_session m))
    then close_attempt now m else m in
  appendLocked now m.

(** What wakes the wait loop of [StopAndWait]. *)
Inductive wakeup :=
| WakeChanged
| WakeContext (err : gerr)
| WakeBudget (err : gerr).

Definition still_owns (err : gerr) : gerr :=
  failureWithCause FailureCleanup "shutdown still owns resources" (Some err).

(** The head of one turn of the loop: [Some] when it returns. *)
Definition StopAndWait_poll (m : manager) : option (option gerr) :=
  let s := m_session m in
  if s_cleanupFailed s then Some (Some (failure FailureCleanup (s_lastFailureMessage s)))
  else if s_cleanupDone s then Some None
  else None.

(** The [select] that follows it, in the manager of the moment it wakes. *)
Definition StopAndWait_select (w : wakeup) (m : manager) : option (option gerr) :=
  match w with
  | WakeChanged => None
  | WakeContext err => Some (Some (still_owns err))
  | WakeBudget err =>
      let s := m_session m in
      if s_cleanupDone s && negb (s_cleanupFailed s) then Some None
      else Some (Some (still_owns err))
  end.

Definition Resume (now : Z) (m : manager) : manager * option gerr :=
  let s := m_session m in
  if negb (s_closing s) then (m, None)
  else if negb (s_cleanupDone s) || s_cleanupFailed s then
    (m, Some (failure FailureCleanup "previous service still owns resources"))
  else (appendLocked now (on_session (fun s => s <| s_closing := false |>) m), None).

(** The two sections of [AttachSourceStore] for a non-nil store: installing
    it, and recording what its [Load] answered ([Ok] the trimmed URL,
    [None] when nothing is saved). *)
Definition AttachSourceStore_install (store : sourceStore) (m : manager) : manager * bool :=
  match m_sourceStore m with
  | Some _ => (m, false)
  | None => (m <| m_sourceStore := Some store |>, true)
  end.

Definition AttachSourceStore_loaded (now : Z) (loaded : result (option string) gerr)
    (m : manager) : manager :=
  let m :=
    match loaded with
    | Err err => on_session (fun s => s
        <| s_sourceError := "saved configuration URL could not be read: " +:+ error_text err |>) m
    | Ok None => m
    | Ok (Some url) =>
        if negb (s_configured (m_session m)) && String.eqb (s_sourceURL (m_session m)) ""
        then
          let m := on_session (fun s => s <| s_sourceURL := url |>) m in
          let m := if negb (String.eqb url "")
                   then on_session (fun s => s <| s_sourceKind := ConfigSourceURL |>) m
                   else m in
          on_session (fun s => s <| s_sourceError := "" |>) m
        else m
    end in
  appendLocked now m.
