(* ===== verification/Worker.v ===== *)
(** * Attempt workers (core/sessionapi/api.go, [runStart] to [finish])

    A worker goroutine is cut at its critical sections and at its calls to
    the platform and the runtime; [worker_step] runs one piece.  The answers
    of the platform, the runtime and the closers are inputs ([reply]). *)

From S2P Require Import Prelude Errors Values Session Activation Manager.

(** What the environment answers to the call a worker is blocked in. *)
Inductive reply :=
| RNone
| RLease (granted : bool) (err : option gerr)
| RClose (err : option gerr)
| RHealth (cause : option gerr)
| RHealthClosed
| RCanceled.

(** A lease returned by the environment gets a fresh identity. *)
Definition acquire (kind : lease_kind) (granted : bool) (work : option nat)
    (m : manager) : manager :=
  if granted then
    let l := mkLease kind (m_next m) in
    push work l (m <| m_next ::= S |> <| m_live ::= cons l |>)
  else m.

(** One turn of [ledger.release]: run the last closer pushed, drop it when it
    succeeds.  [None] when the ledger is already empty. *)
Definition release_step (work : nat) (closeErr : option gerr) (m : manager) :
    option (manager * option gerr) :=
  match m_ledgers m !! work with
  | Some (l :: rest) =>
      match closeErr with
      | Some err => Some (m, Some err)
      | None =>
          Some (emit (ORelease l)
                  (m <| m_ledgers ::= <[work := rest]> |>
                     <| m_live ::= List.filter (fun x => negb (bool_decide (x = l))) |>),
                None)
      end
  | _ => None
  end.

Definition ledger_empty (work : nat) (m : manager) : bool :=
  match m_ledgers m !! work with Some (_ :: _) => false | _ => true end.

Definition prepareNetwork_begin (wid : nat) (k : worker) (m : manager) : manager :=
  let s := m_session m in
  if s_vpnActive s then goto wid k PProfiles m
  else
    let ref := mkSessionRef (s_id s) (s_networkGeneration s) in
    match s_activeProfiles s with
    | [] => panic m
    | first :: _ =>
        let profile :=
          if bool_decide (t_Mode (s_activeTarget s) = ProfileIndex)
          then index_profile (s_activeProfiles s) (t_Index (s_activeTarget s))
          else Some first in
        match profile with
        | None => panic m
        | Some profile =>
            goto wid k (PTunnel ref profile (s_networkLedger s)) (emit (OPrepareTunnel ref) m)
        end
    end.

(** [PrepareTunnel] returned. *)
Definition prepareNetwork_tunnel (wid : nat) (k : worker) (ref : SessionRef)
    (profile : RuntimeProfile) (work : option nat) (granted : bool) (err : option gerr)
    (m : manager) : manager :=
  let m := acquire PlatformLease granted work m in
  match err with
  | Some _ => goto wid k (PFinish (wrapFailure FailurePlatform err)) m
  | None =>
      if negb granted then
        goto wid k (PFinish (Some (failure FailurePlatform
          "platform returned an empty network lease"))) m
      else if m_networkRuntime m then
        goto wid k (PNetwork ref profile work) (emit (OPrepareNetwork ref) m)
      else goto wid k PNetworkUp m
  end.

(** [runtime.PrepareNetwork] returned. *)
Definition prepareNetwork_runtime (wid : nat) (k : worker) (work : option nat)
    (granted : bool) (err : option gerr) (m : manager) : manager :=
  let m := acquire NetworkLease granted work m in
  match err with
  | Some _ => goto wid k (PFinish (wrapFailure FailurePlatform err)) m
  | None =>
      if negb granted then
        goto wid k (PFinish (Some (failure FailurePlatform
          "runtime returned an empty network lease"))) m
      else goto wid k PNetworkUp m
  end.

Definition prepareNetwork_commit (now : Z) (wid : nat) (k : worker) (m : manager) : manager :=
  let m := on_session (fun s => s <| s_vpnActive := true |>) m in
  goto wid k PNetworkCheck (appendLocked now m).

(** [return ctx.Err()] of [prepareNetwork]. *)
Definition prepareNetwork_check (wid : nat) (k : worker) (m : manager) : manager :=
  match ctx_err k m with
  | Some err => goto wid k (PFinish (Some err)) m
  | None => goto wid k PProfiles m
  end.

(** The candidates of an attempt: all of them, or the selected one. *)
Definition runStart_profiles (wid : nat) (k : worker) (m : manager) : manager :=
  let profiles := s_activeProfiles (m_session m) in
  if bool_decide (t_Mode (wk_target k) = ProfileIndex) then
    match index_profile profiles (t_Index (wk_target k)) with
    | None => panic m
    | Some p => goto wid k (PCandidate 0 [p] []) m
    end
  else goto wid k (PCandidate 0 profiles []) m.

(** A later candidate takes a fresh generation and budget; [Err] when the
    attempt was stopped. *)
Definition prepareCandidate (index : nat) (k : worker) (m : manager) :
    result (manager * Z) gerr :=
  match index with
  | O => Ok (m, wk_generation k)
  | S _ =>
      if s_stopRequested (m_session m) || is_Some_b (ctx_err k m) then
        Err (failure FailureCanceled "attempt stopped")
      else
        let m := on_session (fun s => s <| s_generation ::= fun g => u64 (g + 1) |>) m in
        let m := alloc_budget m in
        Ok (m, s_generation (m_session m))
  end.

(** [advance]: publish [state] unless the generation was stopped. *)
Definition advance (now : Z) (generation : Z) (state : State)
    (profile : option ProfileSummary) (m : manager) : option manager :=
  let s := m_session m in
  if negb (s_generation s =? generation)%Z || bool_decide (s_state s = StateStopping)
  then None
  else
    let m := on_session (fun s => s <| s_state := state |> <| s_active := profile |>) m in
    let m :=
      if bool_decide (state = StateConnected) then
        on_session (fun s => s
          <| s_startOriginGeneration := 0%Z |> <| s_lastConnectedAt := now |>
          <| s_hasConnectedAt := true |> <| s_lastFailure := NoFailure |>
          <| s_lastFailureMessage := "" |> <| s_recovering := false |>
          <| s_recoveryOriginGeneration := 0%Z |>) m
      else m in
    Some (appendLocked now m).

(** Head of the candidate loop of [runStart]. *)
Definition runStart_candidate (wid : nat) (k : worker) (index : nat)
    (rest : list RuntimeProfile) (errs : list (option gerr)) (m : manager) : manager :=
  match rest with
  | [] =>
      goto wid k (PFinish (Some (failureWithCause FailureProbe
        "no configured profile became ready" (join errs)))) m
  | profile :: rest =>
      match prepareCandidate index k m with
      | Err err => goto wid k (PFinish (Some err)) m
      | Ok (m, generation) =>
          goto wid (k <| wk_generation := generation |>)
            (PAdvance index profile rest errs) m
      end
  end.

(** [advance] to PROBING or PREPARING, then the call of [runtime.Start]. *)
Definition runStart_advance (now : Z) (wid : nat) (k : worker) (index : nat)
    (profile : RuntimeProfile) (rest : list RuntimeProfile)
    (errs : list (option gerr)) (m : manager) : manager :=
  let state := if bool_decide (t_Mode (wk_target k) = ProfileIndex)
               then StatePreparing else StateProbing in
  match advance now (wk_generation k) state (Some (rp_Summary profile)) m with
  | None => goto wid k (PFinish (Some (failure FailureCanceled "attempt stopped"))) m
  | Some m =>
      let ref := mkSessionRef (s_id (m_session m)) (wk_generation k) in
      goto wid k (PStarting index profile rest errs) (emit (ORuntimeStart ref profile) m)
  end.

(** [runtime.Start] returned. *)
Definition runStart_started (wid : nat) (k : worker) (index : nat)
    (profile : RuntimeProfile) (rest : list RuntimeProfile)
    (errs : list (option gerr)) (granted : bool) (err : option gerr)
    (m : manager) : manager :=
  let m := acquire AttemptLease granted (s_ledger (m_session m)) m in
  let invalidLease := negb (is_Some_b err) && negb granted in
  let err := if invalidLease
             then Some (failure FailureRuntime "runtime returned an empty lease")
             else err in
  let ctxErr := ctx_err k m in
  match err, ctxErr with
  | None, None => goto wid k (PConnect profile) m
  | _, _ =>
      let candidateError := join [err; ctxErr] in
      let candidateError :=
        if bool_decide (t_Mode (wk_target k) = AutoSelect) && negb invalidLease then
          option_map (EWrap ("profile " +:+ pretty (ps_Index (rp_Summary profile)) +:+ " (" +:+
                             Protocol_string (ps_Protocol (rp_Summary profile)) +:+ ")"))
                     candidateError
        else candidateError in
      let errs := errs ++ [candidateError] in
      if bool_decide (CodeOf err = FailureCleanup) then
        goto wid k (PFinish (wrapFailure FailureCleanup (join errs))) m
      else goto wid k (PCandidateCleanup index rest errs invalidLease) m
  end.

(** [s.ledger.release(m.cleanupContext(s))] is entered; the receiver is
    evaluated first and a nil one panics. *)
Definition runStart_cleanup (now : Z) (wid : nat) (k : worker) (index : nat)
    (rest : list RuntimeProfile) (errs : list (option gerr)) (invalidLease : bool)
    (m : manager) : manager :=
  match s_ledger (m_session m) with
  | None => panic m
  | Some work =>
      goto wid k (PCandidateRelease index rest errs invalidLease work) (cleanupContext now m)
  end.

(** The candidate's ledger is released: give up or try the next one. *)
Definition runStart_next (wid : nat) (k : worker) (index : nat)
    (rest : list RuntimeProfile) (errs : list (option gerr)) (invalidLease : bool)
    (m : manager) : manager :=
  if is_Some_b (ctx_err k m) then
    goto wid k (PFinish (Some (failureWithCause FailureCanceled "start was canceled"
                                 (join errs)))) m
  else if invalidLease || bool_decide (t_Mode (wk_target k) = ProfileIndex) then
    goto wid k (PFinish (wrapFailure FailureRuntime (join errs))) m
  else goto wid k (PCandidate (S index) rest errs) m.

Definition runStart_connect (now : Z) (wid : nat) (k : worker)
    (profile : RuntimeProfile) (m : manager) : manager :=
  match advance now (wk_generation k) StateConnected (Some (rp_Summary profile)) m with
  | Some m => goto wid k (PWait true) m
  | None => goto wid k (PFinish None) m
  end.

(** [waitForAttemptEnd]: [None] while none of the select cases is ready. *)
Definition waitForAttemptEnd (now : Z) (wid : nat) (k : worker) (failures_open : bool)
    (r : reply) (m : manager) : option manager :=
  match r with
  | RCanceled =>
      if is_Some_b (ctx_err k m) then Some (goto wid k (PFinish None) m) else None
  | RHealthClosed =>
      if failures_open then Some (goto wid k (PWait false) m) else None
  | RHealth None => if failures_open then Some m else None
  | RHealth (Some cause) =>
      if failures_open then
        Some (goto wid k (PFinish None)
                (reportHealthFailure now (wk_generation k) (Some cause) m))
      else None
  | _ => None
  end.

(** First section of [finish]. *)
Definition finish_begin (wid : nat) (k : worker) (cause : option gerr)
    (m : manager) : manager :=
  let s := m_session m in
  if negb (s_generation s =? wk_generation k)%Z || negb (attemptActive (s_state s))
  then stop_worker wid m
  else goto wid k (PRetire cause (s_ledger s)) m.

Definition retire_begin (now : Z) (wid : nat) (k : worker) (cause : option gerr)
    (work : option nat) (m : manager) : manager :=
  match work with
  | Some work =>
      if bool_decide (CodeOf cause = FailureCleanup)
      then goto wid k (PNetworkDecide cause None) m
      else goto wid k (PReleaseWork cause work) (cleanupContext now m)
  | None => goto wid k (PNetworkDecide cause None) m
  end.

(** Middle section of [retireFinishedResources]. *)
Definition retire_network (wid : nat) (k : worker) (cause : option gerr)
    (cleanupErr : option gerr) (m : manager) : manager :=
  let s := m_session m in
  let releaseNetwork := s_stopRequested s || s_closing s || negb (s_vpnActive s) in
  match s_networkLedger s with
  | Some network =>
      if negb (is_Some_b cleanupErr) && negb (bool_decide (CodeOf cause = FailureCleanup)) &&
         releaseNetwork
      then goto wid k (PReleaseNetworkBegin cause network) m
      else goto wid k (PCommit cause releaseNetwork cleanupErr) m
  | None => goto wid k (PCommit cause releaseNetwork cleanupErr) m
  end.

Definition finishProtectedFailureLocked (now : Z) (cause : option gerr)
    (m : manager) : manager :=
  let s := m_session m in
  let message := errorMessage cause in
  let '(code, message) :=
    if negb (bool_decide (s_failureAfterCleanup s = NoFailure))
    then (s_failureAfterCleanup s, s_failureMessageAfterCleanup s)
    else if s_recovering s && negb (String.eqb (s_lastFailureMessage s) "")
    then (CodeOf cause,
          s_lastFailureMessage s +:+ "; automatic recovery failed: " +:+ message)
    else (CodeOf cause, message) in
  appendLocked now (on_session (fun s => s
    <| s_state := StateFailed |> <| s_active := None |> <| s_lastFailure := code |>
    <| s_lastFailureMessage := message |> <| s_recovering := false |>
    <| s_recoveryOriginGeneration := 0%Z |> <| s_failureAfterCleanup := NoFailure |>
    <| s_failureMessageAfterCleanup := "" |>) m).

(** Last section of [finish], branch by branch: cleanup failed, *)
Definition finish_failed (now : Z) (cause cleanupErr : option gerr) (m : manager) : manager :=
  appendLocked now (on_session (fun s => s
    <| s_pending := None |> <| s_restartAfterCleanup := false |>
    <| s_recovering := false |> <| s_failureAfterCleanup := NoFailure |>
    <| s_failureMessageAfterCleanup := "" |> <| s_state := StateFailed |>
    <| s_active := None |> <| s_lastFailure := FailureCleanup |>
    <| s_lastFailureMessage := errorMessage (join [cause; cleanupErr]) |>
    <| s_cleanupDone := false |>) m).

(** what was released is forgotten, *)
Definition finish_release (releaseNetwork : bool) (m : manager) : manager :=
  let m := on_session (fun s => s <| s_ledger := None |>) m in
  if releaseNetwork
  then on_session (fun s => s <| s_networkLedger := None |> <| s_vpnActive := false |>) m
  else m.

(** a requested stop ends in IDLE, *)
Definition finish_idle (now : Z) (m : manager) : manager :=
  appendLocked now (on_session (fun s => s
    <| s_state := StateIdle |> <| s_active := None |> <| s_pending := None |>
    <| s_recovering := false |> <| s_restartAfterCleanup := false |>
    <| s_recoveryOriginGeneration := 0%Z |> <| s_startOriginGeneration := 0%Z |>) m).

(** a pending switch or a queued recovery starts the next attempt. *)
Definition finish_restart (now : Z) (m : manager) : manager :=
  match s_pending (m_session m) with
  | Some p =>
      let m := on_session (fun s => s
        <| s_activeProfiles := p_profiles p |> <| s_activeDigest := p_digest p |>
        <| s_pending := None |> <| s_recoveryCount := 0%Z |>) m in
      let m := retainPolicy (s_activeDigest (m_session m)) (s_activeProfiles (m_session m)) m in
      spawn_runStart (p_target p) (beginAttemptLocked now (p_target p) m)
  | None =>
      let target := s_activeTarget (m_session m) in
      spawn_runStart target (beginAttemptLocked now target m)
  end.

Definition finish_settle (now : Z) (cause : option gerr) (m : manager) : manager :=
  let m := budget_finish m in
  let m := on_session (fun s => s <| s_cleanupDone := negb (s_vpnActive s) |>) m in
  let s := m_session m in
  if s_stopRequested s || s_closing s then finish_idle now m
  else if s_vpnActive s && (s_restartAfterCleanup s || is_Some_b (s_pending s))
  then finish_restart now m
  else finishProtectedFailureLocked now cause m.

(** Last section of [finish]. *)
Definition finish_commit (now : Z) (wid : nat) (k : worker) (cause : option gerr)
    (releaseNetwork : bool) (cleanupErr : option gerr) (m : manager) : manager :=
  let m := stop_worker wid m in
  if negb (s_generation (m_session m) =? wk_generation k)%Z then m
  else
    let failed := is_Some_b cleanupErr || bool_decide (CodeOf cause = FailureCleanup) in
    let m := on_session (fun s => s
      <| s_cancel := None |> <| s_cleanupFailed := failed |>) m in
    if failed then finish_failed now cause cleanupErr m
    else
      let m := finish_release releaseNetwork m in
      let s := m_session m in
      if negb releaseNetwork && (s_stopRequested s || s_closing s) then
        spawn_finish (wk_generation k)
          (on_session (fun s => s <| s_state := StateStopping |>) m)
      else finish_settle now cause m.

(** One piece of the goroutine [wid]; [None] when the reply does not answer
    the call it is blocked in. *)
Definition worker_step (now : Z) (wid : nat) (k : worker) (r : reply) (m : manager) :
    option manager :=
  match wk_pc k, r with
  | PPrepare, RNone => Some (prepareNetwork_begin wid k m)
  | PTunnel ref profile work, RLease granted err =>
      Some (prepareNetwork_tunnel wid k ref profile work granted err m)
  | PNetwork ref profile work, RLease granted err =>
      Some (prepareNetwork_runtime wid k work granted err m)
  | PNetworkUp, RNone => Some (prepareNetwork_commit now wid k m)
  | PNetworkCheck, RNone => Some (prepareNetwork_check wid k m)
  | PProfiles, RNone => Some (runStart_profiles wid k m)
  | PCandidate index rest errs, RNone => Some (runStart_candidate wid k index rest errs m)
  | PAdvance index profile rest errs, RNone =>
      Some (runStart_advance now wid k index profile rest errs m)
  | PStarting index profile rest errs, RLease granted err =>
      Some (runStart_started wid k index profile rest errs granted err m)
  | PCandidateCleanup index rest errs invalid, RNone =>
      Some (runStart_cleanup now wid k index rest errs invalid m)
  | PCandidateRelease index rest errs invalid work, RClose closeErr =>
      match release_step work closeErr m with
      | Some (m, Some err) =>
          Some (goto wid k (PFinish (wrapFailure FailureCleanup
                                       (join [join errs; Some err]))) m)
      | Some (m, None) => Some m
      | None => None
      end
  | PCandidateRelease index rest errs invalid work, RNone =>
      if ledger_empty work m
      then Some (goto wid k (PCandidateDone index rest errs invalid) m) else None
  | PCandidateDone index rest errs invalid, RNone =>
      Some (runStart_next wid k index rest errs invalid m)
  | PConnect profile, RNone => Some (runStart_connect now wid k profile m)
  | PWait failures_open, r => waitForAttemptEnd now wid k failures_open r m
  | PFinish cause, RNone => Some (finish_begin wid k cause m)
  | PRetire cause work, RNone => Some (retire_begin now wid k cause work m)
  | PReleaseWork cause work, RClose closeErr =>
      match release_step work closeErr m with
      | Some (m, Some err) => Some (goto wid k (PNetworkDecide cause (Some err)) m)
      | Some (m, None) => Some m
      | None => None
      end
  | PReleaseWork cause work, RNone =>
      if ledger_empty work m
      then Some (goto wid k (PNetworkDecide cause None) m) else None
  | PNetworkDecide cause cleanupErr, RNone =>
      Some (retire_network wid k cause cleanupErr m)
  | PReleaseNetworkBegin cause network, RNone =>
      Some (goto wid k (PReleaseNetwork cause network) (cleanupContext now m))
  | PReleaseNetwork cause network, RClose closeErr =>
      match release_step network closeErr m with
      | Some (m, Some err) => Some (goto wid k (PCommit cause true (Some err)) m)
      | Some (m, None) => Some m
      | None => None
      end
  | PReleaseNetwork cause network, RNone =>
      if ledger_empty network m
      then Some (goto wid k (PCommit cause true None) m) else None
  | PCommit cause releaseNetwork cleanupErr, RNone =>
      Some (finish_commit now wid k cause releaseNetwork cleanupErr m)
  | _, _ => None
  end.

(** ** The manager as a state machine *)

(** What the manager relies on from configuration parsing. *)
Class ConfigParser := {
  parseConfig : string -> result parsedConfig gerr;
  parseConfig_profiles :
    forall raw parsed, parseConfig raw = Ok parsed -> pc_profiles parsed <> []
}.

Inductive event :=
| EvConfigure (ctxErr : option gerr) (expectedSequence : Z)
| EvLoadFailed (request : Z)
| EvAccept (request : Z) (ctxErr : option gerr) (loaded : LoadedConfig) (io : io_reply)
| EvStart (expectedSequence : Z) (target : StartTarget) (suppliedSource : bool)
    (io : io_reply)
| EvStop (generation : Z) (loadErr : option gerr) (io : io_reply)
| EvStopAndWait
| EvCleanupContext
| EvResume
| EvAttachStore (store : sourceStore)
| EvStoreLoaded (loaded : result (option string) gerr)
| EvWorker (wid : nat) (r : reply).

Section machine.
Context `{ConfigParser}.

(** One atomic step; [None] when the event is not enabled.  A panicked
    process takes no step. *)
Definition step (now : Z) (ev : event) (m : manager) : option manager :=
  if m_panic m then None
  else match ev with
  | EvConfigure ctxErr expectedSequence =>
      Some (Configure_begin ctxErr expectedSequence m).1
  | EvLoadFailed request =>
      if existsb (Z.eqb request) (m_inflight m)
      then Some (m <| m_inflight ::= List.remove Z.eq_dec request |>) else None
  | EvAccept request ctxErr loaded io =>
      if existsb (Z.eqb request) (m_inflight m) then
        let m := m <| m_inflight ::= List.remove Z.eq_dec request |> in
        match parseConfig (lc_Raw loaded) with
        | Err _ => Some m
        | Ok parsed => Some (Configure_accept now ctxErr request loaded parsed io m).1
        end
      else None
  | EvStart expectedSequence target suppliedSource io =>
      Some (Start_locked now io expectedSequence
              (target <| t_Source := None |>) suppliedSource m).1
  | EvStop generation loadErr io =>
      Some (Stop now loadErr io generation m).1.1
  | EvStopAndWait => Some (StopAndWait_begin now m)
  | EvCleanupContext => Some (cleanupContext now m)
  | EvResume => Some (Resume now m).1
  | EvAttachStore store => Some (AttachSourceStore_install store m).1
  | EvStoreLoaded loaded => Some (AttachSourceStore_loaded now loaded m)
  | EvWorker wid r =>
      match m_workers m !! wid with
      | Some k => worker_step now wid k r m
      | None => None
      end
  end.

Fixpoint run (evs : list (Z * event)) (m : manager) : option manager :=
  match evs with
  | [] => Some m
  | (now, ev) :: evs =>
      match step now ev m with
      | Some m' => run evs m'
      | None => None
      end
  end.

(** A manager some history of the program leads to. *)
Definition reachable (m : manager) : Prop :=
  exists id initErr networkRuntime store saved evs,
    run evs (NewManager id initErr networkRuntime store saved) = Some m.
End machine.
