(* ===== verification/GoStrings.v ===== *)
(** * The text functions of Go's standard library the program uses

    Byte strings are [string].  [strings.TrimSpace] and friends, the base64
    standard encoding, [url.QueryEscape] and [strconv.Itoa], with the decoders
    that specify the two encodings. *)

From S2P Require Import Prelude.
From Stdlib Require Import Ascii Strings.String.
From stdpp Require Import strings pretty.
Local Open Scope string_scope.

Fixpoint has_prefix (p s : string) : bool :=
  match p, s with
  | EmptyString, _ => true
  | String a p, String b s => Ascii.eqb a b && has_prefix p s
  | String _ _, EmptyString => false
  end.

Fixpoint drop_bytes (n : nat) (s : string) : string :=
  match n, s with
  | O, _ => s
  | S n, String _ s => drop_bytes n s
  | S _, EmptyString => EmptyString
  end.

Fixpoint take_bytes (n : nat) (s : string) : string :=
  match n, s with
  | S n, String a s => String a (take_bytes n s)
  | _, _ => EmptyString
  end.

(** [strings.Index]: [None] is -1. *)
Fixpoint index_of (p s : string) : option nat :=
  if has_prefix p s then Some 0
  else match s with
       | EmptyString => None
       | String _ s => option_map S (index_of p s)
       end.

(** [%q] of a name without characters that are escaped. *)
Definition quoted (s : string) : string := String (Ascii.ascii_of_nat 34) (s +:+ String (Ascii.ascii_of_nat 34) EmptyString).

Definition contains (p s : string) : bool :=
  match index_of p s with Some _ => true | None => false end.

Fixpoint count_byte (c : ascii) (s : string) : nat :=
  match s with
  | EmptyString => 0
  | String a s => (if Ascii.eqb a c then 1 else 0) + count_byte c s
  end.

(** [strings.Split(s, sep)[0]] for a one-byte separator. *)
Fixpoint before_byte (c : ascii) (s : string) : string :=
  match s with
  | EmptyString => EmptyString
  | String a s => if Ascii.eqb a c then EmptyString else String a (before_byte c s)
  end.

(** What follows the first occurrence. *)
Fixpoint after_byte (c : ascii) (s : string) : string :=
  match s with
  | EmptyString => EmptyString
  | String a s => if Ascii.eqb a c then s else after_byte c s
  end.

Definition bytes (ns : list nat) : string := string_of_list_ascii (map ascii_of_nat ns).

(** The UTF-8 forms of the code points [unicode.IsSpace] accepts. *)
Definition spaces : list string :=
  map bytes [[9]; [10]; [11]; [12]; [13]; [32]; [194; 133]; [194; 160]; [225; 154; 128];
    [226; 128; 128]; [226; 128; 129]; [226; 128; 130]; [226; 128; 131]; [226; 128; 132];
    [226; 128; 133]; [226; 128; 134]; [226; 128; 135]; [226; 128; 136]; [226; 128; 137];
    [226; 128; 138]; [226; 128; 168]; [226; 128; 169]; [226; 128; 175]; [226; 129; 159];
    [227; 128; 128]].

Fixpoint reverse (s : string) : string :=
  match s with
  | EmptyString => EmptyString
  | String a s => reverse s +:+ String a EmptyString
  end.

(** Remove leading members of [cut]; each round shortens the string. *)
Fixpoint trim_left (fuel : nat) (cut : list string) (s : string) : string :=
  match fuel with
  | O => s
  | S fuel =>
      match List.find (fun p => has_prefix p s) cut with
      | Some p => trim_left fuel cut (drop_bytes (String.length p) s)
      | None => s
      end
  end.

Definition TrimSpace (s : string) : string :=
  let s := trim_left (String.length s) spaces s in
  reverse (trim_left (String.length s) (map reverse spaces) (reverse s)).

(** [strings.TrimRight(s, "/")] *)
Definition TrimRightSlash (s : string) : string :=
  reverse (trim_left (String.length s) ["/"] (reverse s)).

(** ASCII letters fold to lower case. *)
Definition lower (c : ascii) : ascii :=
  let n := nat_of_ascii c in
  if (65 <=? n)%nat && (n <=? 90)%nat then ascii_of_nat (n + 32) else c.

Fixpoint ToLower (s : string) : string :=
  match s with
  | EmptyString => EmptyString
  | String a s => String (lower a) (ToLower s)
  end.

(** ASCII case folding, with the two other runes that fold to ASCII letters:
    U+017F to s and U+212A to k. *)
Fixpoint fold_case (s : string) : string :=
  match s with
  | EmptyString => EmptyString
  | String a s =>
      match nat_of_ascii a, s with
      | 197, String b s' =>
          if (nat_of_ascii b =? 191)%nat then String "s" (fold_case s')
          else String a (fold_case s)
      | 226, String b (String c s') =>
          if (nat_of_ascii b =? 132)%nat && (nat_of_ascii c =? 170)%nat
          then String "k" (fold_case s') else String a (fold_case s)
      | _, _ => String (lower a) (fold_case s)
      end
  end.

(** [strings.EqualFold] against an ASCII word. *)
Definition EqualFold (s word : string) : bool := String.eqb (fold_case s) (ToLower word).

(** [strconv.Itoa] and [strconv.FormatInt(_, 10)]. *)
Definition Itoa (z : Z) : string := pretty z.

Fixpoint digits (acc : Z) (s : string) : option Z :=
  match s with
  | EmptyString => Some acc
  | String c s =>
      let n := nat_of_ascii c in
      if (48 <=? n)%nat && (n <=? 57)%nat then digits (acc * 10 + (Z.of_nat n - 48)) s else None
  end.

(** [strconv.Atoi] on a 64-bit platform; [None] is an error. *)
Definition Atoi (s : string) : option Z :=
  let '(sign, body) :=
    match s with
    | String "-" s => ((-1)%Z, s)
    | String "+" s => (1%Z, s)
    | s => (1%Z, s)
    end in
  if String.eqb body "" then None
  else match digits 0 body with
       | Some n =>
           let n := (sign * n)%Z in
           if ((- 2 ^ 63 <=? n) && (n <? 2 ^ 63))%Z then Some n else None
       | None => None
       end.

(** ** Base64, standard alphabet with padding *)

Definition alphabet : string :=
  "ABCDEFGHIJKLMNOPQRSTUVWXYZabcdefghijklmnopqrstuvwxyz0123456789+/".

Definition sextet (n : Z) : ascii :=
  match String.get (Z.to_nat n) alphabet with Some c => c | None => "="%char end.

Definition byte_of (c : ascii) : Z := Z.of_nat (nat_of_ascii c).
Definition of_byte (z : Z) : ascii := ascii_of_nat (Z.to_nat z).

Fixpoint EncodeToString (s : string) : string :=
  match s with
  | EmptyString => EmptyString
  | String a EmptyString =>
      let a := byte_of a in
      String (sextet (a / 4)) (String (sextet (a mod 4 * 16)) "==")
  | String a (String b EmptyString) =>
      let a := byte_of a in let b := byte_of b in
      String (sextet (a / 4)) (String (sextet (a mod 4 * 16 + b / 16))
        (String (sextet (b mod 16 * 4)) "="))
  | String a (String b (String c s)) =>
      let a := byte_of a in let b := byte_of b in let c := byte_of c in
      String (sextet (a / 4)) (String (sextet (a mod 4 * 16 + b / 16))
        (String (sextet (b mod 16 * 4 + c / 64)) (String (sextet (c mod 64))
           (EncodeToString s))))
  end%Z.

(** The decoder that specifies it. *)
Definition unsextet (c : ascii) : option Z :=
  option_map Z.of_nat (index_of (String c EmptyString) alphabet).

Fixpoint DecodeString (s : string) : option string :=
  match s with
  | EmptyString => Some EmptyString
  | String w (String x (String y (String z s))) =>
      match unsextet w, unsextet x with
      | Some w, Some x =>
          let a := of_byte (w * 4 + x / 16) in
          match unsextet y with
          | None => if String.eqb s "" then Some (String a EmptyString) else None
          | Some y =>
              let b := of_byte (x mod 16 * 16 + y / 4) in
              match unsextet z with
              | None => if String.eqb s "" then Some (String a (String b EmptyString)) else None
              | Some z =>
                  option_map (fun r => String a (String b (String (of_byte (y mod 4 * 64 + z)) r)))
                    (DecodeString s)
              end
          end
      | _, _ => None
      end
  | _ => None
  end%Z.

(** ** Query escaping *)

Definition is_alnum (n : nat) : bool :=
  (48 <=? n)%nat && (n <=? 57)%nat || (65 <=? n)%nat && (n <=? 90)%nat ||
  (97 <=? n)%nat && (n <=? 122)%nat.

(** [shouldEscape(c, encodeQueryComponent)] is false: alphanumerics, [-_.~]. *)
Definition unreserved (c : ascii) : bool :=
  let n := nat_of_ascii c in
  is_alnum n || (n =? 45)%nat || (n =? 95)%nat || (n =? 46)%nat || (n =? 126)%nat.

Definition upperhex (n : nat) : ascii :=
  match String.get n "0123456789ABCDEF" with Some c => c | None => "0"%char end.

Fixpoint QueryEscape (s : string) : string :=
  match s with
  | EmptyString => EmptyString
  | String c s =>
      let n := nat_of_ascii c in
      if (n =? 32)%nat then String "+" (QueryEscape s)
      else if unreserved c then String c (QueryEscape s)
      else String "%" (String (upperhex (n / 16)) (String (upperhex (n mod 16)) (QueryEscape s)))
  end.

Definition unhex (c : ascii) : option nat :=
  let n := nat_of_ascii c in
  if (48 <=? n)%nat && (n <=? 57)%nat then Some (n - 48)
  else if (65 <=? n)%nat && (n <=? 70)%nat then Some (n - 55)
  else if (97 <=? n)%nat && (n <=? 102)%nat then Some (n - 87)
  else None.

Fixpoint QueryUnescape (s : string) : option string :=
  match s with
  | EmptyString => Some EmptyString
  | String "%" s =>
      match s with
      | String x (String y s) =>
          match unhex x, unhex y with
          | Some x, Some y => option_map (String (ascii_of_nat (x * 16 + y))) (QueryUnescape s)
          | _, _ => None
          end
      | _ => None
      end
  | String "+" s => option_map (String " ") (QueryUnescape s)
  | String c s => option_map (String c) (QueryUnescape s)
  end.

(** ** Round trips *)

Lemma byte_of_range c : (0 <= byte_of c < 256)%Z.
Proof. unfold byte_of. pose proof (nat_ascii_bounded c). lia. Qed.

Lemma of_byte_byte_of c : of_byte (byte_of c) = c.
Proof. unfold of_byte, byte_of. by rewrite Nat2Z.id, ascii_nat_embedding. Qed.

Lemma unsextet_sextet n : (0 <= n < 64)%Z -> unsextet (sextet n) = Some n.
Proof.
  intros Hn. assert (forallb (fun k => match unsextet (sextet (Z.of_nat k)) with
    | Some m => (m =? Z.of_nat k)%Z | None => false end) (List.seq 0 64) = true) as Hall
    by (vm_compute; reflexivity).
  rewrite forallb_forall in Hall. specialize (Hall (Z.to_nat n)).
  rewrite Z2Nat.id in Hall by lia.
  destruct (unsextet (sextet n)) as [m|]; [f_equal; apply Z.eqb_eq|].
  - apply Hall. apply in_seq. lia.
  - discriminate Hall. apply in_seq. lia.
Qed.

(** Strings three bytes at a time. *)
Lemma triple_ind (P : string -> Prop) :
  P "" -> (forall a, P (String a "")) -> (forall a b, P (String a (String b ""))) ->
  (forall a b c s, P s -> P (String a (String b (String c s)))) -> forall s, P s.
Proof.
  intros H0 H1 H2 H3. fix IH 1. intros [|a [|b [|c s]]]; [done|apply H1|apply H2|apply H3, IH].
Qed.

Lemma DecodeString_EncodeToString s : DecodeString (EncodeToString s) = Some s.
Proof.
  induction s as [|a|a b|a b c s IH] using triple_ind; [done|..]; cbn [EncodeToString DecodeString].
  - pose proof (byte_of_range a).
    rewrite !unsextet_sextet by (Z.to_euclidean_division_equations; lia).
    replace (unsextet "=") with (@None Z) by reflexivity. cbn. do 2 f_equal.
    etrans; [|apply of_byte_byte_of]. f_equal. Z.to_euclidean_division_equations; lia.
  - pose proof (byte_of_range a). pose proof (byte_of_range b).
    rewrite !unsextet_sextet by (Z.to_euclidean_division_equations; lia).
    replace (unsextet "=") with (@None Z) by reflexivity. cbn. do 2 f_equal; [|f_equal].
    + etrans; [|apply of_byte_byte_of]. f_equal. Z.to_euclidean_division_equations; lia.
    + etrans; [|apply of_byte_byte_of]. f_equal. Z.to_euclidean_division_equations; lia.
  - pose proof (byte_of_range a). pose proof (byte_of_range b). pose proof (byte_of_range c).
    rewrite !unsextet_sextet by (Z.to_euclidean_division_equations; lia).
    rewrite IH. cbn. do 2 f_equal; [|f_equal; [|f_equal]].
    + etrans; [|apply of_byte_byte_of]. f_equal. Z.to_euclidean_division_equations; lia.
    + etrans; [|apply of_byte_byte_of]. f_equal. Z.to_euclidean_division_equations; lia.
    + etrans; [|apply of_byte_byte_of]. f_equal. Z.to_euclidean_division_equations; lia.
Qed.

Lemma QueryUnescape_step c s :
  QueryUnescape (QueryEscape (String c s)) = option_map (String c) (QueryUnescape (QueryEscape s)).
Proof.
  cbn [QueryEscape]. generalize (QueryEscape s). intros r.
  destruct c as [[] [] [] [] [] [] [] []]; reflexivity.
Qed.

Lemma QueryUnescape_QueryEscape s : QueryUnescape (QueryEscape s) = Some s.
Proof. induction s as [|c s IH]; [done|]. by rewrite QueryUnescape_step, IH. Qed.

Lemma take_bytes_length n s :
  n <= String.length s -> String.length (take_bytes n s) = n.
Proof.
  revert s. induction n as [|n IH]; intros [|c s] Hn; cbn in *; try done; [lia|].
  rewrite IH; lia.
Qed.

(** ** What the encodings do not contain *)

Lemma string_app_assoc (a b c : string) : (a +:+ b) +:+ c = a +:+ (b +:+ c).
Proof.
  induction a as [|x a IH]; [done|].
  change (String x ((a +:+ b) +:+ c) = String x (a +:+ (b +:+ c))). by rewrite IH.
Qed.

Lemma count_byte_app c s t : count_byte c (s +:+ t) = count_byte c s + count_byte c t.
Proof.
  induction s as [|a s IH]; [done|]. change (String a s +:+ t) with (String a (s +:+ t)).
  cbn [count_byte]. rewrite IH. lia.
Qed.

Lemma sextet_not_at n : (0 <= n < 64)%Z -> Ascii.eqb (sextet n) "@"%char = false.
Proof.
  intros Hn. assert (forallb (fun k => negb (Ascii.eqb (sextet (Z.of_nat k)) "@"%char))
    (List.seq 0 64) = true) as Hall by (vm_compute; reflexivity).
  rewrite forallb_forall in Hall. specialize (Hall (Z.to_nat n)).
  rewrite Z2Nat.id in Hall by lia. apply negb_true_iff, Hall, in_seq. lia.
Qed.

Lemma EncodeToString_no_at s : count_byte "@"%char (EncodeToString s) = 0.
Proof.
  induction s as [|a|a b|a b c s IH] using triple_ind; [done|..]; cbn [EncodeToString count_byte];
    try pose proof (byte_of_range a); try pose proof (byte_of_range b);
    try pose proof (byte_of_range c);
    rewrite !sextet_not_at by (Z.to_euclidean_division_equations; lia); try done.
Qed.

Lemma has_prefix_app p s : has_prefix p (p +:+ s) = true.
Proof.
  induction p as [|a p IH]; [by destruct s|]. change (String a p +:+ s) with (String a (p +:+ s)).
  cbn [has_prefix]. by rewrite Ascii.eqb_refl.
Qed.

Lemma QueryEscape_no_amp s : count_byte "&"%char (QueryEscape s) = 0.
Proof.
  induction s as [|c s IH]; [done|].
  assert (forall r, count_byte "&"%char r = 0 ->
    count_byte "&"%char (if (nat_of_ascii c =? 32)%nat then String "+" r
      else if unreserved c then String c r
      else String "%" (String (upperhex (nat_of_ascii c / 16))
             (String (upperhex (nat_of_ascii c mod 16)) r))) = 0) as H; [|apply H, IH].
  intros r Hr. destruct c as [[] [] [] [] [] [] [] []]; cbn; exact Hr.
Qed.
