(* ===== verification/Config.v ===== *)
(** * Configuration documents (core/sessionapi/config.go)

    From the bytes of a document to the profiles the manager accepts.  The
    TOML decoder, the URL parser and SHA-256 are parameters; everything the
    repository does with their answers is defined here: the size and section
    checks, the order of the profiles, the per-protocol validation and the
    Outline URL. *)

From S2P Require Import Prelude Errors Values Session Manager Worker GoStrings.
From Stdlib Require Import SpecFloat Ascii.
Local Open Scope string_scope.

Record configRoot := mkConfigRoot {
  LogsEndpoint : string;
  ExcludeIPs : list string;
  rOutline : list fields;
  rXray : list fields;
  rTrustTunnel : list fields
}.

(** What [toml.Decode] answers: the decoded struct and its metadata. *)
Record tomlDoc := mkTomlDoc {
  td_root : configRoot;
  td_keys : list (list string);
  td_type : list string -> string;
  td_logs_defined : bool
}.

(** What the program reads of a [url.URL]; [up_User] is the username and the
    optional password, [up_Plain] the text of the URL without them. *)
Record urlParts := mkUrlParts {
  up_Scheme : string;
  up_Host : string;
  up_Hostname : string;
  up_Port : string;
  up_EscapedPath : string;
  up_RawQuery : string;
  up_ForceQuery : bool;
  up_Opaque : string;
  up_User : option (string * string);
  up_Plain : string
}.

Definition configSectionOutline := "Outline".
Definition configSectionXray := "Xray".
Definition configSectionTrustTunnel := "TrustTunnel".
Definition maxConfigBytes : Z := 1048576%Z.

Definition is_section (name : string) : bool :=
  String.eqb name configSectionOutline || String.eqb name configSectionXray ||
  String.eqb name configSectionTrustTunnel.

Definition malformed (message : string) : gerr := failure FailureMalformedConfig message.

Fixpoint validateRootKeys (keys : list (list string)) : option gerr :=
  match keys with
  | [] => None
  | [] :: keys => validateRootKeys keys
  | (k :: rest) :: keys =>
      if String.eqb k "logs_endpoint" && negb (bool_decide (length rest = 0)) then
        Some (malformed "logs_endpoint must be a URL string")
      else if String.eqb k "ExcludeIPs" &&
              match rest with
              | [] => false
              | k1 :: more => negb (String.eqb k1 "IPs") || negb (bool_decide (length more = 0))
              end then
        Some (failure FailureUnsupported
                "configuration contains an unsupported ExcludeIPs setting")
      else if is_section k || String.eqb k "ExcludeIPs" || String.eqb k "logs_endpoint"
      then validateRootKeys keys
      else Some (failure FailureUnsupported "configuration contains an unsupported section")
  end.

(** The root array tables in document order. *)
Definition sections (doc : tomlDoc) : list string :=
  omap (fun key =>
    match key with
    | [k] => if String.eqb (td_type doc key) "ArrayHash" && is_section k then Some k else None
    | _ => None
    end) (td_keys doc).

Definition count_name (name : string) (names : list string) : nat :=
  length (List.filter (String.eqb name) names).

Definition validateTrustTunnelVerification (block : fields) : option gerr :=
  match lookup_field "skip_verification" block with
  | Some _ =>
      Some (malformed "TrustTunnel skip_verification is only supported under endpoint")
  | None =>
      match field "endpoint" block with
      | AMap endpoint =>
          match lookup_field "skip_verification" endpoint with
          | None => None
          | Some (ABool true) =>
              Some (malformed "TrustTunnel certificate verification must remain enabled")
          | Some (ABool false) => None
          | Some _ =>
              Some (malformed "TrustTunnel endpoint.skip_verification must be a boolean")
          end
      | _ => None
      end
  end.

Definition rawStringValue (block : fields) (key : string) : string :=
  match field key block with AString s => s | _ => "" end.

Definition stringValue (block : fields) (key : string) : string :=
  TrimSpace (rawStringValue block key).

Definition boolValue (block : fields) (key : string) : bool :=
  match field key block with ABool b => b | _ => false end.

(** [int64(f)] of a float in range truncates; out of range the result is the
    platform's. *)
Definition truncate (f : spec_float) : option Z :=
  match f with
  | S754_zero _ => Some 0%Z
  | S754_finite neg m e =>
      let n := if (0 <=? e)%Z then (Z.pos m * 2 ^ e)%Z else (Z.pos m / 2 ^ (- e))%Z in
      let n := if neg then (- n)%Z else n in
      if ((- 2 ^ 63 <=? n) && (n <? 2 ^ 63))%Z then Some n else None
  | _ => None
  end.

Section config.
Context (tomlDecode : string -> result tomlDoc gerr).
Context (urlParse : string -> option urlParts).
Context (sha256Hex : string -> string).
Context (overflowInt64 : spec_float -> Z).

Definition validateLogsEndpoint (endpoint : string) : option gerr :=
  if String.eqb endpoint "" then None
  else
    let bad := malformed "logs_endpoint must be an HTTPS directory URL without query or fragment" in
    match urlParse endpoint with
    | None => Some bad
    | Some u =>
        if negb (String.eqb (up_Scheme u) "https") || String.eqb (up_Host u) "" ||
           String.eqb (up_Hostname u) "" || negb (has_prefix "/" (reverse (up_EscapedPath u))) ||
           negb (String.eqb (up_RawQuery u) "") || up_ForceQuery u || contains "#" endpoint ||
           negb (String.eqb (up_Opaque u) "")
        then Some bad
        else if negb (String.eqb (up_Port u) "") &&
                match Atoi (up_Port u) with
                | None => true
                | Some value => (value <? 1)%Z || (65535 <? value)%Z
                end
        then Some (malformed "logs_endpoint has an invalid port")
        else match up_User u with
             | Some (name, _) =>
                 if contains ":" name then
                   Some (malformed "logs_endpoint Basic username cannot contain a colon")
                 else None
             | None => None
             end
    end.

Definition decodeConfig (raw : string) : result (configRoot * list string) gerr :=
  if (maxConfigBytes <? Z.of_nat (String.length raw))%Z then
    Err (malformed "configuration exceeds the 1 MiB size limit")
  else if String.eqb (TrimSpace raw) "" then Err (malformed "configuration is blank")
  else match tomlDecode raw with
  | Err err => Err (failureWithCause FailureMalformedConfig "TOML could not be parsed" (Some err))
  | Ok doc =>
      let root := td_root doc in
      if td_logs_defined doc && String.eqb (LogsEndpoint root) "" then
        Err (malformed "logs_endpoint must not be empty")
      else match validateRootKeys (td_keys doc) with
      | Some err => Err err
      | None =>
          let protocols := sections doc in
          if bool_decide (length protocols = 0) then
            Err (malformed
              "expected one or more [[Outline]], [[Xray]], or [[TrustTunnel]] sections")
          else if negb (bool_decide (count_name configSectionOutline protocols = length (rOutline root))) ||
                  negb (bool_decide (count_name configSectionXray protocols = length (rXray root))) ||
                  negb (bool_decide (count_name configSectionTrustTunnel protocols = length (rTrustTunnel root)))
          then Err (malformed "protocol section count does not match TOML data")
          else Ok (root, protocols)
      end
  end.

Definition intString (value : any) : string :=
  match value with
  | AInt64 v => Itoa v
  | AInt v => Itoa v
  | AFloat64 v => Itoa (match truncate v with Some z => z | None => overflowInt64 v end)
  | _ => ""
  end.

Definition outlineHost (serverPort : string) : string :=
  let host := before_byte "?"%char serverPort in
  let plain :=
    if bool_decide (count_byte ":"%char host = 1) then before_byte ":"%char host else host in
  if has_prefix "[" host then
    match index_of "]" host with
    | Some (S e) => take_bytes e (drop_bytes 1 host)
    | _ => plain
    end
  else plain.

(** The [prefix] parameter of a disguised Outline URL. *)
Definition disguise (serverPort prefix : string) : string :=
  if String.eqb prefix "" then ""
  else (if contains "?" serverPort then "&" else "?") +:+ "prefix=" +:+ QueryEscape prefix.

Definition webSocketParams (base : string) : string :=
  if String.eqb base "" then ""
  else "tcp_path=" +:+ base +:+ "/tcp&udp_path=" +:+ base +:+ "/udp".

Definition normalizeOutlineURL (block : fields) : result string gerr :=
  let method := stringValue block "Method" in
  let method := if String.eqb method "" then "chacha20-ietf-poly1305" else method in
  let password := stringValue block "Password" in
  if String.eqb password "" then Err (malformed "Outline profile requires a password")
  else
    let server := stringValue block "Server" in
    let port := intString (field "Port" block) in
    let websocket := boolValue block "WebSocket" in
    if String.eqb server "" then Err (malformed "Outline profile requires a server")
    else
      let port := if String.eqb port "" && websocket then "443" else port in
      if String.eqb port "" then Err (malformed "Outline profile requires a port")
      else
        let serverPort := server +:+ ":" +:+ port in
        let encoded := EncodeToString (method +:+ ":" +:+ password) in
        let ssURL := "ss://" +:+ encoded +:+ "@" +:+ serverPort +:+
                     disguise serverPort (rawStringValue block "DisguisePrefix") in
        if negb websocket then Ok ssURL
        else
          Ok ("tls:sni=" +:+ outlineHost serverPort +:+ "|ws:" +:+
              webSocketParams (TrimRightSlash (stringValue block "WebSocketPath")) +:+ "|" +:+ ssURL).

Definition normalizeProfile (kind : Protocol) (block : fields) : result Config gerr :=
  match kind with
  | ProtocolXray =>
      match lookup_field "outbounds" block with
      | None => Err (malformed "Xray profile requires outbounds")
      | Some _ => Ok (mkConfig "" (CloneFields block) [])
      end
  | ProtocolOutline =>
      let? normalized := normalizeOutlineURL block in Ok (mkConfig normalized [] [])
  | ProtocolTrustTunnel => Ok (mkConfig "" [] (CloneFields block))
  | ProtocolNone => Err (failure FailureUnsupported "unsupported protocol")
  end%result.

(** [next] counts the sections of each name consumed so far; [None] when Go
    would index past the decoded blocks. *)
Definition nextProfile (root : configRoot) (next : string -> nat) (name : string) :
    option (fields * Protocol) :=
  if String.eqb name configSectionOutline then
    option_map (fun b => (b, ProtocolOutline)) (rOutline root !! next name)
  else if String.eqb name configSectionXray then
    option_map (fun b => (b, ProtocolXray)) (rXray root !! next name)
  else if String.eqb name configSectionTrustTunnel then
    option_map (fun b => (b, ProtocolTrustTunnel)) (rTrustTunnel root !! next name)
  else Some ([], ProtocolNone).

Definition consume (name : string) (next : string -> nat) : string -> nat :=
  fun n => if String.eqb n name then S (next n) else next n.

(** The checks and the summary of one block. *)
Definition profileOf (root : configRoot) (block : fields) (protocol : Protocol)
    (profileIndex : Z) : result RuntimeProfile gerr :=
  let cloakErr :=
    match lookup_field "Cloak" block with
    | None => None
    | Some (ABool false) => None
    | Some (ABool true) =>
        Some (failure FailureUnsupported "configuration contains a removed Cloak profile")
    | Some _ => Some (malformed "Cloak must be a boolean")
    end in
  match cloakErr with
  | Some err => Err err
  | None =>
      let verifyErr :=
        if bool_decide (protocol = ProtocolTrustTunnel)
        then validateTrustTunnelVerification block else None in
      match verifyErr with
      | Some err => Err err
      | None =>
          let? description :=
            match lookup_field "Description" block with
            | None => Ok ""
            | Some (AString s) => Ok s
            | Some _ => Err (malformed "Description must be a string")
            end in
          let? normalized := normalizeProfile protocol block in
          Ok (mkRuntimeProfile (mkProfileSummary profileIndex protocol description)
                normalized (ExcludeIPs root))
      end
  end%result.

Definition parseProfile (root : configRoot) (next : string -> nat) (name : string)
    (profileIndex : Z) : option (result RuntimeProfile gerr) :=
  option_map (fun bp => profileOf root bp.1 bp.2 profileIndex) (nextProfile root next name).

(** [None] is a panic of an index expression. *)
Fixpoint parseProfiles_from (root : configRoot) (next : string -> nat) (index : nat)
    (protocols : list string) : option (result (list RuntimeProfile) gerr) :=
  match protocols with
  | [] => Some (Ok [])
  | name :: protocols =>
      match parseProfile root next name (i32 (Z.of_nat index)) with
      | None => None
      | Some (Err err) => Some (Err err)
      | Some (Ok profile) =>
          match parseProfiles_from root (consume name next) (S index) protocols with
          | Some (Ok profiles) => Some (Ok (profile :: profiles))
          | other => other
          end
      end
  end.

Definition parseProfiles (root : configRoot) (protocols : list string) :
    option (result (list RuntimeProfile) gerr) :=
  parseProfiles_from root (fun _ => 0) 0 protocols.

Definition parseDocument (raw : string) : option (result parsedConfig gerr) :=
  match decodeConfig raw with
  | Err err => Some (Err err)
  | Ok (root, protocols) =>
      match parseProfiles root protocols with
      | None => None
      | Some (Err err) => Some (Err err)
      | Some (Ok profiles) =>
          match validateLogsEndpoint (LogsEndpoint root) with
          | Some err => Some (Err err)
          | None => Some (Ok (mkParsedConfig (sha256Hex raw) profiles (LogsEndpoint root)))
          end
      end
  end.

(** The second half of [loadConfig]: errors without a code get one. *)
Definition parseLoaded (raw : string) : option (result parsedConfig gerr) :=
  match parseDocument raw with
  | Some (Err err) =>
      match as_domain err with
      | Some _ => Some (Err err)
      | None =>
          Some (Err (failureWithCause FailureMalformedConfig "configuration is malformed"
                       (Some err)))
      end
  | other => other
  end.

(** ** The profiles of a document *)

(** What is still to be consumed of the blocks matches the remaining names. *)
Definition enough (root : configRoot) (next : string -> nat) (names : list string) : Prop :=
  count_name configSectionOutline names + next configSectionOutline <= length (rOutline root) /\
  count_name configSectionXray names + next configSectionXray <= length (rXray root) /\
  count_name configSectionTrustTunnel names + next configSectionTrustTunnel
    <= length (rTrustTunnel root).

(** The protocol a section name selects. *)
Definition protocolOf (name : string) : Protocol :=
  if String.eqb name configSectionOutline then ProtocolOutline
  else if String.eqb name configSectionXray then ProtocolXray
  else if String.eqb name configSectionTrustTunnel then ProtocolTrustTunnel
  else ProtocolNone.

Lemma nextProfile_enough root next name names :
  enough root next (name :: names) ->
  (exists block, nextProfile root next name = Some (block, protocolOf name)) /\
  enough root (consume name next) names.
Proof.
  unfold enough, nextProfile, protocolOf, consume, count_name. cbn [List.filter].
  intros (Ho & Hx & Ht).
  destruct (String.eqb_spec name configSectionOutline) as [->|Ho'].
  { cbn in *. split; [|lia]. destruct (lookup_lt_is_Some_2 (rOutline root) (next configSectionOutline)) as [b Hb]; [lia|].
    exists b. by rewrite Hb. }
  destruct (String.eqb_spec name configSectionXray) as [->|Hx'].
  { cbn in *. split; [|lia]. destruct (lookup_lt_is_Some_2 (rXray root) (next configSectionXray)) as [b Hb]; [lia|].
    exists b. by rewrite Hb. }
  destruct (String.eqb_spec name configSectionTrustTunnel) as [->|Ht'].
  { cbn in *. split; [|lia]. destruct (lookup_lt_is_Some_2 (rTrustTunnel root) (next configSectionTrustTunnel)) as [b Hb]; [lia|].
    exists b. by rewrite Hb. }
  split; [by eexists|].
  apply not_eq_sym, String.eqb_neq in Ho'. apply not_eq_sym, String.eqb_neq in Hx'.
  apply not_eq_sym, String.eqb_neq in Ht'.
  rewrite Ho' in Ho. rewrite Hx' in Hx. rewrite Ht' in Ht. by rewrite Ho', Hx', Ht'.
Qed.

(** The decoded blocks of the sections of one name. *)
Definition blocksOf (root : configRoot) (name : string) : list fields :=
  if String.eqb name "Outline" then rOutline root
  else if String.eqb name "Xray" then rXray root
  else if String.eqb name "TrustTunnel" then rTrustTunnel root
  else [].

(** The block of the section at position [i]: the sections of one name take the
    blocks of that name one by one, so it is numbered by the earlier sections
    of the same name. *)
Definition own_block (root : configRoot) (names : list string) (i : nat) (block : fields) : Prop :=
  exists name, names !! i = Some name /\
    blocksOf root name !! count_name name (take i names) = Some block.

(** What the runtime receives of a block, by protocol. *)
Definition payload_of (protocol : Protocol) (block : fields) (payload : Config) : Prop :=
  match protocol with
  | ProtocolOutline =>
      normalizeOutlineURL block = Ok (OutlineURL payload) /\
      Xray payload = [] /\ TrustTunnel payload = []
  | ProtocolXray =>
      lookup_field "outbounds" block <> None /\ payload = mkConfig "" (CloneFields block) []
  | ProtocolTrustTunnel =>
      validateTrustTunnelVerification block = None /\
      payload = mkConfig "" [] (CloneFields block)
  | ProtocolNone => False
  end.

(** A profile made from a block: its position, its protocol, the shared
    exclusions, the block's description, and the block's payload; a block with
    a Cloak setting other than [false] makes none. *)
Record made_from (root : configRoot) (index : nat) (name : string) (block : fields)
    (p : RuntimeProfile) : Prop := mkMadeFrom {
  mf_index : ps_Index (rp_Summary p) = i32 (Z.of_nat index);
  mf_protocol : ps_Protocol (rp_Summary p) = protocolOf name;
  mf_exclude : rp_ExcludeCIDRs p = ExcludeIPs root;
  mf_description :
    lookup_field "Description" block = Some (AString (ps_Description (rp_Summary p))) \/
    (lookup_field "Description" block = None /\ ps_Description (rp_Summary p) = "");
  mf_cloak :
    lookup_field "Cloak" block = None \/ lookup_field "Cloak" block = Some (ABool false);
  mf_payload : payload_of (protocolOf name) block (rp_Config p)
}.

Lemma normalizeProfile_payload protocol block payload :
  normalizeProfile protocol block = Ok payload ->
  (protocol = ProtocolTrustTunnel -> validateTrustTunnelVerification block = None) ->
  payload_of protocol block payload.
Proof.
  destruct protocol; cbn; intros H Hv.
  - discriminate H.
  - destruct (normalizeOutlineURL block); [|discriminate H]. by injection H as <-.
  - destruct (lookup_field "outbounds" block); [|discriminate H]. by injection H as <-.
  - injection H as <-. split; [by apply Hv|done].
Qed.

Lemma profileOf_ok root block name index p :
  profileOf root block (protocolOf name) (i32 (Z.of_nat index)) = Ok p ->
  made_from root index name block p.
Proof.
  unfold profileOf. intros H.
  destruct (match lookup_field "Cloak" block with Some _ => _ | None => _ end) eqn:Hc;
    [discriminate H|].
  destruct (if bool_decide _ then _ else None) eqn:Hv; [discriminate H|].
  destruct (match lookup_field "Description" block with Some _ => _ | None => _ end)
    as [description|] eqn:Hd; [|discriminate H].
  cbn in H. destruct (normalizeProfile (protocolOf name) block) eqn:Hn; [|discriminate H].
  injection H as <-. constructor; try done; cbn.
  - destruct (lookup_field "Description" block) as [v|]; [|by injection Hd as <-; right].
    left. destruct v; try discriminate Hd. by injection Hd as <-.
  - destruct (lookup_field "Cloak" block) as [v|]; [right|by left].
    by destruct v as [| | | | |[|]| | | | |].
  - apply (normalizeProfile_payload _ _ _ Hn). intros He. by rewrite bool_decide_true in Hv.
Qed.

Lemma consume_count name next seen :
  (forall n, next n = count_name n seen) ->
  forall n, consume name next n = count_name n (seen ++ [name]).
Proof.
  intros Hnext n. unfold consume, count_name. rewrite List.filter_app, length_app, Hnext. cbn.
  destruct (String.eqb n name); cbn; unfold count_name; lia.
Qed.

Lemma nextProfile_blocksOf root next name block protocol :
  nextProfile root next name = Some (block, protocol) -> protocolOf name <> ProtocolNone ->
  blocksOf root name !! next name = Some block.
Proof.
  unfold nextProfile, blocksOf, protocolOf.
  change configSectionOutline with "Outline". change configSectionXray with "Xray".
  change configSectionTrustTunnel with "TrustTunnel".
  repeat (case_match; [destruct (_ !! _); [by intros [= -> ->]|done]|]). done.
Qed.

(** Each section makes one profile, from the block that is its own. *)
Lemma parseProfiles_from_spec root seen names next :
  enough root next names -> (forall n, next n = count_name n seen) ->
  exists r, parseProfiles_from root next (length seen) names = Some r /\
    match r with
    | Ok profiles =>
        length profiles = length names /\
        forall i name p, names !! i = Some name -> profiles !! i = Some p ->
          exists block, own_block root (seen ++ names) (length seen + i) block /\
            made_from root (length seen + i) name block p
    | Err _ => True
    end.
Proof.
  revert next seen. induction names as [|name names IH]; intros next seen He Hseen; cbn.
  { exists (Ok []). split; [done|]. split; [done|]. intros i name p Hn. by rewrite lookup_nil in Hn. }
  destruct (nextProfile_enough _ _ _ _ He) as [[block Hb] He']. unfold parseProfile. rewrite Hb. cbn.
  destruct (profileOf root block (protocolOf name) (i32 (Z.of_nat (length seen)))) as [p|err] eqn:Hp;
    [|by eexists (Err err)].
  destruct (IH (consume name next) (seen ++ [name])%list He' (consume_count _ _ _ Hseen)) as (r & Hr' & Hr).
  rewrite length_app, Nat.add_1_r in Hr', Hr. rewrite Hr'.
  destruct r as [profiles|err]; [|by eexists (Err err)].
  exists (Ok (p :: profiles)). split; [done|]. destruct Hr as [Hlen Hall].
  split; [cbn; by rewrite Hlen|]. intros [|i] name' p' Hn Hp'; cbn in Hn, Hp'.
  - injection Hn as <-. injection Hp' as <-. rewrite Nat.add_0_r. exists block.
    pose proof (profileOf_ok _ _ _ _ _ Hp) as Hm. split; [|done].
    exists name. split; [by rewrite lookup_app_r, Nat.sub_diag by lia|].
    rewrite take_app_length, <- Hseen. apply (nextProfile_blocksOf _ _ _ _ _ Hb).
    intros Hnone. pose proof (mf_payload _ _ _ _ _ Hm) as Hpay. by rewrite Hnone in Hpay.
  - rewrite <- app_assoc in Hall. cbn in Hall.
    replace (length seen + S i) with (S (length seen) + i) by lia. by apply Hall.
Qed.

Lemma made_from_profileOf root index name block p :
  made_from root index name block p ->
  profileOf root block (protocolOf name) (i32 (Z.of_nat index)) = Ok p.
Proof.
  destruct p as [[index' protocol' description] payload exclude].
  intros [Hi Hp He Hd Hc Hpay]. cbn in Hi, Hp, He, Hd, Hpay. subst. unfold profileOf.
  assert (Hn : normalizeProfile (protocolOf name) block = Ok payload /\
               (if bool_decide (protocolOf name = ProtocolTrustTunnel)
                then validateTrustTunnelVerification block else None) = None).
  { destruct (protocolOf name); cbn in Hpay |- *.
    - done.
    - destruct Hpay as (-> & Hx & Ht). destruct payload. cbn in *. by subst.
    - destruct Hpay as [Ho ->]. by destruct (lookup_field "outbounds" block).
    - by destruct Hpay as [-> ->]. }
  destruct Hn as [Hn ->]. rewrite Hn.
  destruct Hc as [-> | ->], Hd as [-> | [-> ->]]; done.
Qed.

(** Conversely, sections whose own blocks make profiles are accepted. *)
Lemma parseProfiles_from_complete root seen names next :
  enough root next names -> (forall n, next n = count_name n seen) ->
  (forall i name, names !! i = Some name ->
     exists block p, own_block root (seen ++ names) (length seen + i) block /\
       made_from root (length seen + i) name block p) ->
  exists profiles, parseProfiles_from root next (length seen) names = Some (Ok profiles).
Proof.
  revert next seen. induction names as [|name names IH]; intros next seen He Hseen Hall; cbn.
  { by exists []. }
  destruct (nextProfile_enough _ _ _ _ He) as [[block Hb] He']. unfold parseProfile. rewrite Hb. cbn.
  destruct (Hall 0 name eq_refl) as (block' & p & (name' & Hname & Hown) & Hm).
  rewrite Nat.add_0_r in *.
  rewrite lookup_app_r, Nat.sub_diag in Hname by lia. injection Hname as <-.
  rewrite take_app_length, <- Hseen in Hown.
  assert (Hsame : block' = block).
  { rewrite (nextProfile_blocksOf _ _ _ _ _ Hb) in Hown; [congruence|].
    intros Hnone. pose proof (mf_payload _ _ _ _ _ Hm) as Hpay. by rewrite Hnone in Hpay. }
  subst block'. rewrite (made_from_profileOf _ _ _ _ _ Hm).
  destruct (IH (consume name next) (seen ++ [name])%list He' (consume_count _ _ _ Hseen))
    as [profiles Hr].
  - intros i name' Hi. destruct (Hall (S i) name' Hi) as (block' & p' & Hblock).
    exists block', p'. rewrite <- app_assoc, length_app. cbn [app length].
    by replace (length seen + 1 + i) with (length seen + S i) by lia.
  - rewrite length_app, Nat.add_1_r in Hr. rewrite Hr. by eexists.
Qed.

(** The root array tables of the three protocols, in document order. *)
Inductive array_tables (doc : tomlDoc) : list (list string) -> list string -> Prop :=
| tables_nil : array_tables doc [] []
| tables_keep k keys names :
    td_type doc [k] = "ArrayHash" -> k ∈ ["Outline"; "Xray"; "TrustTunnel"] ->
    array_tables doc keys names -> array_tables doc ([k] :: keys) (k :: names)
| tables_skip key keys names :
    (forall k, key = [k] -> td_type doc [k] = "ArrayHash" ->
       k ∉ ["Outline"; "Xray"; "TrustTunnel"]) ->
    array_tables doc keys names -> array_tables doc (key :: keys) names.

Lemma sections_tables doc : array_tables doc (td_keys doc) (sections doc).
Proof.
  unfold sections. generalize (td_keys doc). intros keys.
  induction keys as [|key keys IH]; [constructor|]. cbn [omap list_omap].
  destruct key as [|k [|k' key]]; [by apply tables_skip| |by apply tables_skip].
  destruct (String.eqb_spec (td_type doc [k]) "ArrayHash") as [Ht|Ht]; cbn [andb];
    [|apply tables_skip; [by intros ? [= <-]|done]].
  destruct (is_section k) eqn:Hs.
  - apply tables_keep; [done| |done]. unfold is_section in Hs. split_bools.
    apply orb_true_iff in Hs as [Hs|Hs]; [apply orb_true_iff in Hs as [Hs|Hs]|];
      apply String.eqb_eq in Hs; subst; set_solver.
  - apply tables_skip; [|done]. intros ? [= <-] _ Hin. revert Hs.
    by repeat (apply elem_of_cons in Hin as [->|Hin]); [| | |apply elem_of_nil in Hin].
Qed.

Lemma decodeConfig_enough raw root protocols :
  decodeConfig raw = Ok (root, protocols) ->
  protocols <> [] /\ enough root (fun _ => 0) protocols.
Proof.
  unfold decodeConfig. intros H. repeat (case_match; try discriminate H).
  injection H as <- <-. split_bools. split.
  - intros He. by rewrite He in *.
  - unfold enough. lia.
Qed.

Lemma decodeConfig_doc raw root protocols :
  decodeConfig raw = Ok (root, protocols) ->
  exists doc, tomlDecode raw = Ok doc /\ root = td_root doc /\ protocols = sections doc.
Proof.
  unfold decodeConfig. intros H. repeat (case_match; try discriminate H).
  injection H as <- <-. by eexists.
Qed.

Lemma array_tables_unique doc keys names names' :
  array_tables doc keys names -> array_tables doc keys names' -> names' = names.
Proof.
  intros Ht. revert names'. induction Ht as [|k keys names Hk Hin Ht IH|key keys names Hskip Ht IH];
    intros names' Ht'; inversion Ht' as [|k' keys' names'' Hk' Hin' Ht''|key' keys' names'' Hskip' Ht''];
    subst.
  - done.
  - by rewrite (IH _ Ht'').
  - by destruct (Hskip' k eq_refl Hk).
  - by destruct (Hskip k' eq_refl Hk').
  - by apply IH.
Qed.

(** The documents the parser accepts: within the size limit, not blank, with
    only the sections and keys it knows, with at least one protocol section and
    one block per section, each of which makes a profile. *)
Record acceptable (raw : string) (doc : tomlDoc) (names : list string) : Prop := mkAcceptable {
  ac_size : (Z.of_nat (String.length raw) <= maxConfigBytes)%Z;
  ac_text : TrimSpace raw <> "";
  ac_logs : td_logs_defined doc = true -> LogsEndpoint (td_root doc) <> "";
  ac_keys : validateRootKeys (td_keys doc) = None;
  ac_tables : array_tables doc (td_keys doc) names;
  ac_some : names <> [];
  ac_counts : forall name, name ∈ ["Outline"; "Xray"; "TrustTunnel"] ->
    length (blocksOf (td_root doc) name) = count_name name names;
  ac_profiles : forall i name, names !! i = Some name ->
    exists block p, own_block (td_root doc) names i block /\
      made_from (td_root doc) i name block p;
  ac_endpoint : validateLogsEndpoint (LogsEndpoint (td_root doc)) = None
}.

Lemma parseDocument_acceptable raw doc names :
  tomlDecode raw = Ok doc -> acceptable raw doc names ->
  exists parsed, parseDocument raw = Some (Ok parsed).
Proof.
  intros Hdoc [Hsize Htext Hlogs Hkeys Htab Hne Hcounts Hprofiles Hend].
  pose proof (array_tables_unique _ _ _ _ Htab (sections_tables doc)) as Hs.
  assert (Hd : decodeConfig raw = Ok (td_root doc, names)).
  { unfold decodeConfig. destruct (Z.ltb_spec maxConfigBytes (Z.of_nat (String.length raw))); [lia|].
    rewrite (proj2 (String.eqb_neq _ _) Htext), Hdoc, Hkeys, Hs.
    assert (td_logs_defined doc && String.eqb (LogsEndpoint (td_root doc)) "" = false) as ->.
    { destruct (td_logs_defined doc); [|done]. by apply String.eqb_neq, Hlogs. }
    rewrite bool_decide_false by (by destruct names).
    pose proof (Hcounts "Outline" ltac:(set_solver)) as Ho.
    pose proof (Hcounts "Xray" ltac:(set_solver)) as Hx.
    pose proof (Hcounts "TrustTunnel" ltac:(set_solver)) as Ht. cbn in Ho, Hx, Ht.
    by rewrite !bool_decide_true by (symmetry; assumption). }
  unfold parseDocument. rewrite Hd.
  destruct (decodeConfig_enough _ _ _ Hd) as [_ He].
  destruct (parseProfiles_from_complete (td_root doc) [] names (fun _ => 0) He (fun _ => eq_refl)
              Hprofiles) as [profiles Hr].
  unfold parseProfiles. cbn [length] in Hr. rewrite Hr, Hend. by eexists.
Qed.

Lemma decodeConfig_checks raw root names doc :
  decodeConfig raw = Ok (root, names) -> tomlDecode raw = Ok doc ->
  (Z.of_nat (String.length raw) <= maxConfigBytes)%Z /\ TrimSpace raw <> "" /\
  (td_logs_defined doc = true -> LogsEndpoint (td_root doc) <> "") /\
  validateRootKeys (td_keys doc) = None /\
  count_name "Outline" (sections doc) = length (rOutline (td_root doc)) /\
  count_name "Xray" (sections doc) = length (rXray (td_root doc)) /\
  count_name "TrustTunnel" (sections doc) = length (rTrustTunnel (td_root doc)).
Proof.
  unfold decodeConfig. intros H Hdoc. rewrite Hdoc in H.
  destruct (Z.ltb_spec maxConfigBytes (Z.of_nat (String.length raw))); [discriminate H|].
  destruct (String.eqb_spec (TrimSpace raw) "") as [|Htext]; [discriminate H|].
  destruct (td_logs_defined doc && _) eqn:Hlogs; [discriminate H|].
  destruct (validateRootKeys (td_keys doc)) eqn:Hk; [discriminate H|].
  destruct (bool_decide (length (sections doc) = 0)); [discriminate H|].
  destruct (negb _ || _ || _) eqn:Hc; [discriminate H|]. split_bools.
  split_and!; try done. intros Hl. rewrite Hl in Hlogs. by apply String.eqb_neq in Hlogs.
Qed.

(** Every profile of an accepted document was made from its section's block. *)
Lemma parseDocument_spec raw :
  match parseDocument raw with
  | None => False
  | Some (Err _) => True
  | Some (Ok parsed) =>
      exists doc names, tomlDecode raw = Ok doc /\ acceptable raw doc names /\
        length (pc_profiles parsed) = length names /\
        (forall i name p,
           names !! i = Some name -> pc_profiles parsed !! i = Some p ->
           exists block, own_block (td_root doc) names i block /\
             made_from (td_root doc) i name block p) /\
        pc_digest parsed = sha256Hex raw /\
        pc_logsEndpoint parsed = LogsEndpoint (td_root doc)
  end.
Proof.
  unfold parseDocument. destruct (decodeConfig raw) as [[root protocols]|err] eqn:Hd; [|done].
  pose proof (decodeConfig_enough _ _ _ Hd) as [Hne He].
  destruct (decodeConfig_doc _ _ _ Hd) as (doc & Hdoc & -> & ->).
  destruct (decodeConfig_checks _ _ _ _ Hd Hdoc) as (Hsize & Htext & Hlogs & Hkeys & Ho & Hx & Ht).
  destruct (parseProfiles_from_spec (td_root doc) [] (sections doc) (fun _ => 0) He
              (fun _ => eq_refl)) as (r & Hr & Hok).
  unfold parseProfiles. cbn [length] in Hr. rewrite Hr. destruct r as [profiles|err]; [|done].
  destruct (validateLogsEndpoint (LogsEndpoint (td_root doc))) as [err|] eqn:Hl; [done|].
  destruct Hok as [Hlen Hall]. exists doc, (sections doc).
  split_and!; try done. constructor; try done.
  - apply sections_tables.
  - intros name Hin. symmetry.
    by repeat (apply elem_of_cons in Hin as [-> |Hin]); [| | |apply elem_of_nil in Hin].
  - intros i name Hn. destruct (lookup_lt_is_Some_2 profiles i) as [p Hi].
    { rewrite Hlen. by eapply lookup_lt_Some. }
    destruct (Hall i name p Hn Hi) as (block & Hblock). by exists block, p.
Qed.

Lemma parseDocument_profiles raw parsed :
  parseDocument raw = Some (Ok parsed) -> pc_profiles parsed <> [].
Proof.
  intros Hp. pose proof (parseDocument_spec raw) as Hspec. rewrite Hp in Hspec.
  destruct Hspec as (doc & names & _ & Hacc & Hlen & _). pose proof (ac_some _ _ _ Hacc).
  destruct (pc_profiles parsed), names; done.
Qed.

Lemma parseDocument_made_from raw parsed p :
  parseDocument raw = Some (Ok parsed) -> p ∈ pc_profiles parsed ->
  exists root i name block, made_from root i name block p.
Proof.
  intros Hp Hin. pose proof (parseDocument_spec raw) as Hspec. rewrite Hp in Hspec.
  destruct Hspec as (doc & names & _ & _ & Hlen & Hall & _).
  apply list_elem_of_lookup in Hin as [i Hi].
  destruct (lookup_lt_is_Some_2 names i) as [name Hn].
  { rewrite <- Hlen. by eapply lookup_lt_Some. }
  destruct (Hall i name p Hn Hi) as (block & _ & Hm). by exists (td_root doc), i, name, block.
Qed.

Lemma contains_byte c s :
  contains (String c EmptyString) s = (0 <? count_byte c s)%nat.
Proof.
  unfold contains. induction s as [|a s IH]; [done|]. cbn.
  rewrite andb_comm. cbn. destruct (Ascii.eqb_spec c a) as [->|Hne].
  - by rewrite Ascii.eqb_refl.
  - rewrite (proj2 (Ascii.eqb_neq a c)) by congruence. cbn.
    destruct (index_of _ s), (count_byte c s); done.
Qed.

Lemma disguise_spec serverPort prefix :
  if String.eqb prefix "" then disguise serverPort prefix = ""
  else exists separator escaped,
    disguise serverPort prefix = separator +:+ "prefix=" +:+ escaped /\
    (count_byte "?"%char serverPort = 0 /\ separator = "?" \/
     0 < count_byte "?"%char serverPort /\ separator = "&") /\
    QueryUnescape escaped = Some prefix /\ count_byte "&"%char escaped = 0.
Proof.
  unfold disguise. destruct (String.eqb prefix ""); [done|].
  eexists _, (QueryEscape prefix). split; [done|].
  split; [|split; [apply QueryUnescape_QueryEscape|apply QueryEscape_no_amp]].
  rewrite contains_byte. destruct (Nat.ltb_spec 0 (count_byte "?"%char serverPort)); [by right|].
  left. split; [lia|done].
Qed.
End config.
