(* ===== verification/Loader.v ===== *)
(** * Acquiring a configuration (core/sessionapi/config_loader.go)

    [DefaultConfigLoader.Load]: inline bytes, or a document fetched over HTTPS.
    [Do] is the redirect loop of [http.Client.Do] around the program's
    [CheckRedirect]; the server and the caller's own redirect policy are
    arguments, and the trace of the requests sent is part of the result. *)

From S2P Require Import Prelude Errors Values Session Manager Worker GoStrings Config.
From Stdlib Require Import Ascii.
Local Open Scope string_scope.
Local Open Scope list_scope.

(** What the loader reads of a request's URL. *)
Record target := mkTarget { tg_Scheme : string; tg_Text : string }.

(** A response: its status, its body with the error that ends it, and what
    closing it reports. *)
Record response := mkResponse {
  rs_StatusCode : Z;
  rs_Body : string;
  rs_ReadErr : option gerr;
  rs_CloseErr : option gerr
}.

Inductive serverReply :=
| Respond (r : response)
| Redirect (r : response) (to : target)
| Unreachable (err : gerr).

(** The caller's policy may rewrite the request's URL, or set it to nil. *)
Inductive policyReply :=
| Follow (url : option target)
| UseLastResponse
| Refuse (err : gerr).

Definition policy := list target -> target -> policyReply.

Definition is_https (t : target) : bool := EqualFold (tg_Scheme t) "https".

Definition CheckRedirect (caller : option policy) (via : list target) (req : target) :
    policyReply :=
  if negb (is_https req) then Refuse (EText "configuration redirect must use HTTPS")
  else if bool_decide (10 <= length via)
  then Refuse (EText "configuration URL stopped after 10 redirects")
  else match caller with
       | None => Follow (Some req)
       | Some check =>
           match check via req with
           | Follow None => Refuse (EText "configuration redirect must use HTTPS")
           | Follow (Some url) =>
               if is_https url then Follow (Some url)
               else Refuse (EText "configuration redirect must use HTTPS")
           | other => other
           end
       end.

(** The requests sent and the outcome; [None] when the fuel runs out. *)
Fixpoint Do (fuel : nat) (caller : option policy) (server : list target -> serverReply)
    (via : list target) (req : target) : option (list target * result response gerr) :=
  match fuel with
  | O => None
  | S fuel =>
      let sent := via ++ [req] in
      match server sent with
      | Unreachable err => Some (sent, Err err)
      | Respond r => Some (sent, Ok r)
      | Redirect r to =>
          match CheckRedirect caller sent to with
          | Refuse err => Some (sent, Err (EWrap "Get" err))
          | UseLastResponse => Some (sent, Ok r)
          | Follow None => Some (sent, Err (EText "http: nil Request.URL"))
          | Follow (Some url) => Do fuel caller server sent url
          end
      end
  end.

(** [io.ReadAll(io.LimitReader(body, limit))] *)
Definition readLimited (limit : Z) (r : response) : string * option gerr :=
  if (limit <=? Z.of_nat (String.length (rs_Body r)))%Z
  then (take_bytes (Z.to_nat limit) (rs_Body r), None) else (rs_Body r, rs_ReadErr r).

Definition tooLong (body : string) : bool := (maxConfigBytes <? Z.of_nat (String.length body))%Z.

Definition versionOrDev (version : string) : string :=
  if String.eqb (TrimSpace version) "" then "dev" else version.

Definition userAgent (buildVersion version : string) : string :=
  "DobbyVPN/" +:+
  versionOrDev (if String.eqb (TrimSpace version) "" then buildVersion else version).

Definition rejected (message : string) (cause : option gerr) : result LoadedConfig gerr :=
  Err (failureWithCause FailureInvalidArgument message cause).

(** A response that is not a success is drained up to the limit and closed. *)
Definition nonSuccess (r : response) : result LoadedConfig gerr :=
  let '(drained, readErr) := readLimited (maxConfigBytes + 1) r in
  let drainErr :=
    if tooLong drained then
      join [readErr;
            Some (EText ("configuration error response exceeded the " +:+ Itoa maxConfigBytes +:+
                         "-byte drain limit"))]
    else readErr in
  rejected "configuration URL returned a non-success response"
    (join [Some (EText ("configuration URL returned HTTP " +:+ Itoa (rs_StatusCode r)));
           drainErr; rs_CloseErr r]).

Definition readResponse (source : string) (r : response) : result LoadedConfig gerr :=
  if (rs_StatusCode r <? 200)%Z || (300 <=? rs_StatusCode r)%Z then nonSuccess r
  else
    let '(body, readErr) := readLimited (maxConfigBytes + 1) r in
    let closeErr := rs_CloseErr r in
    if tooLong body then
      rejected "configuration URL response exceeds the 1 MiB size limit"
        (join [Some (EText "configuration response exceeded the size limit"); readErr; closeErr])
    else match readErr, closeErr with
    | Some _, _ =>
        rejected "configuration URL response could not be read" (join [readErr; closeErr])
    | None, Some _ => rejected "configuration URL response could not be closed" closeErr
    | None, None => Ok (mkLoadedConfig body ConfigSourceURL source)
    end.

(** The redirects [CheckRedirect] allows, with one request more. *)
Definition redirectFuel : nat := 11.

Section loader.
Context (urlParse : string -> option urlParts).
Context (newRequestErr : string -> option gerr).
Context (caller : option policy) (server : list target -> serverReply).

(** The requests sent, and what the loader returned. *)
Definition loadURL (source scheme : string) : option (list target * result LoadedConfig gerr) :=
  match newRequestErr source with
  | Some err => Some ([], rejected "configuration URL is invalid" (Some err))
  | None =>
      match Do redirectFuel caller server [] (mkTarget scheme source) with
      | None => None
      | Some (sent, Err err) =>
          Some (sent, rejected "configuration URL could not be fetched" (Some err))
      | Some (sent, Ok r) => Some (sent, readResponse source r)
      end
  end.

(** [sourceSchemeRE]: a letter, scheme characters, [://]. *)
Definition scheme_char (c : ascii) : bool :=
  let n := nat_of_ascii c in
  is_alnum n || (n =? 43)%nat || (n =? 45)%nat || (n =? 46)%nat.

Fixpoint scheme_rest (s : string) : bool :=
  has_prefix "://" s ||
  match s with
  | EmptyString => false
  | String c s => scheme_char c && scheme_rest s
  end.

Definition sourceSchemeRE (s : string) : bool :=
  match s with
  | EmptyString => false
  | String c s =>
      let n := nat_of_ascii (lower c) in
      (97 <=? n)%nat && (n <=? 122)%nat && scheme_rest s
  end.

Definition Load (source : string) : option (list target * result LoadedConfig gerr) :=
  if String.eqb source "" then
    Some ([], Err (failure FailureInvalidArgument "configuration source is empty"))
  else if tooLong source then
    Some ([], Err (failure FailureInvalidArgument "configuration exceeds the 1 MiB size limit"))
  else
    let trimmed := TrimSpace source in
    if sourceSchemeRE trimmed then
      let refused :=
        Some ([], Err (failure FailureInvalidArgument "configuration URL must use HTTPS")) in
      match urlParse trimmed with
      | Some parsed =>
          if EqualFold (up_Scheme parsed) "https" && negb (String.eqb (up_Host parsed) "")
          then loadURL trimmed (up_Scheme parsed) else refused
      | None => refused
      end
    else Some ([], Ok (mkLoadedConfig source ConfigSourceInline "")).

(** ** The redirect loop *)

Lemma CheckRedirect_follow via req url :
  CheckRedirect caller via req = Follow (Some url) -> is_https url = true /\ length via < 10.
Proof.
  unfold CheckRedirect. destruct (is_https req) eqn:Hr; [|done].
  case_bool_decide; [done|]. cbn [negb].
  destruct caller as [check|].
  - destruct (check via req) as [[t|]| |]; try done. destruct (is_https t) eqn:Ht; [|done].
    intros [= ->]. split; [done|lia].
  - intros [= ->]. split; [done|lia].
Qed.

(** Every request is HTTPS, there are at most ten, and the loop ends. *)
Lemma Do_https fuel via req :
  Forall (fun t => is_https t = true) via -> is_https req = true ->
  length via + fuel = redirectFuel -> length via < 10 ->
  exists sent r, Do fuel caller server via req = Some (sent, r) /\
    Forall (fun t => is_https t = true) sent /\ length sent <= 10 /\
    sent !! 0 = (via ++ [req]) !! 0.
Proof.
  revert via req. induction fuel as [|fuel IH]; intros via req Hv Hr Hf Hl.
  { unfold redirectFuel in Hf. lia. }
  assert (Forall (fun t => is_https t = true) (via ++ [req])) as Hs.
  { apply Forall_app_2; [done|]. by constructor. }
  assert (length (via ++ [req]) <= 10) as Hs' by (rewrite length_app; cbn; lia).
  cbn [Do]. destruct (server (via ++ [req])) as [r|r to|err]; [by eexists _, _| |by eexists _, _].
  destruct (CheckRedirect caller (via ++ [req]) to) as [[url|]| |] eqn:Hc; try by eexists _, _.
  apply CheckRedirect_follow in Hc as [Hu Hlen].
  destruct (IH (via ++ [req]) url) as (sent & r' & Hdo & Hall & Hmax & Hfirst); [done|done| |done|].
  { rewrite length_app in *. cbn in *. lia. }
  exists sent, r'. split_and!; [done|done|done|]. rewrite Hfirst. by destruct via.
Qed.

Lemma readResponse_ok source r loaded :
  readResponse source r = Ok loaded ->
  loaded = mkLoadedConfig (rs_Body r) ConfigSourceURL source /\ tooLong (rs_Body r) = false /\
  (200 <= rs_StatusCode r < 300)%Z /\ rs_CloseErr r = None.
Proof.
  unfold readResponse, readLimited. destruct (_ || _) eqn:Hst; [unfold nonSuccess; by case_match|].
  split_bools. destruct (maxConfigBytes + 1 <=? _)%Z eqn:Hlim.
  - destruct (tooLong (take_bytes _ _)) eqn:Ht; [done|]. exfalso. split_bools.
    unfold tooLong in Ht. split_bools. rewrite take_bytes_length in Ht by lia. lia.
  - destruct (tooLong _); [done|]. destruct (rs_ReadErr r); [done|].
    destruct (rs_CloseErr r); [done|]. intros [= <-]. split_and!; done || lia.
Qed.

Lemma readResponse_err source r err :
  readResponse source r = Err err -> as_domain err = Some FailureInvalidArgument.
Proof.
  unfold readResponse, nonSuccess, rejected. intros H.
  repeat (case_match; try discriminate H); injection H as <-; done.
Qed.
End loader.
