(* ===== verification/Ownership.v ===== *)
(** * Lease accounting

    The ledger heap, the two ledger pointers of the session and the leases the
    environment still considers granted: [owned] says the two ledgers hold
    exactly the live leases, each once, and that the pointers are allocated
    and distinct.  One lemma per heap transformation of the manager. *)

From S2P Require Import Prelude Manager.

Definition ledger_of (ledgers : gmap nat (list lease)) (a : option nat) : list lease :=
  match a with
  | Some a => default [] (ledgers !! a)
  | None => []
  end.

Definition allocated (ledgers : gmap nat (list lease)) (next : nat) (a : option nat) : Prop :=
  match a with
  | Some a => is_Some (ledgers !! a) /\ a < next
  | None => True
  end.

(** Which leases a ledger may hold. *)
Definition attempt_kind (l : lease) : Prop := l_kind l = AttemptLease.
Definition network_kind (l : lease) : Prop :=
  l_kind l = PlatformLease \/ l_kind l = NetworkLease.

Record owned (ledgers : gmap nat (list lease)) (attempt network : option nat)
    (live : list lease) (next : nat) : Prop := mkOwned {
  own_live : live ≡ₚ ledger_of ledgers attempt ++ ledger_of ledgers network;
  own_nodup : NoDup live;
  own_ids : Forall (fun l => l_id l < next) live;
  own_attempt : allocated ledgers next attempt;
  own_network : allocated ledgers next network;
  own_distinct : attempt <> None -> attempt <> network;
  own_attempt_kind : Forall attempt_kind (ledger_of ledgers attempt);
  own_network_kind : Forall network_kind (ledger_of ledgers network)
}.

(** The effect of one successful closer on the live leases. *)
Definition drop_lease (l : lease) (live : list lease) : list lease :=
  List.filter (fun x => negb (bool_decide (x = l))) live.

(** ** Lemmas *)

Lemma drop_lease_perm l live rest :
  NoDup live -> live ≡ₚ l :: rest -> drop_lease l live ≡ₚ rest.
Proof.
  intros Hnd Hp. unfold drop_lease.
  assert (Hf : forall xs, l ∉ xs -> List.filter (fun x => negb (bool_decide (x = l))) xs = xs).
  { induction xs as [|x xs IH]; intros Hni; simpl; [done|].
    apply not_elem_of_cons in Hni as [Hx Hxs].
    rewrite bool_decide_eq_false_2 by congruence. simpl. by rewrite IH. }
  assert (Hmono : forall xs ys, xs ≡ₚ ys ->
    List.filter (fun x => negb (bool_decide (x = l))) xs ≡ₚ
    List.filter (fun x => negb (bool_decide (x = l))) ys).
  { induction 1 as [|x xs ys _ IH|x y xs|xs ys zs _ IH1 _ IH2]; simpl.
    - done.
    - destruct (negb _); by rewrite IH.
    - destruct (negb (bool_decide (y = l))), (negb (bool_decide (x = l))); try done.
      apply perm_swap.
    - by rewrite IH1. }
  rewrite (Hmono _ _ Hp). simpl. rewrite bool_decide_eq_true_2 by done. simpl.
  rewrite Hp in Hnd. apply NoDup_cons in Hnd as [Hni _]. by rewrite Hf.
Qed.

Lemma allocated_mono L n n' a : allocated L n a -> n <= n' -> allocated L n' a.
Proof. destruct a; simpl; [|done]. intros [? ?] ?. split; [done|lia]. Qed.

Lemma allocated_insert L n n' a b xs :
  allocated L n a -> n <= n' -> allocated (<[b := xs]> L) n' a.
Proof.
  destruct a as [a|]; simpl; [|done]. intros [Ha ?] ?. split; [|lia].
  destruct (decide (a = b)) as [->|]; [by rewrite lookup_insert_eq|by rewrite lookup_insert_ne].
Qed.

Lemma ledger_of_insert_fresh L n a xs :
  allocated L n a -> ledger_of (<[n := xs]> L) a = ledger_of L a.
Proof.
  destruct a as [a|]; simpl; [|done]. intros [_ ?]. by rewrite lookup_insert_ne by lia.
Qed.

Lemma ledger_of_insert_eq L x xs : ledger_of (<[x := xs]> L) (Some x) = xs.
Proof. simpl. by rewrite lookup_insert_eq. Qed.

Lemma ledger_of_insert_ne L x xs a :
  a <> Some x -> ledger_of (<[x := xs]> L) a = ledger_of L a.
Proof.
  destruct a as [a|]; simpl; [|done]. intros ?. rewrite lookup_insert_ne; [done|congruence].
Qed.

Lemma owned_empty n : owned ∅ None None [] n.
Proof. constructor; simpl; try done; constructor. Qed.

Lemma owned_next L a w live n n' :
  owned L a w live n -> n <= n' -> owned L a w live n'.
Proof.
  intros [] ?. constructor; try done; eauto using allocated_mono.
  eapply Forall_impl; [done|]. simpl. lia.
Qed.

Lemma owned_alloc_attempt L a w live n :
  owned L a w live n -> ledger_of L a = [] ->
  owned (<[n := []]> L) (Some n) w live (S n).
Proof.
  intros [Hl Hnd Hid Ha Hw Hd Hka Hkw] Hnil. rewrite Hnil in Hl.
  assert (Hlw : ledger_of (<[n := []]> L) w = ledger_of L w).
  { by apply ledger_of_insert_fresh. }
  constructor; rewrite ?Hlw, ?ledger_of_insert_eq; try done.
  - eapply Forall_impl; [done|]. simpl. lia.
  - simpl. rewrite lookup_insert_eq. eauto with lia.
  - eapply allocated_insert; [done|lia].
  - intros _ <-. destruct Hw. lia.
Qed.

Lemma owned_alloc_network L live n :
  owned L None None live n -> owned (<[n := []]> L) None (Some n) live (S n).
Proof.
  intros [Hl Hnd Hid _ _ _ _ _].
  constructor; rewrite ?ledger_of_insert_eq; try done.
  - eapply Forall_impl; [done|]. simpl. lia.
  - simpl. rewrite lookup_insert_eq. eauto with lia.
Qed.

Lemma owned_drop_attempt L a w live n :
  owned L a w live n -> ledger_of L a = [] -> owned L None w live n.
Proof.
  intros [Hl ? ? ? ? ? ? ?] Hnil. rewrite Hnil in Hl. constructor; simpl; try done.
Qed.

Lemma owned_drop_network L a w live n :
  owned L a w live n -> ledger_of L w = [] -> owned L a None live n.
Proof.
  intros [Hl ? ? ? ? ? ? ?] Hnil. rewrite Hnil in Hl. constructor; simpl; try done.
Qed.

Lemma ledger_of_alter_eq L x f :
  is_Some (L !! x) -> ledger_of (alter f x L) (Some x) = f (ledger_of L (Some x)).
Proof. intros [l Hl]. simpl. rewrite lookup_alter_eq, Hl. done. Qed.

Lemma ledger_of_alter_ne L x f a :
  a <> Some x -> ledger_of (alter f x L) a = ledger_of L a.
Proof.
  destruct a as [a|]; simpl; [|done]. intros ?. rewrite lookup_alter_ne; [done|congruence].
Qed.

Lemma allocated_alter L n n' x f a :
  allocated L n a -> n <= n' -> allocated (alter f x L) n' a.
Proof.
  destruct a as [a|]; simpl; [|done]. intros [[l Hl] ?] ?. split; [|lia].
  destruct (decide (a = x)) as [->|].
  - rewrite lookup_alter_eq, Hl. by eexists.
  - rewrite lookup_alter_ne by done. by eexists.
Qed.

Lemma owned_fresh_id L a w live n k :
  owned L a w live n -> mkLease k n ∉ live.
Proof.
  intros Ho Hin. pose proof (own_ids _ _ _ _ _ Ho) as Hid.
  rewrite Forall_forall in Hid. specialize (Hid _ Hin). simpl in Hid. lia.
Qed.

Lemma owned_push_attempt L x w live n :
  owned L (Some x) w live n ->
  let l := mkLease AttemptLease n in
  owned (alter (cons l) x L) (Some x) w (l :: live) (S n).
Proof.
  intros Ho l. pose proof (owned_fresh_id _ _ _ _ _ AttemptLease Ho) as Hfresh.
  destruct Ho as [Hl Hnd Hid Ha Hw Hd Hka Hkw]. pose proof Ha as [Hx Hxn].
  assert (Hwx : w <> Some x). { intros ->. by apply Hd. }
  constructor; rewrite ?(ledger_of_alter_eq _ _ _ Hx), ?(ledger_of_alter_ne _ _ _ _ Hwx);
    try done.
  - rewrite Hl. done.
  - by constructor.
  - constructor; [simpl; lia|]. eapply Forall_impl; [done|]. simpl. lia.
  - eapply allocated_alter; [done|lia].
  - eapply allocated_alter; [done|lia].
  - by constructor.
Qed.

Lemma owned_push_network L a x live n k :
  owned L a (Some x) live n -> k = PlatformLease \/ k = NetworkLease ->
  let l := mkLease k n in
  owned (alter (cons l) x L) a (Some x) (l :: live) (S n).
Proof.
  intros Ho Hk l. pose proof (owned_fresh_id _ _ _ _ _ k Ho) as Hfresh.
  destruct Ho as [Hl Hnd Hid Ha Hw Hd Hka Hkw]. pose proof Hw as [Hx Hxn].
  assert (Hax : a <> Some x). { intros ->. by apply Hd. }
  constructor; rewrite ?(ledger_of_alter_eq _ _ _ Hx), ?(ledger_of_alter_ne _ _ _ _ Hax);
    try done.
  - rewrite Hl. apply Permutation_middle.
  - by constructor.
  - constructor; [simpl; lia|]. eapply Forall_impl; [done|]. simpl. lia.
  - eapply allocated_alter; [done|lia].
  - eapply allocated_alter; [done|lia].
  - by constructor.
Qed.

Lemma drop_lease_nodup l live : NoDup live -> NoDup (drop_lease l live).
Proof.
  intros Hnd. unfold drop_lease. apply NoDup_ListNoDup. apply List.NoDup_filter.
  by apply NoDup_ListNoDup.
Qed.

Lemma drop_lease_ids l live n :
  Forall (fun x => l_id x < n) live -> Forall (fun x => l_id x < n) (drop_lease l live).
Proof.
  intros H. apply List.Forall_forall. intros x Hx. apply filter_In in Hx as [Hx _].
  by eapply List.Forall_forall in H.
Qed.

Lemma owned_pop_attempt L x w live n l rest :
  owned L (Some x) w live n -> L !! x = Some (l :: rest) ->
  owned (<[x := rest]> L) (Some x) w (drop_lease l live) n.
Proof.
  intros [Hl Hnd Hid Ha Hw Hd Hka Hkw] Hlx.
  assert (Hwx : w <> Some x). { intros ->. by apply Hd. }
  simpl in Hl, Hka. rewrite Hlx in Hl, Hka. simpl in Hl, Hka.
  constructor; rewrite ?ledger_of_insert_eq, ?(ledger_of_insert_ne _ _ _ _ Hwx); try done.
  - by apply drop_lease_perm.
  - by apply drop_lease_nodup.
  - by apply drop_lease_ids.
  - eapply allocated_insert; [done|lia].
  - eapply allocated_insert; [done|lia].
  - by inversion Hka.
Qed.

Lemma owned_pop_network L a x live n l rest :
  owned L a (Some x) live n -> L !! x = Some (l :: rest) ->
  owned (<[x := rest]> L) a (Some x) (drop_lease l live) n.
Proof.
  intros [Hl Hnd Hid Ha Hw Hd Hka Hkw] Hlx.
  assert (Hax : a <> Some x). { intros ->. by apply Hd. }
  simpl in Hl, Hkw. rewrite Hlx in Hl, Hkw. simpl in Hl, Hkw.
  constructor; rewrite ?ledger_of_insert_eq, ?(ledger_of_insert_ne _ _ _ _ Hax); try done.
  - apply drop_lease_perm; [done|]. rewrite Hl. symmetry. apply Permutation_middle.
  - by apply drop_lease_nodup.
  - by apply drop_lease_ids.
  - eapply allocated_insert; [done|lia].
  - eapply allocated_insert; [done|lia].
  - by inversion Hkw.
Qed.

#[export] Hint Resolve owned_alloc_attempt owned_alloc_network owned_drop_attempt
  owned_drop_network owned_push_attempt owned_push_network owned_pop_attempt
  owned_pop_network : dobby.
