(* ===== verification/Invariant.v ===== *)
(** * The manager invariant

    A session is in one of four shapes: at rest with nothing owned, dormant
    behind a retained network after a failed attempt, blocked by a failed
    cleanup, or driven by exactly one worker goroutine.  [Inv] adds the lease
    accounting and holds of every reachable manager. *)

From S2P Require Import Prelude Errors Values Session Activation Manager Worker Ownership.

Definition target_ok (t : StartTarget) (profiles : list RuntimeProfile) : Prop :=
  t_Mode t = AutoSelect \/
  t_Mode t = ProfileIndex /\ (0 <= t_Index t < Z.of_nat (length profiles))%Z.

Definition same_target (t active : StartTarget) : Prop :=
  t_Mode t = t_Mode active /\ (t_Mode t = ProfileIndex -> t_Index t = t_Index active).

Definition targets (s : session) : Prop :=
  s_activeProfiles s <> [] /\ target_ok (s_activeTarget s) (s_activeProfiles s).

(** Inside [runStart], before [finish] is called. *)
Definition in_run (p : pc) : bool :=
  match p with
  | PFinish _ | PRetire _ _ | PReleaseWork _ _ | PNetworkDecide _ _
  | PReleaseNetworkBegin _ _ | PReleaseNetwork _ _ | PCommit _ _ _ => false
  | _ => true
  end.

(** Inside [runStart], after [prepareNetwork] succeeded. *)
Definition network_up (p : pc) : bool :=
  match p with
  | PPrepare | PTunnel _ _ _ | PNetwork _ _ _ | PNetworkUp => false
  | p => in_run p
  end.

Definition releasing_network (s : session) : Prop :=
  s_pending s = None /\ (s_stopRequested s = true \/ s_vpnActive s = false).

(** What the program counter of the worker says about the session. *)
Definition pc_ok (ledgers : gmap nat (list lease)) (s : session) (p : pc) : Prop :=
  match p with
  | PTunnel _ _ work | PNetwork _ _ work => work = s_networkLedger s
  | PCandidateRelease _ _ _ _ work => s_ledger s = Some work
  | PRetire _ work => work = s_ledger s
  | PReleaseWork cause work => s_ledger s = Some work /\ CodeOf cause <> FailureCleanup
  | PNetworkDecide cause None =>
      CodeOf cause <> FailureCleanup -> ledger_of ledgers (s_ledger s) = []
  | PReleaseNetworkBegin cause network | PReleaseNetwork cause network =>
      s_networkLedger s = Some network /\ CodeOf cause <> FailureCleanup /\
      ledger_of ledgers (s_ledger s) = [] /\ releasing_network s
  | PCommit cause releaseNetwork cleanupErr =>
      (cleanupErr = None -> CodeOf cause <> FailureCleanup ->
       ledger_of ledgers (s_ledger s) = [] /\
       (releaseNetwork = true -> ledger_of ledgers (s_networkLedger s) = [])) /\
      (if releaseNetwork then releasing_network s else s_vpnActive s = true)
  | _ => True
  end.

Record pending_ok (s : session) (p : pendingStart) : Prop := mkPendingOk {
  pd_vpn : s_vpnActive s = true;
  pd_stop : s_stopRequested s = false;
  pd_state : s_state s = StateStopping;
  pd_profiles : p_profiles p <> [];
  pd_target : target_ok (p_target p) (p_profiles p)
}.

(** The attempt context and ledger of a worker inside [runStart]. *)
Record run_ok (canceled : gmap nat bool) (s : session) (k : worker) (c : nat) : Prop := mkRunOk {
  ro_ctx : wk_ctx k = Some c;
  ro_cancel : s_cancel s = Some c;
  ro_canceled : canceled !! c = Some true -> s_state s = StateStopping;
  ro_ledger : is_Some (s_ledger s);
  ro_target : same_target (wk_target k) (s_activeTarget s);
  ro_vpn : network_up (wk_pc k) = true -> s_vpnActive s = true
}.

Record resting (s : session) : Prop := mkResting {
  rs_state : attemptActive (s_state s) = false;
  rs_done : s_cleanupDone s = true;
  rs_failed : s_cleanupFailed s = false;
  rs_ledger : s_ledger s = None;
  rs_network : s_networkLedger s = None;
  rs_vpn : s_vpnActive s = false;
  rs_cancel : s_cancel s = None;
  rs_pending : s_pending s = None
}.

Record dormant (s : session) : Prop := mkDormant {
  dm_state : s_state s = StateFailed;
  dm_done : s_cleanupDone s = false;
  dm_failed : s_cleanupFailed s = false;
  dm_ledger : s_ledger s = None;
  dm_network : is_Some (s_networkLedger s);
  dm_vpn : s_vpnActive s = true;
  dm_cancel : s_cancel s = None;
  dm_pending : s_pending s = None;
  dm_targets : targets s
}.

Record blocked (s : session) : Prop := mkBlocked {
  bl_state : s_state s = StateFailed;
  bl_done : s_cleanupDone s = false;
  bl_failed : s_cleanupFailed s = true;
  bl_network : is_Some (s_networkLedger s);
  bl_cancel : s_cancel s = None;
  bl_pending : s_pending s = None;
  bl_targets : targets s
}.

Record running (ledgers : gmap nat (list lease)) (canceled : gmap nat bool)
    (s : session) (k : worker) : Prop := mkRunning {
  rn_active : attemptActive (s_state s) = true;
  rn_done : s_cleanupDone s = false;
  rn_failed : s_cleanupFailed s = false;
  rn_generation : wk_generation k = s_generation s;
  rn_network : is_Some (s_networkLedger s);
  rn_budget : is_Some (s_cleanupBudget s);
  rn_targets : targets s;
  rn_stop : s_stopRequested s = true -> s_state s = StateStopping;
  rn_connected : s_state s = StateConnected -> s_vpnActive s = true;
  rn_cancel : s_state s = StateStopping \/ is_Some (s_cancel s);
  rn_canceled : s_state s = StateStopping ->
    forall c, s_cancel s = Some c -> canceled !! c = Some true;
  rn_pending : forall p, s_pending s = Some p -> pending_ok s p;
  rn_run : in_run (wk_pc k) = true -> exists c, run_ok canceled s k c;
  rn_pc : pc_ok ledgers s (wk_pc k)
}.

Inductive shape (m : manager) : Prop :=
| Resting : m_workers m = ∅ -> resting (m_session m) -> shape m
| Dormant : m_workers m = ∅ -> dormant (m_session m) -> shape m
| Blocked : m_workers m = ∅ -> blocked (m_session m) -> shape m
| Running wid k :
    m_workers m = {[wid := k]} ->
    running (m_ledgers m) (m_canceled m) (m_session m) k -> shape m.

Record Inv (m : manager) : Prop := mkInv {
  inv_panic : m_panic m = false;
  inv_configured : s_configured (m_session m) = true -> s_profiles (m_session m) <> [];
  inv_closing : s_closing (m_session m) = true -> s_stopRequested (m_session m) = true;
  inv_recovery : (0 <= s_recoveryCount (m_session m) <= autoRecoveryLimit)%Z;
  inv_owned : owned (m_ledgers m) (s_ledger (m_session m)) (s_networkLedger (m_session m))
                (m_live m) (m_next m);
  inv_shape : shape m
}.

(** ** Automation *)

(** Use the field equations of the current shape to evaluate the guards. *)
Ltac known :=
  repeat match goal with
    | H : ?f (m_session ?m) = ?v |- context [?f (m_session ?m)] => rewrite H
    end; cbn.

(** Close the fields of an invariant record after [constructor]. *)
Ltac field :=
  cbn in *; known;
  first [ done | assumption | eassumption | congruence | lia
        | intros; simplify_eq; done
        | eauto with dobby
        | naive_solver ].

(** ** The operations that leave every worker alone *)

Lemma Inv_NewManager id initErr nr store saved :
  Inv (NewManager id initErr nr store saved).
Proof.
  unfold NewManager. destruct store as [st|]; [destruct saved as [url|err]|].
  all: constructor; try done; try apply owned_empty; apply Resting; done.
Qed.

(** [appendLocked] only touches the revision, the clock and the trace. *)
Lemma Inv_appendLocked now m : Inv m -> Inv (appendLocked now m).
Proof.
  intros [? ? ? ? ? Hsh]. constructor; try done.
  destruct Hsh as [? []|? []|? []|wid k ? []].
  - apply Resting; [done|]. constructor; done.
  - apply Dormant; [done|]. constructor; done.
  - apply Blocked; [done|]. constructor; done.
  - eapply Running; [done|]. constructor; try done.
    + intros p Hp. destruct (rn_pending0 p Hp). constructor; done.
    + intros Hr. destruct (rn_run0 Hr) as [c []]. exists c. constructor; done.
Qed.
