(* ===== verification/InvariantApi.v ===== *)
(** * The operations of the manager preserve its invariant

    One lemma per critical section of the session API: [Configure], [Start],
    [Stop], [StopAndWait], [Resume], [AttachSourceStore] and the health
    failures reported by a worker.  [frame] is what an operation that only
    tells a running attempt to stop may change. *)

From S2P Require Import Prelude Errors Values Session Activation Manager Worker Ownership Invariant.

(** What a manager must satisfy for [beginAttemptLocked] to start a worker. *)
Record startable (m : manager) (target : StartTarget) : Prop := mkStartable {
  sb_panic : m_panic m = false;
  sb_configured : s_configured (m_session m) = true -> s_profiles (m_session m) <> [];
  sb_closing : s_closing (m_session m) = false;
  sb_recovery : (0 <= s_recoveryCount (m_session m) <= autoRecoveryLimit)%Z;
  sb_owned : owned (m_ledgers m) None (s_networkLedger (m_session m)) (m_live m) (m_next m);
  sb_workers : m_workers m = ∅;
  sb_network : is_Some (s_networkLedger (m_session m));
  sb_pending : s_pending (m_session m) = None;
  sb_profiles : s_activeProfiles (m_session m) <> [];
  sb_target : target_ok target (s_activeProfiles (m_session m))
}.

(** Operations that leave ownership, the worker and the attempt alone; they
    may change the state, the stop flags and the messages. *)
Record frame (m m' : manager) : Prop := mkFrame {
  fr_panic : m_panic m' = m_panic m;
  fr_workers : m_workers m' = m_workers m;
  fr_ledgers : m_ledgers m' = m_ledgers m;
  fr_live : m_live m' = m_live m;
  fr_next : m_next m' = m_next m;
  fr_done : s_cleanupDone (m_session m') = s_cleanupDone (m_session m);
  fr_failed : s_cleanupFailed (m_session m') = s_cleanupFailed (m_session m);
  fr_generation : s_generation (m_session m') = s_generation (m_session m);
  fr_ledger : s_ledger (m_session m') = s_ledger (m_session m);
  fr_network : s_networkLedger (m_session m') = s_networkLedger (m_session m);
  fr_budget : s_cleanupBudget (m_session m') = s_cleanupBudget (m_session m);
  fr_vpn : s_vpnActive (m_session m') = s_vpnActive (m_session m);
  fr_aprofiles : s_activeProfiles (m_session m') = s_activeProfiles (m_session m);
  fr_target : s_activeTarget (m_session m') = s_activeTarget (m_session m);
  fr_cancel : s_cancel (m_session m') = s_cancel (m_session m);
  fr_configured : s_configured (m_session m') = s_configured (m_session m);
  fr_profiles : s_profiles (m_session m') = s_profiles (m_session m)
}.

(** The attempt context of the session, if any, is canceled. *)
Definition canceled_all (m : manager) : Prop :=
  forall c, s_cancel (m_session m) = Some c -> m_canceled m !! c = Some true.

(** What a health failure leaves alone. *)
Record health_keeps (s s' : session) : Prop := mkHealthKeeps {
  hk_done : s_cleanupDone s' = s_cleanupDone s;
  hk_failed : s_cleanupFailed s' = s_cleanupFailed s;
  hk_generation : s_generation s' = s_generation s;
  hk_ledger : s_ledger s' = s_ledger s;
  hk_network : s_networkLedger s' = s_networkLedger s;
  hk_netgen : s_networkGeneration s' = s_networkGeneration s;
  hk_budget : s_cleanupBudget s' = s_cleanupBudget s;
  hk_vpn : s_vpnActive s' = s_vpnActive s;
  hk_aprofiles : s_activeProfiles s' = s_activeProfiles s;
  hk_target : s_activeTarget s' = s_activeTarget s;
  hk_cancel : s_cancel s' = s_cancel s;
  hk_configured : s_configured s' = s_configured s;
  hk_profiles : s_profiles s' = s_profiles s;
  hk_stop : s_stopRequested s' = s_stopRequested s;
  hk_pending : s_pending s' = s_pending s;
  hk_closing : s_closing s' = s_closing s
}.

(** What [finish] holds once the attempt, and possibly the network, was
    released. *)
Record released (k : worker) (rel : bool) (m' : manager) : Prop := mkReleased {
  re_panic : m_panic m' = false;
  re_workers : m_workers m' = ∅;
  re_configured : s_configured (m_session m') = true -> s_profiles (m_session m') <> [];
  re_closing : s_closing (m_session m') = true -> s_stopRequested (m_session m') = true;
  re_recovery : (0 <= s_recoveryCount (m_session m') <= autoRecoveryLimit)%Z;
  re_owned : owned (m_ledgers m') None (s_networkLedger (m_session m')) (m_live m') (m_next m');
  re_ledger : s_ledger (m_session m') = None;
  re_done : s_cleanupDone (m_session m') = false;
  re_failed : s_cleanupFailed (m_session m') = false;
  re_cancel : s_cancel (m_session m') = None;
  re_budget : is_Some (s_cleanupBudget (m_session m'));
  re_targets : targets (m_session m');
  re_generation : wk_generation k = s_generation (m_session m');
  re_pending : forall p, s_pending (m_session m') = Some p ->
    s_stopRequested (m_session m') = false /\ p_profiles p <> [] /\
    target_ok (p_target p) (p_profiles p);
  re_network : if rel
    then s_networkLedger (m_session m') = None /\ s_vpnActive (m_session m') = false /\
         s_pending (m_session m') = None
    else is_Some (s_networkLedger (m_session m')) /\ s_vpnActive (m_session m') = true
}.

(** Split the shape of a manager, keeping the fields of its record. *)
Ltac by_shape H :=
  destruct H as [Hw []|Hw []|Hw []|wid k Hw []].

Ltac fields := constructor; try done; cbn in *; known; try done; try congruence.

Ltac keep_pending :=
  let p := fresh "p" in let Hp := fresh "Hp" in
  intros p Hp; cbn in Hp;
  match goal with
  | H : forall p, _ = Some p -> pending_ok _ p |- _ => destruct (H _ Hp); fields
  end.

Ltac keep_run :=
  let Hr := fresh "Hr" in let c := fresh "c" in
  intros Hr;
  match goal with
  | H : _ = true -> exists c, run_ok _ _ _ c |- _ =>
      destruct (H Hr) as [c []]; exists c; fields
  end.

(** Re-establish the shape after an operation that keeps it. *)
Ltac same_shape :=
  match goal with
  | H : m_workers _ = {[_ := _]} |- shape _ =>
      eapply Running; [done|fields; try keep_pending; try keep_run]
  | _ => solve [ apply Resting; [done|fields] | apply Dormant; [done|fields]
               | apply Blocked; [done|fields] ]
  end.

Lemma Inv_Configure_begin ctxErr seq m : Inv m -> Inv (Configure_begin ctxErr seq m).1.
Proof.
  intros Hi. unfold Configure_begin. case_match; [done|]. destruct Hi as [? ? ? ? ? Hsh].
  fields. by_shape Hsh; same_shape.
Qed.

Lemma Inv_store t m : Inv m -> Inv (m <| m_sourceStore := t |>).
Proof. intros [? ? ? ? ? Hsh]. fields. by_shape Hsh; same_shape. Qed.

Lemma Inv_Configure_accept now ctxErr request loaded parsed io m :
  pc_profiles parsed <> [] -> Inv m ->
  Inv (Configure_accept now ctxErr request loaded parsed io m).1.
Proof.
  intros Hp Hi. unfold Configure_accept. case_match; [done|].
  assert (exists t e, saveSource loaded io m = (m <| m_sourceStore := t |>, e)) as (t & e & ->).
  { unfold saveSource. destruct m, m_sourceStore; simpl; repeat case_match; eauto. }
  apply (Inv_store t) in Hi. revert Hi. generalize (m <| m_sourceStore := t |>). clear m H. intros m Hi.
  destruct e; [done|]. 
  destruct (pc_profiles parsed) as [|p ps] eqn:Hps; [done|].
  assert (forall m d, Inv m -> Inv (emit (OPolicy d (rp_ExcludeCIDRs p)) m)) as Hem.
  { intros ? ? [? ? ? ? ? Hsh]. fields. by_shape Hsh; same_shape. }
  set (m1 := if _ : bool then on_session _ _ else _).
  assert (Inv m1 /\ s_profiles (m_session m1) = p :: ps) as [Hi1 Hp1].
  { unfold m1. case_match; cbn in *; (split; [|done]); destruct Hi as [? ? ? ? ? Hsh].
    - split_bools. fields. by_shape Hsh; try congruence. same_shape. 
    - fields. by_shape Hsh; same_shape. }
  cbn. apply Inv_appendLocked. unfold retainPolicy. rewrite Hp1. case_match; auto.
Qed.

(** [pc_ok] reads the two ledgers, the activity flag and the release
    condition. *)
Lemma pc_ok_frame L s s' p :
  s_ledger s' = s_ledger s -> s_networkLedger s' = s_networkLedger s ->
  s_vpnActive s' = s_vpnActive s ->
  (releasing_network s -> releasing_network s') ->
  pc_ok L s p -> pc_ok L s' p.
Proof.
  intros Hl Hn Hv Hr. destruct p; cbn; rewrite ?Hl, ?Hn, ?Hv; try done.
  all: repeat case_match; intuition.
Qed.

(** ** Starting an attempt *)

Lemma Inv_begin_attempt now target active m :
  startable m active -> same_target target active ->
  Inv (spawn_runStart target (beginAttemptLocked now active m)).
Proof.
  intros [? ? ? ? Ho ? ? ? ? ?] Ht. constructor; try done.
  - cbn. congruence.
  - cbn. eapply owned_next; [eapply (owned_alloc_attempt _ None); [|done]|].
    + eapply owned_next; [done|]. lia.
    + lia.
  - eapply Running.
    + cbn. match goal with H : m_workers m = ∅ |- _ => rewrite H end. done.
    + constructor; try done; cbn; try congruence.
      * by right.
      * intros _. eexists. constructor; try done. cbn.
        by rewrite lookup_insert_eq.
Qed.

Lemma validateStartTarget_ok s target :
  validateStartTarget s target = None -> target_ok target (s_profiles s).
Proof.
  unfold validateStartTarget, target_ok. intros H. repeat case_match; try done.
  repeat case_bool_decide; simplify_eq/=; try (by left); right; split_bools.
  split; [done|lia].
Qed.

Lemma target_ok_source t o ps : target_ok (t <| t_Source := o |>) ps <-> target_ok t ps.
Proof. done. Qed.

Lemma saveActivationLocked_store io target m :
  exists t, (saveActivationLocked io target m).1 = m <| m_sourceStore := t |>.
Proof.
  unfold saveActivationLocked. destruct m, m_sourceStore; simpl; repeat case_match; simpl; eauto.
Qed.

Lemma Inv_emit o m : Inv m -> Inv (emit o m).
Proof. intros [? ? ? ? ? Hsh]. fields. by_shape Hsh; same_shape. Qed.

Lemma retainPolicy_cons d p ps m :
  retainPolicy d (p :: ps) m = emit (OPolicy d (rp_ExcludeCIDRs p)) m.
Proof. done. Qed.

Lemma Inv_startOrigin (g : session -> Z) m :
  Inv m -> Inv (on_session (fun s => s <| s_startOriginGeneration := g s |>) m).
Proof. intros [? ? ? ? ? Hsh]. fields. by_shape Hsh; same_shape. Qed.

Lemma spawn_startOrigin (g : session -> Z) target m :
  spawn_runStart target (on_session (fun s => s <| s_startOriginGeneration := g s |>) m) =
  on_session (fun s => s <| s_startOriginGeneration := g s |>) (spawn_runStart target m).
Proof. done. Qed.

Lemma Inv_retryLocked now target supplied m :
  canRetry (m_session m) = true -> Inv m -> Inv (retryLocked now target supplied m).1.
Proof.
  intros Hc Hi. unfold retryLocked. case_match eqn:Hg; [done|]. cbn [fst].
  unfold canRetry in Hc. split_bools. destruct Hi as [? ? ? ? Ho Hsh].
  by_shape Hsh; try congruence; cycle 1.
  { by destruct (s_state (m_session m)). }
  rewrite dm_ledger in Ho. destruct dm_targets.
  match goal with |- Inv (spawn_runStart ?t (on_session ?f (beginAttemptLocked ?now ?a ?m'))) =>
    assert (Inv (spawn_runStart t (beginAttemptLocked now a m'))) as Hi end.
  { apply Inv_begin_attempt.
    - fields.
    - split_bools. match goal with H : bool_decide _ && _ = false |- _ => apply andb_false_iff in H end.
      split; [congruence|]. intros Hm. rewrite Hm in *. cbn in *. intuition (split_bools; done || congruence). }
  rewrite spawn_startOrigin. apply (Inv_startOrigin s_generation), Hi.
Qed.

Lemma canSwitch_connected s :
  canSwitch s = true ->
  s_closing s = false /\ s_state s = StateConnected /\ s_pending s = None.
Proof.
  unfold canSwitch. intros ?. split_bools. by destruct (s_pending s).
Qed.

(** Saving the selection only changes the store. *)
Lemma saveActivationLocked_inv io target m m' err :
  saveActivationLocked io target m = (m', err) -> Inv m ->
  Inv m' /\ m_session m' = m_session m.
Proof.
  intros Hs Hi. destruct (saveActivationLocked_store io target m) as [t Ht].
  rewrite Hs in Ht. simpl in Ht. subst m'. split; [by apply Inv_store|done].
Qed.

Lemma Inv_replaceLocked now io target m :
  s_configured (m_session m) = true -> target_ok target (s_profiles (m_session m)) ->
  Inv m -> Inv (replaceLocked now io target m).1.
Proof.
  intros Hcf Ht Hi. unfold replaceLocked. case_match eqn:Hg; [done|].
  apply orb_false_iff in Hg as [_ Hg]. apply negb_false_iff, canSwitch_connected in Hg as (?&?&?).
  destruct (saveActivationLocked io target m) as [m1 err] eqn:Hs.
  destruct (saveActivationLocked_inv _ _ _ _ _ Hs Hi) as [Hi1 Heq].
  destruct err; [done|]. rewrite <- Heq in *. clear dependent m. rename m1 into m.
  cbn [fst]. apply Inv_appendLocked. destruct Hi1 as [? ? ? ? Ho Hsh].
  by_shape Hsh; try congruence.
  { by destruct (s_state (m_session m)). }
  destruct rn_budget as [b Hb]. destruct rn_cancel as [|[c Hc]]; [congruence|].
  assert (s_stopRequested (m_session m) = false).
  { destruct (s_stopRequested (m_session m)); [|done]. rewrite rn_stop in *; done. }
  unfold budget_begin, call_cancel. cbn. rewrite Hb. cbn. rewrite Hc. cbn.
  fields. eapply Running; [done|]. fields.
  - by left.
  - intros _ ? [= <-]. by rewrite lookup_insert_eq.
  - intros p [= <-]. fields; [by apply rn_connected|by apply inv_configured].
  - intros Hr. destruct (rn_run Hr) as [c' []]. exists c'. fields.
  - eapply (pc_ok_frame _ (m_session m)); try done. intros [? [|]]; [congruence|].
    rewrite rn_connected in *; done.
Qed.

(** The network ledger, context, budget and attempt ledger of a fresh start. *)
Lemma owned_fresh_start L live n :
  owned L None None live n ->
  owned (<[S (S (S n)) := []]> (<[n := []]> L)) (Some (S (S (S n)))) (Some n) live
    (S (S (S (S (S n))))).
Proof.
  intros Ho. eapply owned_next; [|apply Nat.le_succ_diag_r].
  apply (owned_alloc_attempt _ None); [|done].
  eapply owned_next; [by apply owned_alloc_network|]. lia.
Qed.

Lemma Inv_Start_locked now io seq target supplied m :
  Inv m -> Inv (Start_locked now io seq target supplied m).1.
Proof.
  intros Hi. unfold Start_locked. case_match; [done|]. case_match eqn:Hcf; [done|].
  apply negb_false_iff in Hcf.
  case_match eqn:Hcr; [by apply Inv_retryLocked|].
  destruct (validateStartTarget _ _) eqn:Hv; [done|]. apply validateStartTarget_ok in Hv.
  case_match eqn:Hb; [by apply Inv_replaceLocked|].
  destruct (saveActivationLocked io target m) as [m1 err] eqn:Hs.
  destruct (saveActivationLocked_inv _ _ _ _ _ Hs Hi) as [Hi1 Heq].
  destruct err; [done|]. rewrite <- Heq in *. clear dependent m. rename m1 into m.
  unfold configurationBlocked in Hb. split_bools.
  destruct Hi1 as [? Hpr ? ? Ho Hsh]. specialize (Hpr Hcf).
  by_shape Hsh; try congruence. rewrite rs_ledger, rs_network in Ho.
  destruct (s_profiles (m_session m)) as [|p ps] eqn:Hps; [done|].
  cbn. rewrite Hps. cbn. constructor; try done; cbn; try congruence.
  - by apply owned_fresh_start.
  - eapply Running.
    + cbn. rewrite Hw. done.
    + fields; [by right|]. intros _. eexists. fields. by rewrite lookup_insert_eq.
Qed.

(** ** Stopping *)

Lemma stopActivationLocked_inv loadErr io m m' err :
  stopActivationLocked loadErr io m = (m', err) -> Inv m ->
  Inv m' /\ m_session m' = m_session m.
Proof.
  intros Hs Hi.
  assert (exists t, m' = m <| m_sourceStore := t |>) as [t ->].
  { revert Hs. unfold stopActivationLocked. destruct m, m_sourceStore; simpl;
      repeat case_match; intros; simplify_eq; eauto. }
  split; [by apply Inv_store|done].
Qed.


Lemma Inv_stop_requested now m :
  attemptActive (s_state (m_session m)) = false -> Inv m -> Inv (stop_requested now m).
Proof.
  intros Hst [? ? ? ? ? Hsh]. unfold stop_requested.
  by_shape Hsh; try congruence; cbn; known; fields; same_shape.
Qed.

Lemma stop_requested_session now m :
  let s := m_session (stop_requested now m) in
  s_state s = s_state (m_session m) /\ s_generation s = s_generation (m_session m) /\
  s_stopRequested s = true.
Proof. unfold stop_requested. case_match; done. Qed.

Lemma Inv_stop_retained now retry m :
  s_state (m_session m) = StateFailed -> s_stopRequested (m_session m) = true ->
  s_cleanupFailed (m_session m) = retry ->
  s_vpnActive (m_session m) = true \/ s_cleanupFailed (m_session m) = true ->
  Inv m -> Inv (stop_retained now (s_generation (m_session m)) retry m).
Proof.
  intros Hst Hsr Hre Hv [? ? ? ? Ho Hsh]. unfold stop_retained, spawn_finish, budget_begin.
  cbn. destruct retry; cbn; constructor; try done; cbn; try (eapply owned_next; [done|lia]).
  all: by_shape Hsh; try solve [destruct Hv; congruence | by rewrite Hst in *].
  all: eapply Running; [cbn; by rewrite Hw|]; fields; by left.
Qed.

Lemma Inv_acknowledge now generation m :
  Inv m -> Inv (acknowledgeStoppedLocked now generation m).1.1.
Proof.
  intros Hi. unfold acknowledgeStoppedLocked. case_match; [|done].
  case_match; [|done]. cbn [fst]. apply Inv_appendLocked.
  destruct Hi as [? ? ? ? Ho Hsh]. fields. by_shape Hsh; same_shape.
Qed.

#[export] Instance frame_preorder : PreOrder frame.
Proof.
  split.
  - by constructor.
  - intros m1 m2 m3 [] []. constructor; congruence.
Qed.

Lemma frame_appendLocked now m : frame m (appendLocked now m).
Proof. by constructor. Qed.

Lemma frame_cancel_if_set m : frame m (cancel_if_set m).
Proof. unfold cancel_if_set. by case_match. Qed.

Lemma frame_budget_begin now m :
  is_Some (s_cleanupBudget (m_session m)) -> frame m (budget_begin now m).
Proof. intros [b Hb]. unfold budget_begin. rewrite Hb. by constructor. Qed.

Lemma frame_stop_requested now m : frame m (stop_requested now m).
Proof. unfold stop_requested. by case_match. Qed.

#[export] Hint Resolve frame_appendLocked frame_cancel_if_set frame_budget_begin
  frame_stop_requested : dobby.

Lemma running_frame m m' k :
  frame m m' -> s_state (m_session m') = StateStopping ->
  s_pending (m_session m') = None ->
  (s_stopRequested (m_session m) = true -> s_stopRequested (m_session m') = true) ->
  canceled_all m' ->
  running (m_ledgers m) (m_canceled m) (m_session m) k ->
  running (m_ledgers m') (m_canceled m') (m_session m') k.
Proof.
  intros [] Hs Hp Hsr Hca []. constructor; try congruence.
  - by rewrite Hs.
  - unfold targets in *. by rewrite fr_aprofiles0, fr_target0.
  - by left.
  - done.
  - intros Hr. destruct (rn_run Hr) as [c []]. exists c.
    constructor; rewrite ?fr_ledger0, ?fr_vpn0, ?fr_target0; done || congruence.
  - rewrite fr_ledgers0. eapply (pc_ok_frame _ (m_session m)); try done.
    unfold releasing_network. rewrite fr_vpn0. intuition.
Qed.

(** A running attempt may be told to stop in any way that keeps the frame. *)
Lemma Inv_told_to_stop m m' :
  Inv m -> attemptActive (s_state (m_session m)) = true -> frame m m' ->
  s_state (m_session m') = StateStopping -> s_pending (m_session m') = None ->
  (s_stopRequested (m_session m) = true -> s_stopRequested (m_session m') = true) ->
  canceled_all m' ->
  (s_closing (m_session m') = true -> s_stopRequested (m_session m') = true) ->
  (0 <= s_recoveryCount (m_session m') <= autoRecoveryLimit)%Z ->
  Inv m'.
Proof.
  intros [? Hc ? ? Ho Hsh] Hact Hf ? ? ? ? ? ?. pose proof Hf as []. constructor; try done.
  - congruence.
  - by rewrite fr_configured0, fr_profiles0.
  - by rewrite fr_ledgers0, fr_live0, fr_next0, fr_ledger0, fr_network0.
  - destruct Hsh as [Hw Hr|Hw Hr|Hw Hr|wid k Hw Hr].
    + destruct Hr. congruence.
    + destruct Hr. by rewrite dm_state in *.
    + destruct Hr. by rewrite bl_state in *.
    + eapply Running; [by rewrite fr_workers0|]. by eapply running_frame.
Qed.

(** An active state is a worker at work. *)
Lemma running_shape m :
  Inv m -> attemptActive (s_state (m_session m)) = true ->
  exists wid k, m_workers m = {[wid := k]} /\
    running (m_ledgers m) (m_canceled m) (m_session m) k.
Proof.
  intros [? ? ? ? Ho Hsh] Hact. destruct Hsh as [Hw []|Hw []|Hw []|wid k Hw Hr]; eauto.
  - congruence.
  - by rewrite dm_state in *.
  - by rewrite bl_state in *.
Qed.

Lemma running_budget m :
  Inv m -> attemptActive (s_state (m_session m)) = true ->
  is_Some (s_cleanupBudget (m_session m)).
Proof. intros Hi Hact. by destruct (running_shape m Hi Hact) as (? & ? & _ & []). Qed.

Lemma stop_requested_canceled now m : m_canceled (stop_requested now m) = m_canceled m.
Proof. unfold stop_requested. by case_match. Qed.

Lemma stop_requested_fields now m :
  let s := m_session (stop_requested now m) in
  s_state s = s_state (m_session m) /\ s_pending s = None /\ s_stopRequested s = true /\
  s_closing s = s_closing (m_session m) /\
  s_recoveryCount s = s_recoveryCount (m_session m).
Proof.
  unfold stop_requested. cbn. destruct (s_pending (m_session m)) eqn:Hp; cbn; done.
Qed.

Lemma cancel_if_set_all m : canceled_all (cancel_if_set m).
Proof.
  intros c. unfold cancel_if_set. destruct (s_cancel (m_session m)) eqn:Hc; cbn; [|congruence].
  rewrite Hc. intros [= <-]. by rewrite lookup_insert_eq.
Qed.

(** [stop_attempt] reaches STOPPING and keeps the other flags of a stop. *)
Lemma stop_attempt_frame now m :
  is_Some (s_cleanupBudget (m_session m)) ->
  (s_state (m_session m) = StateStopping -> canceled_all m) ->
  canceled_all (stop_attempt now m) /\ frame m (stop_attempt now m) /\
  s_state (m_session (stop_attempt now m)) = StateStopping /\
  s_pending (m_session (stop_attempt now m)) = s_pending (m_session m) /\
  s_stopRequested (m_session (stop_attempt now m)) = s_stopRequested (m_session m) /\
  s_closing (m_session (stop_attempt now m)) = s_closing (m_session m) /\
  s_recoveryCount (m_session (stop_attempt now m)) = s_recoveryCount (m_session m).
Proof.
  intros [b Hb] Hca. unfold stop_attempt.
  set (m1 := if _ : bool then on_session _ m else m).
  assert (frame m m1 /\ m_canceled m1 = m_canceled m /\ s_state (m_session m1) = s_state (m_session m) /\
    s_pending (m_session m1) = s_pending (m_session m) /\
    s_stopRequested (m_session m1) = s_stopRequested (m_session m) /\
    s_closing (m_session m1) = s_closing (m_session m) /\
    s_recoveryCount (m_session m1) = s_recoveryCount (m_session m)) as (Hf & Ecan & Est & Ep & Er & Ec & Ecount).
  { unfold m1. by case_match. }
  assert (Hb1 : s_cleanupBudget (m_session m1) = Some b) by (rewrite (fr_budget _ _ Hf); done).
  clearbody m1. case_match eqn:Hs; cbn in Hs; cycle 1.
  { split_bools. rewrite Hs. split_and!; try done. intros c. rewrite (fr_cancel _ _ Hf), Ecan.
    apply Hca. congruence. }
  split; [apply cancel_if_set_all|].
  unfold budget_begin, cancel_if_set. cbn. rewrite Hb1. cbn.
  destruct (s_cancel (m_session m1)) eqn:Hcancel; (split; [transitivity m1; [done|constructor; cbn; done || congruence]|done]).
Qed.

Lemma Inv_stop_attempt now m :
  attemptActive (s_state (m_session m)) = true -> Inv m ->
  Inv (stop_attempt now (stop_requested now m)).
Proof.
  intros Hact Hi. destruct (stop_requested_fields now m) as (Hs & Hp & Hsr & Hc & Hrc).
  pose proof (frame_stop_requested now m) as Hf.
  destruct (stop_attempt_frame now (stop_requested now m)) as (? & Hf' & ? & ? & ? & ? & Hrc').
  { rewrite (fr_budget _ _ Hf). by apply running_budget. }
  { rewrite Hs. intros He c. rewrite (fr_cancel _ _ Hf), stop_requested_canceled.
    destruct (running_shape m Hi Hact) as (? & ? & _ & []). auto. }
  apply (Inv_told_to_stop m); try congruence.
  - by transitivity (stop_requested now m).
  - done.
  - rewrite Hrc', Hrc. by apply inv_recovery.
Qed.

(** The manager [Stop] returns, by the state it found. *)
Definition stop_outcome (now : Z) (m : manager) : manager :=
  if attemptActive (s_state (m_session m)) then stop_attempt now m
  else if bool_decide (s_state (m_session m) = StateFailed) &&
          (retryableCleanup (m_session m) ||
           s_vpnActive (m_session m) && negb (s_cleanupFailed (m_session m)))
  then stop_retained now (s_generation (m_session m)) (retryableCleanup (m_session m)) m
  else (acknowledgeStoppedLocked now (s_generation (m_session m)) m).1.1.

Lemma Stop_outcome now loadErr io generation m m1 err :
  acceptsStop (m_session m) generation = true ->
  stopActivationLocked loadErr io m = (m1, err) ->
  (Stop now loadErr io generation m).1.1 = stop_outcome now (stop_requested now m1).
Proof.
  intros Ha Hs. unfold Stop. rewrite Ha, Hs. cbn [negb]. cbv zeta.
  rewrite <- (fr_generation _ _ (frame_stop_requested now m1)).
  generalize (stop_requested now m1). clear. intros m. unfold stop_outcome, retryableCleanup.
  destruct (s_state (m_session m)) eqn:Hst; cbn; try done.
  all: try (by destruct (acknowledgeStoppedLocked _ _ _) as [[? ?] ?]).
  change (bool_decide (StateFailed = StateFailed)) with true.
  destruct (s_cleanupFailed (m_session m)), (s_vpnActive (m_session m)); cbn;
    try (destruct (is_Some_b _ || _)); cbn; try done;
    by destruct (acknowledgeStoppedLocked _ _ _) as [[? ?] ?].
Qed.

Lemma Inv_Stop now loadErr io generation m :
  Inv m -> Inv (Stop now loadErr io generation m).1.1.
Proof.
  intros Hi. destruct (acceptsStop (m_session m) generation) eqn:Ha; [|unfold Stop; by rewrite Ha].
  destruct (stopActivationLocked loadErr io m) as [m1 err] eqn:Hs. rewrite (Stop_outcome _ _ _ _ _ _ _ Ha Hs).
  destruct (stopActivationLocked_inv _ _ _ _ _ Hs Hi) as [Hi1 _]. clear dependent m. rename m1 into m.
  destruct (stop_requested_fields now m) as (Hst & _ & Hsr & _). unfold stop_outcome.
  destruct (attemptActive (s_state (m_session (stop_requested now m)))) eqn:Hact; rewrite Hst in Hact.
  { by apply Inv_stop_attempt. }
  pose proof (Inv_stop_requested now m Hact Hi1) as Hi. revert Hsr Hi. generalize (stop_requested now m).
  clear. intros m Hsr Hi. destruct (_ && _) eqn:Hr; [|by apply Inv_acknowledge].
  apply andb_true_iff in Hr as [Hf Hr]. apply bool_decide_eq_true in Hf. unfold retryableCleanup in *.
  rewrite Hf in *. change (bool_decide (StateFailed = StateFailed)) with true in *. cbn [andb] in *.
  destruct (s_cleanupFailed (m_session m)) eqn:Hcf; cbn [negb andb orb] in *.
  - rewrite andb_false_r, orb_false_r in Hr. rewrite Hr. apply Inv_stop_retained; auto.
  - rewrite andb_true_r in Hr. apply Inv_stop_retained; auto.
Qed.

Lemma Inv_close_requested m :
  attemptActive (s_state (m_session m)) = false -> Inv m -> Inv (close_requested m).
Proof.
  intros Hact [? ? ? ? ? Hsh]. unfold close_requested.
  by_shape Hsh; try congruence; fields; same_shape.
Qed.

Lemma Inv_close_dormant now m :
  dormant (m_session m) -> Inv m -> Inv (close_attempt now m).
Proof.
  intros Hd [? ? ? ? Ho Hsh]. assert (Hw : m_workers m = ∅).
  { destruct Hd. destruct Hsh as [? []|? []|? []|wid k ? []]; try done; try congruence.
    by rewrite dm_state in *. }
  destruct Hd. rewrite dm_ledger in Ho.
  unfold close_attempt, budget_begin, spawn_finish. rewrite dm_state.
  rewrite (bool_decide_eq_true_2 (StateFailed = StateFailed)) by done. cbn.
  rewrite orb_true_r. cbn. known.
  constructor; try done; cbn.
  - eapply owned_next; [exact Ho|lia].
  - eapply Running; [cbn; by rewrite Hw|]. fields. by left.
Qed.

Lemma close_attempt_frame now m :
  attemptActive (s_state (m_session m)) = true -> is_Some (s_cleanupBudget (m_session m)) ->
  frame m (close_attempt now m) /\ canceled_all (close_attempt now m) /\
  m_session (close_attempt now m) = m_session m <| s_state := StateStopping |>.
Proof.
  intros Hact [b Hb]. unfold close_attempt, budget_begin.
  rewrite (bool_decide_eq_false_2 (s_state (m_session m) = StateFailed)).
  2: { intros He. by rewrite He in Hact. }
  cbn. rewrite Hb. cbn. rewrite Hb. cbn. destruct (s_cancel (m_session m)) eqn:Hc.
  all: split_and!; [constructor; cbn; congruence || done| |cbn; congruence].
  - intros c'. cbn. intros [= <-]. by rewrite lookup_insert_eq.
  - by intros c'.
Qed.

Lemma Inv_StopAndWait_begin now m : Inv m -> Inv (StopAndWait_begin now m).
Proof.
  intros Hi. unfold StopAndWait_begin. apply Inv_appendLocked.
  assert (Hst : s_state (m_session (close_requested m)) = s_state (m_session m)) by done.
  destruct (attemptActive (s_state (m_session m))) eqn:Hact.
  - assert (frame m (close_requested m)) as Hf by by constructor.
    destruct (close_attempt_frame now (close_requested m)) as (Hf' & Hca & Hs); [done|..].
    { exact (running_budget m Hi Hact). }
    assert (s_cleanupDone (m_session m) = false /\ s_cleanupFailed (m_session m) = false) as [Hd Hfl].
    { destruct (running_shape m Hi Hact) as (wid & k & _ & []). done. }
    rewrite (fr_done _ _ Hf), (fr_failed _ _ Hf), Hd, Hfl. cbn.
    apply (Inv_told_to_stop m); try done; rewrite ?Hs; try done.
    + by transitivity (close_requested m).
    + cbn. exact (inv_recovery m Hi).
  - pose proof (Inv_close_requested m Hact Hi) as Hi1.
    revert Hst Hi1. generalize (close_requested m). clear - Hact. intros m' Hst Hi. rewrite <- Hst in Hact.
    pose proof Hi as [? ? ? ? ? Hsh]. destruct Hsh as [Hw Hr|Hw Hr|Hw Hr|wid k Hw Hr].
    + by rewrite (rs_done _ Hr).
    + rewrite (dm_done _ Hr), (dm_failed _ Hr). by apply Inv_close_dormant.
    + by rewrite (bl_failed _ Hr), andb_false_r.
    + destruct Hr. congruence.
Qed.

Lemma Inv_Resume now m : Inv m -> Inv (Resume now m).1.
Proof.
  intros Hi. unfold Resume. case_match; [done|]. case_match; [done|]. cbn [fst].
  apply Inv_appendLocked. split_bools. destruct Hi as [? ? ? ? ? Hsh].
  fields. by_shape Hsh; try congruence. same_shape.
Qed.

Lemma Inv_AttachSourceStore_install store m :
  Inv m -> Inv (AttachSourceStore_install store m).1.
Proof. intros Hi. unfold AttachSourceStore_install. case_match; [done|]. by apply Inv_store. Qed.

(** Source fields are not part of the invariant. *)
Lemma Inv_source url kind err m :
  Inv m -> Inv (on_session (fun s => s <| s_sourceURL := url s |> <| s_sourceKind := kind s |>
                                       <| s_sourceError := err s |>) m).
Proof. intros [? ? ? ? ? Hsh]. fields. by_shape Hsh; same_shape. Qed.

Lemma Inv_AttachSourceStore_loaded now loaded m :
  Inv m -> Inv (AttachSourceStore_loaded now loaded m).
Proof.
  intros Hi. unfold AttachSourceStore_loaded. apply Inv_appendLocked.
  destruct loaded as [[url|]|err]; try done.
  - case_match; [|done]. case_match.
    + exact (Inv_source (fun _ => url) (fun _ => ConfigSourceURL) (fun _ => "") m Hi).
    + exact (Inv_source (fun _ => url) s_sourceKind (fun _ => "") m Hi).
  - exact (Inv_source s_sourceURL s_sourceKind _ m Hi).
Qed.

Lemma Inv_inflight f m : Inv m -> Inv (m <| m_inflight ::= f |>).
Proof. intros [? ? ? ? ? Hsh]. fields. by_shape Hsh; same_shape. Qed.

(** ** Health failures *)

Lemma queueRecovery_bounds g msg s :
  (0 <= s_recoveryCount s <= autoRecoveryLimit)%Z ->
  (0 <= s_recoveryCount (queueRecovery g msg s) <= autoRecoveryLimit)%Z.
Proof.
  unfold queueRecovery, autoRecoveryLimit. intros ?.
  case_match; [case_match|]; split_bools; cbn in *; lia.
Qed.

Lemma prepareHealthRecovery_bounds now generation cause s :
  (0 <= s_recoveryCount s <= autoRecoveryLimit)%Z ->
  (0 <= s_recoveryCount (prepareHealthRecoveryLocked now generation cause s) <=
     autoRecoveryLimit)%Z.
Proof.
  intros Hs. unfold prepareHealthRecoveryLocked. apply queueRecovery_bounds.
  unfold forgiveStable. case_match; [done|exact Hs].
Qed.

#[export] Instance health_keeps_preorder : PreOrder health_keeps.
Proof.
  split.
  - by constructor.
  - intros m1 m2 m3 [] []. constructor; congruence.
Qed.

Lemma queueRecovery_keeps g msg s : health_keeps s (queueRecovery g msg s).
Proof. unfold queueRecovery. repeat case_match; by constructor. Qed.

Lemma forgiveStable_keeps now s : health_keeps s (forgiveStable now s).
Proof. unfold forgiveStable. case_match; by constructor. Qed.

Lemma prepareHealthRecovery_keeps now generation cause s :
  health_keeps s (prepareHealthRecoveryLocked now generation cause s).
Proof.
  unfold prepareHealthRecoveryLocked.
  etrans; [|apply queueRecovery_keeps]. etrans; [|apply forgiveStable_keeps].
  by constructor.
Qed.

Lemma cancel_if_set_session m : m_session (cancel_if_set m) = m_session m.
Proof. unfold cancel_if_set. by case_match. Qed.

Lemma Inv_reportHealthFailure now generation cause m :
  Inv m -> Inv (reportHealthFailure now generation cause m).
Proof.
  intros Hi. unfold reportHealthFailure. case_match eqn:Hg; [done|]. split_bools.
  set (m1 := on_session _ m).
  assert (frame m m1 /\ s_stopRequested (m_session m1) = s_stopRequested (m_session m) /\
     s_pending (m_session m1) = s_pending (m_session m) /\
     s_closing (m_session m1) = s_closing (m_session m)) as (Hf & Hsr & Hp & Hc).
  { unfold m1. clear m1. 
    generalize (match cause with Some c => c | None => EText "connected health check failed" end).
    intros g.
    destruct (prepareHealthRecovery_keeps now generation g (m_session m)).
    split; [constructor; (assumption || reflexivity)|split_and!; assumption]. }
  pose proof (prepareHealthRecovery_bounds now generation
    (match cause with Some c => c | None => EText "connected health check failed" end)
    (m_session m) (inv_recovery _ Hi)) as Hb.
  change (0 <= s_recoveryCount (m_session m1) <= autoRecoveryLimit)%Z in Hb. clearbody m1.
  destruct (running_shape m Hi) as (wid & k & _ & []).
  { match goal with H : s_state _ = _ |- _ => by rewrite H end. }
  assert (s_pending (m_session m) = None) as Hnone.
  { destruct (s_pending (m_session m)) as [p|] eqn:He; [|done].
    destruct (rn_pending p eq_refl). congruence. }
  assert (forall m2, frame m1 m2 -> frame m1 (cancel_if_set m2)) as Hcancel.
  { intros ? ?. etrans; [done|]. apply frame_cancel_if_set. }
  set (m2 := appendLocked _ _).
  pose proof (cancel_if_set_session m2) as Hs2.
  apply (Inv_told_to_stop m); try done; rewrite ?Hs2; try done.
  - transitivity m1; [done|]. apply Hcancel. by constructor.
  - cbn. congruence.
  - cbn. congruence.
  - apply cancel_if_set_all.
  - cbn. intros ?. rewrite Hsr. apply inv_closing; congruence.
Qed.
