(* ===== verification/InvariantWorker.v ===== *)
(** * The workers preserve the manager invariant

    One lemma per piece of [runStart] and [finish], then the preservation of
    [Inv] by [step] and [run]. *)

From S2P Require Import Prelude Errors Values Session Activation Manager Worker Ownership Invariant InvariantApi.

(** ** The worker of a running session *)

Lemma the_worker m wid k :
  Inv m -> m_workers m !! wid = Some k ->
  m_workers m = {[wid := k]} /\ running (m_ledgers m) (m_canceled m) (m_session m) k.
Proof.
  intros [? ? ? ? ? Hsh] Hk. destruct Hsh as [Hw _|Hw _|Hw _|wid' k' Hw Hr].
  1-3: by rewrite Hw, lookup_empty in Hk.
  rewrite Hw in *. apply lookup_singleton_Some in Hk as [-> ->]. done.
Qed.

(** [running] with the program counter moved. *)
Lemma running_goto L C s k p :
  running L C s k -> (in_run p = true -> in_run (wk_pc k) = true) ->
  (network_up p = true -> s_vpnActive s = true) -> pc_ok L s p ->
  running L C s (k <| wk_pc := p |>).
Proof.
  intros [] Hin Hup Hpc. constructor; try done. cbn. intros Hr.
  destruct (rn_run (Hin Hr)) as [c []]. exists c. by constructor.
Qed.

Lemma Inv_goto wid k p m :
  Inv m -> m_workers m !! wid = Some k -> (in_run p = true -> in_run (wk_pc k) = true) ->
  (network_up p = true -> s_vpnActive (m_session m) = true) ->
  pc_ok (m_ledgers m) (m_session m) p -> Inv (goto wid k p m).
Proof.
  intros Hi Hk Hin Hup Hpc. destruct (the_worker _ _ _ Hi Hk) as [Hw Hr].
  destruct Hi. constructor; try done. eapply (Running _ wid (k <| wk_pc := p |>)).
  - cbn. by rewrite Hw, insert_singleton_eq.
  - by apply running_goto.
Qed.

(** Only the ledgers and the live leases move. *)
Lemma Inv_heap m L live next out :
  Inv m ->
  owned L (s_ledger (m_session m)) (s_networkLedger (m_session m)) live next ->
  (forall wid k, m_workers m !! wid = Some k ->
     pc_ok L (m_session m) (wk_pc k)) ->
  Inv (m <| m_ledgers := L |> <| m_live := live |> <| m_next := next |> <| m_outputs := out |>).
Proof.
  intros [? ? ? ? Ho Hsh] HL Hpc. constructor; try done. cbn.
  destruct Hsh as [Hw Hr|Hw Hr|Hw Hr|wid k Hw Hr].
  - by apply Resting.
  - by apply Dormant.
  - by apply Blocked.
  - eapply Running; [done|]. destruct Hr. constructor; try done. cbn.
    apply (Hpc wid). by rewrite Hw, lookup_singleton_eq.
Qed.

Lemma Inv_budgets f m : Inv m -> Inv (m <| m_budgets ::= f |>).
Proof. intros [? ? ? ? ? Hsh]. fields. by_shape Hsh; same_shape. Qed.

Lemma Inv_alloc_budget m : Inv m -> Inv (alloc_budget m).
Proof.
  intros [? ? ? ? Ho Hsh]. constructor; try done; cbn.
  - eapply owned_next; [done|lia].
  - by_shape Hsh; same_shape.
Qed.

Lemma Inv_cleanupContext now m : Inv m -> Inv (cleanupContext now m).
Proof.
  intros Hi. unfold cleanupContext, budget_begin. case_match eqn:Hb.
  - by apply Inv_budgets.
  - exact (Inv_budgets (alter (begin now) (m_next m)) _ (Inv_alloc_budget m Hi)).
Qed.

Lemma cleanupContext_session now m :
  exists b, m_session (cleanupContext now m) = m_session m <| s_cleanupBudget := b |>.
Proof.
  unfold cleanupContext, budget_begin. destruct (s_cleanupBudget (m_session m)) eqn:Hb.
  - exists (s_cleanupBudget (m_session m)). by destruct m, m_session.
  - cbn. by eexists.
Qed.

Lemma cleanupContext_heap now m :
  m_workers (cleanupContext now m) = m_workers m /\
  m_ledgers (cleanupContext now m) = m_ledgers m.
Proof.
  unfold cleanupContext, budget_begin. destruct (s_cleanupBudget (m_session m)) eqn:Hb.
  - done.
  - done.
Qed.

Lemma push_some x l m : push (Some x) l m = m <| m_ledgers ::= alter (cons l) x |>.
Proof. done. Qed.

(** ** Acquiring and releasing leases *)

Lemma Inv_acquire_network kind granted m x :
  kind = PlatformLease \/ kind = NetworkLease ->
  s_networkLedger (m_session m) = Some x ->
  (forall wid k, m_workers m !! wid = Some k ->
     forall L, pc_ok L (m_session m) (wk_pc k)) ->
  Inv m -> Inv (acquire kind granted (Some x) m).
Proof.
  intros Hk Hx Hpc Hi. unfold acquire. destruct granted; [|done].
  pose proof (inv_owned _ Hi) as Ho. rewrite Hx in Ho.
  pose proof (owned_push_network _ _ _ _ _ _ Ho Hk) as Ho'. rewrite <- Hx in Ho'.
  pose proof (Inv_heap m _ _ _ (m_outputs m) Hi Ho' (fun wid k H => Hpc wid k H _)) as H.
  by destruct m.
Qed.

Lemma Inv_acquire_attempt granted m x :
  s_ledger (m_session m) = Some x ->
  (forall wid k, m_workers m !! wid = Some k ->
     forall L, pc_ok L (m_session m) (wk_pc k)) ->
  Inv m -> Inv (acquire AttemptLease granted (Some x) m).
Proof.
  intros Hx Hpc Hi. unfold acquire. destruct granted; [|done].
  pose proof (inv_owned _ Hi) as Ho. rewrite Hx in Ho.
  pose proof (owned_push_attempt _ _ _ _ _ Ho) as Ho'. cbn zeta in Ho'. rewrite <- Hx in Ho'.
  pose proof (Inv_heap m _ _ _ (m_outputs m) Hi Ho' (fun wid k H => Hpc wid k H _)) as H.
  by destruct m.
Qed.

(** Acquiring moves neither the workers nor the session. *)
Lemma acquire_frame kind granted x m :
  m_workers (acquire kind granted (Some x) m) = m_workers m /\
  m_session (acquire kind granted (Some x) m) = m_session m /\
  m_canceled (acquire kind granted (Some x) m) = m_canceled m.
Proof. by destruct granted. Qed.

Lemma release_step_spec work closeErr m m' err :
  release_step work closeErr m = Some (m', err) ->
  exists l rest, m_ledgers m !! work = Some (l :: rest) /\
    match closeErr with
    | Some e => m' = m /\ err = Some e
    | None => err = None /\
        m' = emit (ORelease l) (m <| m_ledgers ::= <[work := rest]> |>
                                  <| m_live ::= drop_lease l |>)
    end.
Proof.
  unfold release_step. destruct (m_ledgers m !! work) as [[|l rest]|]; try done.
  intros H. exists l, rest. destruct closeErr; simplify_eq; done.
Qed.

Lemma Inv_release_attempt x closeErr m m' err :
  s_ledger (m_session m) = Some x ->
  (forall wid k, m_workers m !! wid = Some k ->
     forall L, pc_ok L (m_session m) (wk_pc k)) ->
  Inv m -> release_step x closeErr m = Some (m', err) -> Inv m'.
Proof.
  intros Hx Hpc Hi (l & rest & Hl & Hm)%release_step_spec. destruct closeErr.
  - by destruct Hm as [-> _].
  - destruct Hm as [_ ->]. pose proof (inv_owned _ Hi) as Ho. rewrite Hx in Ho.
    pose proof (owned_pop_attempt _ _ _ _ _ _ _ Ho Hl) as Ho'. rewrite <- Hx in Ho'.
    pose proof (Inv_heap m _ _ _ (ORelease l :: m_outputs m) Hi Ho' (fun wid k H => Hpc wid k H _)) as H.
    by destruct m.
Qed.

Lemma Inv_release_network x closeErr m m' err :
  s_networkLedger (m_session m) = Some x ->
  (forall wid k rest, m_workers m !! wid = Some k ->
     pc_ok (m_ledgers m) (m_session m) (wk_pc k) ->
     pc_ok (<[x := rest]> (m_ledgers m)) (m_session m) (wk_pc k)) ->
  Inv m -> release_step x closeErr m = Some (m', err) -> Inv m'.
Proof.
  intros Hx Hpc Hi (l & rest & Hl & Hm)%release_step_spec. destruct closeErr.
  - by destruct Hm as [-> _].
  - destruct Hm as [_ ->]. pose proof (inv_owned _ Hi) as Ho. rewrite Hx in Ho.
    pose proof (owned_pop_network _ _ _ _ _ _ _ Ho Hl) as Ho'. rewrite <- Hx in Ho'.
    assert (forall wid k, m_workers m !! wid = Some k ->
      pc_ok (<[x := rest]> (m_ledgers m)) (m_session m) (wk_pc k)) as Hpc'.
    { intros wid k Hk. apply (Hpc wid); [done|].
      by destruct (the_worker _ _ _ Hi Hk) as [_ []]. }
    pose proof (Inv_heap m _ _ _ (ORelease l :: m_outputs m) Hi Ho' Hpc') as H.
    by destruct m.
Qed.

(** ** Network preparation *)

Lemma index_profile_ok profiles i :
  (0 <= i < Z.of_nat (length profiles))%Z -> is_Some (index_profile profiles i).
Proof.
  intros Hi. unfold index_profile. destruct (i <? 0)%Z eqn:Hn; split_bools; [lia|].
  apply lookup_lt_is_Some. lia.
Qed.

Section pieces.
Context (m : manager) (wid : nat) (k : worker).
Hypothesis Hi : Inv m.
Hypothesis Hk : m_workers m !! wid = Some k.

Let Hw : m_workers m = {[wid := k]} := proj1 (the_worker m wid k Hi Hk).
Let Hr : running (m_ledgers m) (m_canceled m) (m_session m) k :=
  proj2 (the_worker m wid k Hi Hk).

Lemma worker_unique wid' k' : m_workers m !! wid' = Some k' -> wid' = wid /\ k' = k.
Proof using Hi Hk.
  rewrite Hw. intros [-> ->]%lookup_singleton_Some. done.
Qed.

(** Every pc whose [pc_ok] ignores the ledger heap. *)
Lemma heap_free_pc :
  (forall L, pc_ok L (m_session m) (wk_pc k)) ->
  forall wid' k', m_workers m !! wid' = Some k' ->
  forall L, pc_ok L (m_session m) (wk_pc k').
Proof using Hi Hk. intros H wid' k' [-> ->]%worker_unique. done. Qed.

Lemma Inv_prepareNetwork_begin :
  wk_pc k = PPrepare -> Inv (prepareNetwork_begin wid k m).
Proof using Hi Hk.
  intros Hpc. unfold prepareNetwork_begin. case_match eqn:Hv.
  { apply Inv_goto; try done. by rewrite Hpc. }
  pose proof Hr as []. destruct rn_targets as [Hne Htg].
  destruct (s_activeProfiles (m_session m)) as [|first rest] eqn:Hps; [done|].
  assert (exists p, (if bool_decide (t_Mode (s_activeTarget (m_session m)) = ProfileIndex)
    then index_profile (first :: rest) (t_Index (s_activeTarget (m_session m)))
    else Some first) = Some p) as [p ->].
  { case_bool_decide as Hm; [|by eexists]. destruct Htg as [?|[_ ?]]; [congruence|].
    by apply index_profile_ok. }
  apply Inv_goto; try done.
  - by apply Inv_emit.
  - by rewrite Hpc.
Qed.

Lemma Inv_prepareNetwork_tunnel ref profile work granted err :
  wk_pc k = PTunnel ref profile work ->
  Inv (prepareNetwork_tunnel wid k ref profile work granted err m).
Proof using Hi Hk.
  intros Hpc. unfold prepareNetwork_tunnel. pose proof Hr as []. rewrite Hpc in *. cbn in rn_pc. subst work.
  destruct rn_network as [x Hx]. rewrite Hx.
  assert (Inv (acquire PlatformLease granted (Some x) m)) as Hi'.
  { apply Inv_acquire_network; auto. apply heap_free_pc. intros L. by rewrite Hpc. }
  destruct (acquire_frame PlatformLease granted x m) as (Hfw & Hfs & Hfc).
  assert (m_workers (acquire PlatformLease granted (Some x) m) !! wid = Some k) as Hk' by (by rewrite Hfw).
  repeat case_match; apply Inv_goto; try done; try (by rewrite Hpc).
  - by apply Inv_emit.
  - cbn. by rewrite Hfs.
Qed.

Lemma Inv_prepareNetwork_runtime ref profile work granted err :
  wk_pc k = PNetwork ref profile work ->
  Inv (prepareNetwork_runtime wid k work granted err m).
Proof using Hi Hk.
  intros Hpc. unfold prepareNetwork_runtime. pose proof Hr as []. rewrite Hpc in *. cbn in rn_pc. subst work.
  destruct rn_network as [x Hx]. rewrite Hx.
  assert (Inv (acquire NetworkLease granted (Some x) m)) as Hi'.
  { apply Inv_acquire_network; auto. apply heap_free_pc. intros L. by rewrite Hpc. }
  destruct (acquire_frame NetworkLease granted x m) as (Hfw & Hfs & Hfc).
  assert (m_workers (acquire NetworkLease granted (Some x) m) !! wid = Some k) as Hk' by (by rewrite Hfw).
  repeat case_match; apply Inv_goto; try done; by rewrite Hpc.
Qed.

Lemma Inv_prepareNetwork_commit now :
  wk_pc k = PNetworkUp -> Inv (prepareNetwork_commit now wid k m).
Proof using Hi Hk.
  intros Hpc. unfold prepareNetwork_commit. set (m1 := on_session _ m).
  assert (Inv m1) as Hi1.
  { pose proof Hi as [? ? ? ? Ho _]. constructor; try done.
    eapply Running; [done|]. pose proof Hr as []. fields.
    - intros p Hp. destruct (rn_pending p Hp). by constructor.
    - intros Hin. destruct (rn_run Hin) as [c []]. exists c. by constructor.
    - by rewrite Hpc. }
  apply Inv_goto; try done.
  - by apply Inv_appendLocked.
  - by rewrite Hpc.
Qed.

Lemma Inv_prepareNetwork_check :
  wk_pc k = PNetworkCheck -> Inv (prepareNetwork_check wid k m).
Proof using Hi Hk.
  intros Hpc. unfold prepareNetwork_check. pose proof Hr as [].
  destruct rn_run as [c []]; [by rewrite Hpc|].
  case_match; apply Inv_goto; try done; try (by rewrite Hpc); rewrite Hpc in *; auto.
Qed.

Lemma Inv_runStart_profiles :
  wk_pc k = PProfiles -> Inv (runStart_profiles wid k m).
Proof using Hi Hk.
  intros Hpc. unfold runStart_profiles. pose proof Hr as []. destruct rn_targets as [Hne Htg].
  destruct rn_run as [c [? ? ? ? [Hmode Hidx] Hup]]; [by rewrite Hpc|].
  rewrite Hpc in Hup. specialize (Hup eq_refl).
  case_bool_decide as Hm.
  - assert (is_Some (index_profile (s_activeProfiles (m_session m)) (t_Index (wk_target k)))) as [p ->].
    { rewrite (Hidx Hm). destruct Htg as [?|[_ ?]]; [congruence|]. by apply index_profile_ok. }
    apply Inv_goto; try done. by rewrite Hpc.
  - apply Inv_goto; try done. by rewrite Hpc.
Qed.

(** ** The candidate loop *)

Lemma in_run_facts :
  in_run (wk_pc k) = true ->
  exists c, run_ok (m_canceled m) (m_session m) k c.
Proof using Hi Hk. exact (rn_run _ _ _ _ Hr). Qed.

Lemma not_stopping_facts :
  s_state (m_session m) <> StateStopping ->
  s_stopRequested (m_session m) = false /\ s_pending (m_session m) = None /\
  is_Some (s_cancel (m_session m)).
Proof using Hi Hk.
  intros Hs. destruct Hr. split_and!.
  - destruct (s_stopRequested (m_session m)); [|done]. by rewrite rn_stop in Hs.
  - destruct (s_pending (m_session m)) as [p|] eqn:Hp; [|done].
    by destruct (rn_pending p eq_refl).
  - by destruct rn_cancel.
Qed.

Lemma Inv_runStart_candidate index rest errs :
  wk_pc k = PCandidate index rest errs -> Inv (runStart_candidate wid k index rest errs m).
Proof using Hi Hk.
  intros Hpc. unfold runStart_candidate. pose proof Hr as [].
  destruct in_run_facts as [c []]; [by rewrite Hpc|]. rewrite Hpc in *. specialize (ro_vpn eq_refl).
  destruct rest as [|profile rest]; [by apply Inv_goto|].
  unfold prepareCandidate. destruct index as [|index].
  { destruct k as [g t ctx p]. cbn in *. apply Inv_goto; try done. by rewrite Hpc. }
  destruct (s_stopRequested (m_session m) || _) eqn:Hstop; [by apply Inv_goto|].
  apply orb_false_iff in Hstop as [Hsr Hce].
  pose proof (inv_owned _ Hi) as Ho. pose proof Hi as [].
  constructor; try done; cbn.
  - eapply owned_next; [done|lia].
  - eapply Running; [cbn; by rewrite Hw, insert_singleton_eq|]. constructor; try done; cbn.
    + intros p Hp. destruct (rn_pending p Hp). by constructor.
    + intros _. exists c. constructor; try done.
Qed.

Lemma Inv_advance now g state profile m' :
  network_up (wk_pc k) = true ->
  state = StateProbing \/ state = StatePreparing \/ state = StateConnected ->
  advance now g state profile m = Some m' ->
  Inv m' /\ m_workers m' = m_workers m /\ s_vpnActive (m_session m') = true.
Proof using Hi Hk.
  intros Hup Hstate. unfold advance. case_match eqn:Hg; [done|]. split_bools.
  intros [= <-]. pose proof Hr as [].
  destruct in_run_facts as [c []]; [by destruct (wk_pc k)|]. specialize (ro_vpn Hup).
  destruct not_stopping_facts as (Hsr & Hpd & Hcn); [done|].
  set (m1 := if _ : bool then _ else _).
  assert (Inv m1 /\ m_workers m1 = m_workers m /\ s_vpnActive (m_session m1) = true) as (Hi1 & Hw1 & Hv1).
  { unfold m1. clear m1. pose proof Hi as [? ? ? ? Ho _].
    case_match; (split; [|done]); constructor; try done.
    all: eapply Running; [done|]; constructor; try done; cbn; try congruence; auto.
    all: try (by destruct Hstate as [->|[->| ->]]).
    all: try (intros _; exists c; constructor; try done; cbn; intros Hx;
      by specialize (ro_canceled Hx)).
    all: destruct (wk_pc k); done. }
  split_and!; [by apply Inv_appendLocked|done|done].
Qed.

Lemma Inv_runStart_advance now index profile rest errs :
  wk_pc k = PAdvance index profile rest errs ->
  Inv (runStart_advance now wid k index profile rest errs m).
Proof using Hi Hk.
  intros Hpc. unfold runStart_advance.
  destruct (advance _ _ _ _ _) as [m'|] eqn:Ha; [|by apply Inv_goto].
  apply Inv_advance in Ha as (Hi' & Hw' & Hv'); [|by rewrite Hpc|case_bool_decide; auto].
  apply Inv_goto; [by apply Inv_emit| |by rewrite Hpc|done|done].
  change (m_workers m' !! wid = Some k). by rewrite Hw'.
Qed.

Lemma Inv_runStart_started index profile rest errs granted err :
  wk_pc k = PStarting index profile rest errs ->
  Inv (runStart_started wid k index profile rest errs granted err m).
Proof using Hi Hk.
  intros Hpc. unfold runStart_started.
  destruct in_run_facts as [c []]; [by rewrite Hpc|]. rewrite Hpc in *. specialize (ro_vpn eq_refl).
  destruct ro_ledger as [x Hx]. rewrite Hx.
  assert (Inv (acquire AttemptLease granted (Some x) m)) as Hi'.
  { apply Inv_acquire_attempt; auto. apply heap_free_pc. intros L. by rewrite Hpc. }
  destruct (acquire_frame AttemptLease granted x m) as (Hfw & Hfs & Hfc).
  revert Hi' Hfw Hfs. generalize (acquire AttemptLease granted (Some x) m). intros m1 Hi' Hfw Hfs.
  assert (m_workers m1 !! wid = Some k) as Hk' by (by rewrite Hfw).
  assert (forall p, network_up p = true -> s_vpnActive (m_session m1) = true) as Hup.
  { intros _ _. by rewrite Hfs. }
  set (err' := if _ : bool then _ else err).
  destruct err' as [e|]; [|destruct (ctx_err k m1)].
  all: try (apply Inv_goto; try done; [by rewrite Hpc|by eapply Hup]).
  all: case_bool_decide; apply Inv_goto; try done; try (by rewrite Hpc); by eapply Hup.
Qed.

Lemma cleanupContext_keeps now :
  Inv (cleanupContext now m) /\ m_workers (cleanupContext now m) = m_workers m /\
  m_ledgers (cleanupContext now m) = m_ledgers m /\
  exists b, m_session (cleanupContext now m) = m_session m <| s_cleanupBudget := b |>.
Proof using Hi.
  destruct (cleanupContext_heap now m). split_and!; try done.
  - by apply Inv_cleanupContext.
  - apply cleanupContext_session.
Qed.

Lemma Inv_runStart_cleanup now index rest errs invalid :
  wk_pc k = PCandidateCleanup index rest errs invalid ->
  Inv (runStart_cleanup now wid k index rest errs invalid m).
Proof using Hi Hk.
  intros Hpc. unfold runStart_cleanup.
  destruct in_run_facts as [c []]; [by rewrite Hpc|]. rewrite Hpc in *. specialize (ro_vpn eq_refl).
  destruct ro_ledger as [x Hx]. rewrite Hx.
  destruct (cleanupContext_keeps now) as (Hi' & Hfw & Hfl & b & Hs).
  apply Inv_goto; try done; rewrite ?Hfw, ?Hs; try done. by rewrite Hpc.
Qed.

Lemma Inv_candidate_release index rest errs invalid x closeErr m' err :
  wk_pc k = PCandidateRelease index rest errs invalid x ->
  release_step x closeErr m = Some (m', err) ->
  Inv m' /\ m_workers m' !! wid = Some k.
Proof using Hi Hk.
  intros Hpc Hrel. pose proof Hr as []. rewrite Hpc in rn_pc. cbn in rn_pc. split.
  - eapply Inv_release_attempt; try done. apply heap_free_pc. intros L. by rewrite Hpc.
  - apply release_step_spec in Hrel as (l & tl & _ & Hm). destruct closeErr.
    + by destruct Hm as [-> _].
    + by destruct Hm as [_ ->].
Qed.

Lemma Inv_runStart_next index rest errs invalid :
  wk_pc k = PCandidateDone index rest errs invalid ->
  Inv (runStart_next wid k index rest errs invalid m).
Proof using Hi Hk.
  intros Hpc. unfold runStart_next.
  destruct in_run_facts as [c []]; [by rewrite Hpc|]. rewrite Hpc in *.
  repeat case_match; apply Inv_goto; try done. by rewrite Hpc.
Qed.

Lemma Inv_runStart_connect now profile :
  wk_pc k = PConnect profile -> Inv (runStart_connect now wid k profile m).
Proof using Hi Hk.
  intros Hpc. unfold runStart_connect.
  destruct (advance _ _ _ _ _) as [m'|] eqn:Ha; [|by apply Inv_goto].
  apply Inv_advance in Ha as (Hi' & Hw' & Hv'); [|by rewrite Hpc|auto].
  apply Inv_goto; try done; [by rewrite Hw'|by rewrite Hpc].
Qed.

Lemma reportHealthFailure_workers now g cause :
  m_workers (reportHealthFailure now g cause m) = m_workers m.
Proof.
  unfold reportHealthFailure. case_match; [done|].
  match goal with |- m_workers (cancel_if_set ?x) = _ => 
    destruct (frame_cancel_if_set x) as [_ -> _ _ _ _ _ _ _ _ _ _ _ _ _ _ _] end. done.
Qed.

Lemma Inv_waitForAttemptEnd now fo r m' :
  wk_pc k = PWait fo -> waitForAttemptEnd now wid k fo r m = Some m' -> Inv m'.
Proof using Hi Hk.
  intros Hpc. unfold waitForAttemptEnd.
  destruct in_run_facts as [c []]; [by rewrite Hpc|]. rewrite Hpc in *. specialize (ro_vpn eq_refl).
  repeat case_match; intros; simplify_eq; try done.
  all: apply Inv_goto; try done; try (by rewrite Hpc).
  - by apply Inv_reportHealthFailure.
  - by rewrite reportHealthFailure_workers.
Qed.

(** ** [finish] *)

Lemma Inv_finish_begin cause :
  wk_pc k = PFinish cause -> Inv (finish_begin wid k cause m).
Proof using Hi Hk.
  intros Hpc. unfold finish_begin. pose proof Hr as []. rewrite rn_generation, rn_active.
  rewrite Z.eqb_refl. cbn. by apply Inv_goto.
Qed.

Lemma Inv_retire_begin now cause work :
  wk_pc k = PRetire cause work -> Inv (retire_begin now wid k cause work m).
Proof using Hi Hk.
  intros Hpc. unfold retire_begin. pose proof Hr as []. rewrite Hpc in rn_pc. cbn in rn_pc.
  destruct work as [x|].
  - case_bool_decide as Hc; [apply Inv_goto; try done; by intros ?|].
    destruct (cleanupContext_keeps now) as (Hi' & Hfw & Hfl & b & Hs).
    apply Inv_goto; try done; rewrite ?Hfw, ?Hs; done.
  - apply Inv_goto; try done. cbn. by rewrite <- rn_pc.
Qed.

Lemma Inv_release_work cause x closeErr m' err :
  wk_pc k = PReleaseWork cause x -> release_step x closeErr m = Some (m', err) ->
  Inv m' /\ m_workers m' !! wid = Some k.
Proof using Hi Hk.
  intros Hpc Hrel. pose proof Hr as []. rewrite Hpc in rn_pc. destruct rn_pc as [Hx Hc]. split.
  - eapply Inv_release_attempt; try done. apply heap_free_pc. intros L. by rewrite Hpc.
  - apply release_step_spec in Hrel as (l & tl & _ & Hm). destruct closeErr.
    + by destruct Hm as [-> _].
    + by destruct Hm as [_ ->].
Qed.

Lemma ledger_empty_spec x :
  ledger_empty x m = true -> ledger_of (m_ledgers m) (Some x) = [].
Proof using. unfold ledger_empty. cbn. by destruct (m_ledgers m !! x) as [[|]|]. Qed.

Lemma Inv_work_released cause x :
  wk_pc k = PReleaseWork cause x -> ledger_empty x m = true ->
  Inv (goto wid k (PNetworkDecide cause None) m).
Proof using Hi Hk.
  intros Hpc He%ledger_empty_spec. pose proof Hr as []. rewrite Hpc in rn_pc.
  destruct rn_pc as [Hx Hc]. apply Inv_goto; try done. cbn. by rewrite Hx.
Qed.

Lemma Inv_retire_network cause cleanupErr :
  wk_pc k = PNetworkDecide cause cleanupErr -> Inv (retire_network wid k cause cleanupErr m).
Proof using Hi Hk.
  intros Hpc. unfold retire_network. pose proof Hr as []. rewrite Hpc in rn_pc. cbn in rn_pc.
  destruct rn_network as [x Hx]. rewrite Hx.
  set (rel := s_stopRequested (m_session m) || _ || _).
  assert (if rel then releasing_network (m_session m) else s_vpnActive (m_session m) = true) as Hrel.
  { destruct rel eqn:Hd.
    - assert (s_stopRequested (m_session m) = true \/ s_vpnActive (m_session m) = false) as Hs.
      { unfold rel in Hd. destruct (s_vpnActive (m_session m)); [left|by right].
        rewrite orb_false_r in Hd. apply orb_true_iff in Hd as [?|?]; [done|].
        by apply (inv_closing _ Hi). }
      split; [|done]. destruct (s_pending (m_session m)) as [p|] eqn:Hp; [|done].
      destruct (rn_pending p eq_refl). destruct Hs; congruence.
    - unfold rel in Hd. by split_bools. }
  clearbody rel. destruct cleanupErr as [e|]; cbn.
  { by apply Inv_goto. }
  case_bool_decide as Hc; cbn.
  { by apply Inv_goto. }
  destruct rel; apply Inv_goto; try done; cbn; [by split_and!; auto|].
  split; [|done]. intros _ _. by split; auto.
Qed.

Lemma Inv_release_network_begin now cause x :
  wk_pc k = PReleaseNetworkBegin cause x ->
  Inv (goto wid k (PReleaseNetwork cause x) (cleanupContext now m)).
Proof using Hi Hk.
  intros Hpc. pose proof Hr as []. rewrite Hpc in rn_pc.
  destruct (cleanupContext_keeps now) as (Hi' & Hfw & Hfl & b & Hs).
  apply Inv_goto; try done; rewrite ?Hfw, ?Hs, ?Hfl; done.
Qed.

Lemma attempt_not_network x :
  s_networkLedger (m_session m) = Some x -> s_ledger (m_session m) <> Some x.
Proof using Hi.
  intros Hx Ha. destruct (inv_owned _ Hi). by destruct own_distinct; rewrite Ha.
Qed.

Lemma Inv_network_release cause x closeErr m' err :
  wk_pc k = PReleaseNetwork cause x -> release_step x closeErr m = Some (m', err) ->
  Inv m' /\ m_workers m' !! wid = Some k.
Proof using Hi Hk.
  intros Hpc Hrel. pose proof Hr as []. rewrite Hpc in rn_pc. destruct rn_pc as (Hx & Hc & Hl & Hrn). split.
  - eapply Inv_release_network; try done. intros wid' k' rest [-> ->]%worker_unique.
    rewrite Hpc. cbn. rewrite ledger_of_insert_ne; [done|]. by apply attempt_not_network.
  - apply release_step_spec in Hrel as (l & tl & _ & Hm). destruct closeErr.
    + by destruct Hm as [-> _].
    + by destruct Hm as [_ ->].
Qed.

Lemma Inv_network_released cause x :
  wk_pc k = PReleaseNetwork cause x -> ledger_empty x m = true ->
  Inv (goto wid k (PCommit cause true None) m).
Proof using Hi Hk.
  intros Hpc He%ledger_empty_spec. pose proof Hr as []. rewrite Hpc in rn_pc.
  destruct rn_pc as (Hx & Hc & Hl & Hrn). apply Inv_goto; try done. cbn.
  split; [|done]. intros _ _. by rewrite Hx.
Qed.

Lemma Inv_network_release_failed cause x e :
  wk_pc k = PReleaseNetwork cause x ->
  Inv (goto wid k (PCommit cause true (Some e)) m).
Proof using Hi Hk.
  intros Hpc. pose proof Hr as []. rewrite Hpc in rn_pc.
  destruct rn_pc as (Hx & Hc & Hl & Hrn). apply Inv_goto; try done.
Qed.

(** ** The last section of [finish] *)

Lemma stopped_workers : m_workers (stop_worker wid m) = ∅.
Proof using Hi Hk. cbn. rewrite Hw. apply delete_singleton_eq. Qed.

Lemma Inv_finish_failed now cause cleanupErr :
  Inv (finish_failed now cause cleanupErr
         (on_session (fun s => s <| s_cancel := None |> <| s_cleanupFailed := true |>)
            (stop_worker wid m))).
Proof using Hi Hk.
  pose proof stopped_workers as Hw0. pose proof Hr as [].
  unfold finish_failed. apply Inv_appendLocked. pose proof Hi as [? ? ? ? Ho _].
  constructor; try done. apply Blocked; [exact Hw0|]. by constructor.
Qed.

Lemma finish_released cause rel :
  wk_pc k = PCommit cause rel None -> CodeOf cause <> FailureCleanup ->
  released k rel (finish_release rel
    (on_session (fun s => s <| s_cancel := None |> <| s_cleanupFailed := false |>)
       (stop_worker wid m))).
Proof using Hi Hk.
  intros Hpc Hc. pose proof stopped_workers as Hw0. pose proof Hr as []. rewrite Hpc in rn_pc.
  destruct rn_pc as [Hl Hn]. destruct (Hl eq_refl Hc) as [Ha Hnet].
  pose proof Hi as [? ? ? ? Ho _]. apply owned_drop_attempt in Ho; [|done].
  unfold finish_release. destruct rel; constructor; try done; cbn.
  - eapply owned_drop_network; eauto.
  - intros p Hp. by destruct (rn_pending p Hp).
  - by destruct Hn.
  - intros p Hp. by destruct (rn_pending p Hp).
Qed.
End pieces.

Lemma settle_budget m : exists f, budget_finish m = m <| m_budgets ::= f |>.
Proof. unfold budget_finish. case_match; [by eexists|]. exists id. by destruct m. Qed.

Section settle.
Context (m : manager) (k : worker) (rel : bool).
Hypothesis Hm : released k rel m.

Lemma Inv_finish_again :
  rel = false -> s_stopRequested (m_session m) = true ->
  Inv (spawn_finish (wk_generation k)
         (on_session (fun s => s <| s_state := StateStopping |>) m)).
Proof using Hm.
  intros -> Hs. pose proof Hm as []. destruct re_network. constructor; try done.
  - cbn. rewrite re_ledger. eapply owned_next; [done|lia].
  - eapply Running; [cbn; by rewrite re_workers|]. constructor; try done; cbn.
    + by left.
    + congruence.
    + intros p Hp. destruct (re_pending p Hp). congruence.
Qed.

Lemma budget_finish_released : released k rel (budget_finish m).
Proof using Hm.
  destruct (settle_budget m) as [f ->]. pose proof Hm as []. by constructor.
Qed.
End settle.

Lemma Inv_finish_idle now k m :
  released k true m ->
  Inv (finish_idle now (on_session (fun s => s <| s_cleanupDone := negb (s_vpnActive s) |>) m)).
Proof.
  intros []. destruct re_network as (Hn & Hv & Hp). unfold finish_idle. apply Inv_appendLocked.
  constructor; try done; cbn.
  - by rewrite re_ledger.
  - apply Resting; [done|by fields].
Qed.

Lemma Inv_finish_restart now k m :
  released k false m -> s_closing (m_session m) = false ->
  Inv (finish_restart now (on_session (fun s => s <| s_cleanupDone := negb (s_vpnActive s) |>) m)).
Proof.
  intros [] Hc. destruct re_network as (Hn & Hv). unfold finish_restart. cbn.
  destruct (s_pending (m_session m)) as [p|] eqn:Hp.
  - destruct (re_pending p eq_refl) as (Hs & Hne & Ht).
    destruct (p_profiles p) as [|first rest] eqn:Hps; [done|]. cbn.
    apply Inv_begin_attempt; [|done]. by constructor.
  - destruct re_targets. apply Inv_begin_attempt; [|done]. by constructor.
Qed.

Lemma Inv_finishProtectedFailure now cause k rel m :
  released k rel m -> (rel = false -> s_pending (m_session m) = None) ->
  Inv (finishProtectedFailureLocked now cause
         (on_session (fun s => s <| s_cleanupDone := negb (s_vpnActive s) |>) m)).
Proof.
  intros [] Hpd. unfold finishProtectedFailureLocked.
  set (cm := if _ : bool then _ else _). destruct cm as [code msg].
  apply Inv_appendLocked. constructor; try done; cbn.
  - by rewrite re_ledger.
  - destruct rel.
    + destruct re_network as (Hn & Hv & Hp). apply Resting; [done|by fields].
    + destruct re_network as (Hn & Hv). apply Dormant; [done|]. fields; auto.
Qed.

(** [finish_settle] after everything that had to be released was. *)
Lemma Inv_finish_settle now cause k rel m :
  released k rel m -> (rel = false -> s_stopRequested (m_session m) = false) ->
  Inv (finish_settle now cause m).
Proof.
  intros Hm Hs. unfold finish_settle.
  assert (released k rel (budget_finish m)) as Hm' by by apply budget_finish_released.
  assert (s_stopRequested (m_session (budget_finish m)) = s_stopRequested (m_session m)) as Hst.
  { by destruct (settle_budget m) as [f ->]. }
  rewrite <- Hst in Hs. revert Hm' Hs. generalize (budget_finish m). clear. intros m Hm Hs.
  cbv zeta. set (m' := on_session _ m).
  change (s_stopRequested (m_session m')) with (s_stopRequested (m_session m)).
  change (s_closing (m_session m')) with (s_closing (m_session m)).
  change (s_vpnActive (m_session m')) with (s_vpnActive (m_session m)).
  change (s_pending (m_session m')) with (s_pending (m_session m)).
  destruct (s_stopRequested (m_session m) || s_closing (m_session m)) eqn:Hsc.
  - destruct rel; [by eapply Inv_finish_idle|]. pose proof (re_closing _ _ _ Hm) as Hcl.
    rewrite (Hs eq_refl) in Hsc, Hcl. cbn in Hsc. by specialize (Hcl Hsc).
  - split_bools. destruct (_ && _) eqn:Hgo.
    + destruct rel.
      { destruct (re_network _ _ _ Hm) as (_ & Hv & _). by rewrite Hv in Hgo. }
      by eapply Inv_finish_restart.
    + eapply Inv_finishProtectedFailure; [done|]. intros ->.
      destruct (re_network _ _ _ Hm) as (_ & Hv). rewrite Hv in Hgo. cbn in Hgo. split_bools.
      by destruct (s_pending (m_session m)).
Qed.

Lemma Inv_finish_commit now wid k cause rel cleanupErr m :
  Inv m -> m_workers m !! wid = Some k -> wk_pc k = PCommit cause rel cleanupErr ->
  Inv (finish_commit now wid k cause rel cleanupErr m).
Proof.
  intros Hi Hk Hpc. unfold finish_commit.
  destruct (the_worker _ _ _ Hi Hk) as [Hw Hr].
  replace (s_generation (m_session (stop_worker wid m)) =? wk_generation k)%Z with true.
  2: { destruct Hr. symmetry. apply Z.eqb_eq. done. }
  cbn [negb]. destruct (is_Some_b cleanupErr || _) eqn:Hf.
  { by eapply Inv_finish_failed. }
  split_bools. destruct cleanupErr; [done|].
  pose proof (finish_released m wid k Hi Hk cause rel Hpc) as Hm. specialize (Hm ltac:(done)).
  revert Hm. generalize (finish_release rel (on_session
    (fun s => s <| s_cancel := None |> <| s_cleanupFailed := false |>) (stop_worker wid m))).
  clear. intros m Hm. cbv zeta. destruct (negb rel && _) eqn:Hg.
  - split_bools. eapply Inv_finish_again; [done|done|].
    match goal with H : _ || _ = true |- _ => apply orb_true_iff in H as [?|?] end; [done|].
    by apply (re_closing _ _ _ Hm).
  - eapply Inv_finish_settle; [done|]. intros ->. cbn in Hg. by split_bools.
Qed.

(** ** Preservation by the machine *)

Lemma Inv_worker_step now wid k r m m' :
  Inv m -> m_workers m !! wid = Some k -> worker_step now wid k r m = Some m' -> Inv m'.
Proof.
  intros Hi Hk. unfold worker_step.
  destruct (wk_pc k) eqn:Hpc; intros Hs;
    lazymatch type of Hs with
    | waitForAttemptEnd _ _ _ _ _ _ = _ => idtac
    | _ => destruct r; try discriminate Hs; try injection Hs as <-
    end.
  - by apply Inv_prepareNetwork_begin.
  - by eapply Inv_prepareNetwork_tunnel.
  - by eapply Inv_prepareNetwork_runtime.
  - by apply Inv_prepareNetwork_commit.
  - by apply Inv_prepareNetwork_check.
  - by apply Inv_runStart_profiles.
  - by apply Inv_runStart_candidate.
  - by apply Inv_runStart_advance.
  - by apply Inv_runStart_started.
  - by apply Inv_runStart_cleanup.
  - destruct (ledger_empty work m); [|done]. injection Hs as <-.
    destruct (in_run_facts m wid k Hi Hk) as [c []]; [by rewrite Hpc|].
    apply Inv_goto; try done; [by rewrite Hpc|]. intros _. apply ro_vpn. by rewrite Hpc.
  - destruct (release_step work err m) as [[m1 [e|]]|] eqn:Hrel; try discriminate Hs; injection Hs as <-.
    + destruct (Inv_candidate_release _ _ _ Hi Hk _ _ _ _ _ _ _ _ Hpc Hrel) as [Hi1 Hk1].
      by apply Inv_goto.
    + by destruct (Inv_candidate_release _ _ _ Hi Hk _ _ _ _ _ _ _ _ Hpc Hrel).
  - by apply Inv_runStart_next.
  - by apply Inv_runStart_connect.
  - by eapply Inv_waitForAttemptEnd.
  - by apply Inv_finish_begin.
  - by apply Inv_retire_begin.
  - destruct (ledger_empty work m) eqn:He; [|done]. injection Hs as <-. by eapply Inv_work_released.
  - destruct (release_step work err m) as [[m1 [e|]]|] eqn:Hrel; try discriminate Hs; injection Hs as <-.
    + destruct (Inv_release_work _ _ _ Hi Hk _ _ _ _ _ Hpc Hrel) as [Hi1 Hk1].
      by apply Inv_goto.
    + by destruct (Inv_release_work _ _ _ Hi Hk _ _ _ _ _ Hpc Hrel).
  - by apply Inv_retire_network.
  - by apply Inv_release_network_begin.
  - destruct (ledger_empty network m) eqn:He; [|done]. injection Hs as <-.
    by eapply Inv_network_released.
  - destruct (release_step network err m) as [[m1 [e|]]|] eqn:Hrel; try discriminate Hs; injection Hs as <-.
    + destruct err; [|by apply release_step_spec in Hrel as (? & ? & _ & ? & _)].
      apply release_step_spec in Hrel as (? & ? & _ & -> & _).
      by eapply Inv_network_release_failed.
    + by destruct (Inv_network_release _ _ _ Hi Hk _ _ _ _ _ Hpc Hrel).
  - by apply Inv_finish_commit.
Qed.

Section machine.
Context `{ConfigParser}.

Lemma Inv_step now ev m m' : Inv m -> step now ev m = Some m' -> Inv m'.
Proof.
  intros Hi. unfold step. destruct (m_panic m); [done|]. destruct ev.
  - intros [= <-]. by apply Inv_Configure_begin.
  - case_match; [|done]. intros [= <-]. by apply Inv_inflight.
  - case_match; [|done]. destruct (parseConfig (lc_Raw loaded)) as [parsed|err] eqn:Hp.
    + intros [= <-]. apply Inv_Configure_accept; [by eapply parseConfig_profiles|by apply Inv_inflight].
    + intros [= <-]. by apply Inv_inflight.
  - intros [= <-]. by apply Inv_Start_locked.
  - intros [= <-]. by apply Inv_Stop.
  - intros [= <-]. by apply Inv_StopAndWait_begin.
  - intros [= <-]. by apply Inv_cleanupContext.
  - intros [= <-]. by apply Inv_Resume.
  - intros [= <-]. by apply Inv_AttachSourceStore_install.
  - intros [= <-]. by apply Inv_AttachSourceStore_loaded.
  - destruct (m_workers m !! wid) as [k|] eqn:Hk; [|done]. by apply Inv_worker_step.
Qed.

Lemma Inv_run evs m m' : Inv m -> run evs m = Some m' -> Inv m'.
Proof.
  revert m. induction evs as [|[now ev] evs IH]; intros m Hi Hr; cbn in Hr.
  - by injection Hr as <-.
  - destruct (step now ev m) as [m1|] eqn:Hs; [|done]. eapply IH; [|done]. by eapply Inv_step.
Qed.

Lemma reachable_Inv m : reachable m -> Inv m.
Proof.
  intros (id & ie & nr & store & saved & evs & Hr). eapply Inv_run; [|exact Hr].
  apply Inv_NewManager.
Qed.

Lemma run_app evs evs' m m1 :
  run evs m = Some m1 -> run (evs ++ evs') m = run evs' m1.
Proof.
  revert m. induction evs as [|[now ev] evs IH]; intros m Hr; cbn in *; [by injection Hr as ->|].
  destruct (step now ev m); [by apply IH|done].
Qed.

Lemma reachable_run m evs m' : reachable m -> run evs m = Some m' -> reachable m'.
Proof.
  intros (id & ie & nr & store & saved & evs0 & Hr) Hr'. exists id, ie, nr, store, saved, (evs0 ++ evs).
  by rewrite (run_app _ _ _ _ Hr).
Qed.
End machine.
