(* ===== verification/Effects.v ===== *)
(** * What the operations of the manager emit and fence

    [quiet m m'] says that an operation grants and releases nothing, only
    announces, and keeps the event sequence in step with the published
    changes; [fenced m m'] that it keeps the closing fence and the two
    generations.  Every operation is composed of primitives that satisfy
    them. *)

From S2P Require Import Prelude Errors Values Session Activation Manager Worker Ownership Invariant InvariantApi InvariantWorker.

Definition is_publish (o : output) : bool :=
  match o with OPublish _ => true | _ => false end.

Definition publishes (outs : list output) : nat := length (List.filter is_publish outs).

(** [PublishState] and [RetainPolicy]; everything else touches a resource. *)
Definition announcement (o : output) : bool :=
  match o with OPublish _ | OPolicy _ _ => true | _ => false end.

(** The event sequence and the [changed] epoch count the published changes. *)
Definition counted (m : manager) : Prop :=
  s_sequence (m_session m) = u64 (1 + Z.of_nat (publishes (m_outputs m))) /\
  s_changed (m_session m) = publishes (m_outputs m).

Definition emits (kind : output -> bool) (m m' : manager) : Prop :=
  exists outs, m_outputs m' = outs ++ m_outputs m /\ forallb kind outs = true.

Record quiet (m m' : manager) : Prop := mkQuiet {
  qu_live : m_live m' = m_live m;
  qu_outputs : emits announcement m m';
  qu_counted : counted m -> counted m'
}.

Record fenced (m m' : manager) : Prop := mkFenced {
  fe_closing : s_closing (m_session m') = s_closing (m_session m);
  fe_generation : s_generation (m_session m') = s_generation (m_session m);
  fe_network : s_networkGeneration (m_session m') = s_networkGeneration (m_session m)
}.

(** What a step may ask of its environment: the network is prepared only while
    no protection is active, the runtime is started only behind an active one
    and for the current generation, and a network lease is released only after
    every attempt lease, when a stop was requested or nothing is protected. *)
Definition allowed (m m' : manager) (o : output) : Prop :=
  match o with
  | OPublish _ | OPolicy _ _ => True
  | OPrepareTunnel ref =>
      s_vpnActive (m_session m) = false /\
      ref = mkSessionRef (s_id (m_session m)) (s_networkGeneration (m_session m))
  | OPrepareNetwork ref => True
  | ORuntimeStart ref profile =>
      s_vpnActive (m_session m') = true /\ s_stopRequested (m_session m') = false /\
      ref = mkSessionRef (s_id (m_session m')) (s_generation (m_session m'))
  | ORelease l =>
      (l ∈ m_live m) /\ (l ∉ m_live m') /\
      (l_kind l <> AttemptLease ->
       Forall (fun x => l_kind x <> AttemptLease) (m_live m) /\
       (s_stopRequested (m_session m) = true \/ s_vpnActive (m_session m) = false))
  end.

(** The new outputs of a step, what they ask for and what becomes live. *)
Record effects (m m' : manager) (outs : list output) : Prop := mkEffects {
  ef_outputs : m_outputs m' = outs ++ m_outputs m;
  ef_allowed : Forall (allowed m m') outs;
  ef_live : m_live m' = m_live m \/ (exists l, m_live m' = l :: m_live m) \/
            (exists l, In (ORelease l) outs /\ m_live m' = drop_lease l (m_live m));
  ef_counted : counted m -> counted m'
}.

(** ** Both are preorders *)

Lemma emits_refl kind m : emits kind m m.
Proof. by exists []. Qed.

Lemma emits_trans kind m1 m2 m3 : emits kind m1 m2 -> emits kind m2 m3 -> emits kind m1 m3.
Proof.
  intros (o1 & H1 & F1) (o2 & H2 & F2). exists (o2 ++ o1).
  rewrite H2, H1, app_assoc, forallb_app, F1, F2. done.
Qed.

#[export] Instance quiet_preorder : PreOrder quiet.
Proof.
  split.
  - intros m. constructor; [done|apply emits_refl|done].
  - intros m1 m2 m3 [L1 O1 C1] [L2 O2 C2].
    constructor; [congruence|by eapply emits_trans|auto].
Qed.

#[export] Instance fenced_preorder : PreOrder fenced.
Proof.
  split.
  - by constructor.
  - intros m1 m2 m3 [] []. constructor; congruence.
Qed.

(** ** The primitives *)

Lemma quiet_same m m' :
  m_live m' = m_live m -> m_outputs m' = m_outputs m ->
  s_sequence (m_session m') = s_sequence (m_session m) ->
  s_changed (m_session m') = s_changed (m_session m) -> quiet m m'.
Proof.
  intros Hl Ho Hs Hc. constructor; [done|by exists []|].
  unfold counted. by rewrite Ho, Hs, Hc.
Qed.

Lemma quiet_appendLocked now m : quiet m (appendLocked now m).
Proof.
  constructor; [done|by eexists [_]|]. unfold counted, publishes. cbn. intros [-> ->].
  split; [|done]. rewrite u64_add_u64. f_equal. lia.
Qed.

Lemma quiet_emit o m : is_publish o = false -> announcement o = true -> quiet m (emit o m).
Proof.
  intros Hp Ha. constructor; [done| |].
  - exists [o]. cbn. by rewrite Ha.
  - unfold counted, publishes. cbn. by rewrite Hp.
Qed.

Lemma quiet_retainPolicy d ps m : quiet m (retainPolicy d ps m).
Proof. destruct ps; [by apply quiet_same|by apply quiet_emit]. Qed.

Lemma quiet_on_session f m :
  (forall s, s_sequence (f s) = s_sequence s /\ s_changed (f s) = s_changed s) ->
  quiet m (on_session f m).
Proof. intros Hf. destruct (Hf (m_session m)). by apply quiet_same. Qed.

Lemma quiet_alloc_budget m : quiet m (alloc_budget m).
Proof. by apply quiet_same. Qed.

Lemma quiet_alloc_ledger m : quiet m (alloc_ledger m).
Proof. by apply quiet_same. Qed.

Lemma quiet_alloc_networkLedger m : quiet m (alloc_networkLedger m).
Proof. by apply quiet_same. Qed.

Lemma quiet_alloc_context m : quiet m (alloc_context m).
Proof. by apply quiet_same. Qed.

Lemma quiet_call_cancel m : quiet m (call_cancel m).
Proof. unfold call_cancel. case_match; by apply quiet_same. Qed.

Lemma quiet_cancel_if_set m : quiet m (cancel_if_set m).
Proof. unfold cancel_if_set. case_match; by apply quiet_same. Qed.

Lemma quiet_budget_begin now m : quiet m (budget_begin now m).
Proof. unfold budget_begin. case_match; by apply quiet_same. Qed.

Lemma quiet_budget_finish m : quiet m (budget_finish m).
Proof. unfold budget_finish. case_match; by apply quiet_same. Qed.

Lemma quiet_spawn k m : quiet m (spawn k m).
Proof. by apply quiet_same. Qed.

Lemma quiet_spawn_runStart t m : quiet m (spawn_runStart t m).
Proof. by apply quiet_same. Qed.

Lemma quiet_spawn_finish g m : quiet m (spawn_finish g m).
Proof. by apply quiet_same. Qed.

Lemma quiet_goto wid k p m : quiet m (goto wid k p m).
Proof. by apply quiet_same. Qed.

Lemma quiet_stop_worker wid m : quiet m (stop_worker wid m).
Proof. by apply quiet_same. Qed.

Lemma quiet_panic m : quiet m (panic m).
Proof. by apply quiet_same. Qed.

(** Chain of primitives: strip the outermost one. *)
Ltac quiet_step :=
  match goal with
  | |- quiet ?m ?m => reflexivity
  | |- quiet _ (appendLocked _ _) => etrans; [|apply quiet_appendLocked]
  | |- quiet _ (retainPolicy _ _ _) => etrans; [|apply quiet_retainPolicy]
  | |- quiet _ (on_session _ _) => etrans; [|by apply quiet_on_session]
  | |- quiet _ (alloc_budget _) => etrans; [|apply quiet_alloc_budget]
  | |- quiet _ (alloc_ledger _) => etrans; [|apply quiet_alloc_ledger]
  | |- quiet _ (alloc_networkLedger _) => etrans; [|apply quiet_alloc_networkLedger]
  | |- quiet _ (alloc_context _) => etrans; [|apply quiet_alloc_context]
  | |- quiet _ (call_cancel _) => etrans; [|apply quiet_call_cancel]
  | |- quiet _ (cancel_if_set _) => etrans; [|apply quiet_cancel_if_set]
  | |- quiet _ (budget_begin _ _) => etrans; [|apply quiet_budget_begin]
  | |- quiet _ (budget_finish _) => etrans; [|apply quiet_budget_finish]
  | |- quiet _ (spawn _ _) => etrans; [|apply quiet_spawn]
  | |- quiet _ (spawn_runStart _ _) => etrans; [|apply quiet_spawn_runStart]
  | |- quiet _ (spawn_finish _ _) => etrans; [|apply quiet_spawn_finish]
  | |- quiet _ (goto _ _ _ _) => etrans; [|apply quiet_goto]
  | |- quiet _ (stop_worker _ _) => etrans; [|apply quiet_stop_worker]
  | |- quiet _ (panic _) => etrans; [|apply quiet_panic]
  end.

Lemma quiet_cleanupContext now m : quiet m (cleanupContext now m).
Proof. unfold cleanupContext. case_match; repeat quiet_step. Qed.

Lemma quiet_beginAttemptLocked now t m : quiet m (beginAttemptLocked now t m).
Proof. unfold beginAttemptLocked. cbv zeta. repeat quiet_step. Qed.

(** ** The operations of the session API *)

Lemma quiet_Configure_begin ctxErr seq m : quiet m (Configure_begin ctxErr seq m).1.
Proof. unfold Configure_begin. case_match; [done|]. by apply quiet_same. Qed.

Lemma quiet_store t m : quiet m (m <| m_sourceStore := t |>).
Proof. by apply quiet_same. Qed.

Lemma saveSource_store loaded io m : exists t, (saveSource loaded io m).1 = m <| m_sourceStore := t |>.
Proof. unfold saveSource. destruct m, m_sourceStore; simpl; repeat case_match; simpl; eauto. Qed.

Lemma stopActivationLocked_store loadErr io m :
  exists t, (stopActivationLocked loadErr io m).1 = m <| m_sourceStore := t |>.
Proof.
  unfold stopActivationLocked. destruct m, m_sourceStore; simpl; repeat case_match; simpl; eauto.
Qed.

(** What [Configure] writes into the session once it accepted. *)
Lemma quiet_Configure_accept now ctxErr request loaded parsed io m :
  quiet m (Configure_accept now ctxErr request loaded parsed io m).1.
Proof.
  unfold Configure_accept. case_match; [done|].
  destruct (saveSource_store loaded io m) as [t Ht].
  destruct (saveSource loaded io m) as [m1 err]. cbn [fst] in Ht. subst m1.
  transitivity (m <| m_sourceStore := t |>); [apply quiet_store|].
  generalize (m <| m_sourceStore := t |>). intros m1. destruct err; [done|].
  cbv zeta. cbn [fst]. quiet_step.
  set (m2 := if _ : bool then on_session _ _ else _). transitivity m2.
  - unfold m2. case_match; repeat quiet_step.
  - case_match; repeat quiet_step.
Qed.

Lemma quiet_retryLocked now t sup m : quiet m (retryLocked now t sup m).1.
Proof.
  unfold retryLocked. case_match; [done|]. cbv zeta. cbn [fst]. repeat quiet_step.
  etrans; [|apply quiet_beginAttemptLocked]. repeat quiet_step.
Qed.

Lemma quiet_replaceLocked now io t m : quiet m (replaceLocked now io t m).1.
Proof.
  unfold replaceLocked. case_match; [done|].
  destruct (saveActivationLocked_store io t m) as [st Hst].
  destruct (saveActivationLocked io t m) as [m1 err]. cbn [fst] in Hst. subst m1.
  transitivity (m <| m_sourceStore := st |>); [apply quiet_store|].
  destruct err; [done|]. cbv zeta. cbn [fst]. repeat quiet_step.
Qed.

Lemma quiet_Start_locked now io seq t sup m : quiet m (Start_locked now io seq t sup m).1.
Proof.
  unfold Start_locked. case_match; [done|]. case_match; [done|].
  case_match; [apply quiet_retryLocked|]. destruct (validateStartTarget _ _); [done|].
  case_match; [apply quiet_replaceLocked|].
  destruct (saveActivationLocked_store io t m) as [st Hst].
  destruct (saveActivationLocked io t m) as [m1 err]. cbn [fst] in Hst. subst m1.
  transitivity (m <| m_sourceStore := st |>); [apply quiet_store|].
  destruct err; [done|]. cbv zeta. cbn [fst]. repeat quiet_step.
Qed.

Lemma quiet_stop_requested now m : quiet m (stop_requested now m).
Proof. unfold stop_requested. cbv zeta. case_match; repeat quiet_step. Qed.

Lemma quiet_stop_retained now g r m : quiet m (stop_retained now g r m).
Proof. unfold stop_retained. cbv zeta. destruct r; repeat quiet_step. Qed.

Lemma quiet_stop_attempt now m : quiet m (stop_attempt now m).
Proof.
  unfold stop_attempt. set (m1 := if _ : bool then on_session _ m else m).
  transitivity m1; [unfold m1; case_match; repeat quiet_step|].
  cbv zeta. case_match; repeat quiet_step.
Qed.

Lemma quiet_acknowledge now g m : quiet m (acknowledgeStoppedLocked now g m).1.1.
Proof. unfold acknowledgeStoppedLocked. repeat case_match; cbn [fst]; repeat quiet_step. Qed.

(** The three outcomes of [Stop], as one function of the prepared manager. *)
Lemma quiet_Stop now loadErr io g m : quiet m (Stop now loadErr io g m).1.1.
Proof.
  unfold Stop. case_match; [done|].
  destruct (stopActivationLocked_store loadErr io m) as [st Hst].
  destruct (stopActivationLocked loadErr io m) as [m1 err]. cbn [fst] in Hst. subst m1.
  transitivity (m <| m_sourceStore := st |>); [apply quiet_store|].
  generalize (m <| m_sourceStore := st |>). intros m2. cbv zeta.
  etrans; [apply (quiet_stop_requested now)|]. generalize (s_generation (m_session m2)).
  generalize (stop_requested now m2). clear. intros m g.
  destruct (retryableCleanup _); [apply quiet_stop_retained|].
  destruct (_ && _); [apply quiet_stop_retained|].
  destruct (_ || _); [|apply quiet_stop_attempt].
  pose proof (quiet_acknowledge now g m) as Ha.
  by destruct (acknowledgeStoppedLocked now g m) as [[? ?] ?].
Qed.

Lemma quiet_close_attempt now m : quiet m (close_attempt now m).
Proof.
  unfold close_attempt. set (w := bool_decide _). set (m1 := on_session _ m).
  transitivity m1; [unfold m1; repeat quiet_step|]. clearbody m1.
  set (m2 := if _ : bool then _ else m1). cbv zeta.
  transitivity m2; [unfold m2; case_match; repeat quiet_step|]. clearbody m2.
  transitivity (budget_begin now m2); [repeat quiet_step|].
  case_match; [by apply quiet_same|]. destruct w; repeat quiet_step.
Qed.

Lemma quiet_StopAndWait_begin now m : quiet m (StopAndWait_begin now m).
Proof.
  unfold StopAndWait_begin. cbv zeta. quiet_step.
  transitivity (close_requested m); [unfold close_requested; repeat quiet_step|].
  case_match; [apply quiet_close_attempt|done].
Qed.

Lemma quiet_Resume now m : quiet m (Resume now m).1.
Proof. unfold Resume. repeat case_match; try done. cbn [fst]. repeat quiet_step. Qed.

Lemma quiet_AttachSourceStore_install st m : quiet m (AttachSourceStore_install st m).1.
Proof. unfold AttachSourceStore_install. case_match; by apply quiet_same. Qed.

Lemma quiet_AttachSourceStore_loaded now l m : quiet m (AttachSourceStore_loaded now l m).
Proof.
  unfold AttachSourceStore_loaded. cbv zeta. quiet_step. destruct l as [[url|]|]; repeat quiet_step.
  case_match; [|done]. case_match; repeat quiet_step.
Qed.

Lemma prepareHealthRecovery_sequence now g c s :
  s_sequence (prepareHealthRecoveryLocked now g c s) = s_sequence s /\
  s_changed (prepareHealthRecoveryLocked now g c s) = s_changed s.
Proof.
  unfold prepareHealthRecoveryLocked. generalize (healthFailure c s). intros msg.
  assert (forall s, s_sequence (forgiveStable now s) = s_sequence s /\
                    s_changed (forgiveStable now s) = s_changed s) as Hf.
  { intros ?. unfold forgiveStable. by case_match. }
  assert (forall s, s_sequence (queueRecovery g msg s) = s_sequence s /\
                    s_changed (queueRecovery g msg s) = s_changed s) as Hq.
  { intros ?. unfold queueRecovery. by repeat case_match. }
  destruct (Hq (forgiveStable now (s <| s_lastFailure := FailureRuntime |>
    <| s_lastFailureMessage := msg |>))) as [-> ->].
  by destruct (Hf (s <| s_lastFailure := FailureRuntime |> <| s_lastFailureMessage := msg |>)) as [-> ->].
Qed.

Lemma quiet_reportHealthFailure now g c m : quiet m (reportHealthFailure now g c m).
Proof.
  unfold reportHealthFailure. case_match; [done|]. do 3 quiet_step.
  generalize (match c with Some c => c | None => EText "connected health check failed" end).
  intros e. destruct (prepareHealthRecovery_sequence now g e (m_session m)).
  by apply quiet_same.
Qed.

(** ** The closing fence *)

Lemma fenced_on_session f m :
  (forall s, s_closing (f s) = s_closing s /\ s_generation (f s) = s_generation s /\
             s_networkGeneration (f s) = s_networkGeneration s) ->
  fenced m (on_session f m).
Proof. intros Hf. destruct (Hf (m_session m)) as (? & ? & ?). by constructor. Qed.

Lemma fenced_same m m' : m_session m' = m_session m -> fenced m m'.
Proof. intros He. constructor; by rewrite He. Qed.

Lemma fenced_appendLocked now m : fenced m (appendLocked now m).
Proof. by constructor. Qed.

Lemma fenced_retainPolicy d ps m : fenced m (retainPolicy d ps m).
Proof. by destruct ps; apply fenced_same. Qed.

Lemma fenced_alloc_budget m : fenced m (alloc_budget m).
Proof. by constructor. Qed.

Lemma fenced_call_cancel m : fenced m (call_cancel m).
Proof. unfold call_cancel. case_match; by apply fenced_same. Qed.

Lemma fenced_cancel_if_set m : fenced m (cancel_if_set m).
Proof. apply fenced_same, cancel_if_set_session. Qed.

Lemma fenced_budget_begin now m : fenced m (budget_begin now m).
Proof. unfold budget_begin. case_match; by apply fenced_same. Qed.

Lemma fenced_budget_finish m : fenced m (budget_finish m).
Proof. unfold budget_finish. case_match; by apply fenced_same. Qed.

Lemma fenced_spawn k m : fenced m (spawn k m).
Proof. by apply fenced_same. Qed.

Lemma fenced_goto wid k p m : fenced m (goto wid k p m).
Proof. by apply fenced_same. Qed.

Lemma fenced_stop_worker wid m : fenced m (stop_worker wid m).
Proof. by apply fenced_same. Qed.

Lemma fenced_spawn_finish g m : fenced m (spawn_finish g m).
Proof. by apply fenced_same. Qed.

Lemma fenced_store t m : fenced m (m <| m_sourceStore := t |>).
Proof. by apply fenced_same. Qed.

Lemma fenced_emit o m : fenced m (emit o m).
Proof. by apply fenced_same. Qed.

Ltac fenced_step :=
  match goal with
  | |- fenced ?m ?m => reflexivity
  | |- fenced _ (appendLocked _ _) => etrans; [|apply fenced_appendLocked]
  | |- fenced _ (retainPolicy _ _ _) => etrans; [|apply fenced_retainPolicy]
  | |- fenced _ (on_session _ _) => etrans; [|by apply fenced_on_session]
  | |- fenced _ (alloc_budget _) => etrans; [|apply fenced_alloc_budget]
  | |- fenced _ (call_cancel _) => etrans; [|apply fenced_call_cancel]
  | |- fenced _ (cancel_if_set _) => etrans; [|apply fenced_cancel_if_set]
  | |- fenced _ (budget_begin _ _) => etrans; [|apply fenced_budget_begin]
  | |- fenced _ (budget_finish _) => etrans; [|apply fenced_budget_finish]
  | |- fenced _ (spawn _ _) => etrans; [|apply fenced_spawn]
  | |- fenced _ (spawn_finish _ _) => etrans; [|apply fenced_spawn_finish]
  | |- fenced _ (goto _ _ _ _) => etrans; [|apply fenced_goto]
  | |- fenced _ (emit _ _) => etrans; [|apply fenced_emit]
  | |- fenced _ (stop_worker _ _) => etrans; [|apply fenced_stop_worker]
  end.

Lemma fenced_cleanupContext now m : fenced m (cleanupContext now m).
Proof. unfold cleanupContext. case_match; repeat fenced_step. Qed.

Lemma fenced_acquire kind granted work m : fenced m (acquire kind granted work m).
Proof. unfold acquire. destruct granted; [|done]. by destruct work; apply fenced_same. Qed.

Lemma fenced_release_step x c m m' err : release_step x c m = Some (m', err) -> fenced m m'.
Proof.
  intros (l & tl & _ & Hm)%release_step_spec. destruct c.
  - by destruct Hm as [-> _].
  - destruct Hm as [_ ->]. by apply fenced_same.
Qed.

Lemma fenced_Configure_begin ctxErr seq m : fenced m (Configure_begin ctxErr seq m).1.
Proof. unfold Configure_begin. case_match; [done|]. by constructor. Qed.

Lemma fenced_Configure_accept now ctxErr request loaded parsed io m :
  fenced m (Configure_accept now ctxErr request loaded parsed io m).1.
Proof.
  unfold Configure_accept. case_match; [done|].
  destruct (saveSource_store loaded io m) as [t Ht].
  destruct (saveSource loaded io m) as [m1 err]. cbn [fst] in Ht. subst m1.
  transitivity (m <| m_sourceStore := t |>); [apply fenced_store|].
  generalize (m <| m_sourceStore := t |>). intros m1. destruct err; [done|].
  cbv zeta. cbn [fst]. fenced_step.
  set (m2 := if _ : bool then on_session _ _ else _). transitivity m2.
  - unfold m2. case_match; repeat fenced_step.
  - case_match; repeat fenced_step.
Qed.

Lemma fenced_reportHealthFailure now g c m : fenced m (reportHealthFailure now g c m).
Proof.
  unfold reportHealthFailure. case_match; [done|]. do 3 fenced_step.
  generalize (match c with Some c => c | None => EText "connected health check failed" end).
  intros e. destruct (prepareHealthRecovery_keeps now g e (m_session m)).
  constructor; assumption.
Qed.

(** A closing session starts nothing. *)
Lemma closing_Start now io seq t sup m :
  s_closing (m_session m) = true -> (Start_locked now io seq t sup m).1 = m.
Proof.
  intros Hc. unfold Start_locked, canRetry, configurationBlocked, replaceLocked, canSwitch.
  rewrite Hc. cbn. rewrite orb_true_r. repeat case_match; done.
Qed.

Lemma fenced_stop_requested now m : fenced m (stop_requested now m).
Proof. unfold stop_requested. cbv zeta. case_match; repeat fenced_step. Qed.

Lemma fenced_stop_retained now g r m : fenced m (stop_retained now g r m).
Proof. unfold stop_retained. cbv zeta. destruct r; repeat fenced_step. Qed.

Lemma fenced_stop_attempt now m : fenced m (stop_attempt now m).
Proof.
  unfold stop_attempt. set (m1 := if _ : bool then on_session _ m else m).
  transitivity m1; [unfold m1; case_match; repeat fenced_step|].
  cbv zeta. case_match; repeat fenced_step.
Qed.

Lemma fenced_acknowledge now g m : fenced m (acknowledgeStoppedLocked now g m).1.1.
Proof. unfold acknowledgeStoppedLocked. repeat case_match; cbn [fst]; repeat fenced_step. Qed.

Lemma fenced_Stop now loadErr io g m : fenced m (Stop now loadErr io g m).1.1.
Proof.
  unfold Stop. case_match; [done|].
  destruct (stopActivationLocked_store loadErr io m) as [st Hst].
  destruct (stopActivationLocked loadErr io m) as [m1 err]. cbn [fst] in Hst. subst m1.
  transitivity (m <| m_sourceStore := st |>); [apply fenced_store|].
  generalize (m <| m_sourceStore := st |>). intros m2. cbv zeta.
  etrans; [apply (fenced_stop_requested now)|]. generalize (s_generation (m_session m2)).
  generalize (stop_requested now m2). clear. intros m g.
  destruct (retryableCleanup _); [apply fenced_stop_retained|].
  destruct (_ && _); [apply fenced_stop_retained|].
  destruct (_ || _); [|apply fenced_stop_attempt].
  pose proof (fenced_acknowledge now g m) as Ha.
  by destruct (acknowledgeStoppedLocked now g m) as [[? ?] ?].
Qed.

Lemma fenced_close_attempt now m : fenced m (close_attempt now m).
Proof.
  unfold close_attempt. set (w := bool_decide _). set (m1 := on_session _ m).
  transitivity m1; [unfold m1; repeat fenced_step|]. clearbody m1.
  set (m2 := if _ : bool then _ else m1). cbv zeta.
  transitivity m2; [unfold m2; case_match; repeat fenced_step|]. clearbody m2.
  transitivity (budget_begin now m2); [repeat fenced_step|].
  case_match; [by apply fenced_same|]. destruct w; repeat fenced_step.
Qed.

Lemma fenced_StopAndWait_begin now m :
  fenced (close_requested m) (StopAndWait_begin now m).
Proof.
  unfold StopAndWait_begin. cbv zeta. fenced_step.
  case_match; [apply fenced_close_attempt|done].
Qed.

Lemma fenced_AttachSourceStore_install st m : fenced m (AttachSourceStore_install st m).1.
Proof. unfold AttachSourceStore_install. case_match; by apply fenced_same. Qed.

Lemma fenced_AttachSourceStore_loaded now l m : fenced m (AttachSourceStore_loaded now l m).
Proof.
  unfold AttachSourceStore_loaded. cbv zeta. fenced_step. destruct l as [[url|]|]; repeat fenced_step.
  case_match; [|done]. case_match; repeat fenced_step.
Qed.

(** Once a stop was requested, [finish] restarts nothing. *)
Lemma fenced_finish_settle now cause m :
  s_stopRequested (m_session m) = true -> fenced m (finish_settle now cause m).
Proof.
  intros Hsr. unfold finish_settle, finish_idle. cbv zeta.
  set (m1 := on_session _ (budget_finish m)).
  assert (s_stopRequested (m_session m1) = true) as ->.
  { unfold m1, budget_finish. cbn. by case_match. }
  cbn [orb]. transitivity m1; [unfold m1; repeat fenced_step|]. repeat fenced_step.
Qed.

Lemma fenced_finish_commit now wid k cause rel ce m :
  s_stopRequested (m_session m) = true -> fenced m (finish_commit now wid k cause rel ce m).
Proof.
  intros Hsr. unfold finish_commit. cbv zeta. case_match; [repeat fenced_step|].
  set (m1 := on_session _ (stop_worker wid m)).
  transitivity m1; [unfold m1; repeat fenced_step|].
  assert (s_stopRequested (m_session m1) = true) as Hs1 by done. clearbody m1.
  case_match; [unfold finish_failed; repeat fenced_step|].
  transitivity (finish_release rel m1); [unfold finish_release; destruct rel; repeat fenced_step|].
  assert (s_stopRequested (m_session (finish_release rel m1)) = true) as Hs2 by by destruct rel.
  case_match; [repeat fenced_step|by apply fenced_finish_settle].
Qed.

(** ** The effects of one step *)

(** [effects_ok] for a quiet step. *)
Lemma quiet_effects m m' : quiet m m' -> exists outs, effects m m' outs.
Proof.
  intros [Hl (outs & Ho & Ha) Hc]. exists outs. constructor; try done.
  - apply List.Forall_forall. intros o Hin. rewrite forallb_forall in Ha. specialize (Ha o Hin).
    by destruct o.
  - by left.
Qed.

(** A step that emits one call and otherwise keeps quiet before it. *)
Lemma emit_effects o m m1 :
  quiet m m1 -> is_publish o = false -> allowed m (emit o m1) o ->
  exists outs, effects m (emit o m1) outs.
Proof.
  intros [Hl (outs & Ho & Ha) Hc] Hp Hok. exists (o :: outs). constructor.
  - cbn. by rewrite Ho.
  - constructor; [done|]. apply List.Forall_forall. intros x Hin.
    rewrite forallb_forall in Ha. specialize (Ha x Hin). by destruct x.
  - by left.
  - intros Hcm. specialize (Hc Hcm). revert Hc. unfold counted, publishes. cbn. by rewrite Hp.
Qed.

(** The effects survive a quiet change that keeps the session. *)
Lemma effects_goto wid k p m m' outs :
  effects m m' outs -> effects m (goto wid k p m') outs.
Proof. intros [Ho Ha Hl Hc]. by constructor. Qed.

Lemma quiet_acquire kind granted x m :
  let m' := acquire kind granted (Some x) m in
  m_outputs m' = m_outputs m /\ m_session m' = m_session m /\
  (m_live m' = m_live m \/ exists l, m_live m' = l :: m_live m).
Proof. unfold acquire. destruct granted; cbn; split_and!; eauto. Qed.

Lemma acquire_effects kind granted x m m' :
  quiet (acquire kind granted (Some x) m) m' ->
  exists outs, effects m m' outs.
Proof.
  intros [Hl (outs & Ho & Ha) Hc]. destruct (quiet_acquire kind granted x m) as (Ho' & Hs & Hl').
  exists outs. constructor.
  - by rewrite Ho, Ho'.
  - apply List.Forall_forall. intros o Hin. rewrite forallb_forall in Ha. specialize (Ha o Hin).
    by destruct o.
  - rewrite Hl. destruct Hl' as [->|[l ->]]; [by left|]. right. left. by exists l.
  - intros Hcm. apply Hc. revert Hcm. unfold counted. by rewrite Ho', Hs.
Qed.

Lemma release_effects x c m m' err :
  Inv m ->
  s_ledger (m_session m) = Some x \/
  (s_networkLedger (m_session m) = Some x /\ ledger_of (m_ledgers m) (s_ledger (m_session m)) = [] /\
   releasing_network (m_session m)) ->
  release_step x c m = Some (m', err) -> exists outs, effects m m' outs.
Proof.
  intros Hi Hx (l & tl & Hl & Hm)%release_step_spec. destruct c.
  { destruct Hm as [-> _]. by apply quiet_effects. }
  destruct Hm as [_ ->]. exists [ORelease l]. destruct (inv_owned _ Hi) as [Hlive Hnd _ _ _ _ Hka Hkw].
  assert (In l (ledger_of (m_ledgers m) (Some x))) as Hin by (cbn; rewrite Hl; by left).
  constructor; [done| |right; right; exists l; by split; [left|]|done].
  constructor; [|done]. cbn. split_and!.
  - rewrite Hlive. apply elem_of_app. destruct Hx as [Hx|[Hx _]]; rewrite Hx; [left|right]; by apply list_elem_of_In.
  - unfold drop_lease. intros Hf. apply list_elem_of_In, filter_In in Hf as [_ Hf].
    by rewrite bool_decide_eq_true_2 in Hf.
  - intros Hk. destruct Hx as [Hx|(Hx & Ha & Hp & Hr)].
    + rewrite Hx in Hka. eapply List.Forall_forall in Hka; [|exact Hin]. done.
    + split; [|done]. rewrite Hlive, Ha. cbn. rewrite Forall_forall in *.
      intros y Hy. specialize (Hkw y Hy). by destruct Hkw as [->| ->].
Qed.

Lemma quiet_advance now g st p m m' : advance now g st p m = Some m' -> quiet m m'.
Proof.
  unfold advance. case_match; [done|]. intros [= <-]. quiet_step. case_match; repeat quiet_step.
Qed.

Lemma quiet_finish_settle now cause m : quiet m (finish_settle now cause m).
Proof.
  unfold finish_settle, finish_idle, finish_restart, finishProtectedFailureLocked. cbv zeta.
  set (m1 := on_session _ (budget_finish m)).
  transitivity m1; [unfold m1; repeat quiet_step|]. clearbody m1.
  case_match; [repeat quiet_step|]. case_match; [|case_match; repeat quiet_step].
  case_match; quiet_step; (etrans; [|apply quiet_beginAttemptLocked]); repeat quiet_step.
Qed.

Lemma quiet_finish_commit now wid k cause rel ce m : quiet m (finish_commit now wid k cause rel ce m).
Proof.
  unfold finish_commit. cbv zeta. case_match; [repeat quiet_step|].
  set (m1 := on_session _ (stop_worker wid m)).
  transitivity m1; [unfold m1; repeat quiet_step|]. clearbody m1.
  case_match; [unfold finish_failed; repeat quiet_step|].
  transitivity (finish_release rel m1); [unfold finish_release; destruct rel; repeat quiet_step|].
  case_match; [repeat quiet_step|apply quiet_finish_settle].
Qed.

Lemma worker_effects now wid k r m m' :
  Inv m -> m_workers m !! wid = Some k -> worker_step now wid k r m = Some m' ->
  exists outs, effects m m' outs.
Proof.
  intros Hi Hk. destruct (the_worker _ _ _ Hi Hk) as [Hw Hr]. unfold worker_step.
  destruct (wk_pc k) eqn:Hpc; intros Hs;
    lazymatch type of Hs with
    | waitForAttemptEnd _ _ _ _ _ _ = _ => idtac
    | _ => destruct r; try discriminate Hs; try injection Hs as <-
    end.
  - unfold prepareNetwork_begin. destruct (s_vpnActive (m_session m)) eqn:Hv.
    { apply quiet_effects. repeat quiet_step. }
    destruct (s_activeProfiles _) as [|first rest]; [apply quiet_effects; repeat quiet_step|].
    case_match; [|apply quiet_effects; repeat quiet_step].
    match goal with |- context [goto _ _ _ (emit ?o ?m)] =>
      destruct (emit_effects o m m) as [outs He]; [done|done|by split|] end.
    eexists. apply effects_goto, He.
  - destruct (rn_network _ _ _ _ Hr) as [x Hx]. pose proof (rn_pc _ _ _ _ Hr) as Hpk.
    rewrite Hpc in Hpk. cbn in Hpk. rewrite Hpk, Hx.
    unfold prepareNetwork_tunnel.
    destruct err; [apply (acquire_effects PlatformLease granted x); repeat quiet_step|].
    case_match; [apply (acquire_effects PlatformLease granted x); repeat quiet_step|].
    case_match; [|apply (acquire_effects PlatformLease granted x); repeat quiet_step].
    set (m1 := acquire _ _ _ _).
    destruct (acquire_effects PlatformLease granted x m m1) as [outs [Ho Ha Hl Hc]]; [done|].
    exists (OPrepareNetwork ref :: outs). apply effects_goto. constructor; cbn.
    + by rewrite Ho.
    + by constructor.
    + destruct Hl as [?|[?|(l & Hin & ?)]]; [by left|right; by left|right; right].
      exists l. by split; [right|].
    + intros Hcm. specialize (Hc Hcm). done.
  - destruct (rn_network _ _ _ _ Hr) as [x Hx]. pose proof (rn_pc _ _ _ _ Hr) as Hpk.
    rewrite Hpc in Hpk. cbn in Hpk. rewrite Hpk, Hx. unfold prepareNetwork_runtime.
    apply (acquire_effects NetworkLease granted x).
    repeat case_match; repeat quiet_step.
  - apply quiet_effects. unfold prepareNetwork_commit. repeat quiet_step.
  - apply quiet_effects. unfold prepareNetwork_check. case_match; repeat quiet_step.
  - apply quiet_effects. unfold runStart_profiles. repeat case_match; repeat quiet_step.
  - apply quiet_effects. unfold runStart_candidate, prepareCandidate.
    destruct rest; [repeat quiet_step|]. destruct index; [repeat quiet_step|].
    destruct (_ || _); repeat quiet_step.
  - unfold runStart_advance. set (st := if _ : bool then _ else _).
    destruct (advance _ _ _ _ _) as [m1|] eqn:Ha; [|apply quiet_effects; repeat quiet_step].
    pose proof (quiet_advance _ _ _ _ _ _ Ha) as Hq.
    assert (s_stopRequested (m_session m1) = s_stopRequested (m_session m) /\
            s_generation (m_session m1) = wk_generation k /\
            s_state (m_session m) <> StateStopping) as (Hsr & Hg & Hst).
    { revert Ha. unfold advance. case_match eqn:Hgs; [done|]. intros [= <-]. split_bools.
      case_match; done. }
    apply (Inv_advance m wid k Hi Hk) in Ha as (Hi' & Hw' & Hv');
      [|by rewrite Hpc|unfold st; case_bool_decide; auto].
    destruct (not_stopping_facts m wid k Hi Hk Hst) as (Hs0 & _ & _).
    match goal with |- context [goto _ _ _ (emit ?o m1)] =>
      destruct (emit_effects o m m1) as [outs He]; [done|done| |] end.
    { cbn. split_and!; [done|congruence|by rewrite Hg]. }
    eexists. apply effects_goto, He.
  - destruct (in_run_facts m wid k Hi Hk) as [c []]; [by rewrite Hpc|]. destruct ro_ledger as [x Hx].
    unfold runStart_started. rewrite Hx. apply (acquire_effects AttemptLease granted x).
    set (m1 := acquire _ _ _ _). clearbody m1.
    set (err' := if _ : bool then _ else err). destruct err' as [e|]; [|destruct (ctx_err k m1)].
    all: try (repeat quiet_step; done). all: case_match; repeat quiet_step.
  - destruct (in_run_facts m wid k Hi Hk) as [c []]; [by rewrite Hpc|]. destruct ro_ledger as [x Hx].
    unfold runStart_cleanup. rewrite Hx. apply quiet_effects. quiet_step. apply quiet_cleanupContext.
  - destruct (ledger_empty work m); [|done]. injection Hs as <-. apply quiet_effects. repeat quiet_step.
  - pose proof (rn_pc _ _ _ _ Hr) as Hpk. rewrite Hpc in Hpk. cbn in Hpk.
    destruct (release_step work err m) as [[m1 [e|]]|] eqn:Hrel; try discriminate Hs; injection Hs as <-.
    all: destruct (release_effects _ _ _ _ _ Hi (or_introl Hpk) Hrel) as [outs He].
    + exists outs. by apply effects_goto.
    + by exists outs.
  - apply quiet_effects. unfold runStart_next. repeat case_match; repeat quiet_step.
  - apply quiet_effects. unfold runStart_connect. destruct (advance _ _ _ _ _) eqn:Ha; [|repeat quiet_step].
    quiet_step. by eapply quiet_advance.
  - apply quiet_effects. revert Hs. unfold waitForAttemptEnd.
    repeat case_match; intros; simplify_eq; repeat quiet_step. apply quiet_reportHealthFailure.
  - apply quiet_effects. unfold finish_begin. case_match; repeat quiet_step.
  - apply quiet_effects. unfold retire_begin. repeat case_match; repeat quiet_step.
    apply quiet_cleanupContext.
  - destruct (ledger_empty work m); [|done]. injection Hs as <-. apply quiet_effects. repeat quiet_step.
  - pose proof (rn_pc _ _ _ _ Hr) as Hpk. rewrite Hpc in Hpk. destruct Hpk as [Hpk _].
    destruct (release_step work err m) as [[m1 [e|]]|] eqn:Hrel; try discriminate Hs; injection Hs as <-.
    all: destruct (release_effects _ _ _ _ _ Hi (or_introl Hpk) Hrel) as [outs He].
    + exists outs. by apply effects_goto.
    + by exists outs.
  - apply quiet_effects. unfold retire_network. repeat case_match; repeat quiet_step.
  - apply quiet_effects. quiet_step. apply quiet_cleanupContext.
  - destruct (ledger_empty network m); [|done]. injection Hs as <-. apply quiet_effects. repeat quiet_step.
  - pose proof (rn_pc _ _ _ _ Hr) as Hpk. rewrite Hpc in Hpk. destruct Hpk as (Hn & _ & Hl & Hrn).
    destruct (release_step network err m) as [[m1 [e|]]|] eqn:Hrel; try discriminate Hs; injection Hs as <-.
    all: destruct (release_effects _ _ _ _ _ Hi (or_intror (conj Hn (conj Hl Hrn))) Hrel) as [outs He].
    + exists outs. by apply effects_goto.
    + by exists outs.
  - apply quiet_effects, quiet_finish_commit.
Qed.

(** A worker told to stop changes neither generation. *)
Lemma fenced_worker_step now wid k r m m' :
  Inv m -> s_stopRequested (m_session m) = true ->
  m_workers m !! wid = Some k -> worker_step now wid k r m = Some m' -> fenced m m'.
Proof.
  intros Hi Hsr Hk. destruct (the_worker _ _ _ Hi Hk) as [Hw Hr]. unfold worker_step.
  destruct (wk_pc k) eqn:Hpc; intros Hs;
    lazymatch type of Hs with
    | waitForAttemptEnd _ _ _ _ _ _ = _ => idtac
    | _ => destruct r; try discriminate Hs; try injection Hs as <-
    end.
  - unfold prepareNetwork_begin. repeat case_match; repeat fenced_step; by apply fenced_same.
  - unfold prepareNetwork_tunnel. transitivity (acquire PlatformLease granted work m).
    { apply fenced_acquire. }
    repeat case_match; repeat fenced_step.
  - unfold prepareNetwork_runtime. transitivity (acquire NetworkLease granted work m).
    { apply fenced_acquire. }
    repeat case_match; repeat fenced_step.
  - unfold prepareNetwork_commit. repeat fenced_step.
  - unfold prepareNetwork_check. case_match; repeat fenced_step.
  - unfold runStart_profiles. repeat case_match; repeat fenced_step. by apply fenced_same.
  - unfold runStart_candidate, prepareCandidate. rewrite Hsr. cbn [orb].
    destruct rest; [repeat fenced_step|]. destruct index; repeat fenced_step.
  - unfold runStart_advance, advance. rewrite (rn_stop _ _ _ _ Hr Hsr).
    rewrite (bool_decide_eq_true_2 (StateStopping = StateStopping)) by done.
    rewrite orb_true_r. repeat fenced_step.
  - unfold runStart_started. transitivity (acquire AttemptLease granted (s_ledger (m_session m)) m).
    { apply fenced_acquire. }
    set (m1 := acquire _ _ _ _). clearbody m1.
    set (err' := if _ : bool then _ else err). destruct err' as [e|]; [|destruct (ctx_err k m1)].
    all: try (repeat fenced_step; done). all: case_match; repeat fenced_step.
  - unfold runStart_cleanup. case_match; [|by apply fenced_same].
    fenced_step. apply fenced_cleanupContext.
  - destruct (ledger_empty work m); [|done]. injection Hs as <-. repeat fenced_step.
  - destruct (release_step work err m) as [[m1 [e|]]|] eqn:Hrel; try discriminate Hs; injection Hs as <-.
    all: apply fenced_release_step in Hrel; try done. by fenced_step.
  - unfold runStart_next. repeat case_match; repeat fenced_step.
  - unfold runStart_connect, advance. rewrite (rn_stop _ _ _ _ Hr Hsr).
    rewrite (bool_decide_eq_true_2 (StateStopping = StateStopping)) by done.
    rewrite orb_true_r. repeat fenced_step.
  - revert Hs. unfold waitForAttemptEnd.
    repeat case_match; intros; simplify_eq; repeat fenced_step. apply fenced_reportHealthFailure.
  - unfold finish_begin. case_match; repeat fenced_step.
  - unfold retire_begin. repeat case_match; repeat fenced_step. apply fenced_cleanupContext.
  - destruct (ledger_empty work m); [|done]. injection Hs as <-. repeat fenced_step.
  - destruct (release_step work err m) as [[m1 [e|]]|] eqn:Hrel; try discriminate Hs; injection Hs as <-.
    all: apply fenced_release_step in Hrel; try done. by fenced_step.
  - unfold retire_network. repeat case_match; repeat fenced_step.
  - fenced_step. apply fenced_cleanupContext.
  - destruct (ledger_empty network m); [|done]. injection Hs as <-. repeat fenced_step.
  - destruct (release_step network err m) as [[m1 [e|]]|] eqn:Hrel; try discriminate Hs; injection Hs as <-.
    all: apply fenced_release_step in Hrel; try done. by fenced_step.
  - by apply fenced_finish_commit.
Qed.

Section machine.
Context `{ConfigParser}.

(** Every step has [effects]. *)
Lemma step_effects now ev m m' :
  Inv m -> step now ev m = Some m' -> exists outs, effects m m' outs.
Proof.
  intros Hi. unfold step. destruct (m_panic m); [done|]. destruct ev.
  - intros [= <-]. apply quiet_effects, quiet_Configure_begin.
  - case_match; [|done]. intros [= <-]. apply quiet_effects. by apply quiet_same.
  - case_match; [|done]. destruct (parseConfig (lc_Raw loaded)); intros [= <-]; apply quiet_effects.
    + etrans; [|apply quiet_Configure_accept]. by apply quiet_same.
    + by apply quiet_same.
  - intros [= <-]. apply quiet_effects, quiet_Start_locked.
  - intros [= <-]. apply quiet_effects, quiet_Stop.
  - intros [= <-]. apply quiet_effects, quiet_StopAndWait_begin.
  - intros [= <-]. apply quiet_effects, quiet_cleanupContext.
  - intros [= <-]. apply quiet_effects, quiet_Resume.
  - intros [= <-]. apply quiet_effects, quiet_AttachSourceStore_install.
  - intros [= <-]. apply quiet_effects, quiet_AttachSourceStore_loaded.
  - destruct (m_workers m !! wid) as [k|] eqn:Hk; [|done]. by apply worker_effects.
Qed.

Lemma reachable_counted m : reachable m -> counted m.
Proof.
  intros (id & ie & nr & store & saved & evs & Hr).
  assert (counted (NewManager id ie nr store saved)) as Hc.
  { unfold NewManager. by destruct store; [destruct saved|]. }
  pose proof (Inv_NewManager id ie nr store saved) as Hi. revert Hc Hi Hr.
  generalize (NewManager id ie nr store saved). induction evs as [|[now ev] evs IH]; intros m0 Hc Hi Hr; cbn in Hr.
  - by injection Hr as <-.
  - destruct (step now ev m0) as [m1|] eqn:Hs; [|done].
    destruct (step_effects _ _ _ _ Hi Hs) as [outs He]. eapply IH; [| |exact Hr].
    + by apply (ef_counted _ _ _ He).
    + by eapply Inv_step.
Qed.

Lemma fenced_step_closing now ev m m' :
  Inv m -> s_closing (m_session m) = true -> ev <> EvResume ->
  step now ev m = Some m' -> fenced m m'.
Proof.
  intros Hi Hc Hne. unfold step. destruct (m_panic m); [done|]. destruct ev.
  - intros [= <-]. apply fenced_Configure_begin.
  - case_match; [|done]. intros [= <-]. by apply fenced_same.
  - case_match; [|done]. destruct (parseConfig (lc_Raw loaded)); intros [= <-].
    + etrans; [|apply fenced_Configure_accept]. by apply fenced_same.
    + by apply fenced_same.
  - rewrite closing_Start by done. by intros [= <-].
  - intros [= <-]. apply fenced_Stop.
  - intros [= <-]. etrans; [|apply fenced_StopAndWait_begin]. by constructor.
  - intros [= <-]. apply fenced_cleanupContext.
  - done.
  - intros [= <-]. apply fenced_AttachSourceStore_install.
  - intros [= <-]. apply fenced_AttachSourceStore_loaded.
  - destruct (m_workers m !! wid) as [k|] eqn:Hk; [|done].
    apply fenced_worker_step; [done| |done]. by apply (inv_closing _ Hi).
Qed.
End machine.
