(* ===== verification/Drain.v ===== *)
(** * A requested stop finishes (core/sessionapi/api.go, shutdown.go)

    Once a stop is requested every piece of the worker brings it closer to its
    end, whatever the platform and the runtime answer: [remaining] strictly
    decreases.  The worker is never stuck, so the stop completes. *)

From S2P Require Import Prelude Errors Values Session Activation Manager Worker Ownership Invariant InvariantApi InvariantWorker Effects.

(** How many pieces a program counter is from its end, once stopped. *)
Definition distance (p : pc) : nat :=
  match p with
  | PPrepare => 17
  | PTunnel _ _ _ => 16
  | PNetwork _ _ _ => 14
  | PNetworkUp => 12
  | PNetworkCheck => 11
  | PProfiles => 10
  | PStarting _ _ _ _ => 14
  | PCandidateCleanup _ _ _ _ => 12
  | PCandidateRelease _ _ _ _ _ => 11
  | PCandidateDone _ _ _ _ => 10
  | PCandidate _ _ _ => 9
  | PAdvance _ _ _ _ => 8
  | PConnect _ => 10
  | PWait true => 9
  | PWait false => 8
  | PFinish _ => 7
  | PRetire _ _ => 6
  | PReleaseWork _ _ => 5
  | PNetworkDecide _ _ => 4
  | PReleaseNetworkBegin _ _ => 3
  | PReleaseNetwork _ _ => 2
  | PCommit _ true _ => 1
  | PCommit _ false _ => 8
  end.

(** The leases still to release. *)
Definition load (m : manager) : nat :=
  length (ledger_of (m_ledgers m) (s_ledger (m_session m))) +
  length (ledger_of (m_ledgers m) (s_networkLedger (m_session m))).

Definition remaining (m : manager) : nat :=
  map_fold (fun _ k n => distance (wk_pc k) + n) (load m) (m_workers m).

(** The one answer that wakes the worker without moving it: a nil health
    failure. *)
Definition idle_reply (r : reply) : bool :=
  match r with RHealth None => true | _ => false end.

(** Where a stop may end: everything released, or a cleanup failure that keeps
    its leases for a retry. *)
Definition settled (m : manager) : Prop :=
  m_workers m = ∅ /\
  (s_state (m_session m) = StateIdle /\ s_cleanupDone (m_session m) = true /\ m_live m = [] \/
   s_state (m_session m) = StateFailed /\ s_cleanupFailed (m_session m) = true).

(** The worker runs a [finish] in which nothing failed so far. *)
Definition clean_finish (p : pc) : Prop :=
  match p with
  | PFinish c | PRetire c _ | PReleaseWork c _ | PNetworkDecide c None
  | PReleaseNetworkBegin c _ | PReleaseNetwork c _ | PCommit c _ None =>
      CodeOf c <> FailureCleanup
  | _ => False
  end.

(** The answer of an environment in which every call succeeds. *)
Definition good_reply (m : manager) (k : worker) : reply :=
  match wk_pc k with
  | PTunnel _ _ _ | PNetwork _ _ _ | PStarting _ _ _ _ => RLease true None
  | PCandidateRelease _ _ _ _ work | PReleaseWork _ work =>
      if ledger_empty work m then RNone else RClose None
  | PReleaseNetwork _ network => if ledger_empty network m then RNone else RClose None
  | PWait _ => RCanceled
  | _ => RNone
  end.

(** What one piece of a stopped worker achieves. *)
Record progress (m m' : manager) : Prop := mkProgress {
  pg_remaining : remaining m' < remaining m;
  pg_stop : s_stopRequested (m_session m') = true;
  pg_settled : m_workers m' = ∅ -> settled m'
}.

(** The steps of the workers only. *)
Definition worker_event (ev : Z * event) : bool :=
  match ev.2 with EvWorker _ r => negb (idle_reply r) | _ => false end.

(** ** The measure under the primitives *)

Lemma remaining_single m wid k :
  m_workers m = {[wid := k]} -> remaining m = distance (wk_pc k) + load m.
Proof. intros Hw. unfold remaining. rewrite Hw. by rewrite map_fold_singleton. Qed.

Lemma remaining_none m : m_workers m = ∅ -> remaining m = load m.
Proof. intros Hw. unfold remaining. by rewrite Hw, map_fold_empty. Qed.

Lemma remaining_goto m m1 wid k k' p :
  m_workers m = {[wid := k]} -> m_workers m1 = {[wid := k]} ->
  distance p + load m1 < distance (wk_pc k) + load m ->
  remaining (goto wid k' p m1) < remaining m.
Proof.
  intros Hw Hw1 Hd. rewrite (remaining_single _ _ _ Hw).
  rewrite (remaining_single _ wid (k' <| wk_pc := p |>)).
  - exact Hd.
  - cbn. by rewrite Hw1, insert_singleton_eq.
Qed.

Lemma load_same m m1 :
  m_ledgers m1 = m_ledgers m -> s_ledger (m_session m1) = s_ledger (m_session m) ->
  s_networkLedger (m_session m1) = s_networkLedger (m_session m) -> load m1 = load m.
Proof. unfold load. by intros -> -> ->. Qed.

Lemma load_acquire kind granted x m :
  s_ledger (m_session m) <> s_networkLedger (m_session m) \/ s_ledger (m_session m) = None ->
  load (acquire kind granted (Some x) m) <= S (load m).
Proof.
  intros Hd. unfold acquire. destruct granted; [|lia]. unfold load. cbn.
  set (l := mkLease _ _).
  assert (forall a, length (ledger_of (alter (cons l) x (m_ledgers m)) a) <=
    length (ledger_of (m_ledgers m) a) + (if decide (a = Some x) then 1 else 0)) as Hle.
  { intros a. case_decide as Ha.
    - subst a. cbn. rewrite lookup_alter_eq. destruct (m_ledgers m !! x); cbn; lia.
    - rewrite ledger_of_alter_ne by done. lia. }
  pose proof (Hle (s_ledger (m_session m))). pose proof (Hle (s_networkLedger (m_session m))).
  repeat case_decide; try lia. destruct Hd; congruence.
Qed.

Lemma load_release m x l tl :
  Inv m -> s_ledger (m_session m) = Some x \/ s_networkLedger (m_session m) = Some x ->
  m_ledgers m !! x = Some (l :: tl) ->
  load (emit (ORelease l) (m <| m_ledgers ::= <[x := tl]> |> <| m_live ::= drop_lease l |>)) < load m.
Proof.
  intros Hi Hx Hl. unfold load. cbn. destruct (inv_owned _ Hi) as [_ _ _ _ _ Hd _ _].
  assert (length (ledger_of (<[x := tl]> (m_ledgers m)) (Some x)) <
          length (ledger_of (m_ledgers m) (Some x))) as Hlt.
  { rewrite ledger_of_insert_eq. cbn. rewrite Hl. cbn. lia. }
  destruct Hx as [Hx|Hx].
  - rewrite Hx in *. rewrite (ledger_of_insert_ne _ x _ (s_networkLedger (m_session m))).
    + lia.
    + intros He. by apply Hd.
  - rewrite Hx in *. rewrite (ledger_of_insert_ne _ x _ (s_ledger (m_session m))).
    + lia.
    + intros He. by apply Hd; rewrite He.
Qed.

(** ** One piece of the worker *)

Section stopping.
Context (m : manager) (wid : nat) (k : worker).
Hypothesis Hi : Inv m.
Hypothesis Hk : m_workers m !! wid = Some k.
Hypothesis Hsr : s_stopRequested (m_session m) = true.

Let Hw : m_workers m = {[wid := k]} := proj1 (the_worker m wid k Hi Hk).
Let Hr : running (m_ledgers m) (m_canceled m) (m_session m) k :=
  proj2 (the_worker m wid k Hi Hk).

Lemma stop_state : s_state (m_session m) = StateStopping.
Proof using Hi Hk Hsr. exact (rn_stop _ _ _ _ Hr Hsr). Qed.

Lemma ledgers_apart :
  s_ledger (m_session m) <> s_networkLedger (m_session m) \/ s_ledger (m_session m) = None.
Proof using Hi.
  destruct (s_ledger (m_session m)) eqn:Ha; [left|by right].
  pose proof (own_distinct _ _ _ _ _ (inv_owned _ Hi)) as Hd. rewrite Ha in Hd. by apply Hd.
Qed.

Lemma progress_goto m1 k' p :
  m_workers m1 = {[wid := k]} -> s_stopRequested (m_session m1) = true ->
  distance p + load m1 < distance (wk_pc k) + load m -> progress m (goto wid k' p m1).
Proof using Hi Hk.
  intros Hw1 Hs1 Hd. constructor; [by eapply remaining_goto|done|].
  cbn. rewrite Hw1, insert_singleton_eq. intros He. exfalso.
  assert ((∅ : gmap nat worker) !! wid = Some (k' <| wk_pc := p |>)) as Hf by
    by rewrite <- He, lookup_singleton_eq.
  by rewrite lookup_empty in Hf.
Qed.

(** The common case: only the program counter moves. *)
Lemma progress_move m1 k' p :
  m_workers m1 = m_workers m -> s_stopRequested (m_session m1) = s_stopRequested (m_session m) ->
  load m1 = load m -> distance p < distance (wk_pc k) -> progress m (goto wid k' p m1).
Proof using Hi Hk Hsr.
  intros Hw1 Hs1 Hl Hd. apply progress_goto; [by rewrite Hw1|by rewrite Hs1|rewrite Hl; lia].
Qed.

Lemma progress_acquire kind granted x k' p m1 :
  m1 = acquire kind granted (Some x) m ->
  S (distance p) < distance (wk_pc k) -> progress m (goto wid k' p m1).
Proof using Hi Hk Hsr.
  intros -> Hd. destruct (acquire_frame kind granted x m) as (Hfw & Hfs & _).
  apply progress_goto; [by rewrite Hfw|by rewrite Hfs|].
  pose proof (load_acquire kind granted x m ledgers_apart). lia.
Qed.

Lemma progress_release x c m1 err :
  s_ledger (m_session m) = Some x \/ s_networkLedger (m_session m) = Some x ->
  release_step x c m = Some (m1, err) ->
  match c with
  | Some e => m1 = m /\ err = Some e
  | None => err = None /\ progress m m1
  end.
Proof using Hi Hk Hsr.
  intros Hx (l & tl & Hl & Hm)%release_step_spec. destruct c; [done|].
  destruct Hm as [-> ->]. split; [done|]. constructor.
  - rewrite (remaining_single m wid k Hw), (remaining_single _ wid k) by done.
    pose proof (load_release m x l tl Hi Hx Hl). cbn in *. lia.
  - done.
  - cbn. rewrite Hw. intros He. exfalso.
    assert ((∅ : gmap nat worker) !! wid = Some k) as Hf by
      by rewrite <- He, lookup_singleton_eq.
    by rewrite lookup_empty in Hf.
Qed.

Lemma cleanupContext_load now :
  m_workers (cleanupContext now m) = m_workers m /\
  s_stopRequested (m_session (cleanupContext now m)) = s_stopRequested (m_session m) /\
  load (cleanupContext now m) = load m.
Proof using Hi.
  destruct (cleanupContext_keeps m Hi now) as (_ & Hfw & Hfl & b & Hs).
  split_and!; [done|by rewrite Hs|]. apply load_same; by rewrite ?Hs.
Qed.

(** [advance] refuses a stopped attempt. *)
Lemma advance_stopped now g st p : advance now g st p m = None.
Proof using Hi Hk Hsr.
  unfold advance. rewrite stop_state.
  rewrite (bool_decide_eq_true_2 (StateStopping = StateStopping)) by done.
  by rewrite orb_true_r.
Qed.

Lemma health_after_stop now g cause : reportHealthFailure now g cause m = m.
Proof using Hi Hk Hsr.
  unfold reportHealthFailure. rewrite stop_state.
  rewrite (bool_decide_eq_false_2 (StateStopping = StateConnected)) by done.
  by rewrite orb_true_r.
Qed.

Lemma commit_stopped now cause rel ce :
  wk_pc k = PCommit cause rel ce ->
  let m' := finish_commit now wid k cause rel ce m in
  progress m m' /\
  (ce = None -> CodeOf cause <> FailureCleanup ->
   m_workers m' = ∅ -> s_state (m_session m') = StateIdle) /\
  (forall wid' k', m_workers m' !! wid' = Some k' -> wk_pc k' = PFinish None).
Proof using Hi Hk Hsr.
  intros Hpc m'. pose proof (Inv_finish_commit now wid k cause rel ce m Hi Hk Hpc) as Hi'.
  fold m' in Hi'. revert Hi'. unfold m', finish_commit.
  replace (s_generation (m_session (stop_worker wid m)) =? wk_generation k)%Z with true.
  2: { destruct Hr. symmetry. by apply Z.eqb_eq. }
  cbn [negb]. pose proof (stopped_workers m wid k Hi Hk) as Hw0.
  pose proof (remaining_single m wid k Hw) as Hrem. rewrite Hpc in Hrem.
  destruct (is_Some_b ce || _) eqn:Hf.
  - cbv zeta. unfold finish_failed. set (mm := appendLocked _ _). intros Hi'.
    assert (m_workers mm = ∅) as Hwm by exact Hw0. split_and!.
    + constructor; [|done|].
      * rewrite (remaining_none mm Hwm), Hrem. 
        change (load mm) with (load m). destruct rel; cbn; lia.
      * intros _. split; [done|]. right. done.
    + intros -> Hc. cbn in Hf. by split_bools.
    + intros wid' k'. by rewrite Hwm, lookup_empty.
  - cbv zeta. split_bools. destruct ce; [done|].
    pose proof (finish_released m wid k Hi Hk cause rel Hpc) as Hm. specialize (Hm ltac:(done)).
    assert (s_stopRequested (m_session (finish_release rel (on_session
      (fun s => s <| s_cancel := None |> <| s_cleanupFailed := false |>)
      (stop_worker wid m)))) = true) as Hs2 by by destruct rel.
    assert (load (finish_release rel (on_session
      (fun s => s <| s_cancel := None |> <| s_cleanupFailed := false |>)
      (stop_worker wid m))) <= load m) as Hload.
    { unfold load, finish_release. destruct rel; cbn; lia. }
    revert Hm Hs2 Hload. generalize (finish_release rel (on_session
      (fun s => s <| s_cancel := None |> <| s_cleanupFailed := false |>)
      (stop_worker wid m))). intros m2 Hm Hs2 Hload. rewrite Hs2. cbn [orb].
    destruct rel; cbn [negb andb]; intros Hi'.
    + unfold finish_settle in *. cbv zeta in *.
      pose proof (budget_finish_released m2 k true Hm) as Hmb.
      assert (s_stopRequested (m_session (budget_finish m2)) = true /\
        load (budget_finish m2) = load m2) as [Hs3 Hl3].
      { by destruct (settle_budget m2) as [f ->]. }
      revert Hmb Hs3 Hl3 Hi'. generalize (budget_finish m2). intros m3 Hmb Hs3 Hl3.
      change (s_stopRequested (m_session (on_session
        (fun s => s <| s_cleanupDone := negb (s_vpnActive s) |>) m3))) with
        (s_stopRequested (m_session m3)).
      rewrite Hs3. cbn [orb]. unfold finish_idle. set (mm := appendLocked _ _). intros Hi'.
      assert (m_workers mm = ∅) as Hwm by exact (re_workers _ _ _ Hmb).
      split_and!.
      * constructor; [|done|].
        -- rewrite (remaining_none mm Hwm), Hrem. change (load mm) with (load m3). cbn. lia.
        -- intros _. split; [done|]. left. destruct Hi' as [_ _ _ _ Ho Hsh].
           destruct Hsh as [_ []|_ []|_ []|? ? Hx _]; try done.
           ++ split_and!; try done. destruct Ho as [Hlive _ _ _ _ _ _ _].
              rewrite rs_ledger, rs_network in Hlive. by apply Permutation_nil_r in Hlive.
           ++ rewrite Hwm in Hx. apply (f_equal (lookup wid0)) in Hx.
              by rewrite lookup_singleton_eq, lookup_empty in Hx.
      * done.
      * intros wid' k'. by rewrite Hwm, lookup_empty.
    + set (mm := spawn_finish _ _) in *.
      assert (m_workers mm = {[m_next m2 := mkWorker (wk_generation k) zeroTarget None (PFinish None)]}) as Hwm.
      { unfold mm. cbn. rewrite (re_workers _ _ _ Hm). done. }
      assert (m_workers mm <> ∅) as Hne.
      { rewrite Hwm. intros He. apply (f_equal (lookup (m_next m2))) in He.
        by rewrite lookup_singleton_eq, lookup_empty in He. }
      split_and!.
      * constructor; [|done|done]. rewrite (remaining_single mm _ _ Hwm), Hrem.
        change (load mm) with (load m2). cbn. lia.
      * done.
      * intros wid' k'. rewrite Hwm. by intros [_ <-]%lookup_singleton_Some.
Qed.
End stopping.

(** The two shapes of a goal below: a move, and a move after an acquisition. *)
Ltac moved H := apply H; (done || (cbn; lia)).
Ltac acquired H := eapply H; [done|cbn; lia].

(** Every piece makes progress, whatever was answered. *)
Lemma worker_progress now wid k r m m' :
  Inv m -> s_stopRequested (m_session m) = true -> m_workers m !! wid = Some k ->
  idle_reply r = false -> worker_step now wid k r m = Some m' -> progress m m'.
Proof.
  intros Hi Hsr Hk Hidle. destruct (the_worker _ _ _ Hi Hk) as [Hw Hr].
  pose proof (progress_move m wid k Hi Hk Hsr) as Hmove.
  pose proof (progress_acquire m wid k Hi Hk Hsr) as Hacq.
  unfold worker_step.
  destruct (wk_pc k) eqn:Hpc; intros Hs;
    lazymatch type of Hs with
    | waitForAttemptEnd _ _ _ _ _ _ = _ => idtac
    | _ => destruct r; try discriminate Hs; try injection Hs as <-
    end; try rewrite Hpc in Hmove; try rewrite Hpc in Hacq; cbn [distance] in Hmove, Hacq.
  - pose proof (Inv_prepareNetwork_begin m wid k Hi Hk Hpc) as Hi'. revert Hi'.
    unfold prepareNetwork_begin. destruct (s_vpnActive _); [intros _; moved Hmove|].
    destruct (s_activeProfiles _); [by intros []|]. case_match; [|by intros []].
    intros _. moved Hmove.
  - destruct (rn_network _ _ _ _ Hr) as [x Hx]. pose proof (rn_pc _ _ _ _ Hr) as Hpk.
    rewrite Hpc in Hpk. cbn in Hpk. rewrite Hpk, Hx. unfold prepareNetwork_tunnel.
    destruct err; [acquired Hacq|].
    case_match; [acquired Hacq|].
    case_match; [|acquired Hacq].
    pose proof (Hacq PlatformLease granted x k (PNetwork ref profile (Some x)) _ eq_refl) as Hp.
    specialize (Hp ltac:(cbn; lia)). destruct Hp. constructor; [|done|done]. exact pg_remaining0.
  - destruct (rn_network _ _ _ _ Hr) as [x Hx]. pose proof (rn_pc _ _ _ _ Hr) as Hpk.
    rewrite Hpc in Hpk. cbn in Hpk. rewrite Hpk, Hx. unfold prepareNetwork_runtime.
    repeat case_match; (acquired Hacq).
  - moved Hmove.
  - unfold prepareNetwork_check. case_match; moved Hmove.
  - pose proof (Inv_runStart_profiles m wid k Hi Hk Hpc) as Hi'. revert Hi'.
    unfold runStart_profiles. case_match; [|intros _; moved Hmove].
    case_match; [intros _; moved Hmove|by intros []].
  - unfold runStart_candidate, prepareCandidate. rewrite Hsr. cbn [orb].
    destruct rest; [moved Hmove|]. destruct index; moved Hmove.
  - unfold runStart_advance. rewrite (advance_stopped m wid k Hi Hk Hsr).
    moved Hmove.
  - destruct (in_run_facts m wid k Hi Hk) as [c []]; [by rewrite Hpc|]. destruct ro_ledger as [x Hx].
    unfold runStart_started. rewrite Hx.
    set (m1 := acquire AttemptLease granted (Some x) m). 
    set (err' := if _ : bool then _ else err). clearbody err'.
    destruct err' as [e|]; [|destruct (ctx_err k m1)]; try (acquired Hacq).
    all: case_bool_decide; (acquired Hacq).
  - destruct (in_run_facts m wid k Hi Hk) as [c []]; [by rewrite Hpc|]. destruct ro_ledger as [x Hx].
    unfold runStart_cleanup. rewrite Hx. destruct (cleanupContext_load m Hi now) as (? & ? & ?).
    moved Hmove.
  - destruct (ledger_empty work m); [|done]. injection Hs as <-. moved Hmove.
  - pose proof (rn_pc _ _ _ _ Hr) as Hpk. rewrite Hpc in Hpk. cbn in Hpk.
    destruct (release_step work err m) as [[m1 [e|]]|] eqn:Hrel; try discriminate Hs; injection Hs as <-.
    all: apply (progress_release m wid k Hi Hk Hsr) in Hrel; [|by left].
    all: destruct err; destruct Hrel as [? ?]; simplify_eq; try done.
    moved Hmove.
  - unfold runStart_next. repeat case_match; moved Hmove.
  - unfold runStart_connect. rewrite (advance_stopped m wid k Hi Hk Hsr).
    moved Hmove.
  - revert Hs. unfold waitForAttemptEnd. destruct failures_open.
    all: repeat case_match; intros; simplify_eq; try done;
      rewrite ?(health_after_stop m wid k Hi Hk Hsr); moved Hmove.
  - unfold finish_begin. rewrite (rn_active _ _ _ _ Hr), (rn_generation _ _ _ _ Hr), Z.eqb_refl.
    moved Hmove.
  - destruct (cleanupContext_load m Hi now) as (? & ? & ?).
    unfold retire_begin. repeat case_match; moved Hmove.
  - destruct (ledger_empty work m); [|done]. injection Hs as <-. moved Hmove.
  - pose proof (rn_pc _ _ _ _ Hr) as Hpk. rewrite Hpc in Hpk. destruct Hpk as [Hpk _].
    destruct (release_step work err m) as [[m1 [e|]]|] eqn:Hrel; try discriminate Hs; injection Hs as <-.
    all: apply (progress_release m wid k Hi Hk Hsr) in Hrel; [|by left].
    all: destruct err; destruct Hrel as [? ?]; simplify_eq; try done.
    moved Hmove.
  - unfold retire_network. rewrite Hsr. cbn [orb].
    destruct (rn_network _ _ _ _ Hr) as [x Hx]. rewrite Hx.
    case_match; moved Hmove.
  - destruct (cleanupContext_load m Hi now) as (? & ? & ?). moved Hmove.
  - destruct (ledger_empty network m); [|done]. injection Hs as <-. moved Hmove.
  - pose proof (rn_pc _ _ _ _ Hr) as Hpk. rewrite Hpc in Hpk. destruct Hpk as (Hn & _).
    destruct (release_step network err m) as [[m1 [e|]]|] eqn:Hrel; try discriminate Hs; injection Hs as <-.
    all: apply (progress_release m wid k Hi Hk Hsr) in Hrel; [|by right].
    all: destruct err; destruct Hrel as [? ?]; simplify_eq; try done.
    moved Hmove.
  - by apply commit_stopped.
Qed.

(** The worker of a stopped session is never stuck. *)
Lemma good_reply_enabled now wid k m :
  Inv m -> s_stopRequested (m_session m) = true -> m_workers m !! wid = Some k ->
  is_Some (worker_step now wid k (good_reply m k) m) /\ idle_reply (good_reply m k) = false.
Proof.
  intros Hi Hsr Hk. destruct (the_worker _ _ _ Hi Hk) as [Hw Hr]. pose proof (rn_pc _ _ _ _ Hr) as Hp.
  unfold worker_step, good_reply.
  assert (forall x, ledger_empty x m = false -> exists m1, release_step x None m = Some (m1, None)) as Hrel.
  { intros x. unfold ledger_empty, release_step. destruct (m_ledgers m !! x) as [[|]|]; try done. by eexists. }
  destruct (wk_pc k) eqn:Hpc; try (by split; [eexists|]).
  - destruct (ledger_empty work m) eqn:He; [by split; [eexists|]|].
    destruct (Hrel _ He) as [m1 ->]. by split; [eexists|].
  - split; [|done]. cbn. destruct (in_run_facts m wid k Hi Hk) as [c []]; [by rewrite Hpc|].
    unfold ctx_err. rewrite ro_ctx, (rn_canceled _ _ _ _ Hr) by (done || by apply (rn_stop _ _ _ _ Hr)).
    by eexists.
  - destruct (ledger_empty work m) eqn:He; [by split; [eexists|]|].
    destruct (Hrel _ He) as [m1 ->]. by split; [eexists|].
  - destruct (ledger_empty network m) eqn:He; [by split; [eexists|]|].
    destruct (Hrel _ He) as [m1 ->]. by split; [eexists|].
Qed.

(** A [finish] in which every release succeeds stays clean until it commits. *)
Lemma clean_finish_step now wid k m m' :
  Inv m -> s_stopRequested (m_session m) = true -> m_workers m !! wid = Some k ->
  clean_finish (wk_pc k) -> worker_step now wid k (good_reply m k) m = Some m' ->
  (forall wid' k', m_workers m' !! wid' = Some k' -> clean_finish (wk_pc k')) /\
  (m_workers m' = ∅ -> s_state (m_session m') = StateIdle).
Proof.
  intros Hi Hsr Hk Hclean. destruct (the_worker _ _ _ Hi Hk) as [Hw Hr].
  assert (forall m1 p, m_workers m1 = m_workers m -> clean_finish p ->
    (forall wid' k', m_workers (goto wid k p m1) !! wid' = Some k' -> clean_finish (wk_pc k')) /\
    (m_workers (goto wid k p m1) = ∅ -> s_state (m_session (goto wid k p m1)) = StateIdle)) as Hgoto.
  { intros m1 p Hw1 Hp. cbn. rewrite Hw1, Hw, insert_singleton_eq. split.
    - intros wid' k'. by intros [_ <-]%lookup_singleton_Some.
    - intros He. apply (f_equal (lookup wid)) in He. by rewrite lookup_singleton_eq, lookup_empty in He. }
  assert (forall x m1 err, release_step x None m = Some (m1, err) -> err = None /\ m_workers m1 = m_workers m) as Hrel.
  { intros x m1 err (l & tl & _ & [-> ->])%release_step_spec. done. }
  assert (forall m1, m_workers m1 = m_workers m ->
    (forall wid' k', m_workers m1 !! wid' = Some k' -> clean_finish (wk_pc k')) /\
    (m_workers m1 = ∅ -> s_state (m_session m1) = StateIdle)) as Hstay.
  { intros m1 Hw1. rewrite Hw1, Hw. split.
    - intros wid' k'. by intros [_ <-]%lookup_singleton_Some.
    - intros He. apply (f_equal (lookup wid)) in He. by rewrite lookup_singleton_eq, lookup_empty in He. }
  unfold worker_step, good_reply. destruct (wk_pc k) eqn:Hpc; try done; cbn in Hclean.
  - intros [= <-]. unfold finish_begin.
    rewrite (rn_active _ _ _ _ Hr), (rn_generation _ _ _ _ Hr), Z.eqb_refl. by apply Hgoto.
  - intros [= <-]. destruct (cleanupContext_heap now m). unfold retire_begin.
    destruct work; [|by apply Hgoto]. case_bool_decide; by apply Hgoto.
  - destruct (ledger_empty work m) eqn:He.
    { intros [= <-]. by apply Hgoto. }
    destruct (release_step work None m) as [[m1 err]|] eqn:Hrs; [|done].
    destruct (Hrel _ _ _ Hrs) as [-> Hw1]. intros [= <-]. by apply Hstay.
  - destruct cleanupErr; [done|]. intros [= <-]. unfold retire_network.
    repeat case_match; by apply Hgoto.
  - intros [= <-]. destruct (cleanupContext_heap now m). by apply Hgoto.
  - destruct (ledger_empty network m) eqn:He.
    { intros [= <-]. by apply Hgoto. }
    destruct (release_step network None m) as [[m1 err]|] eqn:Hrs; [|done].
    destruct (Hrel _ _ _ Hrs) as [-> Hw1]. intros [= <-]. by apply Hstay.
  - destruct cleanupErr; [done|]. intros [= <-].
    destruct (commit_stopped m wid k Hi Hk Hsr now _ _ _ Hpc) as (_ & Hidle & Hfin).
    split; [|by apply Hidle]. intros wid' k' H. by rewrite (Hfin _ _ H).
Qed.

(** ** Whole runs *)

Section machine.
Context `{ConfigParser}.

Lemma stop_run_bounded evs m m' :
  Inv m -> s_stopRequested (m_session m) = true -> forallb worker_event evs = true ->
  run evs m = Some m' ->
  length evs + remaining m' <= remaining m /\ s_stopRequested (m_session m') = true /\ Inv m' /\
  (evs <> [] -> m_workers m' = ∅ -> settled m').
Proof.
  revert m. induction evs as [|[now ev] evs IH]; intros m Hi Hsr Hall Hrun; cbn in Hrun.
  { injection Hrun as <-. cbn. split_and!; try done. }
  cbn in Hall. apply andb_true_iff in Hall as [Hev Hall].
  destruct (step now ev m) as [m1|] eqn:Hs; [|done].
  pose proof (Inv_step _ _ _ _ Hi Hs) as Hi1.
  assert (progress m m1) as [Hrem Hsr1 Hset].
  { revert Hs. unfold step. destruct (m_panic m); [done|]. destruct ev; try done.
    destruct (m_workers m !! wid) as [k|] eqn:Hk; [|done].
    apply worker_progress; try done. cbn in Hev. by apply negb_true_iff in Hev. }
  destruct (IH m1 Hi1 Hsr1 Hall Hrun) as (Hlen & Hsr' & Hi' & Hset'). split_and!; try done.
  - cbn. lia.
  - intros _ Hw. destruct evs; [|by apply Hset']. cbn in Hrun. injection Hrun as <-. auto.
Qed.

(** With an environment that succeeds, the stop runs to its end. *)
Lemma stop_run_exists n m :
  Inv m -> s_stopRequested (m_session m) = true -> remaining m <= n ->
  exists evs m', forallb worker_event evs = true /\ run evs m = Some m' /\ m_workers m' = ∅ /\
    (m_workers m <> ∅ ->
     (forall wid k, m_workers m !! wid = Some k -> clean_finish (wk_pc k)) ->
     s_state (m_session m') = StateIdle).
Proof.
  revert m. induction n as [|n IH]; intros m Hi Hsr Hn.
  all: destruct (decide (m_workers m = ∅)) as [He|Hne]; [by exists [], m|].
  all: destruct (map_choose _ Hne) as (wid & k & Hk).
  all: destruct (good_reply_enabled 0 wid k m Hi Hsr Hk) as [[m1 Hs] Hidle].
  all: pose proof (worker_progress _ _ _ _ _ _ Hi Hsr Hk Hidle Hs) as [Hrem Hsr1 Hset].
{ lia. }

  assert (step 0 (EvWorker wid (good_reply m k)) m = Some m1) as Hstep.
  { unfold step. by rewrite (inv_panic _ Hi), Hk. }
  destruct (IH m1) as (evs & m' & Hall & Hrun & Hw' & Hclean); [by eapply Inv_step|done|lia|].
  exists ((0%Z, EvWorker wid (good_reply m k)) :: evs), m'. split_and!; try done.
  - cbn. unfold worker_event at 1. cbn. by rewrite Hidle.
  - cbn. by rewrite Hstep.
  - intros _ Hcl. destruct (clean_finish_step _ _ _ _ _ Hi Hsr Hk (Hcl _ _ Hk) Hs) as [Hcl1 Hend].
    destruct (decide (m_workers m1 = ∅)) as [He1|]; [|by apply Hclean].
    destruct evs as [|[now ev] evs].
    + cbn in Hrun. injection Hrun as <-. auto.
    + cbn in Hall. apply andb_true_iff in Hall as [Hev _]. cbn in Hrun. revert Hrun.
      unfold step. destruct (m_panic m1); [done|]. destruct ev; try done. by rewrite He1, lookup_empty.
Qed.
End machine.
