(* ===== verification/Scenario.v ===== *)
(** * A concrete history of the manager

    Two profiles; the first candidate fails, the second connects, the
    connection is stopped and cleaned up.  The theorems about reachable
    managers are instantiated along this history. *)

From S2P Require Import Prelude Errors Values Session Activation Manager Worker.

Definition outlineProfile : RuntimeProfile :=
  mkRuntimeProfile (mkProfileSummary 0 ProtocolOutline "first")
    (mkConfig "ss://first" [] []) ["10.0.0.0/8"].

Definition xrayProfile : RuntimeProfile :=
  mkRuntimeProfile (mkProfileSummary 1 ProtocolXray "second")
    (mkConfig "ss://second" [] []) ["10.0.0.0/8"].

(** A parser that accepts every document as these two profiles, with the
    document as its digest. *)
#[export] Instance twoProfiles : ConfigParser.
Proof.
  refine {| parseConfig raw := Ok (mkParsedConfig raw [outlineProfile; xrayProfile] "") |}.
  intros raw parsed [= <-]. done.
Defined.

Definition fresh : manager := NewManager "owner" None true None (Ok "").

Definition auto : StartTarget := mkStartTarget AutoSelect 0 false "" None.

Definition w (r : reply) : event := EvWorker 4 r.

(** Configure, accept, start; the network is prepared and the first candidate
    fails; the second connects; stop, release. *)
Definition history : list event :=
  [EvConfigure None 1; EvAccept 1 None (mkLoadedConfig "doc" ConfigSourceInline "") io_ok;
   EvStart 2 auto false io_ok;
   w RNone; w (RLease true None); w (RLease true None); w RNone; w RNone; w RNone; w RNone;
   w RNone; w (RLease false (Some (EText "refused"))); w RNone; w RNone; w RNone; w RNone;
   w RNone; w (RLease true None); w RNone;
   EvStop 2 None io_ok; w RCanceled; w RNone; w RNone; w (RClose None); w RNone; w RNone;
   w RNone; w (RClose None); w (RClose None); w RNone; w RNone].

Definition timed (evs : list event) : list (Z * event) := map (fun e => (0%Z, e)) evs.

(** The manager after the first [n] events. *)
Definition after (n : nat) : manager :=
  match run (timed (take n history)) fresh with Some m => m | None => fresh end.

Definition configured : manager := after 2.
Definition preparing : manager := after 5.
Definition connected : manager := after 19.
Definition stopping : manager := after 20.
Definition releasing : manager := after 27.
Definition idle : manager := after 31.

(** The connection closed by [StopAndWait], and a start that comes too late. *)
Definition closed : manager :=
  match run (timed (take 19 history ++ [EvStopAndWait])) fresh with Some m => m | None => fresh end.
Definition late : list (Z * event) := timed [EvStart 8 auto false io_ok].
Definition closed_later : manager :=
  match run late closed with Some m => m | None => fresh end.

(** The value an operation returned, or the error it reported. *)
Definition answer {A E} (d : A) (x : result A E) : A := match x with Ok a => a | Err _ => d end.
Definition problem {A E} (d : E) (x : result A E) : E := match x with Ok _ => d | Err e => e end.

Lemma answered {M A E} (d : A) (p : M * result A E) :
  is_ok p.2 = true -> p = (p.1, Ok (answer d p.2)).
Proof. by destruct p as [m [a|e]]. Qed.

Lemma failed {M A E} (d : E) (p : M * result A E) :
  is_ok p.2 = false -> p = (p.1, Err (problem d p.2)).
Proof. by destruct p as [m [a|e]]. Qed.

Lemma closed_reachable : reachable closed.
Proof.
  exists "owner", None, true, None, (Ok ""), (timed (take 19 history ++ [EvStopAndWait])).
  vm_compute. reflexivity.
Qed.

Lemma after_reachable n : is_Some (run (timed (take n history)) fresh) -> reachable (after n).
Proof.
  intros [m Hm]. exists "owner", None, true, None, (Ok ""), (timed (take n history)).
  unfold after, fresh in *. by rewrite Hm.
Qed.
