(* ===== verification/ManagerTheorems.v ===== *)
(** * What the session manager guarantees

    Theorems about every manager a history of the program leads to: safety of
    the state machine, ownership of leases, the stop and closing fences, the
    announced event sequence, and the termination of a requested stop. *)

From S2P Require Import Prelude Errors Values Session Activation Manager Worker Ownership Invariant InvariantApi InvariantWorker Effects Drain Scenario.

(** Discharge [reachable] along the concrete history. *)
Ltac by_history := apply after_reachable; vm_compute; eexists; reflexivity.

Section guarantees.
Context `{ConfigParser}.

(** C1: no history makes the manager index an empty or short profile list,
    call a nil cancel function or use a nil ledger or budget: it never
    panics. *)
Theorem manager_never_panics m : reachable m -> m_panic m = false.
Proof. intros Hm. apply (inv_panic _ (reachable_Inv _ Hm)). Qed.

(** at most one goroutine drives the session; there is one exactly while
    the state is PROBING, PREPARING, CONNECTED or STOPPING, and it works for
    the current generation. *)
Theorem one_worker_drives_the_session m :
  reachable m ->
  (m_workers m = ∅ /\ attemptActive (s_state (m_session m)) = false) \/
  (exists wid k, m_workers m = {[wid := k]} /\
     attemptActive (s_state (m_session m)) = true /\
     wk_generation k = s_generation (m_session m)).
Proof.
  intros Hm. destruct (inv_shape _ (reachable_Inv _ Hm)) as [Hw []|Hw []|Hw []|wid k Hw []].
  - by left.
  - left. by rewrite dm_state.
  - left. by rewrite bl_state.
  - right. by exists wid, k.
Qed.

(** C4: a snapshot that reports complete cleanup is truthful: no lease is
    live, no goroutine runs and no protection is active. *)
Theorem cleanup_complete_owns_nothing m :
  reachable m -> sn_CleanupComplete (snapshotLocked (m_session m)) = true ->
  m_live m = [] /\ m_workers m = ∅ /\ sn_VPNActive (snapshotLocked (m_session m)) = false.
Proof.
  cbn. intros Hm Hd. pose proof (reachable_Inv _ Hm) as Hi.
  destruct (inv_shape _ Hi) as [Hw []|Hw []|Hw []|wid k Hw []]; try congruence.
  split_and!; try done. destruct (inv_owned _ Hi) as [Hl _ _ _ _ _ _ _].
  rewrite rs_ledger, rs_network in Hl. by apply Permutation_nil_r in Hl.
Qed.

(** the two ledgers hold every live lease exactly once, the attempt
    ledger only leases of the runtime's [Start], the network ledger only
    those of the platform and of [PrepareNetwork]. *)
Theorem ledgers_hold_the_live_leases m :
  reachable m ->
  let attempt := ledger_of (m_ledgers m) (s_ledger (m_session m)) in
  let network := ledger_of (m_ledgers m) (s_networkLedger (m_session m)) in
  m_live m ≡ₚ attempt ++ network /\ NoDup (m_live m) /\
  Forall attempt_kind attempt /\ Forall network_kind network.
Proof. intros Hm. by destruct (inv_owned _ (reachable_Inv _ Hm)). Qed.

(** After a stop was requested an unfinished attempt can only be
    STOPPING, with its context canceled and no switch pending, until a new
    start. *)
Theorem stop_is_a_fence m :
  reachable m -> s_stopRequested (m_session m) = true ->
  attemptActive (s_state (m_session m)) = true ->
  s_state (m_session m) = StateStopping /\ s_pending (m_session m) = None /\
  (forall c, s_cancel (m_session m) = Some c -> m_canceled m !! c = Some true).
Proof.
  intros Hm Hs Ha. destruct (running_shape m (reachable_Inv _ Hm) Ha) as (wid & k & _ & []).
  split_and!; auto. destruct (s_pending (m_session m)) as [p|] eqn:Hp; [|done].
  destruct (rn_pending p eq_refl). congruence.
Qed.

(** Once [StopAndWait] closed the session, no event other than [Resume]
    begins a generation, a network generation or a runtime start. *)
Theorem closing_starts_nothing m evs m' :
  reachable m -> s_closing (m_session m) = true ->
  Forall (fun ev => ev.2 <> EvResume) evs -> run evs m = Some m' ->
  s_closing (m_session m') = true /\
  s_generation (m_session m') = s_generation (m_session m) /\
  s_networkGeneration (m_session m') = s_networkGeneration (m_session m) /\
  exists outs, m_outputs m' = outs ++ m_outputs m /\
    forall ref profile, ~ In (ORuntimeStart ref profile) outs.
Proof.
  intros Hm Hc Hne. pose proof (reachable_Inv _ Hm) as Hi. clear Hm. revert m Hi Hc.
  induction evs as [|[now ev] evs IH]; intros m Hi Hc Hr; cbn in Hr.
  { injection Hr as <-. split_and!; try done. exists []. split; [done|by intros ? ? []]. }
  inversion_clear Hne as [|? ? Hev Hevs]. cbn in Hev.
  destruct (step now ev m) as [m1|] eqn:Hs; [|done].
  pose proof (Inv_step _ _ _ _ Hi Hs) as Hi1.
  destruct (fenced_step_closing _ _ _ _ Hi Hc Hev Hs) as [Hc1 Hg1 Hn1].
  rewrite Hc in Hc1. destruct (IH Hevs m1 Hi1 Hc1 Hr) as (? & Hg & Hn & outs & Ho & Hns).
  split_and!; try congruence. destruct (step_effects _ _ _ _ Hi Hs) as [outs1 [Ho1 Ha1 _ _]].
  exists (outs ++ outs1). split; [by rewrite Ho, Ho1, app_assoc|].
  intros ref p [Hin|Hin]%in_app_or; [by eapply Hns|].
  eapply List.Forall_forall in Ha1; [|exact Hin]. cbn in Ha1. destruct Ha1 as (_ & Hsr & _).
  pose proof (inv_closing _ Hi1 Hc1). congruence.
Qed.

(** C7: the runtime is started only behind an active protected network, for
    the session's current generation and never after a stop. *)
Theorem runtime_starts_protected now ev m m' outs ref profile :
  reachable m -> step now ev m = Some m' -> m_outputs m' = outs ++ m_outputs m ->
  In (ORuntimeStart ref profile) outs ->
  s_vpnActive (m_session m') = true /\ s_stopRequested (m_session m') = false /\
  ref = mkSessionRef (s_id (m_session m')) (s_generation (m_session m')).
Proof.
  intros Hm Hs Ho Hin. destruct (step_effects _ _ _ _ (reachable_Inv _ Hm) Hs) as [outs' [Ho' Ha _ _]].
  rewrite Ho in Ho'. apply app_inv_tail in Ho' as <-.
  by eapply List.Forall_forall in Ha; [|exact Hin].
Qed.

(** C3: the protecting network is the last thing given up.  A release takes
    one live lease; a platform or network lease is released only when no
    attempt lease is live, and only because a stop was requested or the
    protection never became active: a switch, a retry or a recovery never
    opens it. *)
Theorem network_is_released_last now ev m m' outs l :
  reachable m -> step now ev m = Some m' -> m_outputs m' = outs ++ m_outputs m ->
  In (ORelease l) outs ->
  (l ∈ m_live m) /\ (l ∉ m_live m') /\
  (l_kind l <> AttemptLease ->
   Forall (fun x => l_kind x <> AttemptLease) (m_live m) /\
   (s_stopRequested (m_session m) = true \/ s_vpnActive (m_session m) = false)).
Proof.
  intros Hm Hs Ho Hin. destruct (step_effects _ _ _ _ (reachable_Inv _ Hm) Hs) as [outs' [Ho' Ha _ _]].
  rewrite Ho in Ho'. apply app_inv_tail in Ho' as <-.
  by eapply List.Forall_forall in Ha; [|exact Hin].
Qed.

(** The sequence clients order snapshots by is one plus the number of
    published changes, modulo 2^64, and a waiter on the [changed] channel
    has missed exactly the changes published since. *)
Theorem sequence_counts_published_changes m :
  reachable m ->
  s_sequence (m_session m) = u64 (1 + Z.of_nat (publishes (m_outputs m))) /\
  s_changed (m_session m) = publishes (m_outputs m).
Proof. apply reachable_counted. Qed.

(** C5: a requested stop terminates.  Whatever the platform, the runtime
    and the closers answer, the goroutines take at most [remaining m] more
    steps; when none is left the session is IDLE and owns nothing, or it
    reports a cleanup failure. *)
Theorem requested_stop_terminates m evs m' :
  reachable m -> s_stopRequested (m_session m) = true -> m_workers m <> ∅ ->
  forallb worker_event evs = true -> run evs m = Some m' ->
  length evs <= remaining m /\ (m_workers m' = ∅ -> settled m').
Proof.
  intros Hm Hsr Hw Hall Hr.
  destruct (stop_run_bounded evs m m' (reachable_Inv _ Hm) Hsr Hall Hr) as (Hl & _ & _ & Hs).
  split; [lia|]. intros Hw'. apply Hs; [|done]. intros ->. cbn in Hr. congruence.
Qed.

(** C6: a requested stop is never stuck.  Some run of the goroutines ends
    it, and a retry of failed cleanup in which every release succeeds ends
    in IDLE with nothing owned. *)
Theorem requested_stop_completes m :
  reachable m -> s_stopRequested (m_session m) = true -> m_workers m <> ∅ ->
  exists evs m', forallb worker_event evs = true /\ run evs m = Some m' /\ settled m' /\
    ((forall wid k, m_workers m !! wid = Some k -> wk_pc k = PFinish None) ->
     s_state (m_session m') = StateIdle /\ m_live m' = []).
Proof.
  intros Hm Hsr Hw. pose proof (reachable_Inv _ Hm) as Hi.
  destruct (stop_run_exists _ m Hi Hsr (le_n _)) as (evs & m' & Hall & Hr & Hw' & Hidle).
  exists evs, m'. assert (settled m') as Hset.
  { destruct (stop_run_bounded evs m m' Hi Hsr Hall Hr) as (_ & _ & _ & Hs).
    apply Hs; [|done]. intros ->. cbn in Hr. congruence. }
  split_and!; try done. intros Hpc. assert (s_state (m_session m') = StateIdle) as Hst.
  { apply Hidle; [done|]. intros wid k Hk. by rewrite (Hpc _ _ Hk). }
  split; [done|]. destruct Hset as [_ [(_ & _ & Hl)|[Hf _]]]; [done|congruence].
Qed.
End guarantees.

(** ** The guarantees along the concrete history *)

Lemma manager_never_panics_witness : m_panic connected = false.
Proof. apply (manager_never_panics connected). by_history. Defined.

Lemma one_worker_witness :
  (m_workers connected = ∅ /\ attemptActive (s_state (m_session connected)) = false) \/
  (exists wid k, m_workers connected = {[wid := k]} /\
     attemptActive (s_state (m_session connected)) = true /\
     wk_generation k = s_generation (m_session connected)).
Proof. apply (one_worker_drives_the_session connected). by_history. Defined.

Lemma cleanup_complete_witness :
  m_live idle = [] /\ m_workers idle = ∅ /\ sn_VPNActive (snapshotLocked (m_session idle)) = false.
Proof. apply (cleanup_complete_owns_nothing idle); [by_history|by vm_compute]. Defined.

Lemma ledgers_hold_witness :
  m_live connected ≡ₚ
    ledger_of (m_ledgers connected) (s_ledger (m_session connected)) ++
    ledger_of (m_ledgers connected) (s_networkLedger (m_session connected)).
Proof. refine (proj1 (ledgers_hold_the_live_leases connected _)). by_history. Defined.

Lemma stop_is_a_fence_witness : s_state (m_session stopping) = StateStopping.
Proof.
  refine (proj1 (stop_is_a_fence stopping _ _ _)); [by_history|by vm_compute|by vm_compute].
Defined.

Lemma closing_witness : s_generation (m_session closed_later) = s_generation (m_session closed).
Proof.
  destruct (closing_starts_nothing closed late closed_later) as (_ & Hg & _).
  - apply closed_reachable.
  - by vm_compute.
  - by repeat constructor.
  - vm_compute. reflexivity.
  - exact Hg.
Defined.

Lemma runtime_starts_protected_witness :
  s_vpnActive (m_session (after 11)) = true.
Proof.
  refine (proj1 (runtime_starts_protected 0 (w RNone) (after 10) (after 11)
    (take 2 (m_outputs (after 11))) (mkSessionRef "owner" 1) outlineProfile _ _ _ _)).
  - by_history.
  - vm_compute. reflexivity.
  - vm_compute. reflexivity.
  - vm_compute. left. reflexivity.
Defined.

Lemma network_is_released_last_witness :
  Forall (fun x => l_kind x <> AttemptLease) (m_live releasing).
Proof.
  destruct (network_is_released_last 0 (w (RClose None)) releasing (after 28)
    (take 1 (m_outputs (after 28))) (mkLease NetworkLease 6)) as (_ & _ & Hn).
  - by_history.
  - vm_compute. reflexivity.
  - vm_compute. reflexivity.
  - vm_compute. left. reflexivity.
  - apply Hn. done.
Defined.

Lemma sequence_counts_witness : s_changed (m_session idle) = publishes (m_outputs idle).
Proof. refine (proj2 (sequence_counts_published_changes idle _)). by_history. Defined.

Lemma requested_stop_terminates_witness :
  length (timed (drop 20 history)) <= remaining stopping.
Proof.
  refine (proj1 (requested_stop_terminates stopping _ idle _ _ _ _ _)).
  - by_history.
  - by vm_compute.
  - vm_compute. discriminate.
  - by vm_compute.
  - vm_compute. reflexivity.
Defined.

Lemma requested_stop_completes_witness :
  exists evs m', forallb worker_event evs = true /\ run evs stopping = Some m' /\ settled m'.
Proof.
  destruct (requested_stop_completes stopping) as (evs & m' & H1 & H2 & H3 & _).
  - by_history.
  - by vm_compute.
  - vm_compute. discriminate.
  - by exists evs, m'.
Defined.
