(* ===== verification/StartOperation.v ===== *)
(** * The whole of Configure and Start (core/sessionapi/api.go)

    The critical sections of the two operations as one call runs them, with
    what other clients and the workers do in between: while a configuration is
    loaded, and before [Start] takes the lock. And what the code means by a
    start that is refused. *)

From S2P Require Import Prelude Errors Values Session Activation Manager Invariant InvariantApi Effects.
Local Open Scope string_scope.

(** What one call of [Start] meets: the request context at its entry and when
    a loaded configuration is accepted, the answer of the loader, the answers
    of the stores, the clock, and the operations of others in between. *)
Record startMeets := mkStartMeets {
  sm_ctxErr : option gerr;
  sm_configureCtxErr : option gerr;
  sm_load : string -> result (LoadedConfig * parsedConfig) gerr;
  sm_acceptCtxErr : option gerr;
  sm_sourceIo : io_reply;
  sm_activationIo : io_reply;
  sm_acceptNow : Z;
  sm_startNow : Z;
  sm_whileLoading : manager -> manager;
  sm_beforeLock : manager -> manager
}.

(** The request has left [Configure]. *)
Definition answered_request (request : Z) (m : manager) : manager :=
  m <| m_inflight ::= List.remove Z.eq_dec request |>.

Definition ManagerConfigure (meets : startMeets) (sessionID : string) (expectedSequence : Z)
    (rawConfig : string) (m : manager) : manager * result ConfigureResult gerr :=
  match get sessionID m with
  | Some err => (m, Err err)
  | None =>
      match Configure_begin (sm_configureCtxErr meets) expectedSequence m with
      | (m, Err err) => (m, Err err)
      | (m, Ok request) =>
          let m := answered_request request (sm_whileLoading meets m) in
          match sm_load meets rawConfig with
          | Err err => (m, Err err)
          | Ok (loaded, parsed) =>
              Configure_accept (sm_acceptNow meets) (sm_acceptCtxErr meets) request loaded parsed
                (sm_sourceIo meets) m
          end
      end
  end.

Definition ManagerStart (meets : startMeets) (sessionID : string) (expectedSequence : Z)
    (target : StartTarget) (m : manager) : manager * result GenerationResult gerr :=
  match Start_begin sessionID (sm_ctxErr meets) target m with
  | Err err => (m, Err err)
  | Ok (None, target) =>
      Start_locked (sm_startNow meets) (sm_activationIo meets) expectedSequence target false
        (sm_beforeLock meets m)
  | Ok (Some source, target) =>
      match ManagerConfigure meets sessionID expectedSequence source m with
      | (m, Err err) => (m, Err err)
      | (m, Ok configured) =>
          Start_locked (sm_startNow meets) (sm_activationIo meets) (cr_Sequence configured) target
            true (sm_beforeLock meets m)
      end
  end.

(** ** Refusals *)

(** Why the locked part refuses, in the order of the checks, with the failure
    code of each: a stale sequence; no configuration; a session that failed
    behind its network and is asked for anything but its saved selection; a
    selection outside the inventory; an inventory that is not the caller's; a
    session that is busy and not asked to switch, or cannot. *)
Inductive refused_by_session (s : session) (expectedSequence : Z) (target : StartTarget)
    (supplied : bool) : FailureCode -> Prop :=
| refused_stale :
    s_sequence s <> expectedSequence ->
    refused_by_session s expectedSequence target supplied FailureConflict
| refused_unconfigured :
    s_sequence s = expectedSequence -> s_configured s = false ->
    refused_by_session s expectedSequence target supplied FailureNotConfigured
| refused_retry :
    s_sequence s = expectedSequence -> s_configured s = true -> canRetry s = true ->
    (supplied = true \/ t_ReplaceCurrent target = true \/
     ~ same_target target (s_activeTarget s) \/
     (t_Digest target <> "" /\ t_Digest target <> s_activeDigest s)) ->
    refused_by_session s expectedSequence target supplied FailureConflict
| refused_selection :
    s_sequence s = expectedSequence -> s_configured s = true -> canRetry s = false ->
    ~ target_ok target (s_profiles s) ->
    refused_by_session s expectedSequence target supplied FailureInvalidArgument
| refused_inventory :
    s_sequence s = expectedSequence -> s_configured s = true -> canRetry s = false ->
    target_ok target (s_profiles s) ->
    t_Digest target <> "" -> t_Digest target <> s_digest s ->
    refused_by_session s expectedSequence target supplied FailureConflict
| refused_busy :
    s_sequence s = expectedSequence -> s_configured s = true -> canRetry s = false ->
    target_ok target (s_profiles s) ->
    (t_Digest target = "" \/ t_Digest target = s_digest s) ->
    configurationBlocked s = true ->
    (t_ReplaceCurrent target = false \/ canSwitch s = false) ->
    refused_by_session s expectedSequence target supplied FailureConflict.

(** The store could not keep the selection: its answer is the error's cause,
    and it may or may not have kept it. *)
Definition refused_by_store (io : io_reply) (m m' : manager) (e : gerr) : Prop :=
  is_Some (io_err io) /\
  e = failureWithCause FailurePlatform "automatic startup selection could not be saved" (io_err io) /\
  (exists store, m_sourceStore m = Some store /\ ss_activation store = true) /\
  s_sourceKind (m_session m) = ConfigSourceURL /\
  exists store, m' = m <| m_sourceStore := store |>.

(** ** Where [Start] refuses *)

Lemma validateStartTarget_refused s target err :
  validateStartTarget s target = Some err ->
  (~ target_ok target (s_profiles s) /\ as_domain err = Some FailureInvalidArgument) \/
  (target_ok target (s_profiles s) /\ t_Digest target <> "" /\ t_Digest target <> s_digest s /\
   as_domain err = Some FailureConflict).
Proof.
  unfold validateStartTarget, target_ok.
  destruct (bool_decide_reflect (t_Mode target = AutoSelect)) as [Ha|Ha],
    (bool_decide_reflect (t_Mode target = ProfileIndex)) as [Hp|Hp]; cbn [negb andb]; try congruence.
  - destruct (negb _ && _) eqn:Hd; [|done]. intros [= <-]. split_bools. rewrite String.eqb_neq in *. right. by auto.
  - destruct (_ || _) eqn:Hr.
    + intros [= <-]. left. split; [|done]. apply orb_true_iff in Hr.
      intros [?|[_ ?]]; [done|]. destruct Hr; split_bools; lia.
    + destruct (negb _ && _) eqn:Hd; [|done]. intros [= <-]. split_bools. rewrite String.eqb_neq in *.
      right. split_and!; try done. right. split; [done|lia].
  - intros [= <-]. left. split; [|done]. by intros [?|[? _]].
Qed.

Lemma validateStartTarget_fine s target :
  validateStartTarget s target = None ->
  target_ok target (s_profiles s) /\ (t_Digest target = "" \/ t_Digest target = s_digest s).
Proof.
  unfold validateStartTarget, target_ok.
  destruct (bool_decide_reflect (t_Mode target = AutoSelect)) as [Ha|Ha],
    (bool_decide_reflect (t_Mode target = ProfileIndex)) as [Hp|Hp]; cbn [negb andb]; try congruence;
    try done.
  - destruct (String.eqb_spec (t_Digest target) ""), (String.eqb_spec (t_Digest target) (s_digest s));
      cbn; try done; auto.
  - destruct (_ || _) eqn:Hr; [done|]. split_bools.
    destruct (String.eqb_spec (t_Digest target) ""), (String.eqb_spec (t_Digest target) (s_digest s));
      cbn; try done; intros _; (split; [right; split; [done|lia]|auto]).
Qed.

Lemma saveActivationLocked_refused io target m m' err :
  saveActivationLocked io target m = (m', Some err) -> refused_by_store io m m' err.
Proof.
  intros Hs. destruct (saveActivationLocked_store io target m) as [t Ht]. rewrite Hs in Ht.
  cbn [fst] in Ht. subst m'. revert Hs. unfold saveActivationLocked, refused_by_store.
  destruct (m_sourceStore m) as [store|]; [|done].
  destruct (ss_activation store) eqn:Ha; [|done].
  destruct (bool_decide_reflect (s_sourceKind (m_session m) = ConfigSourceURL)); [|done]. cbn.
  destruct (io_err io) as [cause|]; [|done]. intros [= _ <-]. split_and!; eauto.
Qed.

Lemma retry_refused_selection now target supplied m m' e :
  retryLocked now target supplied m = (m', Err e) ->
  m' = m /\ as_domain e = Some FailureConflict /\
  (supplied = true \/ t_ReplaceCurrent target = true \/
   ~ same_target target (s_activeTarget (m_session m)) \/
   (t_Digest target <> "" /\ t_Digest target <> s_activeDigest (m_session m)))%string.
Proof.
  unfold retryLocked, same_target. destruct supplied; [by intros [= <- <-]; auto|].
  destruct (t_ReplaceCurrent target); [by intros [= <- <-]; auto|]. cbn [orb].
  destruct (bool_decide_reflect (t_Mode target = t_Mode (s_activeTarget (m_session m)))) as [Hm|Hm];
    cbn [negb orb]; [|by intros [= <- <-]; split_and!; try done; right; right; left; intros []].
  destruct (bool_decide _ && _) eqn:Hx; cbn [orb].
  { intros [= <- <-]. split_bools. split_and!; try done. right; right; left. intros [_ Hi].
    by apply Hi in H. }
  destruct (negb _ && _) eqn:Hd; [|done]. intros [= <- <-]. split_bools.
  rewrite String.eqb_neq in *. by auto 10.
Qed.

Lemma retry_accepted now target supplied m m' r :
  retryLocked now target supplied m = (m', Ok r) ->
  supplied = false /\ t_ReplaceCurrent target = false /\
  same_target target (s_activeTarget (m_session m)) /\
  (t_Digest target = "" \/ t_Digest target = s_activeDigest (m_session m))%string.
Proof.
  unfold retryLocked, same_target. destruct supplied; [done|].
  destruct (t_ReplaceCurrent target); [done|]. cbn [orb].
  destruct (bool_decide_reflect (t_Mode target = t_Mode (s_activeTarget (m_session m)))) as [Hm|Hm];
    cbn [negb orb]; [|done].
  destruct (bool_decide _ && _) eqn:Hx; cbn [orb]; [done|].
  destruct (negb _ && _) eqn:Hd; [done|]. intros _. split_and!; try done.
  - intros Hp. rewrite bool_decide_eq_true_2 in Hx by done. cbn in Hx.
    by apply negb_false_iff, Z.eqb_eq in Hx.
  - apply andb_false_iff in Hd as [Hd|Hd]; apply negb_false_iff, String.eqb_eq in Hd; auto.
Qed.

(** The locked part refuses for one of these reasons, with its code, and then
    leaves everything as it was, but for what a failing store kept. *)
Lemma Start_locked_refused now io expectedSequence target supplied m m' e :
  Start_locked now io expectedSequence target supplied m = (m', Err e) ->
  (m' = m /\ exists code, as_domain e = Some code /\
     refused_by_session (m_session m) expectedSequence target supplied code) \/
  refused_by_store io m m' e.
Proof.
  unfold Start_locked.
  destruct (Z.eqb_spec (s_sequence (m_session m)) expectedSequence) as [Hq|Hq]; cbn [negb].
  2: { intros [= <- <-]. left. split; [done|]. eexists. split; [done|]. by apply refused_stale. }
  destruct (s_configured (m_session m)) eqn:Hc; cbn [negb].
  2: { intros [= <- <-]. left. split; [done|]. eexists. split; [done|]. by apply refused_unconfigured. }
  destruct (canRetry (m_session m)) eqn:Hr.
  { intros H. apply retry_refused_selection in H as (-> & Hd & Hwhy). left. split; [done|].
    eexists. split; [done|]. by apply refused_retry. }
  destruct (validateStartTarget (m_session m) target) as [err|] eqn:Hv.
  { intros [= <- <-]. left. split; [done|].
    apply validateStartTarget_refused in Hv as [[Ht Hd]|(Ht & Hd1 & Hd2 & Hd)];
      (eexists; split; [done|]).
    - by apply refused_selection.
    - by apply refused_inventory. }
  apply validateStartTarget_fine in Hv as [Ht Hd].
  destruct (configurationBlocked (m_session m)) eqn:Hb.
  - unfold replaceLocked. destruct (negb _ || _) eqn:Hw.
    + intros [= <- <-]. left. split; [done|]. eexists. split; [done|].
      apply refused_busy; try done. apply orb_true_iff in Hw. rewrite !negb_true_iff in Hw. done.
    + destruct (saveActivationLocked io target m) as [m1 [err|]] eqn:Hs; [|done].
      intros [= <- <-]. right. by apply (saveActivationLocked_refused _ target).
  - destruct (saveActivationLocked io target m) as [m1 [err|]] eqn:Hs; [|done].
    intros [= <- <-]. right. by apply (saveActivationLocked_refused _ target).
Qed.

(** And it refuses whenever one of the reasons holds. *)
Lemma Start_locked_accepts now io expectedSequence target supplied m m' r code :
  Start_locked now io expectedSequence target supplied m = (m', Ok r) ->
  ~ refused_by_session (m_session m) expectedSequence target supplied code.
Proof.
  unfold Start_locked.
  destruct (Z.eqb_spec (s_sequence (m_session m)) expectedSequence) as [Hq|Hq]; cbn [negb]; [|done].
  destruct (s_configured (m_session m)) eqn:Hc; cbn [negb]; [|done].
  destruct (canRetry (m_session m)) eqn:Hr.
  { intros H. apply retry_accepted in H as (Hsup & Hrep & Hsame & Hdig).
    inversion 1 as [| |? ? ? [?|[?|[?|[? ?]]]]| | |]; try congruence. by destruct Hdig. }
  destruct (validateStartTarget (m_session m) target) as [err|] eqn:Hv; [done|].
  apply validateStartTarget_fine in Hv as [Ht Hd].
  destruct (configurationBlocked (m_session m)) eqn:Hb.
  - unfold replaceLocked. destruct (negb _ || _) eqn:Hw; [done|].
    apply orb_false_iff in Hw as [Hw1 Hw2]. apply negb_false_iff in Hw1, Hw2. intros _.
    inversion 1 as [| | | |? ? ? ? ? ?|? ? ? ? ? ? [?|?]]; try congruence. by destruct Hd.
  - intros _. inversion 1 as [| | | |? ? ? ? ? ?|]; try congruence. by destruct Hd.
Qed.

(** ** Where [Configure] refuses *)

(** A request number is taken before the configuration is loaded. *)
Definition request_taken (m : manager) : manager :=
  let request := u64 (s_configureRequest (m_session m) + 1) in
  on_session (fun s => s <| s_configureRequest := request |>) m
    <| m_inflight := request :: m_inflight m |>.

(** The manager when a loaded configuration comes up for acceptance. *)
Definition loaded_manager (meets : startMeets) (m : manager) : manager :=
  answered_request (u64 (s_configureRequest (m_session m) + 1))
    (sm_whileLoading meets (request_taken m)).

Definition shutting_down (s : session) : Prop :=
  s_cleanupFailed s = true \/ (s_closing s = true /\ s_cleanupDone s = false).

(** Why a configuration is refused, with the failure code of each reason and
    what is left: nothing changed, or only a request number was taken and given
    back around what others did, or a source store that failed may have kept
    the source. *)
Inductive configure_refused (meets : startMeets) (sessionID : string) (expectedSequence : Z)
    (rawConfig : string) (m : manager) : manager -> gerr -> Prop :=
| configure_foreign e :
    get sessionID m = Some e ->
    configure_refused meets sessionID expectedSequence rawConfig m m e
| configure_stale e :
    s_sequence (m_session m) <> expectedSequence -> as_domain e = Some FailureConflict ->
    configure_refused meets sessionID expectedSequence rawConfig m m e
| configure_closing e :
    shutting_down (m_session m) -> as_domain e = Some FailureConflict ->
    configure_refused meets sessionID expectedSequence rawConfig m m e
| configure_canceled e :
    is_Some (sm_configureCtxErr meets) -> as_domain e = Some FailureCanceled ->
    configure_refused meets sessionID expectedSequence rawConfig m m e
| configure_not_loaded e :
    sm_load meets rawConfig = Err e ->
    configure_refused meets sessionID expectedSequence rawConfig m (loaded_manager meets m) e
| configure_superseded e :
    s_configureRequest (m_session (loaded_manager meets m)) <>
      u64 (s_configureRequest (m_session m) + 1) ->
    as_domain e = Some FailureConflict ->
    configure_refused meets sessionID expectedSequence rawConfig m (loaded_manager meets m) e
| configure_accept_canceled e :
    is_Some (sm_acceptCtxErr meets) -> as_domain e = Some FailureCanceled ->
    configure_refused meets sessionID expectedSequence rawConfig m (loaded_manager meets m) e
| configure_accept_closing e :
    shutting_down (m_session (loaded_manager meets m)) -> as_domain e = Some FailureConflict ->
    configure_refused meets sessionID expectedSequence rawConfig m (loaded_manager meets m) e
| configure_not_stored e store :
    is_Some (io_err (sm_sourceIo meets)) -> as_domain e = Some FailurePlatform ->
    configure_refused meets sessionID expectedSequence rawConfig m
      (loaded_manager meets m <| m_sourceStore := store |>) e.

(** The session with a new inventory, as its next published change. *)
Definition with_inventory (loaded : LoadedConfig) (parsed : parsedConfig) (changed : nat) (now : Z)
    (s : session) : session :=
  s <| s_profiles := pc_profiles parsed |> <| s_digest := pc_digest parsed |>
    <| s_sourceKind := lc_Kind loaded |> <| s_sourceURL := lc_SourceURL loaded |>
    <| s_configured := true |> <| s_logsEndpoint := pc_logsEndpoint parsed |>
    <| s_sourceError := "" |> <| s_changed := changed |>
    <| s_sequence := u64 (s_sequence s + 1) |> <| s_lastTransitionAt := Some now |>.

(** And, when nothing of an earlier attempt is left, without its outcome. *)
Definition without_outcome (s : session) : session :=
  s <| s_active := None |> <| s_lastFailure := NoFailure |> <| s_lastFailureMessage := "" |>
    <| s_state := StateConfigured |> <| s_activeDigest := "" |> <| s_activeProfiles := [] |>
    <| s_activeTarget := zeroTarget |> <| s_recoveryOriginGeneration := 0%Z |>
    <| s_recoveryCount := 0%Z |>.

(** What an accepted configuration changes: the inventory, one number of the
    sequence, and at rest the outcome of the last attempt; never an attempt that
    runs, its generation, its network, its goroutines or what it owns. *)
Record configuration_accepted (loaded : LoadedConfig) (parsed : parsedConfig) (m m' : manager) :
    Prop := mkConfigurationAccepted {
  ca_session : exists changed now,
    let s := m_session m in
    m_session m' = with_inventory loaded parsed changed now s \/
    (s_cleanupDone s = true /\ s_cleanupFailed s = false /\ s_recovering s = false /\
     s_pending s = None /\
     m_session m' = with_inventory loaded parsed changed now (without_outcome s));
  ca_owned : m_live m' = m_live m /\ m_ledgers m' = m_ledgers m;
  ca_workers : m_workers m' = m_workers m /\ m_canceled m' = m_canceled m /\
    m_budgets m' = m_budgets m /\ m_next m' = m_next m
}.

Lemma shutting_down_bool s :
  s_cleanupFailed s || (s_closing s && negb (s_cleanupDone s)) = true -> shutting_down s.
Proof.
  unfold shutting_down. destruct (s_cleanupFailed s); [by left|].
  destruct (s_closing s), (s_cleanupDone s); cbn; try done. by right.
Qed.

Lemma Configure_accept_refused meets sessionID expectedSequence rawConfig m loaded parsed m' e :
  Configure_accept (sm_acceptNow meets) (sm_acceptCtxErr meets)
    (u64 (s_configureRequest (m_session m) + 1)) loaded parsed (sm_sourceIo meets)
    (loaded_manager meets m) = (m', Err e) ->
  configure_refused meets sessionID expectedSequence rawConfig m m' e.
Proof.
  unfold Configure_accept. set (w := loaded_manager meets m).
  unfold validateConfigureBeforeAccept.
  destruct (Z.eqb_spec (s_configureRequest (m_session w)) (u64 (s_configureRequest (m_session m) + 1)))
    as [Hr|Hr]; cbn [negb].
  2: { intros [= <- <-]. by apply configure_superseded. }
  destruct (sm_acceptCtxErr meets) as [err|] eqn:Hc.
  { intros [= <- <-]. apply configure_accept_canceled; [by rewrite Hc|done]. }
  destruct (_ || _) eqn:Hsh.
  { intros [= <- <-]. apply configure_accept_closing; [by apply shutting_down_bool|done]. }
  destruct (saveSource_store loaded (sm_sourceIo meets) w) as [t Ht].
  destruct (saveSource loaded (sm_sourceIo meets) w) as [m1 err] eqn:Hs. cbn [fst] in Ht. subst m1.
  destruct err as [err|]; [|done]. intros [= <- <-]. revert Hs. unfold saveSource.
  destruct (m_sourceStore w); [|done].
  destruct (bool_decide _), (io_err (sm_sourceIo meets)) eqn:Hio; try done; intros [= _ <-];
    (apply configure_not_stored; [by rewrite Hio|done]).
Qed.

Lemma Configure_accept_accepted now ctxErr request loaded parsed io m m' r :
  Configure_accept now ctxErr request loaded parsed io m = (m', Ok r) ->
  configuration_accepted loaded parsed m m' /\ cr_Sequence r = s_sequence (m_session m').
Proof.
  unfold Configure_accept. case_match; [done|].
  destruct (saveSource_store loaded io m) as [t Ht].
  destruct (saveSource loaded io m) as [m1 [err|]]; [done|]. cbn [fst] in Ht. subst m1.
  destruct m as [s ? ? ? ? ? ? ? ? ? ? ? ?].
  destruct s as [? ? ? ? ? ? ? ? ? ? ? ? ? ? ? ? ? ? ? ? ? activeDigest pending
                 ? ? ? cleanupDone cleanupFailed ? ? ? ? ? ? recovering ? ? ? ? ? ?].
  destruct parsed as [? profiles ?]. cbn.
  destruct (cleanupDone && negb cleanupFailed && negb recovering && negb (is_Some_b pending))
    eqn:Hrest; intros [= <- <-]; (split; [|done]).
  - split_bools. assert (pending = None) by (by destruct pending).
    destruct profiles; constructor; cbn; try done; eexists _, _; by right.
  - unfold retainPolicy. cbn. destruct (String.eqb activeDigest ""); [destruct profiles|];
      constructor; cbn; try done; eexists _, _; by left.
Qed.

Lemma ManagerConfigure_refused meets sessionID expectedSequence rawConfig m m' e :
  ManagerConfigure meets sessionID expectedSequence rawConfig m = (m', Err e) ->
  configure_refused meets sessionID expectedSequence rawConfig m m' e.
Proof.
  unfold ManagerConfigure, Configure_begin, validateConfigureBeforeLoad.
  destruct (get sessionID m) as [err|] eqn:Hg; [intros [= <- <-]; by apply configure_foreign|].
  destruct (Z.eqb_spec (s_sequence (m_session m)) expectedSequence) as [Hq|Hq]; cbn [negb].
  2: { intros [= <- <-]. by apply configure_stale. }
  destruct (_ || _) eqn:Hsh.
  { intros [= <- <-]. apply configure_closing; [by apply shutting_down_bool|done]. }
  destruct (sm_configureCtxErr meets) as [err|] eqn:Hc.
  { intros [= <- <-]. apply configure_canceled; [by rewrite Hc|done]. }
  destruct (sm_load meets rawConfig) as [[loaded parsed]|err] eqn:Hl.
  - intros H. by apply (Configure_accept_refused _ _ _ _ _ loaded parsed).
  - intros [= <- <-]. by apply configure_not_loaded.
Qed.

Lemma ManagerConfigure_accepted meets sessionID expectedSequence rawConfig m m' r :
  ManagerConfigure meets sessionID expectedSequence rawConfig m = (m', Ok r) ->
  s_sequence (m_session m) = expectedSequence /\
  exists loaded parsed, sm_load meets rawConfig = Ok (loaded, parsed) /\
    configuration_accepted loaded parsed (loaded_manager meets m) m' /\
    cr_Sequence r = s_sequence (m_session m').
Proof.
  unfold ManagerConfigure, Configure_begin, validateConfigureBeforeLoad.
  destruct (get sessionID m) as [err|]; [done|].
  destruct (Z.eqb_spec (s_sequence (m_session m)) expectedSequence) as [Hq|Hq]; cbn [negb]; [|done].
  destruct (_ || _); [done|]. destruct (sm_configureCtxErr meets); [done|].
  destruct (sm_load meets rawConfig) as [[loaded parsed]|err]; [|done].
  intros H. split; [done|]. exists loaded, parsed. split; [done|].
  by apply Configure_accept_accepted in H.
Qed.

(** ** The whole call *)

(** How a call gets to the locked part: as it began, or with the source it
    brought accepted as the configuration and nothing else of its doing. *)
Definition comes_to_lock (meets : startMeets) (sessionID : string) (expectedSequence : Z)
    (target : StartTarget) (m before : manager) (sequence : Z) : Prop :=
  match t_Source target with
  | None => before = m /\ sequence = expectedSequence
  | Some source =>
      t_Mode target = AutoSelect /\ s_sequence (m_session m) = expectedSequence /\
      exists loaded parsed, sm_load meets source = Ok (loaded, parsed) /\
        configuration_accepted loaded parsed (loaded_manager meets m) before /\
        sequence = s_sequence (m_session before)
  end.

(** Every way a start is refused, with its failure code and what is left. *)
Inductive start_refused (meets : startMeets) (sessionID : string) (expectedSequence : Z)
    (target : StartTarget) (m : manager) : manager -> gerr -> Prop :=
| start_foreign e :
    get sessionID m = Some e -> start_refused meets sessionID expectedSequence target m m e
| start_canceled e :
    is_Some (sm_ctxErr meets) -> as_domain e = Some FailureCanceled ->
    start_refused meets sessionID expectedSequence target m m e
| start_source_mode e :
    is_Some (t_Source target) -> t_Mode target <> AutoSelect ->
    as_domain e = Some FailureInvalidArgument ->
    start_refused meets sessionID expectedSequence target m m e
| start_not_configured source m' e :
    t_Source target = Some source -> t_Mode target = AutoSelect ->
    configure_refused meets sessionID expectedSequence source m m' e ->
    start_refused meets sessionID expectedSequence target m m' e
| start_by_session before sequence code e :
    comes_to_lock meets sessionID expectedSequence target m before sequence ->
    refused_by_session (m_session (sm_beforeLock meets before)) sequence
      (target <| t_Source := None |>) (is_Some_b (t_Source target)) code ->
    as_domain e = Some code ->
    start_refused meets sessionID expectedSequence target m (sm_beforeLock meets before) e
| start_by_store before sequence m' e :
    comes_to_lock meets sessionID expectedSequence target m before sequence ->
    refused_by_store (sm_activationIo meets) (sm_beforeLock meets before) m' e ->
    start_refused meets sessionID expectedSequence target m m' e.

Lemma locked_outcome meets sessionID expectedSequence target m before sequence :
  comes_to_lock meets sessionID expectedSequence target m before sequence ->
  match Start_locked (sm_startNow meets) (sm_activationIo meets) sequence
          (target <| t_Source := None |>) (is_Some_b (t_Source target))
          (sm_beforeLock meets before) with
  | (m', Err e) => start_refused meets sessionID expectedSequence target m m' e
  | (m', Ok _) =>
      exists before sequence,
        comes_to_lock meets sessionID expectedSequence target m before sequence /\
        forall code, ~ refused_by_session (m_session (sm_beforeLock meets before)) sequence
          (target <| t_Source := None |>) (is_Some_b (t_Source target)) code
  end.
Proof.
  intros Hlock. destruct (Start_locked _ _ _ _ _ _) as [m' [r|e]] eqn:Hs.
  - exists before, sequence. split; [done|]. intros code. by eapply Start_locked_accepts.
  - apply Start_locked_refused in Hs as [(-> & code & Hd & Hwhy)|Hstore].
    + by apply (start_by_session _ _ _ _ _ before sequence code).
    + by apply (start_by_store _ _ _ _ _ before sequence).
Qed.
