(* ===== verification/OperationTheorems.v ===== *)
(** * What the operations of the session API do

    The functional behaviour of [Configure], [Start], [Stop], the health
    recovery and the primary action, branch by branch. *)

From S2P Require Import Prelude Errors Values Session Activation Manager Worker Ownership Invariant InvariantApi InvariantWorker Effects Scenario StartOperation.

(** ** Helpers *)

Lemma saveActivationLocked_ok target m :
  (saveActivationLocked io_ok target m).2 = None.
Proof. unfold saveActivationLocked. by repeat case_match. Qed.

Lemma saveActivationLocked_frame io target m m' err :
  saveActivationLocked io target m = (m', err) ->
  m_session m' = m_session m /\ m_outputs m' = m_outputs m /\ m_live m' = m_live m /\
  m_workers m' = m_workers m /\ m_next m' = m_next m.
Proof.
  intros Hs. destruct (saveActivationLocked_store io target m) as [t Ht]. rewrite Hs in Ht.
  cbn [fst] in Ht. by subst m'.
Qed.

Lemma retryLocked_error now target supplied m m' e :
  retryLocked now target supplied m = (m', Err e) -> m' = m.
Proof. unfold retryLocked. case_match; intros; simplify_eq; done. Qed.

Lemma replaceLocked_error now io target m m' e :
  replaceLocked now io target m = (m', Err e) ->
  m_session m' = m_session m /\ m_outputs m' = m_outputs m.
Proof.
  unfold replaceLocked. case_match; [by intros [= <- <-]|].
  destruct (saveActivationLocked io target m) as [m1 err] eqn:Hs.
  apply saveActivationLocked_frame in Hs as (? & ? & _). destruct err; by intros [= <- <-].
Qed.

(** ** Configure *)

Lemma Configure_accept_error now ctxErr request loaded parsed io m m' e :
  Configure_accept now ctxErr request loaded parsed io m = (m', Err e) ->
  m_session m' = m_session m /\ m_outputs m' = m_outputs m.
Proof.
  unfold Configure_accept. case_match; [by intros [= <- <-]|].
  destruct (saveSource_store loaded io m) as [t Ht].
  destruct (saveSource loaded io m) as [m1 err]. cbn [fst] in Ht. subst m1.
  destruct err; by intros [= <- <-].
Qed.

(** The session [Configure_accept] publishes while an attempt is running. *)
Lemma Configure_accept_running now ctxErr request loaded parsed io m m' r :
  s_cleanupDone (m_session m) = false ->
  Configure_accept now ctxErr request loaded parsed io m = (m', Ok r) ->
  let s := m_session m in let s' := m_session m' in
  s_profiles s' = pc_profiles parsed /\ s_digest s' = pc_digest parsed /\
  s_configured s' = true /\ s_sequence s' = u64 (s_sequence s + 1) /\
  s_state s' = s_state s /\ s_generation s' = s_generation s /\
  s_activeProfiles s' = s_activeProfiles s /\ s_activeDigest s' = s_activeDigest s /\
  s_activeTarget s' = s_activeTarget s /\ s_pending s' = s_pending s /\
  cr_Sequence r = s_sequence s'.
Proof.
  intros Hd. unfold Configure_accept. case_match; [done|].
  destruct (saveSource_store loaded io m) as [t Ht].
  destruct (saveSource loaded io m) as [m1 err]. cbn [fst] in Ht. subst m1.
  destruct err; [done|]. cbn. rewrite Hd. cbn. intros [= <- <-].
  case_match; unfold retainPolicy; [destruct (pc_profiles parsed)|]; done.
Qed.

(** A configuration accepted while an attempt runs is saved and announced
    but does not touch the attempt: its state, generation, profiles, digest,
    target and pending switch stay as they were. *)
Theorem configure_leaves_the_attempt_alone now ctxErr request loaded parsed io m m' r :
  attemptActive (s_state (m_session m)) = true -> Inv m ->
  Configure_accept now ctxErr request loaded parsed io m = (m', Ok r) ->
  let s := m_session m in let s' := m_session m' in
  (s_profiles s' = pc_profiles parsed /\ s_digest s' = pc_digest parsed /\
   s_configured s' = true /\ s_sequence s' = u64 (s_sequence s + 1) /\
   cr_Sequence r = s_sequence s') /\
  (s_state s' = s_state s /\ s_generation s' = s_generation s /\
   s_activeProfiles s' = s_activeProfiles s /\ s_activeDigest s' = s_activeDigest s /\
   s_activeTarget s' = s_activeTarget s /\ s_pending s' = s_pending s).
Proof.
  intros Ha Hi Hc. destruct (running_shape m Hi Ha) as (wid & k & _ & []).
  pose proof (Configure_accept_running _ _ _ _ _ _ _ _ _ rn_done Hc) as H. cbv zeta in *.
  intuition.
Qed.

(** ** Start *)

Lemma resting_of_unblocked m :
  Inv m -> configurationBlocked (m_session m) = false -> resting (m_session m) /\ m_workers m = ∅.
Proof.
  intros Hi Hb. unfold configurationBlocked in Hb. split_bools.
  destruct (inv_shape _ Hi) as [Hw Hr|Hw []|Hw []|wid k Hw []]; try congruence. done.
Qed.

(** an accepted start of a session at rest begins a new generation and
    network generation, captures the configured profiles, spawns exactly one
    goroutine and announces PROBING; the network is not yet protected and
    nothing is owned. *)
Theorem start_begins_an_attempt now expectedSequence target m m' r :
  Inv m -> configurationBlocked (m_session m) = false ->
  Start_locked now io_ok expectedSequence target false m = (m', Ok r) ->
  let s := m_session m in let s' := m_session m' in
  s_sequence s = expectedSequence /\ s_state s' = StateProbing /\
  s_generation s' = u64 (s_generation s + 1) /\
  s_networkGeneration s' = u64 (s_networkGeneration s + 1) /\
  s_activeProfiles s' = s_profiles s /\ s_activeDigest s' = s_digest s /\
  s_activeTarget s' = target /\ s_vpnActive s' = false /\ s_stopRequested s' = false /\
  s_recoveryCount s' = 0%Z /\
  m_workers m' = {[S (S (S (S (m_next m)))) := mkWorker (s_generation s') target (s_cancel s') PPrepare]} /\
  m_live m' = [] /\
  r = {| gr_Generation := s_generation s'; gr_Sequence := u64 (s_sequence s + 1) |}.
Proof.
  intros Hi Hb Hs. destruct (resting_of_unblocked m Hi Hb) as [Hr Hw]. destruct Hr.
  assert (m_live m = []) as Hlive.
  { destruct (inv_owned _ Hi) as [Hl _ _ _ _ _ _ _]. rewrite rs_ledger, rs_network in Hl.
    by apply Permutation_nil_r in Hl. }
  revert Hs. unfold Start_locked. case_match eqn:Hseq; [done|]. case_match eqn:Hcf; [done|].
  split_bools. pose proof (inv_configured _ Hi Hcf) as Hne. unfold canRetry. rewrite rs_vpn, andb_false_r. cbn [andb].
  destruct (validateStartTarget _ _); [done|]. rewrite Hb.
  destruct (saveActivationLocked io_ok target m) as [m1 err] eqn:Hsave.
  pose proof (saveActivationLocked_ok target m) as Hok. rewrite Hsave in Hok. cbn in Hok. subst err.
  apply saveActivationLocked_frame in Hsave as (Hse & Ho & Hl & Hwk & Hn).
  rewrite <- Hse, <- Hwk, <- Hn, <- Hl in *. clear dependent m. rename m1 into m. intros Hs.
  unfold retainPolicy in Hs. cbn in Hs. 
  destruct (s_profiles (m_session m)) as [|p ps] eqn:Hps; cbn in Hs; injection Hs as <- <-.
  - done.
  - cbn. by rewrite Hw, Hlive.
Qed.

(** C8: a refused start is refused for one of the reasons below, with the failure
    code of that reason, and leaves what the reason says: before the locked part
    nothing changed; a source that is not accepted leaves at most a request
    number and what a failing store kept; a refusal of the locked part leaves
    what it found, which of this call's doing holds at most the accepted
    configuration, or that and what a failing store kept. And no start is
    accepted while a reason of the session against it holds. Others may act on
    the session while the source is loaded and before the locked part. *)
Theorem rejected_start_changes_nothing meets sessionID expectedSequence target m :
  match ManagerStart meets sessionID expectedSequence target m with
  | (m', Err e) => start_refused meets sessionID expectedSequence target m m' e
  | (m', Ok _) =>
      exists before sequence,
        comes_to_lock meets sessionID expectedSequence target m before sequence /\
        forall code, ~ refused_by_session (m_session (sm_beforeLock meets before)) sequence
          (target <| t_Source := None |>) (is_Some_b (t_Source target)) code
  end.
Proof.
  unfold ManagerStart, Start_begin.
  destruct (get sessionID m) as [err|] eqn:Hg; [by apply start_foreign|].
  destruct (sm_ctxErr meets) as [err|] eqn:Hc; [apply start_canceled; [by rewrite Hc|done]|].
  pose proof (fun before sequence => locked_outcome meets sessionID expectedSequence target m
    before sequence) as Hlock. unfold comes_to_lock in Hlock at 1.
  destruct (t_Source target) as [source|] eqn:Hsource; [|by apply Hlock].
  change (t_Mode (target <| t_Source := None |>)) with (t_Mode target).
  destruct (bool_decide_reflect (t_Mode target = AutoSelect)) as [Ha|Ha]; cbn [negb].
  2: { apply start_source_mode; [by rewrite Hsource|done|done]. }
  destruct (ManagerConfigure meets sessionID expectedSequence source m) as [before [r|e]] eqn:Hcf.
  - apply ManagerConfigure_accepted in Hcf as (Hq & loaded & parsed & Hl & Hacc & Hseq).
    rewrite Hseq. apply Hlock. split; [done|]. split; [done|]. by exists loaded, parsed.
  - apply ManagerConfigure_refused in Hcf. by apply (start_not_configured _ _ _ _ _ source).
Qed.

(** an accepted switch keeps the protected network: the running attempt
    is told to stop under the same generation and network generation, the new
    selection is queued with the configuration of that moment, and nothing is
    released yet. *)
Theorem switch_keeps_the_network now expectedSequence target m m' r :
  Inv m -> canSwitch (m_session m) = true ->
  Start_locked now io_ok expectedSequence target false m = (m', Ok r) ->
  let s := m_session m in let s' := m_session m' in
  s_state s' = StateStopping /\ s_generation s' = s_generation s /\
  s_networkGeneration s' = s_networkGeneration s /\ s_vpnActive s' = true /\
  s_networkLedger s' = s_networkLedger s /\ m_live m' = m_live m /\
  m_workers m' = m_workers m /\
  s_pending s' = Some {| p_target := target; p_profiles := s_profiles s; p_digest := s_digest s |} /\
  (forall c, s_cancel s = Some c -> m_canceled m' !! c = Some true).
Proof.
  intros Hi Hc Hs. pose proof (canSwitch_connected _ Hc) as (Hcl & Hst & Hpd).
  destruct (running_shape m Hi) as (wid & k & Hw & []); [by rewrite Hst|].
  assert (s_vpnActive (m_session m) = true) as Hv by auto.
  assert (configurationBlocked (m_session m) = true) as Hb.
  { unfold configurationBlocked. rewrite rn_done. cbn. by rewrite !orb_true_r. }
  assert (canRetry (m_session m) = false) as Hr.
  { unfold canRetry. rewrite Hst. by rewrite andb_false_r. }
  revert Hs. unfold Start_locked. case_match; [done|]. case_match; [done|]. rewrite Hr.
  destruct (validateStartTarget _ _); [done|]. rewrite Hb.
  unfold replaceLocked. rewrite Hc. case_match; [done|].
  destruct (saveActivationLocked io_ok target m) as [m1 err] eqn:Hsave.
  apply saveActivationLocked_frame in Hsave as (Hse & Ho & Hl & Hwk & Hn).
  destruct err; [done|]. rewrite <- Hse, <- Hl, <- Hwk in *. clear dependent m. rename m1 into m.
  destruct rn_budget as [b Hbud]. destruct rn_cancel as [?|[c Hcn]]; [congruence|].
  unfold budget_begin, call_cancel. cbn. rewrite Hbud. cbn. rewrite Hcn. cbn.
  intros [= <- <-]. cbn. split_and!; try done. intros c' [= ->]. by rewrite lookup_insert_eq.
Qed.

(** ** Stop *)

Lemma acknowledge_keeps now g m :
  let m' := (acknowledgeStoppedLocked now g m).1.1 in
  s_stopRequested (m_session m') = s_stopRequested (m_session m) /\
  s_pending (m_session m') = s_pending (m_session m) /\
  s_generation (m_session m') = s_generation (m_session m).
Proof. unfold acknowledgeStoppedLocked. by repeat case_match. Qed.

(** A stop of an attempt a worker is driving, *)
Lemma stop_outcome_active now m :
  attemptActive (s_state (m_session m)) = true -> is_Some (s_cleanupBudget (m_session m)) ->
  (s_state (m_session m) = StateStopping -> canceled_all m) ->
  let m' := stop_outcome now m in
  frame m m' /\ s_state (m_session m') = StateStopping /\ canceled_all m' /\
  s_pending (m_session m') = s_pending (m_session m) /\
  s_stopRequested (m_session m') = s_stopRequested (m_session m).
Proof.
  intros Hact Hb Hca. unfold stop_outcome. rewrite Hact.
  by destruct (stop_attempt_frame now m Hb Hca) as (? & ? & ? & ? & ? & _).
Qed.

(** and of a session at rest, failed behind its network, or blocked. *)
Lemma stop_outcome_inactive now m :
  attemptActive (s_state (m_session m)) = false ->
  let m' := stop_outcome now m in
  s_pending (m_session m') = s_pending (m_session m) /\
  s_stopRequested (m_session m') = s_stopRequested (m_session m) /\
  s_generation (m_session m') = s_generation (m_session m) /\
  (s_state (m_session m) = StateFailed ->
   retryableCleanup (m_session m) || s_vpnActive (m_session m) && negb (s_cleanupFailed (m_session m)) = true ->
   s_state (m_session m') = StateStopping /\
   m_workers m' = <[S (m_next m) := mkWorker (s_generation (m_session m)) zeroTarget None (PFinish None)]>
     (m_workers m)).
Proof.
  intros Hact. unfold stop_outcome. rewrite Hact. cbv zeta. destruct (_ && _) eqn:Hr.
  - unfold stop_retained, budget_begin. cbn. by destruct (retryableCleanup _).
  - destruct (acknowledge_keeps now (s_generation (m_session m)) m) as (-> & -> & ->).
    split_and!; try done. intros Hf Hk. rewrite Hf, Hk in Hr. by rewrite bool_decide_eq_true_2 in Hr.
Qed.

(** an accepted stop is recorded at once.  A running attempt becomes
    STOPPING and its context is canceled; a session that failed behind a
    retained network, or whose cleanup failed, gets one goroutine to finish
    the release; every form of accepted generation (current, recovering,
    switching, starting) addresses the current one. *)
Theorem accepted_stop_takes_effect now loadErr io generation m :
  Inv m -> acceptsStop (m_session m) generation = true ->
  let m' := (Stop now loadErr io generation m).1.1 in
  let s := m_session m in let s' := m_session m' in
  s_stopRequested s' = true /\ s_pending s' = None /\ s_generation s' = s_generation s /\
  (attemptActive (s_state s) = true ->
   s_state s' = StateStopping /\ m_workers m' = m_workers m /\ canceled_all m') /\
  (s_state s = StateFailed -> s_vpnActive s = true \/ s_cleanupFailed s = true ->
   s_state s' = StateStopping /\
   exists wid k, m_workers m' = {[wid := k]} /\ wk_pc k = PFinish None).
Proof.
  intros Hi Ha. cbv zeta. destruct (stopActivationLocked loadErr io m) as [m1 err] eqn:Hs.
  rewrite (Stop_outcome _ _ _ _ _ _ _ Ha Hs).
  destruct (stopActivationLocked_inv _ _ _ _ _ Hs Hi) as [Hi1 Heq].
  assert (m_workers m1 = m_workers m) as Hwk.
  { destruct (stopActivationLocked_store loadErr io m) as [t Ht]. rewrite Hs in Ht. cbn [fst] in Ht.
    by subst m1. }
  rewrite <- Heq, <- Hwk. clear dependent m. rename m1 into m.
  destruct (stop_requested_fields now m) as (Hst & Hp & Hsr & _ & _).
  pose proof (frame_stop_requested now m) as Hf. pose proof (stop_requested_canceled now m) as Hcan.
  generalize dependent (stop_requested now m). intros m1 Hst Hp Hsr Hf Hcan. rewrite <- Hst.
  destruct (attemptActive (s_state (m_session m1))) eqn:Hact.
  - destruct (running_shape m Hi1) as (wid & k & _ & []); [by rewrite <- Hst|].
    destruct (stop_outcome_active now m1 Hact) as (Hf' & ? & ? & ? & ?).
    { by rewrite (fr_budget _ _ Hf). }
    { intros He c. rewrite (fr_cancel _ _ Hf), Hcan. apply rn_canceled. by rewrite <- Hst. }
    split_and!; try congruence.
    + by rewrite (fr_generation _ _ Hf'), (fr_generation _ _ Hf).
    + intros _. by rewrite (fr_workers _ _ Hf'), (fr_workers _ _ Hf).
    + intros He. by rewrite He in Hact.
  - destruct (stop_outcome_inactive now m1 Hact) as (Hp' & Hsr' & Hg & Hgo).
    split_and!; try congruence; [by rewrite Hg, (fr_generation _ _ Hf)|]. intros Hfail Hor.
    rewrite Hst in Hact, Hfail. destruct Hgo as [Hstop Hwk]; [by rewrite Hst| |].
    { unfold retryableCleanup. rewrite (fr_failed _ _ Hf), (fr_vpn _ _ Hf), (fr_network _ _ Hf), Hst, Hfail.
      change (bool_decide (StateFailed = StateFailed)) with true. cbn [andb].
      destruct (inv_shape _ Hi1) as [? []|? []|? []|? ? ? []]; try congruence.
      - destruct Hor; congruence.
      - by rewrite dm_vpn, dm_failed.
      - destruct bl_network as [x ->]. by rewrite bl_failed, orb_true_r. }
    split; [done|]. rewrite (fr_workers _ _ Hf) in Hwk.
    destruct (inv_shape _ Hi1) as [Hw ?|Hw ?|Hw ?|? ? _ []]; [..|congruence].
    all: rewrite Hw in Hwk; eexists _, _; by split.
Qed.

(** ** Health failures *)

(** The recovery budget as the failing attempt sees it: a connection that was
    stable for five minutes starts counting afresh. *)
Definition recoveriesUsed (now : Z) (s : session) : Z :=
  if s_hasConnectedAt s && (autoRecoveryStable <=? now - s_lastConnectedAt s)%Z
  then 0%Z else s_recoveryCount s.

Lemma forgiveStable_fields now s :
  let s' := forgiveStable now s in
  s_recoveryCount s' = recoveriesUsed now s /\ s_lastFailure s' = s_lastFailure s /\
  s_lastFailureMessage s' = s_lastFailureMessage s /\
  s_restartAfterCleanup s' = s_restartAfterCleanup s.
Proof. unfold forgiveStable, recoveriesUsed. by case_match. Qed.

Lemma queueRecovery_fields g msg s :
  let s' := queueRecovery g msg s in
  s_lastFailure s' = s_lastFailure s /\ s_lastFailureMessage s' = s_lastFailureMessage s /\
  ((s_recoveryCount s < autoRecoveryLimit)%Z -> g <> 0%Z ->
   s_recoveryCount s' = (s_recoveryCount s + 1)%Z /\ s_restartAfterCleanup s' = true /\
   s_recovering s' = true /\ s_recoveryOriginGeneration s' <> 0%Z) /\
  ((autoRecoveryLimit <= s_recoveryCount s)%Z ->
   s_recovering s' = false /\ s_failureAfterCleanup s' = FailureRuntime /\
   s_failureMessageAfterCleanup s' = autoRecoveryMessage +:+ ": " +:+ msg /\
   s_restartAfterCleanup s' = s_restartAfterCleanup s).
Proof.
  unfold queueRecovery. cbv zeta. destruct (s_recoveryCount s <? autoRecoveryLimit)%Z eqn:Hc; split_bools.
  - cbn. destruct (s_recoveryOriginGeneration s =? 0)%Z eqn:Ho; split_bools; cbn;
      split_and!; try done; lia.
  - cbn. split_and!; try done; lia.
Qed.

(** C9: a health failure of the connected generation stops the attempt and,
    while fewer than three recoveries were used since the last stable
    connection, queues a restart that remembers the first failing generation;
    the fourth one is given up with the reconnect message.  Protection is kept
    in both cases.  Reports for another generation or state change nothing. *)
Theorem health_failure_recovers_three_times now generation cause m :
  let m' := reportHealthFailure now generation (Some cause) m in
  let s := m_session m in let s' := m_session m' in
  let used := recoveriesUsed now s in
  (generation = 0%Z \/ generation <> s_generation s \/ s_state s <> StateConnected -> m' = m) /\
  (generation <> 0%Z -> generation = s_generation s -> s_state s = StateConnected ->
   s_state s' = StateStopping /\ s_lastFailure s' = FailureRuntime /\
   s_lastFailureMessage s' = healthFailure cause s /\
   s_vpnActive s' = s_vpnActive s /\ s_networkLedger s' = s_networkLedger s /\
   canceled_all m' /\
   ((used < autoRecoveryLimit)%Z ->
    s_recoveryCount s' = (used + 1)%Z /\ s_restartAfterCleanup s' = true /\
    s_recovering s' = true /\ s_recoveryOriginGeneration s' <> 0%Z) /\
   ((autoRecoveryLimit <= used)%Z ->
    s_recovering s' = false /\ s_failureAfterCleanup s' = FailureRuntime /\
    s_failureMessageAfterCleanup s' =
      autoRecoveryMessage +:+ ": " +:+ healthFailure cause s /\
    s_restartAfterCleanup s' = s_restartAfterCleanup s)).
Proof.
  cbv zeta. unfold reportHealthFailure. split.
  - intros Hg. case_match eqn:Hb; [done|]. split_bools. intuition congruence.
  - intros Hg1 Hg2 Hg3. rewrite Hg3, <- Hg2, Z.eqb_refl.
    destruct (Z.eqb_spec generation 0); [done|]. cbn [orb negb].
    rewrite (bool_decide_eq_true_2 (StateConnected = StateConnected)) by done. cbn [negb].
    set (s0 := m_session m <| s_lastFailure := FailureRuntime |>
                <| s_lastFailureMessage := healthFailure cause (m_session m) |>).
    destruct (prepareHealthRecovery_keeps now generation cause (m_session m)).
    destruct (forgiveStable_fields now s0) as (F1 & F2 & F3 & F4).
    destruct (queueRecovery_fields generation (healthFailure cause (m_session m)) (forgiveStable now s0))
      as (Q1 & Q2 & Q3 & Q4).
    change (queueRecovery generation (healthFailure cause (m_session m)) (forgiveStable now s0))
      with (prepareHealthRecoveryLocked now generation cause (m_session m)) in *.
    revert hk_vpn hk_network Q1 Q2 Q3 Q4.
    change (s_restartAfterCleanup s0) with (s_restartAfterCleanup (m_session m)) in F4.
    change (recoveriesUsed now s0) with (recoveriesUsed now (m_session m)) in F1.
    rewrite F1, F2, F3, F4. clear - Hg1. intros Hv Hn Q1 Q2 Q3 Q4.
    set (m1 := appendLocked _ _). rewrite (cancel_if_set_session m1).
    split_and!; try done; [apply cancel_if_set_all|]. intros Hlt. by apply Q3.
Qed.

(** ** The primary action *)

(** the action a snapshot offers is one the session accepts: START when
    a configured session that is not shutting down can begin an attempt,
    RETRY when repeating the saved selection is accepted, STOP when a stop of
    the current generation is accepted. *)
Theorem primary_action_is_accepted now m :
  let s := m_session m in
  (primaryActionLocked s = "START" -> s_closing s = false -> configurationBlocked s = false) /\
  (primaryActionLocked s = "RETRY" ->
   forall target, t_Mode target = t_Mode (s_activeTarget s) ->
     t_Index target = t_Index (s_activeTarget s) -> t_ReplaceCurrent target = false ->
     t_Digest target = "" -> s_configured s = true ->
     is_ok (Start_locked now io_ok (s_sequence s) target false m).2 = true) /\
  (primaryActionLocked s = primaryActionStop -> s_generation s <> 0%Z ->
   acceptsStop s (s_generation s) = true).
Proof.
  cbv zeta. split_and!.
  - unfold primaryActionLocked, configurationBlocked.
    repeat (case_match; try done). split_bools. intros _ ->.
    repeat match goal with
      | H : ?x = false |- context [?x] => rewrite H
      | H : ?x = true |- context [?x] => rewrite H
      end. cbn. by rewrite !bool_decide_eq_false_2.
  - unfold primaryActionLocked. destruct (canRetry (m_session m)) eqn:Hr.
    + intros _ target Hm Hx Hrep Hd Hc. unfold Start_locked. rewrite Z.eqb_refl, Hc, Hr. cbn [negb].
      unfold retryLocked. rewrite Hm, Hx, Hrep, Hd, Z.eqb_refl.
      rewrite (bool_decide_eq_true_2 (_ = _)) by done. cbn. by rewrite andb_false_r.
    + intros Hx. exfalso. revert Hx. by repeat case_match.
  - intros _ Hg. unfold acceptsStop. rewrite Z.eqb_refl. by destruct (Z.eqb_spec (s_generation (m_session m)) 0).
Qed.

(** ** Cleanup budgets *)

Lemma begin_twice t1 t2 n (budgets : gmap nat cleanupBudget) :
  alter (begin t2) n (alter (begin t1) n budgets) = alter (begin t1) n budgets.
Proof.
  apply map_eq. intros i. destruct (decide (i = n)) as [->|]; [|by rewrite !lookup_alter_ne].
  rewrite !lookup_alter_eq. by destruct (budgets !! n) as [[[|] ?]|].
Qed.

(** One cleanup has one deadline, thirty seconds after it first began:
    whatever asks for the cleanup context later gets the same budget, and
    finishing a budget cancels its context without moving the deadline. *)
Theorem cleanup_has_one_deadline t1 t2 b m :
  cb_deadline (begin t1 newBudget) = Some (t1 + 30 * second)%Z /\
  begin t2 (begin t1 b) = begin t1 b /\
  cb_deadline (finish_budget (begin t1 b)) = cb_deadline (begin t1 b) /\
  cb_canceled (finish_budget (begin t1 b)) = true /\
  finish_budget newBudget = newBudget /\
  (let m1 := cleanupContext t1 m in
   m_session (cleanupContext t2 m1) = m_session m1 /\
   m_budgets (cleanupContext t2 m1) = m_budgets m1).
Proof.
  cbv zeta. split_and!; try done; try (by destruct b as [[|] ?]).
  - unfold cleanupContext, budget_begin. destruct (s_cleanupBudget (m_session m)) eqn:Hc; cbn.
    + by rewrite !Hc.
    + done.
  - unfold cleanupContext, budget_begin. destruct (s_cleanupBudget (m_session m)) eqn:Hc; cbn.
    + rewrite !Hc. cbn. apply begin_twice.
    + apply begin_twice.
Qed.

(** ** The operations along the concrete history *)

Lemma after_Inv n : is_Some (run (timed (take n history)) fresh) -> Inv (after n).
Proof. intros Hn. apply reachable_Inv. by apply after_reachable. Qed.

Ltac inv_by_history := apply after_Inv; vm_compute; eexists; reflexivity.

Lemma configure_leaves_the_attempt_alone_witness :
  s_generation (m_session (Configure_accept 0 None 1 (mkLoadedConfig "new" ConfigSourceInline "")
    (mkParsedConfig "new" [xrayProfile] "") io_ok connected).1) = s_generation (m_session connected).
Proof.
  refine (proj1 (proj2 (proj2 (configure_leaves_the_attempt_alone _ _ _ _ _ _ _ _ _ _ _
    (answered (mkConfigureResult "" 0 [] ConfigSourceNone) _ _))))).
  - by vm_compute.
  - inv_by_history.
  - by vm_compute.
Defined.

Lemma start_begins_an_attempt_witness :
  s_state (m_session (Start_locked 0 io_ok 2 auto false configured).1) = StateProbing.
Proof.
  refine (proj1 (proj2 (start_begins_an_attempt _ _ _ _ _ _ _ _
    (answered (mkGenerationResult 0 0) _ _)))).
  - inv_by_history.
  - by vm_compute.
  - by vm_compute.
Defined.

(** A start that brings a source while another attempt is connected: the source
    becomes the configuration, and the start is refused as busy. *)
Definition nobodyElse : startMeets :=
  mkStartMeets None None
    (fun _ => Ok (mkLoadedConfig "new" ConfigSourceInline "", mkParsedConfig "new" [xrayProfile] ""))
    None io_ok io_ok 0 0 (fun m => m) (fun m => m).

Lemma rejected_start_changes_nothing_witness :
  let '(m', r) := ManagerStart nobodyElse "" 7 (auto <| t_Source := Some "new" |>) connected in
  s_digest (m_session m') = "new" /\ s_state (m_session m') = StateConnected /\
  match r with
  | Err e => start_refused nobodyElse "" 7 (auto <| t_Source := Some "new" |>) connected m' e
  | Ok _ => False
  end.
Proof.
  pose proof (rejected_start_changes_nothing nobodyElse "" 7 (auto <| t_Source := Some "new" |>)
    connected) as Hs.
  destruct (ManagerStart nobodyElse "" 7 (auto <| t_Source := Some "new" |>) connected)
    as [m' r] eqn:Hr.
  assert (m' = (ManagerStart nobodyElse "" 7 (auto <| t_Source := Some "new" |>) connected).1) as Hm
    by (rewrite Hr; reflexivity).
  assert (r = (ManagerStart nobodyElse "" 7 (auto <| t_Source := Some "new" |>) connected).2) as Hres
    by (rewrite Hr; reflexivity).
  split; [rewrite Hm; vm_compute; reflexivity|].
  split; [rewrite Hm; vm_compute; reflexivity|].
  destruct r; [vm_compute in Hres; discriminate Hres|exact Hs].
Defined.

Lemma switch_keeps_the_network_witness :
  m_live (Start_locked 0 io_ok 7 (auto <| t_ReplaceCurrent := true |>) false connected).1 =
  m_live connected.
Proof.
  refine (proj1 (proj2 (proj2 (proj2 (proj2 (proj2 (switch_keeps_the_network _ _ _ _ _ _ _ _
    (answered (mkGenerationResult 0 0) _ _)))))))).
  - inv_by_history.
  - by vm_compute.
  - by vm_compute.
Defined.

Lemma accepted_stop_takes_effect_witness :
  s_stopRequested (m_session (Stop 0 None io_ok 2 connected).1.1) = true.
Proof.
  destruct (accepted_stop_takes_effect 0 None io_ok 2 connected) as (Hs & _).
  - inv_by_history.
  - by vm_compute.
  - exact Hs.
Defined.

Lemma health_failure_witness :
  s_recoveryCount (m_session (reportHealthFailure 0 2 (Some (EText "probe")) connected)) = 1%Z.
Proof.
  destruct (health_failure_recovers_three_times 0 2 (EText "probe") connected) as [_ H].
  destruct H as (_ & _ & _ & _ & _ & _ & Hq & _); [by vm_compute|by vm_compute|by vm_compute|].
  destruct Hq as (Hc & _); [by vm_compute|]. rewrite Hc. by vm_compute.
Defined.

Lemma primary_action_witness : configurationBlocked (m_session idle) = false.
Proof.
  destruct (primary_action_is_accepted 0 idle) as (Hs & _). apply Hs; by vm_compute.
Defined.

