(* ===== verification/ConfigTheorems.v ===== *)
(** * What an accepted configuration promises

    The properties of parsing and acquiring a configuration, and the parser as
    the interface the manager's theorems are proved against. *)

From S2P Require Import Prelude Errors Values Session Manager Worker GoStrings Config Loader.
From Stdlib Require Import SpecFloat Ascii.
Local Open Scope string_scope.
Local Open Scope list_scope.

(** ** Parsing as the manager's interface *)

Section parsing.
Context (tomlDecode : string -> result tomlDoc gerr).
Context (urlParse : string -> option urlParts).
Context (sha256Hex : string -> string).
Context (overflowInt64 : spec_float -> Z).

#[export] Program Instance documentParser : ConfigParser := {|
  parseConfig raw :=
    match parseLoaded tomlDecode urlParse sha256Hex overflowInt64 raw with
    | Some r => r
    | None => Err (EText "panic")
    end
|}.
Next Obligation.
  intros raw parsed H. unfold parseLoaded in H.
  destruct (parseDocument tomlDecode urlParse sha256Hex overflowInt64 raw) as [[p|e]|] eqn:Hp.
  - injection H as ->. by apply parseDocument_profiles in Hp.
  - by destruct (as_domain e).
  - done.
Qed.

Lemma failure_code_malformed message : as_domain (malformed message) = Some FailureMalformedConfig.
Proof. done. Qed.

(** C10: a document never makes the parser panic. It refuses, with a failure
    code, exactly the documents that are not acceptable (too long, blank, with
    other keys, no protocol section, other counts, or a section whose own block
    makes no profile), and what it accepts is exactly the document's protocol
    sections, which are the root array tables
    named after the three protocols, in document order: one profile each, at
    the section's position, with the section's protocol, the shared exclusions,
    and the description and payload of the section's own block, the block of
    its name numbered by the earlier sections of that name. The logs endpoint
    and the digest are the document's. *)
Theorem parsing_follows_the_document raw :
  match parseLoaded tomlDecode urlParse sha256Hex overflowInt64 raw with
  | None => False
  | Some (Err err) =>
      is_Some (as_domain err) /\
      forall doc names, tomlDecode raw = Ok doc -> ~ acceptable urlParse overflowInt64 raw doc names
  | Some (Ok parsed) =>
      exists doc names, tomlDecode raw = Ok doc /\
        acceptable urlParse overflowInt64 raw doc names /\
        length (pc_profiles parsed) = length names /\
        (forall i name p,
           names !! i = Some name -> pc_profiles parsed !! i = Some p ->
           exists block, own_block (td_root doc) names i block /\
             made_from overflowInt64 (td_root doc) i name block p) /\
        pc_digest parsed = sha256Hex raw /\
        pc_logsEndpoint parsed = LogsEndpoint (td_root doc)
  end.
Proof.
  pose proof (parseDocument_acceptable tomlDecode urlParse sha256Hex overflowInt64 raw) as Hacc.
  pose proof (parseDocument_spec tomlDecode urlParse sha256Hex overflowInt64 raw) as Hspec.
  unfold parseLoaded. destruct (parseDocument _ _ _ _ raw) as [[parsed|err]|]; [done| |done].
  assert (Hno : forall doc names, tomlDecode raw = Ok doc ->
    ~ acceptable urlParse overflowInt64 raw doc names).
  { intros doc names Hdoc Ha. by destruct (Hacc doc names Hdoc Ha). }
  destruct (as_domain err) eqn:He; [by rewrite He|done].
Qed.

(** C11: certificate verification of a TrustTunnel profile cannot be switched
    off: the payload the runtime receives has no [skip_verification] at its
    root and none in its endpoint other than [false]. *)
Theorem trusttunnel_always_verifies raw parsed p :
  parseDocument tomlDecode urlParse sha256Hex overflowInt64 raw = Some (Ok parsed) ->
  p ∈ pc_profiles parsed -> ps_Protocol (rp_Summary p) = ProtocolTrustTunnel ->
  lookup_field "skip_verification" (TrustTunnel (rp_Config p)) = None /\
  forall endpoint, lookup_field "endpoint" (TrustTunnel (rp_Config p)) = Some (AMap endpoint) ->
    lookup_field "skip_verification" endpoint = None \/
    lookup_field "skip_verification" endpoint = Some (ABool false).
Proof.
  intros Hp Hin Hprot. destruct (parseDocument_made_from _ _ _ _ _ _ _ Hp Hin) as (root & i & name & block & Hm).
  pose proof (mf_payload _ _ _ _ _ _ Hm) as Hpay. pose proof (mf_protocol _ _ _ _ _ _ Hm) as Hprot'.
  rewrite Hprot in Hprot'. rewrite <- Hprot' in Hpay. destruct Hpay as [Hv ->]. cbn [TrustTunnel].
  unfold validateTrustTunnelVerification in Hv. rewrite !lookup_CloneFields.
  destruct (lookup_field "skip_verification" block) eqn:Hskip; [done|]. split; [done|].
  intros endpoint. unfold field in Hv.
  destruct (lookup_field "endpoint" block) as [v|]; [|done]. cbn [option_map].
  destruct v; cbn [cloneValue]; try done. intros [= <-].
  change (map _ m) with (CloneFields m). rewrite lookup_CloneFields.
  destruct (lookup_field "skip_verification" m) as [v|]; [|by left].
  destruct v as [| | | | |[|]| | | | |]; try done. by right.
Qed.

(** C12: an Outline block is accepted exactly when it has a password, a server
    and (for a plain transport) a port, and the URL it becomes carries the
    credentials and the disguise unharmed: the user part is the base64 of
    [method:password] and holds no at sign, what follows it is the server and
    the port, and the query, opened with a question mark when the server and
    port hold none and continued with an ampersand when they do, unescapes to
    the disguise prefix. *)
Theorem outline_url_carries_the_block block :
  let method := stringValue block "Method" in
  let method := if String.eqb method "" then "chacha20-ietf-poly1305" else method in
  let password := stringValue block "Password" in
  let server := stringValue block "Server" in
  let websocket := boolValue block "WebSocket" in
  let port := intString overflowInt64 (field "Port" block) in
  let prefix := rawStringValue block "DisguisePrefix" in
  match normalizeOutlineURL overflowInt64 block with
  | Err err =>
      (password = "" \/ server = "" \/ (port = "" /\ websocket = false)) /\
      as_domain err = Some FailureMalformedConfig
  | Ok url =>
      password <> "" /\ server <> "" /\ (port <> "" \/ websocket = true) /\
      exists transport user query,
        url = transport +:+ "ss://" +:+ user +:+ "@" +:+ server +:+ ":" +:+
              (if String.eqb port "" then "443" else port) +:+ query /\
        count_byte "@"%char user = 0 /\
        DecodeString user = Some (method +:+ ":" +:+ password) /\
        (if websocket then has_prefix "tls:sni=" transport = true else transport = "") /\
        (if String.eqb prefix "" then query = ""
         else exists separator escaped,
           query = separator +:+ "prefix=" +:+ escaped /\
           (count_byte "?"%char (server +:+ ":" +:+ (if String.eqb port "" then "443" else port)) = 0 /\
              separator = "?" \/
            0 < count_byte "?"%char (server +:+ ":" +:+ (if String.eqb port "" then "443" else port)) /\
              separator = "&") /\
           QueryUnescape escaped = Some prefix /\ count_byte "&"%char escaped = 0)
  end.
Proof.
  cbv zeta. unfold normalizeOutlineURL.
  destruct (String.eqb_spec (stringValue block "Password") "") as [Hp|Hp]; [by auto|].
  destruct (String.eqb_spec (stringValue block "Server") "") as [Hs|Hs]; [by auto|].
  generalize (if String.eqb (stringValue block "Method") "" then "chacha20-ietf-poly1305"
              else stringValue block "Method") as method. intros method.
  generalize dependent (stringValue block "Password"). intros password Hp.
  generalize dependent (stringValue block "Server"). intros server Hs.
  generalize (rawStringValue block "DisguisePrefix") as prefix. intros prefix.
  generalize (webSocketParams (TrimRightSlash (stringValue block "WebSocketPath"))) as params.
  intros params. generalize (intString overflowInt64 (field "Port" block)) as port. intros port.
  destruct (boolValue block "WebSocket") eqn:Hw; cbn [andb negb].
  - rewrite andb_true_r. set (p := if String.eqb port "" then "443" else port).
    destruct (String.eqb_spec p "") as [Hp'|_].
    { exfalso. subst p. destruct (String.eqb_spec port ""); done. }
    split_and!; [done|done|by right|].
    exists ("tls:sni=" +:+ outlineHost (server +:+ ":" +:+ p) +:+ "|ws:" +:+ params +:+ "|"),
      (EncodeToString (method +:+ ":" +:+ password)), (disguise (server +:+ ":" +:+ p) prefix).
    split_and!; [by rewrite !string_app_assoc|apply EncodeToString_no_at
                |apply DecodeString_EncodeToString|done|apply disguise_spec].
  - rewrite andb_false_r. destruct (String.eqb_spec port "") as [He|He]; [by auto|].
    split_and!; [done|done|by left|].
    exists "", (EncodeToString (method +:+ ":" +:+ password)), (disguise (server +:+ ":" +:+ port) prefix).
    split_and!; [by rewrite !string_app_assoc|apply EncodeToString_no_at
                |apply DecodeString_EncodeToString|done|apply disguise_spec].
Qed.
End parsing.

(** ** Acquiring a document *)

Ltac refuse :=
  eexists _, _; split; [reflexivity|split; [first [done|by apply Forall_nil]|split; [cbn; lia|done]]].

(** C13: acquiring a configuration always ends; every request it sends goes to an
    HTTPS URL, at most ten are sent whatever the server and the caller's
    redirect policy do, and what it returns is at most one mebibyte: either the
    source itself, without any request, or the whole body of a successful
    response to the trimmed source URL. *)
Theorem loading_is_bounded_and_https urlParse newRequestErr caller server source :
  exists sent r, Load urlParse newRequestErr caller server source = Some (sent, r) /\
    Forall (fun t => is_https t = true) sent /\ length sent <= 10 /\
    match r with
    | Err err => as_domain err = Some FailureInvalidArgument
    | Ok loaded =>
        (Z.of_nat (String.length (lc_Raw loaded)) <= maxConfigBytes)%Z /\
        (loaded = mkLoadedConfig source ConfigSourceInline "" /\ sent = [] \/
         exists t r, sent <> [] /\ sent !! 0 = Some t /\ tg_Text t = TrimSpace source /\
           loaded = mkLoadedConfig (rs_Body r) ConfigSourceURL (TrimSpace source) /\
           (200 <= rs_StatusCode r < 300)%Z)
    end.
Proof.
  unfold Load. destruct (String.eqb_spec source ""); [refuse|].
  destruct (tooLong source) eqn:Hlong; [refuse|].
  destruct (sourceSchemeRE (TrimSpace source)).
  2: { eexists _, _. split; [done|]. split; [by apply Forall_nil|]. split; [cbn; lia|].
       unfold tooLong in Hlong. split_bools. split; [cbn; lia|by left]. }
  destruct (urlParse (TrimSpace source)) as [u|]; [|refuse].
  destruct (EqualFold (up_Scheme u) "https") eqn:Hs; [|refuse].
  destruct (negb _); cbn [andb]; [|refuse].
  unfold loadURL. destruct (newRequestErr _) as [err|]; [refuse|].
  destruct (Do_https caller server redirectFuel [] (mkTarget (up_Scheme u) (TrimSpace source)))
    as (sent & r & -> & Hall & Hlen & Hfirst); [done|done|done|cbn; lia|].
  destruct r as [r|err]; [|refuse].
  eexists _, _. split_and!; [done|done|done|].
  destruct (readResponse (TrimSpace source) r) as [loaded|err] eqn:Hr.
  - apply readResponse_ok in Hr as (-> & Hshort & Hst & _). split.
    { cbn. unfold tooLong in Hshort. split_bools. lia. }
    right. change (sent !! 0 = Some (mkTarget (up_Scheme u) (TrimSpace source))) in Hfirst.
    exists (mkTarget (up_Scheme u) (TrimSpace source)), r.
    split_and!; [by intros ->|done|done|done|lia|lia].
  - by eapply readResponse_err.
Qed.

(** ** Witnesses *)

Definition exampleRoot : configRoot :=
  mkConfigRoot "" ["10.0.0.0/8"] [] []
    [[("endpoint", AMap [("skip_verification", ABool false); ("hostname", AString "h")])]].

Definition exampleDoc (raw : string) : result tomlDoc gerr :=
  Ok (mkTomlDoc exampleRoot [["TrustTunnel"]] (fun _ => "ArrayHash") false).

Definition exampleProfile : RuntimeProfile :=
  mkRuntimeProfile (mkProfileSummary 0 ProtocolTrustTunnel "")
    (mkConfig "" [] (CloneFields
      [("endpoint", AMap [("skip_verification", ABool false); ("hostname", AString "h")])]))
    ["10.0.0.0/8"].

Lemma trusttunnel_always_verifies_witness :
  lookup_field "skip_verification" (TrustTunnel (rp_Config exampleProfile)) = None.
Proof.
  refine (proj1 (trusttunnel_always_verifies exampleDoc (fun _ => None) (fun s => s)
    (fun _ => 0%Z) "doc" (mkParsedConfig "doc" [exampleProfile] "") exampleProfile _ _ _)).
  - vm_compute. reflexivity.
  - by apply list_elem_of_singleton.
  - reflexivity.
Defined.
