(* ===== verification/Bypass.v ===== *)
(** * Bypass policies (core/tunnel/bypass_policy.go)

    Which destinations leave the tunnel: the CIDRs of one attempt, resolved
    once, and the membership test of [net.IPNet.Contains] written out on the
    bytes.  An address is its byte slice, 4 or 16 bytes when valid. *)

From S2P Require Import Prelude Errors GoStrings.
Local Open Scope string_scope.
Local Open Scope list_scope.

Definition IP : Type := list Z.

Record IPNet := mkIPNet { in_IP : IP; in_Mask : list Z }.

Record BypassPolicy := mkBypassPolicy { cidrs : list IPNet; entryCount : nat }.

(** [net.IP.To4]: four bytes, or the last four of a v4-in-v6 address. *)
Definition v4InV6Prefix : list Z := replicate 10 0%Z ++ [255; 255]%Z.

Definition To4 (ip : IP) : option IP :=
  if bool_decide (length ip = 4) then Some ip
  else if bool_decide (length ip = 16) && bool_decide (take 12 ip = v4InV6Prefix)
  then Some (drop 12 ip) else None.

(** [net.IP.To16] is non-nil for four and for sixteen bytes; the code calls it
    only where [To4] failed. *)
Definition To16 (ip : IP) : option IP :=
  if bool_decide (length ip = 16) then Some ip else None.

Definition CIDRMask (ones bits : nat) : list Z :=
  map (fun i => (256 - 2 ^ (8 - Z.of_nat (min 8 (ones - 8 * i))))%Z) (seq 0 (bits / 8)).

Definition networkNumberAndMask (n : IPNet) : option (IP * list Z) :=
  let ip := match To4 (in_IP n) with
            | Some ip => Some ip
            | None => if bool_decide (length (in_IP n) = 16) then Some (in_IP n) else None
            end in
  match ip with
  | None => None
  | Some ip =>
      if bool_decide (length (in_Mask n) = 4) then
        if bool_decide (length ip = 4) then Some (ip, in_Mask n) else None
      else if bool_decide (length (in_Mask n) = 16) then
        Some (ip, if bool_decide (length ip = 4) then drop 12 (in_Mask n) else in_Mask n)
      else None
  end.

Fixpoint same_masked (nn m ip : list Z) : bool :=
  match nn, m, ip with
  | n :: nn, b :: m, i :: ip => (Z.land n b =? Z.land i b)%Z && same_masked nn m ip
  | _, _, _ => true
  end.

Definition Contains (n : IPNet) (ip : IP) : bool :=
  let '(nn, m) := match networkNumberAndMask n with Some x => x | None => ([], []) end in
  let ip := match To4 ip with Some x => x | None => ip end in
  bool_decide (length ip = length nn) && same_masked nn m ip.

(** [p] is nil for [None]; [destIP] is the metadata's address, [None] when the
    metadata is nil or the address is not valid. *)
Definition IsBypass (p : option BypassPolicy) (destIP : option IP) : bool :=
  match p, destIP with
  | Some p, Some stdIP => existsb (fun route => Contains route stdIP) (cidrs p)
  | _, _ => false
  end.

(** The one-address network of a numeric address. *)
Definition hostNet (ip : IP) : option IPNet :=
  match To4 ip with
  | Some ipv4 => Some (mkIPNet ipv4 (CIDRMask 32 32))
  | None =>
      match To16 ip with
      | Some ipv6 => Some (mkIPNet ipv6 (CIDRMask 128 128))
      | None => None
      end
  end.

Fixpoint numericNets (index : nat) (ips : list IP) : result (list IPNet) gerr :=
  match ips with
  | [] => Ok []
  | ip :: ips =>
      match hostNet ip with
      | None =>
          Err (EText ("numeric bypass address[" +:+ Itoa (Z.of_nat index) +:+ "] is invalid"))
      | Some net => let? nets := numericNets (S index) ips in Ok (net :: nets)
      end
  end%result.

Definition WithNumericIPs (p : option BypassPolicy) (ips : list IP) :
    result BypassPolicy gerr :=
  match p with
  | None => Err (EText "cannot copy a nil bypass policy")
  | Some p =>
      let? nets := numericNets 0 ips in Ok (mkBypassPolicy (cidrs p ++ nets) (entryCount p))
  end%result.

Definition summarizeCIDRs (show : IPNet -> string) (nets : list IPNet) : list string :=
  map show nets.

Section resolve.
(** [net.ParseCIDR] and the resolver of the attempt. *)
Context (ParseCIDR : string -> option IPNet).
Context (resolver : option (string -> result (list IP) gerr)).

Fixpoint addressNets (ips : list IP) : result (list IPNet) gerr :=
  match ips with
  | [] => Ok []
  | ip :: ips =>
      match hostNet ip with
      | None => Err (EText "resolver returned invalid address")
      | Some net => let? nets := addressNets ips in Ok (net :: nets)
      end
  end%result.

Definition resolveHostToCIDRsWithResolver (host : string) : result (list IPNet) gerr :=
  match resolver with
  | None => Err (EText "underlying bypass resolver is required")
  | Some resolve =>
      let? ips := resolve host in
      let? nets := addressNets ips in
      if bool_decide (length nets = 0) then Err (EText "resolver returned no IP addresses")
      else Ok nets
  end%result.

Definition resolveEntry (entry : string) : result (list IPNet) gerr :=
  match ParseCIDR entry with
  | Some network => Ok [network]
  | None =>
      match resolveHostToCIDRsWithResolver entry with
      | Ok nets => Ok nets
      | Err err => Err (EWrap ("resolve bypass host " +:+ entry) err)
      end
  end.

(** Every entry is tried; the networks and the errors of all of them. *)
Fixpoint resolveEntries (entries : list string) : list IPNet * list gerr :=
  match entries with
  | [] => ([], [])
  | entry :: entries =>
      let entry := TrimSpace entry in
      let '(nets, errs) := resolveEntries entries in
      if String.eqb entry "" then (nets, errs)
      else match resolveEntry entry with
           | Ok found => (found ++ nets, errs)
           | Err err => (nets, err :: errs)
           end
  end.

Definition resolveRoutingEntriesWithResolver (entries : list string) :
    result (list IPNet) gerr :=
  let '(nets, errs) := resolveEntries entries in
  match errs with
  | [] => Ok nets
  | errs => Err (EJoin errs)
  end.

Definition ResolveBypassPolicyWithResolver (entries : list string) : result BypassPolicy gerr :=
  (let? nets := resolveRoutingEntriesWithResolver entries in
   Ok (mkBypassPolicy nets (length entries)))%result.
End resolve.

Arguments CIDRMask : simpl never.

(** ** Membership *)

(** The address itself, whichever of its two byte forms was given. *)
Definition canonical (ip : IP) : IP := match To4 ip with Some x => x | None => ip end.

Definition is_byte (b : Z) : Prop := (0 <= b < 256)%Z.

(** A destination a packet can have. *)
Definition valid_ip (ip : IP) : Prop :=
  (length ip = 4 \/ length ip = 16) /\ Forall is_byte ip.

Lemma To4_length ip x : To4 ip = Some x -> length x = 4.
Proof.
  unfold To4. case_bool_decide; [by intros [= <-]|]. case_bool_decide; [|done].
  case_bool_decide; [|done]. intros [= <-]. rewrite length_drop. lia.
Qed.

Lemma To4_bytes ip x : To4 ip = Some x -> Forall is_byte ip -> Forall is_byte x.
Proof.
  unfold To4. case_bool_decide; [by intros [= <-]|]. case_bool_decide; [|done].
  case_bool_decide; [|done]. intros [= <-]. apply Forall_drop.
Qed.

Lemma To4_canonical ip : To4 (canonical ip) = To4 ip.
Proof.
  unfold canonical. destruct (To4 ip) as [x|] eqn:H; [|done].
  apply To4_length in H. unfold To4. by rewrite bool_decide_eq_true_2.
Qed.

Lemma land_255 b : is_byte b -> Z.land b 255 = b.
Proof.
  intros Hb. change 255%Z with (Z.ones 8). rewrite Z.land_ones by lia. by apply Z.mod_small.
Qed.

Lemma same_masked_full n nn ip :
  Forall is_byte nn -> Forall is_byte ip -> length nn = n -> length ip = n ->
  same_masked nn (replicate n 255%Z) ip = bool_decide (ip = nn).
Proof.
  intros Hnn. revert n ip. induction Hnn as [|b nn Hb _ IH]; intros n ip Hip Hn Hl; subst n.
  { destruct ip; [|done]. done. }
  destruct ip as [|c ip]; [done|]. inversion Hip as [|? ? Hc Hip']; subst. cbn in Hl.
  cbn [length replicate same_masked]. rewrite !land_255 by done.
  rewrite (IH (length nn) ip) by (done || lia).
  destruct (Z.eqb_spec b c) as [->|Hne]; cbn.
  - apply bool_decide_ext. naive_solver.
  - symmetry. apply bool_decide_eq_false_2. naive_solver.
Qed.

(** The network of one address holds exactly that address. *)
Lemma Contains_hostNet ip net dst :
  hostNet ip = Some net -> Forall is_byte ip -> valid_ip dst ->
  Contains net dst = bool_decide (canonical dst = canonical ip).
Proof.
  unfold hostNet, Contains. intros Hn Hip [Hlen Hdst].
  assert (Forall is_byte (canonical dst)) as Hcd.
  { unfold canonical. destruct (To4 dst) eqn:E; [by eapply To4_bytes|done]. }
  fold (canonical dst). destruct (To4 ip) as [x|] eqn:H4.
  - injection Hn as <-. pose proof (To4_length _ _ H4) as Hx.
    unfold networkNumberAndMask. cbn [in_IP in_Mask].
    assert (To4 x = Some x) as -> by (unfold To4; by rewrite bool_decide_eq_true_2).
    change (length (CIDRMask 32 32)) with 4. rewrite !bool_decide_eq_true_2 by done.
    change (CIDRMask 32 32) with (replicate 4 255%Z).
    replace (canonical ip) with x by (unfold canonical; by rewrite H4).
    destruct (decide (length (canonical dst) = 4)) as [Hl|Hl].
    + rewrite bool_decide_eq_true_2 by lia. cbn [andb].
      apply same_masked_full; [by eapply To4_bytes|done|done|done].
    + rewrite bool_decide_eq_false_2 by lia. cbn [andb]. symmetry.
      apply bool_decide_eq_false_2. intros He. by rewrite He in Hl.
  - unfold To16 in Hn. case_bool_decide as Hl16; [|done]. injection Hn as <-.
    unfold networkNumberAndMask. cbn [in_IP in_Mask]. rewrite H4.
    rewrite (bool_decide_eq_true_2 (length ip = 16)) by done.
    change (length (CIDRMask 128 128)) with 16.
    rewrite (bool_decide_eq_false_2 (16 = 4)) by lia. rewrite (bool_decide_eq_true_2 (16 = 16)) by done.
    rewrite (bool_decide_eq_false_2 (length ip = 4)) by lia.
    change (CIDRMask 128 128) with (replicate 16 255%Z).
    replace (canonical ip) with ip by (unfold canonical; by rewrite H4).
    destruct (decide (length (canonical dst) = 16)) as [Hl|Hl].
    + rewrite bool_decide_eq_true_2 by lia. cbn [andb]. by apply same_masked_full.
    + rewrite bool_decide_eq_false_2 by lia. cbn [andb]. symmetry.
      apply bool_decide_eq_false_2. intros He. by rewrite He in Hl.
Qed.

Lemma hostNet_total ip : is_Some (hostNet ip) <-> length ip = 4 \/ length ip = 16.
Proof.
  unfold hostNet, To4, To16. repeat case_bool_decide; cbn; split; intros Hs; try done;
    try (by destruct Hs); try (destruct Hs; lia); try by auto.
Qed.

Lemma numericNets_spec index ips :
  match numericNets index ips with
  | Ok nets => Forall2 (fun ip net => hostNet ip = Some net) ips nets
  | Err _ => Exists (fun ip => hostNet ip = None) ips
  end.
Proof.
  revert index. induction ips as [|ip ips IH]; intros index; cbn; [constructor|].
  destruct (hostNet ip) eqn:Hh; [|by constructor]. specialize (IH (S index)).
  destruct (numericNets (S index) ips); [by constructor|]. by apply Exists_cons_tl.
Qed.

Lemma addressNets_spec ips :
  match addressNets ips with
  | Ok nets => Forall2 (fun ip net => hostNet ip = Some net) ips nets
  | Err _ => Exists (fun ip => hostNet ip = None) ips
  end.
Proof.
  induction ips as [|ip ips IH]; cbn; [constructor|].
  destruct (hostNet ip) eqn:Hh; [|by constructor].
  destruct (addressNets ips); [by constructor|]. by apply Exists_cons_tl.
Qed.

(** Networks of single addresses hold a destination when one of the addresses
    is that destination. *)
Lemma existsb_hostNets ips nets dst :
  Forall2 (fun ip net => hostNet ip = Some net) ips nets ->
  Forall (Forall is_byte) ips -> valid_ip dst ->
  existsb (fun route => Contains route dst) nets =
  existsb (fun ip => bool_decide (canonical dst = canonical ip)) ips.
Proof.
  intros H. induction H as [|ip net ips nets Hn _ IH]; intros Hb Hd; [done|].
  inversion Hb; subst. cbn [existsb]. f_equal; [by apply Contains_hostNet|by apply IH].
Qed.

(** ** A mask is a comparison of leading bits *)

(** The big-endian value of an address. *)
Fixpoint ip_value (ip : IP) : Z :=
  match ip with
  | [] => 0
  | b :: ip => b * 2 ^ (8 * Z.of_nat (length ip)) + ip_value ip
  end%Z.

Definition mask_byte (k : nat) : Z := (256 - 2 ^ (8 - Z.of_nat (min 8 k)))%Z.

Lemma CIDRMask_step ones len :
  map (fun i => mask_byte (ones - 8 * i)) (seq 0 (S len)) =
  mask_byte ones :: map (fun i => mask_byte (ones - 8 - 8 * i)) (seq 0 len).
Proof.
  cbn [seq map]. f_equal; [f_equal; lia|]. rewrite <- seq_shift, map_map.
  apply map_ext. intros i. f_equal. lia.
Qed.

Lemma land_mask_byte x k :
  is_byte x -> Z.land x (mask_byte k) =
    (2 ^ (8 - Z.of_nat (min 8 k)) * (x / 2 ^ (8 - Z.of_nat (min 8 k))))%Z.
Proof.
  intros Hx. unfold mask_byte. generalize (Nat.le_min_l 8 k). generalize (min 8 k). intros j Hj.
  assert (forallb (fun j => forallb (fun n =>
    (Z.land (Z.of_nat n) (256 - 2 ^ (8 - Z.of_nat j)) =?
     2 ^ (8 - Z.of_nat j) * (Z.of_nat n / 2 ^ (8 - Z.of_nat j)))%Z) (seq 0 256)) (seq 0 9) = true)
    as Hall by (vm_compute; reflexivity).
  rewrite forallb_forall in Hall. specialize (Hall j). rewrite forallb_forall in Hall.
  unfold is_byte in Hx. specialize (Hall ltac:(apply in_seq; lia) (Z.to_nat x)).
  rewrite Z2Nat.id in Hall by lia. apply Z.eqb_eq, Hall, in_seq. lia.
Qed.

Lemma ip_value_range ip :
  Forall is_byte ip -> (0 <= ip_value ip < 2 ^ (8 * Z.of_nat (length ip)))%Z.
Proof.
  induction 1 as [|b ip Hb _ IH]; [cbn; lia|]. cbn [ip_value length].
  replace (8 * Z.of_nat (S (length ip)))%Z with (8 + 8 * Z.of_nat (length ip))%Z by lia.
  rewrite Z.pow_add_r by lia. unfold is_byte in Hb. change (2 ^ 8)%Z with 256%Z.
  pose proof (Z.pow_pos_nonneg 2 (8 * Z.of_nat (length ip)) ltac:(lia) ltac:(lia)). nia.
Qed.

(** Leading [n] bits of the first byte and the rest. *)
Lemma ip_value_prefix b ip n :
  Forall is_byte (b :: ip) -> (n <= 8 * length (b :: ip)) ->
  (ip_value (b :: ip) / 2 ^ (8 * Z.of_nat (length (b :: ip)) - Z.of_nat n) =
   (b / 2 ^ (8 - Z.of_nat (min 8 n))) * 2 ^ (Z.of_nat (n - 8)) +
   ip_value ip / 2 ^ (8 * Z.of_nat (length ip) - Z.of_nat (n - 8)))%Z.
Proof.
  intros Hall Hn. inversion Hall as [|? ? Hb Hip]; subst. pose proof (ip_value_range ip Hip) as Hr.
  cbn [ip_value length] in *. set (L := (8 * Z.of_nat (length ip))%Z) in *.
  destruct (Nat.le_gt_cases n 8) as [Hle|Hgt].
  - replace (n - 8) with 0 by lia. replace (min 8 n) with n by lia. change (2 ^ Z.of_nat 0)%Z with 1%Z.
    replace (8 * Z.of_nat (S (length ip)) - Z.of_nat n)%Z with (L + (8 - Z.of_nat n))%Z by lia.
    rewrite Z.pow_add_r by lia. rewrite <- Z.div_div by lia.
    rewrite Z.div_add_l by lia. change (Z.of_nat 0) with 0%Z. rewrite Z.sub_0_r.
    rewrite (Z.div_small (ip_value ip)) by lia. by rewrite Z.mul_1_r, !Z.add_0_r.
  - replace (min 8 n) with 8 by lia. change (8 - Z.of_nat 8)%Z with 0%Z. change (2 ^ 0)%Z with 1%Z.
    rewrite Z.div_1_r.
    replace (8 * Z.of_nat (S (length ip)) - Z.of_nat n)%Z with (L - Z.of_nat (n - 8))%Z by lia.
    replace (b * 2 ^ L)%Z with (b * 2 ^ Z.of_nat (n - 8) * 2 ^ (L - Z.of_nat (n - 8)))%Z.
    2: { rewrite <- Z.mul_assoc, <- Z.pow_add_r by lia. do 2 f_equal. lia. }
    rewrite Z.div_add_l by lia. done.
Qed.

Lemma prefix_range ip n :
  Forall is_byte ip -> n <= 8 * length ip ->
  (0 <= ip_value ip / 2 ^ (8 * Z.of_nat (length ip) - Z.of_nat n) < 2 ^ Z.of_nat n)%Z.
Proof.
  intros Hip Hn. pose proof (ip_value_range ip Hip) as [H0 H1]. split.
  - apply Z.div_pos; [done|]. apply Z.pow_pos_nonneg; lia.
  - apply Z.div_lt_upper_bound; [apply Z.pow_pos_nonneg; lia|].
    rewrite <- Z.pow_add_r by lia. by replace (_ - _ + _)%Z with (8 * Z.of_nat (length ip))%Z by lia.
Qed.

(** [n] leading bits of the value decide the masked comparison. *)
Lemma same_masked_prefix n nn ip :
  Forall is_byte nn -> Forall is_byte ip -> length ip = length nn -> n <= 8 * length nn ->
  same_masked nn (map (fun i => mask_byte (n - 8 * i)) (seq 0 (length nn))) ip =
  (ip_value ip / 2 ^ (8 * Z.of_nat (length nn) - Z.of_nat n) =?
   ip_value nn / 2 ^ (8 * Z.of_nat (length nn) - Z.of_nat n))%Z.
Proof.
  intros Hnn. revert n ip. induction Hnn as [|b nn Hb Hnn IH]; intros n ip Hip Hl Hn.
  { destruct ip; [|done]. cbn. by rewrite Z.eqb_refl. }
  destruct ip as [|c ip]; [done|]. inversion Hip as [|? ? Hc Hip']; subst. injection Hl as Hl.
  cbn [length] in Hn |- *. rewrite CIDRMask_step. cbn [same_masked].
  rewrite IH by (done || lia). rewrite !land_mask_byte by done.
  pose proof (ip_value_prefix b nn n ltac:(by constructor) ltac:(cbn; lia)) as E1.
  pose proof (ip_value_prefix c ip n ltac:(by constructor) ltac:(cbn; lia)) as E2.
  cbn [length] in E1, E2. rewrite Hl in E2. rewrite E1, E2. clear E1 E2.
  pose proof (prefix_range nn (n - 8) Hnn ltac:(lia)) as R1.
  pose proof (prefix_range ip (n - 8) Hip' ltac:(lia)) as R2. rewrite Hl in R2.
  set (q := (8 - Z.of_nat (min 8 n))%Z) in *. assert (0 < 2 ^ q)%Z as Hq by (apply Z.pow_pos_nonneg; lia).
  revert R1 R2. generalize (ip_value nn / 2 ^ (8 * Z.of_nat (length nn) - Z.of_nat (n - 8)))%Z.
  generalize (ip_value ip / 2 ^ (8 * Z.of_nat (length nn) - Z.of_nat (n - 8)))%Z.
  generalize (b / 2 ^ q)%Z, (c / 2 ^ q)%Z. generalize (2 ^ Z.of_nat (n - 8))%Z.
  intros P B C Y X HX HY.
  apply eq_true_iff_eq. rewrite andb_true_iff, !Z.eqb_eq. split.
  - intros [H1 H2]. assert (B = C) by nia. by subst.
  - intros H. assert (B = C) by nia. subst. split; nia.
Qed.

(** ** Properties *)

(** a CIDR with [n] leading ones bypasses exactly the addresses that share
    its first [n] bits, for four-byte and for sixteen-byte networks; a v4-in-v6
    destination counts as its four bytes, and an address of the other family
    never matches. *)
Theorem cidr_membership_is_prefix_equality net n dst :
  Forall is_byte net -> Forall is_byte dst ->
  To4 net = Some net \/ (To4 net = None /\ length net = 16) -> n <= 8 * length net ->
  Contains (mkIPNet net (CIDRMask n (8 * length net))) dst =
    bool_decide (length (canonical dst) = length net) &&
    (ip_value (canonical dst) / 2 ^ (8 * Z.of_nat (length net) - Z.of_nat n) =?
     ip_value net / 2 ^ (8 * Z.of_nat (length net) - Z.of_nat n))%Z.
Proof.
  intros Hnet Hdst Hlen Hn.
  assert (Forall is_byte (canonical dst)) as Hcd.
  { unfold canonical. destruct (To4 dst) eqn:E; [by eapply To4_bytes|done]. }
  assert (networkNumberAndMask (mkIPNet net (CIDRMask n (8 * length net))) =
          Some (net, CIDRMask n (8 * length net))) as Hnn.
  { unfold networkNumberAndMask. cbn [in_IP in_Mask].
    assert (length (CIDRMask n (8 * length net)) = length net) as Hm.
    { unfold CIDRMask. rewrite length_map, length_seq, Nat.mul_comm. by apply Nat.div_mul. }
    rewrite Hm. destruct Hlen as [H4|[H4 H16]]; rewrite H4.
    - apply To4_length in H4. by rewrite !(bool_decide_eq_true_2 (length net = 4)).
    - rewrite !(bool_decide_eq_true_2 (length net = 16)) by done.
      by rewrite !(bool_decide_eq_false_2 (length net = 4)) by lia. }
  unfold Contains. rewrite Hnn. fold (canonical dst).
  destruct (decide (length (canonical dst) = length net)) as [Hl|Hl].
  - rewrite bool_decide_eq_true_2 by done. cbn [andb].
    unfold CIDRMask. rewrite Nat.mul_comm, Nat.div_mul by done.
    by apply same_masked_prefix.
  - by rewrite bool_decide_eq_false_2.
Qed.

Definition covers (ParseCIDR : string -> option IPNet)
    (resolve : string -> result (list IP) gerr) (entry : string) (dst : IP) : Prop :=
  match ParseCIDR entry with
  | Some net => Contains net dst = true
  | None => exists ips, resolve entry = Ok ips /\ canonical dst ∈ map canonical ips
  end.

Lemma existsb_canonical dst ips :
  existsb (fun ip => bool_decide (canonical dst = canonical ip)) ips = true <->
  canonical dst ∈ map canonical ips.
Proof.
  rewrite existsb_exists. split.
  - intros (ip & Hin & He%bool_decide_eq_true). rewrite He.
    by apply list_elem_of_In, in_map.
  - intros Hin. apply list_elem_of_In, in_map_iff in Hin as (ip & He & Hin).
    exists ip. split; [done|]. by apply bool_decide_eq_true.
Qed.

Lemma resolveEntry_spec ParseCIDR resolve entry dst :
  (forall host ips, resolve host = Ok ips -> Forall (Forall is_byte) ips) -> valid_ip dst ->
  match resolveEntry ParseCIDR (Some resolve) entry with
  | Ok nets =>
      existsb (fun route => Contains route dst) nets = true <->
      covers ParseCIDR resolve entry dst
  | Err _ => ~ covers ParseCIDR resolve entry dst \/ ParseCIDR entry = None
  end.
Proof.
  intros Hbytes Hdst. unfold resolveEntry, covers. destruct (ParseCIDR entry) as [net|].
  { cbn. by rewrite orb_false_r. }
  cbn. destruct (resolve entry) as [ips|] eqn:Hr; [|by right].
  pose proof (addressNets_spec ips) as Hn. destruct (addressNets ips) as [nets|]; [|by right].
  case_bool_decide; [by right|].
  rewrite (existsb_hostNets ips nets dst Hn ltac:(by eapply Hbytes) Hdst), existsb_canonical.
  split; [intros Hin; by exists ips|]. by intros (? & [= <-] & ?).
Qed.

Lemma resolveEntries_spec ParseCIDR resolve entries dst nets :
  (forall host ips, resolve host = Ok ips -> Forall (Forall is_byte) ips) -> valid_ip dst ->
  resolveEntries ParseCIDR (Some resolve) entries = (nets, []) ->
  existsb (fun route => Contains route dst) nets = true <->
  exists entry, entry ∈ entries /\ TrimSpace entry <> "" /\
    covers ParseCIDR resolve (TrimSpace entry) dst.
Proof.
  intros Hbytes Hdst. revert nets. induction entries as [|entry entries IH]; intros nets H.
  { injection H as <-. split; [done|]. intros (e & He & _). by apply not_elem_of_nil in He. }
  cbn [resolveEntries] in H. destruct (resolveEntries _ _ entries) as [found errs] eqn:Hrest.
  assert (forall Q : string -> Prop, (exists e, e ∈ entry :: entries /\ Q e) <->
    Q entry \/ exists e, e ∈ entries /\ Q e) as Hsplit.
  { intros Q. split.
    - intros (e & He & Hq). apply elem_of_cons in He as [->|He]; [by left|right; by exists e].
    - intros [Hq|(e & He & Hq)]; [exists entry|exists e]; split; try done; apply elem_of_cons; by auto. }
  rewrite (Hsplit (fun e => TrimSpace e <> "" /\ covers ParseCIDR resolve (TrimSpace e) dst)).
  destruct (String.eqb_spec (TrimSpace entry) "") as [Hblank|Hblank].
  - injection H as -> ->. rewrite (IH nets eq_refl). tauto.
  - pose proof (resolveEntry_spec ParseCIDR resolve (TrimSpace entry) dst Hbytes Hdst) as He.
    destruct (resolveEntry _ _ _) as [mine|]; [|done]. injection H as <- ->.
    rewrite existsb_app, orb_true_iff, (IH found eq_refl), He. tauto.
Qed.

(** C14: a resolved policy bypasses a destination exactly when one of its
    non-blank entries covers it: a CIDR that contains it, or a host one of
    whose addresses it is.  Resolution is all or nothing, and adding numeric
    addresses adds exactly those addresses, leaving the policy it started from
    as it was. *)
Theorem bypass_covers_exactly_its_entries ParseCIDR resolve entries ips dst p p' :
  (forall host found, resolve host = Ok found -> Forall (Forall is_byte) found) ->
  Forall (Forall is_byte) ips -> valid_ip dst ->
  ResolveBypassPolicyWithResolver ParseCIDR (Some resolve) entries = Ok p ->
  WithNumericIPs (Some p) ips = Ok p' ->
  (IsBypass (Some p) (Some dst) = true <->
   exists entry, entry ∈ entries /\ TrimSpace entry <> "" /\
     covers ParseCIDR resolve (TrimSpace entry) dst) /\
  (IsBypass (Some p') (Some dst) = true <->
   IsBypass (Some p) (Some dst) = true \/ canonical dst ∈ map canonical ips) /\
  entryCount p' = length entries.
Proof.
  intros Hbytes Hips Hdst Hp Hp'.
  unfold ResolveBypassPolicyWithResolver, resolveRoutingEntriesWithResolver in Hp.
  destruct (resolveEntries _ _ entries) as [nets errs] eqn:Hr.
  destruct errs; [|done]. injection Hp as <-.
  cbn in Hp'. pose proof (numericNets_spec 0 ips) as Hn.
  destruct (numericNets 0 ips) as [more|]; [|done]. injection Hp' as <-. split_and!.
  - cbn [IsBypass cidrs]. by apply resolveEntries_spec.
  - cbn [IsBypass cidrs]. rewrite existsb_app, orb_true_iff.
    by rewrite (existsb_hostNets ips more dst Hn Hips Hdst), existsb_canonical.
  - done.
Qed.

Definition exampleCIDR : IPNet := mkIPNet [10; 0; 0; 0]%Z (CIDRMask 8 32).

Definition exampleParseCIDR (entry : string) : option IPNet :=
  if String.eqb entry "10.0.0.0/8" then Some exampleCIDR else None.

Definition exampleResolve (host : string) : result (list IP) gerr :=
  if String.eqb host "vpn.example" then Ok [[192; 0; 2; 1]%Z] else Err (EText "no such host").

Lemma bypass_covers_witness :
  IsBypass (Some (mkBypassPolicy [exampleCIDR; mkIPNet [192; 0; 2; 1]%Z (CIDRMask 32 32)] 2))
    (Some [192; 0; 2; 1]%Z) = true.
Proof.
  refine (proj2 (proj1 (bypass_covers_exactly_its_entries exampleParseCIDR exampleResolve
    ["10.0.0.0/8"; " vpn.example "] [[1; 1; 1; 1]%Z] [192; 0; 2; 1]%Z _ _ _ _ _ _ _)) _).
  - intros host found. unfold exampleResolve. case_match; [|done]. intros [= <-].
    repeat constructor; unfold is_byte; lia.
  - repeat constructor; unfold is_byte; lia.
  - split; [by left|]. repeat constructor; unfold is_byte; lia.
  - vm_compute. reflexivity.
  - vm_compute. reflexivity.
  - exists " vpn.example ". split; [apply elem_of_cons; right; by apply list_elem_of_singleton|].
    split; [by vm_compute|]. exists [[192; 0; 2; 1]%Z]. split; [by vm_compute|].
    by apply list_elem_of_singleton.
Defined.

Lemma cidr_membership_witness : Contains exampleCIDR [10; 200; 3; 4]%Z = true.
Proof.
  refine (eq_trans (cidr_membership_is_prefix_equality [10; 0; 0; 0]%Z 8 [10; 200; 3; 4]%Z _ _ _ _) _).
  - repeat constructor; unfold is_byte; lia.
  - repeat constructor; unfold is_byte; lia.
  - left. reflexivity.
  - cbn. lia.
  - vm_compute. reflexivity.
Defined.
