(* ===== verification/Flows.v ===== *)
(** * Route flows of one attempt (core/tunnel/flow_owner.go, tunnel.go,
      socks_tcp.go, udp_transport.go)

    One [flowOwner] with the connections it owns, the goroutines that dial
    through it, and the sockets they open.  Every critical section is one
    step; what a socket call answers is an argument of the step.  A handle is
    one of the program's four connection wrappers, a socket is what it wraps.
    [w_open] is the set of sockets the operating system still holds open: a
    socket leaves it when closing it reports success or [net.ErrClosed];
    [w_closing] is what the loop of [sealAndClose] has left to close. *)

From S2P Require Import Prelude Errors.
Local Open Scope string_scope.
Local Open Scope list_scope.

(** [trackedConn], [idlePacketConn] around [trackedPacketConn],
    [pendingSOCKSConn] and [trackedUDPOrigin]. *)
Inductive conn_kind := TrackedTCP | IdleUDP | PendingSOCKS | UDPOrigin.

#[export] Instance conn_kind_eq_dec : EqDecision conn_kind.
Proof. solve_decision. Defined.

(** [hd_closed] is the wrapper's [closed] (for [IdleUDP] that of the inner
    [trackedPacketConn]); the two [hd_idle] fields are those of
    [idlePacketConn]; [hd_handed] says the dial returned it to its caller. *)
Record handle := mkHandle {
  hd_kind : conn_kind;
  hd_sock : nat;
  hd_closed : bool;
  hd_idleClosed : bool;
  hd_idleErr : option gerr;
  hd_handed : bool
}.
#[export] Instance eta_handle : Settable handle :=
  fun x => mkHandle (hd_kind x) (hd_sock x) (hd_closed x) (hd_idleClosed x) (hd_idleErr x) (hd_handed x).

Definition newHandle (k : conn_kind) (s : nat) : handle := mkHandle k s false false None false.

(** The [settled] channel of epoch [n] is closed once a later epoch began or
    no dial is pending. *)
Record flowOwner := mkFlowOwner {
  fo_closed : bool;
  fo_connections : gmap nat (option gerr);
  fo_pending : Z;
  fo_epoch : nat
}.
#[export] Instance eta_flowOwner : Settable flowOwner :=
  fun x => mkFlowOwner (fo_closed x) (fo_connections x) (fo_pending x) (fo_epoch x).

(** Where a dialing goroutine is. [DBegin] has not been counted yet. *)
Inductive dial :=
| DBegin (tcp bypass : bool)
| TDial (bypass : bool)
| THandshake (h : nat) (canceled : bool)
| TDialed (s : nat)
| TFailed
| TLate (h : nat)
| UDial
| UDialed (h : nat)
| UFailed
| ULate (h : nat)
| OAdmitted (h : nat)
| OLate (h : nat)
| OQueued (h : nat)
| DEnd.

Record world := mkWorld {
  w_owner : flowOwner;
  w_handles : gmap nat handle;
  w_open : gset nat;
  w_next : nat;
  w_dials : gmap nat dial;
  w_closing : list nat;
  w_activeTCP : Z;
  w_activeUDP : Z;
  w_idleTimeouts : Z
}.
#[export] Instance eta_world : Settable world :=
  fun x => mkWorld (w_owner x) (w_handles x) (w_open x) (w_next x) (w_dials x)
             (w_closing x) (w_activeTCP x) (w_activeUDP x) (w_idleTimeouts x).

Definition newWorld : world := mkWorld (mkFlowOwner false ∅ 0 0) ∅ ∅ 0 ∅ [] 0 0 0.

(** ** flowOwner *)

Definition beginDial (o : flowOwner) : result flowOwner gerr :=
  if fo_closed o then Err (ESent NetErrClosed)
  else
    let o := if (fo_pending o =? 0)%Z then o <| fo_epoch ::= S |> else o in
    Ok (o <| fo_pending ::= (fun n => n + 1)%Z |>).

Definition endDial (o : flowOwner) : flowOwner := o <| fo_pending ::= (fun n => n - 1)%Z |>.

Definition settled (epoch : nat) (o : flowOwner) : bool :=
  (epoch <? fo_epoch o)%nat || (fo_pending o =? 0)%Z.

(** [false] leaves the owner as it was. *)
Definition track (conn : nat) (o : flowOwner) : option flowOwner :=
  if fo_closed o then None else Some (o <| fo_connections ::= insert conn None |>).

Definition release (conn : nat) (err : option gerr) (o : flowOwner) : flowOwner :=
  if closeFailed err then o <| fo_connections ::= insert conn err |>
  else o <| fo_connections ::= delete conn |>.

Definition residualErrorLocked (o : flowOwner) : option gerr :=
  join (map (fun ce : nat * option gerr =>
          match ce.2 with
          | Some e => Some e
          | None => Some (EText "route connection remains open")
          end) (map_to_list (fo_connections o))).

(** [sealAndClose] up to the loop; the connections it then closes one by one. *)
Definition seal (o : flowOwner) : flowOwner * list nat :=
  (o <| fo_closed := true |>, (map_to_list (fo_connections o)).*1).

(** [wait], cut at its critical sections: nothing pending or a channel to wait
    for; the deadline's report, [None] when the dials ended meanwhile; the
    final report. *)
Definition wait_begin (o : flowOwner) : option nat :=
  if negb (fo_pending o =? 0)%Z then Some (fo_epoch o) else None.

Definition wait_deadline (ctxErr : gerr) (o : flowOwner) : option gerr :=
  if negb (fo_pending o =? 0)%Z
  then join [residualErrorLocked o; Some (EWrap "route cleanup has unresolved dials" ctxErr)]
  else None.

Definition wait_result (o : flowOwner) : option gerr := residualErrorLocked o.

(** ** Closing a wrapper *)

(** The socket's own [Close] answered [reply]. *)
Definition closeSocket (s : nat) (reply : option gerr) (w : world) : world :=
  if closeFailed reply then w else w <| w_open ::= (fun o => o ∖ {[s]}) |>.

Definition setHandle (h : nat) (hd : handle) (w : world) : world :=
  w <| w_handles ::= insert h hd |>.

Definition releaseHandle (h : nat) (err : option gerr) (w : world) : world :=
  w <| w_owner ::= release h err |>.

Definition closeTrackedTCP (h : nat) (hd : handle) (reply : option gerr) (w : world) : world :=
  if hd_closed hd then w
  else
    let w := closeSocket (hd_sock hd) reply w in
    if closeFailed reply then releaseHandle h reply w
    else releaseHandle h None
           (setHandle h (hd <| hd_closed := true |>) w <| w_activeTCP ::= (fun n => n - 1)%Z |>).

(** [trackedPacketConn.Close]: the new handle and what it reports. *)
Definition closePacketConn (h : nat) (hd : handle) (reply : option gerr) (w : world) :
    world * handle * option gerr :=
  if hd_closed hd then (w, hd, None)
  else
    let w := closeSocket (hd_sock hd) reply w in
    if closeFailed reply then (w, hd, reply)
    else (w <| w_activeUDP ::= (fun n => n - 1)%Z |>, hd <| hd_closed := true |>, None).

Definition idleClose (h : nat) (hd : handle) (reply : option gerr) (w : world) : world :=
  let '(w, hd, err) := closePacketConn h hd reply w in
  releaseHandle h err
    (setHandle h (hd <| hd_idleClosed := true |> <| hd_idleErr := err |>) w).

Definition closeIdleUDP (h : nat) (hd : handle) (reply : option gerr) (w : world) : world :=
  if hd_idleClosed hd && bool_decide (hd_idleErr hd = None) then w else idleClose h hd reply w.

Definition closeAfterIdleTimeout (h : nat) (hd : handle) (reply : option gerr) (w : world) :
    world :=
  if hd_idleClosed hd then w
  else idleClose h hd reply (w <| w_idleTimeouts ::= (fun n => n + 1)%Z |>).

Definition closePendingSOCKS (h : nat) (hd : handle) (reply : option gerr) (w : world) : world :=
  let w := closeSocket (hd_sock hd) reply w in
  releaseHandle h (if closeFailed reply then reply else None)
    (if closeFailed reply then w else setHandle h (hd <| hd_closed := true |>) w).

Definition closeUDPOrigin (h : nat) (hd : handle) (reply : option gerr) (w : world) : world :=
  if hd_closed hd then w
  else
    let w := closeSocket (hd_sock hd) reply w in
    if closeFailed reply then releaseHandle h reply w
    else releaseHandle h None (setHandle h (hd <| hd_closed := true |>) w).

(** A socket that is closed already answers [net.ErrClosed]. *)
Definition socketReply (s : nat) (reply : option gerr) (w : world) : option gerr :=
  if bool_decide (s ∈ w_open w) then reply else Some (ESent NetErrClosed).

(** [Close] of whatever wrapper [h] is. *)
Definition Close (h : nat) (reply : option gerr) (w : world) : world :=
  match w_handles w !! h with
  | None => w
  | Some hd =>
      let reply := socketReply (hd_sock hd) reply w in
      match hd_kind hd with
      | TrackedTCP => closeTrackedTCP h hd reply w
      | IdleUDP => closeIdleUDP h hd reply w
      | PendingSOCKS => closePendingSOCKS h hd reply w
      | UDPOrigin => closeUDPOrigin h hd reply w
      end
  end.

(** ** Dials *)

Definition goto_dial (t : nat) (d : dial) (w : world) : world := w <| w_dials ::= insert t d |>.

(** A new wrapper around socket [s]. *)
Definition newConn (k : conn_kind) (s : nat) (w : world) : world * nat :=
  let h := w_next w in
  (setHandle h (newHandle k s) w <| w_next ::= S |>, h).

(** A socket the operating system opened. *)
Definition openSocket (w : world) : world * nat :=
  let s := w_next w in
  (w <| w_open ::= (fun o => {[s]} ∪ o) |> <| w_next ::= S |>, s).

(** [track] returned true: the dial hands the wrapper to its caller. *)
Definition handOver (h : nat) (w : world) : world :=
  w <| w_handles ::= alter (fun hd => hd <| hd_handed := true |>) h |>.

(** What a goroutine is told by the call it is in. *)
Inductive dialReply :=
| RNothing
| RDialed
| RDialErr (err : gerr)
| RHandshake (err : option gerr) (close : option gerr)
| RCancel (close : option gerr)
| RClosed (close : option gerr).

(** [dialTCPRoute] and [dialUDPRoute] before the network call. *)
Definition dial_begin (t : nat) (tcp bypass : bool) (w : world) : world :=
  match beginDial (w_owner w) with
  | Err _ => w <| w_dials ::= delete t |>
  | Ok o =>
      let w := w <| w_owner := o |> in
      if tcp then goto_dial t (TDial bypass) w <| w_activeTCP ::= (fun n => n + 1)%Z |>
      else goto_dial t UDial w <| w_activeUDP ::= (fun n => n + 1)%Z |>
  end.

(** [socksTCPProxy.DialContext] has its raw socket, or the direct route has
    its connection. *)
Definition tcp_dialed (t : nat) (bypass : bool) (w : world) : world :=
  let '(w, s) := openSocket w in
  if bypass then goto_dial t (TDialed s) w
  else let '(w, h) := newConn PendingSOCKS s w in goto_dial t (THandshake h false) w.

(** The handshake ended: [err] joins its error and the context's. *)
Definition handshake_done (t h : nat) (canceled : bool) (err close : option gerr)
    (w : world) : world :=
  match err, canceled with
  | None, false =>
      match w_handles w !! h with
      | Some hd => goto_dial t (TDialed (hd_sock hd)) w
      | None => w
      end
  | _, _ => goto_dial t TFailed (Close h close w)
  end.

Definition tcp_track (t s : nat) (w : world) : world :=
  let '(w, h) := newConn TrackedTCP s w in
  match track h (w_owner w) with
  | Some o => goto_dial t DEnd (handOver h (w <| w_owner := o |>))
  | None => goto_dial t (TLate h) w
  end.

Definition udp_dialed (t : nat) (w : world) : world :=
  let '(w, s) := openSocket w in
  let '(w, h) := newConn IdleUDP s w in goto_dial t (UDialed h) w.

Definition udp_track (t h : nat) (w : world) : world :=
  match w_handles w !! h with
  | None => w
  | Some hd =>
      if hd_idleClosed hd then goto_dial t (ULate h) w
      else match track h (w_owner w) with
           | Some o => goto_dial t DEnd (handOver h (w <| w_owner := o |>))
           | None => goto_dial t (ULate h) w
           end
  end.

Definition origin_track (t h : nat) (w : world) : world :=
  match track h (w_owner w) with
  | Some o => goto_dial t (OQueued h) (w <| w_owner := o |>)
  | None => goto_dial t (OLate h) w
  end.

(** One step of the goroutine [t]; [None] when the reply does not fit where
    it is. *)
Definition dial_step (t : nat) (r : dialReply) (w : world) : option world :=
  match w_dials w !! t with
  | None => None
  | Some d =>
      match d, r with
      | DBegin tcp bypass, RNothing => Some (dial_begin t tcp bypass w)
      | TDial bypass, RDialed => Some (tcp_dialed t bypass w)
      | TDial _, RDialErr _ => Some (goto_dial t TFailed w)
      | THandshake h false, RCancel close => Some (goto_dial t (THandshake h true) (Close h close w))
      | THandshake h canceled, RHandshake err close =>
          Some (handshake_done t h canceled err close w)
      | TDialed s, RNothing => Some (tcp_track t s w)
      | TFailed, RNothing => Some (goto_dial t DEnd w <| w_activeTCP ::= (fun n => n - 1)%Z |>)
      | UDial, RDialed => Some (udp_dialed t w)
      | UDial, RDialErr _ => Some (goto_dial t UFailed w)
      | UFailed, RNothing => Some (goto_dial t DEnd w <| w_activeUDP ::= (fun n => n - 1)%Z |>)
      | UDialed h, RNothing => Some (udp_track t h w)
      | OAdmitted h, RNothing => Some (origin_track t h w)
      | OQueued h, RNothing => Some (goto_dial t DEnd (handOver h w))
      | OQueued h, RClosed close =>
          if fo_closed (w_owner w) then Some (goto_dial t DEnd (Close h close w)) else None
      | (TLate h | ULate h | OLate h), RClosed close => Some (goto_dial t DEnd (Close h close w))
      | DEnd, RNothing => Some (w <| w_owner ::= endDial |> <| w_dials ::= delete t |>)
      | _, _ => None
      end
  end.

(** ** The machine *)

Inductive flowEvent :=
| FDial (tcp bypass : bool)
| FOrigin
| FStep (t : nat) (r : dialReply)
| FClose (h : nat) (reply : option gerr)
| FIdle (h : nat) (reply : option gerr)
| FSeal
| FCloseOwned (reply : option gerr).

(** A goroutine enters [DialContext] or [DialUDP] of this target. *)
Definition startDial (tcp bypass : bool) (w : world) : world :=
  goto_dial (w_next w) (DBegin tcp bypass) w <| w_next ::= S |>.

(** [HandleUDP] with this target: admission is counted under the router's
    lock, the input endpoint is already open. *)
Definition admitOrigin (w : world) : world :=
  match beginDial (w_owner w) with
  | Err _ => w
  | Ok o =>
      let '(w, s) := openSocket (w <| w_owner := o |>) in
      let '(w, h) := newConn UDPOrigin s w in
      goto_dial (w_next w) (OAdmitted h) w <| w_next ::= S |>
  end.

(** [FClose] is the caller of a dial closing what it was given, [FCloseOwned]
    the loop of [sealAndClose]. *)
Definition flow_step (ev : flowEvent) (w : world) : option world :=
  match ev with
  | FDial tcp bypass => Some (startDial tcp bypass w)
  | FOrigin => Some (admitOrigin w)
  | FStep t r => dial_step t r w
  | FClose h reply =>
      match w_handles w !! h with
      | Some hd => if hd_handed hd then Some (Close h reply w) else None
      | None => None
      end
  | FIdle h reply =>
      match w_handles w !! h with
      | Some hd =>
          if bool_decide (hd_kind hd = IdleUDP) then
            Some (closeAfterIdleTimeout h hd (socketReply (hd_sock hd) reply w) w)
          else None
      | None => None
      end
  | FSeal =>
      let '(o, conns) := seal (w_owner w) in
      Some (w <| w_owner := o |> <| w_closing := conns |>)
  | FCloseOwned reply =>
      match w_closing w with
      | h :: rest => Some (Close h reply w <| w_closing := rest |>)
      | [] => None
      end
  end.

Fixpoint flow_run (evs : list flowEvent) (w : world) : option world :=
  match evs with
  | [] => Some w
  | ev :: evs => match flow_step ev w with Some w => flow_run evs w | None => None end
  end.
