(* ===== verification/FlowsInvariant.v ===== *)
(** * The flow owner's invariant

    Every open socket is owned: by the goroutine that is dialing it, or through
    a wrapper that is registered or still in its goroutine's hands.  The
    counters count what they claim to. *)

From S2P Require Import Prelude Errors Flows.

(** ** What a goroutine contributes to the counters, and what it holds *)

Definition pending_of (d : dial) : Z := match d with DBegin _ _ => 0 | _ => 1 end.

Definition tcp_of (d : dial) : Z :=
  match d with TDial _ | THandshake _ _ | TDialed _ | TFailed => 1 | _ => 0 end.

Definition udp_of (d : dial) : Z := match d with UDial | UFailed => 1 | _ => 0 end.

Definition live_of (k : conn_kind) (hd : handle) : Z :=
  if bool_decide (hd_kind hd = k) && negb (hd_closed hd) then 1 else 0.

Definition held (d : dial) : option (conn_kind * nat) :=
  match d with
  | THandshake h _ => Some (PendingSOCKS, h)
  | TLate h => Some (TrackedTCP, h)
  | UDialed h | ULate h => Some (IdleUDP, h)
  | OAdmitted h | OLate h | OQueued h => Some (UDPOrigin, h)
  | _ => None
  end.

Definition holds (d : dial) (h : nat) : Prop := exists k, held d = Some (k, h).

Definition owned (w : world) (h : nat) : Prop :=
  is_Some (fo_connections (w_owner w) !! h) \/ exists t d, w_dials w !! t = Some d /\ holds d h.

Record dial_ok (w : world) (t : nat) (d : dial) : Prop := mkDialOk {
  do_held : forall k h, held d = Some (k, h) ->
    exists hd, w_handles w !! h = Some hd /\ hd_kind hd = k;
  do_sock : forall s, d = TDialed s -> s < w_next w;
  do_admitted : forall h, d = OAdmitted h ->
    (exists hd, w_handles w !! h = Some hd /\ hd_closed hd = false /\ hd_handed hd = false) /\
    fo_connections (w_owner w) !! h = None /\ (h ∉ w_closing w) /\
    (forall t' d', w_dials w !! t' = Some d' -> holds d' h -> t' = t)
}.

(** A registered wrapper is not closed, and closing it again does something. *)
Definition retryable (hd : handle) : Prop :=
  hd_closed hd = false /\ (hd_idleClosed hd = true -> hd_idleErr hd <> None).

(** The wrapper is registered unless it has been closed. *)
Definition registered (w : world) (h : nat) : Prop :=
  exists hd, w_handles w !! h = Some hd /\
    (hd_closed hd = true \/ is_Some (fo_connections (w_owner w) !! h)).

(** The two layers of [idlePacketConn] agree. *)
Definition handle_ok (hd : handle) : Prop :=
  if bool_decide (hd_kind hd = IdleUDP) then
    hd_closed hd = hd_idleClosed hd && bool_decide (hd_idleErr hd = None)
  else hd_idleClosed hd = false.

Record Inv (w : world) : Prop := mkInv {
  iv_pending : fo_pending (w_owner w) = csum pending_of (w_dials w);
  iv_tcp : w_activeTCP w =
    ((csum tcp_of (w_dials w)) + (csum (live_of TrackedTCP) (w_handles w)))%Z;
  iv_udp : w_activeUDP w =
    (csum udp_of (w_dials w) + csum (live_of IdleUDP) (w_handles w))%Z;
  iv_open_fresh : forall s, s ∈ w_open w -> s < w_next w;
  iv_handle_fresh : forall h hd, w_handles w !! h = Some hd -> h < w_next w /\ hd_sock hd < w_next w;
  iv_dial_fresh : forall t d, w_dials w !! t = Some d -> t < w_next w;
  iv_open : forall s, s ∈ w_open w ->
    (exists t, w_dials w !! t = Some (TDialed s)) \/
    (exists h hd, w_handles w !! h = Some hd /\ hd_sock hd = s /\ hd_closed hd = false /\ owned w h);
  iv_live : forall h hd, w_handles w !! h = Some hd -> hd_closed hd = false ->
    hd_kind hd <> PendingSOCKS -> owned w h;
  iv_dead : forall h hd, w_handles w !! h = Some hd -> hd_closed hd = true -> hd_sock hd ∉ w_open w;
  iv_dials : forall t d, w_dials w !! t = Some d -> dial_ok w t d;
  iv_conns : forall h, is_Some (fo_connections (w_owner w) !! h) ->
    exists hd, w_handles w !! h = Some hd /\ retryable hd;
  iv_handles : forall h hd, w_handles w !! h = Some hd -> handle_ok hd;
  iv_closing : forall h, h ∈ w_closing w -> h < w_next w;
  iv_queued : forall t h, w_dials w !! t = Some (OQueued h) -> registered w h
}.

Lemma Inv_new : Inv newWorld.
Proof. constructor; cbn; try done; try (by intros ? []); try (intros; set_solver). Qed.

(** ** Closing *)

(** What [Close] of [h] does: nothing but to [h], its socket and its
    registration; a wrapper that is not closed afterwards is registered. *)
Record closes (h : nat) (hd hd' : handle) (w w' : world) : Prop := mkCloses {
  cl_next : w_next w' = w_next w;
  cl_dials : w_dials w' = w_dials w;
  cl_closing : w_closing w' = w_closing w;
  cl_closed : fo_closed (w_owner w') = fo_closed (w_owner w);
  cl_pending : fo_pending (w_owner w') = fo_pending (w_owner w);
  cl_epoch : fo_epoch (w_owner w') = fo_epoch (w_owner w);
  cl_handles : w_handles w' = <[h := hd']> (w_handles w);
  cl_kind : hd_kind hd' = hd_kind hd;
  cl_sock : hd_sock hd' = hd_sock hd;
  cl_handed : hd_handed hd' = hd_handed hd;
  cl_mono : hd_closed hd = true -> hd_closed hd' = true;
  cl_conns : forall h', h' <> h ->
    fo_connections (w_owner w') !! h' = fo_connections (w_owner w) !! h';
  cl_open : forall s, s ∈ w_open w' <->
    s ∈ w_open w /\ ~ (hd_closed hd = false /\ hd_closed hd' = true /\ s = hd_sock hd);
  cl_residual : hd_closed hd' = false -> is_Some (fo_connections (w_owner w') !! h);
  cl_retry : is_Some (fo_connections (w_owner w') !! h) -> retryable hd';
  cl_ok : handle_ok hd';
  cl_tcp : w_activeTCP w' = (w_activeTCP w - live_of TrackedTCP hd + live_of TrackedTCP hd')%Z;
  cl_udp : w_activeUDP w' = (w_activeUDP w - live_of IdleUDP hd + live_of IdleUDP hd')%Z
}.

(** The state of a wrapper before it is closed, as the invariant has it. *)
Definition closable (h : nat) (hd : handle) (w : world) : Prop :=
  w_handles w !! h = Some hd /\
  (is_Some (fo_connections (w_owner w) !! h) -> retryable hd) /\
  (hd_closed hd = true -> hd_sock hd ∉ w_open w) /\
  handle_ok hd.

Lemma Inv_closable h hd w : Inv w -> w_handles w !! h = Some hd -> closable h hd w.
Proof.
  intros [] Hh. split; [done|]. split; [|split]; eauto.
  intros (hd' & Hh' & Hr)%iv_conns0. simplify_eq. done.
Qed.

Lemma closeFailed_reply s reply w :
  s ∉ w_open w -> closeFailed (socketReply s reply w) = false.
Proof. intros Hs. unfold socketReply. by rewrite bool_decide_eq_false_2. Qed.

Lemma live_of_closed k hd : hd_closed hd = true -> live_of k hd = 0%Z.
Proof. intros H. unfold live_of. by rewrite H, andb_false_r. Qed.

Lemma live_of_other k hd : hd_kind hd <> k -> live_of k hd = 0%Z.
Proof. intros H. unfold live_of. by rewrite bool_decide_eq_false_2. Qed.

Lemma live_of_open k hd : hd_kind hd = k -> hd_closed hd = false -> live_of k hd = 1%Z.
Proof. intros H1 H2. unfold live_of. by rewrite H2, bool_decide_eq_true_2. Qed.

(** Closing that changes nothing. *)
Lemma closes_nothing h hd w : closable h hd w -> hd_closed hd = true -> closes h hd hd w w.
Proof.
  intros (Hh & Hretry & Hdead & Hok) Hc. constructor; try done; try lia.
  - by rewrite insert_id.
  - intros s. split; [|by intros [? _]]. intros Hs. split; [done|]. intros (_ & _ & ->). by apply Hdead.
  - by rewrite Hc.
Qed.

Lemma closes_failed h hd reply w :
  closable h hd w -> hd_closed hd = false -> hd_kind hd <> IdleUDP -> closeFailed reply = true ->
  closes h hd hd w (releaseHandle h reply w).
Proof.
  intros (Hh & Hretry & Hdead & Hok) Hc Hk Hf. unfold releaseHandle, release. cbn. rewrite Hf.
  constructor; try done; cbn; try lia.
  - by rewrite insert_id.
  - intros h' Hne. by rewrite lookup_insert_ne.
  - intros s. split; [|by intros [? _]]. intros Hs. split; [done|]. intros (_ & Hc' & _). congruence.
  - intros _. by rewrite lookup_insert_eq.
  - intros _. split; [done|]. unfold handle_ok in Hok. rewrite bool_decide_eq_false_2 in Hok by done.
    congruence.
Qed.

Lemma closes_done h hd hd' w w0 :
  closable h hd w -> hd_kind hd' = hd_kind hd -> hd_sock hd' = hd_sock hd ->
  hd_handed hd' = hd_handed hd -> hd_closed hd' = true -> handle_ok hd' ->
  w_next w0 = w_next w -> w_dials w0 = w_dials w -> w_closing w0 = w_closing w ->
  w_owner w0 = w_owner w -> w_handles w0 = <[h := hd']> (w_handles w) ->
  w_open w0 = w_open w ∖ {[hd_sock hd]} ->
  w_activeTCP w0 = (w_activeTCP w - live_of TrackedTCP hd)%Z ->
  w_activeUDP w0 = (w_activeUDP w - live_of IdleUDP hd)%Z ->
  closes h hd hd' w (releaseHandle h None w0).
Proof.
  intros (Hh & Hretry & Hdead & Hok) Hk Hs Hhd Hc Hok' E1 E2 E3 E4 E5 E6 E7 E8.
  unfold releaseHandle, release. cbn. constructor; cbn; rewrite ?E4; try done.
  - intros h' Hne. by rewrite lookup_delete_ne.
  - intros s. rewrite E6, elem_of_difference, elem_of_singleton.
    split; intros [Ha Hb]; (split; [done|]); [by intros (_ & _ & ->)|]. intros ->.
    destruct (hd_closed hd); [by apply Hdead|by apply Hb].
  - by rewrite Hc.
  - rewrite lookup_delete_eq. by intros [? ?].
  - rewrite E7, (live_of_closed _ hd') by done. lia.
  - rewrite E8, (live_of_closed _ hd') by done. lia.
Qed.

Lemma handle_ok_other hd hd' :
  handle_ok hd -> hd_kind hd <> IdleUDP -> hd_kind hd' = hd_kind hd ->
  hd_idleClosed hd' = hd_idleClosed hd -> handle_ok hd'.
Proof. intros H Hk E1 E2. unfold handle_ok in *. rewrite E1, E2. by rewrite bool_decide_eq_false_2 in *. Qed.

Lemma closes_idle h hd reply w w0 :
  closable h hd w -> hd_kind hd = IdleUDP ->
  w_next w0 = w_next w -> w_dials w0 = w_dials w -> w_closing w0 = w_closing w ->
  w_owner w0 = w_owner w -> w_handles w0 = w_handles w -> w_open w0 = w_open w ->
  w_activeTCP w0 = w_activeTCP w -> w_activeUDP w0 = w_activeUDP w ->
  exists hd', closes h hd hd' w (idleClose h hd reply w0).
Proof.
  intros Hcl Hk E1 E2 E3 E4 E5 E6 E7 E8. pose proof Hcl as (Hh & Hretry & Hdead & Hok).
  unfold idleClose, closePacketConn, closeSocket. destruct (hd_closed hd) eqn:Hc.
  - exists (hd <| hd_idleClosed := true |> <| hd_idleErr := None |>). apply closes_done; cbn; try done.
    + unfold handle_ok. cbn. rewrite Hk, Hc. by rewrite bool_decide_eq_true_2.
    + by rewrite E5.
    + rewrite E6. apply set_eq. intros x. rewrite elem_of_difference, elem_of_singleton.
      split; [|by intros []]. intros Hx. split; [done|]. intros ->. by apply Hdead.
    + rewrite live_of_closed by done. lia.
    + rewrite live_of_closed by done. lia.
  - destruct (closeFailed reply) eqn:Hf.
    + exists (hd <| hd_idleClosed := true |> <| hd_idleErr := reply |>).
      assert (reply <> None) as Hne by (by intros ->).
      unfold releaseHandle, release. cbn. rewrite Hf.
      constructor; cbn; rewrite ?E4, ?E5, ?E6, ?E7, ?E8; try done.
      * intros h' Hh'. by rewrite lookup_insert_ne.
      * intros s. rewrite Hc. split; [|by intros []]. intros Hs. split; [done|]. by intros (_ & ? & _).
      * intros _. by rewrite lookup_insert_eq.
      * unfold handle_ok. cbn. rewrite Hk, Hc, bool_decide_eq_true_2 by done.
        by rewrite bool_decide_eq_false_2.
      * unfold live_of. cbn. lia.
      * unfold live_of. cbn. lia.
    + exists (hd <| hd_closed := true |> <| hd_idleClosed := true |> <| hd_idleErr := None |>).
      apply closes_done; cbn; try done.
      * unfold handle_ok. cbn. rewrite Hk. by rewrite bool_decide_eq_true_2.
      * by rewrite E5.
      * by rewrite E6.
      * rewrite E7, live_of_other by congruence. lia.
      * rewrite E8, live_of_open by done. lia.
Qed.

Lemma Close_closes h hd reply w :
  closable h hd w -> exists hd', closes h hd hd' w (Close h reply w).
Proof.
  intros Hcl. pose proof Hcl as (Hh & Hretry & Hdead & Hok). unfold Close. rewrite Hh.
  set (r := socketReply (hd_sock hd) reply w).
  assert (hd_closed hd = true -> closeFailed r = false) as Hr.
  { intros Hc. by apply closeFailed_reply, Hdead. }
  unfold closeTrackedTCP, closePendingSOCKS, closeUDPOrigin, closeSocket.
  destruct (hd_kind hd) eqn:Hk.
  - destruct (hd_closed hd) eqn:Hc; [exists hd; by apply closes_nothing|].
    destruct (closeFailed r) eqn:Hf; [exists hd; apply closes_failed; congruence|].
    exists (hd <| hd_closed := true |>). apply closes_done; cbn; try done.
    + by eapply handle_ok_other; [exact Hok|congruence|..].
    + rewrite live_of_open by done. lia.
    + rewrite live_of_other by congruence. lia.
  - unfold closeIdleUDP. destruct (hd_idleClosed hd && _) eqn:Hi; [|by apply closes_idle].
    exists hd. apply closes_nothing; [done|]. unfold handle_ok in Hok.
    rewrite bool_decide_eq_true_2 in Hok by done. congruence.
  - destruct (closeFailed r) eqn:Hf.
    + exists hd. apply closes_failed; try done; [|congruence]. destruct (hd_closed hd); [|done].
      specialize (Hr eq_refl). congruence.
    + exists (hd <| hd_closed := true |>). apply closes_done; cbn; try done.
      * by eapply handle_ok_other; [exact Hok|congruence|..].
      * rewrite live_of_other by congruence. lia.
      * rewrite live_of_other by congruence. lia.
  - destruct (hd_closed hd) eqn:Hc; [exists hd; by apply closes_nothing|].
    destruct (closeFailed r) eqn:Hf; [exists hd; apply closes_failed; congruence|].
    exists (hd <| hd_closed := true |>). apply closes_done; cbn; try done.
    + by eapply handle_ok_other; [exact Hok|congruence|..].
    + rewrite live_of_other by congruence. lia.
    + rewrite live_of_other by congruence. lia.
Qed.

(** ** Preservation *)

Lemma lookup_closed h hd hd' w w' h0 x :
  closes h hd hd' w w' -> w_handles w' !! h0 = Some x ->
  (h0 = h /\ x = hd') \/ (h0 <> h /\ w_handles w !! h0 = Some x).
Proof.
  intros H. rewrite (cl_handles _ _ _ _ _ H). destruct (decide (h0 = h)) as [->|Hne].
  - rewrite lookup_insert_eq. intros [= <-]. by left.
  - rewrite lookup_insert_ne by done. by right.
Qed.

Lemma owned_closed h hd hd' w w' h0 :
  closes h hd hd' w w' -> h0 <> h -> owned w h0 -> owned w' h0.
Proof.
  intros H Hne. unfold owned. rewrite (cl_dials _ _ _ _ _ H), (cl_conns _ _ _ _ _ H) by done. done.
Qed.

(** Closing keeps the invariant unless the wrapper is an origin that is about
    to be registered. *)
Lemma Inv_closes h hd hd' w w' :
  Inv w -> w_handles w !! h = Some hd -> (forall t, w_dials w !! t <> Some (OAdmitted h)) ->
  closes h hd hd' w w' -> Inv w'.
Proof.
  intros Hinv Hh Hadm H. destruct Hinv. constructor.
  - by rewrite (cl_pending _ _ _ _ _ H), (cl_dials _ _ _ _ _ H).
  - rewrite (cl_tcp _ _ _ _ _ H), (cl_dials _ _ _ _ _ H), (cl_handles _ _ _ _ _ H).
    rewrite (csum_update _ h hd) by done. lia.
  - rewrite (cl_udp _ _ _ _ _ H), (cl_dials _ _ _ _ _ H), (cl_handles _ _ _ _ _ H).
    rewrite (csum_update _ h hd) by done. lia.
  - intros s. rewrite (cl_open _ _ _ _ _ H), (cl_next _ _ _ _ _ H). intros [Hs _]. by apply iv_open_fresh0.
  - intros h0 x Hx. rewrite (cl_next _ _ _ _ _ H).
    destruct (lookup_closed _ _ _ _ _ _ _ H Hx) as [[-> ->]|[_ Hx']]; [|by apply iv_handle_fresh0].
    rewrite (cl_sock _ _ _ _ _ H). by apply iv_handle_fresh0.
  - rewrite (cl_dials _ _ _ _ _ H), (cl_next _ _ _ _ _ H). done.
  - intros s. rewrite (cl_open _ _ _ _ _ H), (cl_dials _ _ _ _ _ H). intros [Hs Hno].
    destruct (iv_open0 s Hs) as [Ht|(h0 & x & Hx & Hsock & Hc & Ho)]; [by left|]. right.
    destruct (decide (h0 = h)) as [->|Hne].
    + rewrite Hh in Hx. injection Hx as <-. exists h, hd'.
      assert (hd_closed hd' = false) as Hc'.
      { destruct (hd_closed hd') eqn:E; [|done]. exfalso. by apply Hno. }
      split_and!; [|by rewrite (cl_sock _ _ _ _ _ H)|done|left; by apply (cl_residual _ _ _ _ _ H)].
      rewrite (cl_handles _ _ _ _ _ H). apply lookup_insert_eq.
    + exists h0, x. split_and!; [|done|done|by eapply owned_closed].
      rewrite (cl_handles _ _ _ _ _ H). by rewrite lookup_insert_ne.
  - intros h0 x Hx Hc Hk. destruct (lookup_closed _ _ _ _ _ _ _ H Hx) as [[-> ->]|[Hne Hx']].
    + left. by apply (cl_residual _ _ _ _ _ H).
    + eapply owned_closed; [done|done|by eapply iv_live0].
  - intros h0 x Hx Hc. rewrite (cl_open _ _ _ _ _ H).
    destruct (lookup_closed _ _ _ _ _ _ _ H Hx) as [[-> ->]|[Hne Hx']].
    + rewrite (cl_sock _ _ _ _ _ H). intros [Hs Hno]. apply Hno. split_and!; [|done|done].
      destruct (hd_closed hd) eqn:E; [|done]. by destruct (iv_dead0 h hd Hh E).
    + intros [Hs _]. by eapply iv_dead0.
  - intros t d. rewrite (cl_dials _ _ _ _ _ H). intros Hd. destruct (iv_dials0 t d Hd) as [A B C].
    constructor.
    + intros k h0 Hk. destruct (A k h0 Hk) as (x & Hx & Hkx). rewrite (cl_handles _ _ _ _ _ H).
      destruct (decide (h0 = h)) as [->|Hne].
      * exists hd'. rewrite lookup_insert_eq, (cl_kind _ _ _ _ _ H). split; congruence.
      * exists x. by rewrite lookup_insert_ne.
    + by rewrite (cl_next _ _ _ _ _ H).
    + intros h0 ->. destruct (C h0 eq_refl) as ((x & Hx & Hxc & Hxh) & Hcn & Hcl & Huniq).
      assert (h0 <> h) as Hne by (intros ->; by apply (Hadm t)).
      rewrite (cl_conns _ _ _ _ _ H), (cl_closing _ _ _ _ _ H), (cl_dials _ _ _ _ _ H) by done.
      split; [|done]. exists x. rewrite (cl_handles _ _ _ _ _ H). by rewrite lookup_insert_ne.
  - intros h0 Hs. destruct (decide (h0 = h)) as [->|Hne].
    + exists hd'. rewrite (cl_handles _ _ _ _ _ H), lookup_insert_eq.
      split; [done|]. by apply (cl_retry _ _ _ _ _ H).
    + rewrite (cl_conns _ _ _ _ _ H) in Hs by done. rewrite (cl_handles _ _ _ _ _ H).
      rewrite lookup_insert_ne by done. by apply iv_conns0.
  - intros h0 x Hx. destruct (lookup_closed _ _ _ _ _ _ _ H Hx) as [[-> ->]|[_ Hx']];
      [by apply (cl_ok _ _ _ _ _ H)|by eapply iv_handles0].
  - intros h0. rewrite (cl_closing _ _ _ _ _ H), (cl_next _ _ _ _ _ H). apply iv_closing0.
  - intros t h0. rewrite (cl_dials _ _ _ _ _ H). intros Hd. destruct (iv_queued0 t h0 Hd) as (x & Hx & Hr).
    unfold registered. rewrite (cl_handles _ _ _ _ _ H). destruct (decide (h0 = h)) as [->|Hne].
    + exists hd'. rewrite lookup_insert_eq. split; [done|].
      destruct (hd_closed hd') eqn:E; [by left|right]. by apply (cl_residual _ _ _ _ _ H).
    + exists x. rewrite lookup_insert_ne, (cl_conns _ _ _ _ _ H) by done. done.
Qed.

Lemma Inv_Close h reply w :
  Inv w -> (forall t, w_dials w !! t <> Some (OAdmitted h)) -> Inv (Close h reply w).
Proof.
  intros Hinv Hadm. destruct (w_handles w !! h) as [hd|] eqn:Hh.
  - destruct (Close_closes h hd reply w) as [hd' Hc]; [by apply Inv_closable|].
    by eapply Inv_closes.
  - unfold Close. by rewrite Hh.
Qed.

(** ** Goroutines moving on *)

Definition weight (f : dial -> Z) (d : option dial) : Z := match d with Some d => f d | None => 0 end.

Definition set_dial (t : nat) (d : option dial) (m : gmap nat dial) : gmap nat dial :=
  match d with Some d => <[t := d]> m | None => delete t m end.

Lemma lookup_set_dial t d m t' :
  set_dial t d m !! t' = if decide (t' = t) then d else m !! t'.
Proof.
  destruct d as [d|]; cbn; case_decide; subst.
  - apply lookup_insert_eq.
  - by apply lookup_insert_ne.
  - apply lookup_delete_eq.
  - by apply lookup_delete_ne.
Qed.

Lemma csum_set_dial f t d m :
  csum f (set_dial t d m) = (csum f m - weight f (m !! t) + weight f d)%Z.
Proof.
  destruct d as [d|], (m !! t) as [d0|] eqn:Ht; cbn.
  - by rewrite (csum_update f t d0).
  - rewrite csum_insert by done. lia.
  - rewrite (csum_delete f t d0) by done. lia.
  - rewrite delete_id by done. lia.
Qed.

(** The goroutine [t] is at [d] (or gone) in [w1], everything it counts for
    adjusted; wrappers, sockets and registrations are those of [w]. *)
Record moves (t : nat) (d : option dial) (w w1 : world) : Prop := mkMoves {
  mv_handles : w_handles w1 = w_handles w;
  mv_open : w_open w1 = w_open w;
  mv_next : w_next w1 = w_next w;
  mv_closing : w_closing w1 = w_closing w;
  mv_conns : fo_connections (w_owner w1) = fo_connections (w_owner w);
  mv_dials : w_dials w1 = set_dial t d (w_dials w);
  mv_pending : fo_pending (w_owner w1) =
    (fo_pending (w_owner w) - weight pending_of (w_dials w !! t) + weight pending_of d)%Z;
  mv_tcp : w_activeTCP w1 =
    (w_activeTCP w - weight tcp_of (w_dials w !! t) + weight tcp_of d)%Z;
  mv_udp : w_activeUDP w1 =
    (w_activeUDP w - weight udp_of (w_dials w !! t) + weight udp_of d)%Z
}.

Definition opt_holds (d : option dial) (h : nat) : Prop :=
  match d with Some d => holds d h | None => False end.

(** A wrapper the goroutine lets go of is registered, closed, or a pending
    SOCKS connection whose socket the goroutine keeps. *)
Definition lets_go (w : world) (d0 : dial) (d : option dial) : Prop :=
  (forall h, opt_holds d h -> holds d0 h) /\
  (forall h hd, holds d0 h -> w_handles w !! h = Some hd -> hd_closed hd = false ->
     opt_holds d h \/ is_Some (fo_connections (w_owner w) !! h) \/
     (hd_kind hd = PendingSOCKS /\ d = Some (TDialed (hd_sock hd)))) /\
  (forall s, d0 <> TDialed s) /\
  (forall d', d = Some d' ->
     (forall h, d' <> OAdmitted h /\ d' <> OQueued h) /\ (forall k h, held d' = Some (k, h) -> held d0 = Some (k, h)) /\
     (forall s, d' = TDialed s -> s < w_next w)).

Lemma owned_move t d0 d w w1 h hd :
  moves t d w w1 -> w_dials w !! t = Some d0 -> lets_go w d0 d -> w_handles w !! h = Some hd ->
  hd_closed hd = false -> owned w h ->
  owned w1 h \/ (hd_kind hd = PendingSOCKS /\ d = Some (TDialed (hd_sock hd))).
Proof.
  intros Hm Ht (_ & Hgo & _) Hh Hc [Hc'|(t' & d' & Hd' & Hh')]; unfold owned;
    rewrite (mv_conns _ _ _ _ Hm), (mv_dials _ _ _ _ Hm); [by left; left|].
  destruct (decide (t' = t)) as [->|Hne].
  - rewrite Ht in Hd'. injection Hd' as ->.
    destruct (Hgo h hd Hh' Hh Hc) as [Hd|[Hd|Hd]]; [|by left; left|by right]. left. right.
    destruct d as [d|]; [|done]. exists t, d. rewrite lookup_set_dial. by rewrite decide_True.
  - left. right. exists t', d'. rewrite lookup_set_dial. by rewrite decide_False.
Qed.

Lemma dial_ok_move t d0 d w w1 t' d' :
  Inv w -> moves t d w w1 -> w_dials w !! t = Some d0 -> lets_go w d0 d ->
  w_dials w1 !! t' = Some d' -> dial_ok w1 t' d'.
Proof.
  intros Hinv Hm Ht (Hsub & _ & _ & Hd) Ht'.
  rewrite (mv_dials _ _ _ _ Hm), lookup_set_dial in Ht'.
  destruct (iv_dials w Hinv t d0 Ht) as [A0 _ _].
  destruct (decide (t' = t)) as [->|Hne].
  - destruct (Hd d' Ht') as (Hadm & Hheld & Hs). constructor.
    + intros k h Hk. rewrite (mv_handles _ _ _ _ Hm). by apply A0, Hheld.
    + intros s Hs'. rewrite (mv_next _ _ _ _ Hm). by apply Hs.
    + intros h Hh. by destruct (Hadm h) as [? _].
  - destruct (iv_dials w Hinv t' d' Ht') as [A B C]. constructor.
    + by rewrite (mv_handles _ _ _ _ Hm).
    + by rewrite (mv_next _ _ _ _ Hm).
    + intros h Hh. rewrite (mv_handles _ _ _ _ Hm), (mv_conns _ _ _ _ Hm), (mv_closing _ _ _ _ Hm).
      destruct (C h Hh) as (E1 & E2 & E3 & E4). split_and!; try done.
      intros t2 d2. rewrite (mv_dials _ _ _ _ Hm), lookup_set_dial. case_decide; [|by apply E4].
      intros Hd2 Hh2. subst t2. apply (E4 t d0 Ht). apply Hsub. by rewrite Hd2.
Qed.

Lemma Inv_move t d0 d w w1 :
  Inv w -> moves t d w w1 -> w_dials w !! t = Some d0 -> lets_go w d0 d -> Inv w1.
Proof.
  intros Hinv Hm Ht Hgo. pose proof (dial_ok_move t d0 d w w1) as Hok. pose proof Hinv as [].
  constructor.
  - rewrite (mv_pending _ _ _ _ Hm), (mv_dials _ _ _ _ Hm), csum_set_dial. lia.
  - rewrite (mv_tcp _ _ _ _ Hm), (mv_dials _ _ _ _ Hm), csum_set_dial, (mv_handles _ _ _ _ Hm). lia.
  - rewrite (mv_udp _ _ _ _ Hm), (mv_dials _ _ _ _ Hm), csum_set_dial, (mv_handles _ _ _ _ Hm). lia.
  - by rewrite (mv_open _ _ _ _ Hm), (mv_next _ _ _ _ Hm).
  - by rewrite (mv_handles _ _ _ _ Hm), (mv_next _ _ _ _ Hm).
  - intros t' d'. rewrite (mv_dials _ _ _ _ Hm), (mv_next _ _ _ _ Hm), lookup_set_dial.
    case_decide; [subst; intros _; by eapply iv_dial_fresh0|by apply iv_dial_fresh0].
  - intros s. rewrite (mv_open _ _ _ _ Hm), (mv_dials _ _ _ _ Hm), (mv_handles _ _ _ _ Hm). intros Hs.
    destruct (iv_open0 s Hs) as [(t' & Ht')|(h & hd & Hh & Hsock & Hc & Ho)].
    + left. exists t'. rewrite lookup_set_dial. case_decide; [|done]. subst t'.
      rewrite Ht in Ht'. injection Ht' as ->. by destruct Hgo as (_ & _ & Hno & _), (Hno s).
    + destruct (owned_move _ _ _ _ _ _ _ Hm Ht Hgo Hh Hc Ho) as [Ho'|[_ Hd]].
      * right. by exists h, hd.
      * left. exists t. rewrite lookup_set_dial, decide_True by done. by rewrite <- Hsock.
  - intros h hd. rewrite (mv_handles _ _ _ _ Hm). intros Hh Hc Hk.
    destruct (owned_move _ _ _ _ _ _ _ Hm Ht Hgo Hh Hc (iv_live0 h hd Hh Hc Hk)) as [|[? _]]; done.
  - by rewrite (mv_handles _ _ _ _ Hm), (mv_open _ _ _ _ Hm).
  - intros t' d' Ht'. by apply Hok.
  - by rewrite (mv_handles _ _ _ _ Hm), (mv_conns _ _ _ _ Hm).
  - by rewrite (mv_handles _ _ _ _ Hm).
  - by rewrite (mv_closing _ _ _ _ Hm), (mv_next _ _ _ _ Hm).
  - intros t' h. rewrite (mv_dials _ _ _ _ Hm), lookup_set_dial. unfold registered.
    rewrite (mv_handles _ _ _ _ Hm), (mv_conns _ _ _ _ Hm). case_decide; [|apply iv_queued0].
    intros Hd. destruct Hgo as (_ & _ & _ & Hgo). destruct (Hgo _ Hd) as (Hq & _). by destruct (Hq h).
Qed.

(** A goroutine that starts with nothing: [FDial]. *)
Lemma Inv_startDial tcp bypass w : Inv w -> Inv (startDial tcp bypass w).
Proof.
  intros Hinv. pose proof Hinv as []. unfold startDial, goto_dial.
  assert (w_dials w !! w_next w = None) as Hn.
  { destruct (w_dials w !! w_next w) eqn:E; [|done]. apply iv_dial_fresh0 in E. lia. }
  constructor; cbn; try done.
  - rewrite csum_insert by done. cbn. lia.
  - rewrite csum_insert by done. cbn. lia.
  - rewrite csum_insert by done. cbn. lia.
  - intros s Hs. specialize (iv_open_fresh0 s Hs). lia.
  - intros h hd Hh. specialize (iv_handle_fresh0 h hd Hh). lia.
  - intros t d. destruct (decide (t = w_next w)) as [->|Hne]; [lia|].
    rewrite lookup_insert_ne by done. intros Hd. specialize (iv_dial_fresh0 t d Hd). lia.
  - intros s Hs. destruct (iv_open0 s Hs) as [(t & Ht)|(h & hd & Hh & Hsock & Hc & Ho)].
    + left. exists t. rewrite lookup_insert_ne by congruence. done.
    + right. exists h, hd. split_and!; try done. destruct Ho as [Ho|(t & d & Hd & Hdh)]; [by left|].
      right. exists t, d. cbn. rewrite lookup_insert_ne by congruence. done.
  - intros h hd Hh Hc Hk. destruct (iv_live0 h hd Hh Hc Hk) as [Ho|(t & d & Hd & Hdh)]; [by left|].
    right. exists t, d. cbn. rewrite lookup_insert_ne by congruence. done.
  - intros t d. destruct (decide (t = w_next w)) as [->|Hne].
    { rewrite lookup_insert_eq. intros [= <-]. by constructor. }
    rewrite lookup_insert_ne by done. intros Hd. destruct (iv_dials0 t d Hd) as [A B C].
    constructor; [done| |]; cbn.
    + intros s Hs. specialize (B s Hs). lia.
    + intros h Hh. destruct (C h Hh) as (E1 & E2 & E3 & E4). split_and!; try done.
      intros t' d'. destruct (decide (t' = w_next w)) as [->|Hne'].
      * rewrite lookup_insert_eq. intros [= <-] [k Hk]. done.
      * rewrite lookup_insert_ne by done. apply E4.
  - intros h Hh. specialize (iv_closing0 h Hh). lia.
  - intros t h. destruct (decide (t = w_next w)) as [->|Hne]; [by rewrite lookup_insert_eq|].
    rewrite lookup_insert_ne by done. apply iv_queued0.
Qed.

(** [w1] is [w] with a new wrapper [h] around [s], in the hands of [t] or
    registered; [s] may just have been opened. *)
Record grows (t : nat) (d : dial) (k : conn_kind) (s h : nat) (reg handed : bool) (w w1 : world) :
    Prop := mkGrows {
  gr_fresh : w_next w <= h < w_next w1 /\ s < w_next w1 /\ t < w_next w1;
  gr_idle : forall d0, w_dials w !! t = Some d0 ->
    held d0 = None /\ forall s', d0 = TDialed s' -> s' = s;
  gr_sock : s ∈ w_open w1 -> s ∉ w_open w -> w_next w <= s;
  gr_open : forall x, x ∈ w_open w1 <-> x ∈ w_open w \/ (x = s /\ s ∈ w_open w1);
  gr_handles : w_handles w1 =
    <[h := if handed then newHandle k s <| hd_handed := true |> else newHandle k s]> (w_handles w);
  gr_dials : w_dials w1 = <[t := d]> (w_dials w);
  gr_closing : w_closing w1 = w_closing w;
  gr_conns : fo_connections (w_owner w1) =
    if reg then <[h := None]> (fo_connections (w_owner w)) else fo_connections (w_owner w);
  gr_held : held d = if reg then None else Some (k, h);
  gr_handed : handed = true -> reg = true;
  gr_not_dialed : forall s', d <> TDialed s';
  gr_pending : fo_pending (w_owner w1) =
    (fo_pending (w_owner w) - weight pending_of (w_dials w !! t) + pending_of d)%Z;
  gr_tcp : w_activeTCP w1 =
    (w_activeTCP w - weight tcp_of (w_dials w !! t) + tcp_of d +
     live_of TrackedTCP (newHandle k s))%Z;
  gr_udp : w_activeUDP w1 =
    (w_activeUDP w - weight udp_of (w_dials w !! t) + udp_of d +
     live_of IdleUDP (newHandle k s))%Z
}.

Section grows.
Context (t : nat) (d : dial) (k : conn_kind) (s h : nat) (reg handed : bool) (w w1 : world).
Hypothesis Hinv : Inv w.
Hypothesis G : grows t d k s h reg handed w w1.

Lemma grows_fresh : w_handles w !! h = None.
Proof.
  destruct (w_handles w !! h) eqn:E; [|done]. apply (iv_handle_fresh w Hinv) in E.
  destruct (gr_fresh _ _ _ _ _ _ _ _ _ G). lia.
Qed.

Lemma grows_old h0 hd : w_handles w !! h0 = Some hd -> w_handles w1 !! h0 = Some hd.
Proof.
  intros Hh. rewrite (gr_handles _ _ _ _ _ _ _ _ _ G). rewrite lookup_insert_ne; [done|].
  intros <-. by rewrite grows_fresh in Hh.
Qed.

Lemma grows_conns h0 :
  is_Some (fo_connections (w_owner w) !! h0) -> is_Some (fo_connections (w_owner w1) !! h0).
Proof.
  intros Hs. rewrite (gr_conns _ _ _ _ _ _ _ _ _ G). destruct reg; [|done].
  destruct (decide (h0 = h)) as [->|Hne]; [by rewrite lookup_insert_eq|by rewrite lookup_insert_ne].
Qed.

Lemma grows_owned h0 : owned w h0 -> owned w1 h0.
Proof.
  intros [Hc|(t' & d' & Hd & [k' Hk])]; [left; by apply grows_conns|]. right. exists t', d'.
  rewrite (gr_dials _ _ _ _ _ _ _ _ _ G). split; [|by exists k']. rewrite lookup_insert_ne; [done|].
  intros <-. destruct (gr_idle _ _ _ _ _ _ _ _ _ G d' Hd) as [Hn _]. congruence.
Qed.

Lemma grows_owned_new : owned w1 h.
Proof.
  pose proof (gr_held _ _ _ _ _ _ _ _ _ G) as Hheld. unfold owned.
  rewrite (gr_conns _ _ _ _ _ _ _ _ _ G). destruct reg.
  - left. by rewrite lookup_insert_eq.
  - right. exists t, d. rewrite (gr_dials _ _ _ _ _ _ _ _ _ G), lookup_insert_eq.
    split; [done|by exists k].
Qed.

Lemma grows_new : exists hd, w_handles w1 !! h = Some hd /\ hd_kind hd = k /\ hd_sock hd = s /\
  hd_closed hd = false /\ hd_idleClosed hd = false /\ hd_handed hd = handed /\
  (forall j, live_of j hd = live_of j (newHandle k s)).
Proof.
  rewrite (gr_handles _ _ _ _ _ _ _ _ _ G), lookup_insert_eq.
  destruct handed; eexists; split_and!; done.
Qed.

Lemma grows_lookup h0 hd :
  w_handles w1 !! h0 = Some hd -> (h0 = h /\ hd_kind hd = k /\ hd_sock hd = s /\
    hd_closed hd = false /\ hd_idleClosed hd = false) \/ (h0 <> h /\ w_handles w !! h0 = Some hd).
Proof.
  intros Hh. destruct (decide (h0 = h)) as [->|Hne].
  - destruct grows_new as (hd' & Hh' & Hrest). rewrite Hh in Hh'. injection Hh' as <-.
    destruct Hrest as (? & ? & ? & ? & _). by left.
  - right. split; [done|]. rewrite (gr_handles _ _ _ _ _ _ _ _ _ G) in Hh.
    by rewrite lookup_insert_ne in Hh.
Qed.

Lemma grows_dial_ok t' d' : (forall h0, (d <> OAdmitted h0 \/ h0 = h) /\ d <> OQueued h0) ->
  w_dials w1 !! t' = Some d' -> dial_ok w1 t' d'.
Proof.
  intros Hadm. destruct (gr_fresh _ _ _ _ _ _ _ _ _ G) as ([F1 F2] & F3 & F4).
  pose proof (gr_held _ _ _ _ _ _ _ _ _ G) as Hheld.
  rewrite (gr_dials _ _ _ _ _ _ _ _ _ G). destruct (decide (t' = t)) as [->|Hne].
  - rewrite lookup_insert_eq. intros [= <-]. destruct grows_new as (hd & Hh & Hk & _ & Hc & _ & Hhd & _).
    constructor.
    + intros k0 h0 Hk0. rewrite Hheld in Hk0. destruct reg; [done|]. injection Hk0 as -> ->. by exists hd.
    + intros s0 ->. by destruct (gr_not_dialed _ _ _ _ _ _ _ _ _ G s0).
    + intros h0 Hd0. destruct (Hadm h0) as [[?| ->] _]; [done|].
      rewrite Hd0 in Hheld. cbn in Hheld.
      assert (reg = false) as Hreg by (by destruct reg).
      assert (handed = false) as Hhf.
      { destruct handed eqn:E; [|done]. by rewrite (gr_handed _ _ _ _ _ _ _ _ _ G eq_refl) in Hreg. }
      split_and!; [exists hd; split_and!; congruence| | |].
      * rewrite (gr_conns _ _ _ _ _ _ _ _ _ G), Hreg.
        destruct (fo_connections (w_owner w) !! h) eqn:E; [|done].
        destruct (iv_conns w Hinv h) as (x & Hx & _); [by eexists|]. by rewrite grows_fresh in Hx.
      * rewrite (gr_closing _ _ _ _ _ _ _ _ _ G). intros Hc'%(iv_closing w Hinv). lia.
      * intros t2 d2. rewrite (gr_dials _ _ _ _ _ _ _ _ _ G).
        destruct (decide (t2 = t)) as [->|Hn2]; [done|]. rewrite lookup_insert_ne by done.
        intros Hd2 [k2 Hk2]. destruct (do_held w t2 d2 (iv_dials w Hinv t2 d2 Hd2) k2 h Hk2) as (x & Hx & _).
        by rewrite grows_fresh in Hx.
  - rewrite lookup_insert_ne by done. intros Hd'. destruct (iv_dials w Hinv t' d' Hd') as [A B C].
    constructor.
    + intros k0 h0 Hk0. destruct (A k0 h0 Hk0) as (x & Hx & Hxk). exists x. by split; [apply grows_old|].
    + intros s0 Hs0. specialize (B s0 Hs0). lia.
    + intros h0 Hh0. destruct (C h0 Hh0) as ((x & Hx & Hx2) & E2 & E3 & E4).
      assert (h0 <> h) as Hn by (intros ->; by rewrite grows_fresh in Hx).
      split_and!.
      * exists x. by split; [apply grows_old|].
      * rewrite (gr_conns _ _ _ _ _ _ _ _ _ G). destruct reg; [|done]. by rewrite lookup_insert_ne.
      * by rewrite (gr_closing _ _ _ _ _ _ _ _ _ G).
      * intros t2 d2. rewrite (gr_dials _ _ _ _ _ _ _ _ _ G).
        destruct (decide (t2 = t)) as [->|Hn2]; [|rewrite lookup_insert_ne by done; apply E4].
        rewrite lookup_insert_eq. intros [= <-] [k2 Hk2]. rewrite Hheld in Hk2.
        destruct reg; [done|]. injection Hk2 as _ ->. done.
Qed.

Lemma Inv_grows : (forall h0, (d <> OAdmitted h0 \/ h0 = h) /\ d <> OQueued h0) -> Inv w1.
Proof.
  intros Hadm. pose proof (gr_fresh _ _ _ _ _ _ _ _ _ G) as ([F1 F2] & F3 & F4).
  pose proof grows_new as (hd & Hh & Hk & Hsk & Hcl & Hid & _ & Hlive). pose proof Hinv as [].
  assert (forall j, csum (live_of j) (w_handles w1) =
    (csum (live_of j) (w_handles w) + live_of j (newHandle k s))%Z) as Hsum.
  { intros j. pose proof grows_fresh. rewrite (gr_handles _ _ _ _ _ _ _ _ _ G).
    rewrite csum_insert by done. destruct handed; unfold live_of; cbn; lia. }
  assert (forall f, csum f (w_dials w1) =
    (csum f (w_dials w) - weight f (w_dials w !! t) + f d)%Z) as Hds.
  { intros f. rewrite (gr_dials _ _ _ _ _ _ _ _ _ G). by apply (csum_set_dial f t (Some d)). }
  constructor.
  - rewrite (gr_pending _ _ _ _ _ _ _ _ _ G), Hds. lia.
  - rewrite (gr_tcp _ _ _ _ _ _ _ _ _ G), Hds, Hsum. lia.
  - rewrite (gr_udp _ _ _ _ _ _ _ _ _ G), Hds, Hsum. lia.
  - intros x. rewrite (gr_open _ _ _ _ _ _ _ _ _ G). intros [Hx|[-> _]]; [|done].
    specialize (iv_open_fresh0 x Hx). lia.
  - intros h0 x Hx. destruct (grows_lookup h0 x Hx) as [(-> & _ & -> & _)|[_ Hx']]; [done|].
    specialize (iv_handle_fresh0 h0 x Hx'). lia.
  - intros t' d'. rewrite (gr_dials _ _ _ _ _ _ _ _ _ G). destruct (decide (t' = t)) as [->|Hn]; [done|].
    rewrite lookup_insert_ne by done. intros Hd'. specialize (iv_dial_fresh0 t' d' Hd'). lia.
  - intros x. rewrite (gr_open _ _ _ _ _ _ _ _ _ G). intros [Hx|[-> _]].
    2: { right. exists h, hd. split_and!; [done|done|done|]. apply grows_owned_new. }
    destruct (iv_open0 x Hx) as [(t' & Ht')|(h0 & y & Hy & Hs0 & Hc0 & Ho)].
    2: { right. exists h0, y. split_and!; [by apply grows_old|done|done|by apply grows_owned]. }
    destruct (decide (t' = t)) as [->|Hn].
    + destruct (gr_idle _ _ _ _ _ _ _ _ _ G _ Ht') as [_ Hs']. rewrite (Hs' x eq_refl).
      right. exists h, hd. split_and!; [done|done|done|]. apply grows_owned_new.
    + left. exists t'. rewrite (gr_dials _ _ _ _ _ _ _ _ _ G). by rewrite lookup_insert_ne.
  - intros h0 x Hx Hc0 Hk0. destruct (grows_lookup h0 x Hx) as [(-> & _)|[_ Hx']];
      [apply grows_owned_new|apply grows_owned; by eapply iv_live0].
  - intros h0 x Hx Hc0. destruct (grows_lookup h0 x Hx) as [(-> & _ & _ & ? & _)|[_ Hx']]; [congruence|].
    rewrite (gr_open _ _ _ _ _ _ _ _ _ G). pose proof (iv_dead0 h0 x Hx' Hc0) as Hdead.
    intros [Hx2|[Hs2 Hs3]]; [done|]. pose proof (gr_sock _ _ _ _ _ _ _ _ _ G Hs3) as Hs4.
    specialize (iv_handle_fresh0 h0 x Hx'). rewrite Hs2 in *. specialize (Hs4 Hdead). lia.
  - intros t' d'. by apply grows_dial_ok.
  - intros h0. rewrite (gr_conns _ _ _ _ _ _ _ _ _ G). intros Hs0.
    destruct (decide (h0 = h)) as [->|Hn].
    + exists hd. split; [done|]. split; [done|]. congruence.
    + destruct (iv_conns0 h0) as (x & Hx & Hr); [|exists x; by split; [apply grows_old|]].
      destruct reg; [by rewrite lookup_insert_ne in Hs0|done].
  - intros h0 x Hx. destruct (grows_lookup h0 x Hx) as [(-> & _ & _ & E1 & E2)|[_ Hx']];
      [|by eapply iv_handles0]. unfold handle_ok. rewrite E1, E2. by case_bool_decide.
  - intros h0. rewrite (gr_closing _ _ _ _ _ _ _ _ _ G). intros Hc0%iv_closing0. lia.
  - intros t' h0. rewrite (gr_dials _ _ _ _ _ _ _ _ _ G). destruct (decide (t' = t)) as [->|Hn].
    + rewrite lookup_insert_eq. intros [= Hd]. by destruct (Hadm h0) as [_ ?].
    + rewrite lookup_insert_ne by done. intros Hd. destruct (iv_queued0 t' h0 Hd) as (x & Hx & Hr).
      exists x. split; [by apply grows_old|]. destruct Hr as [?|Hr]; [by left|right; by apply grows_conns].
Qed.
End grows.

(** ** Registration and hand-over *)

(** [track] registers a wrapper its goroutine [t] holds, which moves on. *)
Lemma Inv_track t d0 d h w :
  Inv w -> w_dials w !! t = Some d0 -> fo_closed (w_owner w) = false ->
  (d0 = UDialed h /\ d = DEnd /\ (forall hd, w_handles w !! h = Some hd -> hd_idleClosed hd = false) \/
   d0 = OAdmitted h /\ d = OQueued h) ->
  Inv (goto_dial t d (w <| w_owner ::= (fun o => o <| fo_connections ::= insert h None |>) |>)).
Proof.
  intros Hinv Ht _ Hcase. pose proof Hinv as [].
  assert (exists hd, w_handles w !! h = Some hd /\ retryable hd) as (hd & Hh & Hret).
  { destruct (iv_dials0 t d0 Ht) as [A _ C]. destruct Hcase as [(-> & -> & Hid)|(-> & ->)].
    - destruct (A IdleUDP h eq_refl) as (hd & Hh & Hk). exists hd. split; [done|].
      specialize (Hid hd Hh). specialize (iv_handles0 h hd Hh). unfold handle_ok in iv_handles0.
      rewrite bool_decide_eq_true_2, Hid in iv_handles0 by done. split; [done|congruence].
    - destruct (C h eq_refl) as ((hd & Hh & Hc & _) & _). destruct (A UDPOrigin h eq_refl) as (hd' & Hh' & Hk).
      rewrite Hh in Hh'. injection Hh' as <-. exists hd. split; [done|]. split; [done|].
      specialize (iv_handles0 h hd Hh). unfold handle_ok in iv_handles0.
      rewrite bool_decide_eq_false_2 in iv_handles0 by congruence. congruence. }
  assert (forall f, csum f (<[t := d]> (w_dials w)) = (csum f (w_dials w) - f d0 + f d)%Z) as Hsum.
  { intros f. by apply csum_update. }
  assert (pending_of d0 = pending_of d /\ tcp_of d0 = tcp_of d /\ udp_of d0 = udp_of d) as (W1 & W2 & W3).
  { by destruct Hcase as [(-> & -> & _)|(-> & ->)]. }
  assert (forall h0, holds d h0 -> h0 = h) as Hd.
  { intros h0 [k Hk]. destruct Hcase as [(-> & -> & _)|(-> & ->)]; [done|]. by injection Hk. }
  assert (forall h0, holds d0 h0 -> h0 = h) as Hd0.
  { intros h0 [k Hk]. destruct Hcase as [(-> & -> & _)|(-> & ->)]; by injection Hk. }
  assert (forall h0, owned w h0 -> owned (goto_dial t d
    (w <| w_owner ::= (fun o => o <| fo_connections ::= insert h None |>) |>)) h0) as Hown.
  { intros h0 Ho. destruct (decide (h0 = h)) as [->|Hne]; [left; cbn; by rewrite lookup_insert_eq|].
    destruct Ho as [Ho|(t' & d' & Hd' & Hh0)]; [left; cbn; by rewrite lookup_insert_ne|].
    right. exists t', d'. cbn. rewrite lookup_insert_ne; [done|]. intros <-.
    rewrite Ht in Hd'. injection Hd' as <-. by apply Hd0 in Hh0. }
  constructor; cbn [goto_dial w_owner w_handles w_open w_next w_dials w_closing w_activeTCP
    w_activeUDP fo_connections fo_pending upd_field]; try done.
  - rewrite Hsum. cbn. lia.
  - rewrite Hsum. cbn. lia.
  - rewrite Hsum. cbn. lia.
  - cbn. intros t' d'. destruct (decide (t' = t)) as [->|Hne]; [intros _; by eapply iv_dial_fresh0|].
    rewrite lookup_insert_ne by done. apply iv_dial_fresh0.
  - cbn. intros s Hs. destruct (iv_open0 s Hs) as [(t' & Ht')|(h0 & x & Hx & Hsk & Hc & Ho)].
    + left. exists t'. rewrite lookup_insert_ne; [done|]. intros <-. rewrite Ht in Ht'.
      injection Ht' as ->. by destruct Hcase as [(? & _)|(? & _)].
    + right. exists h0, x. split_and!; try done. by apply Hown.
  - intros h0 x Hx Hc Hk. by apply Hown, (iv_live0 h0 x).
  - intros t' d' Ht'. cbn in Ht'. destruct (decide (t' = t)) as [->|Hne].
    + rewrite lookup_insert_eq in Ht'. injection Ht' as <-. destruct (iv_dials0 t d0 Ht) as [A B C].
      constructor; cbn.
      * intros k h0 Hk. destruct Hcase as [(-> & -> & _)|(-> & ->)]; [done|]. by apply A.
      * intros s Hs. by destruct Hcase as [(-> & -> & _)|(-> & ->)].
      * intros h0 Hh0. by destruct Hcase as [(-> & -> & _)|(-> & ->)].
    + rewrite lookup_insert_ne in Ht' by done. destruct (iv_dials0 t' d' Ht') as [A B C].
      constructor; cbn; try done. intros h0 Hh0. destruct (C h0 Hh0) as (E1 & E2 & E3 & E4).
      assert (h0 <> h) as Hn.
      { intros ->. apply Hne. symmetry. apply (E4 t d0 Ht).
        destruct Hcase as [(-> & _)|(-> & _)]; by eexists. }
      split_and!; [done|by rewrite lookup_insert_ne|done|].
      intros t2 d2. destruct (decide (t2 = t)) as [->|Hn2].
      * rewrite lookup_insert_eq. intros [= <-] Hh2. by apply Hd in Hh2.
      * rewrite lookup_insert_ne by done. apply E4.
  - cbn. intros h0. destruct (decide (h0 = h)) as [->|Hn]; [intros _; by exists hd|].
    rewrite lookup_insert_ne by done. apply iv_conns0.
  - intros t' h0 Hd'. cbn in Hd'. unfold registered. cbn.
    destruct (decide (h0 = h)) as [->|Hn]; [exists hd; split; [done|right; by rewrite lookup_insert_eq]|].
    rewrite lookup_insert_ne by done. apply (iv_queued0 t'). destruct (decide (t' = t)) as [->|Ht'].
    + rewrite lookup_insert_eq in Hd'. injection Hd' as ->.
      by destruct Hcase as [(_ & ? & _)|(_ & [= ->])].
    + by rewrite lookup_insert_ne in Hd'.
Qed.

Lemma alter_Some {A} (f : A -> A) h x (m : gmap nat A) :
  m !! h = Some x -> alter f h m = <[h := f x]> m.
Proof.
  intros Hm. apply map_eq. intros i. destruct (decide (i = h)) as [->|Hn].
  - by rewrite lookup_alter_eq, lookup_insert_eq, Hm.
  - by rewrite lookup_alter_ne, lookup_insert_ne by done.
Qed.

Lemma alter_None {A} (f : A -> A) h (m : gmap nat A) : m !! h = None -> alter f h m = m.
Proof.
  intros Hm. apply map_eq. intros i. destruct (decide (i = h)) as [->|Hn].
  - by rewrite lookup_alter_eq, Hm.
  - by rewrite lookup_alter_ne.
Qed.

Lemma Inv_handOver h w :
  Inv w -> (forall t, w_dials w !! t <> Some (OAdmitted h)) -> Inv (handOver h w).
Proof.
  intros Hinv Hadm. pose proof Hinv as []. unfold handOver.
  destruct (w_handles w !! h) as [hd|] eqn:Hh.
  2: { assert (alter (fun hd => hd <| hd_handed := true |>) h (w_handles w) = w_handles w) as Hid.
       { by apply alter_None. }
       replace (w <| w_handles ::= _ |>) with w; [done|]. destruct w. cbn in *. by rewrite Hid. }
  assert (w <| w_handles ::= alter (fun hd => hd <| hd_handed := true |>) h |> =
          w <| w_handles ::= insert h (hd <| hd_handed := true |>) |>) as ->.
  { cbn. by rewrite (alter_Some _ h hd). }
  assert (forall h0 x, <[h := hd <| hd_handed := true |>]> (w_handles w) !! h0 = Some x ->
    exists y, w_handles w !! h0 = Some y /\ hd_kind x = hd_kind y /\ hd_sock x = hd_sock y /\
      hd_closed x = hd_closed y /\ (handle_ok y -> handle_ok x) /\ (retryable y -> retryable x)) as Hback.
  { intros h0 x. destruct (decide (h0 = h)) as [->|Hn].
    - rewrite lookup_insert_eq. intros [= <-]. by exists hd.
    - rewrite lookup_insert_ne by done. intros Hx. by exists x. }
  assert (forall k, live_of k (hd <| hd_handed := true |>) = live_of k hd) as Hl by done. cbn in Hl.
  constructor; cbn; try done.
  - rewrite (csum_update _ h hd), Hl by done. lia.
  - rewrite (csum_update _ h hd), Hl by done. lia.
  - intros h0 x Hx. destruct (Hback h0 x Hx) as (y & Hy & _ & -> & _). by apply iv_handle_fresh0.
  - intros s Hs. destruct (iv_open0 s Hs) as [|(h0 & x & Hx & Hsk & Hc & Ho)]; [by left|]. right.
    destruct (decide (h0 = h)) as [->|Hn].
    + rewrite Hh in Hx. injection Hx as <-. eexists h, _. by rewrite lookup_insert_eq.
    + exists h0, x. by rewrite lookup_insert_ne.
  - intros h0 x Hx Hc Hk. destruct (Hback h0 x Hx) as (y & Hy & E1 & E2 & E3 & _).
    rewrite E1 in Hk. rewrite E3 in Hc. by apply (iv_live0 h0 y).
  - intros h0 x Hx Hc. destruct (Hback h0 x Hx) as (y & Hy & E1 & E2 & E3 & _).
    rewrite E2. rewrite E3 in Hc. by eapply iv_dead0.
  - intros t d Hd. destruct (iv_dials0 t d Hd) as [A B C]. constructor; cbn; [|done|].
    + intros k h0 Hk. destruct (A k h0 Hk) as (x & Hx & Hxk). destruct (decide (h0 = h)) as [->|Hn].
      * rewrite lookup_insert_eq. rewrite Hh in Hx. injection Hx as <-. by eexists.
      * exists x. by rewrite lookup_insert_ne.
    + intros h0 Hh0. destruct (C h0 Hh0) as ((x & Hx) & E). split; [|done].
      exists x. rewrite lookup_insert_ne; [done|]. intros <-. rewrite Hh0 in Hd. by apply (Hadm t).
  - intros h0 Hs. destruct (iv_conns0 h0 Hs) as (x & Hx & Hr). destruct (decide (h0 = h)) as [->|Hn].
    + rewrite lookup_insert_eq. rewrite Hh in Hx. injection Hx as <-. by eexists.
    + exists x. by rewrite lookup_insert_ne.
  - intros h0 x Hx. destruct (Hback h0 x Hx) as (y & Hy & _ & _ & _ & E & _). by apply E, (iv_handles0 h0).
  - intros t h0 Hd. destruct (iv_queued0 t h0 Hd) as (x & Hx & Hr). unfold registered. cbn.
    destruct (decide (h0 = h)) as [->|Hn].
    + rewrite lookup_insert_eq. rewrite Hh in Hx. injection Hx as <-. by eexists.
    + exists x. by rewrite lookup_insert_ne.
Qed.

Lemma Inv_seal w :
  Inv w -> Inv (w <| w_owner := (seal (w_owner w)).1 |> <| w_closing := (seal (w_owner w)).2 |>).
Proof.
  intros Hinv. pose proof Hinv as []. constructor; cbn; try done.
  - intros t d Hd. destruct (iv_dials0 t d Hd) as [A B C]. constructor; cbn; [done|done|].
    intros h Hh. destruct (C h Hh) as (E1 & E2 & E3 & E4). split_and!; try done.
    intros Hin. apply list_elem_of_fmap in Hin as ((c & e) & -> & Hin).
    apply elem_of_map_to_list in Hin. cbn in E2. congruence.
  - intros h Hin. apply list_elem_of_fmap in Hin as ((c & e) & -> & Hin).
    apply elem_of_map_to_list in Hin. destruct (iv_conns0 c) as (x & Hx & _); [by eexists|].
    by apply (iv_handle_fresh0 c x).
Qed.

Lemma Inv_closing h rest w :
  Inv w -> w_closing w = h :: rest -> Inv (w <| w_closing := rest |>).
Proof.
  intros Hinv Hc. pose proof Hinv as []. constructor; cbn; try done.
  - intros t d Hd. destruct (iv_dials0 t d Hd) as [A B C]. constructor; cbn; [done|done|].
    intros h0 Hh. destruct (C h0 Hh) as (E1 & E2 & E3 & E4). split_and!; try done.
    intros Hin. apply E3. rewrite Hc. by apply list_elem_of_further.
  - intros h0 Hin. apply iv_closing0. rewrite Hc. by apply list_elem_of_further.
Qed.

(** ** Every step keeps the invariant *)

Lemma moves_goto t d0 d w :
  w_dials w !! t = Some d0 -> pending_of d = pending_of d0 -> tcp_of d = tcp_of d0 ->
  udp_of d = udp_of d0 -> moves t (Some d) w (goto_dial t d w).
Proof. intros Ht E1 E2 E3. constructor; try done; cbn; rewrite Ht; cbn; lia. Qed.

(** A goroutine that holds nothing lets go of nothing. *)
Lemma lets_go_nothing w d0 d :
  held d0 = None -> (forall s, d0 <> TDialed s) ->
  (forall d', d = Some d' -> held d' = None /\ forall s, d' <> TDialed s) -> lets_go w d0 d.
Proof.
  intros H0 Hs Hd. split_and!; [|by intros h hd [k Hk]; congruence|done|].
  - intros h. destruct d as [d|]; [|done]. intros [k Hk]. destruct (Hd d eq_refl) as [Hn _]. congruence.
  - intros d' ->. destruct (Hd d' eq_refl) as [Hn Hs']. split_and!.
    + intros h. split; intros ->; done.
    + intros k h Hk. congruence.
    + intros s ->. by destruct (Hs' s).
Qed.

Lemma beginDial_ok o o' :
  beginDial o = Ok o' -> fo_connections o' = fo_connections o /\ fo_closed o' = false /\
    fo_closed o = false /\ fo_pending o' = (fo_pending o + 1)%Z.
Proof.
  unfold beginDial. destruct (fo_closed o) eqn:Hc; [done|]. intros [= <-].
  by destruct (fo_pending o =? 0)%Z.
Qed.

Lemma Inv_dial_begin t tcp bypass w :
  Inv w -> w_dials w !! t = Some (DBegin tcp bypass) -> Inv (dial_begin t tcp bypass w).
Proof.
  intros Hinv Ht. unfold dial_begin. destruct (beginDial (w_owner w)) as [o|] eqn:Hb.
  - apply beginDial_ok in Hb as (Hc & _ & _ & Hp).
    destruct tcp.
    + eapply (Inv_move t _ (Some (TDial bypass))); [done| |done|].
      * constructor; cbn; rewrite ?Ht, ?Hp, ?Hc; cbn; lia || done.
      * by apply lets_go_nothing; [..|intros ? [= <-]].
    + eapply (Inv_move t _ (Some UDial)); [done| |done|].
      * constructor; cbn; rewrite ?Ht, ?Hp, ?Hc; cbn; lia || done.
      * by apply lets_go_nothing; [..|intros ? [= <-]].
  - eapply (Inv_move t _ None); [done| |done|by apply lets_go_nothing].
    constructor; try done; cbn; rewrite Ht; cbn; lia.
Qed.

Lemma Inv_direct_dialed t bypass w :
  Inv w -> w_dials w !! t = Some (TDial bypass) ->
  Inv (goto_dial t (TDialed (w_next w)) (openSocket w).1).
Proof.
  intros Hinv Ht. pose proof Hinv as [].
  assert (forall h, owned w h -> owned (goto_dial t (TDialed (w_next w)) (openSocket w).1) h) as Hown.
  { intros h [Ho|(t' & d & Hd & Hh)]; [by left|]. right. exists t', d. cbn.
    rewrite lookup_insert_ne; [done|]. intros <-. rewrite Ht in Hd. injection Hd as <-. by destruct Hh. }
  constructor; cbn; try done.
  - rewrite (csum_update _ t (TDial bypass)) by done. cbn. lia.
  - rewrite (csum_update _ t (TDial bypass)) by done. cbn. lia.
  - rewrite (csum_update _ t (TDial bypass)) by done. cbn. lia.
  - intros s [->%elem_of_singleton|Hs]%elem_of_union; [lia|]. specialize (iv_open_fresh0 s Hs). lia.
  - intros h hd Hh. specialize (iv_handle_fresh0 h hd Hh). lia.
  - intros t' d. destruct (decide (t' = t)) as [->|Hn].
    + intros _. specialize (iv_dial_fresh0 t _ Ht). lia.
    + rewrite lookup_insert_ne by done. intros Hd. specialize (iv_dial_fresh0 t' d Hd). lia.
  - intros s [->%elem_of_singleton|Hs]%elem_of_union.
    { left. exists t. apply lookup_insert_eq. }
    destruct (iv_open0 s Hs) as [(t' & Ht')|(h & hd & Hh & Hsk & Hc & Ho)].
    + left. exists t'. rewrite lookup_insert_ne; congruence.
    + right. exists h, hd. split_and!; try done. by apply Hown.
  - intros h hd Hh Hc Hk. by apply Hown, (iv_live0 h hd).
  - intros h hd Hh Hc [Hs%elem_of_singleton|Hs]%elem_of_union; [|by eapply iv_dead0].
    specialize (iv_handle_fresh0 h hd Hh). lia.
  - intros t' d Hd. destruct (decide (t' = t)) as [->|Hn].
    + rewrite lookup_insert_eq in Hd. injection Hd as <-. constructor; cbn; [done| |done].
      intros s [= <-]. lia.
    + rewrite lookup_insert_ne in Hd by done. destruct (iv_dials0 t' d Hd) as [A B C].
      constructor; cbn; [done| |].
      * intros s Hs. specialize (B s Hs). lia.
      * intros h Hh. destruct (C h Hh) as (E1 & E2 & E3 & E4). split_and!; try done.
        intros t2 d2. destruct (decide (t2 = t)) as [->|Hn2].
        -- rewrite lookup_insert_eq. intros [= <-] [k Hk]. done.
        -- rewrite lookup_insert_ne by done. apply E4.
  - intros h Hh. specialize (iv_closing0 h Hh). lia.
  - intros t' h. destruct (decide (t' = t)) as [->|Hn]; [by rewrite lookup_insert_eq|].
    rewrite lookup_insert_ne by done. apply iv_queued0.
Qed.

Lemma next_not_open w : Inv w -> w_next w ∉ w_open w.
Proof. intros Hinv Hs%(iv_open_fresh w Hinv). lia. Qed.

(** A wrapper around a socket that was just opened. *)
Lemma grows_opened t d k w :
  Inv w -> (exists d0, w_dials w !! t = Some d0 /\ held d0 = None /\ (forall s, d0 <> TDialed s) /\
    pending_of d = pending_of d0 /\
    (tcp_of d + live_of TrackedTCP (newHandle k 0) = tcp_of d0)%Z /\
    (udp_of d + live_of IdleUDP (newHandle k 0) = udp_of d0)%Z) ->
  held d = Some (k, S (w_next w)) -> (forall s, d <> TDialed s) ->
  grows t d k (w_next w) (S (w_next w)) false false w
    (goto_dial t d (newConn k (w_next w) (openSocket w).1).1).
Proof.
  intros Hinv (d0 & Ht & Hh & Hs & E1 & E2 & E3) Hheld Hd.
  pose proof (iv_dial_fresh w Hinv t d0 Ht). pose proof (next_not_open w Hinv).
  constructor; cbn; try done; try lia.
  - intros d1. rewrite Ht. intros [= <-]. split; [done|]. intros s ->. by destruct (Hs s).
  - intros x. rewrite !elem_of_union, !elem_of_singleton.
    split; [intros [->|?]; by auto|]. intros [?|[-> _]]; by auto.
  - rewrite Ht. cbn. lia.
  - rewrite Ht. cbn. unfold live_of in *. cbn in *. lia.
  - rewrite Ht. cbn. unfold live_of in *. cbn in *. lia.
Qed.

Lemma admitted_kind w t h hd : Inv w -> w_dials w !! t = Some (OAdmitted h) ->
  w_handles w !! h = Some hd -> hd_kind hd = UDPOrigin /\ hd_handed hd = false.
Proof.
  intros Hinv Ht Hh. destruct (iv_dials w Hinv t _ Ht) as [A _ C].
  destruct (A UDPOrigin h eq_refl) as (x & Hx & Hk). destruct (C h eq_refl) as ((y & Hy & _ & Hhd) & _).
  rewrite Hh in Hx, Hy. injection Hx as <-. injection Hy as <-. done.
Qed.

(** Nobody but [t] is about to register a wrapper [t] holds. *)
Lemma holder_not_admitted w t d h :
  Inv w -> w_dials w !! t = Some d -> holds d h -> d <> OAdmitted h ->
  forall t', w_dials w !! t' <> Some (OAdmitted h).
Proof.
  intros Hinv Ht Hh Hne t' Ht'. destruct (iv_dials w Hinv t' _ Ht') as [_ _ C].
  destruct (C h eq_refl) as (_ & _ & _ & Huniq). pose proof (Huniq t d Ht Hh) as ->. congruence.
Qed.

(** After [Close] the goroutine that held the wrapper may let it go. *)
Lemma closed_lets_go h reply w d0 d k :
  Inv w -> held d0 = Some (k, h) -> (forall s, d0 <> TDialed s) ->
  (forall d', d = Some d' -> (held d' = None \/ held d' = held d0) /\
     (forall s, d' <> TDialed s) /\ forall h', d' <> OAdmitted h' /\ d' <> OQueued h') ->
  lets_go (Close h reply w) d0 d.
Proof.
  intros Hinv H0 Hs Hd. split_and!; [| |done|].
  - intros h'. destruct d as [d|]; [|done]. intros [k' Hk'].
    destruct (Hd d eq_refl) as ([Hn|Hn] & _); [congruence|]. exists k'. congruence.
  - intros h' hd' [k' Hk']. rewrite H0 in Hk'. injection Hk' as _ <-. intros Hh' Hc. right. left.
    destruct (w_handles w !! h) as [hd|] eqn:Hh.
    + destruct (Close_closes h hd reply w) as [hd2 Hcl]; [by apply Inv_closable|].
      rewrite (cl_handles _ _ _ _ _ Hcl), lookup_insert_eq in Hh'. injection Hh' as <-.
      by apply (cl_residual _ _ _ _ _ Hcl).
    + unfold Close in Hh'. rewrite Hh in Hh'. congruence.
  - intros d' ->. destruct (Hd d' eq_refl) as (Hn & Hs' & Ha). split_and!; [done| |].
    + intros k' h' Hk'. destruct Hn; congruence.
    + intros s ->. by destruct (Hs' s).
Qed.

Lemma Close_dials h reply w : Inv w -> w_dials (Close h reply w) = w_dials w.
Proof.
  intros Hinv. destruct (w_handles w !! h) as [hd|] eqn:Hh.
  - destruct (Close_closes h hd reply w) as [hd' Hc]; [by apply Inv_closable|].
    apply (cl_dials _ _ _ _ _ Hc).
  - unfold Close. by rewrite Hh.
Qed.

(** [Close] by the goroutine that holds the wrapper, which then moves on. *)
Lemma Inv_close_goto t d0 d k h reply w :
  Inv w -> w_dials w !! t = Some d0 -> held d0 = Some (k, h) -> d0 <> OAdmitted h ->
  (forall s, d0 <> TDialed s) -> pending_of d = pending_of d0 -> tcp_of d = tcp_of d0 ->
  udp_of d = udp_of d0 -> (held d = None \/ held d = held d0) -> (forall s, d <> TDialed s) ->
  (forall h', d <> OAdmitted h' /\ d <> OQueued h') -> Inv (goto_dial t d (Close h reply w)).
Proof.
  intros Hinv Ht Hh Hna Hs E1 E2 E3 Hd Hds Hda.
  assert (Inv (Close h reply w)) as Hinv'.
  { apply Inv_Close; [done|]. eapply holder_not_admitted; [done|done|by eexists|done]. }
  assert (w_dials (Close h reply w) !! t = Some d0) as Ht' by (by rewrite Close_dials).
  eapply (Inv_move t d0 (Some d)); [done|by eapply moves_goto|done|].
  eapply closed_lets_go; [done|done|done|]. by intros d' [= <-].
Qed.

Lemma Inv_tcp_dialed t bypass w :
  Inv w -> w_dials w !! t = Some (TDial bypass) -> Inv (tcp_dialed t bypass w).
Proof.
  intros Hinv Ht. unfold tcp_dialed. destruct bypass; [by apply (Inv_direct_dialed t true)|].
  eapply Inv_grows; [done|apply grows_opened; [done|by exists (TDial false)|done|done]|].
  intros h. split; [by left|done].
Qed.

Lemma Inv_udp_dialed t w :
  Inv w -> w_dials w !! t = Some UDial -> Inv (udp_dialed t w).
Proof.
  intros Hinv Ht. unfold udp_dialed.
  eapply Inv_grows; [done|apply grows_opened; [done|by exists UDial|done|done]|].
  intros h. split; [by left|done].
Qed.

Lemma Inv_tcp_track t s w :
  Inv w -> w_dials w !! t = Some (TDialed s) -> Inv (tcp_track t s w).
Proof.
  intros Hinv Ht. pose proof (iv_dial_fresh w Hinv t _ Ht) as Hf.
  pose proof (do_sock w t _ (iv_dials w Hinv t _ Ht) s eq_refl) as Hs.
  unfold tcp_track, track. cbn [newConn fst]. change (w_owner (setHandle _ _ w <| w_next ::= S |>)) with (w_owner w).
  destruct (fo_closed (w_owner w)).
  - eapply (Inv_grows t (TLate (w_next w)) TrackedTCP s (w_next w) false false); [done| |by split; [left|]].
    constructor; try done; cbn; rewrite ?Ht; cbn; try lia.
    + intros d0 [= <-]. split; [done|]. by intros s' [= ->].
    + intros x. split; [by left|]. by intros [?|[-> ?]].
    + rewrite live_of_open by done. lia.
    + rewrite live_of_other by done. lia.
  - eapply (Inv_grows t DEnd TrackedTCP s (w_next w) true true); [done| |by split; [left|]].
    constructor; try done; cbn; rewrite ?Ht; cbn; try lia.
    + intros d0 [= <-]. split; [done|]. by intros s' [= ->].
    + intros x. split; [by left|]. by intros [?|[-> ?]].
    + rewrite (alter_Some _ _ (newHandle TrackedTCP s)) by apply lookup_insert_eq.
      by rewrite insert_insert_eq.
    + rewrite live_of_open by done. lia.
    + rewrite live_of_other by done. lia.
Qed.

Lemma Inv_udp_track t h w :
  Inv w -> w_dials w !! t = Some (UDialed h) -> Inv (udp_track t h w).
Proof.
  intros Hinv Ht. unfold udp_track, track. destruct (w_handles w !! h) as [hd|] eqn:Hh; [|done].
  assert (Inv (goto_dial t (ULate h) w)) as Hlate.
  { eapply (Inv_move t _ (Some (ULate h))); [done|by eapply moves_goto|done|]. split_and!; try done.
    - intros h' hd' Hk _ _. left. exact Hk.
    - by intros d' [= <-]. }
  destruct (hd_idleClosed hd) eqn:Hid; [done|]. destruct (fo_closed (w_owner w)) eqn:Hc; [done|].
  assert (forall t', w_dials w !! t' <> Some (OAdmitted h)) as Hna.
  { eapply holder_not_admitted; [done|done|by eexists|done]. }
  change (goto_dial t DEnd (handOver h (w <| w_owner := w_owner w <| fo_connections ::= insert h None |> |>)))
    with (handOver h (goto_dial t DEnd (w <| w_owner ::= (fun o => o <| fo_connections ::= insert h None |>) |>))).
  apply Inv_handOver.
  - eapply Inv_track; [done|done|done|]. left. split_and!; try done. intros hd' Hh'. congruence.
  - cbn. intros t'. destruct (decide (t' = t)) as [->|Hn]; [by rewrite lookup_insert_eq|].
    by rewrite lookup_insert_ne.
Qed.

Lemma Inv_origin_track t h w :
  Inv w -> w_dials w !! t = Some (OAdmitted h) -> Inv (origin_track t h w).
Proof.
  intros Hinv Ht. unfold origin_track, track. destruct (fo_closed (w_owner w)) eqn:Hc.
  - eapply (Inv_move t _ (Some (OLate h))); [done|by eapply moves_goto|done|]. split_and!; try done.
    + intros h' hd' Hk _ _. left. exact Hk.
    + by intros d' [= <-].
  - change (w <| w_owner := w_owner w <| fo_connections ::= insert h None |> |>)
      with (w <| w_owner ::= (fun o => o <| fo_connections ::= insert h None |>) |>).
    eapply Inv_track; [done|done|done|]. by right.
Qed.

Lemma Inv_handshake_done t h canceled err close w :
  Inv w -> w_dials w !! t = Some (THandshake h canceled) ->
  Inv (handshake_done t h canceled err close w).
Proof.
  intros Hinv Ht. unfold handshake_done.
  assert (Inv (goto_dial t TFailed (Close h close w))) as Hfail.
  { eapply Inv_close_goto; [done|done|done|try done..]. by left. }
  destruct err, canceled; try done. destruct (w_handles w !! h) as [hd|] eqn:Hh; [|done].
  destruct (do_held w t _ (iv_dials w Hinv t _ Ht) PendingSOCKS h eq_refl) as (hd' & Hh' & Hk).
  rewrite Hh in Hh'. injection Hh' as <-.
  eapply (Inv_move t _ (Some (TDialed (hd_sock hd)))); [exact Hinv|by eapply moves_goto|done|].
  split_and!; [by intros h' [k Hk']| |done|].
  - intros h' hd' [k Hk'] Hh' _. injection Hk' as _ <-. right. right. rewrite Hh in Hh'.
    by injection Hh' as <-.
  - intros d' [= <-]. split_and!; try done. intros s [= <-]. by apply (iv_handle_fresh w Hinv h hd).
Qed.

Lemma Inv_handed h w t :
  Inv w -> w_dials w !! t = Some (OQueued h) -> Inv (goto_dial t DEnd (handOver h w)).
Proof.
  intros Hinv Ht. destruct (iv_dials w Hinv t _ Ht) as [A _ _].
  destruct (A UDPOrigin h eq_refl) as (hd & Hh & Hk).
  assert (Inv (handOver h w)) as Hinv'.
  { apply Inv_handOver; [done|]. eapply holder_not_admitted; [done|done|by eexists|done]. }
  eapply (Inv_move t (OQueued h) (Some DEnd)); [exact Hinv'|by eapply moves_goto|done|].
  split_and!; [by intros h' [k Hk']| |done|by intros d' [= <-]].
  intros h' hd' [k Hk'] Hh' Hc. injection Hk' as _ <-. right. left.
  destruct (iv_queued _ Hinv' t h Ht) as (x & Hx & [Hr|Hr]); [|done].
  rewrite Hx in Hh'. congruence.
Qed.

Lemma Inv_end t w :
  Inv w -> w_dials w !! t = Some DEnd ->
  Inv (w <| w_owner ::= endDial |> <| w_dials ::= delete t |>).
Proof.
  intros Hinv Ht. eapply (Inv_move t DEnd None); [exact Hinv| |done|by apply lets_go_nothing].
  constructor; try done; cbn; rewrite Ht; cbn; lia.
Qed.

Lemma Inv_failed t d0 w :
  Inv w -> w_dials w !! t = Some d0 ->
  (exists bypass, d0 = TDial bypass) \/ d0 = UDial ->
  Inv (goto_dial t (match d0 with UDial => UFailed | _ => TFailed end) w).
Proof.
  intros Hinv Ht Hd. eapply (Inv_move t d0 (Some _)); [exact Hinv| |done|].
  - eapply moves_goto; [done|..]; by destruct Hd as [[b ->]| ->].
  - apply lets_go_nothing; [by destruct Hd as [[b ->]| ->]|by destruct Hd as [[b ->]| ->]|].
    intros d' [= <-]. by destruct Hd as [[b ->]| ->].
Qed.

Lemma Inv_uncounted t w :
  Inv w ->
  (w_dials w !! t = Some TFailed ->
   Inv (goto_dial t DEnd w <| w_activeTCP ::= (fun n => n - 1)%Z |>)) /\
  (w_dials w !! t = Some UFailed ->
   Inv (goto_dial t DEnd w <| w_activeUDP ::= (fun n => n - 1)%Z |>)).
Proof.
  intros Hinv. split; intros Ht; (eapply (Inv_move t _ (Some DEnd)); [exact Hinv| |done|]).
  - constructor; try done; cbn; rewrite Ht; cbn; lia.
  - by apply lets_go_nothing; [..|intros ? [= <-]].
  - constructor; try done; cbn; rewrite Ht; cbn; lia.
  - by apply lets_go_nothing; [..|intros ? [= <-]].
Qed.

(** A goroutine closes the wrapper it could not hand over, and ends. *)
Lemma Inv_late t d0 k h reply w :
  Inv w -> w_dials w !! t = Some d0 -> held d0 = Some (k, h) -> d0 <> OAdmitted h ->
  pending_of d0 = 1%Z -> tcp_of d0 = 0%Z -> udp_of d0 = 0%Z ->
  Inv (goto_dial t DEnd (Close h reply w)).
Proof.
  intros Hinv Ht Hh Hna E1 E2 E3.
  eapply Inv_close_goto; [exact Hinv|exact Ht|exact Hh|done|..]; try done; [|by left].
  intros s ->. done.
Qed.

Lemma Inv_dial_step t r w w' : Inv w -> dial_step t r w = Some w' -> Inv w'.
Proof.
  intros Hinv. unfold dial_step. destruct (w_dials w !! t) as [d|] eqn:Ht; [|done].
  destruct d as [tcp bypass|bypass|h [|]|s| |h| |h| |h|h|h|h|], r as [| |err|err close|close|close];
    try done; try (intros [= <-]).
  - by apply Inv_dial_begin.
  - by apply Inv_tcp_dialed.
  - by apply (Inv_failed t (TDial bypass)); [..|left; exists bypass].
  - by apply Inv_handshake_done.
  - by apply Inv_handshake_done.
  - eapply Inv_close_goto; [exact Hinv|exact Ht|done|try done..]. by right.
  - by apply Inv_tcp_track.
  - by apply Inv_uncounted.
  - by eapply Inv_late.
  - by apply Inv_udp_dialed.
  - by apply (Inv_failed t UDial); [..|right].
  - by apply Inv_udp_track.
  - by apply Inv_uncounted.
  - by eapply Inv_late.
  - by apply Inv_origin_track.
  - by eapply Inv_late.
  - by apply Inv_handed.
  - destruct (fo_closed (w_owner w)); [|done]. intros [= <-]. by eapply Inv_late.
  - by apply Inv_end.
Qed.

Lemma Inv_admitOrigin w : Inv w -> Inv (admitOrigin w).
Proof.
  intros Hinv. unfold admitOrigin. destruct (beginDial (w_owner w)) as [o|] eqn:Hb; [|done].
  apply beginDial_ok in Hb as (Hc & _ & _ & Hp). cbn [openSocket newConn fst].
  pose proof (next_not_open w Hinv) as Hno.
  assert (w_dials w !! S (S (w_next w)) = None) as Hn.
  { destruct (w_dials w !! S (S (w_next w))) eqn:E; [|done]. apply (iv_dial_fresh w Hinv) in E. lia. }
  eapply (Inv_grows (S (S (w_next w))) (OAdmitted (S (w_next w))) UDPOrigin (w_next w)
            (S (w_next w)) false false); [exact Hinv| |].
  - constructor; cbn; rewrite ?Hn, ?Hc, ?Hp; try done; try lia.
    + intros x. rewrite !elem_of_union, !elem_of_singleton.
      split; [intros [->|?]; by auto|]. intros [?|[-> _]]; by auto.
    + cbn. lia.
    + rewrite live_of_other by done. cbn. lia.
    + rewrite live_of_other by done. cbn. lia.
  - intros h0. split; [|done]. destruct (decide (h0 = S (w_next w))) as [->|Hne]; [by right|left].
    intros [= Heq]. by apply Hne.
Qed.

Lemma closeAfterIdleTimeout_Close h hd reply w :
  w_handles w !! h = Some hd -> hd_kind hd = IdleUDP -> hd_idleClosed hd = false ->
  closeAfterIdleTimeout h hd (socketReply (hd_sock hd) reply w) w =
  Close h reply w <| w_idleTimeouts ::= (fun n => n + 1)%Z |>.
Proof.
  intros Hh Hk Hi. unfold closeAfterIdleTimeout, Close, closeIdleUDP, idleClose, closePacketConn.
  rewrite Hh, Hk, Hi. cbn [andb]. destruct (hd_closed hd); [done|]. unfold closeSocket.
  by destruct (closeFailed _).
Qed.

Lemma Inv_idleTimeouts f w : Inv w -> Inv (w <| w_idleTimeouts ::= f |>).
Proof. intros []. constructor; cbn; try done. intros t d Hd. by destruct (iv_dials0 t d Hd). Qed.

Theorem Inv_flow_step ev w w' : Inv w -> flow_step ev w = Some w' -> Inv w'.
Proof.
  intros Hinv. destruct ev as [tcp bypass| |t r|h reply|h reply| |reply]; cbn [flow_step].
  - intros [= <-]. by apply Inv_startDial.
  - intros [= <-]. by apply Inv_admitOrigin.
  - by apply Inv_dial_step.
  - destruct (w_handles w !! h) as [hd|] eqn:Hh; [|done]. destruct (hd_handed hd) eqn:Hd; [|done].
    intros [= <-]. apply Inv_Close; [done|]. intros t Ht.
    destruct (admitted_kind w t h hd Hinv Ht Hh). congruence.
  - destruct (w_handles w !! h) as [hd|] eqn:Hh; [|done].
    destruct (bool_decide _) eqn:Hk; [|done]. apply bool_decide_eq_true in Hk. intros [= <-].
    destruct (hd_idleClosed hd) eqn:Hi; [unfold closeAfterIdleTimeout; by rewrite Hi|].
    rewrite closeAfterIdleTimeout_Close by done. apply Inv_idleTimeouts, Inv_Close; [done|].
    intros t Ht. destruct (admitted_kind w t h hd Hinv Ht Hh). congruence.
  - cbn [seal]. intros [= <-]. by apply Inv_seal.
  - destruct (w_closing w) as [|h rest] eqn:Hc; [done|]. intros [= <-].
    assert (Inv (Close h reply w)) as Hinv'.
    { apply Inv_Close; [done|]. intros t Ht. destruct (iv_dials w Hinv t _ Ht) as [_ _ C].
      destruct (C h eq_refl) as (_ & _ & Hn & _). apply Hn. rewrite Hc. by apply list_elem_of_here. }
    eapply Inv_closing; [done|]. destruct (w_handles w !! h) as [hd|] eqn:Hh.
    + destruct (Close_closes h hd reply w) as [hd' Hcl]; [by apply Inv_closable|].
      rewrite (cl_closing _ _ _ _ _ Hcl). exact Hc.
    + unfold Close. by rewrite Hh.
Qed.

Lemma Inv_flow_run evs w w' : Inv w -> flow_run evs w = Some w' -> Inv w'.
Proof.
  revert w. induction evs as [|ev evs IH]; intros w Hinv; cbn.
  - by intros [= <-].
  - destruct (flow_step ev w) eqn:Hs; [|done]. apply IH. by eapply Inv_flow_step.
Qed.

#[export] Hint Resolve Inv_new Inv_flow_step Inv_flow_run : dobby.
