(* ===== verification/FlowTheorems.v ===== *)
(** * What a retired route owner guarantees

    A sealed owner with nothing pending and nothing registered is final: no
    socket of its attempt is open, none will be, and the counters are zero.  A
    cleanup whose closes succeed reaches that state whatever failed before. *)

From S2P Require Import Prelude Errors Flows FlowsInvariant.

(** ** Quiet owners *)

(** Sealed, nothing pending, nothing registered: what a cleanup that reported
    success has established. *)
Definition quiet (w : world) : Prop :=
  fo_closed (w_owner w) = true /\ fo_pending (w_owner w) = 0%Z /\
  fo_connections (w_owner w) = ∅.

Lemma residual_None o : residualErrorLocked o = None <-> fo_connections o = ∅.
Proof.
  unfold residualErrorLocked. rewrite join_None. split.
  - intros H. destruct (map_to_list (fo_connections o)) as [|[c e] l] eqn:Hl.
    + by apply map_to_list_empty_iff.
    + inversion H as [|? ? Hx _]. by destruct e.
  - intros ->. rewrite map_to_list_empty. constructor.
Qed.

Lemma pending_nonneg d : (0 <= pending_of d)%Z.
Proof. by destruct d. Qed.

(** With nothing pending every goroutine is still before [beginDial]. *)
Lemma quiet_dials w t d :
  Inv w -> fo_pending (w_owner w) = 0%Z -> w_dials w !! t = Some d ->
  exists tcp bypass, d = DBegin tcp bypass.
Proof.
  intros Hinv Hp Hd. rewrite (iv_pending w Hinv) in Hp.
  pose proof (csum_zero pending_of (w_dials w) t d pending_nonneg Hp Hd) as Hz.
  destruct d as [tcp bypass| | | | | | | | | | | | |]; try done. by exists tcp, bypass.
Qed.

Lemma quiet_unowned w h : Inv w -> quiet w -> ~ owned w h.
Proof.
  intros Hinv (_ & Hp & Hc) [[e He]|(t & d & Hd & k & Hk)].
  - by rewrite Hc in He.
  - by destruct (quiet_dials w t d Hinv Hp Hd) as (tcp & bypass & ->).
Qed.

Lemma quiet_closed_handles w h hd :
  Inv w -> quiet w -> w_handles w !! h = Some hd -> hd_kind hd <> PendingSOCKS ->
  hd_closed hd = true.
Proof.
  intros Hinv Hq Hh Hk. destruct (hd_closed hd) eqn:Hc; [done|].
  exfalso. apply (quiet_unowned w h Hinv Hq). by apply (iv_live w Hinv h hd).
Qed.

Lemma quiet_open w : Inv w -> quiet w -> w_open w = ∅.
Proof.
  intros Hinv Hq. apply set_eq. intros s. split; [|set_solver]. intros Hs.
  destruct (iv_open w Hinv s Hs) as [(t & Ht)|(h & hd & _ & _ & _ & Ho)].
  - by destruct (quiet_dials w t _ Hinv (proj1 (proj2 Hq)) Ht) as (? & ? & ?).
  - by destruct (quiet_unowned w h Hinv Hq Ho).
Qed.

Lemma quiet_counters w : Inv w -> quiet w -> w_activeTCP w = 0%Z /\ w_activeUDP w = 0%Z.
Proof.
  intros Hinv Hq. assert (forall f, (forall tcp bypass, f (DBegin tcp bypass) = 0%Z) ->
    csum f (w_dials w) = 0%Z) as Hd.
  { intros f Hf. apply csum_all_zero. intros t d Hd.
    destruct (quiet_dials w t d Hinv (proj1 (proj2 Hq)) Hd) as (tcp & bypass & ->). apply Hf. }
  assert (forall k, k <> PendingSOCKS -> csum (live_of k) (w_handles w) = 0%Z) as Hh.
  { intros k Hk. apply csum_all_zero. intros h hd Hh. destruct (decide (hd_kind hd = k)) as [<-|Hne].
    - by apply live_of_closed, (quiet_closed_handles w h).
    - by apply live_of_other. }
  rewrite (iv_tcp w Hinv), (iv_udp w Hinv), !Hd, !Hh by done. done.
Qed.

(** Closing a socket that is already closed registers nothing. *)
Lemma Close_gone h reply w hd :
  w_handles w !! h = Some hd -> hd_sock hd ∉ w_open w -> fo_connections (w_owner w) = ∅ ->
  fo_connections (w_owner (Close h reply w)) = ∅.
Proof.
  intros Hh Hs Hc. pose proof (closeFailed_reply (hd_sock hd) reply w Hs) as Hf.
  unfold Close. rewrite Hh. generalize dependent (socketReply (hd_sock hd) reply w). intros r Hf.
  unfold closeTrackedTCP, closeIdleUDP, closePendingSOCKS, closeUDPOrigin, idleClose,
    closePacketConn, releaseHandle, release, closeSocket. rewrite Hf.
  destruct (hd_kind hd), (hd_closed hd), (hd_idleClosed hd && bool_decide (hd_idleErr hd = None));
    cbn; try done; by rewrite Hc, delete_empty.
Qed.

Lemma quiet_Close h reply w : Inv w -> quiet w -> quiet (Close h reply w).
Proof.
  intros Hinv Hq. pose proof (quiet_open w Hinv Hq) as Ho. destruct Hq as (Hc & Hp & Hn).
  destruct (w_handles w !! h) as [hd|] eqn:Hh.
  - destruct (Close_closes h hd reply w) as [hd' Hcl]; [by apply Inv_closable|].
    split; [by rewrite (cl_closed _ _ _ _ _ Hcl)|]. split; [by rewrite (cl_pending _ _ _ _ _ Hcl)|].
    eapply Close_gone; [done| |done]. by rewrite Ho.
  - unfold Close. by rewrite Hh.
Qed.

Lemma quiet_step ev w w' : Inv w -> quiet w -> flow_step ev w = Some w' -> quiet w'.
Proof.
  intros Hinv Hq. pose proof Hq as (Hc & Hp & Hn).
  destruct ev as [tcp bypass| |t r|h reply|h reply| |reply]; cbn [flow_step].
  - by intros [= <-].
  - unfold admitOrigin, beginDial. rewrite Hc. by intros [= <-].
  - unfold dial_step. destruct (w_dials w !! t) as [d|] eqn:Ht; [|done].
    destruct (quiet_dials w t d Hinv Hp Ht) as (tcp & bypass & ->). destruct r; try done.
    unfold dial_begin, beginDial. rewrite Hc. by intros [= <-].
  - destruct (w_handles w !! h) as [hd|]; [|done]. destruct (hd_handed hd); [|done].
    intros [= <-]. by apply quiet_Close.
  - destruct (w_handles w !! h) as [hd|] eqn:Hh; [|done].
    destruct (bool_decide _) eqn:Hk; [|done]. apply bool_decide_eq_true in Hk. intros [= <-].
    destruct (hd_idleClosed hd) eqn:Hi; [unfold closeAfterIdleTimeout; by rewrite Hi|].
    rewrite closeAfterIdleTimeout_Close by done. by apply quiet_Close.
  - cbn [seal]. by intros [= <-].
  - destruct (w_closing w) as [|h rest]; [done|]. intros [= <-]. by apply (quiet_Close h reply w).
Qed.

Lemma quiet_run evs w w' : Inv w -> quiet w -> flow_run evs w = Some w' -> quiet w'.
Proof.
  revert w. induction evs as [|ev evs IH]; intros w Hinv Hq; cbn; [by intros [= <-]|].
  destruct (flow_step ev w) eqn:Hs; [|done]. apply IH; eauto using Inv_flow_step, quiet_step.
Qed.

Lemma waited_quiet w :
  fo_closed (w_owner w) = true -> wait_begin (w_owner w) = None ->
  wait_result (w_owner w) = None -> quiet w.
Proof.
  unfold wait_begin, wait_result. intros Hc Hp Hr. split; [done|].
  destruct (Z.eqb_spec (fo_pending (w_owner w)) 0); [|done]. split; [done|]. by apply residual_None.
Qed.

(** C15: after a cleanup that reported success no socket of the attempt is open
    and none ever will be: whatever goroutines and callers do afterwards, in
    any order, the owner admits no dial, no late dial is left behind, and the
    counters of active flows are zero. *)
Theorem cleaned_flows_leave_nothing_open evs w evs' w' :
  flow_run evs newWorld = Some w -> fo_closed (w_owner w) = true ->
  wait_begin (w_owner w) = None -> wait_result (w_owner w) = None ->
  flow_run evs' w = Some w' ->
  w_open w' = ∅ /\ w_activeTCP w' = 0%Z /\ w_activeUDP w' = 0%Z /\
  wait_begin (w_owner w') = None /\ wait_result (w_owner w') = None /\
  beginDial (w_owner w') = Err (ESent NetErrClosed).
Proof.
  intros Hw Hc Hp Hr Hw'. assert (Inv w) as Hinv by eauto with dobby.
  assert (Inv w') as Hinv' by eauto with dobby.
  assert (quiet w') as Hq by (eapply quiet_run; [exact Hinv|by apply waited_quiet|done]).
  pose proof (quiet_counters w' Hinv' Hq) as [Ht Hu]. pose proof Hq as (Hc' & Hp' & Hn').
  split_and!; try done.
  - by apply quiet_open.
  - unfold wait_begin. by rewrite Hp'.
  - by apply residual_None.
  - unfold beginDial. by rewrite Hc'.
Qed.

(** the counters shown to the operator are exact at every moment: the
    pending count is the number of dials that passed admission and have not
    ended, and each of the two active counts is the number of network calls in
    progress plus the number of connections not yet closed; none is negative. *)
Theorem flow_counters_are_exact evs w :
  flow_run evs newWorld = Some w ->
  fo_pending (w_owner w) = csum pending_of (w_dials w) /\
  w_activeTCP w = (csum tcp_of (w_dials w) + csum (live_of TrackedTCP) (w_handles w))%Z /\
  w_activeUDP w = (csum udp_of (w_dials w) + csum (live_of IdleUDP) (w_handles w))%Z /\
  (0 <= fo_pending (w_owner w))%Z /\ (0 <= w_activeTCP w)%Z /\ (0 <= w_activeUDP w)%Z.
Proof.
  intros Hw. assert (Inv w) as Hinv by eauto with dobby.
  rewrite (iv_pending w Hinv), (iv_tcp w Hinv), (iv_udp w Hinv).
  assert (forall k m, (0 <= csum (live_of k) m)%Z) as Hl.
  { intros k m. apply csum_nonneg. intros hd. unfold live_of. by case_match. }
  assert (0 <= csum tcp_of (w_dials w))%Z by (apply csum_nonneg; by intros []).
  assert (0 <= csum udp_of (w_dials w))%Z by (apply csum_nonneg; by intros []).
  pose proof (Hl TrackedTCP (w_handles w)). pose proof (Hl IdleUDP (w_handles w)).
  split_and!; try done; try lia. apply csum_nonneg, pending_nonneg.
Qed.

(** ** A cleanup pass *)

Lemma Close_ok_unregisters h w hd :
  Inv w -> w_handles w !! h = Some hd ->
  fo_connections (w_owner (Close h None w)) !! h = None.
Proof.
  intros Hinv Hh. destruct (fo_connections (w_owner (Close h None w)) !! h) as [e|] eqn:He; [|done].
  exfalso. destruct (Close_closes h hd None w) as [hd' Hcl]; [by apply Inv_closable|].
  destruct (cl_retry _ _ _ _ _ Hcl) as [Hc _]; [by eexists|].
  assert (hd_closed hd = false) as Hc0.
  { destruct (hd_closed hd) eqn:E; [|done]. by rewrite (cl_mono _ _ _ _ _ Hcl E) in Hc. }
  assert (forall s, closeFailed (socketReply s None w) = false) as Hf.
  { intros s. unfold socketReply. by case_bool_decide. }
  revert He. unfold Close. rewrite Hh.
  unfold closeTrackedTCP, closeIdleUDP, closePendingSOCKS, closeUDPOrigin, idleClose,
    closePacketConn, releaseHandle, release, closeSocket. rewrite Hf, Hc0.
  pose proof (iv_handles w Hinv h hd Hh) as Hok. unfold handle_ok in Hok. rewrite Hc0 in Hok.
  destruct (hd_kind hd); cbn; try by rewrite lookup_delete_eq.
  rewrite bool_decide_eq_true_2 in Hok by done. rewrite <- Hok. cbn. by rewrite lookup_delete_eq.
Qed.

Lemma Close_unregistered h h' reply w :
  Inv w -> fo_connections (w_owner w) !! h' = None -> h' <> h ->
  fo_connections (w_owner (Close h reply w)) !! h' = None.
Proof.
  intros Hinv Hn Hne. destruct (w_handles w !! h) as [hd|] eqn:Hh.
  - destruct (Close_closes h hd reply w) as [hd' Hcl]; [by apply Inv_closable|].
    by rewrite (cl_conns _ _ _ _ _ Hcl).
  - unfold Close. by rewrite Hh.
Qed.

Lemma close_all l w :
  Inv w -> w_closing w = l -> fo_closed (w_owner w) = true -> fo_pending (w_owner w) = 0%Z ->
  (forall h, is_Some (fo_connections (w_owner w) !! h) -> h ∈ l) ->
  exists w', flow_run (replicate (length l) (FCloseOwned None)) w = Some w' /\ quiet w'.
Proof.
  revert w. induction l as [|h l IH]; intros w Hinv Hl Hc Hp Hin.
  { exists w. split; [done|]. split_and!; try done. apply map_eq. intros i. rewrite lookup_empty.
    destruct (fo_connections (w_owner w) !! i) eqn:E; [|done].
    exfalso. apply (not_elem_of_nil i), Hin. by eexists. }
  cbn [length replicate flow_run flow_step]. rewrite Hl.
  assert (flow_step (FCloseOwned None) w = Some (Close h None w <| w_closing := l |>)) as Hs
    by (cbn; by rewrite Hl).
  apply IH; [by eapply Inv_flow_step|done|..].
  - cbn. destruct (w_handles w !! h) as [hd|] eqn:Hh; [|unfold Close; by rewrite Hh].
    destruct (Close_closes h hd None w) as [hd' Hcl]; [by apply Inv_closable|].
    by rewrite (cl_closed _ _ _ _ _ Hcl).
  - cbn. destruct (w_handles w !! h) as [hd|] eqn:Hh; [|unfold Close; by rewrite Hh].
    destruct (Close_closes h hd None w) as [hd' Hcl]; [by apply Inv_closable|].
    by rewrite (cl_pending _ _ _ _ _ Hcl).
  - cbn. intros h' Hs'. destruct (decide (h' = h)) as [->|Hne].
    + destruct (w_handles w !! h) as [hd|] eqn:Hh.
      * rewrite (Close_ok_unregisters h w hd) in Hs' by done. by destruct Hs'.
      * unfold Close in Hs'. rewrite Hh in Hs'. destruct (iv_conns w Hinv h Hs') as (x & Hx & _). congruence.
    + destruct (fo_connections (w_owner w) !! h') eqn:E.
      * assert (h' ∈ h :: l) as Hin' by (apply Hin; by eexists).
        apply elem_of_cons in Hin' as [?|?]; done.
      * rewrite Close_unregistered in Hs' by done. by destruct Hs'.
Qed.

(** Whatever failed before, once no dial is in progress one pass of
    [sealAndClose] whose socket closes succeed leaves nothing registered and
    [wait] reports success without waiting: a failed cleanup can always be
    retried to completion. *)
Theorem cleanup_pass_completes evs w :
  flow_run evs newWorld = Some w -> fo_pending (w_owner w) = 0%Z ->
  exists w', flow_run (FSeal :: replicate (size (fo_connections (w_owner w))) (FCloseOwned None)) w =
      Some w' /\
    fo_closed (w_owner w') = true /\ wait_begin (w_owner w') = None /\
    wait_result (w_owner w') = None.
Proof.
  intros Hw Hp. assert (Inv w) as Hinv by eauto with dobby.
  cbn [flow_run flow_step seal]. set (w1 := w <| w_owner := _ |> <| w_closing := _ |>).
  assert (Inv w1) as Hinv1 by (by apply Inv_seal).
  destruct (close_all (w_closing w1) w1) as (w' & Hrun & Hq); [done|done|done|done| |].
  - intros h [e He]. cbn in He. apply list_elem_of_fmap. exists (h, e). split; [done|].
    by apply elem_of_map_to_list.
  - exists w'. split.
    + rewrite <- Hrun. do 2 f_equal. cbn. by rewrite length_fmap, length_map_to_list.
    + destruct Hq as (Hc & Hp' & Hn). split_and!; [done| |by apply residual_None].
      unfold wait_begin. by rewrite Hp'.
Qed.

(** ** A concrete history *)

(** A VPN connection is made and its close fails; a direct dial is still in
    its network call when the owner is sealed, and connects too late. *)
Definition busy : list flowEvent :=
  [FDial true false; FStep 0 RNothing; FStep 0 RDialed; FStep 0 (RHandshake None None);
   FStep 0 RNothing; FStep 0 RNothing;
   FClose 3 (Some (EText "close failed")); FDial true true; FStep 4 RNothing; FSeal;
   FCloseOwned (Some (EText "close failed")); FStep 4 RDialed; FStep 4 RNothing;
   FStep 4 (RClosed None); FStep 4 RNothing].

Definition busyWorld : world :=
  match flow_run busy newWorld with Some w => w | None => newWorld end.

Definition cleanedWorld : world :=
  match flow_run [FSeal; FCloseOwned None] busyWorld with Some w => w | None => newWorld end.

Lemma cleaned_flows_witness : w_open cleanedWorld = ∅.
Proof.
  refine (proj1 (cleaned_flows_leave_nothing_open (busy ++ [FSeal; FCloseOwned None]) cleanedWorld []
    cleanedWorld _ _ _ _ _)); vm_compute; reflexivity.
Defined.

Lemma flow_counters_witness : (0 <= w_activeTCP busyWorld)%Z.
Proof.
  refine (proj1 (proj2 (proj2 (proj2 (proj2 (flow_counters_are_exact busy busyWorld _)))))).
  vm_compute. reflexivity.
Defined.

Lemma cleanup_pass_witness : exists w',
  flow_run (FSeal :: replicate (size (fo_connections (w_owner busyWorld))) (FCloseOwned None)) busyWorld =
    Some w'.
Proof.
  destruct (cleanup_pass_completes busy busyWorld) as (w' & Hw & _).
  - vm_compute. reflexivity.
  - vm_compute. reflexivity.
  - by exists w'.
Defined.
