(* ===== verification/Engine.v ===== *)
(** * The engine handle and its router (core/tunnel/tunnel.go,
      switching_proxy.go, udp_transport.go, owned_engine_fd.go)

    A process has at most one active [Engine]; an engine routes packets to at
    most one attempt, whose flows are a [Flows.world].  [Detach] and [Stop]
    hold the engine's lock while goroutines dial on, so they are cut where they
    close a connection, wait, or call the platform. *)

From S2P Require Import Prelude Errors Flows.
Local Open Scope string_scope.
Local Open Scope list_scope.

(** ** The router *)

Record switchingProxy := mkSwitchingProxy {
  sp_target : option nat;
  sp_changed : nat;
  sp_closed : bool
}.

Definition newSwitchingProxy : switchingProxy := mkSwitchingProxy None 0 false.

Definition sp_set (target : option nat) (p : switchingProxy) : switchingProxy :=
  if sp_closed p then p else mkSwitchingProxy target (S (sp_changed p)) false.

Definition sp_close (p : switchingProxy) : switchingProxy :=
  if sp_closed p then p else mkSwitchingProxy None (S (sp_changed p)) true.

(** One round of the loop of [DialContext]. *)
Inductive routing :=
| RouteTo (target : nat)
| RouteErr (err : gerr)
| RouteWait (changed : nat).

Definition route (ctxErr : option gerr) (p : switchingProxy) : routing :=
  if sp_closed p then RouteErr (ESent NetErrClosed)
  else match ctxErr, sp_target p with
       | Some err, _ => RouteErr err
       | None, Some target => RouteTo target
       | None, None => RouteWait (sp_changed p)
       end.

(** UDP does not wait: [None] is [net.ErrClosed], the datagram is dropped. *)
Definition routeUDP (p : switchingProxy) : option nat := sp_target p.

(** ** Engines *)

(** Where [Detach] or [Stop] is. *)
Inductive phase := Closing | Platform | Waiting (epoch : nat) | Report.

Inductive engine_op :=
| OpDetach (p : phase)
| OpStop (platformErr : option gerr) (p : phase).

(** [en_op] is the operation that holds [e.mu]; [en_returned] what the last one
    returned. *)
Record engine := mkEngine {
  en_stopped : bool;
  en_stopErr : option gerr;
  en_proxy : option nat;
  en_attempt : Z;
  en_router : switchingProxy;
  en_worlds : gmap nat world;
  en_next : nat;
  en_op : option engine_op;
  en_returned : option gerr
}.
#[export] Instance eta_engine : Settable engine :=
  fun x => mkEngine (en_stopped x) (en_stopErr x) (en_proxy x) (en_attempt x) (en_router x)
             (en_worlds x) (en_next x) (en_op x) (en_returned x).

Definition newEngine : engine :=
  mkEngine false None None 0 newSwitchingProxy ∅ 0 None None.

Definition returns (err : option gerr) (e : engine) : engine :=
  e <| en_op := None |> <| en_returned := err |>.

(** What building the attempt's proxies can fail with, in order. *)
Record attachArgs := mkAttachArgs {
  at_ctxErr : option gerr;
  at_cache : bool;
  at_bypass : bool;
  at_parseErr : option gerr;
  at_socksErr : option gerr
}.

Definition attachLocked (generation : Z) (a : attachArgs) (e : engine) : engine * option gerr :=
  match at_ctxErr a with
  | Some err => (e, Some err)
  | None =>
      if negb (at_cache a) || negb (at_bypass a)
      then (e, Some (EText "attempt resolver and bypass policy are required"))
      else match at_parseErr a, at_socksErr a with
           | Some err, _ => (e, Some err)
           | None, Some err => (e, Some err)
           | None, None =>
               let id := en_next e in
               (e <| en_worlds ::= insert id newWorld |> <| en_next ::= S |>
                  <| en_proxy := Some id |> <| en_attempt := generation |>
                  <| en_router ::= sp_set (Some id) |>, None)
           end
  end.

Definition Attach (generation : Z) (a : attachArgs) (e : engine) : engine :=
  if en_stopped e then returns (Some (ESent NetErrClosed)) e
  else match en_proxy e with
       | Some _ => returns (Some (EText "previous attempt still owns flows")) e
       | None => let '(e, err) := attachLocked generation a e in returns err e
       end.

(** The attempt's flows. *)
Definition proxyWorld (e : engine) : option world :=
  match en_proxy e with Some id => en_worlds e !! id | None => None end.

Definition flowStep (ev : flowEvent) (id : nat) (e : engine) : option engine :=
  match en_worlds e !! id with
  | None => None
  | Some w =>
      match flow_step ev w with
      | None => None
      | Some w => Some (e <| en_worlds ::= insert id w |>)
      end
  end.

(** [e.proxy.flows.sealAndClose] up to its loop; nothing without a proxy. *)
Definition sealProxy (e : engine) : engine :=
  match en_proxy e with
  | None => e
  | Some id => match flowStep FSeal id e with Some e => e | None => e end
  end.

Definition detach_begin (generation : Z) (e : engine) : engine :=
  if negb (en_attempt e =? generation)%Z then returns None e
  else match en_proxy e with
       | None => returns None e
       | Some _ => sealProxy (e <| en_router ::= sp_set None |>) <| en_op := Some (OpDetach Closing) |>
       end.

(** [active] is [activeEngine == e]. *)
Definition stop_begin (active : bool) (e : engine) : engine :=
  if en_stopped e then returns (en_stopErr e) e
  else if negb active then returns None e
  else sealProxy (e <| en_router ::= sp_close |>) <| en_op := Some (OpStop None Closing) |>.

Definition detach_finish (err : option gerr) (e : engine) : engine :=
  match err with
  | Some err => returns (Some err) e
  | None => returns None (e <| en_proxy := None |>)
  end.

(** Whether the handle still holds the reservation afterwards. *)
Definition stop_finish (platformErr flowErr : option gerr) (e : engine) : engine * bool :=
  let err := join [platformErr; flowErr] in
  let e := e <| en_stopErr := err |> in
  match err with
  | Some _ => (returns err e, true)
  | None => (returns None (e <| en_stopped := true |>), false)
  end.

Definition finish (op : engine_op) (flowErr : option gerr) (e : engine) : engine * bool :=
  match op with
  | OpDetach _ => (detach_finish flowErr e, true)
  | OpStop platformErr _ => stop_finish platformErr flowErr e
  end.

Definition at_phase (op : engine_op) (p : phase) : engine_op :=
  match op with OpDetach _ => OpDetach p | OpStop err _ => OpStop err p end.

(** [flows.wait] begins. *)
Definition enter_wait (op : engine_op) (e : engine) : engine * bool :=
  match proxyWorld e with
  | None => finish op None e
  | Some w =>
      match wait_begin (w_owner w) with
      | Some epoch => (e <| en_op := Some (at_phase op (Waiting epoch)) |>, true)
      | None => (e <| en_op := Some (at_phase op Report) |>, true)
      end
  end.

Inductive engineReply :=
| EStep
| EPlatform (err : option gerr)
| EDeadline (ctxErr : gerr).

Definition phase_of (op : engine_op) : phase :=
  match op with OpDetach p => p | OpStop _ p => p end.

(** The operation that holds the lock goes on. *)
Definition op_step (r : engineReply) (e : engine) : option (engine * bool) :=
  match en_op e with
  | None => None
  | Some op =>
      match phase_of op, r with
      | Closing, EStep =>
          if bool_decide (from_option w_closing [] (proxyWorld e) = []) then
            match op with
            | OpDetach _ => Some (enter_wait op e)
            | OpStop err _ => Some (e <| en_op := Some (OpStop err Platform) |>, true)
            end
          else None
      | Platform, EPlatform err =>
          match op with
          | OpDetach _ => None
          | OpStop _ _ => Some (enter_wait (OpStop err Platform) e)
          end
      | Waiting epoch, EStep =>
          match proxyWorld e with
          | Some w =>
              if settled epoch (w_owner w)
              then Some (e <| en_op := Some (at_phase op Report) |>, true) else None
          | None => None
          end
      | Waiting epoch, EDeadline ctxErr =>
          match proxyWorld e with
          | Some w =>
              match wait_deadline ctxErr (w_owner w) with
              | Some err => Some (finish op (Some err) e)
              | None => Some (e <| en_op := Some (at_phase op Report) |>, true)
              end
          | None => None
          end
      | Report, EStep =>
          match proxyWorld e with
          | Some w => Some (finish op (wait_result (w_owner w)) e)
          | None => None
          end
      | _, _ => None
      end
  end.

(** Events of one engine. Dials and datagrams go where the router points;
    goroutines already routed go on whatever the engine does. *)
Inductive engineEvent :=
| EvAttach (generation : Z) (a : attachArgs)
| EvDetach (generation : Z)
| EvStop
| EvOp (r : engineReply)
| EvCloseOwned (reply : option gerr)
| EvDial (tcp bypass : bool)
| EvOrigin
| EvFlow (id : nat) (ev : flowEvent).

(** The flow events that belong to no engine operation and need no routing. *)
Definition free_flow (ev : flowEvent) : bool :=
  match ev with FStep _ _ | FClose _ _ | FIdle _ _ => true | _ => false end.

Definition engine_step (active : bool) (ev : engineEvent) (e : engine) : option (engine * bool) :=
  let unlocked := bool_decide (en_op e = None) in
  match ev with
  | EvAttach generation a => if unlocked then Some (Attach generation a e, active) else None
  | EvDetach generation => if unlocked then Some (detach_begin generation e, active) else None
  | EvStop => if unlocked then Some (stop_begin active e, active) else None
  | EvOp r =>
      match op_step r e with Some (e, keeps) => Some (e, active && keeps) | None => None end
  | EvCloseOwned reply =>
      match en_op e, en_proxy e with
      | Some op, Some id =>
          if match phase_of op with Closing => true | _ => false end
          then option_map (fun e => (e, active)) (flowStep (FCloseOwned reply) id e) else None
      | _, _ => None
      end
  | EvDial tcp bypass =>
      match (if tcp then route None (en_router e) else
             match routeUDP (en_router e) with
             | Some id => RouteTo id
             | None => RouteErr (ESent NetErrClosed)
             end) with
      | RouteTo id => option_map (fun e => (e, active)) (flowStep (FDial tcp bypass) id e)
      | _ => None
      end
  | EvOrigin =>
      match routeUDP (en_router e) with
      | Some id => option_map (fun e => (e, active)) (flowStep FOrigin id e)
      | None => None
      end
  | EvFlow id ev =>
      if free_flow ev then option_map (fun e => (e, active)) (flowStep ev id e) else None
  end.

#[export] Instance phase_eq_dec : EqDecision phase.
Proof. solve_decision. Defined.

(** ** The process *)

Record process := mkProcess {
  pr_active : option nat;
  pr_engines : gmap nat engine;
  pr_next : nat;
  pr_dupFDs : nat
}.

Definition newProcess : process := mkProcess None ∅ 0 0.

(** A start: the parameters that may be nil, an optional attempt attached with
    the engine, and the platform's answer. *)
Record startArgs := mkStartArgs {
  sa_dnsCache : bool;
  sa_bypass : bool;
  sa_attach : option attachArgs;
  sa_accepted : bool;
  sa_platformErr : option gerr
}.

(** [startOwnedEngineLocked]: the engine that becomes or stays active, whether
    the platform accepted the configuration, and the error. *)
Definition startOwnedEngineLocked (a : startArgs) : option engine * bool * option gerr :=
  if negb (sa_dnsCache a) then (None, false, Some (EText "DNS cache is required for tunnel start"))
  else if negb (sa_bypass a)
  then (None, false, Some (EText "bypass policy is required for tunnel start"))
  else
    let '(e, attachErr) :=
      match sa_attach a with
      | Some args => attachLocked 0 args newEngine
      | None => (newEngine, None)
      end in
    match attachErr with
    | Some err => (None, false, Some err)
    | None =>
        match sa_platformErr a with
        | Some err =>
            if sa_accepted a then (Some e, true, Some err)
            else
              let flowErr :=
                match proxyWorld e with Some w => wait_result (seal (w_owner w)).1 | None => None end in
              (None, false, join [Some err; flowErr])
        | None => (Some e, true, None)
        end
    end.

Definition ErrEngineBusy : gerr := EText "tun2socks engine is busy".

(** [StartOwnedEngine]: the new process, the handle and the error. *)
Definition StartOwnedEngine (a : startArgs) (p : process) : process * option nat * option gerr :=
  match pr_active p with
  | Some _ => (p, None, Some ErrEngineBusy)
  | None =>
      match startOwnedEngineLocked a with
      | (Some e, _, err) =>
          let id := pr_next p in
          (mkProcess (Some id) (<[id := e]> (pr_engines p)) (S id) (pr_dupFDs p), Some id, err)
      | (None, _, err) => (p, None, err)
      end
  end.

(** [StartOwnedFDEngine] owns a duplicate of the descriptor until the platform
    accepts it; [pr_dupFDs] counts the duplicates this function still owns. *)
Definition StartOwnedFDEngine (dupErr closeErr : option gerr) (a : startArgs) (p : process) :
    process * option nat * option gerr :=
  match pr_active p with
  | Some _ => (p, None, Some ErrEngineBusy)
  | None =>
      if negb (sa_dnsCache a) then
        (p, None, Some (EText "DNS cache is required for tunnel start"))
      else if negb (sa_bypass a) then
        (p, None, Some (EText "bypass policy is required for tunnel start"))
      else match dupErr with
      | Some err => (p, None, Some (EWrap "duplicate TUN descriptor for tun2socks" err))
      | None =>
          let '(_, accepted, startErr) := startOwnedEngineLocked a in
          let '(p', handle, err) := StartOwnedEngine a p in
          match startErr with
          | Some _ =>
              if accepted then (p', handle, err)
              else (mkProcess (pr_active p') (pr_engines p') (pr_next p')
                      (match closeErr with None => pr_dupFDs p' | Some _ => S (pr_dupFDs p') end),
                    None, join [err; closeErr])
          | None => (p', handle, err)
          end
      end
  end.

Inductive processEvent :=
| PStart (a : startArgs)
| PStartFD (dupErr closeErr : option gerr) (a : startArgs)
| PEngine (id : nat) (ev : engineEvent).

Definition process_step (ev : processEvent) (p : process) : option process :=
  match ev with
  | PStart a => Some (StartOwnedEngine a p).1.1
  | PStartFD dupErr closeErr a => Some (StartOwnedFDEngine dupErr closeErr a p).1.1
  | PEngine id ev =>
      match pr_engines p !! id with
      | None => None
      | Some e =>
          let active := bool_decide (pr_active p = Some id) in
          match engine_step active ev e with
          | None => None
          | Some (e, keeps) =>
              Some (mkProcess (if active && negb keeps then None else pr_active p)
                      (<[id := e]> (pr_engines p)) (pr_next p) (pr_dupFDs p))
          end
      end
  end.

Fixpoint process_run (evs : list processEvent) (p : process) : option process :=
  match evs with
  | [] => Some p
  | ev :: evs => match process_step ev p with Some p => process_run evs p | None => None end
  end.
