(* ===== verification/EngineInvariant.v ===== *)
(** * The engine's invariant

    Whatever an engine does, every attempt but the current one is quiet, and an
    operation that reports success has seen the current one quiet too. *)

From S2P Require Import Prelude Errors Flows FlowsInvariant FlowTheorems Engine.

(** ** Sealed owners stay sealed *)

Lemma Close_sealed h reply w :
  Inv w -> fo_closed (w_owner (Close h reply w)) = fo_closed (w_owner w) /\
    fo_pending (w_owner (Close h reply w)) = fo_pending (w_owner w) /\
    fo_epoch (w_owner (Close h reply w)) = fo_epoch (w_owner w).
Proof.
  intros Hinv. destruct (w_handles w !! h) as [hd|] eqn:Hh.
  - destruct (Close_closes h hd reply w) as [hd' Hcl]; [by apply Inv_closable|].
    by rewrite (cl_closed _ _ _ _ _ Hcl), (cl_pending _ _ _ _ _ Hcl), (cl_epoch _ _ _ _ _ Hcl).
  - unfold Close. by rewrite Hh.
Qed.

(** Still sealed, in the same epoch. *)
Definition same_seal (w w' : world) : Prop :=
  fo_closed (w_owner w') = true /\ fo_epoch (w_owner w') = fo_epoch (w_owner w).

Lemma Close_same_seal h reply w :
  Inv w -> fo_closed (w_owner w) = true -> same_seal w (Close h reply w).
Proof. intros Hinv Hc. destruct (Close_sealed h reply w Hinv) as (E1 & _ & E3). split; congruence. Qed.

Lemma dial_step_closed t r w w' :
  Inv w -> dial_step t r w = Some w' -> fo_closed (w_owner w) = true -> same_seal w w'.
Proof.
  intros Hinv Hs Hc. unfold dial_step in Hs. destruct (w_dials w !! t) as [d|] eqn:Ht; [|done].
  pose proof (fun h reply => Close_same_seal h reply w Hinv Hc) as Hclose.
  destruct d as [tcp bypass|bypass|h [|]|s| |h| |h| |h|h|h|h|], r as [| |err|err close|close|close];
    try done; try (injection Hs as <-; try done); try apply Hclose.
  - unfold dial_begin, beginDial. by rewrite Hc.
  - unfold tcp_dialed. by destruct bypass.
  - unfold handshake_done. destruct err; apply Hclose.
  - unfold handshake_done. destruct err; [apply Hclose|]. by destruct (w_handles w !! h).
  - unfold tcp_track, track. cbn. by rewrite Hc.
  - unfold udp_track, track. rewrite Hc. destruct (w_handles w !! h) as [hd|]; [|done].
    by destruct (hd_idleClosed hd).
  - unfold origin_track, track. by rewrite Hc.
  - rewrite Hc in Hs. injection Hs as <-. apply Hclose.
Qed.

(** Expiry of the idle timer is a close, or nothing. *)
Lemma idle_step h hd reply w :
  w_handles w !! h = Some hd -> hd_kind hd = IdleUDP ->
  closeAfterIdleTimeout h hd (socketReply (hd_sock hd) reply w) w = w \/
  closeAfterIdleTimeout h hd (socketReply (hd_sock hd) reply w) w =
    Close h reply w <| w_idleTimeouts ::= (fun n => n + 1)%Z |>.
Proof.
  intros Hh Hk. destruct (hd_idleClosed hd) eqn:Hi; [left|right].
  - unfold closeAfterIdleTimeout. by rewrite Hi.
  - by apply closeAfterIdleTimeout_Close.
Qed.

Lemma flow_step_closed ev w w' :
  Inv w -> flow_step ev w = Some w' -> fo_closed (w_owner w) = true -> same_seal w w'.
Proof.
  intros Hinv Hs Hc. pose proof (fun h reply => Close_same_seal h reply w Hinv Hc) as Hclose.
  destruct ev as [tcp bypass| |t r|h reply|h reply| |reply]; cbn [flow_step] in Hs.
  - by injection Hs as <-.
  - unfold admitOrigin, beginDial in Hs. rewrite Hc in Hs. by injection Hs as <-.
  - by eapply dial_step_closed.
  - destruct (w_handles w !! h) as [hd|]; [|done]. destruct (hd_handed hd); [|done].
    injection Hs as <-. apply Hclose.
  - destruct (w_handles w !! h) as [hd|] eqn:Hh; [|done].
    destruct (bool_decide _) eqn:Hk; [|done]. apply bool_decide_eq_true in Hk. injection Hs as <-.
    destruct (idle_step h hd reply w Hh Hk) as [->| ->]; [done|apply Hclose].
  - cbn [seal] in Hs. by injection Hs as <-.
  - destruct (w_closing w) as [|h rest]; [done|]. injection Hs as <-. apply (Hclose h reply).
Qed.

(** Sealed with nothing pending: it can only get quieter. *)
Definition drained (w : world) : Prop :=
  fo_closed (w_owner w) = true /\ fo_pending (w_owner w) = 0%Z.

Lemma drained_step ev w w' : Inv w -> drained w -> flow_step ev w = Some w' -> drained w'.
Proof.
  intros Hinv [Hc Hp] Hs. split; [by apply (flow_step_closed ev w w' Hinv Hs Hc)|].
  pose proof (fun h reply => proj1 (proj2 (Close_sealed h reply w Hinv))) as Hclose.
  destruct ev as [tcp bypass| |t r|h reply|h reply| |reply]; cbn [flow_step] in Hs.
  - by injection Hs as <-.
  - unfold admitOrigin, beginDial in Hs. rewrite Hc in Hs. by injection Hs as <-.
  - unfold dial_step in Hs. destruct (w_dials w !! t) as [d|] eqn:Ht; [|done].
    destruct (quiet_dials w t d Hinv Hp Ht) as (tcp & bypass & ->). destruct r; try done.
    unfold dial_begin, beginDial in Hs. rewrite Hc in Hs. by injection Hs as <-.
  - destruct (w_handles w !! h) as [hd|]; [|done]. destruct (hd_handed hd); [|done].
    injection Hs as <-. by rewrite Hclose.
  - destruct (w_handles w !! h) as [hd|] eqn:Hh; [|done].
    destruct (bool_decide _) eqn:Hk; [|done]. apply bool_decide_eq_true in Hk. injection Hs as <-.
    destruct (idle_step h hd reply w Hh Hk) as [->| ->]; [done|]. cbn. by rewrite Hclose.
  - cbn [seal] in Hs. by injection Hs as <-.
  - destruct (w_closing w) as [|h rest]; [done|]. injection Hs as <-. cbn. by rewrite Hclose.
Qed.

Lemma quiet_drained w : quiet w -> drained w.
Proof. by intros (? & ? & _). Qed.

Lemma drained_quiet w : drained w -> wait_result (w_owner w) = None -> quiet w.
Proof. intros [Hc Hp] Hr. split; [done|]. split; [done|]. by apply residual_None. Qed.

(** ** One engine *)

Record op_ok (e : engine) (op : engine_op) : Prop := mkOpOk {
  oo_target : sp_target (en_router e) = None;
  oo_sealed : forall w, proxyWorld e = Some w -> fo_closed (w_owner w) = true;
  oo_wait : forall epoch w, phase_of op = Waiting epoch -> proxyWorld e = Some w ->
    fo_epoch (w_owner w) = epoch;
  oo_report : phase_of op = Report -> exists w, proxyWorld e = Some w /\ drained w;
  oo_detach : (exists p, op = OpDetach p) -> is_Some (en_proxy e);
  oo_stop : (exists err p, op = OpStop err p) -> en_stopped e = false
}.

(** [kept] says the handle holds the process's reservation. *)
Record EInv (kept : bool) (e : engine) : Prop := mkEInv {
  ei_worlds : forall id w, en_worlds e !! id = Some w -> Inv w;
  ei_quiet : forall id w, en_worlds e !! id = Some w ->
    en_proxy e <> Some id \/ en_stopped e = true -> quiet w;
  ei_proxy : forall id, en_proxy e = Some id -> is_Some (en_worlds e !! id);
  ei_target : forall id, sp_target (en_router e) = Some id -> en_proxy e = Some id;
  ei_closed : sp_closed (en_router e) = true -> sp_target (en_router e) = None;
  ei_fresh : forall id w, en_worlds e !! id = Some w -> id < en_next e;
  ei_op : forall op, en_op e = Some op -> op_ok e op;
  ei_stopped : en_stopped e = negb kept
}.

Lemma proxyWorld_lookup e w :
  proxyWorld e = Some w -> exists id, en_proxy e = Some id /\ en_worlds e !! id = Some w.
Proof. unfold proxyWorld. destruct (en_proxy e) as [id|]; [|done]. intros H. by exists id. Qed.

(** A step of one world. *)
Lemma EInv_flowStep kept ev id e e' :
  EInv kept e -> flowStep ev id e = Some e' -> EInv kept e'.
Proof.
  intros [Hw Hq Hp Ht Hrc Hf Hop Hst] Hs. unfold flowStep in Hs.
  destruct (en_worlds e !! id) as [w|] eqn:Hid; [|done].
  destruct (flow_step ev w) as [w'|] eqn:Hstep; [|done]. injection Hs as <-.
  pose proof (Hw id w Hid) as Hinv.
  constructor; cbn; try done.
  - intros i x. destruct (decide (i = id)) as [->|Hn].
    + rewrite lookup_insert_eq. intros [= <-]. by eapply Inv_flow_step.
    + rewrite lookup_insert_ne by done. apply Hw.
  - intros i x. destruct (decide (i = id)) as [->|Hn].
    + rewrite lookup_insert_eq. intros [= <-] Hx. eapply quiet_step; [done| |done]. by apply (Hq id).
    + rewrite lookup_insert_ne by done. apply Hq.
  - intros i Hi. destruct (decide (i = id)) as [->|Hn]; [by rewrite lookup_insert_eq|].
    rewrite lookup_insert_ne by done. by apply Hp.
  - intros i x. destruct (decide (i = id)) as [->|Hn]; [intros _; by eapply Hf|].
    rewrite lookup_insert_ne by done. apply Hf.
  - intros op Ho. destruct (Hop op Ho) as [O1 O2 Ow O3 O4 O5].
    assert (forall w1, proxyWorld (e <| en_worlds ::= insert id w' |>) = Some w1 ->
      proxyWorld e = Some w1 \/ (proxyWorld e = Some w /\ w1 = w')) as Hpw.
    { unfold proxyWorld. cbn. destruct (en_proxy e) as [i|]; [|done]. intros w1.
      destruct (decide (i = id)) as [->|Hn].
      - rewrite lookup_insert_eq. intros [= <-]. by right.
      - rewrite lookup_insert_ne by done. by left. }
    constructor; cbn; try done.
    + intros w1 [Hw1|[Hw1 ->]]%Hpw; [by apply O2|].
      by apply (flow_step_closed ev w w' Hinv Hstep), O2.
    + intros epoch w1 Hph [Hw1|[Hw1 ->]]%Hpw; [by apply (Ow epoch)|].
      rewrite (proj2 (flow_step_closed ev w w' Hinv Hstep (O2 w Hw1))). by apply Ow.
    + intros Hph. destruct (O3 Hph) as (w0 & Hw0 & Hd).
      destruct (proxyWorld_lookup e w0 Hw0) as (i & Hi & Hl). unfold proxyWorld. cbn. rewrite Hi.
      destruct (decide (i = id)) as [->|Hn].
      * exists w'. rewrite lookup_insert_eq. split; [done|]. rewrite Hid in Hl. injection Hl as <-.
        by eapply drained_step.
      * exists w0. by rewrite lookup_insert_ne.
Qed.

(** The lock holder returns without touching the attempt. *)
Lemma EInv_returns kept err e : EInv kept e -> EInv kept (returns err e).
Proof. intros []. by constructor. Qed.

Lemma EInv_attachLocked generation a e e' err :
  EInv true e -> en_proxy e = None -> en_op e = None ->
  attachLocked generation a e = (e', err) -> EInv true e'.
Proof.
  intros Hinv Hp Hop. pose proof Hinv as [Hw Hq Hpr Ht Hrc Hf _ Hst]. unfold attachLocked.
  destruct (at_ctxErr a); [by intros [= <- <-]|]. destruct (_ || _); [by intros [= <- <-]|].
  destruct (at_parseErr a); [by intros [= <- <-]|]. destruct (at_socksErr a); [by intros [= <- <-]|].
  intros [= <- <-]. constructor; cbn; try done.
  - intros i x. destruct (decide (i = en_next e)) as [->|Hn].
    + rewrite lookup_insert_eq. intros [= <-]. apply Inv_new.
    + rewrite lookup_insert_ne by done. apply Hw.
  - intros i x. destruct (decide (i = en_next e)) as [->|Hn].
    + intros _ [Hx|Hx]; [done|]. by rewrite Hst in Hx.
    + rewrite lookup_insert_ne by done. intros Hx _. apply (Hq i x Hx). left. by rewrite Hp.
  - intros i [= <-]. by rewrite lookup_insert_eq.
  - intros i. unfold sp_set. destruct (sp_closed (en_router e)) eqn:Hc; cbn; [|done].
    intros Hi. specialize (Ht i Hi). congruence.
  - unfold sp_set. destruct (sp_closed (en_router e)) eqn:Hc; cbn; [intros _; by apply Hrc|done].
  - intros i x. destruct (decide (i = en_next e)) as [->|Hn]; [lia|].
    rewrite lookup_insert_ne by done. intros Hx%Hf. lia.
  - intros op Ho. congruence.
Qed.

Lemma EInv_Attach kept generation a e :
  EInv kept e -> en_op e = None -> EInv kept (Attach generation a e).
Proof.
  intros Hinv Hop. unfold Attach. destruct (en_stopped e) eqn:Hst; [by apply EInv_returns|].
  destruct (en_proxy e) eqn:Hp; [by apply EInv_returns|].
  assert (kept = true) as -> by (pose proof (ei_stopped _ _ Hinv) as H; destruct kept; cbn in H; congruence).
  destruct (attachLocked generation a e) as [e' err] eqn:Ha. apply EInv_returns.
  by eapply EInv_attachLocked.
Qed.

(** Sealing the current attempt behind a router that points nowhere. *)
Lemma EInv_seal_op kept e op :
  EInv kept e -> sp_target (en_router e) = None -> en_op e = None -> phase_of op = Closing ->
  ((exists p, op = OpDetach p) -> is_Some (en_proxy e)) ->
  ((exists err p, op = OpStop err p) -> en_stopped e = false) ->
  EInv kept (sealProxy e <| en_op := Some op |>).
Proof.
  intros Hinv Ht Hno Hph Hdet Hst.
  assert (EInv kept (sealProxy e)) as Hinv'.
  { unfold sealProxy. destruct (en_proxy e) as [id|]; [|done].
    destruct (flowStep FSeal id e) eqn:Hs; [|done]. by eapply EInv_flowStep. }
  assert (en_router (sealProxy e) = en_router e /\ en_proxy (sealProxy e) = en_proxy e /\
    en_stopped (sealProxy e) = en_stopped e) as (E1 & E2 & E3).
  { unfold sealProxy, flowStep. destruct (en_proxy e) as [id|] eqn:Hp; [|done].
    destruct (en_worlds e !! id); [|done]. destruct (flow_step FSeal w); [|done]. by cbn. }
  destruct Hinv' as [Hw Hq Hpr Htg Hrc Hf _ Hs']. constructor; cbn; try done.
  intros op' [= <-]. constructor; cbn.
  - by rewrite E1.
  - intros w Hpw. change (proxyWorld (sealProxy e) = Some w) in Hpw. revert Hpw.
    unfold sealProxy. destruct (en_proxy e) as [id|] eqn:Hp; [|unfold proxyWorld; by rewrite Hp].
    destruct (ei_proxy _ _ Hinv id Hp) as [w0 Hw0]. unfold flowStep. rewrite Hw0. cbn.
    unfold proxyWorld. cbn. rewrite Hp, lookup_insert_eq. by intros [= <-].
  - congruence.
  - congruence.
  - intros Hd. rewrite E2. by apply Hdet.
  - intros Hd. rewrite E3. by apply Hst.
Qed.

Lemma EInv_router kept e p :
  EInv kept e -> en_op e = None -> sp_target p = None -> EInv kept (e <| en_router := p |>).
Proof.
  intros [] Hop Hp. constructor; cbn; try done.
  - intros id Hid. congruence.
  - intros op Ho. congruence.
Qed.

Lemma sp_set_None p :
  (sp_closed p = true -> sp_target p = None) -> sp_target (sp_set None p) = None.
Proof. unfold sp_set. intros Hc. destruct (sp_closed p); [by apply Hc|done]. Qed.

Lemma sp_close_None p :
  (sp_closed p = true -> sp_target p = None) -> sp_target (sp_close p) = None.
Proof. unfold sp_close. intros Hc. destruct (sp_closed p) eqn:E; [by apply Hc|done]. Qed.

Lemma EInv_detach_begin kept generation e :
  EInv kept e -> en_op e = None -> EInv kept (detach_begin generation e).
Proof.
  intros Hinv Hop. unfold detach_begin. destruct (negb _); [by apply EInv_returns|].
  destruct (en_proxy e) as [id|] eqn:Hp; [|by apply EInv_returns].
  assert (sp_target (sp_set None (en_router e)) = None) as Ht
    by (apply sp_set_None, (ei_closed _ _ Hinv)).
  apply EInv_seal_op;
    [by apply (EInv_router kept e (sp_set None (en_router e)))|exact Ht|exact Hop|done| |].
  - intros _. cbn. rewrite Hp. by eexists.
  - by intros (err & p & ?).
Qed.

Lemma EInv_stop_begin active e :
  EInv active e -> en_op e = None -> EInv active (stop_begin active e).
Proof.
  intros Hinv Hop. unfold stop_begin. destruct (en_stopped e) eqn:Hst; [by apply EInv_returns|].
  destruct active; [|by apply EInv_returns]. cbn [negb].
  assert (sp_target (sp_close (en_router e)) = None) as Ht
    by (apply sp_close_None, (ei_closed _ _ Hinv)).
  apply EInv_seal_op;
    [by apply (EInv_router true e (sp_close (en_router e)))|exact Ht|exact Hop|done| |].
  - by intros [p ?].
  - done.
Qed.

(** Moving the operation to another phase. *)
Lemma EInv_phase kept e op op' :
  EInv kept e -> en_op e = Some op -> (exists p, op' = at_phase op p) \/
    (exists err err' p p', op = OpStop err p /\ op' = OpStop err' p') ->
  (phase_of op' = Report -> exists w, proxyWorld e = Some w /\ drained w) ->
  (forall epoch w, phase_of op' = Waiting epoch -> proxyWorld e = Some w ->
     fo_epoch (w_owner w) = epoch) ->
  EInv kept (e <| en_op := Some op' |>).
Proof.
  intros Hinv Hop Hsame Hrep Hwait. pose proof Hinv as [Hw Hq Hp Ht Hrc Hf Ho Hst].
  destruct (Ho op Hop) as [O1 O2 Ow O3 O4 O5]. constructor; cbn; try done.
  intros op1 [= <-]. constructor; try done.
  - intros [p ->]. apply O4. destruct Hsame as [[q Hq']|(? & ? & ? & ? & _ & ?)]; [|done].
    destruct op; [by eexists|done].
  - intros (err & p & ->). apply O5. destruct Hsame as [[q Hq']|(? & ? & ? & ? & -> & ?)];
      [|by eexists _, _]. destruct op; [done|by eexists _, _].
Qed.

Lemma EInv_finish_err kept op err e :
  EInv kept e -> en_op e = Some op -> EInv (kept && (finish op (Some err) e).2) (finish op (Some err) e).1.
Proof.
  intros Hinv Hop. destruct op as [p|platformErr p]; cbn.
  - rewrite andb_true_r. by apply EInv_returns.
  - unfold stop_finish, join. destruct (omap id [platformErr; Some err]) eqn:E;
      [by destruct platformErr|]. cbn. rewrite andb_true_r.
    apply EInv_returns. destruct Hinv. constructor; try done.
    intros op Ho. destruct (ei_op0 op Ho). by constructor.
Qed.

(** The operation has seen the current attempt quiet, or there is none. *)
Lemma EInv_finish_ok kept op e :
  EInv kept e -> en_op e = Some op -> (forall w, proxyWorld e = Some w -> quiet w) ->
  EInv (kept && (finish op None e).2) (finish op None e).1.
Proof.
  intros Hinv Hop Hquiet. pose proof Hinv as [Hw Hq Hp Ht Hrc Hf Ho Hst].
  destruct (Ho op Hop) as [O1 O2 Ow O3 O4 O5].
  assert (forall id w, en_worlds e !! id = Some w -> quiet w) as Hall.
  { intros id w Hid. destruct (decide (en_proxy e = Some id)) as [Hpe|Hne].
    - apply Hquiet. unfold proxyWorld. by rewrite Hpe.
    - apply (Hq id w Hid). by left. }
  assert (forall kept' e', (kept' = kept \/ kept' = false /\ en_stopped e' = true) ->
    en_worlds e' = en_worlds e -> en_router e' = en_router e -> en_next e' = en_next e ->
    en_op e' = None -> en_stopped e' = negb kept' -> (en_proxy e' = en_proxy e \/ en_proxy e' = None) ->
    EInv kept' e') as Hdone.
  { intros kept' e' _ E1 E2 E3 E4 E5 E6. constructor; rewrite ?E1, ?E2, ?E3; try done.
    - intros id w Hid _. by apply (Hall id).
    - intros id Hid. destruct E6 as [E6|E6]; rewrite E6 in Hid; [by apply Hp|done].
    - intros id Hid. by rewrite O1 in Hid.
    - intros op' Hop'. by rewrite E4 in Hop'. }
  destruct op as [p|platformErr p]; cbn.
  - rewrite andb_true_r. apply Hdone; cbn; try done; [by left|by right].
  - unfold stop_finish. destruct (join [platformErr; None]) eqn:Hj; cbn.
    + rewrite andb_true_r. apply Hdone; cbn; try done; by left.
    + rewrite andb_false_r. apply Hdone; cbn; try done; [by right|by left].
Qed.

Lemma phase_of_at op p : phase_of (at_phase op p) = p.
Proof. by destruct op. Qed.

Lemma EInv_enter_wait kept op e :
  EInv kept e -> en_op e = Some op -> EInv (kept && (enter_wait op e).2) (enter_wait op e).1.
Proof.
  intros Hinv Hop. unfold enter_wait. destruct (proxyWorld e) as [w|] eqn:Hpw.
  2: { apply EInv_finish_ok; [done|done|]. congruence. }
  pose proof (oo_sealed _ _ (ei_op _ _ Hinv op Hop) w Hpw) as Hc.
  unfold wait_begin. destruct (Z.eqb_spec (fo_pending (w_owner w)) 0) as [Hp|Hp];
    cbn [negb fst snd]; rewrite andb_true_r;
    (eapply EInv_phase; [done|done|by left; eexists| |]); rewrite phase_of_at; try done.
  - intros _. by exists w.
  - intros epoch w' [= <-]. rewrite Hpw. by intros [= <-].
Qed.

Lemma enter_wait_op op op0 e :
  enter_wait op (e <| en_op := Some op0 |>) = enter_wait op e.
Proof.
  unfold enter_wait. change (proxyWorld (e <| en_op := Some op0 |>)) with (proxyWorld e).
  destruct (proxyWorld e) as [w|]; [by destruct (wait_begin (w_owner w))|].
  destruct op; cbn; [done|]. unfold stop_finish. by destruct (join _).
Qed.

Lemma EInv_op_step kept r e e' keeps :
  EInv kept e -> op_step r e = Some (e', keeps) -> EInv (kept && keeps) e'.
Proof.
  intros Hinv. unfold op_step. destruct (en_op e) as [op|] eqn:Hop; [|done].
  pose proof (ei_op _ _ Hinv op Hop) as [O1 O2 Ow O3 O4 O5].
  destruct (phase_of op) as [| |epoch|] eqn:Hph, r as [|err|ctxErr]; try done.
  - case_bool_decide; [|done]. destruct op as [p|err p].
    + intros [= He]. pose proof (EInv_enter_wait kept _ e Hinv Hop) as H'. by rewrite He in H'.
    + intros [= <- <-]. rewrite andb_true_r. by eapply EInv_phase; [done|done|left; exists Platform|..].
  - destruct op as [p|err0 p].
    { done. }
    intros [= He]. rewrite <- (enter_wait_op _ (OpStop err Platform)) in He.
    assert (EInv kept (e <| en_op := Some (OpStop err Platform) |>)) as Hinv'.
    { by eapply EInv_phase; [done|done|right; eexists _, _, _, _|..]. }
    pose proof (EInv_enter_wait kept _ _ Hinv' eq_refl) as H'. by rewrite He in H'.
  - destruct (proxyWorld e) as [w|] eqn:Hpw; [|done]. destruct (settled epoch (w_owner w)) eqn:Hs; [|done].
    intros [= <- <-]. rewrite andb_true_r.
    eapply EInv_phase; [done|done|by left; eexists| |]; rewrite phase_of_at; [|done].
    intros _. exists w. split; [done|]. split; [by apply O2|].
    unfold settled in Hs. rewrite (Ow epoch w eq_refl eq_refl) in Hs.
    rewrite (proj2 (Nat.ltb_ge epoch epoch)) in Hs by lia. by apply Z.eqb_eq in Hs.
  - destruct (proxyWorld e) as [w|] eqn:Hpw; [|done].
    unfold wait_deadline. destruct (Z.eqb_spec (fo_pending (w_owner w)) 0) as [Hp|Hp]; cbn [negb].
    + intros [= <- <-]. rewrite andb_true_r.
      eapply EInv_phase; [done|done|by left; eexists| |]; rewrite phase_of_at; [|done].
      intros _. exists w. split; [done|]. split; [by apply O2|done].
    + destruct (join _) as [err|] eqn:Hj; [|by apply join_None in Hj; inversion Hj as [|? ? _ Hj2]; inversion Hj2].
      intros [= He]. pose proof (EInv_finish_err kept op err e Hinv Hop) as H'. by rewrite He in H'.
  - destruct (proxyWorld e) as [w|] eqn:Hpw; [|done]. intros [= He].
    destruct (O3 eq_refl) as (w' & Hw' & Hd). injection Hw' as <-.
    destruct (wait_result (w_owner w)) as [err|] eqn:Hr.
    + pose proof (EInv_finish_err kept op err e Hinv Hop) as H'. by rewrite He in H'.
    + assert (forall w0, proxyWorld e = Some w0 -> quiet w0) as Hq.
      { intros w0. rewrite Hpw. intros [= <-]. by apply drained_quiet. }
      pose proof (EInv_finish_ok kept op e Hinv Hop Hq) as H'. by rewrite He in H'.
Qed.

Lemma EInv_step active ev e e' active' :
  EInv active e -> engine_step active ev e = Some (e', active') -> EInv active' e'.
Proof.
  intros Hinv. unfold engine_step.
  assert (forall ev id, option_map (fun e => (e, active)) (flowStep ev id e) = Some (e', active') ->
    EInv active' e') as Hflow.
  { intros ev0 id. destruct (flowStep ev0 id e) eqn:Hs; [|done]. intros [= <- <-].
    by eapply EInv_flowStep. }
  destruct ev as [generation a|generation| |r|reply|tcp bypass| |id ev].
  - case_bool_decide; [|done]. intros [= <- <-]. by apply EInv_Attach.
  - case_bool_decide; [|done]. intros [= <- <-]. by apply EInv_detach_begin.
  - case_bool_decide; [|done]. intros [= <- <-]. by apply EInv_stop_begin.
  - destruct (op_step r e) as [[e1 keeps]|] eqn:Hs; [|done]. intros [= <- <-]. by eapply EInv_op_step.
  - destruct (en_op e) as [op|]; [|done]. destruct (en_proxy e) as [id|]; [|done].
    case_match; [|done]. apply Hflow.
  - case_match; [|done..]. apply Hflow.
  - destruct (routeUDP (en_router e)); [|done]. apply Hflow.
  - destruct (free_flow ev); [|done]. apply Hflow.
Qed.

(** A handle without the reservation never regains it. *)
Lemma inactive_stays ev e e' active' :
  engine_step false ev e = Some (e', active') -> active' = false.
Proof.
  unfold engine_step. intros H. repeat (case_match; try discriminate H); try by injection H.
  all: unfold option_map in H; repeat (case_match; try discriminate H); by injection H.
Qed.

(** How an operation ends. *)
Lemma enter_wait_returns op e e' keeps :
  enter_wait op e = (e', keeps) -> en_op e' = None -> finish op None e = (e', keeps).
Proof.
  unfold enter_wait. destruct (proxyWorld e) as [w|]; [|done].
  destruct (wait_begin (w_owner w)); by intros [= <- <-].
Qed.

Lemma op_step_returns r e op e' keeps :
  en_op e = Some op -> op_step r e = Some (e', keeps) -> en_op e' = None ->
  exists err, match op with
  | OpDetach _ => e' = detach_finish err e /\ keeps = true
  | OpStop _ _ => exists platformErr', stop_finish platformErr' err e = (e', keeps)
  end.
Proof.
  intros Hop Hstep Hend. unfold op_step in Hstep. rewrite Hop in Hstep.
  assert (forall err op', finish op' err e = (e', keeps) ->
    match op, op' with OpDetach _, OpDetach _ | OpStop _ _, OpStop _ _ => True | _, _ => False end ->
    exists err, match op with
    | OpDetach _ => e' = detach_finish err e /\ keeps = true
    | OpStop _ _ => exists platformErr', stop_finish platformErr' err e = (e', keeps)
    end) as Hfin.
  { intros err op' Hf Hsame. exists err. destruct op, op'; try done; cbn in Hf; [by injection Hf|by eexists]. }
  destruct (phase_of op), r; try done.
  - case_bool_decide; [|done]. destruct op as [p|perr p]; [|by injection Hstep as <- _].
    injection Hstep as Hs. apply enter_wait_returns in Hs; [|done]. by eapply Hfin.
  - destruct op as [p|perr p]; [done|]. injection Hstep as Hs. apply enter_wait_returns in Hs; [|done].
    by eapply Hfin.
  - destruct (proxyWorld e); [|done]. destruct (settled _ _); [|done]. by injection Hstep as <- _.
  - destruct (proxyWorld e); [|done]. destruct (wait_deadline _ _); [|by injection Hstep as <- _].
    injection Hstep as Hs. eapply Hfin; [done|]. by destruct op.
  - destruct (proxyWorld e); [|done]. injection Hstep as Hs. eapply Hfin; [done|]. by destruct op.
Qed.
