(* ===== verification/EngineTheorems.v ===== *)
(** * What the engine promises the runtime

    One engine per process and one attempt per engine own sockets; a detach or
    a stop that reports success has closed them all, one that fails keeps what
    it owns and can be retried. *)

From S2P Require Import Prelude Errors Flows FlowsInvariant FlowTheorems Engine EngineInvariant.

Record PInv (p : process) : Prop := mkPInv {
  pi_engines : forall id e, pr_engines p !! id = Some e ->
    EInv (bool_decide (pr_active p = Some id)) e;
  pi_fresh : forall id e, pr_engines p !! id = Some e -> id < pr_next p
}.

Lemma EInv_new : EInv true newEngine.
Proof. constructor; cbn; done. Qed.

Lemma PInv_new : PInv newProcess.
Proof. constructor; cbn; done. Qed.

Lemma EInv_started a e accepted err :
  startOwnedEngineLocked a = (Some e, accepted, err) -> EInv true e.
Proof.
  unfold startOwnedEngineLocked. destruct (negb (sa_dnsCache a)); [done|].
  destruct (negb (sa_bypass a)); [done|].
  assert (forall e0 err0, match sa_attach a with
    | Some args => attachLocked 0 args newEngine | None => (newEngine, None) end = (e0, err0) ->
    EInv true e0) as H.
  { intros e0 err0. destruct (sa_attach a) as [args|].
    - by apply EInv_attachLocked; [apply EInv_new|..].
    - intros [= <- <-]. apply EInv_new. }
  destruct (match sa_attach a with Some _ => _ | None => _ end) as [e0 [err0|]]; [done|].
  specialize (H e0 None eq_refl). destruct (sa_platformErr a), (sa_accepted a); intros [= <- _ _]; done.
Qed.

Lemma PInv_start a p : PInv p -> PInv (StartOwnedEngine a p).1.1.
Proof.
  intros Hp. pose proof Hp as [He Hf]. unfold StartOwnedEngine. destruct (pr_active p) as [act|] eqn:Ha; [done|].
  destruct (startOwnedEngineLocked a) as [[[e|] accepted] err] eqn:Hs; [|done].
  apply EInv_started in Hs. constructor; cbn.
  - intros id x. destruct (decide (id = pr_next p)) as [->|Hn].
    + rewrite lookup_insert_eq. intros [= <-]. by rewrite bool_decide_eq_true_2.
    + rewrite lookup_insert_ne by done. intros Hx. specialize (He id x Hx).
      rewrite bool_decide_eq_false_2 in He by done.
      rewrite bool_decide_eq_false_2 by congruence. done.
  - intros id x. destruct (decide (id = pr_next p)) as [->|Hn]; [lia|].
    rewrite lookup_insert_ne by done. intros Hx%Hf. lia.
Qed.

Lemma PInv_dups n p :
  PInv p -> PInv (mkProcess (pr_active p) (pr_engines p) (pr_next p) n).
Proof. intros []. by constructor. Qed.

Lemma PInv_startFD dupErr closeErr a p : PInv p -> PInv (StartOwnedFDEngine dupErr closeErr a p).1.1.
Proof.
  intros Hp. unfold StartOwnedFDEngine. destruct (pr_active p) eqn:Ha; [done|].
  destruct (negb (sa_dnsCache a)); [done|]. destruct (negb (sa_bypass a)); [done|].
  destruct dupErr; [done|]. pose proof (PInv_start a p Hp) as Hs.
  destruct (startOwnedEngineLocked a) as [[h acc] [se|]]; destruct (StartOwnedEngine a p) as [[p' h'] e'];
    [|done]. destruct acc; [done|]. by apply (PInv_dups _ p').
Qed.

Lemma PInv_step ev p p' : PInv p -> process_step ev p = Some p' -> PInv p'.
Proof.
  intros Hp. destruct ev as [a|d c a|id ev]; cbn [process_step].
  - intros [= <-]. by apply PInv_start.
  - intros [= <-]. by apply PInv_startFD.
  - destruct (pr_engines p !! id) as [e|] eqn:He; [|done].
    destruct (engine_step _ ev e) as [[e' keeps]|] eqn:Hs; [|done]. intros [= <-].
    destruct Hp as [Hall Hf]. pose proof (EInv_step _ _ _ _ _ (Hall id e He) Hs) as He'.
    assert (bool_decide (pr_active p = Some id) = false -> keeps = false) as Hkeep.
    { intros Hb. rewrite Hb in Hs. by apply (inactive_stays ev e e'). }
    constructor; cbn.
    + intros i x. destruct (decide (i = id)) as [->|Hn].
      * rewrite lookup_insert_eq. intros [= <-].
        replace (bool_decide _) with keeps; [done|].
        destruct (bool_decide (pr_active p = Some id)) eqn:Hb.
        -- destruct keeps; cbn; [by rewrite Hb|by rewrite bool_decide_eq_false_2].
        -- cbn. by rewrite Hb, Hkeep.
      * rewrite lookup_insert_ne by done. intros Hx. specialize (Hall i x Hx).
        destruct (bool_decide (pr_active p = Some id)) eqn:Hb; cbn; [|done].
        destruct keeps; cbn; [done|]. apply bool_decide_eq_true in Hb.
        rewrite bool_decide_eq_false_2 in Hall by congruence. by rewrite bool_decide_eq_false_2.
    + intros i x. destruct (decide (i = id)) as [->|Hn]; [intros _; by eapply Hf|].
      rewrite lookup_insert_ne by done. apply Hf.
Qed.

Lemma PInv_run evs p p' : PInv p -> process_run evs p = Some p' -> PInv p'.
Proof.
  revert p. induction evs as [|ev evs IH]; intros p Hp; cbn; [by intros [= <-]|].
  destruct (process_step ev p) eqn:Hs; [|done]. apply IH. by eapply PInv_step.
Qed.

#[export] Hint Resolve PInv_new PInv_run : dobby.

(** at every moment, in every interleaving of starts, attaches, detaches,
    stops and dialing goroutines, a socket is open only on behalf of the
    current attempt of the one active engine, and a router that has a target
    points to its engine's current attempt. *)
Theorem one_attempt_owns_the_sockets evs p eid e id w :
  process_run evs newProcess = Some p ->
  pr_engines p !! eid = Some e -> en_worlds e !! id = Some w ->
  (w_open w <> ∅ -> pr_active p = Some eid /\ en_stopped e = false /\ en_proxy e = Some id) /\
  (sp_target (en_router e) = Some id -> en_proxy e = Some id).
Proof.
  intros Hp He Hw. assert (PInv p) as [Hall _] by eauto with dobby.
  pose proof (Hall eid e He) as Hinv. split; [|apply (ei_target _ _ Hinv)].
  intros Ho. assert (~ quiet w) as Hnq.
  { intros Hq. by apply Ho, quiet_open; [apply (ei_worlds _ _ Hinv id)|]. }
  pose proof (ei_stopped _ _ Hinv) as Hst. pose proof (ei_quiet _ _ Hinv id w Hw) as Hq.
  destruct (bool_decide (pr_active p = Some eid)) eqn:Hb.
  - apply bool_decide_eq_true in Hb. split_and!; [done|by rewrite Hst|].
    destruct (decide (en_proxy e = Some id)); [done|]. exfalso. apply Hnq, Hq. by left.
  - exfalso. apply Hnq, Hq. right. by rewrite Hst.
Qed.

(** C16: a detach or a stop that returns success has closed every socket of
    every attempt of its engine, and the counters of active flows are zero;
    one that returns an error keeps the attempt and the process's reservation,
    so that no other engine can start and the cleanup can be retried. *)
Theorem engine_cleanup_is_all_or_nothing evs p eid e op r e' keeps :
  process_run evs newProcess = Some p -> pr_engines p !! eid = Some e ->
  en_op e = Some op -> op_step r e = Some (e', keeps) -> en_op e' = None ->
  match en_returned e' with
  | None =>
      (forall id w, en_worlds e' !! id = Some w ->
        w_open w = ∅ /\ w_activeTCP w = 0%Z /\ w_activeUDP w = 0%Z) /\
      match op with
      | OpDetach _ => en_proxy e' = None
      | OpStop _ _ => en_stopped e' = true /\ keeps = false
      end
  | Some _ => en_proxy e' = en_proxy e /\ keeps = true /\ en_stopped e' = en_stopped e
  end.
Proof.
  intros Hp He Hop Hstep Hend. assert (PInv p) as [Hall _] by eauto with dobby.
  pose proof (Hall eid e He) as Hinv. pose proof (EInv_op_step _ _ _ _ _ Hinv Hstep) as Hinv'.
  destruct (op_step_returns r e op e' keeps Hop Hstep Hend) as (err & Hfin).
  assert ((en_proxy e' = None \/ en_stopped e' = true) -> forall id w, en_worlds e' !! id = Some w ->
    w_open w = ∅ /\ w_activeTCP w = 0%Z /\ w_activeUDP w = 0%Z) as Hclean.
  { intros Hd id w Hw. assert (quiet w) as Hq.
    { apply (ei_quiet _ _ Hinv' id w Hw). destruct Hd as [Hd|Hd]; [left; congruence|by right]. }
    pose proof (ei_worlds _ _ Hinv' id w Hw) as Hi.
    split; [by apply quiet_open|by apply quiet_counters]. }
  destruct op as [ph|platformErr ph].
  - destruct Hfin as [-> ->]. destruct err as [err|]; cbn in *; [done|]. split; [|done].
    apply Hclean. by left.
  - destruct Hfin as (platformErr' & Hfin). unfold stop_finish in Hfin.
    destruct (join [platformErr'; err]) as [err'|]; injection Hfin as <- <-; cbn in *; [done|].
    split; [|done]. apply Hclean. by right.
Qed.

(** ** A concrete process *)

Definition attachable : attachArgs := mkAttachArgs None true true None None.
Definition goodStart : startArgs := mkStartArgs true true None true None.

(** An attempt connects; it is detached while a close fails, retried, and the
    engine is stopped. *)
Definition tunnelHistory : list processEvent :=
  PStartFD None None goodStart ::
  map (PEngine 0)
    [EvAttach 7 attachable; EvDial true true; EvFlow 0 (FStep 0 RNothing);
     EvFlow 0 (FStep 0 RDialed); EvFlow 0 (FStep 0 RNothing); EvFlow 0 (FStep 0 RNothing);
     EvDetach 7; EvCloseOwned (Some (EText "close failed")); EvOp EStep; EvOp EStep;
     EvStop; EvCloseOwned None; EvOp EStep; EvOp (EPlatform None); EvOp EStep].

Definition processAfter (n : nat) : process :=
  match process_run (take n tunnelHistory) newProcess with Some p => p | None => newProcess end.

Definition engineAfter (n : nat) : engine :=
  match pr_engines (processAfter n) !! 0 with Some e => e | None => newEngine end.

Definition worldAfter (n : nat) : world :=
  match en_worlds (engineAfter n) !! 0 with Some w => w | None => newWorld end.

Lemma one_attempt_witness : en_proxy (engineAfter 7) = Some 0.
Proof.
  destruct (one_attempt_owns_the_sockets (take 7 tunnelHistory) (processAfter 7) 0 (engineAfter 7) 0
    (worldAfter 7)) as [H _]; [vm_compute; reflexivity|vm_compute; reflexivity
    |vm_compute; reflexivity|].
  apply H. intros Ho. assert (bool_decide (1 ∈ w_open (worldAfter 7)) = true) as Hin by (vm_compute; reflexivity).
  apply bool_decide_eq_true in Hin. rewrite Ho in Hin. by apply not_elem_of_empty in Hin.
Defined.

Lemma engine_cleanup_witness : en_stopped (engineAfter 16) = true.
Proof.
  assert (op_step EStep (engineAfter 15) = Some (engineAfter 16, false)) as Hs by (vm_compute; reflexivity).
  pose proof (engine_cleanup_is_all_or_nothing (take 15 tunnelHistory) (processAfter 15) 0 (engineAfter 15)
    (OpStop None Report) EStep (engineAfter 16) false ltac:(vm_compute; reflexivity)
    ltac:(vm_compute; reflexivity) ltac:(vm_compute; reflexivity) Hs ltac:(vm_compute; reflexivity)) as H.
  assert (en_returned (engineAfter 16) = None) as Hr by (vm_compute; reflexivity).
  rewrite Hr in H. exact (proj1 (proj2 H)).
Defined.
