(* ===== verification/Runtime.v ===== *)
(** * The session runtime (core/sessionapi/runtime/lifecycle.go)

    One network owner and one protocol attempt at a time, each with a lease
    whose undo stack holds what has been acquired.  [r.mu] serialises
    [PrepareNetwork] and [Start]; a lease's [Stop] runs under its own lock and
    calls back into the runtime when it is done.  What the platform, the
    device factory and the core answer are arguments; every acquisition and
    every release is recorded in [rt_trace]. *)

From S2P Require Import Prelude Errors Values Session Bypass.
Local Open Scope string_scope.
Local Open Scope list_scope.

(** ** Leases *)

(** The functions pushed on an undo stack, named by what they release. *)
Inductive closer :=
| ReleaseTun
| CoreDisconnect
| ScopeClose
| DeviceClose
| CoreDetach (generation : Z).

#[export] Instance closer_eq_dec : EqDecision closer.
Proof. solve_decision. Defined.

Inductive doneAction := NoAction | ClearNetwork | ReleaseActive.

#[export] Instance doneAction_eq_dec : EqDecision doneAction.
Proof. solve_decision. Defined.

(** [ls_undo] has the entry that is released next first; [ls_monitor] says a
    health monitor was started, [ls_canceled] that it was told to stop. *)
Record lease := mkLease {
  ls_undo : list closer;
  ls_stopped : bool;
  ls_onDone : doneAction;
  ls_monitor : bool;
  ls_canceled : bool
}.
#[export] Instance eta_lease : Settable lease :=
  fun x => mkLease (ls_undo x) (ls_stopped x) (ls_onDone x) (ls_monitor x) (ls_canceled x).

Definition newLease : lease := mkLease [] false NoAction false false.

Inductive rcall :=
| Acquired (l : nat) (c : closer)
| Closed (l : nat) (c : closer) (err : option gerr).

(** [nw_core] says that the core is not nil: a preparation that failed before
    [NewCore] leaves a network without one. *)
Record networkOwner := mkNetworkOwner { nw_ref : SessionRef; nw_lease : nat; nw_core : bool }.

(** [rt_panicked]: a goroutine panicked and the process ended. *)
Record runtime := mkRuntime {
  rt_active : bool;
  rt_network : option networkOwner;
  rt_leases : gmap nat lease;
  rt_next : nat;
  rt_trace : list rcall;
  rt_panicked : bool
}.
#[export] Instance eta_runtime : Settable runtime :=
  fun x => mkRuntime (rt_active x) (rt_network x) (rt_leases x) (rt_next x) (rt_trace x) (rt_panicked x).

Definition newRuntime : runtime := mkRuntime false None ∅ 0 [] false.

(** ** Stopping a lease *)

(** Run the entries from the top; stop at the first that fails. *)
Fixpoint unwindLease (l : nat) (close : closer -> option gerr) (undo : list closer) :
    list closer * list rcall * option gerr :=
  match undo with
  | [] => ([], [], None)
  | c :: rest =>
      match close c with
      | Some err => (c :: rest, [Closed l c (Some err)], Some err)
      | None =>
          let '(kept, calls, err) := unwindLease l close rest in
          (kept, Closed l c None :: calls, err)
      end
  end.

(** What the environment does during one [Stop]: the context may end before
    the health monitor has, and every entry answers. *)
Record stopEnv := mkStopEnv {
  se_healthWait : option gerr;
  se_close : closer -> option gerr
}.

Definition runDone (l : nat) (a : doneAction) (r : runtime) : runtime :=
  match a with
  | NoAction => r
  | ClearNetwork =>
      if match rt_network r with Some n => bool_decide (nw_lease n = l) | None => false end
      then r <| rt_network := None |> else r
  | ReleaseActive => r <| rt_active := false |>
  end.

Definition setLease (l : nat) (x : lease) (r : runtime) : runtime :=
  r <| rt_leases ::= insert l x |>.

Definition record (calls : list rcall) (r : runtime) : runtime := r <| rt_trace ::= (fun t => t ++ calls) |>.

(** [lease.Stop]. [held] says the caller holds [r.mu]: the callback would then
    wait for itself, and the result is [None]. *)
Definition Stop (held : bool) (env : stopEnv) (l : nat) (r : runtime) :
    option (runtime * option gerr) :=
  match rt_leases r !! l with
  | None => Some (r, None)
  | Some x =>
      if ls_stopped x then Some (r, None)
      else
        let x := if ls_monitor x then x <| ls_canceled := true |> else x in
        match (if ls_monitor x then se_healthWait env else None) with
        | Some err => Some (setLease l x r, Some err)
        | None =>
            let '(kept, calls, err) := unwindLease l (se_close env) (ls_undo x) in
            let x := x <| ls_undo := kept |> in
            match err with
            | Some err => Some (record calls (setLease l x r), Some err)
            | None =>
                if held && negb (bool_decide (ls_onDone x = NoAction)) then None
                else Some (runDone l (ls_onDone x)
                             (record calls (setLease l (x <| ls_stopped := true |>) r)), None)
            end
        end
  end.

(** A new lease, and pushing on one. *)
Definition allocLease (a : doneAction) (r : runtime) : runtime * nat :=
  let l := rt_next r in
  (setLease l (newLease <| ls_onDone := a |>) r <| rt_next ::= S |>, l).

Definition push (l : nat) (c : closer) (r : runtime) : runtime :=
  r <| rt_leases ::= alter (fun x => x <| ls_undo ::= cons c |>) l |>.

Definition acquired (l : nat) (c : closer) (r : runtime) : runtime := record [Acquired l c] r.

Definition setOnDone (l : nat) (a : doneAction) (r : runtime) : runtime :=
  r <| rt_leases ::= alter (fun x => x <| ls_onDone := a |>) l |>.

(** ** The network *)

(** How [client.Connect] and the end of its context raced: it returned first,
    or the context ended and the core could be told, or had to be disconnected
    while Connect was awaited. *)
Inductive connectOutcome :=
| ConnectReturned (err : option gerr)
| ConnectCanceled (ctxErr : gerr)
| ConnectAwaited (ctxErr : gerr) (cancelErr connectErr : option gerr).

Definition errConnectCancellationPending : gerr := EText "native session connect cancellation pending".

Definition connectContext (o : connectOutcome) : option gerr :=
  match o with
  | ConnectReturned err => err
  | ConnectCanceled ctxErr => join [Some ctxErr; Some errConnectCancellationPending]
  | ConnectAwaited ctxErr cancelErr connectErr => join [Some ctxErr; cancelErr; connectErr]
  end.

(** A call that returns a possibly nil value and an error. *)
Record reply (A : Type) := mkReply { rp_value : option A; rp_err : option gerr }.
Arguments mkReply {A}.
Arguments rp_value {A}.
Arguments rp_err {A}.

Record prepareEnv := mkPrepareEnv {
  pe_resolve : reply BypassPolicy;
  pe_mobile : bool;
  pe_provider : bool;
  pe_tun : reply unit;
  pe_resolver : bool;
  pe_configure : option gerr;
  pe_core : bool;
  pe_connect : connectOutcome;
  pe_ctxErr : option gerr
}.

(** [acquireNetworkTunnel]: the error, and the runtime with the tunnel owned. *)
Definition acquireNetworkTunnel (env : prepareEnv) (l : nat) (r : runtime) :
    runtime * option gerr :=
  if negb (pe_provider env) then (r, Some (EText "mobile network requires a TunnelProvider"))
  else
    let tun := rp_value (pe_tun env) in
    let r := match tun with Some _ => push l ReleaseTun (acquired l ReleaseTun r) | None => r end in
    match rp_err (pe_tun env) with
    | Some err => (r, Some err)
    | None =>
        match tun with
        | None => (r, Some (EText "platform returned no network interface"))
        | Some _ =>
            if negb (pe_resolver env)
            then (r, Some (EText "platform underlying resolver is unavailable"))
            else (r, pe_configure env)
        end
    end.

(** [None] instead of a lease: the network was refused. *)
Definition PrepareNetwork (env : prepareEnv) (ref : SessionRef) (r : runtime) :
    runtime * option nat * option gerr :=
  if match rt_network r with Some _ => true | None => rt_active r end
  then (r, None, Some (EText "previous network is still owned"))
  else
    let '(r, l) := allocLease ClearNetwork r in
    let r := r <| rt_network := Some (mkNetworkOwner ref l false) |> in
    match rp_err (pe_resolve env), rp_value (pe_resolve env) with
    | Some err, _ => (r, Some l, Some (EWrap "resolve network bypass" err))
    | None, None => (r, Some l, Some (EText "network bypass is unavailable"))
    | None, Some _ =>
        let '(r, err) := if pe_mobile env then acquireNetworkTunnel env l r else (r, None) in
        match err with
        | Some err => (r, Some l, Some err)
        | None =>
            if negb (pe_core env) then (r, Some l, Some (EText "network core is unavailable"))
            else
              let r := r <| rt_network := Some (mkNetworkOwner ref l true) |> in
              let r := push l CoreDisconnect (acquired l CoreDisconnect r) in
              match connectContext (pe_connect env) with
              | Some err => (r, Some l, Some err)
              | None => (r, Some l, pe_ctxErr env)
              end
        end
    end.

(** ** Initial readiness *)

(** One attempt: the context before, the check, the context after, and the
    pause. *)
Record attemptReply := mkAttemptReply {
  ar_before : option gerr;
  ar_check : option gerr;
  ar_after : option gerr;
  ar_pause : option gerr
}.

(** The check of one attempt when the device has a [WaitReady] ([None]: it has
    none): the transport first, then the probe. *)
Definition initialCheck (waitReady : option (option gerr)) (probe : option gerr) : option gerr :=
  match waitReady with
  | Some (Some err) => Some (EWrap "wait for protocol transport readiness" err)
  | _ => probe
  end.

Definition attemptError (attempt attempts : nat) (err : gerr) : gerr :=
  EWrap ("attempt " +:+ pretty attempt +:+ "/" +:+ pretty attempts) err.

(** The loop from [attempt], with the errors so far; the number of checks made
    is part of the result. *)
Fixpoint readinessFrom (rounds attempts attempt : nat) (env : nat -> attemptReply)
    (errs : list gerr) : nat * option gerr :=
  match rounds with
  | O => (0, Some (EWrap ("readiness failed after " +:+ pretty attempts +:+ " attempts") (EJoin errs)))
  | S rounds =>
      let r := env attempt in
      match ar_before r with
      | Some ctxErr => (0, join [Some ctxErr; join (map Some errs)])
      | None =>
          match ar_check r with
          | None => (1, None)
          | Some err =>
              let errs := errs ++ [attemptError attempt attempts err] in
              match ar_after r with
              | Some ctxErr => (1, join [Some ctxErr; join (map Some errs)])
              | None =>
                  match rounds, ar_pause r with
                  | S _, Some ctxErr => (1, join [Some ctxErr; join (map Some errs)])
                  | _, _ =>
                      let '(n, res) := readinessFrom rounds attempts (S attempt) env errs in
                      (S n, res)
                  end
              end
          end
      end
  end.

Definition waitForInitialReadiness (attempts : nat) (env : nat -> attemptReply) :
    nat * option gerr :=
  match attempts with
  | O => (0, Some (EText "initial readiness has no attempts configured"))
  | S _ => readinessFrom attempts attempts 1 env []
  end.

(** [New] fills the options in. *)
Definition readinessAttempts (configured : Z) : nat :=
  if (configured <=? 0)%Z then 6 else Z.to_nat configured.

Definition defaultHealthFailureThreshold : nat := 3.

Definition healthFailureThreshold (configured : Z) : nat :=
  if (configured <=? 0)%Z then defaultHealthFailureThreshold else Z.to_nat configured.

(** ** Starting an attempt *)

Record device := mkDevice {
  dv_upstreams : option (list IP);
  dv_proxyAddr : string
}.

Record startEnv := mkStartEnv {
  st_ctxErr : option gerr;
  st_ctxErr1 : option gerr;
  st_resolve : reply BypassPolicy;
  st_device : reply device;
  st_open : option gerr;
  st_ctxErr2 : option gerr;
  st_readiness : nat -> attemptReply;
  st_attempts : nat;
  st_attach : option gerr;
  st_cleanup : stopEnv
}.

(** How [Start] ends: with a lease and an error, either of which may be nil; in
    a nil dereference; or waiting for a lock it holds itself. *)
Inductive outcome :=
| Returned (r : runtime) (lease : option nat) (err : option gerr)
| Panicked (r : runtime)
| Deadlocked.

(** [fail] of [startLocked]: undo what the lease owns; the lease is returned
    only when that failed. *)
Definition startFail (env : startEnv) (l : nat) (cause : gerr) (r : runtime) : outcome :=
  match Stop true (st_cleanup env) l r with
  | None => Deadlocked
  | Some (r, None) => Returned r None (Some cause)
  | Some (r, Some err) => Returned r (Some l) (join [Some cause; markCleanupFailure (Some err)])
  end.

(** [n.core] is not nil; [Start] holds [r.mu], so it is the network it found. *)
Definition hasCore (r : runtime) : bool :=
  match rt_network r with Some n => nw_core n | None => false end.

(** The device is owned: its addresses, its endpoint, the parameters of the
    core, opening it. *)
Definition startDevice (env : startEnv) (l : nat) (bypass : BypassPolicy) (dv : device)
    (r : runtime) : outcome :=
  let extended :=
    match dv_upstreams dv with
    | Some ips => WithNumericIPs (Some bypass) ips
    | None => Ok bypass
    end in
  match extended with
  | Err err =>
      startFail env l (EWrap "extend bypass policy with numeric protocol upstreams" err) r
  | Ok _ =>
      if String.eqb (dv_proxyAddr dv) ""
      then startFail env l (EText "protocol device returned an empty SOCKS endpoint") r
      else if negb (hasCore r) then Panicked r
      else match st_open env with
           | Some err => startFail env l (EWrap "open protocol" err) r
           | None =>
               match st_ctxErr2 env with
               | Some err => startFail env l err r
               | None => Returned r (Some l) None
               end
           end
  end.

Definition startLocked (env : startEnv) (emptyConfig : bool) (r : runtime) : outcome :=
  if emptyConfig then Returned r None (Some (EText "runtime profile has no normalized config"))
  else match st_ctxErr1 env with
  | Some err => Returned r None (Some err)
  | None =>
      let '(r, l) := allocLease NoAction r in
      match rp_err (st_resolve env), rp_value (st_resolve env) with
      | Some err, _ => startFail env l (EWrap "resolve bypass policy" err) r
      | None, None => startFail env l (EText "bypass policy unavailable") r
      | None, Some bypass =>
          let r := push l ScopeClose (acquired l ScopeClose r) in
          let r :=
            match rp_value (st_device env) with
            | Some _ => push l DeviceClose (acquired l DeviceClose r)
            | None => r
            end in
          match rp_err (st_device env), rp_value (st_device env) with
          | Some err, _ => startFail env l (EWrap "create protocol device" err) r
          | None, None => startFail env l (EText "protocol device unavailable") r
          | None, Some dv => startDevice env l bypass dv r
          end
      end
  end.

Definition releaseActive (r : runtime) : runtime := r <| rt_active := false |>.

(** Readiness or attaching failed: stop the attempt; the lease is kept, with
    the runtime still reserved, when that fails. *)
Definition startRollback (env : startEnv) (l : nat) (cause : gerr) (joined : bool) (r : runtime) :
    outcome :=
  match Stop true (st_cleanup env) l r with
  | None => Deadlocked
  | Some (r, None) =>
      Returned (releaseActive r) None (if joined then join [Some cause] else Some cause)
  | Some (r, Some err) =>
      Returned (setOnDone l ReleaseActive r) (Some l)
        (join [Some cause; markCleanupFailure (Some err)])
  end.

(** The lease is complete: its transport is attached and watched. *)
Definition startAttached (l : nat) (generation : Z) (r : runtime) : runtime :=
  let r := push l (CoreDetach generation) (acquired l (CoreDetach generation) r) in
  setOnDone l ReleaseActive r
    <| rt_leases ::= alter (fun x => x <| ls_monitor := true |>) l |>.

Definition startReady (env : startEnv) (ref : SessionRef) (l : nat) (r : runtime) : outcome :=
  match (waitForInitialReadiness (st_attempts env) (st_readiness env)).2 with
  | Some err => startRollback env l (EWrap "wait for initial tunnel readiness" err) true r
  | None =>
      match st_attach env with
      | Some err => startRollback env l err false r
      | None => Returned (startAttached l (ref_Generation ref) r) (Some l) None
      end
  end.

Definition Start (env : startEnv) (ref : SessionRef) (emptyConfig : bool) (r : runtime) : outcome :=
  match st_ctxErr env with
  | Some err => Returned r None (Some err)
  | None =>
      if rt_active r then Returned r None (Some (EText "another runtime lease is active"))
      else if match rt_network r with
              | Some n => negb (String.eqb (ref_SessionID (nw_ref n)) (ref_SessionID ref))
              | None => true
              end
      then Returned r None (Some (EText "VPN network must be acquired before a protocol attempt"))
      else
        match startLocked env emptyConfig (r <| rt_active := true |>) with
        | Returned r (Some l) (Some err) => Returned (setOnDone l ReleaseActive r) (Some l) (Some err)
        | Returned r None (Some err) =>
            Returned (if has_cleanup err then r else releaseActive r) None (Some err)
        | Returned r (Some l) None => startReady env ref l r
        | other => other
        end
  end.

(** ** The health monitor *)

(** One round: the failures so far, and the cause that is reported when the
    threshold is reached. *)
Definition monitorRound (threshold : nat) (failures : list gerr) (check : option gerr) :
    list gerr + gerr :=
  match check with
  | None => inl []
  | Some err =>
      let failures := failures ++ [err] in
      if (threshold <=? length failures)%nat then inr (EJoin failures) else inl failures
  end.

(** The rounds until it fires; the number of checks used. *)
Fixpoint monitor (threshold : nat) (failures : list gerr) (checks : list (option gerr)) :
    option (nat * gerr) :=
  match checks with
  | [] => None
  | check :: checks =>
      match monitorRound threshold failures check with
      | inr cause => Some (1, cause)
      | inl failures =>
          match monitor threshold failures checks with
          | Some (n, cause) => Some (S n, cause)
          | None => None
          end
      end
  end.

(** [connectedHealthTimeout] in milliseconds: the rest of the deadline, with
    the context read again when nothing is left of it. *)
Definition connectedHealthTimeout (ctxErr : option gerr) (remaining : option Z)
    (ctxErr1 : option gerr) : Z * option gerr :=
  match ctxErr with
  | Some err => (0%Z, Some err)
  | None =>
      match remaining with
      | None => (5000%Z, None)
      | Some ms => if (ms <=? 0)%Z then (0%Z, ctxErr1) else (ms, None)
      end
  end.

(** ** The machine *)

Inductive rtEvent :=
| REPrepare (env : prepareEnv) (ref : SessionRef)
| REStart (env : startEnv) (ref : SessionRef) (emptyConfig : bool)
| REStop (env : stopEnv) (l : nat).

(** The process that ended takes no step. [None] would be a deadlock. *)
Definition rt_step (ev : rtEvent) (r : runtime) : option runtime :=
  if rt_panicked r then Some r
  else
    match ev with
    | REPrepare env ref => Some (PrepareNetwork env ref r).1.1
    | REStart env ref emptyConfig =>
        match Start env ref emptyConfig r with
        | Returned r _ _ => Some r
        | Panicked r => Some (r <| rt_panicked := true |>)
        | Deadlocked => None
        end
    | REStop env l => option_map fst (Stop false env l r)
    end.

Fixpoint rt_run (evs : list rtEvent) (r : runtime) : option runtime :=
  match evs with
  | [] => Some r
  | ev :: evs => match rt_step ev r with Some r => rt_run evs r | None => None end
  end.
