(* ===== verification/RuntimeTheorems.v ===== *)
(** * What the session runtime guarantees

    Everything acquired is released once, in reverse order, or is still owned
    by a lease somebody holds; there is one network and one attempt; a start
    decides within its attempts, and the health monitor fires exactly after a
    run of failures. *)

From S2P Require Import Prelude Errors Values Session Bypass Runtime.
Local Open Scope string_scope.
Local Open Scope list_scope.

(** ** The record of acquisitions and releases *)

Fixpoint acquired_by (l : nat) (t : list rcall) : list closer :=
  match t with
  | [] => []
  | Acquired l' c :: t => if bool_decide (l' = l) then c :: acquired_by l t else acquired_by l t
  | Closed _ _ _ :: t => acquired_by l t
  end.

Fixpoint released_by (l : nat) (t : list rcall) : list closer :=
  match t with
  | [] => []
  | Closed l' c None :: t => if bool_decide (l' = l) then c :: released_by l t else released_by l t
  | _ :: t => released_by l t
  end.

Lemma acquired_by_app l t t' : acquired_by l (t ++ t') = acquired_by l t ++ acquired_by l t'.
Proof. induction t as [|[l' c|l' c e] t IH]; cbn; [done| |done]. by case_bool_decide; rewrite IH. Qed.

Lemma released_by_app l t t' : released_by l (t ++ t') = released_by l t ++ released_by l t'.
Proof. induction t as [|[l' c|l' c [e|]] t IH]; cbn; try done. by case_bool_decide; rewrite IH. Qed.

(** A run of the undo stack: what was released is what is gone, from the top. *)
Lemma unwindLease_spec l close undo kept calls err :
  unwindLease l close undo = (kept, calls, err) ->
  undo = released_by l calls ++ kept /\ acquired_by l calls = [] /\
  (forall l', l' <> l -> acquired_by l' calls = [] /\ released_by l' calls = []) /\
  (err = None -> kept = []) /\
  (forall e, err = Some e -> exists c rest, kept = c :: rest /\ close c = Some e).
Proof.
  revert kept calls err. induction undo as [|c undo IH]; intros kept calls err; cbn.
  { intros [= <- <- <-]. by split_and!. }
  destruct (close c) as [e|] eqn:Hc.
  { intros [= <- <- <-]. cbn. split_and!; try done. intros e' [= <-]. by exists c, undo. }
  destruct (unwindLease l close undo) as [[kept' calls'] err'] eqn:Hu. intros [= <- <- <-].
  destruct (IH _ _ _ eq_refl) as (E1 & E2 & E3 & E4 & E5). cbn. rewrite bool_decide_eq_true_2 by done.
  split_and!; [by rewrite E1|done| |done|done].
  intros l' Hne. rewrite bool_decide_eq_false_2 by congruence. by apply E3.
Qed.

(** ** The invariant *)

(** Released from the top, and what is left is on the stack. *)
Definition lifo (r : runtime) (l : nat) (x : lease) : Prop :=
  rev (acquired_by l (rt_trace r)) = released_by l (rt_trace r) ++ ls_undo x.

(** Who holds a lease that is not stopped. *)
Definition role (r : runtime) (l : nat) (x : lease) : Prop :=
  match ls_onDone x with
  | ClearNetwork => exists n, rt_network r = Some n /\ nw_lease n = l
  | ReleaseActive => rt_active r = true
  | NoAction => False
  end.

Definition lease_ok (r : runtime) (l : nat) (x : lease) : Prop :=
  lifo r l x /\ (ls_stopped x = true -> ls_undo x = []) /\ (ls_stopped x = false -> role r l x).

Definition attempt (x : lease) : Prop := ls_stopped x = false /\ ls_onDone x = ReleaseActive.

Record RInv (r : runtime) : Prop := mkRInv {
  ri_leases : forall l x, rt_leases r !! l = Some x -> lease_ok r l x;
  ri_one : forall l1 l2 x1 x2, rt_leases r !! l1 = Some x1 -> rt_leases r !! l2 = Some x2 ->
    attempt x1 -> attempt x2 -> l1 = l2;
  ri_fresh : forall l, rt_next r <= l -> rt_leases r !! l = None /\
    acquired_by l (rt_trace r) = [] /\ released_by l (rt_trace r) = []
}.

Lemma RInv_new : RInv newRuntime.
Proof. constructor; cbn; done. Qed.

(** While a lease [l] is being built no other attempt is live, and [l] has only
    grown. *)
Record Building (l : nat) (x : lease) (r : runtime) : Prop := mkBuilding {
  bd_others : forall l' y, l' <> l -> rt_leases r !! l' = Some y -> lease_ok r l' y;
  bd_attempts : forall l' y, l' <> l -> rt_leases r !! l' = Some y -> ~ attempt y \/ ls_onDone x = ClearNetwork;
  bd_one : forall l1 l2 x1 x2, l1 <> l -> l2 <> l -> rt_leases r !! l1 = Some x1 ->
    rt_leases r !! l2 = Some x2 -> attempt x1 -> attempt x2 -> l1 = l2;
  bd_lease : rt_leases r !! l = Some x;
  bd_open : ls_stopped x = false /\ ls_monitor x = false;
  bd_lifo : lifo r l x;
  bd_fresh : forall l', rt_next r <= l' -> rt_leases r !! l' = None /\
    acquired_by l' (rt_trace r) = [] /\ released_by l' (rt_trace r) = []
}.

(** Steps that change only lease [l] and its part of the record. *)
Lemma lease_ok_other r r' l l' y :
  l' <> l -> lease_ok r l' y -> rt_active r' = rt_active r -> rt_network r' = rt_network r ->
  acquired_by l' (rt_trace r') = acquired_by l' (rt_trace r) ->
  released_by l' (rt_trace r') = released_by l' (rt_trace r) -> lease_ok r' l' y.
Proof.
  intros Hne (H1 & H2 & H3) E1 E2 E3 E4. unfold lease_ok, lifo, role in *.
  by rewrite E1, E2, E3, E4.
Qed.

Lemma Building_push l x c r :
  Building l x r -> released_by l (rt_trace r) = [] ->
  Building l (x <| ls_undo ::= cons c |>) (push l c (acquired l c r)) /\
  released_by l (rt_trace (push l c (acquired l c r))) = [].
Proof.
  intros [B1 B2 B3 B4 B5 B6 B8] B7. unfold lifo in B6.
  assert (forall l', l' <> l -> rt_leases (push l c (acquired l c r)) !! l' = rt_leases r !! l') as Hl.
  { intros l' Hne. cbn. by rewrite lookup_alter_ne. }
  assert (forall l', l' <> l -> acquired_by l' (rt_trace (push l c (acquired l c r))) =
    acquired_by l' (rt_trace r)) as Ha.
  { intros l' Hne. cbn. rewrite acquired_by_app. cbn. rewrite bool_decide_eq_false_2 by congruence.
    by rewrite app_nil_r. }
  assert (forall l', released_by l' (rt_trace (push l c (acquired l c r))) =
    released_by l' (rt_trace r)) as Hr.
  { intros l'. cbn. rewrite released_by_app. by rewrite app_nil_r. }
  split; [|by rewrite Hr]. constructor.
  - intros l' y Hne. rewrite Hl by done. intros Hy.
    eapply (lease_ok_other r); [exact Hne|by apply B1|done|done|by apply Ha|by apply Hr].
  - intros l' y Hne. rewrite Hl by done. by apply B2.
  - intros l1 l2 x1 x2 H1 H2. rewrite !Hl by done. by apply B3.
  - cbn. by rewrite lookup_alter_eq, B4.
  - done.
  - unfold lifo. rewrite Hr, B7. cbn. rewrite acquired_by_app, rev_app_distr. cbn.
    rewrite bool_decide_eq_true_2 by done. cbn. rewrite B6, B7. done.
  - intros l' Hn. destruct (B8 l' Hn) as (E1 & E2 & E3). assert (l' <> l) as Hne by congruence.
    by rewrite Hl, Ha, Hr.
Qed.

(** A finished lease joins the others. *)
Lemma Building_done l x r :
  Building l x r -> (ls_stopped x = true -> ls_undo x = []) -> (ls_stopped x = false -> role r l x) ->
  RInv r.
Proof.
  intros [B1 B2 B3 B4 B5 B6 B8] Hs Hr. constructor.
  - intros l' y Hy. destruct (decide (l' = l)) as [->|Hne]; [|by apply B1].
    rewrite B4 in Hy. injection Hy as <-. done.
  - intros l1 l2 x1 x2 H1 H2 A1 A2.
    destruct (decide (l1 = l)) as [->|N1], (decide (l2 = l)) as [->|N2]; [done|..].
    + rewrite B4 in H1. injection H1 as <-. destruct (B2 l2 x2 N2 H2) as [?|Hc]; [done|].
      destruct A1 as [_ A1]. congruence.
    + rewrite B4 in H2. injection H2 as <-. destruct (B2 l1 x1 N1 H1) as [?|Hc]; [done|].
      destruct A2 as [_ A2]. congruence.
    + by eapply B3.
  - done.
Qed.

Lemma Building_setOnDone l x r :
  Building l x r -> rt_active r = true -> ls_onDone x = NoAction -> RInv (setOnDone l ReleaseActive r).
Proof.
  intros [B1 B2 B3 B4 B5 B6 B8] Ha Hx.
  eapply (Building_done l (x <| ls_onDone := ReleaseActive |>)); [|by destruct B5; cbn; congruence|done].
  assert (forall l', l' <> l -> rt_leases (setOnDone l ReleaseActive r) !! l' = rt_leases r !! l') as Hl.
  { intros l' Hne. cbn. by rewrite lookup_alter_ne. }
  constructor; try done.
  - intros l' y Hne. rewrite Hl by done. intros Hy. by eapply (lease_ok_other r); [exact Hne|apply B1|..].
  - intros l' y Hne. rewrite Hl by done. intros Hy. left. destruct (B2 l' y Hne Hy); congruence.
  - intros l1 l2 x1 x2 H1 H2. rewrite !Hl by done. by apply B3.
  - cbn. by rewrite lookup_alter_eq, B4.
  - intros l' Hn. destruct (B8 l' Hn) as (E1 & E2 & E3). rewrite Hl; [done|congruence].
Qed.

(** What one [Stop] does to the record and to the lease. *)
Lemma stop_lease l x r close kept calls err :
  (forall l' z, l' <> l -> rt_leases r !! l' = Some z -> lease_ok r l' z) ->
  rt_leases r !! l = Some x -> lifo r l x ->
  (forall l', rt_next r <= l' -> rt_leases r !! l' = None /\
    acquired_by l' (rt_trace r) = [] /\ released_by l' (rt_trace r) = []) ->
  unwindLease l close (ls_undo x) = (kept, calls, err) ->
  forall y, ls_undo y = kept -> let r' := record calls (setLease l y r) in
    (forall l' z, l' <> l -> rt_leases r' !! l' = Some z -> lease_ok r' l' z) /\ lifo r' l y /\
    (forall l', rt_next r' <= l' -> rt_leases r' !! l' = None /\
      acquired_by l' (rt_trace r') = [] /\ released_by l' (rt_trace r') = []).
Proof.
  intros B1 B4 B6 B8 Hu y Hk. destruct (unwindLease_spec _ _ _ _ _ _ Hu) as (E1 & E2 & E3 & _).
  cbv zeta. split_and!.
  - intros l' z Hne Hz. cbn in Hz. rewrite lookup_insert_ne in Hz by done.
    eapply (lease_ok_other r); [exact Hne|by apply B1|done|done|..]; cbn.
    + rewrite acquired_by_app. destruct (E3 l' Hne) as [-> _]. by rewrite app_nil_r.
    + rewrite released_by_app. destruct (E3 l' Hne) as [_ ->]. by rewrite app_nil_r.
  - unfold lifo in *. cbn. rewrite acquired_by_app, released_by_app, E2, app_nil_r, B6, Hk, <- app_assoc.
    by rewrite <- E1.
  - intros l' Hn. cbn in Hn. destruct (B8 l' Hn) as (F1 & F2 & F3).
    assert (l' <> l) as Hne by congruence. destruct (E3 l' Hne) as [G1 G2]. cbn.
    rewrite lookup_insert_ne, acquired_by_app, released_by_app, F2, F3, G1, G2 by done. done.
Qed.

(** No attempt is live. *)
Definition Idle (r : runtime) : Prop :=
  RInv r /\ (forall l x, rt_leases r !! l = Some x -> ~ attempt x).

(** [Stop] from inside [Start]: no callback is set, so it cannot wait for the
    lock its caller holds; it ends the lease or leaves it to be retried. *)
Lemma Building_stop l x r env :
  Building l x r -> ls_onDone x = NoAction ->
  exists r' err, Stop true env l r = Some (r', err) /\
    rt_active r' = rt_active r /\ rt_network r' = rt_network r /\
    match err with
    | None => Idle r'
    | Some _ => exists x', Building l x' r' /\ ls_onDone x' = NoAction
    end.
Proof.
  intros Hb Hd. pose proof Hb as [B1 B2 B3 B4 [B5 Bm] B6 B8]. unfold Stop. cbv zeta. rewrite B4, B5, !Bm.
  destruct (unwindLease l (se_close env) (ls_undo x)) as [[kept calls] err] eqn:Hu.
  destruct (unwindLease_spec _ _ _ _ _ _ Hu) as (_ & _ & _ & Hnil & _).
  assert (forall y, ls_undo y = kept -> ls_stopped y = false /\ ls_monitor y = false ->
    Building l y (record calls (setLease l y r))) as Hbuild.
  { intros y Hy Hopen. destruct (stop_lease l x r _ _ _ _ B1 B4 B6 B8 Hu y Hy) as (F1 & F2 & F3).
    constructor; [exact F1| | | |exact Hopen|exact F2|exact F3].
    - intros l' z Hne Hz. cbn in Hz. rewrite lookup_insert_ne in Hz by done.
      destruct (B2 l' z Hne Hz) as [Hat|Hcl]; [by left|exfalso; congruence].
    - intros l1 l2 x1 x2 N1 N2 H1 H2. cbn in H1, H2. rewrite lookup_insert_ne in H1, H2 by done.
      by eapply B3.
    - cbn. by rewrite lookup_insert_eq. }
  destruct err as [e|].
  - eexists _, (Some e). split; [reflexivity|]. split_and!; try done.
    exists (x <| ls_undo := kept |>). split; [|done]. by apply Hbuild.
  - set (y := x <| ls_undo := kept |> <| ls_stopped := true |>).
    exists (record calls (setLease l y r)), None.
    split; [change (ls_onDone (x <| ls_undo := kept |>)) with (ls_onDone x); by rewrite Hd|].
    split_and!; try done.
    destruct (stop_lease l x r _ _ _ _ B1 B4 B6 B8 Hu y eq_refl) as (F1 & F2 & F3).
    specialize (Hnil eq_refl).
    assert (forall l0 x0, <[l:=y]> (rt_leases r) !! l0 = Some x0 -> ~ attempt x0) as Hat.
    { intros l0 x0. destruct (decide (l0 = l)) as [->|N].
      - rewrite lookup_insert_eq. intros [= <-]. by intros [? _].
      - rewrite lookup_insert_ne by done. intros H0. destruct (B2 l0 x0 N H0); [done|congruence]. }
    split; [|exact Hat]. constructor; [| |exact F3].
    + intros l' z Hz. destruct (decide (l' = l)) as [->|Hne]; [|by apply F1].
      cbn in Hz. rewrite lookup_insert_eq in Hz. injection Hz as <-. by split_and!.
    + intros l1 l2 x1 x2 H1 H2 A1. destruct (Hat l1 x1 H1 A1).
Qed.

(** ** Acquiring a network *)

Lemma role_frame r r' l x :
  rt_active r' = rt_active r -> rt_network r' = rt_network r -> role r l x -> role r' l x.
Proof. intros E1 E2. unfold role. by rewrite E1, E2. Qed.

(** A lease is reserved where no lease was. *)
Lemma Building_alloc a r r0 :
  RInv r0 -> rt_leases r = rt_leases r0 -> rt_next r = rt_next r0 -> rt_trace r = rt_trace r0 ->
  (forall l y, rt_leases r !! l = Some y -> ls_stopped y = false -> l <> rt_next r ->
    role r0 l y -> role r l y) ->
  (forall l y, rt_leases r !! l = Some y -> ~ attempt y \/ a = ClearNetwork) ->
  let '(r', l) := allocLease a r in
    Building l (newLease <| ls_onDone := a |>) r' /\ released_by l (rt_trace r') = [] /\
    l = rt_next r /\ rt_active r' = rt_active r /\ rt_network r' = rt_network r.
Proof.
  intros [I1 I2 I3] El En Et Hrole Hat. cbn.
  destruct (I3 (rt_next r)) as (F1 & F2 & F3); [lia|]. split; [|by rewrite Et].
  assert (forall l', l' <> rt_next r ->
    <[rt_next r:=newLease <| ls_onDone := a |>]> (rt_leases r) !! l' = rt_leases r !! l') as Hl.
  { intros l' Hne. by rewrite lookup_insert_ne. }
  constructor; cbn [rt_leases rt_trace rt_next].
  - intros l' y Hne. cbn. rewrite Hl by done. intros Hy.
    destruct (I1 l' y) as (G1 & G2 & G3); [by rewrite <- El|].
    split_and!; [unfold lifo in *; cbn; by rewrite Et|done|].
    intros Hs. apply (role_frame r); [done..|]. by apply Hrole; [..|apply G3].
  - intros l' y Hne. cbn. rewrite Hl by done. apply Hat.
  - intros l1 l2 x1 x2 N1 N2. cbn. rewrite !Hl, El by done. apply I2.
  - cbn. apply lookup_insert_eq.
  - done.
  - unfold lifo. cbn. by rewrite Et, F2, F3.
  - intros l' Hn. cbn in *. destruct (I3 l') as (G1 & G2 & G3); [lia|].
    rewrite Hl by lia. by rewrite El, Et.
Qed.

(** The network being acquired. *)
Definition Preparing (l : nat) (r : runtime) : Prop :=
  exists x, Building l x r /\ released_by l (rt_trace r) = [] /\ ls_onDone x = ClearNetwork /\
    exists n, rt_network r = Some n /\ nw_lease n = l.

Lemma Preparing_push l c r : Preparing l r -> Preparing l (push l c (acquired l c r)).
Proof.
  intros (x & Hb & Hr & Hd & Hn). destruct (Building_push l x c r Hb Hr) as [Hb' Hr'].
  by exists (x <| ls_undo ::= cons c |>).
Qed.

Lemma Preparing_done l r : Preparing l r -> RInv r.
Proof.
  intros (x & Hb & Hr & Hd & Hn). apply (Building_done l x r Hb).
  - destruct (bd_open _ _ _ Hb). congruence.
  - intros _. unfold role. by rewrite Hd.
Qed.

Lemma Preparing_alloc ref r :
  RInv r -> rt_network r = None -> rt_active r = false ->
  let '(r', l) := allocLease ClearNetwork r in
    Preparing l (r' <| rt_network := Some (mkNetworkOwner ref l false) |>).
Proof.
  intros Hinv Hn Ha.
  pose (r1 := r <| rt_network := Some (mkNetworkOwner ref (rt_next r) false) |>).
  pose proof (Building_alloc ClearNetwork r1 r Hinv eq_refl eq_refl eq_refl) as H. cbn in H.
  destruct H as (Hb & Hr & _ & _ & _).
  - intros l y Hy Hs Hne. unfold role. destruct (ls_onDone y); [done| |done].
    intros (n & E & _). congruence.
  - by right.
  - cbn. exists (newLease <| ls_onDone := ClearNetwork |>). split_and!; [exact Hb|exact Hr|done|].
    by eexists.
Qed.

(** The core is made. *)
Lemma Preparing_core ref l r :
  Preparing l r -> Preparing l (r <| rt_network := Some (mkNetworkOwner ref l true) |>).
Proof.
  intros (x & [B1 B2 B3 B4 B5 B6 B7] & Hr & Hd & n & Hn & Hl). exists x.
  split_and!; [constructor; try done|done|done|by eexists].
  intros l' y Hne Hy. destruct (B1 l' y Hne Hy) as (H1 & H2 & H3). split_and!; [done|done|].
  intros Hs. specialize (H3 Hs). unfold role in *. destruct (ls_onDone y); [done| |done].
  destruct H3 as (n' & E & Hl'). rewrite Hn in E. injection E as <-. congruence.
Qed.

Lemma acquireNetworkTunnel_preparing env l r :
  Preparing l r -> Preparing l (acquireNetworkTunnel env l r).1.
Proof.
  intros H. pose proof (Preparing_push l ReleaseTun r H). unfold acquireNetworkTunnel.
  by destruct (pe_provider env), (rp_value (pe_tun env)), (rp_err (pe_tun env)), (pe_resolver env).
Qed.

Lemma PrepareNetwork_RInv env ref r : RInv r -> RInv (PrepareNetwork env ref r).1.1.
Proof.
  intros Hinv. unfold PrepareNetwork. destruct (rt_network r) eqn:Hn; [done|].
  destruct (rt_active r) eqn:Ha; [done|].
  pose proof (Preparing_alloc ref r Hinv Hn Ha) as Hp. destruct (allocLease ClearNetwork r) as [r1 l].
  set (r2 := r1 <| rt_network := _ |>) in *.
  destruct (rp_err (pe_resolve env)); [by apply (Preparing_done l)|].
  destruct (rp_value (pe_resolve env)); [|by apply (Preparing_done l)].
  assert (Preparing l (if pe_mobile env then acquireNetworkTunnel env l r2 else (r2, None)).1) as Hq.
  { destruct (pe_mobile env); [|done]. by apply acquireNetworkTunnel_preparing. }
  destruct (if pe_mobile env then _ else _) as [r3 [err|]]; [by apply (Preparing_done l)|].
  destruct (pe_core env); [|by apply (Preparing_done l)]. cbn [negb].
  destruct (connectContext _); by apply (Preparing_done l), Preparing_push, Preparing_core.
Qed.

(** ** Starting an attempt *)

(** The attempt being built, before and after a failed [Stop]. *)
Definition Kept (l : nat) (r : runtime) : Prop :=
  rt_active r = true /\ exists x, Building l x r /\ ls_onDone x = NoAction.

Definition Attempting (l : nat) (undo : list closer) (r : runtime) : Prop :=
  rt_active r = true /\ released_by l (rt_trace r) = [] /\
  exists x, Building l x r /\ ls_onDone x = NoAction /\ ls_undo x = undo.

Lemma Attempting_Kept l u r : Attempting l u r -> Kept l r.
Proof. intros (Ha & _ & x & Hb & Hd & _). split; [done|]. by exists x. Qed.

Lemma Attempting_push l c u r :
  Attempting l u r -> Attempting l (c :: u) (push l c (acquired l c r)).
Proof.
  intros (Ha & Hr & x & Hb & Hd & Hu). destruct (Building_push l x c r Hb Hr) as [Hb' Hr'].
  split_and!; [done|done|]. exists (x <| ls_undo ::= cons c |>). split_and!; [done|done|].
  cbn. by rewrite Hu.
Qed.

Lemma Attempting_alloc r :
  RInv r -> rt_active r = false ->
  let '(r', l) := allocLease NoAction (r <| rt_active := true |>) in
    Attempting l [] r' /\ l = rt_next r.
Proof.
  intros Hinv Ha. pose (r1 := r <| rt_active := true |>).
  pose proof (Building_alloc NoAction r1 r Hinv eq_refl eq_refl eq_refl) as H. cbn in H.
  destruct H as (Hb & Hr & _ & _ & _).
  - intros l y _ _ _. unfold role. by destruct (ls_onDone y).
  - intros l y Hy. left. intros [Hs Hd]. destruct (ri_leases r Hinv l y Hy) as (_ & _ & Hrole).
    specialize (Hrole Hs). unfold role in Hrole. rewrite Hd in Hrole. congruence.
  - cbn. split; [|done]. split_and!; [done|exact Hr|].
    by exists (newLease <| ls_onDone := NoAction |>).
Qed.

Lemma Kept_setOnDone l r : Kept l r -> RInv (setOnDone l ReleaseActive r).
Proof. intros (Ha & x & Hb & Hd). by apply (Building_setOnDone l x). Qed.

Lemma Idle_releaseActive r : Idle r -> RInv (releaseActive r).
Proof.
  intros [[I1 I2 I3] Hat]. constructor; [|done|done].
  intros l x Hx. destruct (I1 l x Hx) as (H1 & H2 & H3). split_and!; [done|done|].
  intros Hs. specialize (H3 Hs). unfold role in *. destruct (ls_onDone x) eqn:Hd; [done|done|].
  by destruct (Hat l x Hx).
Qed.

(** What [startLocked] and its failures leave. *)
Definition Outcome (fresh : nat) (res : outcome) : Prop :=
  match res with
  | Returned r (Some l) None =>
      l = fresh /\ Attempting l [DeviceClose; ScopeClose] r /\ hasCore r = true
  | Returned r (Some l) (Some e) => l = fresh /\ Kept l r /\ has_cleanup e = true
  | Returned r None (Some _) => Idle r /\ rt_active r = true
  | Returned r None None => False
  | Panicked r => Attempting fresh [DeviceClose; ScopeClose] r /\ hasCore r = false
  | Deadlocked => False
  end.

Lemma Kept_stop l r env :
  Kept l r ->
  exists r' err, Stop true env l r = Some (r', err) /\
    match err with None => Idle r' /\ rt_active r' = true | Some _ => Kept l r' end.
Proof.
  intros (Ha & x & Hb & Hd). destruct (Building_stop l x r env Hb Hd) as (r' & err & E & Ha' & _ & H).
  exists r', err. split; [done|]. rewrite <- Ha' in Ha. by destruct err.
Qed.

Lemma joined_cleanup_failure cause e :
  exists e', join [Some cause; markCleanupFailure (Some e)] = Some e' /\ has_cleanup e' = true.
Proof. eexists. split; [done|]. cbn. by rewrite orb_true_r. Qed.

Lemma startFail_outcome env l u cause r :
  Attempting l u r -> Outcome l (startFail env l cause r).
Proof.
  intros H%Attempting_Kept. destruct (Kept_stop l r (st_cleanup env) H) as (r' & err & E & Hr).
  unfold startFail. rewrite E. destruct err as [e|].
  - by destruct (joined_cleanup_failure cause e) as (e' & -> & Hc).
  - done.
Qed.

Lemma startDevice_outcome env l bypass dv r :
  Attempting l [DeviceClose; ScopeClose] r -> Outcome l (startDevice env l bypass dv r).
Proof.
  intros H. pose proof (fun cause => startFail_outcome env l _ cause r H) as Hf. unfold startDevice.
  destruct (match dv_upstreams dv with Some _ => _ | None => _ end); [|done].
  destruct (String.eqb _ ""); [done|]. destruct (hasCore r) eqn:Hc; [|done]. cbn [negb].
  destruct (st_open env); [done|]. by destruct (st_ctxErr2 env).
Qed.

Lemma startLocked_outcome env empty r :
  RInv r -> rt_active r = false ->
  Outcome (rt_next r) (startLocked env empty (r <| rt_active := true |>)).
Proof.
  intros Hinv Ha. unfold startLocked.
  assert (Idle (r <| rt_active := true |>)) as Hidle.
  { assert (forall l x, rt_leases r !! l = Some x -> ~ attempt x) as Hat.
    { intros l x Hx [Hs Hd]. destruct (ri_leases r Hinv l x Hx) as (_ & _ & Hr). specialize (Hr Hs).
      unfold role in Hr. rewrite Hd in Hr. congruence. }
    split; [|exact Hat]. destruct Hinv as [I1 I2 I3]. constructor; [|done|done].
    intros l x Hx. destruct (I1 l x Hx) as (H1 & H2 & H3). split_and!; [done|done|].
    intros Hs. specialize (H3 Hs). unfold role in *. by destruct (ls_onDone x). }
  destruct empty; [done|]. destruct (st_ctxErr1 env) as [e|]; [done|].
  pose proof (Attempting_alloc r Hinv Ha) as Hal.
  destruct (allocLease NoAction (r <| rt_active := true |>)) as [r1 l]. destruct Hal as [H <-].
  destruct (rp_err (st_resolve env)); [by eapply startFail_outcome|].
  destruct (rp_value (st_resolve env)) as [bypass|]; [|by eapply startFail_outcome].
  apply (Attempting_push l ScopeClose) in H. pose proof (Attempting_push l DeviceClose _ _ H) as H'.
  destruct (rp_value (st_device env)) as [dv|], (rp_err (st_device env)) as [e|].
  - by eapply startFail_outcome.
  - by apply startDevice_outcome.
  - by eapply startFail_outcome.
  - by eapply startFail_outcome.
Qed.

(** What [Start] leaves. *)
Definition Started (r0 : runtime) (env : startEnv) (ref : SessionRef) (res : outcome) : Prop :=
  match res with
  | Returned r ol err =>
      RInv r /\
      match ol, err with
      | Some l, None =>
          l = rt_next r0 /\ rt_active r = true /\
          (exists x, rt_leases r !! l = Some x /\ attempt x /\ ls_monitor x = true /\
            ls_undo x = [CoreDetach (ref_Generation ref); DeviceClose; ScopeClose]) /\
          (waitForInitialReadiness (st_attempts env) (st_readiness env)).2 = None /\
          st_attach env = None /\ hasCore r0 = true
      | Some l, Some e =>
          l = rt_next r0 /\ has_cleanup e = true /\ rt_active r = true /\
          exists x, rt_leases r !! l = Some x /\ attempt x
      | None, Some e =>
          r = r0 \/ ((forall l x, rt_leases r !! l = Some x -> ~ attempt x) /\
            (rt_active r = true -> has_cleanup e = true))
      | None, None => False
      end
  | Panicked r => hasCore r0 = false /\ rt_active r = true /\ Attempting (rt_next r0) [DeviceClose; ScopeClose] r
  | Deadlocked => False
  end.

Lemma Kept_attempt l r : Kept l r -> exists x, rt_leases (setOnDone l ReleaseActive r) !! l = Some x /\ attempt x.
Proof.
  intros (Ha & x & Hb & Hd). exists (x <| ls_onDone := ReleaseActive |>). cbn.
  rewrite lookup_alter_eq, (bd_lease _ _ _ Hb). split; [done|]. by destruct (bd_open _ _ _ Hb).
Qed.

Lemma startRollback_started r0 env ref l u cause joined r :
  Attempting l u r -> l = rt_next r0 -> Started r0 env ref (startRollback env l cause joined r).
Proof.
  intros H%Attempting_Kept Hl. destruct (Kept_stop l r (st_cleanup env) H) as (r' & err & E & Hr).
  unfold startRollback. rewrite E. destruct err as [e|].
  - destruct (joined_cleanup_failure cause e) as (e' & -> & Hc).
    split_and!; [by apply Kept_setOnDone|done|done|by destruct Hr|by apply Kept_attempt].
  - destruct Hr as [Hr _]. assert (RInv (releaseActive r')) by (by apply Idle_releaseActive).
    destruct joined; (split; [done|]); right; (split; [by destruct Hr|done]).
Qed.

Lemma Attempting_attached l r generation :
  Attempting l [DeviceClose; ScopeClose] r ->
  RInv (startAttached l generation r) /\ rt_active (startAttached l generation r) = true /\
  exists x, rt_leases (startAttached l generation r) !! l = Some x /\ attempt x /\
    ls_monitor x = true /\ ls_undo x = [CoreDetach generation; DeviceClose; ScopeClose].
Proof.
  intros H. apply (Attempting_push l (CoreDetach generation)) in H.
  set (r1 := push l _ _) in H. destruct H as (Ha & _ & x & Hb & Hd & Hu).
  pose proof (Building_setOnDone l x r1 Hb Ha Hd) as [I1 I2 I3].
  assert (rt_leases r1 !! l = Some x) as Hx by apply Hb.
  unfold startAttached. fold r1. clearbody r1.
  assert (forall l' y, rt_leases (setOnDone l ReleaseActive r1
      <| rt_leases ::= alter (fun x => x <| ls_monitor := true |>) l |>) !! l' = Some y ->
    exists y', rt_leases (setOnDone l ReleaseActive r1) !! l' = Some y' /\
      ls_undo y = ls_undo y' /\ ls_stopped y = ls_stopped y' /\ ls_onDone y = ls_onDone y') as Hl.
  { intros l' y. cbn. destruct (decide (l' = l)) as [->|N].
    - rewrite !lookup_alter_eq, Hx. cbn. intros [= <-]. by eexists.
    - rewrite !lookup_alter_ne by done. by exists y. }
  split_and!; [|done|].
  - constructor.
    + intros l' y (y' & Hy & E1 & E2 & E3)%Hl. destruct (I1 l' y' Hy) as (G1 & G2 & G3).
      unfold lease_ok, lifo, role in *. by rewrite E1, E2, E3.
    + intros l1 l2 x1 x2 (y1 & H1 & _ & S1 & D1)%Hl (y2 & H2 & _ & S2 & D2)%Hl.
      unfold attempt. rewrite S1, D1, S2, D2. by apply I2.
    + intros l' Hn. destruct (I3 l' Hn) as (G1 & G2 & G3). split_and!; [|done|done].
      destruct (rt_leases (setOnDone _ _ _ <| _ ::= _ |>) !! l') as [y|] eqn:E; [|done].
      destruct (Hl l' y E) as (y' & Hy & _). congruence.
  - exists (x <| ls_onDone := ReleaseActive |> <| ls_monitor := true |>). cbn.
    rewrite !lookup_alter_eq, Hx. by destruct (bd_open _ _ _ Hb).
Qed.

(** ** What [Start] keeps *)

(** The network and the numbering of leases, and that no panic was recorded. *)
Definition kept_by (r r' : runtime) : Prop :=
  rt_network r' = rt_network r /\ rt_next r <= rt_next r' /\ rt_panicked r' = rt_panicked r.

#[export] Instance kept_by_preorder : PreOrder kept_by.
Proof. split; [done|]. intros r1 r2 r3 (? & ? & ?) (? & ? & ?). split_and!; [congruence|lia|congruence]. Qed.

Definition keeps (r : runtime) (res : outcome) : Prop :=
  match res with Returned r' _ _ | Panicked r' => kept_by r r' | Deadlocked => True end.

Lemma Stop_held_keeps env l r r' err : Stop true env l r = Some (r', err) -> kept_by r r'.
Proof.
  unfold Stop. destruct (rt_leases r !! l) as [x|]; [|by intros [= <- <-]].
  destruct (ls_stopped x); [by intros [= <- <-]|]. cbv zeta.
  set (x1 := if ls_monitor x then _ else x). clearbody x1.
  destruct (if ls_monitor x1 then _ else None); [by intros [= <- <-]|].
  destruct (unwindLease _ _ _) as [[kept calls] [e|]]; [by intros [= <- <-]|].
  destruct (ls_onDone _); cbn; [by intros [= <- <-]|done|done].
Qed.

Lemma startFail_keeps env l cause r : keeps r (startFail env l cause r).
Proof.
  unfold startFail. destruct (Stop _ _ _ _) as [[r' [e|]]|] eqn:E; [| |done];
    by apply Stop_held_keeps in E.
Qed.

Lemma startLocked_keeps env empty r : keeps r (startLocked env empty r).
Proof.
  unfold startLocked. destruct empty; [done|]. destruct (st_ctxErr1 env); [done|].
  assert (kept_by r (allocLease NoAction r).1) as Hal by (split_and!; [done|cbn; lia|done]).
  destruct (allocLease NoAction r) as [r1 l]. cbn in Hal.
  assert (forall cause r2, kept_by r1 r2 -> keeps r (startFail env l cause r2)) as Hfail.
  { intros cause r2 H2. pose proof (startFail_keeps env l cause r2) as H3.
    destruct (startFail env l cause r2); cbn in *; [| |done]; (etrans; [exact Hal|]); by etrans. }
  destruct (rp_err (st_resolve env)); [by apply Hfail|].
  destruct (rp_value (st_resolve env)) as [bypass|]; [|by apply Hfail].
  set (r2 := match rp_value (st_device env) with Some _ => _ | None => _ end).
  assert (kept_by r1 r2) as H2 by (subst r2; by destruct (rp_value (st_device env))).
  clearbody r2. destruct (rp_err (st_device env)); [by apply Hfail|].
  destruct (rp_value (st_device env)) as [dv|]; [|by apply Hfail]. unfold startDevice.
  destruct (match dv_upstreams dv with Some _ => _ | None => _ end); [|by apply Hfail].
  destruct (String.eqb _ ""); [by apply Hfail|]. destruct (hasCore r2); cbn [negb keeps]; [|by etrans].
  destruct (st_open env); [by apply Hfail|].
  destruct (st_ctxErr2 env); [by apply Hfail|]. cbn [keeps]. by etrans.
Qed.

Lemma Start_keeps env ref empty r : keeps r (Start env ref empty r).
Proof.
  unfold Start. destruct (st_ctxErr env); [done|]. destruct (rt_active r); [done|].
  destruct (match rt_network r with Some _ => _ | None => true end); [done|].
  pose proof (startLocked_keeps env empty (r <| rt_active := true |>)) as H.
  assert (kept_by r (r <| rt_active := true |>)) as H0 by done.
  destruct (startLocked env empty _) as [r1 [l|] [e|]|r1|]; cbn [keeps] in *; [by etrans| | |by etrans|by etrans|done].
  - unfold startReady, startRollback. destruct (waitForInitialReadiness _ _).2; [|destruct (st_attach env)];
      [destruct (Stop _ _ _ _) as [[r2 [e|]]|] eqn:E; [| |done]; apply Stop_held_keeps in E..|];
      cbn [keeps]; (etrans; [exact H0|]); (etrans; [exact H|]); done.
  - destruct (has_cleanup e); (etrans; [exact H0|]); done.
Qed.

Lemma Start_started env ref empty r : RInv r -> Started r env ref (Start env ref empty r).
Proof.
  intros Hinv. unfold Start. assert (forall e, Started r env ref (Returned r None (Some e))) as Hrefuse.
  { intros e. split; [done|by left]. }
  destruct (st_ctxErr env); [done|]. destruct (rt_active r) eqn:Ha; [done|].
  destruct (match rt_network r with Some _ => _ | None => true end); [done|].
  pose proof (startLocked_outcome env empty r Hinv Ha) as H.
  pose proof (startLocked_keeps env empty (r <| rt_active := true |>)) as Hk.
  destruct (startLocked env empty _) as [r1 [l|] [e|]|r1|]; cbn in H, Hk; [| | |done| |done].
  - destruct H as (-> & Hkept & Hc).
    split_and!; [by apply Kept_setOnDone|done|done|by destruct Hkept|by apply Kept_attempt].
  - destruct H as (-> & H & Hcore). unfold startReady.
    destruct (waitForInitialReadiness _ _).2 eqn:Hw; [by eapply startRollback_started|].
    destruct (st_attach env) eqn:Hat; [by eapply startRollback_started|].
    destruct (Attempting_attached _ _ (ref_Generation ref) H) as (H1 & H2 & H3).
    split_and!; try done. unfold hasCore in *. destruct Hk as (Hn & _). cbn in Hn. by rewrite <- Hn.
  - destruct H as [Hi Ha']. cbn. destruct (has_cleanup e) eqn:Hc.
    + split; [by destruct Hi|]. right. split; [by destruct Hi|done].
    + split; [by apply Idle_releaseActive|]. right. split; [by destruct Hi|done].
  - destruct H as [H Hcore]. cbn. destruct Hk as (Hn & _). cbn in Hn.
    split_and!; [unfold hasCore in *; by rewrite <- Hn|by destruct H|done].
Qed.

(** ** Stopping from outside *)

(** Lease [l] becomes [y], which is no more of an owner than it was. *)
Lemma RInv_replace l x y r r' :
  RInv r -> rt_leases r !! l = Some x -> rt_leases r' !! l = Some y ->
  rt_active r' = rt_active r -> rt_network r' = rt_network r ->
  (forall l' z, rt_leases r' !! l' = Some z -> l' <> l -> rt_leases r !! l' = Some z /\ lease_ok r' l' z) ->
  lifo r' l y -> (ls_stopped y = true -> ls_undo y = []) ->
  (ls_stopped y = false -> ls_stopped x = false /\ ls_onDone y = ls_onDone x) ->
  (forall l', rt_next r' <= l' -> rt_leases r' !! l' = None /\
    acquired_by l' (rt_trace r') = [] /\ released_by l' (rt_trace r') = []) -> RInv r'.
Proof.
  intros [I1 I2 I3] Hx Hy Ea En Hrest Hlifo Hs Hlive Hf.
  assert (forall l1 x1, rt_leases r' !! l1 = Some x1 -> attempt x1 ->
    exists y1, rt_leases r !! l1 = Some y1 /\ attempt y1) as Hat.
  { intros l1 x1 H1 A1. destruct (decide (l1 = l)) as [->|N]; [|by exists x1; destruct (Hrest l1 x1 H1 N)].
    rewrite Hy in H1. injection H1 as <-. exists x. destruct A1 as [A1 A2].
    destruct (Hlive A1) as [G1 G2]. split; [done|]. split; congruence. }
  constructor; [|  |exact Hf].
  - intros l' z Hz. destruct (decide (l' = l)) as [->|N]; [|by apply Hrest].
    rewrite Hy in Hz. injection Hz as <-. split_and!; [done|done|]. intros Hl.
    destruct (Hlive Hl) as [G1 G2]. destruct (I1 l x Hx) as (_ & _ & Hr). specialize (Hr G1).
    unfold role in *. by rewrite G2, Ea, En.
  - intros l1 l2 x1 x2 H1 H2 A1 A2. destruct (Hat l1 x1 H1 A1) as (y1 & ? & ?), (Hat l2 x2 H2 A2) as (y2 & ? & ?).
    by eapply I2.
Qed.

(** A lease that has ended calls back: whoever it was, nobody else is. *)
Lemma RInv_runDone l x r :
  RInv r -> rt_leases r !! l = Some x -> ls_stopped x = true ->
  (ls_onDone x = ReleaseActive -> forall l' z, rt_leases r !! l' = Some z -> ~ attempt z) ->
  RInv (runDone l (ls_onDone x) r).
Proof.
  intros [I1 I2 I3] Hx Hs Hat. destruct (ls_onDone x) eqn:Hd; [done|..]; cbn.
  - destruct (rt_network r) as [n|] eqn:Hn; [|done]. case_bool_decide as Hl; [|done].
    constructor; [|done|done]. intros l' z Hz. destruct (I1 l' z Hz) as (H1 & H2 & H3).
    split_and!; [done|done|]. intros Hsz. specialize (H3 Hsz). unfold role in *.
    destruct (ls_onDone z); [done| |done]. destruct H3 as (n' & E & Hl').
    assert (l' = l) as -> by congruence. cbn in Hz. rewrite Hx in Hz. injection Hz as <-. congruence.
  - apply Idle_releaseActive. split; [done|]. by apply Hat.
Qed.

Lemma Stop_RInv env l r :
  RInv r -> exists r' err, Stop false env l r = Some (r', err) /\ RInv r'.
Proof.
  intros Hinv. pose proof Hinv as [I1 I2 I3]. unfold Stop. cbv zeta.
  destruct (rt_leases r !! l) as [x|] eqn:Hx; [|by eexists _, _].
  destruct (ls_stopped x) eqn:Hs; [by eexists _, _|].
  set (x1 := if ls_monitor x then x <| ls_canceled := true |> else x).
  assert (ls_undo x1 = ls_undo x /\ ls_stopped x1 = ls_stopped x /\ ls_onDone x1 = ls_onDone x)
    as (Eu & Es & Ed) by (unfold x1; by destruct (ls_monitor x)).
  clearbody x1. destruct (if ls_monitor x1 then se_healthWait env else None) as [e|].
  { eexists _, (Some e). split; [done|].
    eapply (RInv_replace l x x1 r); [done|done|by apply lookup_insert_eq|done|done|..].
    - intros l' z Hz N. cbn in Hz. rewrite lookup_insert_ne in Hz by done. split; [done|by apply I1].
    - unfold lifo. cbn. rewrite Eu. by destruct (I1 l x Hx).
    - congruence.
    - by rewrite Es, Ed.
    - intros l' Hn. destruct (I3 l' Hn) as (F1 & F2 & F3). split_and!; [|done|done].
      cbn. rewrite lookup_insert_ne; [done|]. intros ->. congruence. }
  rewrite Eu. destruct (unwindLease l (se_close env) (ls_undo x)) as [[kept calls] err] eqn:Hu.
  destruct (unwindLease_spec _ _ _ _ _ _ Hu) as (_ & _ & _ & Hnil & _).
  assert (forall y, ls_undo y = kept -> (ls_stopped y = true -> kept = []) ->
    ls_onDone y = ls_onDone x -> RInv (record calls (setLease l y r))) as Hset.
  { intros y Hy Hsy Hdy. destruct (I1 l x Hx) as [Hlifo _].
    destruct (stop_lease l x r _ _ _ _ (fun l' z _ => I1 l' z) Hx Hlifo I3 Hu y Hy) as (F1 & F2 & F3).
    eapply (RInv_replace l x y r); [done|done|by apply lookup_insert_eq|done|done| |exact F2| |by split|exact F3].
    - intros l' z Hz N. split; [|by apply F1]. cbn in Hz. by rewrite lookup_insert_ne in Hz.
    - rewrite Hy. exact Hsy. }
  destruct err as [e|].
  { eexists _, (Some e). split; [done|]. apply Hset; cbn; [done|congruence|done]. }
  cbn [andb]. eexists _, None. split; [done|]. set (y := x1 <| ls_undo := kept |> <| ls_stopped := true |>).
  change (ls_onDone (x1 <| ls_undo := kept |>)) with (ls_onDone y).
  apply RInv_runDone; [apply Hset; [done|by intros; apply Hnil|done]|apply lookup_insert_eq|done|].
  intros Hd l' z Hz [Az1 Az2]. cbn in Hz. destruct (decide (l' = l)) as [->|N].
  - rewrite lookup_insert_eq in Hz. injection Hz as <-. done.
  - rewrite lookup_insert_ne in Hz by done. destruct N. symmetry. eapply I2; [exact Hx|exact Hz| |done].
    split; [done|]. cbn in Hd. congruence.
Qed.

(** ** Histories *)

Lemma PrepareNetwork_panicked env ref r : rt_panicked (PrepareNetwork env ref r).1.1 = rt_panicked r.
Proof.
  unfold PrepareNetwork, acquireNetworkTunnel. destruct (match rt_network r with Some _ => _ | None => _ end); [done|].
  cbn. by repeat (case_match; try done; simplify_eq/=).
Qed.

Lemma Stop_panicked held env l r r' err :
  Stop held env l r = Some (r', err) -> rt_panicked r' = rt_panicked r.
Proof.
  unfold Stop. destruct (rt_leases r !! l) as [x|]; [|by intros [= <- <-]].
  destruct (ls_stopped x); [by intros [= <- <-]|]. cbv zeta.
  set (x1 := if ls_monitor x then _ else x). clearbody x1.
  destruct (if ls_monitor x1 then _ else None); [by intros [= <- <-]|].
  destruct (unwindLease _ _ _) as [[kept calls] [e|]]; [by intros [= <- <-]|].
  destruct (held && _); [done|]. intros [= <- <-]. unfold runDone.
  destruct (ls_onDone _); [done| |done]. by case_match.
Qed.

(** The process runs, or a start has panicked: then the attempt it was making
    keeps the runtime reserved. *)
Definition Halted (r : runtime) : Prop :=
  rt_panicked r = true /\ rt_active r = true /\
  (forall l x, rt_leases r !! l = Some x -> lifo r l x /\ (ls_stopped x = true -> ls_undo x = [])) /\
  (forall l1 l2 x1 x2, rt_leases r !! l1 = Some x1 -> rt_leases r !! l2 = Some x2 ->
    attempt x1 -> attempt x2 -> l1 = l2) /\
  (forall l, rt_next r <= l -> acquired_by l (rt_trace r) = []).

Definition Alive (r : runtime) : Prop := RInv r /\ rt_panicked r = false.

Lemma Building_halted l x r :
  Building l x r -> ls_onDone x = NoAction -> rt_active r = true -> Halted (r <| rt_panicked := true |>).
Proof.
  intros [B1 B2 B3 B4 [B5 _] B6 B8] Hd Ha. split_and!; [done|done| | |].
  - intros l' y Hy. destruct (decide (l' = l)) as [->|Hne].
    + assert (x = y) as <- by (cbn in Hy; congruence). split; [done|congruence].
    + destruct (B1 l' y Hne Hy) as (H1 & H2 & _). by split.
  - intros l1 l2 x1 x2 H1 H2 A1 A2.
    destruct (decide (l1 = l)) as [->|N1], (decide (l2 = l)) as [->|N2]; [done|..].
    + assert (x1 = x) as -> by (cbn in H1; congruence). destruct A1 as [_ A1]. congruence.
    + assert (x2 = x) as -> by (cbn in H2; congruence). destruct A2 as [_ A2]. congruence.
    + by eapply B3.
  - intros l' Hl'. by apply B8.
Qed.

Lemma rt_step_alive ev r : Alive r -> exists r', rt_step ev r = Some r' /\ (Alive r' \/ Halted r').
Proof.
  intros [Hinv Hp]. unfold rt_step. rewrite Hp. destruct ev as [env ref|env ref empty|env l]; cbn.
  - eexists. split; [done|]. left. split; [by apply PrepareNetwork_RInv|by rewrite PrepareNetwork_panicked].
  - pose proof (Start_started env ref empty r Hinv) as Hs. pose proof (Start_keeps env ref empty r) as Hk.
    destruct (Start env ref empty r) as [r' ol err|r'|]; cbn in Hs, Hk; [| |done].
    + eexists. split; [done|]. left. destruct Hs as [Hs _]. split; [done|]. destruct Hk as (_ & _ & Hk). congruence.
    + eexists. split; [done|]. right. destruct Hs as (_ & Ha & _ & _ & x & Hb & Hd & _). by apply (Building_halted (rt_next r) x).
  - destruct (Stop_RInv env l r Hinv) as (r' & err & E & H). rewrite E. eexists. split; [done|]. left.
    split; [done|]. cbn. by rewrite (Stop_panicked _ _ _ _ _ _ E).
Qed.

Lemma rt_run_alive evs r : Alive r \/ Halted r -> exists r', rt_run evs r = Some r' /\ (Alive r' \/ Halted r').
Proof.
  revert r. induction evs as [|ev evs IH]; intros r Hinv; cbn; [by exists r|].
  destruct Hinv as [Hinv|Hinv].
  - destruct (rt_step_alive ev r Hinv) as (r1 & E & H). rewrite E. by apply IH.
  - unfold rt_step. destruct Hinv as [Hp Hrest]. rewrite Hp. apply IH. by right.
Qed.

Lemma rt_run_new evs : exists r, rt_run evs newRuntime = Some r /\ (Alive r \/ Halted r).
Proof. apply rt_run_alive. left. split; [apply RInv_new|done]. Qed.

(** ** Networks that were acquired *)

(** As long as it is the network of lease [l] that is held, it has its core. *)
Definition cored (l : nat) (r : runtime) : Prop :=
  l < rt_next r /\ forall n, rt_network r = Some n -> nw_lease n = l -> nw_core n = true.

Lemma PrepareNetwork_cored env ref r r' l :
  PrepareNetwork env ref r = (r', Some l, None) -> cored l r' /\ hasCore r' = true.
Proof.
  unfold PrepareNetwork, acquireNetworkTunnel, cored, hasCore.
  destruct (match rt_network r with Some _ => _ | None => _ end); [done|]. cbn.
  repeat (case_match; try done; simplify_eq/=); intros; simplify_eq/=;
    (split; [|done]); (split; [lia|]); by intros ? [= <-].
Qed.

Lemma PrepareNetwork_keeps_cored env ref l r : cored l r -> cored l (PrepareNetwork env ref r).1.1.
Proof.
  intros [Hl Hc]. unfold PrepareNetwork, acquireNetworkTunnel, cored.
  destruct (match rt_network r with Some _ => _ | None => _ end); [done|]. cbn.
  repeat (case_match; try done; simplify_eq/=); (split; [lia|]); intros ? [= <-]; cbn; lia.
Qed.

Lemma Stop_cored env l l' r r' err : Stop false env l' r = Some (r', err) -> cored l r -> cored l r'.
Proof.
  intros Hs [Hl Hc]. revert Hs. unfold Stop, cored.
  destruct (rt_leases r !! l') as [x|]; [|by intros [= <- <-]].
  destruct (ls_stopped x); [by intros [= <- <-]|]. cbv zeta.
  set (x1 := if ls_monitor x then _ else x). clearbody x1.
  destruct (if ls_monitor x1 then _ else None); [by intros [= <- <-]|].
  destruct (unwindLease _ _ _) as [[kept calls] [e|]]; [by intros [= <- <-]|].
  cbn [andb]. intros [= <- <-]. unfold runDone. destruct (ls_onDone _); [done| |done]. by case_match.
Qed.

Lemma rt_step_cored ev l r r' : rt_step ev r = Some r' -> cored l r -> cored l r'.
Proof.
  unfold rt_step. destruct (rt_panicked r); [by intros [= <-]|].
  destruct ev as [env ref|env ref empty|env l']; cbn.
  - intros [= <-]. apply PrepareNetwork_keeps_cored.
  - pose proof (Start_keeps env ref empty r) as Hk. destruct (Start env ref empty r); [| |done];
      intros [= <-] [Hl Hc]; destruct Hk as (Hn & Hnext & _); (split; [cbn; lia|cbn; by rewrite Hn]).
  - destruct (Stop false env l' r) as [[r1 err]|] eqn:E; [|done]. intros [= <-]. by apply (Stop_cored env l l' r r1 err).
Qed.

Lemma rt_run_cored evs l r r' : rt_run evs r = Some r' -> cored l r -> cored l r'.
Proof.
  revert r. induction evs as [|ev evs IH]; intros r; cbn; [by intros [= <-]|].
  destruct (rt_step ev r) as [r1|] eqn:E; [|done]. intros Hr Hc. eapply IH; [exact Hr|]. by eapply rt_step_cored.
Qed.

(** ** Readiness *)

(** The attempts up to [i] failed without the context ending. *)
Definition wentOn (env : nat -> attemptReply) (j : nat) : Prop :=
  ar_before (env j) = None /\ ar_check (env j) <> None /\ ar_after (env j) = None /\
  ar_pause (env j) = None.

Definition readyAt (env : nat -> attemptReply) (i : nat) : Prop :=
  ar_before (env i) = None /\ ar_check (env i) = None.

Lemma join_Some_head e errs : join (Some e :: errs) <> None.
Proof. done. Qed.

Lemma readinessFrom_bound rounds attempts i env errs :
  (readinessFrom rounds attempts i env errs).1 <= rounds.
Proof.
  revert i errs. induction rounds as [|n IH]; intros i errs; cbn; [lia|].
  destruct (ar_before _); cbn; [lia|]. destruct (ar_check _) as [e|]; cbn; [|lia].
  destruct (ar_after _); cbn; [lia|].
  pose proof (IH (S i) (errs ++ [attemptError i attempts e])) as Hb.
  destruct (readinessFrom _ _ _ _ _) as [k res]. cbn in Hb. destruct n, (ar_pause (env i)); cbn; lia.
Qed.

(** Ready at the [k]-th check exactly when the earlier ones went on. *)
Lemma readinessFrom_ready rounds attempts i env errs k :
  readinessFrom rounds attempts i env errs = (k, None) ->
  1 <= k <= rounds /\ readyAt env (i + k - 1) /\ (forall j, i <= j < i + k - 1 -> wentOn env j).
Proof.
  revert i errs k. induction rounds as [|n IH]; intros i errs k; cbn; [done|].
  destruct (ar_before (env i)) as [ctxErr|] eqn:Hb; [done|].
  destruct (ar_check (env i)) as [e|] eqn:Hc.
  2:{ intros [= <-]. replace (i + 1 - 1) with i by lia.
      split; [lia|]. split; [done|lia]. }
  destruct (ar_after (env i)) as [a|] eqn:Ha; [done|].
  destruct (readinessFrom n attempts (S i) env _) as [k' res] eqn:Hrec.
  destruct n as [|n]; [cbn in Hrec; by injection Hrec as <- <-|].
  destruct (ar_pause (env i)) as [p|] eqn:Hp; [done|]. intros [= <- ->].
  destruct (IH _ _ _ Hrec) as (H1 & H2 & H3). replace (i + S k' - 1) with (S i + k' - 1) by lia.
  split; [lia|]. split; [exact H2|]. intros j Hj.
  destruct (decide (j = i)) as [->|]; [split_and!; [done|congruence|done|done]|apply H3; lia].
Qed.

Lemma readinessFrom_complete rounds attempts i env errs k :
  k < rounds -> readyAt env (i + k) -> (forall j, i <= j < i + k -> wentOn env j) ->
  readinessFrom rounds attempts i env errs = (S k, None).
Proof.
  revert i errs k. induction rounds as [|n IH]; intros i errs k Hk Hr Hw; [lia|]. cbn.
  destruct k as [|k].
  - replace (i + 0) with i in Hr by lia. destruct Hr as [-> ->]. done.
  - destruct (Hw i) as (-> & Hc & -> & ->); [lia|]. destruct (ar_check (env i)) as [e|]; [|done].
    rewrite (IH (S i) _ k); [by destruct n|lia|by replace (S i + k) with (i + S k) by lia|].
    intros j Hj. apply Hw. lia.
Qed.

(** Nothing cut the attempts short: every check was made and its error kept. *)
Lemma readinessFrom_exhausted rounds attempts i env errs fail :
  (forall j, i <= j < i + rounds -> wentOn env j /\ ar_check (env j) = Some (fail j)) ->
  readinessFrom rounds attempts i env errs =
    (rounds, Some (EWrap ("readiness failed after " +:+ pretty attempts +:+ " attempts")
      (EJoin (errs ++ map (fun j => attemptError j attempts (fail j)) (seq i rounds))))).
Proof.
  revert i errs. induction rounds as [|n IH]; intros i errs Hw; cbn; [by rewrite app_nil_r|].
  destruct (Hw i) as [(-> & _ & -> & ->) ->]; [lia|]. rewrite IH by (intros j Hj; apply Hw; lia).
  rewrite <- app_assoc. by destruct n.
Qed.

(** ** The health monitor *)

(** The last [t] of [checks] all failed, with these errors. *)
Definition lastFailed (t : nat) (checks : list (option gerr)) (errs : list gerr) : Prop :=
  length errs = t /\ exists pre, checks = pre ++ map Some errs.

(** [f] is the whole run of failures at the end of [hist]. *)
Definition trailing (hist : list (option gerr)) (f : list gerr) : Prop :=
  exists pre, hist = pre ++ map Some f /\ (pre = [] \/ exists pre', pre = pre' ++ [None]).

Lemma trailing_longest t hist f errs : trailing hist f -> lastFailed t hist errs -> t <= length f.
Proof.
  intros (pre & -> & Hpre) (<- & pre1 & E). destruct (decide (length errs <= length f)); [done|exfalso].
  destruct Hpre as [->|[pre' ->]].
  - apply (f_equal length) in E. rewrite !length_app, !length_map in E. cbn in E. lia.
  - apply (f_equal (@rev _)) in E. rewrite !rev_app_distr, <- !map_rev in E. cbn in E.
    assert ((map Some (rev f) ++ None :: rev pre') !! length f = Some None) as Hn.
    { rewrite lookup_app_r by (rewrite length_map, length_rev; lia).
      by rewrite length_map, length_rev, Nat.sub_diag. }
    rewrite E, lookup_app_l in Hn by (rewrite length_map, length_rev; lia).
    apply list_elem_of_lookup_2, list_elem_of_In, in_map_iff in Hn as (? & ? & _). done.
Qed.

Lemma trailing_fail hist f e : trailing hist f -> trailing (hist ++ [Some e]) (f ++ [e]).
Proof.
  intros (pre & -> & Hpre). exists pre. split; [|done]. by rewrite map_app, <- app_assoc.
Qed.

Lemma trailing_ok hist : trailing (hist ++ [None]) [].
Proof. exists (hist ++ [None]). split; [by rewrite app_nil_r|right; by exists hist]. Qed.

Lemma monitor_spec t f checks hist :
  trailing hist f -> length f < t ->
  match monitor t f checks with
  | Some (n, cause) =>
      n <= length checks /\ (exists errs, cause = EJoin errs /\ lastFailed t (hist ++ take n checks) errs) /\
      (forall m errs, m < n -> ~ lastFailed t (hist ++ take m checks) errs)
  | None => forall m errs, m <= length checks -> ~ lastFailed t (hist ++ take m checks) errs
  end.
Proof.
  revert f hist. induction checks as [|c checks IH]; intros f hist Ht Hf.
  { cbn. intros m errs _ H. rewrite take_nil, app_nil_r in H. apply (trailing_longest _ _ _ _ Ht) in H. lia. }
  assert (forall errs, ~ lastFailed t (hist ++ []) errs) as H0.
  { intros errs H. rewrite app_nil_r in H. apply (trailing_longest _ _ _ _ Ht) in H. lia. }
  cbn. assert (forall f', trailing (hist ++ [c]) f' -> length f' < t ->
    match match monitor t f' checks with Some (n, cause) => Some (S n, cause) | None => None end with
    | Some (n, cause) =>
        n <= S (length checks) /\
        (exists errs, cause = EJoin errs /\ lastFailed t (hist ++ take n (c :: checks)) errs) /\
        (forall m errs, m < n -> ~ lastFailed t (hist ++ take m (c :: checks)) errs)
    | None => forall m errs, m <= S (length checks) -> ~ lastFailed t (hist ++ take m (c :: checks)) errs
    end) as Hgo.
  { intros f' Ht' Hf'. specialize (IH f' (hist ++ [c]) Ht' Hf').
    destruct (monitor t f' checks) as [[n cause]|].
    - destruct IH as (H1 & (errs & -> & H2) & H3). split_and!; [lia| |].
      + exists errs. split; [done|]. by rewrite <- app_assoc in H2.
      + intros [|m] errs' Hm; [apply H0|]. intros H. apply (H3 m errs'); [lia|]. by rewrite <- app_assoc.
    - intros [|m] errs Hm; [apply H0|]. intros H. apply (IH m errs); [lia|]. by rewrite <- app_assoc. }
  unfold monitorRound. destruct c as [e|]; [|apply Hgo; [apply trailing_ok|cbn; lia]].
  pose proof (trailing_fail _ _ e Ht) as Ht'. destruct (Nat.leb_spec t (length (f ++ [e]))) as [Hl|Hl].
  - split_and!; [lia| |intros [|m] errs Hm; [apply H0|lia]].
    exists (f ++ [e]). split; [done|]. split; [rewrite length_app in *; cbn in *; lia|].
    destruct Ht' as (pre & E & _). exists pre. cbn [take]. by rewrite take_0, E.
  - by apply Hgo.
Qed.

(** ** The properties *)

(** C17: However networks are acquired and attempts are started and stopped,
    and whatever the platform, the device and the core answer, no operation
    waits for a lock its caller holds, and at every moment each lease has
    released its acquisitions once each, in reverse order, down to what is still
    on its undo stack; a stopped lease has nothing left; at most one attempt is
    live; and when the runtime is free, with no network and no attempt, nothing
    that was ever acquired is still held. *)
Theorem runtime_owns_or_releases (evs : list rtEvent) :
  exists r, rt_run evs newRuntime = Some r /\
    (forall l x, rt_leases r !! l = Some x ->
      rev (acquired_by l (rt_trace r)) = released_by l (rt_trace r) ++ ls_undo x /\
      (ls_stopped x = true \/ (rt_active r = false /\ rt_network r = None) -> ls_undo x = [])) /\
    (forall l1 l2 x1 x2, rt_leases r !! l1 = Some x1 -> rt_leases r !! l2 = Some x2 ->
      attempt x1 -> attempt x2 -> l1 = l2) /\
    (forall l, rt_next r <= l -> acquired_by l (rt_trace r) = []).
Proof.
  destruct (rt_run_new evs) as (r & Hr & [[[I1 I2 I3] _]|(_ & Ha & I1 & I2 & I3)]); exists r; (split; [done|]).
  2: { split_and!; [|exact I2|exact I3]. intros l x Hx. destruct (I1 l x Hx) as [H1 H2]. split; [done|].
       intros [?|[? _]]; [by apply H2|congruence]. }
  split_and!; [|exact I2|intros l Hl; by apply I3].
  intros l x Hx. destruct (I1 l x Hx) as (H1 & H2 & H3). split; [done|].
  intros [?|[Ha Hn]]; [by apply H2|].
  destruct (ls_stopped x); [by apply H2|]. specialize (H3 eq_refl). unfold role in H3.
  destruct (ls_onDone x); [done| |congruence]. destruct H3 as (n & Hn' & _). congruence.
Qed.

(** C18: After any history of a process that runs, [Start] does not wait for
    itself, and returns or panics.  With a lease and no error the network had
    its core, the initial readiness succeeded and the transport is attached, and
    the lease is a live, monitored attempt that holds the socket scope, the
    device and the attachment in that order; with an error and no lease either
    nothing was touched or no attempt is left alive, and the runtime stays
    reserved only if the error reports a failed cleanup; with both, the error
    reports a failed cleanup and the lease is the live attempt that can be
    stopped again.  It panics only when the network it found has no core, with
    the scope and the device it had made still held; and it never does while
    the network held is one whose preparation returned no error. *)
Theorem start_is_all_or_nothing (evs : list rtEvent) (env : startEnv) (ref : SessionRef)
    (emptyConfig : bool) (r0 : runtime) (Hr0 : rt_run evs newRuntime = Some r0)
    (Hrunning : rt_panicked r0 = false) :
  Started r0 env ref (Start env ref emptyConfig r0) /\
  (forall prepare network before l prepared later n,
     PrepareNetwork prepare network before = (prepared, Some l, None) ->
     rt_run later prepared = Some r0 -> rt_network r0 = Some n -> nw_lease n = l ->
     match Start env ref emptyConfig r0 with Returned _ _ _ => True | _ => False end).
Proof.
  destruct (rt_run_new evs) as (r & Hr & Hinv). assert (r = r0) as -> by congruence.
  destruct Hinv as [[Hinv _]|[Hp _]]; [|congruence].
  pose proof (Start_started env ref emptyConfig r0 Hinv) as Hs. split; [done|].
  intros prepare network before l prepared later n Hprep Hlater Hn Hl.
  apply PrepareNetwork_cored in Hprep as [Hc _]. destruct (rt_run_cored _ _ _ _ Hlater Hc) as [_ Hcore].
  specialize (Hcore n Hn Hl). destruct (Start env ref emptyConfig r0); [done| |done].
  destruct Hs as [Hno _]. unfold hasCore in Hno. rewrite Hn in Hno. congruence.
Qed.

(** Initial readiness makes at most the configured number of checks; it
    succeeds exactly when some check within them succeeds, every earlier one
    having failed without the context ending; and when nothing cuts the
    attempts short its error keeps the error of every attempt, in order. *)
Theorem readiness_is_decided_by_its_checks (attempts : nat) (env : nat -> attemptReply) :
  (waitForInitialReadiness attempts env).1 <= attempts /\
  ((waitForInitialReadiness attempts env).2 = None <->
    exists k, k < attempts /\ readyAt env (1 + k) /\ (forall j, 1 <= j <= k -> wentOn env j)) /\
  (forall fail, attempts <> 0 ->
    (forall j, 1 <= j <= attempts -> wentOn env j /\ ar_check (env j) = Some (fail j)) ->
    waitForInitialReadiness attempts env =
      (attempts, Some (EWrap ("readiness failed after " +:+ pretty attempts +:+ " attempts")
        (EJoin (map (fun j => attemptError j attempts (fail j)) (seq 1 attempts)))))).
Proof.
  destruct attempts as [|n].
  { split_and!; [done| |done]. split; [done|]. intros (k & Hk & _). lia. }
  unfold waitForInitialReadiness. split_and!; [apply readinessFrom_bound|split|].
  - destruct (readinessFrom _ _ _ _ _) as [k res] eqn:E. cbn. intros ->.
    destruct (readinessFrom_ready _ _ _ _ _ _ E) as (H1 & H2 & H3). exists (k - 1).
    split; [lia|]. replace (S (k - 1)) with (1 + k - 1) by lia. split; [done|].
    intros j Hj. apply H3. lia.
  - intros (k & Hk & Hr & Hw). rewrite (readinessFrom_complete _ _ _ _ _ k); [done|done|done|].
    intros j Hj. apply Hw. lia.
  - intros fail _ Hw. apply (readinessFrom_exhausted (S n) (S n) 1 env [] fail). intros j Hj. apply Hw. lia.
Qed.

(** C19: The health monitor of a connected attempt reports a failure exactly
    at the first check that completes a run of as many consecutive failures as
    the threshold, and reports those failures: fewer, or a success among them,
    never end an attempt. *)
Theorem monitor_fires_on_a_run_of_failures (configured : Z) (checks : list (option gerr)) :
  let t := healthFailureThreshold configured in
  match monitor t [] checks with
  | Some (n, cause) =>
      n <= length checks /\ (exists errs, cause = EJoin errs /\ lastFailed t (take n checks) errs) /\
      (forall m errs, m < n -> ~ lastFailed t (take m checks) errs)
  | None => forall m errs, m <= length checks -> ~ lastFailed t (take m checks) errs
  end.
Proof.
  assert (trailing [] []) as Ht by (exists []; split; [done|by left]).
  assert (0 < healthFailureThreshold configured) as Hpos
    by (unfold healthFailureThreshold, defaultHealthFailureThreshold; destruct (Z.leb_spec configured 0); lia).
  exact (monitor_spec _ [] checks [] Ht Hpos).
Qed.

(** A network, an attempt whose device cannot be closed at first, and the
    retry; then a refused start on a busy runtime. *)
Definition exNet : prepareEnv :=
  mkPrepareEnv (mkReply (Some (mkBypassPolicy [] 0)) None) true true (mkReply (Some tt) None) true None true
    (ConnectReturned None) None.
Definition exReady : nat -> attemptReply := fun _ => mkAttemptReply None None None None.
Definition exStart : startEnv :=
  mkStartEnv None None (mkReply (Some (mkBypassPolicy [] 0)) None) (mkReply (Some (mkDevice None "127.0.0.1:1080")) None)
    None None exReady 6 None (mkStopEnv None (fun _ => None)).
Definition exRef : SessionRef := mkSessionRef "s" 1.
Definition exStuck : stopEnv :=
  mkStopEnv None (fun c => if bool_decide (c = DeviceClose) then Some (EText "busy") else None).

Example start_is_all_or_nothing_witness :
  exists r0, rt_run [REPrepare exNet exRef; REStart exStart exRef false; REStop exStuck 1] newRuntime = Some r0 /\
    rt_active r0 = true /\ Started r0 exStart exRef (Start exStart exRef false r0).
Proof.
  eexists. split; [vm_compute; reflexivity|]. split; [reflexivity|].
  refine (proj1 (start_is_all_or_nothing [REPrepare exNet exRef; REStart exStart exRef false; REStop exStuck 1]
    exStart exRef false _ _ _)); vm_compute; reflexivity.
Defined.

(** A start behind a network whose preparation failed before its core was made
    passes the check for a network and panics. *)
Definition exNoBypass : prepareEnv :=
  mkPrepareEnv (mkReply None (Some (EText "no route"))) true true (mkReply (Some tt) None) true None true
    (ConnectReturned None) None.

Example start_without_core_panics :
  exists failed, rt_run [REPrepare exNoBypass exRef] newRuntime = Some failed /\
    (PrepareNetwork exNoBypass exRef newRuntime).2 = Some (EWrap "resolve network bypass" (EText "no route")) /\
    match Start exStart exRef false failed with Panicked _ => True | _ => False end.
Proof. eexists. split; [vm_compute; reflexivity|]. by split. Qed.
