(* ===== verification/Native.v ===== *)
(** * The native runtimes (core/sessionapi/runtime/native_runtime_mobile.go, native_lifecycle.go)

    The adapter a network core puts around the platform: on mobile it owns the
    TUN descriptor wrapper and the packet engine, and hands the descriptor from
    the first to the second.  The platform may answer with an error or panic at
    every call; the cancellation request arrives at any time. *)

From S2P Require Import Prelude Errors Values.
Local Open Scope string_scope.
Local Open Scope list_scope.

Inductive lifecycleState := stateIdle | statePreparing | stateConnected | stateStopping | stateFailed.

#[export] Instance lifecycleState_eq_dec : EqDecision lifecycleState.
Proof. solve_decision. Defined.

Definition lifecycleString (s : lifecycleState) : string :=
  match s with
  | stateIdle => "IDLE" | statePreparing => "PREPARING" | stateConnected => "CONNECTED"
  | stateStopping => "STOPPING" | stateFailed => "FAILED"
  end.

Definition lifecycleBusyError (s : lifecycleState) : gerr :=
  EText ("native session runtime lifecycle is " +:+ lifecycleString s).

(** ** Calls that may panic *)

(** The panic keeps what the call had changed. *)
Inductive outcome (A : Type) :=
| Returns (a : A)
| Panics (message : string).
Arguments Returns {A}.
Arguments Panics {A}.

(** [runLockedWithPanicRecovery] for an operation on [S]: the cleanup runs in
    the recovering defer, with the lock still held; a panic of the cleanup
    leaves it. *)
Definition runLockedWithPanicRecovery {S : Type} (label : string)
    (operation cleanup : S -> S * outcome (option gerr)) (s : S) : S * outcome (option gerr) :=
  let '(s, res) := operation s in
  match res with
  | Returns err => (s, Returns err)
  | Panics message =>
      let cause := EText (label +:+ " panic: " +:+ message) in
      let '(s, res) := cleanup s in
      match res with
      | Returns cleanupErr => (s, Returns (join [Some cause; cleanupErr]))
      | Panics message => (s, Panics message)
      end
  end.

(** ** The mobile runtime *)

Inductive mcall :=
| EngineStarted
| EngineStopped (err : option gerr)
| TunClosed (err : option gerr).

(** [mb_tun] and [mb_engine] say the pointer is not nil. *)
Record mobile := mkMobile {
  mb_tun : bool;
  mb_engine : bool;
  mb_cleanupErr : option gerr;
  mb_state : lifecycleState;
  mb_tunOwned : bool;
  mb_tunCloseAttempted : bool;
  mb_tunCloseErr : option gerr;
  mb_canceled : bool;
  mb_trace : list mcall
}.
#[export] Instance eta_mobile : Settable mobile :=
  fun x => mkMobile (mb_tun x) (mb_engine x) (mb_cleanupErr x) (mb_state x) (mb_tunOwned x)
             (mb_tunCloseAttempted x) (mb_tunCloseErr x) (mb_canceled x) (mb_trace x).

Definition newNativeRuntime (tun : bool) : mobile :=
  mkMobile tun false None stateIdle false false None false [].

Definition CancelConnect (c : mobile) : mobile := c <| mb_canceled := true |>.

Definition mrecord (e : mcall) (c : mobile) : mobile := c <| mb_trace ::= fun t => t ++ [e] |>.

Section env.
(** [tun.Close]; [Engine.Stop]. *)
Context (close : outcome (option gerr)) (stop : outcome (option gerr)).

Definition closeTunLocked (c : mobile) : mobile * outcome (option gerr) :=
  if negb (mb_tun c) then (c, Returns None)
  else if mb_tunCloseAttempted c then (c, Returns (mb_tunCloseErr c))
  else
    let c := c <| mb_tunCloseAttempted := true |> in
    match close with
    | Panics message => (mrecord (TunClosed (Some (EText message))) c, Panics message)
    | Returns err => (mrecord (TunClosed err) c <| mb_tunCloseErr := err |>, Returns err)
    end.

Definition cleanupTun (c : mobile) : mobile * outcome (option gerr) :=
  if mb_tunOwned c && mb_tun c then
    let '(c, res) := closeTunLocked c in
    match res with
    | Returns None => (c <| mb_tunOwned := false |> <| mb_tun := false |>, Returns None)
    | res => (c, res)
    end
  else (c, Returns None).

Definition cleanupResourcesLocked (c : mobile) : mobile * outcome (option gerr) :=
  if mb_engine c then
    match stop with
    | Panics message => (mrecord (EngineStopped (Some (EText message))) c, Panics message)
    | Returns (Some err) => (mrecord (EngineStopped (Some err)) c, Returns (Some err))
    | Returns None => cleanupTun (mrecord (EngineStopped None) c <| mb_engine := false |>)
    end
  else cleanupTun c.

Definition disconnectLocked (c : mobile) : mobile * outcome (option gerr) :=
  if bool_decide (mb_state c = stateIdle) then (c, Returns None)
  else
    let '(c, res) := cleanupResourcesLocked (c <| mb_state := stateStopping |>) in
    match res with
    | Panics message => (c, Panics message)
    | Returns (Some err) =>
        (c <| mb_cleanupErr := Some err |> <| mb_state := stateFailed |>, Returns (Some err))
    | Returns None =>
        (c <| mb_cleanupErr := None |> <| mb_state := stateIdle |> <| mb_engine := false |>
           <| mb_tun := false |>, Returns None)
    end.

(** [fail] of [connectLocked]. *)
Definition connectFail (cause : gerr) (c : mobile) : mobile * outcome (option gerr) :=
  let '(c, res) := cleanupResourcesLocked (c <| mb_state := stateFailed |>) in
  match res with
  | Panics message => (c, Panics message)
  | Returns cleanupErr =>
      (c <| mb_cleanupErr := cleanupErr |>, Returns (join [Some cause; cleanupErr]))
  end.
End env.

(** [StartOwnedFDEngine]: a handle, or an error with or without one. *)
Inductive startReply :=
| EngineRuns
| EngineFailed (handle : bool) (err : gerr).

(** What one Connect meets: the first and the second look at the cancellation
    channel are [CancelConnect] events that arrived in between; a panic while
    the descriptor is prepared; what [StartOwnedFDEngine] returns; closing the wrapper; and the stops of [fail]
    and of the recovery. *)
Record connectEnv := mkConnectEnv {
  ce_cancel1 : bool;
  ce_fd : outcome bool;
  ce_start : outcome startReply;
  ce_cancel2 : bool;
  ce_close : outcome (option gerr);
  ce_stopFail : outcome (option gerr);
  ce_closeFail : outcome (option gerr);
  ce_stopPanic : outcome (option gerr);
  ce_closePanic : outcome (option gerr)
}.

(** From the started engine to CONNECTED. *)
Definition handOverTun (env : connectEnv) (c : mobile) : mobile * outcome (option gerr) :=
  let fail := connectFail (ce_closeFail env) (ce_stopFail env) in
  if mb_tun c then
    let '(c, res) := closeTunLocked (ce_close env) c in
    match res with
    | Panics message => (c, Panics message)
    | Returns (Some err) => fail (EWrap "failed to close local TUN after engine start" err) c
    | Returns None =>
        (c <| mb_tunOwned := false |> <| mb_tun := false |> <| mb_state := stateConnected |>,
         Returns None)
    end
  else (c <| mb_state := stateConnected |>, Returns None).

Definition startEngine (env : connectEnv) (c : mobile) : mobile * outcome (option gerr) :=
  let fail := connectFail (ce_closeFail env) (ce_stopFail env) in
  match ce_start env with
  | Panics message => (c, Panics message)
  | Returns (EngineFailed handle err) =>
      let c := c <| mb_engine := handle |> in
      let c := if handle then mrecord EngineStarted c else c in
      fail (EWrap "failed to start tun2socks engine" err) c
  | Returns EngineRuns =>
      let c := mrecord EngineStarted c <| mb_engine := true |> in
      let c := if ce_cancel2 env then CancelConnect c else c in
      if mb_canceled c
      then fail (EText "mobile session connect canceled after tun2socks startup") c
      else handOverTun env c
  end.

Definition connectLocked (env : connectEnv) (c : mobile) : mobile * outcome (option gerr) :=
  let fail := connectFail (ce_closeFail env) (ce_stopFail env) in
  if negb (bool_decide (mb_state c = stateIdle))
  then (c, Returns (Some (lifecycleBusyError (mb_state c))))
  else
    let c := c <| mb_state := statePreparing |> <| mb_cleanupErr := None |>
               <| mb_tunOwned := false |> <| mb_tunCloseAttempted := false |>
               <| mb_tunCloseErr := None |> in
    let c := if ce_cancel1 env then CancelConnect c else c in
    if mb_canceled c
    then fail (EText "mobile session connect canceled before native startup") c
    else if negb (mb_tun c) then fail (EText "mobile TUN device is not initialized") c
    else
      let c := c <| mb_tunOwned := true |> in
      match ce_fd env with
      | Panics message => (c, Panics message)
      | Returns false => fail (EText "TUN device does not expose a descriptor") c
      | Returns true => startEngine env c
      end.

Definition Connect (env : connectEnv) (c : mobile) : mobile * outcome (option gerr) :=
  runLockedWithPanicRecovery "mobile session connect" (connectLocked env)
    (disconnectLocked (ce_closePanic env) (ce_stopPanic env)) c.

Inductive mobileEvent :=
| MConnect (env : connectEnv)
| MCancel
| MDisconnect (close stop : outcome (option gerr)).

Definition mb_step (ev : mobileEvent) (c : mobile) : mobile * outcome (option gerr) :=
  match ev with
  | MConnect env => Connect env c
  | MCancel => (CancelConnect c, Returns None)
  | MDisconnect close stop => disconnectLocked close stop c
  end.

Definition mb_run (evs : list mobileEvent) (c : mobile) : mobile :=
  fold_left (fun c ev => (mb_step ev c).1) evs c.
