(* ===== verification/NativeTheorems.v ===== *)
(** * What the mobile native runtime guarantees

    The engine that was started is stopped or still held, the TUN wrapper is
    closed at most once, and while an engine runs only as the hand-over of its
    descriptor to it, and the states say what is owned. *)

From S2P Require Import Prelude Errors Values Native.
Local Open Scope string_scope.
Local Open Scope list_scope.

(** ** Counting the record *)

Definition started (e : mcall) : nat := match e with EngineStarted => 1 | _ => 0 end.
Definition stopped (e : mcall) : nat := match e with EngineStopped None => 1 | _ => 0 end.
Definition tunClosed (e : mcall) : nat := match e with TunClosed _ => 1 | _ => 0 end.

Definition count (f : mcall -> nat) (c : mobile) : nat := sum_list_with f (mb_trace c).

Lemma count_mrecord f e c : count f (mrecord e c) = count f c + f e.
Proof. unfold count, mrecord. cbn. rewrite sum_list_with_app. cbn. lia. Qed.

(** ** The order of the record *)

(** The wrapper may be closed: no engine runs, or the last thing that happened
    is that an engine started with its own copy of the descriptor. *)
Definition closable (t : list mcall) : Prop :=
  sum_list_with started t = sum_list_with stopped t \/ exists before, t = before ++ [EngineStarted].

Definition ordered (t : list mcall) : Prop :=
  forall before err after, t = before ++ TunClosed err :: after -> closable before.

Lemma ordered_snoc e t :
  ordered t -> (forall err, e = TunClosed err -> closable t) -> ordered (t ++ [e]).
Proof.
  intros Ho He before err after Heq. destruct after as [|x after _] using rev_ind.
  - apply app_inj_tail in Heq as [-> ->]. by eapply He.
  - rewrite app_comm_cons, app_assoc in Heq. apply app_inj_tail in Heq as [-> _]. by eapply Ho.
Qed.

(** ** The invariant *)

(** Engines and the TUN wrapper are accounted for. *)
Record Accounted (c : mobile) : Prop := mkAccounted {
  ac_engine : count started c = count stopped c + (if mb_engine c then 1 else 0);
  ac_tun : count tunClosed c <= 1;
  ac_fresh : mb_tun c = true -> mb_tunCloseAttempted c = false -> count tunClosed c = 0;
  ac_order : ordered (mb_trace c)
}.

Record MInv (c : mobile) : Prop := mkMInv {
  mi_accounted : Accounted c;
  mi_idle : mb_state c = stateIdle -> mb_engine c = false /\ (mb_tun c = true -> count tunClosed c = 0);
  mi_connected : mb_state c = stateConnected -> mb_engine c = true /\ mb_tun c = false /\ mb_tunOwned c = false;
  mi_settled : mb_state c <> statePreparing
}.

Lemma MInv_new tun : MInv (newNativeRuntime tun).
Proof. constructor; [constructor; cbn; try done; [lia|by intros [|? ?] ? ?]|done|done|done]. Qed.

(** ** Releasing *)

(** What a cleanup may do: the state is its caller's, and the TUN is closed
    only once the engine is gone. *)
Record Released (c c' : mobile) (res : outcome (option gerr)) : Prop := mkReleased {
  re_accounted : Accounted c';
  re_state : mb_state c' = mb_state c;
  re_canceled : mb_canceled c' = mb_canceled c;
  re_order : mb_engine c' = true -> count tunClosed c' = count tunClosed c;
  re_done : res = Returns None -> mb_engine c' = false
}.

Ltac account := cbn; rewrite ?count_mrecord; cbn; try done; try lia.

Lemma closeTunLocked_accounted close c c' res :
  Accounted c -> closable (mb_trace c) -> closeTunLocked close c = (c', res) ->
  Accounted c' /\ mb_engine c' = mb_engine c /\ mb_state c' = mb_state c /\ mb_canceled c' = mb_canceled c /\
  (mb_tun c = false -> count tunClosed c' = count tunClosed c).
Proof.
  intros Hacc Hcl. pose proof Hacc as [A1 A2 A3 A4]. unfold closeTunLocked. destruct (mb_tun c) eqn:Ht; cbn [negb].
  2:{ intros [= <- <-]. by split_and!. }
  destruct (mb_tunCloseAttempted c) eqn:Hc; [intros [= <- <-]; by split_and!|].
  specialize (A3 eq_refl eq_refl). unfold count in *.
  destruct close as [err|m]; intros [= <- <-]; split_and!; try done; constructor; cbn;
    rewrite ?sum_list_with_app; cbn; try done; try lia; by apply ordered_snoc.
Qed.

Lemma cleanupTun_released close c c' res :
  Accounted c -> mb_engine c = false -> cleanupTun close c = (c', res) -> Released c c' res.
Proof.
  intros Hacc He. unfold cleanupTun. destruct (mb_tunOwned c && mb_tun c).
  2:{ intros [= <- <-]. by constructor; [..|rewrite He|]. }
  destruct (closeTunLocked close c) as [c1 r] eqn:Hc.
  assert (closable (mb_trace c)) as Hcl.
  { left. pose proof (ac_engine _ Hacc) as Hn. rewrite He in Hn. unfold count in Hn. lia. }
  destruct (closeTunLocked_accounted _ _ _ _ Hacc Hcl Hc) as (A & E & S & C & _).
  assert (Released c c1 r) as Hrel by (constructor; try done; by rewrite E, He).
  destruct r as [[err|]|m]; intros [= <- <-]; try done.
  destruct A as [A1 A2 A3 A4]. constructor; cbn; try done; try by rewrite E, He.
Qed.

Lemma cleanup_released close stop c c' res :
  Accounted c -> cleanupResourcesLocked close stop c = (c', res) -> Released c c' res.
Proof.
  intros Hacc. pose proof Hacc as [A1 A2 A3 A4]. unfold cleanupResourcesLocked.
  destruct (mb_engine c) eqn:He; [|by intros H; eapply cleanupTun_released].
  assert (forall e, stopped e = 0 -> started e = 0 -> tunClosed e = 0 ->
    Accounted (mrecord e c) /\ count tunClosed (mrecord e c) = count tunClosed c) as Hrec.
  { intros e E1 E2 E3. split; [|rewrite count_mrecord; lia].
    constructor; rewrite ?count_mrecord, ?E1, ?E2, ?E3; cbn; rewrite ?He; try lia.
    - intros H1 H2. rewrite (A3 H1 H2). lia.
    - apply ordered_snoc; [done|]. by intros err ->. }
  destruct stop as [[err|]|m].
  - intros [= <- <-]. destruct (Hrec (EngineStopped (Some err))) as [H1 H2]; [done..|].
    by constructor.
  - intros H. set (c1 := mrecord (EngineStopped None) c <| mb_engine := false |>) in H.
    assert (Accounted c1 /\ count tunClosed c1 = count tunClosed c) as [Hacc1 Ht].
    { unfold c1, count in *. cbn. rewrite !sum_list_with_app. cbn.
      split; [|lia]. constructor; unfold count; cbn; rewrite ?sum_list_with_app; cbn; try lia.
      - intros H1 H2. rewrite (A3 H1 H2). lia.
      - by apply ordered_snoc. }
    destruct (cleanupTun_released close c1 c' res Hacc1 eq_refl H) as [R1 R2 R3 R4 R5].
    by constructor; [..|rewrite <- Ht|].
  - intros [= <- <-]. destruct (Hrec (EngineStopped (Some (EText m)))) as [H1 H2]; [done..|].
    by constructor.
Qed.

(** ** Connecting and disconnecting *)

Lemma disconnect_MInv close stop c c' res :
  Accounted c -> (mb_state c = stateIdle -> MInv c) -> disconnectLocked close stop c = (c', res) ->
  MInv c' /\ (res = Returns None -> mb_state c' = stateIdle /\ mb_engine c' = false) /\
  (mb_engine c' = true -> count tunClosed c' = count tunClosed c).
Proof.
  intros Hacc Hidle. unfold disconnectLocked. case_bool_decide as Hs.
  { intros [= <- <-]. specialize (Hidle Hs). pose proof Hidle as [_ H _ _]. by destruct (H Hs). }
  destruct (cleanupResourcesLocked close stop (c <| mb_state := stateStopping |>)) as [c1 r] eqn:Hc.
  assert (Accounted (c <| mb_state := stateStopping |>)) as Hacc' by by destruct Hacc.
  destruct (cleanup_released _ _ _ _ _ Hacc' Hc) as [R1 R2 R3 R4 R5]. cbn in R2, R3.
  pose proof R1 as [A1 A2 A3 A4]. destruct r as [[err|]|m]; intros [= <- <-].
  - split_and!; [|done|done]. constructor; cbn; try done.
  - rewrite R5 in A1 by done. split_and!; [|done|done].
    constructor; cbn; try done.
  - split_and!; [|done|done]. constructor; cbn; [done|..]; rewrite R2; done.
Qed.

Lemma disconnect_state close stop c c' res :
  mb_state c <> stateConnected -> disconnectLocked close stop c = (c', res) -> Accounted c ->
  mb_state c' <> stateConnected.
Proof.
  intros Hs. unfold disconnectLocked. case_bool_decide; [by intros [= <- <-]|].
  destruct (cleanupResourcesLocked close stop (c <| mb_state := stateStopping |>)) as [c1 r] eqn:Hc.
  intros Hend Hacc. assert (Accounted (c <| mb_state := stateStopping |>)) as Hacc' by by destruct Hacc.
  destruct (cleanup_released _ _ _ _ _ Hacc' Hc) as [_ R2 _ _ _]. cbn in R2.
  destruct r as [[err|]|m]; injection Hend as <- <-; try done. by rewrite R2.
Qed.

(** What an unfinished Connect leaves to the recovery. *)
Definition Connecting (c' : mobile) (res : outcome (option gerr)) : Prop :=
  match res with
  | Returns None => MInv c' /\ mb_state c' = stateConnected
  | Returns (Some _) => MInv c' /\ mb_state c' <> stateConnected
  | Panics _ => Accounted c' /\ mb_state c' <> stateIdle /\ mb_state c' <> stateConnected
  end.

Lemma join_cause cause err : exists e, join [Some cause; err] = Some e.
Proof. destruct err; by eexists. Qed.

Lemma connectFail_connecting close stop cause c c' res :
  Accounted c -> connectFail close stop cause c = (c', res) -> Connecting c' res.
Proof.
  intros Hacc. unfold connectFail.
  destruct (cleanupResourcesLocked close stop (c <| mb_state := stateFailed |>)) as [c1 r] eqn:Hc.
  assert (Accounted (c <| mb_state := stateFailed |>)) as Hacc' by by destruct Hacc.
  destruct (cleanup_released _ _ _ _ _ Hacc' Hc) as [R1 R2 R3 R4 R5]. cbn in R2.
  destruct r as [err|m]; intros [= <- <-].
  - destruct (join_cause cause err) as [e ->]. cbn.
    split; [|by rewrite R2]. constructor; cbn; rewrite ?R2; try done; by destruct R1.
  - cbn. by rewrite R2.
Qed.

Lemma handOverTun_connecting env c c' res :
  Accounted c -> mb_state c = statePreparing -> mb_engine c = true -> mb_tunOwned c = true ->
  mb_tun c = true -> (exists before, mb_trace c = before ++ [EngineStarted]) ->
  handOverTun env c = (c', res) -> Connecting c' res.
Proof.
  intros Hacc Hs He Ho Ht Hstarted. unfold handOverTun. rewrite Ht.
  destruct (closeTunLocked (ce_close env) c) as [c1 r] eqn:Hc.
  destruct (closeTunLocked_accounted _ _ _ _ Hacc (or_intror Hstarted) Hc) as ([A1 A2 A3 A4] & E & S & C & _).
  destruct r as [[err|]|m].
  - by apply connectFail_connecting.
  - intros [= <- <-]. cbn. split; [|done]. constructor; cbn; try done; by rewrite E.
  - intros [= <- <-]. cbn. split; [done|]. by rewrite S, Hs.
Qed.

Lemma startEngine_connecting env c c' res :
  Accounted c -> mb_state c = statePreparing -> mb_engine c = false -> mb_tunOwned c = true ->
  mb_tun c = true -> startEngine env c = (c', res) -> Connecting c' res.
Proof.
  intros Hacc Hs He Ho Ht. unfold startEngine.
  assert (forall b, Accounted (c <| mb_engine := b |>) \/ b = true) as Hb.
  { intros [|]; [by right|left]. destruct Hacc. rewrite He in *. by constructor. }
  assert (Accounted (mrecord EngineStarted c <| mb_engine := true |>)) as Hup.
  { destruct Hacc as [A1 A2 A3 A4]. rewrite He in A1. unfold count in *.
    constructor; unfold count; cbn; rewrite ?sum_list_with_app; cbn; try lia.
    - intros H1 H2. rewrite (A3 H1 H2). lia.
    - by apply ordered_snoc. }
  destruct (ce_start env) as [[|handle err]|m].
  - set (c1 := mrecord EngineStarted c <| mb_engine := true |>) in *.
    set (c2 := if ce_cancel2 env then CancelConnect c1 else c1).
    assert (Accounted c2 /\ mb_state c2 = mb_state c /\ mb_engine c2 = true /\ mb_tunOwned c2 = mb_tunOwned c /\
      mb_tun c2 = mb_tun c /\ mb_trace c2 = mb_trace c ++ [EngineStarted]) as (H1 & H2 & H3 & H4 & H5 & H6).
    { unfold c2. destruct (ce_cancel2 env); [|done]. by destruct Hup. }
    destruct (mb_canceled c2); [by apply connectFail_connecting|].
    apply handOverTun_connecting; try congruence. by exists (mb_trace c).
  - apply connectFail_connecting. destruct handle; [done|]. by destruct (Hb false).
  - intros [= <- <-]. cbn. by rewrite Hs.
Qed.

Lemma connectLocked_connecting env c c' res :
  MInv c -> mb_state c = stateIdle -> connectLocked env c = (c', res) -> Connecting c' res.
Proof.
  intros [[A1 A2 A3 A4] Hidle _ _] Hs. unfold connectLocked. rewrite bool_decide_eq_true_2 by done. cbn [negb].
  destruct (Hidle Hs) as [He Ht].
  set (c1 := c <| mb_state := statePreparing |> <| mb_cleanupErr := None |> <| mb_tunOwned := false |>
               <| mb_tunCloseAttempted := false |> <| mb_tunCloseErr := None |>).
  set (c2 := if ce_cancel1 env then CancelConnect c1 else c1).
  assert (Accounted c1) as H1 by (constructor; [exact A1|exact A2|intros ? _; by apply Ht|exact A4]).
  assert (Accounted c2 /\ mb_state c2 = statePreparing /\ mb_engine c2 = false) as (H2 & H3 & H4).
  { unfold c2. destruct (ce_cancel1 env); cbn; by destruct H1. }
  destruct (mb_canceled c2); [by apply connectFail_connecting|].
  destruct (mb_tun c2) eqn:Ht2; cbn [negb]; [|by apply connectFail_connecting].
  assert (Accounted (c2 <| mb_tunOwned := true |>)) as H5 by by destruct H2.
  destruct (ce_fd env) as [[|]|m]; [|by apply connectFail_connecting|].
  - by apply startEngine_connecting.
  - intros [= <- <-]. split; [exact H5|]. cbn. by rewrite H3.
Qed.

Lemma Connect_MInv env c c' res :
  MInv c -> Connect env c = (c', res) ->
  MInv c' /\ (res = Returns None <-> mb_state c = stateIdle /\ mb_state c' = stateConnected).
Proof.
  intros Hinv. unfold Connect, runLockedWithPanicRecovery.
  destruct (decide (mb_state c = stateIdle)) as [Hs|Hs].
  2:{ unfold connectLocked. rewrite bool_decide_eq_false_2 by done. cbn [negb]. intros [= <- <-].
      split; [done|]. split; [done|]. by intros [? _]. }
  destruct (connectLocked env c) as [c1 r] eqn:Hc.
  pose proof (connectLocked_connecting env c c1 r Hinv Hs Hc) as H.
  destruct r as [[err|]|m]; cbn in H.
  - intros [= <- <-]. destruct H as [H1 H2]. split; [done|]. split; [done|]. by intros [_ ?].
  - intros [= <- <-]. by destruct H.
  - destruct (disconnectLocked (ce_closePanic env) (ce_stopPanic env) c1) as [c2 r] eqn:Hd.
    destruct H as (H1 & H2 & H3).
    destruct (disconnect_MInv _ _ _ _ _ H1 (fun Hi => False_ind _ (H2 Hi)) Hd) as (I1 & I2 & I3).
    assert (mb_state c2 <> stateConnected) as Hn by (by eapply disconnect_state).
    destruct r as [err|m']; intros [= <- <-]; (split; [done|]); (split; [|by intros [_ ?]]); [|done].
    destruct (join_cause (EText ("mobile session connect" +:+ " panic: " +:+ m)) err) as [e He].
    cbn in He |- *. by rewrite He.
Qed.

Lemma mb_run_MInv evs c : MInv c -> MInv (mb_run evs c).
Proof.
  revert c. induction evs as [|ev evs IH]; intros c Hinv; [done|]. cbn. apply IH.
  destruct ev as [env| |close stop]; cbn.
  - destruct (Connect env c) as [c' res] eqn:E. by destruct (Connect_MInv env c c' res Hinv E).
  - destruct Hinv as [[A1 A2 A3 A4] H1 H2 H3]. by constructor; [constructor|..].
  - destruct (disconnectLocked close stop c) as [c' res] eqn:E. pose proof Hinv as [Hacc _ _ _].
    by destruct (disconnect_MInv close stop c c' res Hacc (fun _ => Hinv) E).
Qed.

(** A connect that succeeds started one engine and then closed the wrapper. *)
Lemma closeTunLocked_records close c c' :
  mb_tun c = true -> mb_tunCloseAttempted c = false -> closeTunLocked close c = (c', Returns None) ->
  mb_trace c' = mb_trace c ++ [TunClosed None].
Proof.
  unfold closeTunLocked. intros -> ->. cbn. destruct close as [err|m]; [|done]. by intros [= <- ->].
Qed.

Lemma connectFail_fails close stop cause c : (connectFail close stop cause c).2 <> Returns None.
Proof.
  unfold connectFail. destruct (cleanupResourcesLocked _ _ _) as [c1 [err|m]]; [|done].
  by destruct (join_cause cause err) as [e ->].
Qed.

Lemma Connect_records env c :
  (Connect env c).2 = Returns None ->
  mb_trace (Connect env c).1 = mb_trace c ++ [EngineStarted; TunClosed None].
Proof.
  unfold Connect, runLockedWithPanicRecovery. destruct (connectLocked env c) as [c1 r] eqn:Hc.
  destruct r as [err|m].
  2: { destruct (disconnectLocked _ _ c1) as [c2 [err|m']]; [|done].
       by destruct (join_cause (EText ("mobile session connect" +:+ " panic: " +:+ m)) err) as [e ->]. }
  cbn. intros [= ->]. revert Hc. unfold connectLocked. case_bool_decide; [|done]. cbn [negb].
  set (c2 := if ce_cancel1 env then _ else _).
  assert (mb_trace c2 = mb_trace c /\ mb_tunCloseAttempted c2 = false) as [Ht Ha]
    by (subst c2; by destruct (ce_cancel1 env)).
  clearbody c2.
  assert (forall cause c3 c4, connectFail (ce_closeFail env) (ce_stopFail env) cause c3 = (c4, Returns None) -> False) as Hfail.
  { intros cause c3 c4 Hf. apply (connectFail_fails (ce_closeFail env) (ce_stopFail env) cause c3). by rewrite Hf. }
  destruct (mb_canceled c2); [by intros ?%Hfail|]. destruct (mb_tun c2) eqn:Htun; cbn [negb]; [|by intros ?%Hfail].
  destruct (ce_fd env) as [[|]|]; [|by intros ?%Hfail|done].
  unfold startEngine. destruct (ce_start env) as [[|handle err]|]; [|by intros ?%Hfail|done].
  set (c3 := if ce_cancel2 env then _ else _).
  assert (mb_trace c3 = mb_trace c ++ [EngineStarted] /\ mb_tunCloseAttempted c3 = false /\ mb_tun c3 = true)
    as (Ht3 & Ha3 & Htun3) by (subst c3; destruct (ce_cancel2 env); cbn; by rewrite Ht).
  clearbody c3. destruct (mb_canceled c3); [by intros ?%Hfail|]. unfold handOverTun. rewrite Htun3.
  destruct (closeTunLocked (ce_close env) c3) as [c4 [[err|]|m]] eqn:Hcl; [by intros ?%Hfail| |done].
  intros [= <-]. cbn. by rewrite (closeTunLocked_records _ _ _ Htun3 Ha3 Hcl), Ht3, <- app_assoc.
Qed.

(** C20: Over any history of connects, cancellations and disconnects, and
    whatever the engine, the descriptor and the platform do, panics included:
    every engine that was started has been stopped once or is still held; the
    TUN wrapper is closed at most once, and only when no engine runs or, as the
    hand-over, directly after an engine started with its own copy of the
    descriptor; CONNECTED means a running engine and a released wrapper, and
    IDLE that no engine is held. A Connect succeeds exactly when it takes an
    idle runtime to CONNECTED, and has then started an engine and closed the
    wrapper, in this order; a Disconnect that reports success leaves it IDLE
    with nothing held, and one that leaves an engine closes no wrapper. *)
Theorem mobile_runtime_accounts_for_its_engine (tun : bool) (evs : list mobileEvent) :
  let c := mb_run evs (newNativeRuntime tun) in
  count started c = count stopped c + (if mb_engine c then 1 else 0) /\
  count tunClosed c <= 1 /\
  (forall before err after, mb_trace c = before ++ TunClosed err :: after ->
    sum_list_with started before = sum_list_with stopped before \/
    exists earlier, before = earlier ++ [EngineStarted]) /\
  (mb_state c = stateIdle -> mb_engine c = false) /\
  (mb_state c = stateConnected -> mb_engine c = true /\ mb_tun c = false) /\
  (forall env, (Connect env c).2 = Returns None <->
    mb_state c = stateIdle /\ mb_state (Connect env c).1 = stateConnected) /\
  (forall env, (Connect env c).2 = Returns None ->
    mb_trace (Connect env c).1 = mb_trace c ++ [EngineStarted; TunClosed None]) /\
  (forall close stop, let '(c', res) := disconnectLocked close stop c in
    (res = Returns None -> mb_state c' = stateIdle /\ mb_engine c' = false) /\
    (mb_engine c' = true -> count tunClosed c' = count tunClosed c)).
Proof.
  cbv zeta. pose proof (mb_run_MInv evs _ (MInv_new tun)) as Hinv.
  set (c := mb_run evs (newNativeRuntime tun)) in *. pose proof Hinv as [Hacc H2 H3 H4].
  split_and!; [apply Hacc|apply Hacc|exact (ac_order c Hacc)| | | |intros env; apply Connect_records|].
  - intros Hs. by destruct (H2 Hs).
  - intros Hs. by destruct (H3 Hs) as (? & ? & _).
  - intros env. destruct (Connect env c) as [c' res] eqn:E. by destruct (Connect_MInv env c c' res Hinv E).
  - intros close stop. destruct (disconnectLocked close stop c) as [c' res] eqn:E.
    by destruct (disconnect_MInv close stop c c' res Hacc (fun _ => Hinv) E).
Qed.

(** A connect that works, one whose wrapper will not close and which then
    panics while it is cleaned up, and the disconnect that retries it. *)
Definition exConnect : connectEnv :=
  mkConnectEnv false (Returns true) (Returns EngineRuns) false (Returns None) (Returns None) (Returns None)
    (Returns None) (Returns None).
Definition exPanic : connectEnv :=
  mkConnectEnv false (Returns true) (Returns EngineRuns) false (Panics "close") (Returns None) (Returns None)
    (Returns (Some (EText "engine busy"))) (Returns None).

Example mobile_scenario :
  mb_state (mb_run [MConnect exConnect] (newNativeRuntime true)) = stateConnected /\
  (let c := mb_run [MConnect exPanic] (newNativeRuntime true) in
     (mb_state c, mb_engine c, mb_tun c) = (stateFailed, true, true)) /\
  (let c := mb_run [MConnect exPanic; MDisconnect (Returns None) (Returns None)] (newNativeRuntime true) in
     (mb_state c, mb_engine c, count tunClosed c) = (stateIdle, false, 1)).
Proof. by vm_compute. Qed.
