(* ===== verification/Desktop.v ===== *)
(** * The desktop native runtime (core/sessionapi/runtime/native_runtime_desktop.go, internal/app.go, app_linux.go)

    The adapter a desktop session connects once: its goroutine acquires the
    Linux network, keeps it until it is canceled and releases it through the
    ordered cleanup of [App].  The goroutine, the one [Connect] and every
    [Disconnect] are program counters cut at the mutex, at the channels and at
    the calls to the platform; they step in any order.  The platform may answer
    every call with an error or panic. *)

From S2P Require Import Prelude Errors Values GoStrings Native.
Local Open Scope string_scope.
Local Open Scope list_scope.

(** ** The application *)

(** The three releases [Run] registers, in their order. *)
Inductive releaseStep := StopEngine | ClosePlan | CloseTun.

#[export] Instance release_eq_dec : EqDecision releaseStep.
Proof. solve_decision. Defined.

Definition linuxReleases : list releaseStep := [StopEngine; ClosePlan; CloseTun].

(** What the process holds: the engine and the device behind the variables of
    [Run], leases of the routing plan, the mark of the process's sockets. *)
Record resources := mkResources { h_engine : bool; h_plan : bool; h_tun : bool; h_mark : bool }.
#[export] Instance eta_resources : Settable resources := fun x =>
  mkResources (h_engine x) (h_plan x) (h_tun x) (h_mark x).

Definition nothing : resources := mkResources false false false false.

(** Whose deadline a cleanup runs under: its own, the one [Connect] made when
    it gave up, or that of a [Disconnect]. *)
Inductive cleanupOwner := ByRun | ByConnect | ByDisconnect (id : nat).

Record called := mkCalled {
  ca_owner : cleanupOwner;
  ca_release : releaseStep;
  ca_result : outcome (option gerr)
}.

Record App := mkApp {
  ap_cleanup : list releaseStep;
  ap_cleanupErr : option gerr;
  ap_cleanupContext : option cleanupOwner;
  ap_held : resources;
  ap_trace : list called
}.
#[export] Instance eta_App : Settable App := fun x =>
  mkApp (ap_cleanup x) (ap_cleanupErr x) (ap_cleanupContext x) (ap_held x) (ap_trace x).

Definition setCleanup (releases : list releaseStep) (a : App) : App := a <| ap_cleanup := releases |>.

Definition SetCleanupContext (owner : cleanupOwner) (a : App) : App :=
  a <| ap_cleanupContext := Some owner |>.

Section close.
(** What the engine, the plan and the device answer in this call of [Close]. *)
Context (owner : cleanupOwner) (answer : releaseStep -> outcome (option gerr)).

(** One release: a nil engine or device is not called. *)
Definition releaseCall (r : releaseStep) (h : resources) : resources * outcome (option gerr) :=
  match r with
  | StopEngine =>
      if h_engine h then
        match answer StopEngine with
        | Returns None => (h <| h_engine := false |>, Returns None)
        | res => (h, res)
        end
      else (h, Returns None)
  | ClosePlan =>
      match answer ClosePlan with
      | Returns None => (h <| h_plan := false |>, Returns None)
      | res => (h, res)
      end
  | CloseTun =>
      if h_tun h then
        match answer CloseTun with
        | Returns None => (h <| h_tun := false |> <| h_mark := false |>, Returns None)
        | res => (h, res)
        end
      else (h <| h_mark := false |>, Returns None)
  end.

Definition callRelease (r : releaseStep) (a : App) : App * outcome (option gerr) :=
  let '(h, res) := releaseCall r (ap_held a) in
  (a <| ap_held := h |> <| ap_trace ::= cons (mkCalled owner r res) |>, res).

Fixpoint closeAll (releases : list releaseStep) (a : App) : App * outcome (option gerr) :=
  match releases with
  | [] => (a <| ap_cleanup := [] |>, Returns None)
  | r :: rest =>
      let '(a, res) := callRelease r a in
      match res with
      | Returns None => closeAll rest a
      | res => (a <| ap_cleanup := r :: rest |>, res)
      end
  end.

Definition AppClose (a : App) : App * option gerr :=
  let '(a, res) := closeAll (ap_cleanup a) a in
  match res with
  | Returns None => (a <| ap_cleanupErr := None |>, None)
  | Returns (Some err) => (a <| ap_cleanupErr := Some err |>, Some (ECleanup err))
  | Panics message =>
      let err := EText ("native cleanup panic: " +:+ message) in
      (a <| ap_cleanupErr := Some err |>, Some (ECleanup err))
  end.
End close.

Definition finishCleanup (answer : releaseStep -> outcome (option gerr)) (runErr : option gerr) (a : App) :
    App * option gerr :=
  let owner := default ByRun (ap_cleanupContext a) in
  let '(a, err) := AppClose owner answer a in
  match err with
  | Some err => (a, join [runErr; Some err])
  | None => (a, runErr)
  end.

(** ** Acquiring the network *)

Inductive linuxStep :=
| ValidateRunInputs
| RecoverRules
| RecoverRoutes
| PhysicalInterface
| InterfaceByIndex
| CaptureLink
| RegisterCleanup
| OutputGuard
| CaptureResolver
| NewTunDevice
| TunDescriptor
| StartEngine
| LinuxNetwork
| ResolvedDNS.

#[export] Instance linuxStep_eq_dec : EqDecision linuxStep.
Proof. solve_decision. Defined.

Definition linuxSteps : list linuxStep :=
  [ValidateRunInputs; RecoverRules; RecoverRoutes; PhysicalInterface; InterfaceByIndex; CaptureLink;
   RegisterCleanup; OutputGuard; CaptureResolver; NewTunDevice; TunDescriptor; StartEngine; LinuxNetwork;
   ResolvedDNS].

(** What a step leaves behind.  A failed creation of the device or the engine
    may still hand over what it had made ([partly]); an acquisition of the plan
    may have applied something even when it failed. *)
Definition acquires (step : linuxStep) (res : outcome (option gerr)) (partly : bool) (h : resources) :
    resources :=
  let made := match res with Returns None => true | Returns (Some _) => partly | Panics _ => false end in
  match step with
  | OutputGuard | ResolvedDNS => h <| h_plan := true |>
  | NewTunDevice => h <| h_tun := made |>
  | StartEngine => h <| h_engine := made |>
  | LinuxNetwork =>
      match res with
      | Returns None => h <| h_plan := true |> <| h_mark := true |>
      | _ => h <| h_plan := true |>
      end
  | _ => h
  end.

Inductive runPC :=
| NotStarted
| Acquiring (steps : list linuxStep)
| Maintaining
| CleaningUp (res : outcome (option gerr))
| FinishingRun (runErr : option gerr)
| ClosingDone
| RunEnded.

(** ** The runtime *)

Inductive stopReason := InitFailed (err : gerr) | Canceled | TimedOut.

Definition reasonText (why : stopReason) : string :=
  match why with
  | InitFailed _ => "after initialization error"
  | Canceled => "after acquisition cancellation"
  | TimedOut => "after initialization timeout"
  end.

(** [Connect] in its select, publishing CONNECTED, or giving up: at the lock of
    [stopAndWait], waiting for the goroutine, marking FAILED, reading the error
    of the run. *)
Inductive connectPC :=
| NotConnected
| Selecting
| Publishing
| StoppingRun (why : stopReason)
| AwaitingRun (why : stopReason)
| MarkingFailed (why : stopReason) (shutdownErr : option gerr)
| Joining (why : stopReason) (shutdownErr : option gerr)
| ConnectReturned (res : option gerr).

Inductive disconnectPC :=
| AwaitingShutdown
| ReadingCleanupError
| BecomingIdle
| DisconnectReturned (res : option gerr).

(** [dt_cancel] and [dt_done] say the fields are not nil; [dt_canceled] that
    the context of the run ended, [dt_doneClosed] that the run's channel is
    closed; [dt_init] is the buffered initialization result. *)
Record desktop := mkDesktop {
  dt_app : App;
  dt_state : lifecycleState;
  dt_runErr : option gerr;
  dt_generation : Z;
  dt_cancel : bool;
  dt_done : bool;
  dt_run : runPC;
  dt_canceled : bool;
  dt_init : option (option gerr);
  dt_doneClosed : bool;
  dt_connect : connectPC;
  dt_disconnects : gmap nat disconnectPC
}.
#[export] Instance eta_desktop : Settable desktop := fun x =>
  mkDesktop (dt_app x) (dt_state x) (dt_runErr x) (dt_generation x) (dt_cancel x) (dt_done x)
    (dt_run x) (dt_canceled x) (dt_init x) (dt_doneClosed x) (dt_connect x) (dt_disconnects x).

Definition newDesktopRuntime : desktop :=
  mkDesktop (mkApp [] None None nothing []) stateIdle None 0 false false NotStarted false None false
    NotConnected ∅.

(** The generation of the one run. *)
Definition runGeneration : Z := 1.

(** [cancel()] of the field, when it is not nil. *)
Definition cancelRun (c : desktop) : desktop :=
  if dt_cancel c then c <| dt_canceled := true |> else c.

(** *** Connect *)

Definition connectBegin (c : desktop) : desktop :=
  if negb (bool_decide (dt_state c = stateIdle))
  then c <| dt_connect := ConnectReturned (Some (lifecycleBusyError (dt_state c))) |>
  else
    c <| dt_generation ::= fun g => u64 (g + 1) |> <| dt_state := statePreparing |>
      <| dt_runErr := None |> <| dt_cancel := true |> <| dt_done := true |>
      <| dt_run := Acquiring linuxSteps |> <| dt_connect := Selecting |>.

(** The case the select takes; it takes one that is ready. *)
Inductive selected := InitResult | ContextDone | After30s.

Definition connectSelect (case : selected) (c : desktop) : desktop :=
  match case with
  | InitResult =>
      match dt_init c with
      | Some (Some err) => c <| dt_init := None |> <| dt_connect := StoppingRun (InitFailed err) |>
      | Some None => c <| dt_init := None |> <| dt_connect := Publishing |>
      | None => c
      end
  | ContextDone => if dt_canceled c then c <| dt_connect := StoppingRun Canceled |> else c
  | After30s => c <| dt_connect := StoppingRun TimedOut |>
  end.

Definition connectPublish (c : desktop) : desktop :=
  if negb (dt_generation c =? runGeneration)%Z || negb (bool_decide (dt_state c = statePreparing))
  then c <| dt_connect := ConnectReturned (Some (EText ("native session runtime start generation " +:+
         Itoa runGeneration +:+ " was cancelled while " +:+ lifecycleString (dt_state c)))) |>
  else c <| dt_state := stateConnected |> <| dt_connect := ConnectReturned None |>.

(** After [stopAndWait] returned. *)
Definition connectStopped (why : stopReason) (shutdownErr : option gerr) : connectPC :=
  match why with
  | Canceled => ConnectReturned (join [Some (ESent CtxCanceled); shutdownErr])
  | _ => MarkingFailed why shutdownErr
  end.

(** [stopAndWait] up to the wait. *)
Definition stopAndWait (why : stopReason) (c : desktop) : desktop :=
  let c := c <| dt_app ::= SetCleanupContext ByConnect |> <| dt_state := stateStopping |> in
  let c := cancelRun c in
  if dt_done c then c <| dt_connect := AwaitingRun why |>
  else c <| dt_connect := connectStopped why None |>.

(** The select of [waitForShutdown]: the run's channel is closed, or the
    deadline [expired] and is chosen; [None] is neither yet. *)
Definition waitForShutdown (reason : string) (expired : option gerr) (c : desktop) :
    option (option gerr) :=
  match expired with
  | Some err =>
      Some (Some (EWrap ("waiting for native session runtime shutdown after " +:+ reason) err))
  | None => if dt_doneClosed c then Some None else None
  end.

Definition terminalRunError (generation : Z) (c : desktop) : option gerr :=
  if (dt_generation c =? generation)%Z then dt_runErr c else None.

Definition failText (why : stopReason) : option gerr :=
  match why with
  | InitFailed err => Some (EWrap "failed to initialize native session runtime" err)
  | Canceled => Some (ESent CtxCanceled)
  | TimedOut => Some (EText "timeout waiting for native session runtime initialization")
  end.

Definition connectStep (case : selected) (expired : option gerr) (c : desktop) : desktop :=
  match dt_connect c with
  | NotConnected => connectBegin c
  | Selecting => connectSelect case c
  | Publishing => connectPublish c
  | StoppingRun why => stopAndWait why c
  | AwaitingRun why =>
      match waitForShutdown (reasonText why) expired c with
      | Some shutdownErr => c <| dt_connect := connectStopped why shutdownErr |>
      | None => c
      end
  | MarkingFailed why shutdownErr =>
      (if (dt_generation c =? runGeneration)%Z then c <| dt_state := stateFailed |> else c)
        <| dt_connect := Joining why shutdownErr |>
  | Joining why shutdownErr =>
      c <| dt_connect := ConnectReturned
             (join [failText why; shutdownErr; terminalRunError runGeneration c]) |>
  | ConnectReturned _ => c
  end.

(** *** The goroutine *)

(** [signalInit]: the buffer of one keeps the first result. *)
Definition signalInit (err : option gerr) (c : desktop) : desktop :=
  match dt_init c with None => c <| dt_init := Some err |> | Some _ => c end.

Definition finishRun (generation : Z) (runErr : option gerr) (c : desktop) : desktop :=
  if negb (dt_generation c =? generation)%Z then c
  else
    c <| dt_runErr := runErr |>
      <| dt_state := if bool_decide (dt_state c = stateStopping) && bool_decide (runErr = None)
                     then stateIdle else stateFailed |>
      <| dt_cancel := false |> <| dt_done := false |>.

(** One step of [Run]; the end of the steps is the signal that it is ready. *)
Definition acquireStep (steps : list linuxStep) (res : outcome (option gerr)) (partly : bool)
    (c : desktop) : desktop :=
  match steps with
  | [] => signalInit None c <| dt_run := Maintaining |>
  | RegisterCleanup :: rest => c <| dt_app ::= setCleanup linuxReleases |> <| dt_run := Acquiring rest |>
  | step :: rest =>
      let c := c <| dt_app ::= fun a => a <| ap_held ::= acquires step res partly |> |> in
      match res with
      | Returns None => c <| dt_run := Acquiring rest |>
      | Returns (Some err) => signalInit (Some err) c <| dt_run := CleaningUp res |>
      | Panics _ => c <| dt_run := CleaningUp res |>
      end
  end.

(** [maintainLinuxResolver] returns nil, once the context ended. *)
Definition maintainStep (res : outcome (option gerr)) (c : desktop) : desktop :=
  match res with
  | Panics message => c <| dt_run := CleaningUp (Panics message) |>
  | Returns _ => if dt_canceled c then c <| dt_run := CleaningUp (Returns None) |> else c
  end.

(** The deferred cleanup, and the recovery of the goroutine when [Run] panicked. *)
Definition cleanupStep (res : outcome (option gerr)) (answer : releaseStep -> outcome (option gerr))
    (c : desktop) : desktop :=
  let runErr := match res with Returns err => err | Panics _ => None end in
  let '(a, err) := finishCleanup answer runErr (dt_app c) in
  let c := c <| dt_app := a |> in
  match res with
  | Returns _ => c <| dt_run := FinishingRun err |>
  | Panics message =>
      let crashed := Some (EText ("native session runtime crashed: " +:+ message)) in
      signalInit crashed c <| dt_run := FinishingRun crashed |>
  end.

Definition runStep (res : outcome (option gerr)) (partly : bool)
    (answer : releaseStep -> outcome (option gerr)) (c : desktop) : desktop :=
  match dt_run c with
  | NotStarted | RunEnded => c
  | Acquiring steps => acquireStep steps res partly c
  | Maintaining => maintainStep res c
  | CleaningUp ended => cleanupStep ended answer c
  | FinishingRun runErr => finishRun runGeneration runErr c <| dt_run := ClosingDone |>
  | ClosingDone => c <| dt_doneClosed := true |> <| dt_run := RunEnded |>
  end.

(** *** Disconnect *)

Definition setDisconnect (id : nat) (pc : disconnectPC) (c : desktop) : desktop :=
  c <| dt_disconnects ::= <[id := pc]> |>.

Definition disconnectBegin (id : nat) (answer : releaseStep -> outcome (option gerr)) (c : desktop) :
    desktop :=
  match dt_state c, dt_done c with
  | stateIdle, _ => setDisconnect id (DisconnectReturned None) c
  | stateStopping, _ =>
      setDisconnect id (DisconnectReturned (Some (lifecycleBusyError stateStopping))) c
  | stateFailed, false =>
      let '(a, err) := AppClose (ByDisconnect id) answer (dt_app c) in
      let c := c <| dt_app := a |> in
      let c := match err with None => c <| dt_state := stateIdle |> | Some _ => c end in
      setDisconnect id (DisconnectReturned err) c
  | _, done =>
      let c := c <| dt_state := stateStopping |> <| dt_app ::= SetCleanupContext (ByDisconnect id) |> in
      let c := cancelRun c in
      setDisconnect id (if done then AwaitingShutdown else ReadingCleanupError) c
  end.

Definition disconnectStep (id : nat) (pc : disconnectPC) (expired : option gerr) (c : desktop) :
    desktop :=
  match pc with
  | AwaitingShutdown =>
      match waitForShutdown "disconnect" expired c with
      | Some (Some err) => setDisconnect id (DisconnectReturned (Some err)) c
      | Some None => setDisconnect id ReadingCleanupError c
      | None => c
      end
  | ReadingCleanupError =>
      match ap_cleanupErr (dt_app c) with
      | Some err => setDisconnect id (DisconnectReturned (Some (ECleanup err))) c
      | None => setDisconnect id BecomingIdle c
      end
  | BecomingIdle => setDisconnect id (DisconnectReturned None) (c <| dt_state := stateIdle |>)
  | DisconnectReturned _ => c
  end.

(** *** All of them together *)

(** The network owner makes a runtime, connects it once ([connectContext]) and
    disconnects it from any goroutine. *)
Inductive desktopOp :=
| OpConnect (case : selected) (expired : option gerr)
| OpCancel
| OpRun (res : outcome (option gerr)) (partly : bool) (answer : releaseStep -> outcome (option gerr))
| OpDisconnect (id : nat) (answer : releaseStep -> outcome (option gerr)) (expired : option gerr).

Definition desktop_step (op : desktopOp) (c : desktop) : desktop :=
  match op with
  | OpConnect case expired => connectStep case expired c
  | OpCancel => c <| dt_canceled := true |>
  | OpRun res partly answer => runStep res partly answer c
  | OpDisconnect id answer expired =>
      match dt_disconnects c !! id with
      | None => disconnectBegin id answer c
      | Some pc => disconnectStep id pc expired c
      end
  end.

Definition desktop_run (ops : list desktopOp) (c : desktop) : desktop :=
  fold_left (fun c op => desktop_step op c) ops c.
