(* ===== verification/DesktopTheorems.v ===== *)
(** * What the desktop native runtime guarantees

    A [Disconnect] that reports success leaves nothing acquired; releases run
    in their order, each until it succeeds; and one interleaving of a canceled
    [Connect] after which every [Disconnect] is refused. *)

From S2P Require Import Prelude Errors Values GoStrings Native Desktop.
Local Open Scope string_scope.
Local Open Scope list_scope.

(** ** Releases in order *)

Definition succeeded_call (ev : called) : option releaseStep :=
  match ca_result ev with Returns None => Some (ca_release ev) | _ => None end.

Definition succeeded (trace : list called) : list releaseStep := omap succeeded_call trace.

(** A release is called once those before it succeeded, and not after it did. *)
Definition in_turn (ev : called) (past : list called) : Prop :=
  exists before rest, linuxReleases = before ++ ca_release ev :: rest /\ succeeded past = rev before.

Fixpoint orderly (trace : list called) : Prop :=
  match trace with
  | [] => True
  | ev :: past => in_turn ev past /\ orderly past
  end.

Lemma orderly_at pre ev past : orderly (pre ++ ev :: past) -> in_turn ev past.
Proof. induction pre as [|e pre IH]; [by intros [? _]|intros [_ ?]; auto]. Qed.

(** What is held has its release in the list. *)
Record covered (h : resources) (releases : list releaseStep) : Prop := mkCovered {
  co_engine : h_engine h = true -> StopEngine ∈ releases;
  co_plan : h_plan h = true -> ClosePlan ∈ releases;
  co_tun : h_tun h = true \/ h_mark h = true -> CloseTun ∈ releases
}.

(** [releases] are what is left of the cleanup. *)
Record left_over (releases : list releaseStep) (a : App) : Prop := mkLeftOver {
  lo_covered : covered (ap_held a) releases;
  lo_orderly : orderly (ap_trace a);
  lo_rest : releases = [] \/ linuxReleases = rev (succeeded (ap_trace a)) ++ releases
}.

Definition AInv (a : App) : Prop := left_over (ap_cleanup a) a.

Lemma covered_nothing h : covered h [] -> h = nothing.
Proof.
  intros [H1 H2 H3]. destruct h as [[] [] [] []]; try done; exfalso;
    (eapply not_elem_of_nil; first [by apply H1|by apply H2|apply H3; by (left + right)]).
Qed.

Lemma nothing_covered releases : covered nothing releases.
Proof. constructor; cbn; [done..|by intros []]. Qed.

(** ** Closing *)

Section close.
Context (owner : cleanupOwner) (answer : releaseStep -> outcome (option gerr)).

Lemma releaseCall_covered r rest h h' res :
  covered h (r :: rest) -> releaseCall answer r h = (h', res) ->
  covered h' (match res with Returns None => rest | _ => r :: rest end).
Proof.
  intros [H1 H2 H3]. unfold releaseCall.
  assert (forall r', r' ∈ r :: rest -> r' <> r -> r' ∈ rest) as Hne.
  { intros r' [?|?]%elem_of_cons; done. }
  destruct r.
  - destruct (h_engine h) eqn:E; [destruct (answer StopEngine) as [[]|]|]; intros [= <- <-];
      constructor; cbn; intros; try apply Hne; auto; congruence.
  - destruct (answer ClosePlan) as [[]|]; intros [= <- <-];
      constructor; cbn; intros; try apply Hne; auto; congruence.
  - destruct (h_tun h) eqn:E; [destruct (answer CloseTun) as [[]|]|]; intros [= <- <-];
      constructor; cbn; intros; try (apply Hne; auto); auto; try congruence; by destruct H; congruence.
Qed.

Lemma callRelease_left r rest a a' res :
  left_over (r :: rest) a -> callRelease owner answer r a = (a', res) ->
  left_over (match res with Returns None => rest | _ => r :: rest end) a' /\
  ap_cleanupErr a' = ap_cleanupErr a /\ ap_cleanupContext a' = ap_cleanupContext a.
Proof.
  intros [Hc Ho [Hr|Hr]]; [done|]. unfold callRelease.
  destruct (releaseCall answer r (ap_held a)) as [h res1] eqn:E. intros [= <- <-].
  split; [|done]. constructor; cbn.
  - by eapply releaseCall_covered.
  - split; [|done]. exists (rev (succeeded (ap_trace a))), rest. by rewrite rev_involutive.
  - right. unfold succeeded. cbn. unfold succeeded_call at 1. cbn.
    destruct res1 as [[]|]; cbn; [done| |done]. by rewrite <- app_assoc.
Qed.

Lemma closeAll_left releases a a' res :
  left_over releases a -> closeAll owner answer releases a = (a', res) ->
  AInv a' /\ (res = Returns None -> ap_cleanup a' = []) /\
  ap_cleanupErr a' = ap_cleanupErr a /\ ap_cleanupContext a' = ap_cleanupContext a.
Proof.
  revert a. induction releases as [|r rest IH]; intros a Hl; cbn.
  - intros [= <- <-]. split_and!; try done. by destruct Hl.
  - destruct (callRelease owner answer r a) as [a1 res1] eqn:E.
    destruct (callRelease_left _ _ _ _ _ Hl E) as (Hl1 & He & Hx).
    destruct res1 as [[err|]|m]; [|intros H; destruct (IH _ Hl1 H) as (? & ? & ? & ?); split_and!; [done|done|congruence..]|];
      intros [= <- <-]; (split_and!; [by destruct Hl1|done..]).
Qed.

Lemma AppClose_AInv a a' err :
  AInv a -> AppClose owner answer a = (a', err) ->
  AInv a' /\ (err = None <-> ap_cleanupErr a' = None) /\ (err = None -> ap_cleanup a' = []) /\
  ap_cleanupContext a' = ap_cleanupContext a.
Proof.
  intros Hi. unfold AppClose. destruct (closeAll _ _ _ _) as [a1 res] eqn:E.
  destruct (closeAll_left _ _ _ _ Hi E) as ([A1 A2 A3] & Hn & _ & Hx).
  destruct res as [[e|]|m]; intros [= <- <-]; (split_and!; [by constructor|done|by auto|done]).
Qed.
End close.

Lemma finishCleanup_AInv answer runErr a a' err :
  AInv a -> finishCleanup answer runErr a = (a', err) ->
  AInv a' /\ (ap_cleanupErr a' = None -> ap_cleanup a' = []) /\
  (err = None -> ap_cleanupErr a' = None /\ runErr = None).
Proof.
  intros Hi. unfold finishCleanup. destruct (AppClose _ _ _) as [a1 e] eqn:E.
  destruct (AppClose_AInv _ _ _ _ _ Hi E) as (Hi1 & He & Hn & _).
  destruct e as [e|]; intros [= <- <-]; (split_and!; [done|intuition|]).
  - intros Hj. by destruct runErr.
  - intros ->. by split; [apply He|].
Qed.

(** ** The runtime *)

Definition unregistered (a : App) : Prop :=
  ap_cleanup a = [] /\ ap_trace a = [] /\ ap_held a = nothing.

(** [Run] registers its releases as the seventh step, before it acquires anything. *)
Definition acquiring (steps : list linuxStep) (a : App) : Prop :=
  exists k, steps = drop k linuxSteps /\
    if Nat.leb k 6 then unregistered a else ap_cleanup a = linuxReleases /\ ap_trace a = [].

Definition live (pc : runPC) : bool :=
  match pc with NotStarted | ClosingDone | RunEnded => false | _ => true end.

Definition ended (pc : runPC) : bool :=
  match pc with ClosingDone | RunEnded => true | _ => false end.

(** Everything was acquired. *)
Definition ready (pc : runPC) : bool :=
  match pc with NotStarted | Acquiring _ => false | _ => true end.

Definition run_shape (pc : runPC) (a : App) : Prop :=
  match pc with
  | NotStarted => unregistered a
  | Acquiring steps => acquiring steps a
  | Maintaining | CleaningUp _ => True
  | FinishingRun None => ap_cleanup a = []
  | FinishingRun (Some _) | ClosingDone | RunEnded => ap_cleanupErr a = None -> ap_cleanup a = []
  end.

Definition disconnect_ok (pc : disconnectPC) (run : runPC) (a : App) : Prop :=
  match pc with
  | AwaitingShutdown => run <> NotStarted
  | ReadingCleanupError => ended run = true
  | BecomingIdle => ended run = true /\ ap_cleanup a = []
  | DisconnectReturned _ => True
  end.

Record DtInv (c : desktop) : Prop := mkDtInv {
  di_app : AInv (dt_app c);
  di_run : run_shape (dt_run c) (dt_app c);
  di_done : dt_done c = live (dt_run c);
  di_closed : dt_doneClosed c = true -> dt_run c = RunEnded;
  di_idle : dt_state c = stateIdle -> live (dt_run c) = false /\ ap_cleanup (dt_app c) = [];
  di_new : dt_run c = NotStarted -> dt_state c = stateIdle /\ dt_generation c = 0%Z;
  di_generation : dt_run c <> NotStarted -> dt_generation c = runGeneration;
  di_connect : dt_connect c = NotConnected <-> dt_run c = NotStarted;
  di_ready : dt_init c = Some None \/ dt_connect c = Publishing \/ dt_connect c = ConnectReturned None ->
    ready (dt_run c) = true;
  di_disconnects : forall id pc, dt_disconnects c !! id = Some pc -> disconnect_ok pc (dt_run c) (dt_app c)
}.

Lemma AInv_unregistered a : unregistered a -> AInv a.
Proof.
  intros (Hc & Ht & Hh). constructor; rewrite ?Hc, ?Ht, ?Hh; [apply nothing_covered|done|by left].
Qed.

Lemma covered_all h : covered h linuxReleases.
Proof. constructor; intros _; set_solver. Qed.

Lemma AInv_registered a : ap_cleanup a = linuxReleases -> ap_trace a = [] -> AInv a.
Proof.
  intros Hc Ht. constructor; rewrite ?Hc, ?Ht; [apply covered_all|done|by right].
Qed.

Lemma acquiring_AInv steps a : acquiring steps a -> AInv a.
Proof.
  intros (k & _ & Ha). destruct (Nat.leb k 6); [by apply AInv_unregistered|].
  destruct Ha. by apply AInv_registered.
Qed.

Lemma DtInv_new : DtInv newDesktopRuntime.
Proof.
  constructor; try done; [by apply AInv_unregistered|].
  by intros [|[|]].
Qed.

(** ** Connect *)

(** [Connect] moves on without touching the goroutine. *)
Lemma DtInv_connect_moves c c' :
  DtInv c -> dt_connect c <> NotConnected -> dt_connect c' <> NotConnected ->
  dt_app c' = dt_app c \/ (exists o, dt_app c' = SetCleanupContext o (dt_app c)) ->
  dt_run c' = dt_run c -> dt_done c' = dt_done c -> dt_doneClosed c' = dt_doneClosed c ->
  dt_generation c' = dt_generation c -> dt_disconnects c' = dt_disconnects c ->
  dt_state c' <> stateIdle \/ dt_state c' = dt_state c ->
  (dt_init c' = Some None \/ dt_connect c' = Publishing \/ dt_connect c' = ConnectReturned None ->
   ready (dt_run c) = true) ->
  DtInv c'.
Proof.
  intros [] Hc Hc' Ha Hr Hd Hcl Hg Hds Hs Hready.
  assert (dt_run c <> NotStarted) as Hns by intuition.
  assert (ap_cleanup (dt_app c') = ap_cleanup (dt_app c) /\ ap_cleanupErr (dt_app c') = ap_cleanupErr (dt_app c) /\
    ap_trace (dt_app c') = ap_trace (dt_app c) /\ ap_held (dt_app c') = ap_held (dt_app c)) as (E1 & E2 & E3 & E4).
  { destruct Ha as [->|[o ->]]; done. }
  constructor; rewrite ?Hr, ?Hd, ?Hcl, ?Hg, ?Hds; try done.
  - unfold AInv in *. destruct di_app0 as [L1 L2 L3]. by constructor; rewrite ?E1, ?E3, ?E4.
  - destruct (dt_run c) as [| | |?|[]| |]; cbn in *; rewrite ?E1, ?E2; try done.
    destruct di_run0 as (k & Hk & H). exists k. split; [done|]. unfold unregistered in *. by rewrite E1, E3, E4.
  - rewrite E1. intros Hi. apply di_idle0. destruct Hs; congruence.
  - intros id pc Hl. specialize (di_disconnects0 id pc Hl). destruct pc; cbn in *; by rewrite ?E1.
Qed.

Lemma DtInv_connectBegin c : DtInv c -> dt_connect c = NotConnected -> DtInv (connectBegin c).
Proof.
  intros [] Hc. assert (dt_run c = NotStarted) as Hn by by apply di_connect0.
  destruct (di_new0 Hn) as [Hs Hg]. rewrite Hn in *. unfold connectBegin.
  rewrite Hs. change (bool_decide (stateIdle = stateIdle)) with true. cbn [negb].
  constructor; cbn; try done.
  - by exists 0.
  - intros H. by apply di_closed0 in H.
  - by rewrite Hg.
  - intros [H|[H|H]]; try done. by specialize (di_ready0 (or_introl H)).
  - intros id pc Hl. specialize (di_disconnects0 id pc Hl). destruct pc; cbn in *; try done; by destruct di_disconnects0.
Qed.

Lemma DtInv_stopAndWait why c : DtInv c -> dt_connect c = StoppingRun why -> DtInv (stopAndWait why c).
Proof.
  intros Hi Hc. unfold stopAndWait, cancelRun.
  eapply (DtInv_connect_moves c); [done|by rewrite Hc|..]; repeat case_match; cbn; try done; try (by eauto);
    try (by destruct why); try (by left).
  all: intros [X|[X|X]]; try done; try (by destruct why); by apply (di_ready _ Hi); left.
Qed.

Lemma DtInv_connectStep case expired c : DtInv c -> DtInv (connectStep case expired c).
Proof.
  intros Hi. pose proof (di_ready _ Hi) as Hready. unfold connectStep. destruct (dt_connect c) eqn:Hc.
  - by apply DtInv_connectBegin.
  - unfold connectSelect. repeat case_match; try done;
      (eapply (DtInv_connect_moves c); cbn; rewrite ?Hc; try done; try (by left); try (by right);
       intros [?|[?|?]]; try done; apply Hready; by left).
  - unfold connectPublish. repeat case_match;
      (eapply (DtInv_connect_moves c); cbn; rewrite ?Hc; try done; try (by left); try (by right); auto).
  - by apply DtInv_stopAndWait.
  - repeat case_match; try done.
    eapply (DtInv_connect_moves c); cbn; rewrite ?Hc; try done; try (by left); try (by right); [by destruct why|].
    intros [?|[?|?]]; try (by destruct why). apply Hready. by left.
  - case_match; (eapply (DtInv_connect_moves c); cbn; rewrite ?Hc; try done; try (by left); try (by right);
      intros [?|[?|?]]; try done; apply Hready; by left).
  - eapply (DtInv_connect_moves c); cbn; rewrite ?Hc; try done; try (by left); try (by right).
    intros [?|[?|H]]; try done; [apply Hready; by left|]. by destruct why.
  - done.
Qed.

(** ** The goroutine *)

Lemma live_not_ended pc : live pc = true -> ended pc = false /\ pc <> NotStarted /\ pc <> RunEnded.
Proof. by destruct pc. Qed.

(** The goroutine moves on before it has finished. *)
Lemma DtInv_live_moves c c' :
  DtInv c -> live (dt_run c) = true -> live (dt_run c') = true ->
  AInv (dt_app c') -> run_shape (dt_run c') (dt_app c') ->
  dt_done c' = dt_done c -> dt_doneClosed c' = dt_doneClosed c -> dt_state c' = dt_state c ->
  dt_generation c' = dt_generation c -> dt_connect c' = dt_connect c ->
  dt_disconnects c' = dt_disconnects c ->
  (ready (dt_run c) = true \/ dt_init c' = Some None -> ready (dt_run c') = true) ->
  (dt_init c = Some None -> dt_init c' = Some None) -> DtInv c'.
Proof.
  intros [] Hl Hl' Ha Hok Hd Hcl Hs Hg Hc Hds Hr Hin.
  destruct (live_not_ended _ Hl) as (He & Hns & Hne). destruct (live_not_ended _ Hl') as (He' & Hns' & Hne').
  constructor; rewrite ?Hd, ?Hcl, ?Hs, ?Hg, ?Hc, ?Hds; try done.
  - congruence.
  - intros H. by apply di_closed0 in H.
  - intros H. apply di_idle0 in H as [? _]. congruence.
  - intros _. by apply di_generation0.
  - split; [intros ?%di_connect0|]; done.
  - intros [H|H]; [apply Hr; by right|apply Hr; left; apply di_ready0; by right].
  - intros id pc Hp. specialize (di_disconnects0 id pc Hp).
    destruct pc; cbn in *; try done; rewrite He in di_disconnects0; by destruct di_disconnects0.
Qed.

Lemma signalInit_init err c :
  dt_init (signalInit err c) = match dt_init c with None => Some err | Some e => Some e end.
Proof. unfold signalInit. by destruct (dt_init c) eqn:E. Qed.

Lemma signalInit_same err c :
  dt_app (signalInit err c) = dt_app c /\ dt_run (signalInit err c) = dt_run c /\
  dt_done (signalInit err c) = dt_done c /\ dt_doneClosed (signalInit err c) = dt_doneClosed c /\
  dt_state (signalInit err c) = dt_state c /\ dt_generation (signalInit err c) = dt_generation c /\
  dt_connect (signalInit err c) = dt_connect c /\ dt_disconnects (signalInit err c) = dt_disconnects c.
Proof. unfold signalInit. by destruct (dt_init c). Qed.

(** A step before the registration acquires nothing. *)
Lemma leaves_early k step rest res partly h :
  k < 6 -> drop k linuxSteps = step :: rest -> acquires step res partly h = h /\ step <> RegisterCleanup.
Proof. intros Hk. do 6 (destruct k as [|k]; [by intros [= <- <-]|]). lia. Qed.

Lemma drop_next {A} k (l rest : list A) x : drop k l = x :: rest -> rest = drop (S k) l.
Proof. revert l. induction k as [|k IH]; intros [|y l]; cbn; try done; [by intros [= _ ->]|apply IH]. Qed.

Lemma acquiring_step step rest res partly a :
  acquiring (step :: rest) a -> step <> RegisterCleanup ->
  acquiring rest (a <| ap_held ::= acquires step res partly |>).
Proof.
  intros (k & Hk & Ha) Hne. exists (S k). split; [by eapply drop_next|].
  destruct (decide (k < 6)) as [Hlt|Hge].
  - destruct (leaves_early k step rest res partly (ap_held a) Hlt) as [He _]; [done|].
    destruct (Nat.leb_spec k 6); [|lia]. destruct (Nat.leb_spec (S k) 6); [|lia].
    destruct Ha as (? & ? & Hh). split_and!; try done. cbn. by rewrite He.
  - destruct (Nat.leb_spec (S k) 6); [lia|]. destruct (Nat.leb_spec k 6); [|done].
    assert (k = 6) as -> by lia. cbn in Hk. congruence.
Qed.

Lemma acquiring_register rest a :
  acquiring (RegisterCleanup :: rest) a -> acquiring rest (setCleanup linuxReleases a).
Proof.
  intros (k & Hk & Ha). assert (k = 6) as ->.
  { do 14 (destruct k as [|k]; [done || (cbn in Hk; discriminate Hk)|]). by destruct k. }
  exists 7. cbn in Hk. injection Hk as ->. by destruct Ha as (_ & Ht & _).
Qed.

Lemma DtInv_acquireStep steps res partly c :
  DtInv c -> dt_run c = Acquiring steps -> DtInv (acquireStep steps res partly c).
Proof.
  intros Hi Hr. pose proof (di_run _ Hi) as Hok. rewrite Hr in Hok. cbn in Hok.
  pose proof (di_app _ Hi) as Ha.
  assert (dt_init c <> Some None) as Hin.
  { intros H. pose proof (di_ready _ Hi (or_introl H)) as X. by rewrite Hr in X. }
  destruct steps as [|step rest].
  - destruct (signalInit_same None c) as (E1 & E2 & E3 & E4 & E5 & E6 & E7 & E8).
    by apply (DtInv_live_moves c); cbn; rewrite ?Hr, ?E1.
  - destruct (decide (step = RegisterCleanup)) as [->|Hne].
    + cbn. apply (DtInv_live_moves c); cbn; rewrite ?Hr; try done.
      * apply acquiring_register in Hok. by apply acquiring_AInv in Hok.
      * by apply acquiring_register.
      * by intros [?|?].
    + pose proof (acquiring_step _ _ res partly _ Hok Hne) as Hok'.
      set (c1 := c <| dt_app ::= fun a => a <| ap_held ::= acquires step res partly |> |>).
      assert (acquireStep (step :: rest) res partly c =
        match res with
        | Returns None => c1 <| dt_run := Acquiring rest |>
        | Returns (Some err) => signalInit (Some err) c1 <| dt_run := CleaningUp res |>
        | Panics _ => c1 <| dt_run := CleaningUp res |>
        end) as -> by by destruct step.
      assert (AInv (dt_app c1)) as Ha' by by eapply acquiring_AInv.
      destruct res as [[err|]|m].
      * destruct (signalInit_same (Some err) c1) as (E1 & E2 & E3 & E4 & E5 & E6 & E7 & E8).
        by apply (DtInv_live_moves c); cbn -[c1]; rewrite ?Hr, ?E1.
      * apply (DtInv_live_moves c); cbn; rewrite ?Hr; try done. by intros [?|?].
      * by apply (DtInv_live_moves c); cbn; rewrite ?Hr.
Qed.

Lemma DtInv_cleanupStep ended answer c :
  DtInv c -> dt_run c = CleaningUp ended -> DtInv (cleanupStep ended answer c).
Proof.
  intros Hi Hr. unfold cleanupStep.
  destruct (finishCleanup _ _ _) as [a err] eqn:E.
  destruct (finishCleanup_AInv _ _ _ _ _ (di_app _ Hi) E) as (Ha & Hn & He).
  destruct ended as [e|m].
  - apply (DtInv_live_moves c); cbn; rewrite ?Hr; try done. destruct err; [done|]. by apply Hn, He.
  - set (c1 := c <| dt_app := a |>).
    destruct (signalInit_same (Some (EText ("native session runtime crashed: " +:+ m))) c1)
      as (E1 & E2 & E3 & E4 & E5 & E6 & E7 & E8).
    apply (DtInv_live_moves c); cbn -[c1]; rewrite ?Hr, ?E1; try done.
    intros H. change (dt_init (signalInit (Some (EText ("native session runtime crashed: " +:+ m))) c1) = Some None).
    rewrite signalInit_init. cbn. by rewrite H.
Qed.

Lemma DtInv_runStep res partly answer c : DtInv c -> DtInv (runStep res partly answer c).
Proof.
  intros Hi. unfold runStep. destruct (dt_run c) as [|steps| |e|e| |] eqn:Hr; try done.
  - by apply DtInv_acquireStep.
  - unfold maintainStep. destruct res as [o|m]; [destruct (dt_canceled c); [|done]|];
      (apply (DtInv_live_moves c); cbn; rewrite ?Hr; try done; exact (di_app _ Hi)).
  - by apply DtInv_cleanupStep.
  - pose proof Hi as []. rewrite Hr in *. unfold finishRun. rewrite di_generation0 by done. cbn [Z.eqb negb].
    change (negb (runGeneration =? runGeneration)%Z) with false.
    assert (ap_cleanupErr (dt_app c) = None -> ap_cleanup (dt_app c) = []) as Hok by by destruct e.
    constructor; cbn; try done.
    + intros H. by apply di_closed0 in H.
    + intros H. split; [done|]. destruct e; [|done].
      by destruct (bool_decide (dt_state c = stateStopping)).
    + intros _. by apply di_generation0.
    + split; [intros ?%di_connect0|]; done.
    + intros id pc Hp. specialize (di_disconnects0 id pc Hp). destruct pc; cbn in *; try done; by destruct di_disconnects0.
  - pose proof Hi as []. rewrite Hr in *. constructor; cbn; try done.
    + intros _. by apply di_generation0.
    + split; [intros ?%di_connect0|]; done.
    + intros id pc Hp. specialize (di_disconnects0 id pc Hp). by destruct pc.
Qed.

(** ** Disconnect *)

Lemma AppClose_empty owner answer a :
  ap_cleanup a = [] -> AppClose owner answer a = (a <| ap_cleanup := [] |> <| ap_cleanupErr := None |>, None).
Proof. unfold AppClose. by intros ->. Qed.

(** Only this call moves on. *)
Lemma DtInv_setDisconnect id pc c :
  DtInv c -> disconnect_ok pc (dt_run c) (dt_app c) -> DtInv (setDisconnect id pc c).
Proof.
  intros [] Hok. constructor; cbn; try done.
  intros id' pc' [[-> <-]|[_ Hp]]%lookup_insert_Some; [done|by eapply di_disconnects0].
Qed.

(** Another state than IDLE may be set at any time after the start; IDLE when
    everything was unloaded. *)
Lemma DtInv_set_state s c :
  DtInv c -> dt_run c <> NotStarted ->
  (s = stateIdle -> live (dt_run c) = false /\ ap_cleanup (dt_app c) = []) ->
  DtInv (c <| dt_state := s |>).
Proof. by intros [] Hn Hs; constructor. Qed.

Lemma run_ok_context pc o a : run_shape pc a -> run_shape pc (SetCleanupContext o a).
Proof. by destruct pc as [| | |?|[]| |]. Qed.

Lemma DtInv_context o c : DtInv c -> DtInv (c <| dt_app ::= SetCleanupContext o |>).
Proof.
  intros []. constructor; cbn; try done; solve [by destruct di_app0|by apply run_ok_context].
Qed.

Lemma DtInv_cancelRun c : DtInv c -> DtInv (cancelRun c).
Proof. intros Hi. unfold cancelRun. destruct (dt_cancel c); [|done]. by destruct Hi. Qed.

Lemma cancelRun_run c : dt_run (cancelRun c) = dt_run c.
Proof. unfold cancelRun. by destruct (dt_cancel c). Qed.

(** A finished run's cleanup is continued by the call. *)
Lemma DtInv_close owner answer c a err :
  DtInv c -> ended (dt_run c) = true -> AppClose owner answer (dt_app c) = (a, err) ->
  DtInv (c <| dt_app := a |>) /\ (err = None -> ap_cleanup a = []).
Proof.
  intros Hi He Hc. destruct (AppClose_AInv _ _ _ _ _ (di_app _ Hi) Hc) as (Ha & Herr & Hn & _).
  split; [|done].
  assert (ap_cleanup (dt_app c) = [] -> ap_cleanup a = []) as Hemp.
  { intros H. rewrite (AppClose_empty _ _ _ H) in Hc. by injection Hc as <- _. }
  destruct Hi. constructor; cbn; try done.
  - destruct (dt_run c); try done; cbn; intros H; by apply Hn, Herr.
  - intros H. destruct (di_idle0 H). auto.
  - intros id pc Hp. specialize (di_disconnects0 id pc Hp). destruct pc; cbn in *; try done.
    destruct di_disconnects0. auto.
Qed.

Lemma not_started_idle c : DtInv c -> dt_state c <> stateIdle -> dt_run c <> NotStarted.
Proof. intros Hi Hs Hn. by destruct (di_new _ Hi Hn). Qed.

Lemma not_done_ended c : DtInv c -> dt_done c = false -> dt_run c <> NotStarted -> ended (dt_run c) = true.
Proof. intros Hi Hd Hn. rewrite (di_done _ Hi) in Hd. by destruct (dt_run c). Qed.

Lemma DtInv_disconnectBegin id answer c : DtInv c -> DtInv (disconnectBegin id answer c).
Proof.
  intros Hi. unfold disconnectBegin.
  pose proof (not_started_idle c Hi) as Hns.
  set (c1 := c <| dt_state := stateStopping |>).
  set (waiting := setDisconnect id (if dt_done c then AwaitingShutdown else ReadingCleanupError)
    (cancelRun (c1 <| dt_app ::= SetCleanupContext (ByDisconnect id) |>))).
  assert (dt_state c <> stateIdle -> DtInv waiting) as Hw.
  { intros Hs. specialize (Hns Hs). assert (DtInv c1) as H1 by by apply DtInv_set_state.
    apply DtInv_setDisconnect; [by apply DtInv_cancelRun, DtInv_context|].
    rewrite cancelRun_run. destruct (dt_done c) eqn:E; [done|by apply (not_done_ended c)]. }
  destruct (dt_state c) eqn:Hs; try (by apply DtInv_setDisconnect); try (by apply Hw).
  destruct (dt_done c) eqn:Hd; [by apply Hw|].
  destruct (AppClose _ _ _) as [a err] eqn:Hc.
  assert (dt_run c <> NotStarted) as Hn by by apply Hns.
  destruct (DtInv_close _ _ _ _ _ Hi (not_done_ended _ Hi Hd Hn) Hc) as [Hi1 He].
  destruct err; (apply DtInv_setDisconnect; [|done]); [done|]. apply DtInv_set_state; [done..|].
  intros _. split; [|by apply He]. change (live (dt_run c) = false). by rewrite <- (di_done _ Hi).
Qed.

Lemma DtInv_disconnectStep id pc expired c :
  DtInv c -> dt_disconnects c !! id = Some pc -> DtInv (disconnectStep id pc expired c).
Proof.
  intros Hi Hp. pose proof (di_disconnects _ Hi _ _ Hp) as Hok. destruct pc; cbn in *; [| | |done].
  - unfold waitForShutdown. destruct expired; [by apply DtInv_setDisconnect|].
    destruct (dt_doneClosed c) eqn:Hd; [|done]. apply DtInv_setDisconnect; [done|].
    cbn. by rewrite (di_closed _ Hi Hd).
  - destruct (ap_cleanupErr (dt_app c)) eqn:He; [by apply DtInv_setDisconnect|].
    apply DtInv_setDisconnect; [done|]. split; [done|].
    pose proof (di_run _ Hi) as Hr. destruct (dt_run c); try done; by apply Hr.
  - destruct Hok as [He Hc]. apply DtInv_setDisconnect; [|done].
    apply DtInv_set_state; [done|by destruct (dt_run c)|]. split; [by destruct (dt_run c)|done].
Qed.

Lemma desktop_step_DtInv op c : DtInv c -> DtInv (desktop_step op c).
Proof.
  intros Hi. destruct op; cbn.
  - by apply DtInv_connectStep.
  - by destruct Hi.
  - by apply DtInv_runStep.
  - destruct (dt_disconnects c !! id) eqn:E; [by apply DtInv_disconnectStep|by apply DtInv_disconnectBegin].
Qed.

Lemma desktop_run_DtInv ops c : DtInv c -> DtInv (desktop_run ops c).
Proof.
  revert c. induction ops as [|op ops IH]; intros c Hi; [done|]. cbn. by apply IH, desktop_step_DtInv.
Qed.

(** ** The answers of Disconnect *)

Definition unloaded (c : desktop) : Prop := live (dt_run c) = false /\ ap_cleanup (dt_app c) = [].

Lemma setDisconnect_lookup id id' pc c :
  dt_disconnects (setDisconnect id pc c) !! id' =
    if decide (id = id') then Some pc else dt_disconnects c !! id'.
Proof.
  cbn. destruct (decide (id = id')) as [->|]; [by rewrite lookup_insert_eq|by rewrite lookup_insert_ne].
Qed.

Lemma disconnectBegin_nil id answer c :
  DtInv c -> dt_disconnects (disconnectBegin id answer c) !! id = Some (DisconnectReturned None) ->
  unloaded (disconnectBegin id answer c).
Proof.
  intros Hi. pose proof (not_started_idle c Hi) as Hns. unfold disconnectBegin.
  destruct (dt_state c) eqn:Hs; [intros _; by apply (di_idle _ Hi)| | | |]; rewrite ?setDisconnect_lookup;
    try (rewrite decide_True by done; by destruct (dt_done c)).
  destruct (dt_done c) eqn:Hd; [rewrite setDisconnect_lookup, decide_True by done; done|].
  destruct (AppClose _ _ _) as [a err] eqn:Hc. rewrite setDisconnect_lookup, decide_True by done. intros [= ->].
  assert (dt_run c <> NotStarted) as Hn by by apply Hns.
  destruct (DtInv_close _ _ _ _ _ Hi (not_done_ended _ Hi Hd Hn) Hc) as [_ He].
  split; [|by apply He]. change (live (dt_run c) = false). by rewrite <- (di_done _ Hi).
Qed.

Lemma disconnectStep_nil id pc expired c :
  DtInv c -> dt_disconnects c !! id = Some pc -> pc <> DisconnectReturned None ->
  dt_disconnects (disconnectStep id pc expired c) !! id = Some (DisconnectReturned None) ->
  unloaded (disconnectStep id pc expired c).
Proof.
  intros Hi Hp Hne. pose proof (di_disconnects _ Hi _ _ Hp) as Hok. destruct pc; cbn in *.
  - destruct (waitForShutdown _ _ _) as [[]|]; rewrite ?setDisconnect_lookup, ?decide_True by done; congruence.
  - destruct (ap_cleanupErr _); rewrite setDisconnect_lookup, decide_True by done; congruence.
  - intros _. destruct Hok as [He Hc]. split; [|done]. change (live (dt_run c) = false). by destruct (dt_run c).
  - congruence.
Qed.

Lemma connectStep_disconnects case expired c :
  dt_disconnects (connectStep case expired c) = dt_disconnects c.
Proof.
  unfold connectStep, connectBegin, connectSelect, connectPublish, stopAndWait, cancelRun.
  by repeat case_match.
Qed.

Lemma runStep_disconnects res partly answer c :
  dt_disconnects (runStep res partly answer c) = dt_disconnects c.
Proof.
  unfold runStep, acquireStep, maintainStep, cleanupStep, finishRun, signalInit. by repeat case_match.
Qed.

(** A call that now returns nil was the step's. *)
Lemma step_nil op id c :
  DtInv c -> dt_disconnects c !! id <> Some (DisconnectReturned None) ->
  dt_disconnects (desktop_step op c) !! id = Some (DisconnectReturned None) ->
  unloaded (desktop_step op c).
Proof.
  intros Hi Hne. destruct op as [case expired| |res partly answer|id' answer expired]; cbn.
  - by rewrite connectStep_disconnects.
  - done.
  - by rewrite runStep_disconnects.
  - destruct (decide (id' = id)) as [->|Hid].
    + destruct (dt_disconnects c !! id) as [pc|] eqn:E; [|by apply disconnectBegin_nil].
      apply disconnectStep_nil; congruence.
    + enough (dt_disconnects (desktop_step (OpDisconnect id' answer expired) c) !! id = dt_disconnects c !! id)
        as He by (cbn in He; congruence).
      cbn. unfold disconnectBegin, disconnectStep, cancelRun.
      repeat case_match; rewrite ?setDisconnect_lookup, ?decide_False by done; done.
Qed.

Lemma unloaded_nothing c : DtInv c -> unloaded c -> ap_held (dt_app c) = nothing.
Proof. intros Hi [_ Hc]. pose proof (lo_covered _ _ (di_app _ Hi)) as H. rewrite Hc in H. by apply covered_nothing. Qed.

(** Whatever the order in which the one Connect, its goroutine, cancellations
    and any number of Disconnects move, and whatever the platform answers, errors
    and panics included: a Disconnect that returns nil leaves the goroutine
    finished and nothing held (no engine, no lease of the routing plan, no TUN,
    no socket mark); everything held has its release in the list still to run;
    a release is called only after those before it succeeded (the engine stops
    before the routes go, the routes before the TUN) and never again after its
    own success; and a Connect that returned nil had acquired everything. *)
Theorem disconnect_releases_the_network (ops : list desktopOp) :
  let c := desktop_run ops newDesktopRuntime in
  (forall op id, dt_disconnects c !! id <> Some (DisconnectReturned None) ->
    let c' := desktop_step op c in
    dt_disconnects c' !! id = Some (DisconnectReturned None) ->
    live (dt_run c') = false /\ ap_cleanup (dt_app c') = [] /\ ap_held (dt_app c') = nothing) /\
  covered (ap_held (dt_app c)) (ap_cleanup (dt_app c)) /\
  (forall pre ev past, ap_trace (dt_app c) = pre ++ ev :: past -> in_turn ev past) /\
  (dt_connect c = ConnectReturned None -> ready (dt_run c) = true).
Proof.
  intros c. pose proof (desktop_run_DtInv ops _ DtInv_new) as Hi. fold c in Hi. split_and!.
  - intros op id Hne c' Hnil. pose proof (step_nil _ _ _ Hi Hne Hnil) as Hr.
    split_and!; [apply Hr..|]. apply unloaded_nothing; [by apply desktop_step_DtInv|done].
  - exact (lo_covered _ _ (di_app _ Hi)).
  - intros pre ev past He. pose proof (lo_orderly _ _ (di_app _ Hi)) as Ho. rewrite He in Ho.
    by eapply orderly_at.
  - intros H. apply (di_ready _ Hi). auto.
Qed.

(** ** Concrete histories *)

Definition fine : releaseStep -> outcome (option gerr) := fun _ => Returns None.
Definition planFails : releaseStep -> outcome (option gerr) :=
  fun r => match r with ClosePlan => Returns (Some (EText "busy")) | _ => Returns None end.

Definition opRun : desktopOp := OpRun (Returns None) false fine.
Definition opConnect (case : selected) : desktopOp := OpConnect case None.

(** A connection whose first Disconnect cannot remove the routes: it reports
    the failure, and the next one only repeats what is left. *)
Example disconnect_retries :
  let c := desktop_run
    ([opConnect InitResult] ++ repeat opRun 15 ++ [opConnect InitResult; opConnect InitResult;
      OpDisconnect 0 fine None; opRun; OpRun (Returns None) false planFails; opRun; opRun;
      OpDisconnect 0 fine None; OpDisconnect 0 fine None; OpDisconnect 1 fine None]) newDesktopRuntime in
  dt_connect c = ConnectReturned None /\
  dt_disconnects c !! 0 = Some (DisconnectReturned (Some (ECleanup (EText "busy")))) /\
  map ca_release (rev (ap_trace (dt_app c))) = [StopEngine; ClosePlan; ClosePlan; CloseTun] /\
  dt_disconnects c !! 1 = Some (DisconnectReturned None) /\ dt_state c = stateIdle.
Proof. split_and!; reflexivity. Qed.

(** ** A canceled Connect that wedges the runtime *)

(** Cancellation reaches the goroutine first; [Connect] takes the lock only
    after the goroutine has finished. *)
Definition lateConnect : desktop :=
  desktop_run
    ([opConnect ContextDone] ++ repeat opRun 5 ++
     [OpCancel; OpRun (Returns (Some (ESent CtxCanceled))) false fine; opRun; opRun; opRun;
      opConnect ContextDone; opConnect ContextDone]) newDesktopRuntime.

(** In STOPPING with nothing left to run that would change it. *)
Record wedged (c : desktop) : Prop := mkWedged {
  we_state : dt_state c = stateStopping;
  we_run : dt_run c = RunEnded;
  we_connect : exists res, dt_connect c = ConnectReturned (Some res);
  we_disconnects : forall id pc, dt_disconnects c !! id = Some pc ->
    pc = DisconnectReturned (Some (lifecycleBusyError stateStopping))
}.

Lemma wedged_step op c : wedged c -> wedged (desktop_step op c).
Proof.
  intros [Hs Hr [res Hc] Hd]. destruct op as [case expired| |r partly answer|id answer expired]; cbn.
  - unfold connectStep. rewrite Hc. constructor; eauto.
  - constructor; eauto.
  - unfold runStep. rewrite Hr. constructor; eauto.
  - destruct (dt_disconnects c !! id) as [pc|] eqn:E.
    + rewrite (Hd _ _ E). constructor; eauto.
    + unfold disconnectBegin. rewrite Hs. constructor; cbn; eauto.
      intros id' pc' [[_ <-]|[_ Hp]]%lookup_insert_Some; eauto.
Qed.

Lemma wedged_run ops c : wedged c -> wedged (desktop_run ops c).
Proof.
  revert c. induction ops as [|op ops IH]; intros c Hw; [done|]. cbn. by apply IH, wedged_step.
Qed.

(** A canceled Connect can leave the runtime in STOPPING although its goroutine
    has ended and nothing is held: every later Disconnect is refused as busy,
    whatever happens in between. *)
Theorem canceled_connect_can_wedge_the_runtime :
  dt_connect lateConnect = ConnectReturned (Some (EJoin [ESent CtxCanceled])) /\
  ap_held (dt_app lateConnect) = nothing /\
  forall ops id answer,
    let c := desktop_run ops lateConnect in
    dt_disconnects c !! id = None ->
    dt_disconnects (desktop_step (OpDisconnect id answer None) c) !! id =
      Some (DisconnectReturned (Some (lifecycleBusyError stateStopping))).
Proof.
  split_and!; [reflexivity..|]. intros ops id answer c Hn.
  assert (wedged c) as [Hs _ _ _].
  { apply wedged_run. constructor; [reflexivity..|by eexists|].
    intros id' pc. assert (dt_disconnects lateConnect = ∅) as -> by reflexivity. by rewrite lookup_empty. }
  cbn. rewrite Hn. unfold disconnectBegin. rewrite Hs. cbn. by rewrite lookup_insert_eq.
Qed.
