(* ===== verification/RoutingPlan.v ===== *)
(** * Routing plans (core/routing/plan.go)

    The stack of system resources one VPN session has installed.  What a
    resource is, how it is applied and released, and the system it lives in are
    parameters of the section: the platforms instantiate them.  [p_trace]
    records what the plan did to the system. *)

From S2P Require Import Prelude Errors GoStrings.
Local Open Scope string_scope.
Local Open Scope list_scope.

(** [l_id] is the lease's identity: leases are shared by pointer. *)
Record Lease (R : Type) := mkLease { l_id : nat; l_name : string; l_resource : R; l_closed : bool }.
Arguments mkLease {R}.
Arguments l_id {R}.
Arguments l_name {R}.
Arguments l_resource {R}.
Arguments l_closed {R}.

Inductive planCall (R : Type) :=
| Applied (id : nat) (r : R) (err : option gerr)
| ReleaseCalled (id : nat) (r : R) (err : option gerr).
Arguments Applied {R}.
Arguments ReleaseCalled {R}.

(** [p_leases] in order of acquisition. *)
Record Plan (R : Type) := mkPlan {
  p_sessionID : string;
  p_closed : bool;
  p_leases : list (Lease R);
  p_next : nat;
  p_trace : list (planCall R)
}.
Arguments mkPlan {R}.
Arguments p_sessionID {R}.
Arguments p_closed {R}.
Arguments p_leases {R}.
Arguments p_next {R}.
Arguments p_trace {R}.
#[export] Instance eta_Plan R : Settable (Plan R) :=
  fun x => mkPlan (p_sessionID x) (p_closed x) (p_leases x) (p_next x) (p_trace x).

Definition NewPlan {R} (sessionID : string) : Plan R := mkPlan sessionID false [] 0 [].

Section plan.
Context {R W : Type}.
Context (apply release : R -> W -> W * option gerr).
Context (repairOf : R -> option (W -> W * bool * option gerr)).

Definition plog (c : planCall R) (p : Plan R) : Plan R := p <| p_trace ::= fun t => t ++ [c] |>.

Definition Acquire (name : string) (r : R) (p : Plan R) (w : W) :
    Plan R * W * result (Lease R) gerr :=
  if p_closed p
  then (p, w, Err (EText ("routing plan " +:+ quoted (p_sessionID p) +:+ " is already closed")))
  else
    let '(w, err) := apply r w in
    let p := plog (Applied (p_next p) r err) p in
    match err with
    | Some err =>
        (p, w, Err (EWrap ("routing plan " +:+ quoted (p_sessionID p) +:+ " acquire " +:+ name) err))
    | None =>
        let l := mkLease (p_next p) name r false in
        (p <| p_leases ::= fun ls => ls ++ [l] |> <| p_next ::= S |>, w, Ok l)
    end.

(** [Lease.Close]: the lease as it is afterwards, and the call it made. *)
Definition LeaseClose (l : Lease R) (w : W) : Lease R * W * list (planCall R) * option gerr :=
  if l_closed l then (l, w, [], None)
  else
    let '(w, err) := release (l_resource l) w in
    match err with
    | Some err => (l, w, [ReleaseCalled (l_id l) (l_resource l) (Some err)], Some err)
    | None =>
        (mkLease (l_id l) (l_name l) (l_resource l) true, w,
         [ReleaseCalled (l_id l) (l_resource l) None], None)
    end.

(** A lease of the plan closed on its own. *)
Definition CloseOne (id : nat) (p : Plan R) (w : W) : Plan R * W * option gerr :=
  match list_find (fun l => l_id l = id) (p_leases p) with
  | None => (p, w, None)
  | Some (i, l) =>
      let '(l, w, calls, err) := LeaseClose l w in
      (p <| p_leases ::= <[i := l]> |> <| p_trace ::= fun t => t ++ calls |>, w, err)
  end.

(** The loop of [Plan.Close] on the leases from the last. *)
Fixpoint closeLeases (ls : list (Lease R)) (w : W) :
    list (Lease R) * W * list (planCall R) * option gerr :=
  match ls with
  | [] => ([], w, [], None)
  | l :: rest =>
      let '(l, w, calls, err) := LeaseClose l w in
      match err with
      | Some err => (l :: rest, w, calls, Some (EWrap (l_name l) err))
      | None =>
          let '(kept, w, calls', err) := closeLeases rest w in
          (kept, w, calls ++ calls', err)
      end
  end.

Definition PlanClose (p : Plan R) (w : W) : Plan R * W * option gerr :=
  let '(kept, w, calls, err) := closeLeases (rev (p_leases p)) w in
  (p <| p_closed := true |> <| p_leases := rev kept |> <| p_trace ::= fun t => t ++ calls |>, w, err).

(** [Repair]: the leases in order, each asked to restore what is missing. *)
Fixpoint repairLeases (ls : list (Lease R)) (repaired : bool) (w : W) : W * bool * option gerr :=
  match ls with
  | [] => (w, repaired, None)
  | l :: rest =>
      match repairOf (l_resource l) with
      | None => repairLeases rest repaired w
      | Some repair =>
          let '(w, changed, err) := repair w in
          match err with
          | Some err => (w, repaired, Some err)
          | None => repairLeases rest (repaired || changed) w
          end
      end
  end.

Definition Repair (p : Plan R) (w : W) : W * bool * option gerr :=
  if p_closed p then (w, false, None) else repairLeases (p_leases p) false w.

(** ** The plan as a machine *)

Inductive planEvent :=
| PEAcquire (name : string) (r : R)
| PECloseOne (id : nat)
| PEClose.

Definition plan_step (ev : planEvent) (s : Plan R * W) : Plan R * W :=
  match ev with
  | PEAcquire name r => (Acquire name r s.1 s.2).1
  | PECloseOne id => (CloseOne id s.1 s.2).1
  | PEClose => (PlanClose s.1 s.2).1
  end.

Definition plan_run (evs : list planEvent) (s : Plan R * W) : Plan R * W :=
  fold_left (fun s ev => plan_step ev s) evs s.
End plan.

(** ** What the record says *)

Section record.
Context {R : Type}.

Definition isApplied (id : nat) (c : planCall R) : bool :=
  match c with Applied id' _ None => bool_decide (id' = id) | _ => false end.

Definition isReleased (id : nat) (c : planCall R) : bool :=
  match c with ReleaseCalled id' _ None => bool_decide (id' = id) | _ => false end.

Definition acquiredRs (t : list (planCall R)) : list R :=
  omap (fun c => match c with Applied _ r None => Some r | _ => None end) t.

Definition releasedRs (t : list (planCall R)) : list R :=
  omap (fun c => match c with ReleaseCalled _ r None => Some r | _ => None end) t.
End record.
