(* ===== verification/Routing.v ===== *)
(** * Linux routing (core/routing/network_linux.go, network_rules_linux.go,
    routing_linux.go, recovery_linux.go)

    Policy routing of one retained TUN: what is installed, and what a process
    that finds the remains of another one recognises and removes.  The kernel
    and the netlink library are the parameter [Netlink]: its state may change
    at every call.  Diagnostic dumps of routes and rules in error texts are
    left out. *)

From S2P Require Import Prelude Errors GoStrings Bypass RoutingPlan.
Local Open Scope string_scope.
Local Open Scope list_scope.
Local Open Scope Z_scope.

(** ** Kernel constants and records *)

Definition FAMILY_V4 : Z := 2.
Definition FAMILY_V6 : Z := 10.
Definition RT_TABLE_DEFAULT : Z := 253.
Definition RT_TABLE_MAIN : Z := 254.
Definition RT_TABLE_LOCAL : Z := 255.
Definition RTN_UNICAST : Z := 1.
Definition RTN_BLACKHOLE : Z := 6.
Definition RTN_UNREACHABLE : Z := 7.
Definition FR_ACT_TO_TBL : Z := 1.
Definition FR_ACT_UNREACHABLE : Z := 7.
Definition RTPROT_BOOT : Z := 3.
Definition SCOPE_UNIVERSE : Z := 0.
Definition SCOPE_LINK : Z := 253.

Definition linuxOwnedRouteProtocol : Z := 233.
Definition linuxOwnedProxyMetric : Z := 233.

(** The fields of [netlink.Route] the code reads or sets; [None] is nil. *)
Record Route := mkRoute {
  ro_Dst : option IPNet;
  ro_Gw : option IP;
  ro_LinkIndex : Z;
  ro_Protocol : Z;
  ro_Priority : Z;
  ro_Family : Z;
  ro_Table : Z;
  ro_Type : Z;
  ro_Scope : Z;
  ro_MultiPath : nat
}.
#[export] Instance eta_Route : Settable Route :=
  fun x => mkRoute (ro_Dst x) (ro_Gw x) (ro_LinkIndex x) (ro_Protocol x) (ro_Priority x)
             (ro_Family x) (ro_Table x) (ro_Type x) (ro_Scope x) (ro_MultiPath x).

(** The fields of [netlink.Rule]; pointers the code only compares with nil are
    booleans that say they are set. *)
Record Rule := mkRule {
  ru_Priority : Z;
  ru_Family : Z;
  ru_Table : Z;
  ru_Mark : Z;
  ru_Mask : option Z;
  ru_Tos : Z;
  ru_TunID : Z;
  ru_Goto : Z;
  ru_Src : bool;
  ru_Dst : bool;
  ru_Flow : Z;
  ru_IifName : string;
  ru_OifName : string;
  ru_SuppressIfgroup : Z;
  ru_SuppressPrefixlen : Z;
  ru_Invert : bool;
  ru_Dport : bool;
  ru_Sport : bool;
  ru_IPProto : Z;
  ru_UIDRange : bool;
  ru_Protocol : Z;
  ru_Type : Z
}.
#[export] Instance eta_Rule : Settable Rule :=
  fun x => mkRule (ru_Priority x) (ru_Family x) (ru_Table x) (ru_Mark x) (ru_Mask x) (ru_Tos x)
             (ru_TunID x) (ru_Goto x) (ru_Src x) (ru_Dst x) (ru_Flow x) (ru_IifName x) (ru_OifName x)
             (ru_SuppressIfgroup x) (ru_SuppressPrefixlen x) (ru_Invert x) (ru_Dport x) (ru_Sport x)
             (ru_IPProto x) (ru_UIDRange x) (ru_Protocol x) (ru_Type x).

Record Link := mkLink { lk_Name : string; lk_Index : Z; lk_Up : bool }.

(** An error of the kernel, and whether it is ESRCH, ENOENT or ENODEV, also
    under the wrappers put around it. *)
Record kerr := mkKerr { ke_gone : bool; ke_err : gerr }.

(** One message of a rule dump: too short, or the header with the decoded
    attributes. *)
Record ruleMessage := mkRuleMessage {
  rm_short : bool;
  rm_family : Z;
  rm_table : Z;
  rm_action : Z;
  rm_attributes : result (list (Z * list Z)) gerr
}.

Class Netlink (K : Type) := {
  routeList : Z -> K -> K * result (list Route) gerr;
  ruleList : Z -> K -> K * result (list Rule) gerr;
  ruleDump : Z -> K -> K * result (list ruleMessage) gerr;
  routeAdd : Route -> K -> K * option kerr;
  routeReplace : Route -> K -> K * option kerr;
  routeDel : Route -> K -> K * option kerr;
  ruleAdd : Rule -> K -> K * option kerr;
  ruleDel : Rule -> K -> K * option kerr;
  linkByName : string -> K -> K * result Link gerr;
  linkByIndex : Z -> K -> K * result Link gerr;
  newRule : Rule;
  nativeUint32 : list Z -> Z
}.

(** ** Predicates on routes and rules *)

(** [net.IPMask.Size]: [(0, 0)] when the ones are not a prefix. *)
Fixpoint simpleMaskLength (mask : list Z) : option nat :=
  match mask with
  | [] => Some 0%nat
  | v :: rest =>
      if v =? 255 then option_map (fun n => (8 + n)%nat) (simpleMaskLength rest)
      else match List.find (fun k => v =? 256 - 2 ^ (8 - Z.of_nat k)) (seq 0 8) with
           | Some k => if forallb (Z.eqb 0) rest then Some k else None
           | None => None
           end
  end.

Definition maskSize (mask : list Z) : nat * nat :=
  match simpleMaskLength mask with
  | Some ones => (ones, (8 * length mask)%nat)
  | None => (0%nat, 0%nat)
  end.

Definition is_Some_IP (ip : option IP) : bool := match ip with Some _ => true | None => false end.

(** [ip.To16() != nil] where [ip.To4() == nil]. *)
Definition linuxRouteIsDefault (route : Route) (family : Z) : bool :=
  match ro_Dst route with
  | None => true
  | Some dst =>
      let '(ones, bits) := maskSize (in_Mask dst) in
      if negb (Nat.eqb ones 0) then false
      else if family =? FAMILY_V4 then Nat.eqb bits 32 && is_Some_IP (To4 (in_IP dst))
      else if family =? FAMILY_V6 then
        Nat.eqb bits 128 && negb (is_Some_IP (To4 (in_IP dst))) && is_Some_IP (To16 (in_IP dst))
      else false
  end.

Definition linuxDefaultIPNet (family : Z) : option IPNet :=
  if family =? FAMILY_V4 then Some (mkIPNet (replicate 4 0) (CIDRMask 0 32))
  else if family =? FAMILY_V6 then Some (mkIPNet (replicate 16 0) (CIDRMask 0 128))
  else None.

Definition linuxSessionRuleHasNoAddressSelectors (rule : Rule) : bool :=
  negb (ru_Src rule) && negb (ru_Dst rule) && (ru_Tos rule =? 0) && negb (ru_Invert rule).

Definition linuxSessionRuleHasNoFlowSelectors (rule : Rule) : bool :=
  (ru_Goto rule =? -1) && (ru_Flow rule =? -1) && String.eqb (ru_IifName rule) "" &&
  String.eqb (ru_OifName rule) "" && (ru_SuppressIfgroup rule =? -1) &&
  (ru_SuppressPrefixlen rule =? -1).

Definition linuxSessionRuleHasNoTransportSelectors (rule : Rule) : bool :=
  negb (ru_Dport rule) && negb (ru_Sport rule) && negb (ru_UIDRange rule) &&
  (ru_IPProto rule =? 0) && (ru_TunID rule =? 0) && (ru_Protocol rule =? 0) && (ru_Type rule =? 0).

Definition linuxSessionRuleHasFullMarkMask (rule : Rule) : bool :=
  match ru_Mask rule with None => true | Some mask => mask =? max_uint32 end.

Definition linuxSessionTableMark (tableID : Z) : option Z :=
  if (tableID <=? 0) || (max_uint32 <? tableID) then None else Some tableID.

Definition linuxSessionRuleMatches (rule : Rule) (tableID priority : Z) : bool :=
  match linuxSessionTableMark tableID with
  | None => false
  | Some mark =>
      (ru_Family rule =? FAMILY_V4) && (ru_Priority rule =? priority) && (ru_Table rule =? tableID) &&
      (ru_Mark rule =? mark) && linuxSessionRuleHasNoAddressSelectors rule &&
      linuxSessionRuleHasNoFlowSelectors rule && linuxSessionRuleHasNoTransportSelectors rule &&
      linuxSessionRuleHasFullMarkMask rule
  end.

Definition linuxOwnsNetworkRule (rule : Rule) (priority tableID mark : Z) : bool :=
  if negb (ru_Protocol rule =? linuxOwnedRouteProtocol) || (ru_Priority rule <? priority) ||
     (priority + 2 <? ru_Priority rule) then false
  else
    let selectorRule := rule <| ru_Protocol := 0 |> <| ru_Type := 0 |> in
    if negb (linuxSessionRuleHasNoAddressSelectors selectorRule) ||
       negb (linuxSessionRuleHasNoFlowSelectors selectorRule) ||
       negb (linuxSessionRuleHasNoTransportSelectors selectorRule) ||
       negb (linuxSessionRuleHasFullMarkMask selectorRule) then false
    else if ru_Priority rule =? priority then
      (ru_Mark rule =? mark) && (ru_Table rule =? RT_TABLE_MAIN) && (ru_Type rule =? FR_ACT_TO_TBL)
    else if ru_Priority rule =? priority + 1 then
      (ru_Mark rule =? mark) && (ru_Table rule =? 0) && (ru_Type rule =? FR_ACT_UNREACHABLE)
    else if ru_Priority rule =? priority + 2 then
      (ru_Mark rule =? 0) && (ru_Table rule =? tableID) && (ru_Type rule =? FR_ACT_TO_TBL)
    else false.

(** The identity test at the head of the two operations. *)
Definition invalidIdentity (tableID priority : Z) : bool :=
  (tableID <=? 0) || (max_uint32 <? tableID) ||
  ((RT_TABLE_DEFAULT <=? tableID) && (tableID <=? RT_TABLE_LOCAL)) ||
  (priority <=? 0) || (max_uint32 - 2 <? priority).

Definition errInvalidIdentity : gerr := EText "invalid owned Linux policy routing identity".

(** The filter of [recoverLinuxNetworkFamilyRoutes] before the link is read. *)
Definition ownedRouteShape (route : Route) (family tableID : Z) : bool :=
  (ro_Table route =? tableID) && (ro_Protocol route =? linuxOwnedRouteProtocol) &&
  (ro_Type route =? RTN_UNICAST) && negb (is_Some_IP (ro_Gw route)) &&
  linuxRouteIsDefault route family && (0 <? ro_LinkIndex route).

Definition linuxRouteAlreadyGone (err : option kerr) : bool :=
  match err with Some e => ke_gone e | None => false end.

(** [deleteErr != nil && !linuxRouteAlreadyGone(deleteErr)]. *)
Definition deleteFailed (err : option kerr) : bool :=
  match err with Some e => negb (ke_gone e) | None => false end.

(** ** Operations on the kernel *)

Section linux.
Context {K : Type} `{Netlink K}.

Definition linuxRouteOperation (delete : bool) (action : string) (route : Route)
    (operation : Route -> K -> K * option kerr) (k : K) : K * option kerr :=
  let '(k, err) := operation route k in
  match err with
  | None => (k, None)
  | Some e =>
      if delete && ke_gone e then (k, Some e)
      else (k, Some (mkKerr (ke_gone e) (EWrap ("route " +:+ action) (ke_err e))))
  end.

Definition linuxRuleOperation (delete : bool) (action : string) (rule : Rule)
    (operation : Rule -> K -> K * option kerr) (k : K) : K * option kerr :=
  let '(k, err) := operation rule k in
  match err with
  | None => (k, None)
  | Some e =>
      if delete && ke_gone e then (k, Some e)
      else (k, Some (mkKerr (ke_gone e) (EWrap ("rule " +:+ action) (ke_err e))))
  end.

Definition linuxLinkIndex (name : string) (k : K) : K * result Z gerr :=
  if String.eqb name "" then (k, Err (EText "empty Linux interface name"))
  else
    let '(k, link) := linkByName name k in
    match link with
    | Err err => (k, Err (EWrap ("find Linux interface " +:+ quoted name) err))
    | Ok link =>
        if 0 <? lk_Index link then (k, Ok (lk_Index link))
        else (k, Err (EText ("linux interface " +:+ quoted name +:+ " has invalid index " +:+
                             Itoa (lk_Index link))))
    end.

(** ** What a plan owns *)

Inductive resource :=
| NetRoute (r : Route)
| NetRule (r : Rule).

Definition kernelError (err : option kerr) : option gerr := option_map ke_err err.

Definition applyResource (r : resource) (k : K) : K * option gerr :=
  match r with
  | NetRoute route =>
      let '(k, err) := linuxRouteOperation false "add" route routeAdd k in (k, kernelError err)
  | NetRule rule =>
      let '(k, err) := linuxRuleOperation false "add" rule ruleAdd k in (k, kernelError err)
  end.

(** A resource that is already gone counts as released. *)
Definition ignoreGone (x : K * option kerr) : K * option gerr :=
  let '(k, err) := x in
  if linuxRouteAlreadyGone err then (k, None) else (k, kernelError err).

Definition releaseResource (r : resource) (k : K) : K * option gerr :=
  match r with
  | NetRoute route => ignoreGone (linuxRouteOperation true "delete" route routeDel k)
  | NetRule rule => ignoreGone (linuxRuleOperation true "delete" rule ruleDel k)
  end.

Abbreviation netPlan := (Plan resource).

(** The default route of the owned table, and its three rules. *)
Definition networkRoute (family tableID index : Z) : Route :=
  mkRoute (linuxDefaultIPNet family) None index linuxOwnedRouteProtocol 0 family tableID
    RTN_UNICAST SCOPE_LINK 0.

Definition networkRule (family tableID priority mark offset : Z) : Rule :=
  let rule := newRule <| ru_Family := family |> <| ru_Priority := priority + offset |>
                <| ru_Protocol := linuxOwnedRouteProtocol |> <| ru_Type := FR_ACT_TO_TBL |> in
  if offset =? 0 then rule <| ru_Mark := mark |> <| ru_Table := RT_TABLE_MAIN |>
  else if offset =? 1 then
    rule <| ru_Mark := mark |> <| ru_Table := 0 |> <| ru_Type := FR_ACT_UNREACHABLE |>
  else rule <| ru_Table := tableID |>.

Definition familyText (family : Z) : string := if family =? FAMILY_V4 then "0.0.0.0/0" else "::/0".

Definition acquireLinuxNetworkRoute (route : Route) (p : netPlan) (k : K) :
    netPlan * K * option gerr :=
  let '(p, k, res) := Acquire applyResource
    ("network-route " +:+ familyText (ro_Family route) +:+ " table=" +:+ Itoa (ro_Table route))
    (NetRoute route) p k in
  (p, k, match res with Ok _ => None | Err err => Some err end).

Fixpoint acquireRules (family tableID priority mark : Z) (offsets : list Z) (p : netPlan) (k : K) :
    netPlan * K * option gerr :=
  match offsets with
  | [] => (p, k, None)
  | offset :: offsets =>
      let rule := networkRule family tableID priority mark offset in
      let '(p, k, res) := Acquire applyResource
        ("network-rule family=" +:+ Itoa family +:+ " priority=" +:+ Itoa (ru_Priority rule))
        (NetRule rule) p k in
      match res with
      | Err err => (p, k, Some err)
      | Ok _ => acquireRules family tableID priority mark offsets p k
      end
  end.

Definition priorityTaken (priority : Z) (rule : Rule) : bool :=
  (priority <=? ru_Priority rule) && (ru_Priority rule <=? priority + 2).

Definition acquireLinuxNetworkFamily (tableID priority index mark family : Z) (p : netPlan) (k : K) :
    netPlan * K * option gerr :=
  let '(k, routes) := routeList family k in
  match routes with
  | Err err => (p, k, Some err)
  | Ok routes =>
      if existsb (fun route => ro_Table route =? tableID) routes
      then (p, k, Some (EText ("routing table " +:+ Itoa tableID +:+ " is already in use")))
      else
        let '(k, rules) := ruleList family k in
        match rules with
        | Err err => (p, k, Some err)
        | Ok rules =>
            match List.find (priorityTaken priority) rules with
            | Some rule =>
                (p, k, Some (EText ("routing priority " +:+ Itoa (ru_Priority rule) +:+
                                    " is already in use")))
            | None =>
                let '(p, k, err) :=
                  acquireLinuxNetworkRoute (networkRoute family tableID index) p k in
                match err with
                | Some err => (p, k, Some err)
                | None => acquireRules family tableID priority mark [0; 1; 2] p k
                end
            end
        end
  end.

(** Both families in order, stopping at the first error. *)
Fixpoint acquireFamilies (families : list Z) (tableID priority index mark : Z) (p : netPlan) (k : K) :
    netPlan * K * option gerr :=
  match families with
  | [] => (p, k, None)
  | family :: families =>
      let '(p, k, err) := acquireLinuxNetworkFamily tableID priority index mark family p k in
      match err with
      | Some err => (p, k, Some err)
      | None => acquireFamilies families tableID priority index mark p k
      end
  end.

Definition AcquireLinuxNetwork (tunName : string) (tableID priority : Z) (p : netPlan) (k : K) :
    netPlan * K * option gerr :=
  if invalidIdentity tableID priority then (p, k, Some errInvalidIdentity)
  else
    let '(k, index) := linuxLinkIndex tunName k in
    match index with
    | Err err => (p, k, Some err)
    | Ok index =>
        acquireFamilies [FAMILY_V4; FAMILY_V6] tableID priority index tableID p k
    end.

Definition ClosePlan (p : netPlan) (k : K) : netPlan * K * option gerr :=
  PlanClose releaseResource p k.

(** ** Finding the physical interface *)

(** [sort.SliceStable] by priority: insertion keeps equal elements in order. *)
Fixpoint insertRoute (r : Route) (rs : list Route) : list Route :=
  match rs with
  | [] => [r]
  | r' :: rs' => if ro_Priority r <? ro_Priority r' then r :: rs else r' :: insertRoute r rs'
  end.

Definition sortRoutes (rs : list Route) : list Route := fold_left (fun acc r => insertRoute r acc) rs [].

Definition physicalCandidate (family : Z) (route : Route) : bool :=
  (ro_Table route =? RT_TABLE_MAIN) && (ro_Type route =? RTN_UNICAST) &&
  linuxRouteIsDefault route family && (0 <? ro_LinkIndex route).

Fixpoint firstUpLink (tunName : string) (routes : list Route) (k : K) : K * result (option Z) gerr :=
  match routes with
  | [] => (k, Ok None)
  | route :: routes =>
      let '(k, link) := linkByIndex (ro_LinkIndex route) k in
      match link with
      | Err err => (k, Err err)
      | Ok link =>
          if negb (String.eqb (lk_Name link) tunName) && lk_Up link
          then (k, Ok (Some (ro_LinkIndex route)))
          else firstUpLink tunName routes k
      end
  end.

Fixpoint physicalInFamilies (families : list Z) (tunName : string) (k : K) : K * result Z gerr :=
  match families with
  | [] => (k, Err (EText "no physical IPv4 or IPv6 default route"))
  | family :: families =>
      let '(k, routes) := routeList family k in
      match routes with
      | Err err => (k, Err err)
      | Ok routes =>
          let '(k, found) :=
            firstUpLink tunName (List.filter (physicalCandidate family) (sortRoutes routes)) k in
          match found with
          | Err err => (k, Err err)
          | Ok (Some index) => (k, Ok index)
          | Ok None => physicalInFamilies families tunName k
          end
      end
  end.

Definition LinuxPhysicalInterface (tunName : string) (k : K) : K * result Z gerr :=
  physicalInFamilies [FAMILY_V4; FAMILY_V6] tunName k.
End linux.
