(* ===== verification/RoutingRecovery.v ===== *)
(** * Recovering an interrupted process (core/routing/network_linux.go,
    network_rules_linux.go, recovery_linux.go)

    What a new process does about the routes and rules an earlier one left:
    each function also returns what it read from the kernel and what it asked
    it to change, in order. *)

From S2P Require Import Prelude Errors GoStrings Bypass RoutingPlan Routing.
Local Open Scope string_scope.
Local Open Scope list_scope.
Local Open Scope Z_scope.

Inductive change :=
| RulesRead (family : Z) (rules : list Rule)
| RoutesRead (family : Z) (routes : list Route)
| LinkRead (index : Z) (name : string)
| RouteDeleted (route : Route) (err : option kerr)
| RuleDeleted (rule : Rule) (err : option kerr)
| RouteReplaced (route : Route) (err : option kerr).

(** ** The action of a rule *)

Record linuxRuleIdentity := mkRuleIdentity { id_priority : Z; id_table : Z; id_mark : Z; id_protocol : Z }.
#[export] Instance eta_linuxRuleIdentity : Settable linuxRuleIdentity :=
  fun x => mkRuleIdentity (id_priority x) (id_table x) (id_mark x) (id_protocol x).

#[export] Instance linuxRuleIdentity_eq_dec : EqDecision linuxRuleIdentity.
Proof. solve_decision. Defined.

Definition FRA_PRIORITY : Z := 6.
Definition FRA_FWMARK : Z := 10.
Definition FRA_TABLE : Z := 15.
Definition FRA_PROTOCOL : Z := 21.

(** The map from identities to actions; 0 marks an ambiguous one. *)
Definition actionMap := list (linuxRuleIdentity * Z).

Definition lookupAction (key : linuxRuleIdentity) (actions : actionMap) : option Z :=
  option_map snd (List.find (fun x => bool_decide (x.1 = key)) actions).

Definition setAction (key : linuxRuleIdentity) (action : Z) (actions : actionMap) : actionMap :=
  (key, action) :: List.filter (fun x => negb (bool_decide (x.1 = key))) actions.

Section linux.
Context {K : Type} `{Netlink K}.

Fixpoint ruleAttributes (attributes : list (Z * list Z)) (key : linuxRuleIdentity) :
    result linuxRuleIdentity gerr :=
  match attributes with
  | [] => Ok key
  | (type, value) :: attributes =>
      if (type =? FRA_PRIORITY) || (type =? FRA_TABLE) || (type =? FRA_FWMARK) then
        if bool_decide (length value < 4)%nat
        then Err (EText ("short native routing rule attribute " +:+ Itoa type))
        else
          let v := nativeUint32 value in
          ruleAttributes attributes
            (if type =? FRA_PRIORITY then key <| id_priority := v |>
             else if type =? FRA_TABLE then key <| id_table := v |>
             else key <| id_mark := v |>)
      else if type =? FRA_PROTOCOL then
        match value with
        | [] => Err (EText "short native routing rule protocol")
        | v :: _ => ruleAttributes attributes (key <| id_protocol := v |>)
        end
      else ruleAttributes attributes key
  end.

Fixpoint collectActions (family : Z) (messages : list ruleMessage) (actions : actionMap) :
    result actionMap gerr :=
  match messages with
  | [] => Ok actions
  | message :: messages =>
      if rm_short message then Err (EText "short native routing rule header")
      else if negb (rm_family message =? family) then collectActions family messages actions
      else match rm_attributes message with
           | Err err => Err (EWrap "decode native routing rule action" err)
           | Ok attributes =>
               match ruleAttributes attributes (mkRuleIdentity 0 (rm_table message) 0 0) with
               | Err err => Err err
               | Ok key =>
                   collectActions family messages
                     (match lookupAction key actions with
                      | None => setAction key (rm_action message) actions
                      | Some previous =>
                          if previous =? rm_action message then actions else setAction key 0 actions
                      end)
               end
           end
  end.

Definition linuxNativeRuleActions (family : Z) (k : K) : K * result actionMap gerr :=
  let '(k, messages) := ruleDump family k in
  match messages with
  | Err err => (k, Err (EWrap "read native routing rule actions" err))
  | Ok messages => (k, collectActions family messages [])
  end.

(** The rules with a missing action filled in; the dump is read once, for the
    first rule that needs it. *)
Fixpoint fillActions (family priority : Z) (rules : list Rule) (actions : option actionMap) (k : K) :
    K * result (list Rule) gerr :=
  match rules with
  | [] => (k, Ok [])
  | rule :: rules =>
      if negb (priorityTaken priority rule) || negb (ru_Type rule =? 0) then
        let '(k, rest) := fillActions family priority rules actions k in
        (k, (let? rest := rest in Ok (rule :: rest))%result)
      else
        let '(k, actions) :=
          match actions with
          | Some actions => (k, Ok actions)
          | None => linuxNativeRuleActions family k
          end in
        match actions with
        | Err err => (k, Err err)
        | Ok actions =>
            let key := mkRuleIdentity (ru_Priority rule) (ru_Table rule) (ru_Mark rule) (ru_Protocol rule) in
            let action := match lookupAction key actions with Some a => a | None => 0 end in
            if action =? 0
            then (k, Err (EText ("native routing rule action is missing or ambiguous: family=" +:+ Itoa family)))
            else
              let '(k, rest) := fillActions family priority rules (Some actions) k in
              (k, (let? rest := rest in Ok (rule <| ru_Type := action |> :: rest))%result)
        end
  end.

Definition linuxNetworkRules (family priority : Z) (k : K) : K * result (list Rule) gerr :=
  let '(k, rules) := ruleList family k in
  match rules with
  | Err err => (k, Err err)
  | Ok rules => fillActions family priority rules None k
  end.

(** ** Removing what the network operation installed *)

Fixpoint deleteOwnedRules (rules : list Rule) (priority tableID mark : Z) (k : K) :
    K * list change * option gerr :=
  match rules with
  | [] => (k, [], None)
  | rule :: rules =>
      if negb (linuxOwnsNetworkRule rule priority tableID mark)
      then deleteOwnedRules rules priority tableID mark k
      else
        let '(k, err) := linuxRuleOperation true "delete" rule ruleDel k in
        if deleteFailed err
        then (k, [RuleDeleted rule err], kernelError err)
        else
          let '(k, changes, res) := deleteOwnedRules rules priority tableID mark k in
          (k, RuleDeleted rule err :: changes, res)
  end.

Definition recoverLinuxNetworkFamilyRules (family priority tableID mark : Z) (k : K) :
    K * list change * option gerr :=
  let '(k, rules) := linuxNetworkRules family priority k in
  match rules with
  | Err err => (k, [], Some err)
  | Ok rules =>
      let '(k, changes, err) := deleteOwnedRules rules priority tableID mark k in
      (k, RulesRead family rules :: changes, err)
  end.

Fixpoint deleteOwnedRoutes (routes : list Route) (family tableID : Z) (tunName : string) (k : K) :
    K * list change * option gerr :=
  match routes with
  | [] => (k, [], None)
  | route :: routes =>
      if negb (ownedRouteShape route family tableID)
      then deleteOwnedRoutes routes family tableID tunName k
      else
        let '(k, link) := linkByIndex (ro_LinkIndex route) k in
        match link with
        | Err err => (k, [], Some err)
        | Ok link =>
            let read := LinkRead (ro_LinkIndex route) (lk_Name link) in
            if negb (String.eqb (lk_Name link) tunName)
            then
              let '(k, changes, res) := deleteOwnedRoutes routes family tableID tunName k in
              (k, read :: changes, res)
            else
              let '(k, err) := linuxRouteOperation true "delete" route routeDel k in
              if deleteFailed err
              then (k, [read; RouteDeleted route err], kernelError err)
              else
                let '(k, changes, res) := deleteOwnedRoutes routes family tableID tunName k in
                (k, read :: RouteDeleted route err :: changes, res)
        end
  end.

Definition recoverLinuxNetworkFamilyRoutes (family tableID : Z) (tunName : string) (k : K) :
    K * list change * option gerr :=
  let '(k, routes) := routeList family k in
  match routes with
  | Err err => (k, [], Some err)
  | Ok routes =>
      let '(k, changes, err) := deleteOwnedRoutes routes family tableID tunName k in
      (k, RoutesRead family routes :: changes, err)
  end.

Definition recoverLinuxNetworkFamily (family tableID priority mark : Z) (tunName : string) (k : K) :
    K * list change * option gerr :=
  let '(k, changes, err) := recoverLinuxNetworkFamilyRules family priority tableID mark k in
  match err with
  | Some err => (k, changes, Some err)
  | None =>
      let '(k, changes', err) := recoverLinuxNetworkFamilyRoutes family tableID tunName k in
      (k, changes ++ changes', err)
  end.

Fixpoint recoverFamilies (families : list Z) (tableID priority mark : Z) (tunName : string) (k : K) :
    K * list change * option gerr :=
  match families with
  | [] => (k, [], None)
  | family :: families =>
      let '(k, changes, err) := recoverLinuxNetworkFamily family tableID priority mark tunName k in
      match err with
      | Some err => (k, changes, Some err)
      | None =>
          let '(k, changes', err) := recoverFamilies families tableID priority mark tunName k in
          (k, changes ++ changes', err)
      end
  end.

Definition RecoverLinuxNetworkRules (tableID priority : Z) (tunName : string) (k : K) :
    K * list change * option gerr :=
  if invalidIdentity tableID priority then (k, [], Some errInvalidIdentity)
  else recoverFamilies [FAMILY_V4; FAMILY_V6] tableID priority tableID tunName k.

(** ** Removing what older versions installed *)

Definition linuxOwnedProxyRoute (route : Route) : bool :=
  (ro_Table route =? RT_TABLE_MAIN) && (ro_Family route =? FAMILY_V4) &&
  (ro_Protocol route =? linuxOwnedRouteProtocol) && (ro_Priority route =? linuxOwnedProxyMetric) &&
  (ro_Type route =? RTN_UNICAST) &&
  match ro_Gw route with Some gw => is_Some_IP (To4 gw) | None => false end &&
  (0 <? ro_LinkIndex route) && Nat.eqb (ro_MultiPath route) 0 &&
  match ro_Dst route with
  | None => false
  | Some dst =>
      let '(ones, bits) := maskSize (in_Mask dst) in
      Nat.eqb bits 32 && Nat.eqb ones 32 && is_Some_IP (To4 (in_IP dst))
  end.

Definition linuxOwnedTunnelRoute (route : Route) (tunName : string) (k : K) : K * bool :=
  if negb (ro_Table route =? RT_TABLE_MAIN) || negb (ro_Family route =? FAMILY_V4) ||
     negb (linuxRouteIsDefault route FAMILY_V4) || negb (ro_Protocol route =? linuxOwnedRouteProtocol) ||
     negb (ro_Type route =? RTN_UNICAST) || (ro_LinkIndex route <=? 0) || String.eqb tunName ""
  then (k, false)
  else
    let '(k, link) := linkByIndex (ro_LinkIndex route) k in
    match link with
    | Err _ => (k, false)
    | Ok link => (k, String.eqb (lk_Name link) tunName)
    end.

Definition linuxOwnedMarkedGatewayRoute (route : Route) (tableID : Z) : bool :=
  (ro_Table route =? tableID) && (ro_Family route =? FAMILY_V4) && linuxRouteIsDefault route FAMILY_V4 &&
  (ro_Protocol route =? linuxOwnedRouteProtocol) && (ro_Type route =? RTN_UNICAST) &&
  match ro_Gw route with Some gw => is_Some_IP (To4 gw) | None => false end &&
  (0 <? ro_LinkIndex route) && Nat.eqb (ro_MultiPath route) 0.

Definition linuxOwnedTerminalRoute (route : Route) (tableID : Z) : bool :=
  (ro_Table route =? tableID) && (ro_Family route =? FAMILY_V4) && linuxRouteIsDefault route FAMILY_V4 &&
  (ro_Type route =? RTN_UNREACHABLE) && (ro_Protocol route =? linuxOwnedRouteProtocol) &&
  (ro_Priority route =? 1) && negb (is_Some_IP (ro_Gw route)) && (ro_LinkIndex route =? 0).

(** [route.Dst.String()] is "::/1" or "8000::/1". *)
Definition ipv6Half (dst : IPNet) : bool :=
  bool_decide (in_Mask dst = CIDRMask 1 128) &&
  (bool_decide (in_IP dst = replicate 16 0) || bool_decide (in_IP dst = 128 :: replicate 15 0)).

Definition linuxOwnedIPv6Route (route : Route) : bool :=
  (ro_Table route =? RT_TABLE_MAIN) && (ro_Family route =? FAMILY_V6) &&
  (ro_Type route =? RTN_BLACKHOLE) && (ro_Protocol route =? linuxOwnedRouteProtocol) &&
  (ro_Priority route =? 1) &&
  match ro_Dst route with None => false | Some dst => ipv6Half dst end.

Definition linuxRecoveryRouteForDelete (route : Route) (family : Z) : Route :=
  match ro_Dst route with
  | None => if linuxRouteIsDefault route family then route <| ro_Dst := linuxDefaultIPNet family |> else route
  | Some _ => route
  end.

Record linuxRecoveryRoutes := mkRecoveryRoutes {
  rr_deletes : list Route;
  rr_hasIndependentDefault : bool;
  rr_restoreDefault : option Route;
  rr_restoreDefaultAmbiguous : bool
}.
#[export] Instance eta_linuxRecoveryRoutes : Settable linuxRecoveryRoutes :=
  fun x => mkRecoveryRoutes (rr_deletes x) (rr_hasIndependentDefault x) (rr_restoreDefault x)
             (rr_restoreDefaultAmbiguous x).

Definition recovered_delete (route : Route) (x : linuxRecoveryRoutes) : linuxRecoveryRoutes :=
  x <| rr_deletes ::= fun ds => ds ++ [route] |>.

Definition restoreCandidate (route : Route) : Route :=
  mkRoute (linuxDefaultIPNet FAMILY_V4)
    match ro_Gw route with Some gw => To4 gw | None => None end
    (ro_LinkIndex route) RTPROT_BOOT 0 FAMILY_V4 RT_TABLE_MAIN RTN_UNICAST SCOPE_UNIVERSE 0.

(** Both gateways are four bytes, so [IP.Equal] is equality. *)
Definition recovered_restore (candidate : Route) (x : linuxRecoveryRoutes) : linuxRecoveryRoutes :=
  match rr_restoreDefault x with
  | None => x <| rr_restoreDefault := Some candidate |>
  | Some first =>
      if negb (ro_LinkIndex first =? ro_LinkIndex candidate) ||
         negb (bool_decide (ro_Gw first = ro_Gw candidate))
      then x <| rr_restoreDefaultAmbiguous := true |> else x
  end.

Definition collectRoute (tableID : Z) (tunName : string) (route : Route)
    (s : K * linuxRecoveryRoutes) : K * linuxRecoveryRoutes :=
  let '(k, x) := s in
  if ro_Table route =? RT_TABLE_MAIN then
    if linuxOwnedProxyRoute route then (k, recovered_delete route x)
    else
      let '(k, tunnel) := linuxOwnedTunnelRoute route tunName k in
      if tunnel then (k, recovered_delete (linuxRecoveryRouteForDelete route FAMILY_V4) x)
      else if linuxRouteIsDefault route FAMILY_V4 then (k, x <| rr_hasIndependentDefault := true |>)
      else (k, x)
  else if negb (ro_Table route =? tableID) then (k, x)
  else if linuxOwnedTerminalRoute route tableID then
    (k, recovered_delete (linuxRecoveryRouteForDelete route FAMILY_V4) x)
  else if negb (linuxOwnedMarkedGatewayRoute route tableID) then (k, x)
  else
    (k, recovered_restore (restoreCandidate route)
          (recovered_delete (linuxRecoveryRouteForDelete route FAMILY_V4) x)).

Definition collectLinuxRecoveryRoutes (ipv4Routes ipv6Routes : list Route) (tableID : Z)
    (tunName : string) (k : K) : K * linuxRecoveryRoutes :=
  let '(k, x) :=
    fold_left (fun s route => collectRoute tableID tunName route s) ipv4Routes
      (k, mkRecoveryRoutes [] false None false) in
  (k, fold_left (fun x route => if linuxOwnedIPv6Route route then recovered_delete route x else x)
        ipv6Routes x).

(** Deletions go on after an error; the errors are collected. *)
Fixpoint removeRules (rules : list Rule) (k : K) : K * list change * list (option gerr) :=
  match rules with
  | [] => (k, [], [])
  | rule :: rules =>
      let '(k, err) := linuxRuleOperation true "delete" rule ruleDel k in
      let '(k, changes, errs) := removeRules rules k in
      (k, RuleDeleted rule err :: changes,
       match err with
       | Some e => if ke_gone e then errs else Some (EWrap "remove owned fwmark rule" (ke_err e)) :: errs
       | None => errs
       end)
  end.

Fixpoint removeRoutes (routes : list Route) (k : K) : K * list change * list (option gerr) :=
  match routes with
  | [] => (k, [], [])
  | route :: routes =>
      let '(k, err) := linuxRouteOperation true "delete" route routeDel k in
      let '(k, changes, errs) := removeRoutes routes k in
      (k, RouteDeleted route err :: changes,
       match err with
       | Some e => if ke_gone e then errs else Some (EWrap "remove owned route" (ke_err e)) :: errs
       | None => errs
       end)
  end.

Definition restoreDefault (routes : linuxRecoveryRoutes) (k : K) :
    K * list change * list (option gerr) :=
  if rr_restoreDefaultAmbiguous routes
  then (k, [], [Some (EText "restore interrupted default route: owned marked routes disagree")])
  else match rr_restoreDefault routes with
       | None => (k, [], [])
       | Some route =>
           if rr_hasIndependentDefault routes then (k, [], [])
           else
             let '(k, err) := linuxRouteOperation false "replace" route routeReplace k in
             (k, [RouteReplaced route err],
              match err with
              | Some e => [Some (EWrap "restore interrupted default route" (ke_err e))]
              | None => []
              end)
       end.

Definition RecoverLinuxOwnedRoutes (tableID priority : Z) (tunName : string) (k : K) :
    K * list change * option gerr :=
  let '(k, mainRoutes) := routeList FAMILY_V4 k in
  match mainRoutes with
  | Err err => (k, [], Some (EWrap "inspect owned IPv4 routes" err))
  | Ok mainRoutes =>
      let '(k, ipv6Routes) := routeList FAMILY_V6 k in
      match ipv6Routes with
      | Err err => (k, [RoutesRead FAMILY_V4 mainRoutes], Some (EWrap "inspect owned IPv6 routes" err))
      | Ok ipv6Routes =>
          let '(k, routes) := collectLinuxRecoveryRoutes mainRoutes ipv6Routes tableID tunName k in
          let '(k, rules) := ruleList FAMILY_V4 k in
          let ownedRules :=
            match rules with
            | Ok rules => List.filter (fun rule => linuxSessionRuleMatches rule tableID priority) rules
            | Err _ => []
            end in
          let listErr :=
            match rules with
            | Ok _ => []
            | Err err => [Some (EWrap "inspect owned fwmark rule" err)]
            end in
          let reads :=
            [RoutesRead FAMILY_V4 mainRoutes; RoutesRead FAMILY_V6 ipv6Routes] ++
            match rules with Ok rules => [RulesRead FAMILY_V4 rules] | Err _ => [] end in
          let '(k, changes1, errs1) := removeRules ownedRules k in
          let '(k, changes2, errs2) := removeRoutes (rr_deletes routes) k in
          match rr_deletes routes, ownedRules, rules with
          | [], [], Ok _ => (k, reads, None)
          | _, _, _ =>
              let '(k, changes3, errs3) := restoreDefault routes k in
              (k, reads ++ changes1 ++ changes2 ++ changes3, join (listErr ++ errs1 ++ errs2 ++ errs3))
          end
      end
  end.
End linux.
