(* ===== verification/RoutingTheorems.v ===== *)
(** * What routing guarantees

    A plan releases what it applied, once each and in reverse order; recovery
    removes nothing but what carries the program's own tags, and recognises
    everything the network operation installs. *)

From S2P Require Import Prelude Errors GoStrings Bypass RoutingPlan Routing RoutingRecovery.
Local Open Scope string_scope.
Local Open Scope list_scope.

(** ** Plans *)

Definition count {A : Type} (f : A -> bool) (l : list A) : nat := length (List.filter f l).

Arguments count : simpl never.

Lemma count_one {A} (f : A -> bool) x : count f [x] = if f x then 1 else 0.
Proof. unfold count. cbn. by destruct (f x). Qed.

Lemma count_cons {A} (f : A -> bool) x l : count f (x :: l) = (if f x then 1 else 0) + count f l.
Proof. unfold count. cbn. by destruct (f x). Qed.

Lemma count_app {A} (f : A -> bool) l l' : count f (l ++ l') = count f l + count f l'.
Proof. unfold count. by rewrite List.filter_app, length_app. Qed.

Section plan.
Context {R W : Type}.
Context (apply release : R -> W -> W * option gerr).

Definition released_call (l : Lease R) : planCall R := ReleaseCalled (l_id l) (l_resource l) None.

Definition opens (ls : list (Lease R)) : list (Lease R) := List.filter (fun l => negb (l_closed l)) ls.

Lemma opens_cons l ls : opens (l :: ls) = if l_closed l then opens ls else l :: opens ls.
Proof. unfold opens. cbn. by destruct (l_closed l). Qed.

(** One pass: the closed part, the calls it made, and what is kept as it was. *)
Lemma closeLeases_spec ls w kept w' calls err :
  closeLeases release ls w = (kept, w', calls, err) ->
  exists gone, ls = gone ++ kept /\
    match err with
    | None => kept = [] /\ calls = map released_call (opens gone)
    | Some _ => exists l rest e, kept = l :: rest /\ l_closed l = false /\
        calls = map released_call (opens gone) ++ [ReleaseCalled (l_id l) (l_resource l) (Some e)]
    end.
Proof.
  revert w kept w' calls err. induction ls as [|l ls IH]; intros w kept w' calls err; cbn.
  { intros [= <- <- <- <-]. by exists []. }
  unfold LeaseClose. destruct (l_closed l) eqn:Hc.
  - destruct (closeLeases release ls w) as [[[kept1 w1] calls1] err1] eqn:E. intros [= <- <- <- <-].
    destruct (IH _ _ _ _ _ E) as (gone & -> & H). exists (l :: gone). split; [done|]. cbn. by rewrite Hc.
  - destruct (release (l_resource l) w) as [w1 [e|]].
    + intros [= <- <- <- <-]. exists []. split; [done|]. exists l, ls, e. by rewrite Hc.
    + destruct (closeLeases release ls w1) as [[[kept1 w2] calls1] err1] eqn:E. intros [= <- <- <- <-].
      destruct (IH _ _ _ _ _ E) as (gone & -> & H). exists (l :: gone). split; [done|].
      cbn. rewrite Hc. cbn. destruct err1.
      * destruct H as (l' & rest & e & H1 & H2 & ->). by exists l', rest, e.
      * by destruct H as [-> ->].
Qed.

(** The record of each lease identity. *)
Record PlanInv (p : Plan R) : Prop := mkPInv {
  pi_nodup : NoDup (map l_id (p_leases p));
  pi_bound : forall l, l ∈ p_leases p -> l_id l < p_next p;
  pi_applied : forall id, count (isApplied id) (p_trace p) = if bool_decide (id < p_next p) then 1 else 0;
  pi_lease : forall l, l ∈ p_leases p ->
    count (isReleased (l_id l)) (p_trace p) = if l_closed l then 1 else 0;
  pi_gone : forall id, id < p_next p -> id ∉ map l_id (p_leases p) ->
    count (isReleased id) (p_trace p) = 1;
  pi_fresh : forall id, p_next p <= id -> count (isReleased id) (p_trace p) = 0
}.

Lemma PlanInv_new s : PlanInv (NewPlan s).
Proof.
  constructor; cbn; try done; try set_solver; try lia. constructor.
Qed.

Lemma Acquire_PlanInv name r p w : PlanInv p -> PlanInv (Acquire apply name r p w).1.1.
Proof.
  intros Hinv. pose proof Hinv as [H1 H2 H3 H4 H5 H6]. unfold Acquire. destruct (p_closed p); [done|].
  destruct (apply r w) as [w' [e|]]; cbn.
  - constructor; [exact H1|exact H2|..]; intros; cbn; rewrite count_app, count_one; cbn; rewrite Nat.add_0_r; by auto.
  - assert (p_next p ∉ map l_id (p_leases p)) as Hnew.
    { intros (l & Heq & Hl)%list_elem_of_fmap. specialize (H2 l Hl). lia. }
    constructor; cbn.
    + rewrite map_app. cbn. apply NoDup_app. split_and!; [done| |apply NoDup_singleton].
      intros id Hid ->%list_elem_of_singleton. done.
    + intros l [Hl|Hl%list_elem_of_singleton]%elem_of_app; [specialize (H2 l Hl); lia|subst; cbn; lia].
    + intros id. rewrite count_app, H3, count_one. cbn.
      destruct (decide (id = p_next p)) as [->|N].
      * rewrite (bool_decide_eq_true_2 (p_next p = p_next p)), bool_decide_eq_false_2, bool_decide_eq_true_2 by lia. done.
      * rewrite (bool_decide_eq_false_2 (p_next p = id)) by done. rewrite Nat.add_0_r.
        case_bool_decide; case_bool_decide; lia.
    + intros l [Hl|Hl%list_elem_of_singleton]%elem_of_app; rewrite count_app, count_one; cbn; rewrite Nat.add_0_r;
        [by apply H4|subst; cbn; by apply H6].
    + intros id Hid Hno. rewrite map_app, not_elem_of_app in Hno. destruct Hno as [Hno1 Hno2].
      cbn in Hno2. rewrite list_elem_of_singleton in Hno2.
      rewrite count_app, count_one. cbn. rewrite Nat.add_0_r. apply H5; [lia|done].
    + intros id Hid. rewrite count_app, count_one. cbn. rewrite Nat.add_0_r. apply H6. lia.
Qed.

Lemma count_other id gone :
  id ∉ map (@l_id R) gone -> count (isReleased id) (map released_call (opens gone)) = 0.
Proof.
  induction gone as [|l gone IH]; [done|]. rewrite map_cons, not_elem_of_cons, opens_cons.
  intros [N Hno]. specialize (IH Hno). destruct (l_closed l); [done|].
  rewrite map_cons, count_cons, IH. cbn. by rewrite bool_decide_eq_false_2.
Qed.

Lemma count_gone gone l :
  NoDup (map (@l_id R) gone) -> l ∈ gone ->
  count (isReleased (l_id l)) (map released_call (opens gone)) = if l_closed l then 0 else 1.
Proof.
  induction gone as [|l' gone IH]; [by intros _ ?%not_elem_of_nil|].
  rewrite map_cons, NoDup_cons, elem_of_cons, opens_cons. intros [Hno Hnd] [->|Hl].
  - pose proof (count_other _ _ Hno) as H0. destruct (l_closed l'); [done|].
    rewrite map_cons, count_cons, H0. cbn. by rewrite bool_decide_eq_true_2.
  - specialize (IH Hnd Hl). destruct (l_closed l') eqn:Hc; [done|].
    rewrite map_cons, count_cons, IH. cbn. rewrite bool_decide_eq_false_2; [done|].
    intros Heq. apply Hno. apply list_elem_of_fmap. by exists l.
Qed.

(** What a pass adds to the record of an identity. *)
Lemma closeLeases_count ls w kept w' calls err :
  NoDup (map (@l_id R) ls) -> closeLeases release ls w = (kept, w', calls, err) ->
  exists gone, ls = gone ++ kept /\ (err = None -> kept = []) /\
    (forall id, id ∉ map l_id gone -> count (isReleased id) calls = 0) /\
    (forall l, l ∈ gone -> count (isReleased (l_id l)) calls = if l_closed l then 0 else 1) /\
    (forall id, count (isApplied id) calls = 0).
Proof.
  intros Hnd E. destruct (closeLeases_spec _ _ _ _ _ _ E) as (gone & -> & H). exists gone.
  rewrite map_app, NoDup_app in Hnd. destruct Hnd as [Hnd _].
  assert (forall id, count (isApplied id) (map released_call (opens gone)) = 0) as Ha.
  { intros id. clear H. induction (opens gone) as [|l ls IH]; [done|]. rewrite map_cons, count_cons, IH. done. }
  destruct err as [err|].
  - destruct H as (l & rest & e & -> & Hl & ->). split_and!; [done|done|..]; intros;
      rewrite count_app, count_one; cbn; rewrite Nat.add_0_r; auto using count_other, count_gone.
  - destruct H as [-> ->]. split_and!; [done|done|intros; by apply count_other|intros; by apply count_gone|done].
Qed.

Lemma PlanClose_PlanInv p w : PlanInv p -> PlanInv (PlanClose release p w).1.1.
Proof.
  intros [H1 H2 H3 H4 H5 H6]. unfold PlanClose.
  destruct (closeLeases release (rev (p_leases p)) w) as [[[kept w'] calls] err] eqn:E. cbn.
  assert (NoDup (map (@l_id R) (rev (p_leases p)))) as Hnd.
  { rewrite map_rev. by rewrite <- Permutation_rev. }
  destruct (closeLeases_count _ _ _ _ _ _ Hnd E) as (gone & Hls & _ & C0 & C1 & CA).
  assert (forall l, l ∈ p_leases p <-> l ∈ gone \/ l ∈ kept) as Hin.
  { intros l. rewrite <- elem_of_app, <- Hls. rewrite !list_elem_of_In. apply in_rev. }
  rewrite Hls, map_app, NoDup_app in Hnd. destruct Hnd as (Hg & Hdisj & Hk).
  constructor; cbn.
  - rewrite map_rev. by rewrite <- Permutation_rev.
  - intros l Hl. apply H2, Hin. right. by apply list_elem_of_In, in_rev, list_elem_of_In.
  - intros id. rewrite count_app, CA, Nat.add_0_r. apply H3.
  - intros l Hl%list_elem_of_In%in_rev%list_elem_of_In. rewrite count_app.
    rewrite C0, Nat.add_0_r; [apply H4, Hin; by right|].
    intros Hgone. apply (Hdisj (l_id l)); [done|]. apply list_elem_of_fmap. by exists l.
  - intros id Hid Hno. rewrite count_app. destruct (decide (id ∈ map (@l_id R) gone)) as [Hgone|Hgone].
    + apply list_elem_of_fmap in Hgone as (l & -> & Hl). rewrite C1 by done.
      rewrite H4 by (apply Hin; by left). by destruct (l_closed l).
    + rewrite C0, Nat.add_0_r by done. apply H5; [done|].
      intros (l & -> & [Hl|Hl]%Hin)%list_elem_of_fmap; [apply Hgone, list_elem_of_fmap; by exists l|].
      apply Hno. apply list_elem_of_fmap. exists l. split; [done|].
      by apply list_elem_of_In, in_rev; rewrite rev_involutive; apply list_elem_of_In.
  - intros id Hid. rewrite count_app, H6 by done. apply C0.
    intros (l & -> & Hl)%list_elem_of_fmap. specialize (H2 l (proj2 (Hin l) (or_introl Hl))). lia.
Qed.

(** Replacing the lease [l] at [i] by one with the same identity. *)
Lemma elem_of_replaced (ls : list (Lease R)) i l l' y :
  NoDup (map (@l_id R) ls) -> ls !! i = Some l -> y ∈ <[i := l']> ls ->
  y = l' \/ (y ∈ ls /\ l_id y <> l_id l).
Proof.
  intros Hnd Hi (j & Hj)%list_elem_of_lookup. destruct (decide (j = i)) as [->|N].
  - left. rewrite list_lookup_insert_eq in Hj by (by eapply lookup_lt_Some). congruence.
  - right. rewrite list_lookup_insert_ne in Hj by done. split; [by eapply list_elem_of_lookup_2|].
    intros Heq. apply N. eapply NoDup_lookup; [exact Hnd| |].
    + rewrite list_lookup_fmap, Hj. done.
    + rewrite list_lookup_fmap, Hi. cbn. by rewrite Heq.
Qed.

Lemma CloseOne_PlanInv id p w : PlanInv p -> PlanInv (CloseOne release id p w).1.1.
Proof.
  intros Hinv. pose proof Hinv as [H1 H2 H3 H4 H5 H6]. unfold CloseOne.
  destruct (list_find _ (p_leases p)) as [[i l]|] eqn:Hf; [|done].
  apply list_find_Some in Hf as (Hi & Hid & _). pose proof (list_elem_of_lookup_2 _ _ _ Hi) as Hl.
  unfold LeaseClose. destruct (l_closed l) eqn:Hc.
  { cbn. rewrite list_insert_id, app_nil_r by done. by destruct p. }
  destruct (release (l_resource l) w) as [w' [e|]]; cbn.
  - rewrite list_insert_id by done. constructor; [exact H1|exact H2|..]; intros; cbn;
      rewrite count_app, count_one; cbn; rewrite Nat.add_0_r; by auto.
  - set (l' := mkLease (l_id l) (l_name l) (l_resource l) true).
    assert (map (@l_id R) (<[i := l']> (p_leases p)) = map l_id (p_leases p)) as Hids.
    { change (map (@l_id R)) with (fmap (M := list) (@l_id R)). rewrite list_fmap_insert. cbn.
      apply list_insert_id. by rewrite list_lookup_fmap, Hi. }
    constructor; cbn.
    + by rewrite Hids.
    + intros y [->|[Hy _]]%(elem_of_replaced _ i l l' y H1 Hi); [|by apply H2]. cbn. by apply H2.
    + intros id'. rewrite count_app, count_one, H3. cbn. lia.
    + intros y [->|[Hy N]]%(elem_of_replaced _ i l l' y H1 Hi); rewrite count_app, count_one; cbn.
      * rewrite (H4 l Hl), Hc. by rewrite bool_decide_eq_true_2.
      * rewrite bool_decide_eq_false_2 by congruence. rewrite Nat.add_0_r. by apply H4.
    + intros id' Hlt Hno. rewrite Hids in Hno. rewrite count_app, count_one. cbn.
      rewrite bool_decide_eq_false_2, Nat.add_0_r; [by apply H5|].
      intros Heq. apply Hno. apply list_elem_of_fmap. by exists l.
    + intros id' Hge. rewrite count_app, count_one, H6 by done. cbn.
      rewrite bool_decide_eq_false_2; [done|]. specialize (H2 l Hl). lia.
Qed.

Lemma plan_run_PlanInv evs s : PlanInv s.1 -> PlanInv (plan_run apply release evs s).1.
Proof.
  revert s. induction evs as [|ev evs IH]; intros s Hinv; [done|]. cbn. apply IH.
  destruct ev; cbn; [by apply Acquire_PlanInv|by apply CloseOne_PlanInv|by apply PlanClose_PlanInv].
Qed.
End plan.

(** C21: Over any history of acquiring resources, closing single leases and
    closing the plan, whatever the system answers: a resource is released at
    most once and only after it was applied; one pass of [Close] releases the
    leases still open from the last to the first and stops at the first
    failure, which stays owned; when it succeeds everything that was ever
    applied has been released; and a closed plan applies nothing. *)
Theorem plan_releases_everything_once {R W : Type} (apply release : R -> W -> W * option gerr)
    (sessionID : string) (evs : list (planEvent (R := R))) (w0 : W) :
  let '(p, w) := plan_run apply release evs (NewPlan sessionID, w0) in
  (forall id, count (isReleased id) (p_trace p) <= count (isApplied id) (p_trace p) <= 1) /\
  (let '(p', w', err) := PlanClose release p w in
    exists gone kept failed, rev (p_leases p) = gone ++ kept /\ p_leases p' = rev kept /\
      p_trace p' = p_trace p ++ map released_call (opens gone) ++ failed /\
      match err with
      | None => kept = [] /\ failed = [] /\
          forall id, count (isReleased id) (p_trace p') = count (isApplied id) (p_trace p')
      | Some _ => exists l rest e, kept = l :: rest /\ l_closed l = false /\
          failed = [ReleaseCalled (l_id l) (l_resource l) (Some e)]
      end /\
      forall name r, exists e, Acquire apply name r p' w' = (p', w', Err e)).
Proof.
  pose proof (plan_run_PlanInv apply release evs (NewPlan sessionID, w0) (PlanInv_new sessionID)) as Hinv.
  destruct (plan_run apply release evs (NewPlan sessionID, w0)) as [p w]. cbn in Hinv. split.
  { intros id. destruct Hinv as [H1 H2 H3 H4 H5 H6]. rewrite H3. case_bool_decide as Hid; [|rewrite H6; lia].
    destruct (decide (id ∈ map l_id (p_leases p))) as [Hin|Hno]; [|rewrite H5 by done; lia].
    apply list_elem_of_fmap in Hin as (l & -> & Hl). rewrite H4 by done. destruct (l_closed l); lia. }
  pose proof (PlanClose_PlanInv release p w Hinv) as Hinv'. revert Hinv'. unfold PlanClose.
  destruct (closeLeases release (rev (p_leases p)) w) as [[[kept w'] calls] err] eqn:E. cbn. intros Hinv'.
  destruct (closeLeases_spec _ _ _ _ _ _ _ E) as (gone & Hls & H). exists gone, kept.
  destruct err as [err|].
  - destruct H as (l & rest & e & -> & Hc & ->).
    exists [ReleaseCalled (l_id l) (l_resource l) (Some e)]. split_and!; try done; [by exists l, rest, e|].
    intros. by eexists.
  - destruct H as [-> ->]. exists []. rewrite !app_nil_r in *. split_and!; try done; [|intros; by eexists].
    destruct Hinv' as [_ _ H3 _ H5 H6]. cbn in *. intros id. rewrite H3. case_bool_decide as Hid.
    + apply H5; [done|apply not_elem_of_nil].
    + apply H6. lia.
Qed.

(** ** Ownership *)

(** What [netlink.NewRule] returns, as documented: no selector is set. *)
Definition blankRule : Rule :=
  mkRule (-1) 0 0 0 None 0 0 (-1) false false (-1) "" "" (-1) (-1) false false false 0 false 0 0.

Section linux.
Context {K : Type} `{Netlink K}.
Local Open Scope Z_scope.

(** Decide the integer tests of the goal. *)
Local Ltac z_tests :=
  repeat match goal with
    | |- context [(?a =? ?b)%Z] => destruct (Z.eqb_spec a b); [|try lia]; try lia; cbn
    | |- context [(?a <? ?b)%Z] => destruct (Z.ltb_spec a b); try lia; cbn
    end; done.

(** One of the three rules of the table, with its mark: the fields spelled out,
    up to the spelling of a full mark mask. *)
Definition own_rule (tableID priority : Z) (rule : Rule) : Prop :=
  (ru_Mask rule = None \/ ru_Mask rule = Some max_uint32) /\
  exists offset table mark action,
    (offset, table, mark, action) ∈
      [(0, RT_TABLE_MAIN, tableID, FR_ACT_TO_TBL); (1, 0, tableID, FR_ACT_UNREACHABLE);
       (2, tableID, 0, FR_ACT_TO_TBL)] /\
    rule = mkRule (priority + offset) (ru_Family rule) table mark (ru_Mask rule) 0 0 (-1) false false
             (-1) "" "" (-1) (-1) false false false 0 false linuxOwnedRouteProtocol action.

(** The destination of a default route of a family; none at all is one too. *)
Definition default_dst (family : Z) (dst : option IPNet) : Prop :=
  dst = None \/ exists net, dst = Some net /\
    (family = FAMILY_V4 /\ maskSize (in_Mask net) = (0, 32)%nat /\ is_Some (To4 (in_IP net)) \/
     family = FAMILY_V6 /\ maskSize (in_Mask net) = (0, 128)%nat /\
       To4 (in_IP net) = None /\ is_Some (To16 (in_IP net))).

(** A route the network operation may have left. *)
Record own_route (tableID family : Z) (route : Route) : Prop := mkOwnRoute {
  or_table : ro_Table route = tableID;
  or_protocol : ro_Protocol route = linuxOwnedRouteProtocol;
  or_type : ro_Type route = RTN_UNICAST;
  or_gateway : ro_Gw route = None;
  or_dst : default_dst family (ro_Dst route);
  or_link : 0 < ro_LinkIndex route
}.

Lemma full_mask_iff rule :
  linuxSessionRuleHasFullMarkMask rule = true <-> ru_Mask rule = None \/ ru_Mask rule = Some max_uint32.
Proof.
  unfold linuxSessionRuleHasFullMarkMask. destruct (ru_Mask rule) as [mask|]; [|split; [by left|done]].
  rewrite Z.eqb_eq. split; [intros ->; by right|by intros [?|[= ->]]].
Qed.

(** The recovery takes a rule for its own exactly when it is one of the three. *)
Lemma owns_rule_iff rule priority tableID :
  linuxOwnsNetworkRule rule priority tableID tableID = true <-> own_rule tableID priority rule.
Proof.
  unfold own_rule. rewrite <- full_mask_iff. unfold linuxOwnsNetworkRule.
  destruct rule as [pri fam tab mk msk tos tun gt src dst fl iif oif sg sp inv dp sp' ipp uid proto ty].
  unfold linuxSessionRuleHasNoAddressSelectors, linuxSessionRuleHasNoFlowSelectors,
    linuxSessionRuleHasNoTransportSelectors, linuxSessionRuleHasFullMarkMask. cbn.
  set (full := match msk with None => true | Some mask => mask =? max_uint32 end).
  split.
  - intros Ho. destruct (negb (proto =? _) || _ || _) eqn:E1; [done|].
    destruct (negb _ || negb _ || negb _ || negb full) eqn:E2; [done|].
    split_bools. repeat match goal with Hs : String.eqb _ _ = true |- _ => apply String.eqb_eq in Hs end. subst.
    assert (full = true) as Hfull by done. split; [done|].
    destruct (Z.eqb_spec pri priority) as [->|N0].
    { split_bools. subst. exists 0, RT_TABLE_MAIN, tableID, FR_ACT_TO_TBL.
      split; [set_solver|]. by rewrite Z.add_0_r. }
    destruct (Z.eqb_spec pri (priority + 1)) as [->|N1].
    { split_bools. subst. exists 1, 0, tableID, FR_ACT_UNREACHABLE. split; [set_solver|done]. }
    destruct (Z.eqb_spec pri (priority + 2)) as [->|N2]; [|done].
    split_bools. subst. exists 2, tableID, 0, FR_ACT_TO_TBL. split; [set_solver|done].
  - intros [Hfull (offset & table & mark & action & Hin & Heq)].
    injection Heq; clear Heq; intros; subst. rewrite Hfull.
    repeat (apply elem_of_cons in Hin as [[= -> -> -> ->]|Hin]); [z_tests..|].
    by apply elem_of_nil in Hin.
Qed.

Lemma default_dst_iff route family :
  family ∈ [FAMILY_V4; FAMILY_V6] ->
  linuxRouteIsDefault route family = true <-> default_dst family (ro_Dst route).
Proof.
  intros Hf. unfold linuxRouteIsDefault, default_dst.
  destruct (ro_Dst route) as [net|]; [|split; [by left|done]].
  destruct (maskSize (in_Mask net)) as [ones bits] eqn:Hm. split.
  - destruct (Nat.eqb_spec ones 0) as [->|]; cbn [negb]; [|done]. intros Hd. right. exists net. split; [done|].
    apply elem_of_cons in Hf as [->|Hf]; [|apply list_elem_of_singleton in Hf as ->];
      cbn in Hd; rewrite !andb_true_iff, Nat.eqb_eq in Hd.
    + destruct Hd as [-> Hd]. left. split_and!; [done..|]. by destruct (To4 (in_IP net)).
    + destruct Hd as [[-> Hd] Hd']. right.
      split_and!; [done..|by destruct (To4 (in_IP net))|by destruct (To16 (in_IP net))].
  - intros [?|(net' & [= <-] & [(-> & Hm' & [? E])|(-> & Hm' & E & [? E'])])]; [done| |];
      rewrite Hm in Hm'; injection Hm' as -> ->; cbn; by rewrite E, ?E'.
Qed.

(** The recovery takes a route for its own exactly when it has these fields. *)
Lemma owns_route_iff route family tableID :
  family ∈ [FAMILY_V4; FAMILY_V6] ->
  ownedRouteShape route family tableID = true <-> own_route tableID family route.
Proof.
  intros Hf. unfold ownedRouteShape. rewrite !andb_true_iff, !Z.eqb_eq, Z.ltb_lt, default_dst_iff by done.
  split.
  - intros [[[[[? ?] ?] Hg] ?] ?]. constructor; try done. by destruct (ro_Gw route).
  - intros [? ? ? -> ? ?]. done.
Qed.

(** ** What recovery deletes *)

(** Every entry of a record is accounted for by the entries before it. *)
Fixpoint supported (P : list change -> change -> Prop) (seen cs : list change) : Prop :=
  match cs with
  | [] => True
  | c :: cs => P seen c /\ supported P (seen ++ [c]) cs
  end.

Lemma supported_app P seen cs cs' :
  supported P seen (cs ++ cs') <-> supported P seen cs /\ supported P (seen ++ cs) cs'.
Proof.
  revert seen. induction cs as [|c cs IH]; intros seen; cbn; [rewrite app_nil_r; tauto|].
  rewrite IH, <- app_assoc. cbn. tauto.
Qed.

Lemma supported_before P cs before c after :
  supported P [] cs -> cs = before ++ c :: after -> P before c.
Proof. intros Hs ->. apply supported_app in Hs as [_ Hs]. by destruct Hs. Qed.

(** A deletion of the routing recovery: a rule or route that was listed, with
    the program's own fields, the route on a link of the program's own name. *)
Definition own_change (tableID priority : Z) (tunName : string) (before : list change) (c : change) : Prop :=
  match c with
  | RuleDeleted rule _ =>
      own_rule tableID priority rule /\
      exists family rules, RulesRead family rules ∈ before /\ rule ∈ rules
  | RouteDeleted route _ =>
      exists family routes, RoutesRead family routes ∈ before /\ route ∈ routes /\
        own_route tableID family route /\ LinkRead (ro_LinkIndex route) tunName ∈ before
  | RouteReplaced _ _ => False
  | RulesRead _ _ | RoutesRead _ _ | LinkRead _ _ => True
  end.

(** A deletion that happened, or found nothing to delete. *)
Definition gone_now (err : option kerr) : Prop :=
  match err with None => True | Some e => ke_gone e = true end.

Lemma deleteFailed_gone err : deleteFailed err = false -> gone_now err.
Proof. destruct err as [e|]; [|done]. cbn. by destruct (ke_gone e). Qed.

Lemma deleteOwnedRules_supported family all rules priority tableID tunName k k' changes err seen :
  deleteOwnedRules rules priority tableID tableID k = (k', changes, err) ->
  RulesRead family all ∈ seen -> rules ⊆ all ->
  supported (own_change tableID priority tunName) seen changes.
Proof.
  revert k k' changes err seen. induction rules as [|rule rules IH]; intros k k' changes err seen; cbn.
  { by intros [= <- <- <-]. }
  destruct (linuxOwnsNetworkRule rule priority tableID tableID) eqn:Ho; cbn [negb].
  2:{ intros E Hseen Hsub. eapply IH; [exact E|done|set_solver]. }
  apply owns_rule_iff in Ho. destruct (linuxRuleOperation _ _ _ _ _) as [k1 e1]. destruct (deleteFailed e1).
  - intros [= <- <- <-] Hseen Hsub. split; [|done]. split; [done|]. exists family, all. set_solver.
  - destruct (deleteOwnedRules rules priority tableID tableID k1) as [[k2 changes2] err2] eqn:E.
    intros [= <- <- <-] Hseen Hsub. split; [split; [done|]; exists family, all; set_solver|].
    eapply IH; [exact E|set_solver|set_solver].
Qed.

Lemma deleteOwnedRules_found rules priority tableID k k' changes :
  deleteOwnedRules rules priority tableID tableID k = (k', changes, None) ->
  forall rule, rule ∈ rules -> own_rule tableID priority rule ->
    exists e, RuleDeleted rule e ∈ changes /\ gone_now e.
Proof.
  revert k k' changes. induction rules as [|rule rules IH]; intros k k' changes; cbn.
  { intros _ rule Hin. by apply elem_of_nil in Hin. }
  intros E r Hr Hown. apply elem_of_cons in Hr. revert E.
  destruct (linuxOwnsNetworkRule rule priority tableID tableID) eqn:Ho; cbn [negb].
  2:{ intros E. destruct Hr as [->|Hr]; [|by eapply IH].
      apply owns_rule_iff in Hown. congruence. }
  destruct (linuxRuleOperation _ _ _ _ _) as [k1 e1]. destruct (deleteFailed e1) eqn:He.
  { destruct e1; [done|done]. }
  destruct (deleteOwnedRules rules priority tableID tableID k1) as [[k2 changes2] err2] eqn:E.
  intros [= <- <- ->]. destruct Hr as [->|Hr].
  - exists e1. split; [by left|by apply deleteFailed_gone].
  - destruct (IH _ _ _ E r Hr Hown) as (e & Hin & Hg). exists e. split; [by right|done].
Qed.

Lemma deleteOwnedRoutes_supported family all routes priority tableID tunName k k' changes err seen :
  family ∈ [FAMILY_V4; FAMILY_V6] ->
  deleteOwnedRoutes routes family tableID tunName k = (k', changes, err) ->
  RoutesRead family all ∈ seen -> routes ⊆ all ->
  supported (own_change tableID priority tunName) seen changes.
Proof.
  intros Hf. revert k k' changes err seen. induction routes as [|route routes IH]; intros k k' changes err seen; cbn.
  { by intros [= <- <- <-]. }
  destruct (ownedRouteShape route family tableID) eqn:Ho; cbn [negb].
  2:{ intros E Hseen Hsub. eapply IH; [exact E|done|set_solver]. }
  apply (owns_route_iff _ _ _ Hf) in Ho.
  destruct (linkByIndex (ro_LinkIndex route) k) as [k1 [link|e]]; [|by intros [= <- <- <-]].
  destruct (String.eqb_spec (lk_Name link) tunName) as [Hn|Hn]; cbn [negb].
  2:{ destruct (deleteOwnedRoutes routes family tableID tunName k1) as [[k2 changes2] err2] eqn:E.
      intros [= <- <- <-] Hseen Hsub. split; [done|]. eapply IH; [exact E|set_solver|set_solver]. }
  subst tunName. destruct (linuxRouteOperation _ _ _ _ _) as [k2 e2]. destruct (deleteFailed e2).
  - intros [= <- <- <-] Hseen Hsub. split; [done|]. split; [|done]. exists family, all. set_solver.
  - destruct (deleteOwnedRoutes routes family tableID (lk_Name link) k2) as [[k3 changes3] err3] eqn:E.
    intros [= <- <- <-] Hseen Hsub. split; [done|]. split; [exists family, all; set_solver|].
    eapply IH; [exact E|set_solver|set_solver].
Qed.

Lemma deleteOwnedRoutes_found routes family tableID tunName k k' changes :
  family ∈ [FAMILY_V4; FAMILY_V6] ->
  deleteOwnedRoutes routes family tableID tunName k = (k', changes, None) ->
  forall route, route ∈ routes -> own_route tableID family route ->
    (exists name, LinkRead (ro_LinkIndex route) name ∈ changes /\ name <> tunName) \/
    exists e, RouteDeleted route e ∈ changes /\ gone_now e.
Proof.
  intros Hf. revert k k' changes. induction routes as [|route routes IH]; intros k k' changes; cbn.
  { intros _ route Hin. by apply elem_of_nil in Hin. }
  intros E r Hr Hown. apply elem_of_cons in Hr. revert E.
  destruct (ownedRouteShape route family tableID) eqn:Ho; cbn [negb].
  2:{ intros E. destruct Hr as [->|Hr]; [|by eapply IH].
      apply (owns_route_iff _ _ _ Hf) in Hown. congruence. }
  destruct (linkByIndex (ro_LinkIndex route) k) as [k1 [link|e]]; [|done].
  destruct (String.eqb_spec (lk_Name link) tunName) as [Hn|Hn]; cbn [negb].
  2:{ destruct (deleteOwnedRoutes routes family tableID tunName k1) as [[k2 changes2] err2] eqn:E.
      intros [= <- <- ->]. destruct Hr as [->|Hr]; [left; exists (lk_Name link); split; [by left|done]|].
      destruct (IH _ _ _ E r Hr Hown) as [(name & ? & ?)|(e & ? & ?)];
        [left; exists name|right; exists e]; (split; [by right|done]). }
  destruct (linuxRouteOperation _ _ _ _ _) as [k2 e2]. destruct (deleteFailed e2) eqn:He.
  { destruct e2; [done|done]. }
  destruct (deleteOwnedRoutes routes family tableID tunName k2) as [[k3 changes3] err3] eqn:E.
  intros [= <- <- ->]. destruct Hr as [->|Hr].
  - right. exists e2. split; [right; by left|by apply deleteFailed_gone].
  - destruct (IH _ _ _ E r Hr Hown) as [(name & ? & ?)|(e & ? & ?)];
      [left; exists name|right; exists e]; (split; [by right; right|done]).
Qed.

(** What the recovery read of a family, and that it dealt with all of it that
    is its own: a rule was deleted, a route too unless its link was read to
    have another name. *)
Definition found_all (tableID priority : Z) (tunName : string) (changes : list change) (family : Z) : Prop :=
  (exists rules, RulesRead family rules ∈ changes /\
    forall rule, rule ∈ rules -> own_rule tableID priority rule ->
      exists e, RuleDeleted rule e ∈ changes /\ gone_now e) /\
  (exists routes, RoutesRead family routes ∈ changes /\
    forall route, route ∈ routes -> own_route tableID family route ->
      (exists name, LinkRead (ro_LinkIndex route) name ∈ changes /\ name <> tunName) \/
      exists e, RouteDeleted route e ∈ changes /\ gone_now e).

Lemma found_all_mono tableID priority tunName changes changes' family :
  changes ⊆ changes' -> found_all tableID priority tunName changes family ->
  found_all tableID priority tunName changes' family.
Proof.
  intros Hs [(rules & E & Hr) (routes & E' & Hr')]. split.
  - exists rules. split; [auto|]. intros rule H1 H2. destruct (Hr rule H1 H2) as (e & ? & ?). exists e. auto.
  - exists routes. split; [auto|]. intros route H1 H2.
    destruct (Hr' route H1 H2) as [(name & ? & ?)|(e & ? & ?)]; [left; exists name|right; exists e]; auto.
Qed.

Lemma recoverFamily_spec family tableID priority tunName k k' changes err seen :
  family ∈ [FAMILY_V4; FAMILY_V6] ->
  recoverLinuxNetworkFamily family tableID priority tableID tunName k = (k', changes, err) ->
  supported (own_change tableID priority tunName) seen changes /\
  (err = None -> found_all tableID priority tunName changes family).
Proof.
  intros Hf.
  unfold recoverLinuxNetworkFamily, recoverLinuxNetworkFamilyRules, recoverLinuxNetworkFamilyRoutes.
  destruct (linuxNetworkRules family priority k) as [k1 [rules|e]]; [|by intros [= <- <- <-]].
  destruct (deleteOwnedRules rules priority tableID tableID k1) as [[k2 cs] e] eqn:Ed.
  assert (forall seen, supported (own_change tableID priority tunName) seen (RulesRead family rules :: cs)) as Hrules.
  { intros seen'. split; [done|]. eapply (deleteOwnedRules_supported family rules); [exact Ed| |done].
    apply elem_of_app. right. by left. }
  destruct e as [e|]; [intros [= <- <- <-]; split; [apply Hrules|done]|].
  destruct (routeList family k2) as [k3 [routes|e]].
  2:{ intros [= <- <- <-]. rewrite app_nil_r. split; [apply Hrules|done]. }
  destruct (deleteOwnedRoutes routes family tableID tunName k3) as [[k4 cs'] e] eqn:Er.
  intros [= <- <- <-]. split.
  - apply (supported_app _ seen (RulesRead family rules :: cs)). split; [apply Hrules|]. split; [done|].
    eapply (deleteOwnedRoutes_supported family routes); [done|exact Er| |done].
    apply elem_of_app. right. by left.
  - intros ->. split.
    + exists rules. split; [by left|]. intros rule Hin Hown.
      destruct (deleteOwnedRules_found _ _ _ _ _ _ Ed rule Hin Hown) as (e & ? & ?). exists e. set_solver.
    + exists routes. split; [set_solver|]. intros route Hin Hown.
      destruct (deleteOwnedRoutes_found _ _ _ _ _ _ _ Hf Er route Hin Hown) as [(name & ? & ?)|(e & ? & ?)];
        [left; exists name|right; exists e]; set_solver.
Qed.

Lemma recoverFamilies_spec families tableID priority tunName k k' changes err seen :
  families ⊆ [FAMILY_V4; FAMILY_V6] ->
  recoverFamilies families tableID priority tableID tunName k = (k', changes, err) ->
  supported (own_change tableID priority tunName) seen changes /\
  (err = None -> Forall (found_all tableID priority tunName changes) families).
Proof.
  revert k k' changes err seen. induction families as [|family families IH];
    intros k k' changes err seen Hsub; cbn; [by intros [= <- <- <-]|].
  destruct (recoverLinuxNetworkFamily family tableID priority tableID tunName k) as [[k1 cs] e] eqn:E.
  assert (family ∈ [FAMILY_V4; FAMILY_V6]) as Hf by (apply Hsub; by left).
  destruct (recoverFamily_spec _ _ _ _ _ _ _ _ seen Hf E) as [F C].
  destruct e as [e|]; [by intros [= <- <- <-]|].
  destruct (recoverFamilies families tableID priority tableID tunName k1) as [[k2 cs'] e] eqn:E'.
  destruct (IH k1 k2 cs' e (seen ++ cs)) as [F' C']; [set_solver|done|]. intros [= <- <- <-]. split.
  - by apply supported_app.
  - intros ->. apply Forall_cons. split.
    + eapply found_all_mono; [|by apply C]. set_solver.
    + eapply Forall_impl; [by apply C'|]. intros f. apply found_all_mono. set_solver.
Qed.

(** ** What acquisition installs *)

Definition familyResources (tableID priority index mark family : Z) : list resource :=
  NetRoute (networkRoute family tableID index) ::
  map (fun offset => NetRule (networkRule family tableID priority mark offset)) [0; 1; 2].

(** [p'] has applied a prefix of [rs] more than [p], all of it on success. *)
Definition appliedPrefix (rs : list resource) (p p' : Plan resource) (err : option gerr) : Prop :=
  exists applied rest, rs = applied ++ rest /\
    acquiredRs (p_trace p') = acquiredRs (p_trace p) ++ applied /\ (err = None -> rest = []).

Lemma appliedPrefix_none rs p e : appliedPrefix rs p p (Some e).
Proof. exists [], rs. by rewrite app_nil_r. Qed.

Lemma appliedPrefix_cons r rs p p1 p' err :
  acquiredRs (p_trace p1) = acquiredRs (p_trace p) ++ [r] -> appliedPrefix rs p1 p' err ->
  appliedPrefix (r :: rs) p p' err.
Proof.
  intros E (applied & rest & -> & E' & Hn). exists (r :: applied), rest.
  split; [done|]. split; [|done]. by rewrite E', E, <- app_assoc.
Qed.

Lemma appliedPrefix_app rs rs' p p1 p' err :
  appliedPrefix rs p p1 None -> appliedPrefix rs' p1 p' err -> appliedPrefix (rs ++ rs') p p' err.
Proof.
  intros (a & rest & -> & E & Hn) (a' & rest' & -> & E' & Hn'). rewrite Hn, app_nil_r by done.
  exists (a ++ a'), rest'. split; [by rewrite app_assoc|]. split; [|done]. by rewrite E', E, <- app_assoc.
Qed.

Lemma appliedPrefix_stop rs rs' p p' e : appliedPrefix rs p p' (Some e) -> appliedPrefix (rs ++ rs') p p' (Some e).
Proof. intros (a & rest & -> & E & _). exists a, (rest ++ rs'). by rewrite app_assoc. Qed.

Lemma Acquire_applied name r (p : Plan resource) (k : K) p' k' res :
  Acquire applyResource name r p k = (p', k', res) ->
  match res with
  | Ok _ => acquiredRs (p_trace p') = acquiredRs (p_trace p) ++ [r]
  | Err _ => acquiredRs (p_trace p') = acquiredRs (p_trace p)
  end.
Proof.
  unfold Acquire. destruct (p_closed p); [by intros [= <- <- <-]|].
  destruct (applyResource r k) as [k1 [e|]]; intros [= <- <- <-]; cbn; unfold acquiredRs;
    rewrite omap_app; cbn; [by rewrite app_nil_r|done].
Qed.

Lemma acquireRules_applied family tableID priority mark offsets (p : Plan resource) (k : K) p' k' err :
  acquireRules family tableID priority mark offsets p k = (p', k', err) ->
  appliedPrefix (map (fun offset => NetRule (networkRule family tableID priority mark offset)) offsets) p p' err.
Proof.
  revert p k. induction offsets as [|offset offsets IH]; intros p k; cbn.
  { intros [= <- <- <-]. exists [], []. split_and!; [done|by rewrite app_nil_r|done]. }
  destruct (Acquire applyResource _ _ p k) as [[p1 k1] res] eqn:E. pose proof (Acquire_applied _ _ _ _ _ _ _ E) as Ha.
  destruct res as [l|e].
  - intros E'. eapply appliedPrefix_cons; [exact Ha|by eapply IH].
  - intros [= <- <- <-]. exists [], (NetRule (networkRule family tableID priority mark offset) ::
      map (fun offset => NetRule (networkRule family tableID priority mark offset)) offsets).
    by rewrite app_nil_r.
Qed.

Lemma acquireFamily_applied tableID priority index mark family (p : Plan resource) (k : K) p' k' err :
  acquireLinuxNetworkFamily tableID priority index mark family p k = (p', k', err) ->
  appliedPrefix (familyResources tableID priority index mark family) p p' err.
Proof.
  unfold acquireLinuxNetworkFamily, familyResources.
  destruct (routeList family k) as [k1 [routes|e]]; [|intros [= <- <- <-]; apply appliedPrefix_none].
  destruct (existsb _ routes); [intros [= <- <- <-]; apply appliedPrefix_none|].
  destruct (ruleList family k1) as [k2 [rules|e]]; [|intros [= <- <- <-]; apply appliedPrefix_none].
  destruct (List.find _ rules); [intros [= <- <- <-]; apply appliedPrefix_none|].
  unfold acquireLinuxNetworkRoute.
  destruct (Acquire applyResource _ _ p k2) as [[p1 k3] res] eqn:E. pose proof (Acquire_applied _ _ _ _ _ _ _ E) as Ha.
  destruct res as [l|e].
  - intros E'. eapply appliedPrefix_cons; [exact Ha|by eapply acquireRules_applied].
  - intros [= <- <- <-]. exists []. eexists. split; [reflexivity|]. split; [by rewrite app_nil_r|done].
Qed.

Lemma acquireFamilies_applied families tableID priority index mark (p : Plan resource) (k : K) p' k' err :
  acquireFamilies families tableID priority index mark p k = (p', k', err) ->
  appliedPrefix (flat_map (familyResources tableID priority index mark) families) p p' err.
Proof.
  revert p k. induction families as [|family families IH]; intros p k; cbn [acquireFamilies flat_map].
  { intros [= <- <- <-]. exists [], []. split_and!; [done|by rewrite app_nil_r|done]. }
  destruct (acquireLinuxNetworkFamily tableID priority index mark family p k) as [[p1 k1] e] eqn:E.
  pose proof (acquireFamily_applied _ _ _ _ _ _ _ _ _ _ E) as Ha. destruct e as [e|].
  - intros [= <- <- <-]. by apply appliedPrefix_stop.
  - intros E'. eapply appliedPrefix_app; [exact Ha|by eapply IH].
Qed.

(** What an acquisition installs for a family, with its fields. *)
Definition own_resources (tableID priority index family : Z) : list resource :=
  [NetRoute (mkRoute (linuxDefaultIPNet family) None index linuxOwnedRouteProtocol 0 family tableID
               RTN_UNICAST SCOPE_LINK 0)] ++
  map (fun '(offset, table, mark, action) =>
    NetRule (mkRule (priority + offset) family table mark None 0 0 (-1) false false (-1) "" "" (-1) (-1)
               false false false 0 false linuxOwnedRouteProtocol action))
    [(0, RT_TABLE_MAIN, tableID, FR_ACT_TO_TBL); (1, 0, tableID, FR_ACT_UNREACHABLE);
     (2, tableID, 0, FR_ACT_TO_TBL)].

Lemma familyResources_own (Hnew : newRule = blankRule) tableID priority index family :
  familyResources tableID priority index tableID family = own_resources tableID priority index family.
Proof. unfold familyResources, own_resources, networkRule, networkRoute. by rewrite Hnew. Qed.

(** What the recovery makes of a resource. *)
Definition recognised (tableID priority : Z) (r : resource) : Prop :=
  match r with
  | NetRule rule => own_rule tableID priority rule
  | NetRoute route => exists family, family ∈ [FAMILY_V4; FAMILY_V6] /\ own_route tableID family route
  end.

Lemma own_resources_recognised tableID priority index family :
  0 < index -> family ∈ [FAMILY_V4; FAMILY_V6] ->
  Forall (recognised tableID priority) (own_resources tableID priority index family).
Proof.
  intros Hi Hf. apply Forall_cons. split.
  - exists family. split; [done|]. constructor; try done. right.
    assert (family = FAMILY_V4 \/ family = FAMILY_V6) as [-> | ->] by set_solver; (eexists; split; [done|]).
    + left. split_and!; [done|by vm_compute|by vm_compute; eexists].
    + right. split_and!; [done|by vm_compute|by vm_compute|by vm_compute; eexists].
  - apply Forall_forall. intros r ([[[offset table] mark] action] & -> & Hin)%list_elem_of_fmap.
    split; [by left|]. by exists offset, table, mark, action.
Qed.

(** ** What older versions left *)

(** The default route through a gateway that the old versions kept in their own
    table for the marked sockets. *)
Definition marked_gateway (tableID : Z) (r : Route) : Prop :=
  ro_Table r = tableID /\ ro_Family r = FAMILY_V4 /\ ro_Protocol r = linuxOwnedRouteProtocol /\
  default_dst FAMILY_V4 (ro_Dst r) /\ ro_Type r = RTN_UNICAST /\
  (exists gw, ro_Gw r = Some gw /\ is_Some (To4 gw)) /\ 0 < ro_LinkIndex r /\ ro_MultiPath r = 0%nat.

(** The routes the old versions installed, by their fields: the route to the
    proxy, the default route into the tunnel, the marked gateway and its
    terminal route, and the IPv6 block. *)
Inductive legacy_route (tableID : Z) (r : Route) : Prop :=
| legacy_proxy dst :
    ro_Table r = RT_TABLE_MAIN -> ro_Family r = FAMILY_V4 -> ro_Protocol r = linuxOwnedRouteProtocol ->
    ro_Priority r = linuxOwnedProxyMetric -> ro_Type r = RTN_UNICAST ->
    (exists gw, ro_Gw r = Some gw /\ is_Some (To4 gw)) -> 0 < ro_LinkIndex r -> ro_MultiPath r = 0%nat ->
    ro_Dst r = Some dst -> maskSize (in_Mask dst) = (32, 32)%nat -> is_Some (To4 (in_IP dst)) ->
    legacy_route tableID r
| legacy_tunnel :
    ro_Table r = RT_TABLE_MAIN -> ro_Family r = FAMILY_V4 -> ro_Protocol r = linuxOwnedRouteProtocol ->
    default_dst FAMILY_V4 (ro_Dst r) -> ro_Type r = RTN_UNICAST -> 0 < ro_LinkIndex r ->
    legacy_route tableID r
| legacy_gateway : marked_gateway tableID r -> legacy_route tableID r
| legacy_terminal :
    ro_Table r = tableID -> ro_Family r = FAMILY_V4 -> ro_Protocol r = linuxOwnedRouteProtocol ->
    default_dst FAMILY_V4 (ro_Dst r) -> ro_Type r = RTN_UNREACHABLE -> ro_Priority r = 1 ->
    ro_Gw r = None -> ro_LinkIndex r = 0 -> legacy_route tableID r
| legacy_block dst :
    ro_Table r = RT_TABLE_MAIN -> ro_Family r = FAMILY_V6 -> ro_Protocol r = linuxOwnedRouteProtocol ->
    ro_Type r = RTN_BLACKHOLE -> ro_Priority r = 1 -> ro_Dst r = Some dst ->
    in_Mask dst = CIDRMask 1 128 -> in_IP dst ∈ [replicate 16 0; 128 :: replicate 15 0] ->
    legacy_route tableID r.

(** The rule of the old versions: the session's table and mark, no selector. *)
Definition legacy_rule (tableID priority : Z) (rule : Rule) : Prop :=
  0 < tableID <= max_uint32 /\ (ru_Mask rule = None \/ ru_Mask rule = Some max_uint32) /\
  rule = mkRule priority FAMILY_V4 tableID tableID (ru_Mask rule) 0 0 (-1) false false (-1) "" "" (-1) (-1)
           false false false 0 false 0 0.

(** A listed route as it is deleted: a default route without a destination gets
    the spelled out one. *)
Definition deleted_as (old route : Route) : Prop :=
  route = old \/
  (ro_Dst old = None /\
   route = old <| ro_Dst := Some (mkIPNet (replicate 4 0) (CIDRMask 0 32)) |>).

(** The default route that a marked gateway remembers. *)
Definition remembered (old route : Route) : Prop :=
  exists gw gw4, ro_Gw old = Some gw /\ To4 gw = Some gw4 /\
    route = mkRoute (Some (mkIPNet (replicate 4 0) (CIDRMask 0 32))) (Some gw4) (ro_LinkIndex old)
              RTPROT_BOOT 0 FAMILY_V4 RT_TABLE_MAIN RTN_UNICAST SCOPE_UNIVERSE 0.

(** A change of [RecoverLinuxOwnedRoutes]: of something that was listed and is
    the old versions' own. *)
Definition legacy_change (tableID priority : Z) (before : list change) (c : change) : Prop :=
  match c with
  | RouteDeleted route _ =>
      exists family routes old, RoutesRead family routes ∈ before /\ old ∈ routes /\
        legacy_route tableID old /\ deleted_as old route
  | RuleDeleted rule _ =>
      legacy_rule tableID priority rule /\
      exists family rules, RulesRead family rules ∈ before /\ rule ∈ rules
  | RouteReplaced route _ =>
      exists family routes old, RoutesRead family routes ∈ before /\ old ∈ routes /\
        marked_gateway tableID old /\ remembered old route
  | RulesRead _ _ | RoutesRead _ _ | LinkRead _ _ => True
  end.

Lemma legacy_rule_of rule tableID priority :
  linuxSessionRuleMatches rule tableID priority = true -> legacy_rule tableID priority rule.
Proof.
  unfold linuxSessionRuleMatches, linuxSessionTableMark, legacy_rule. rewrite <- full_mask_iff.
  destruct (_ || _) eqn:E; [done|]. apply orb_false_iff in E as [E1 E2].
  unfold linuxSessionRuleHasNoAddressSelectors, linuxSessionRuleHasNoFlowSelectors,
    linuxSessionRuleHasNoTransportSelectors. intros Hm. rewrite !andb_true_iff in Hm.
  destruct rule as [pri fam tab mk msk tos tun gt src dst fl iif oif sg sp inv dp sp' ipp uid proto ty].
  cbn in *. destruct Hm as [[Hm1 Hm2] Hfull]. split; [lia|]. split; [done|]. clear Hfull.
  destruct_and!. repeat match goal with
    | Hb : negb _ = true |- _ => apply negb_true_iff in Hb
    | Hb : String.eqb _ _ = true |- _ => apply String.eqb_eq in Hb
    | Hb : (_ =? _) = true |- _ => apply Z.eqb_eq in Hb
    end. by subst.
Qed.

Lemma gateway_of route tableID :
  linuxOwnedMarkedGatewayRoute route tableID = true -> marked_gateway tableID route.
Proof.
  unfold linuxOwnedMarkedGatewayRoute, marked_gateway.
  rewrite !andb_true_iff, !Z.eqb_eq, Z.ltb_lt, Nat.eqb_eq, default_dst_iff by set_solver.
  intros Hall. destruct (ro_Gw route) as [gw|]; destruct_and!; [|done].
  split_and!; try done. exists gw. split; [done|]. by destruct (To4 gw).
Qed.

Section collecting.
Context (tableID : Z) (listed : Route -> Prop).

Definition collected (x : linuxRecoveryRoutes) : Prop :=
  Forall (fun route => exists old, listed old /\ legacy_route tableID old /\ deleted_as old route)
    (rr_deletes x) /\
  (forall route, rr_restoreDefault x = Some route ->
    exists old, listed old /\ marked_gateway tableID old /\ remembered old route).

Lemma collected_empty : collected (mkRecoveryRoutes [] false None false).
Proof. split; [constructor|done]. Qed.

Lemma collected_delete old route x :
  collected x -> listed old -> legacy_route tableID old -> deleted_as old route ->
  collected (recovered_delete route x).
Proof.
  intros [C1 C2] Hl Ho Hd. split; cbn; [|done]. apply Forall_app. split; [done|].
  apply Forall_singleton. by exists old.
Qed.

Lemma forDelete_as route : deleted_as route (linuxRecoveryRouteForDelete route FAMILY_V4).
Proof.
  unfold linuxRecoveryRouteForDelete, deleted_as.
  destruct (ro_Dst route) eqn:Hd; [by left|]. destruct (linuxRouteIsDefault _ _); [by right|by left].
Qed.

Lemma collectRoute_collected tunName route (k : K) x :
  listed route -> collected x -> collected (collectRoute tableID tunName route (k, x)).2.
Proof.
  intros Hl C. unfold collectRoute. destruct (Z.eqb_spec (ro_Table route) RT_TABLE_MAIN) as [Hm|Hm].
  - destruct (linuxOwnedProxyRoute route) eqn:Hp.
    { apply (collected_delete route); [done|done| |by left]. unfold linuxOwnedProxyRoute in Hp.
      rewrite !andb_true_iff, !Z.eqb_eq, Z.ltb_lt, Nat.eqb_eq in Hp.
      destruct (ro_Gw route) as [gw|] eqn:Hgw; [|by destruct_and!].
      destruct (ro_Dst route) as [dst|] eqn:Hdst; [|by destruct_and!].
      destruct (maskSize (in_Mask dst)) as [ones bits] eqn:Hmask.
      rewrite !andb_true_iff, !Nat.eqb_eq in Hp. destruct_and!. subst ones bits.
      apply (legacy_proxy _ _ dst); try done.
      - exists gw. split; [done|]. by destruct (To4 gw).
      - by destruct (To4 (in_IP dst)). }
    unfold linuxOwnedTunnelRoute. destruct (negb _ || _ || _ || _ || _ || _ || _) eqn:Ht.
    { cbn. by destruct (linuxRouteIsDefault route FAMILY_V4). }
    assert (legacy_route tableID route) as Ho.
    { rewrite !orb_false_iff, !negb_false_iff, !Z.eqb_eq, Z.leb_gt, default_dst_iff in Ht by set_solver.
      destruct_and!. by apply legacy_tunnel. }
    destruct (linkByIndex _ k) as [k1 [link|e]]; cbv beta iota.
    + destruct (String.eqb (lk_Name link) tunName);
        [apply (collected_delete route); [done..|apply forDelete_as]|].
      by destruct (linuxRouteIsDefault route FAMILY_V4).
    + by destruct (linuxRouteIsDefault route FAMILY_V4).
  - destruct (Z.eqb_spec (ro_Table route) tableID) as [Ht|Ht]; cbn [negb]; [|done].
    destruct (linuxOwnedTerminalRoute route tableID) eqn:Hr.
    { apply (collected_delete route); [done|done| |apply forDelete_as]. unfold linuxOwnedTerminalRoute in Hr.
      rewrite !andb_true_iff, !Z.eqb_eq, default_dst_iff in Hr by set_solver.
      destruct_and!. apply legacy_terminal; try done. by destruct (ro_Gw route). }
    destruct (linuxOwnedMarkedGatewayRoute route tableID) eqn:Hg; cbn [negb]; [|done].
    apply gateway_of in Hg.
    assert (collected (recovered_delete (linuxRecoveryRouteForDelete route FAMILY_V4) x)) as [D1 D2].
    { apply (collected_delete route); [done|done|by apply legacy_gateway|apply forDelete_as]. }
    cbn. unfold recovered_restore. destruct (rr_restoreDefault _) eqn:E.
    + destruct (_ || _); (split; [exact D1|]); intros r0 Hr0; apply D2; by rewrite <- E.
    + split; [done|]. cbn. intros r [= <-]. exists route. split; [done|]. split; [done|].
      destruct Hg as (_ & _ & _ & _ & _ & (gw & Hgw & gw4 & Hgw4) & _).
      exists gw, gw4. split_and!; [done|done|]. unfold restoreCandidate. by rewrite Hgw, Hgw4.
Qed.

Lemma collect_collected ipv4 ipv6 tunName (k : K) :
  (forall r, r ∈ ipv4 ++ ipv6 -> listed r) ->
  collected (collectLinuxRecoveryRoutes ipv4 ipv6 tableID tunName k).2.
Proof.
  intros Hlisted. unfold collectLinuxRecoveryRoutes.
  assert (forall s : K * linuxRecoveryRoutes, collected s.2 ->
    collected (fold_left (fun s route => collectRoute tableID tunName route s) ipv4 s).2) as H4.
  { assert (forall r, r ∈ ipv4 -> listed r) as Hl by set_solver. clear Hlisted.
    induction ipv4 as [|route ipv4 IH]; intros [k0 x] C; [done|]. cbn [fold_left].
    apply IH; [set_solver|]. apply collectRoute_collected; [set_solver|done]. }
  specialize (H4 (k, mkRecoveryRoutes [] false None false) collected_empty).
  destruct (fold_left _ ipv4 _) as [k1 x]. cbn in *.
  assert (forall r, r ∈ ipv6 -> listed r) as Hl by set_solver. clear -H4 Hl.
  revert x H4. induction ipv6 as [|route ipv6 IH]; intros x C; [done|]. cbn.
  apply IH; [set_solver|]. destruct (linuxOwnedIPv6Route route) eqn:Hr; [|done].
  apply (collected_delete route); [done|set_solver| |by left]. unfold linuxOwnedIPv6Route, ipv6Half in Hr.
  rewrite !andb_true_iff, !Z.eqb_eq in Hr. destruct (ro_Dst route) as [dst|] eqn:Hdst; [|by destruct_and!].
  rewrite andb_true_iff, orb_true_iff, !bool_decide_eq_true in Hr. destruct_and!.
  apply (legacy_block _ _ dst); try done. set_solver.
Qed.
End collecting.

Lemma removeRules_supported tableID priority family all rules (k : K) seen :
  Forall (fun rule => linuxSessionRuleMatches rule tableID priority = true) rules ->
  rules ⊆ all -> RulesRead family all ∈ seen ->
  supported (legacy_change tableID priority) seen (removeRules rules k).1.2.
Proof.
  revert k seen. induction rules as [|rule rules IH]; intros k seen Hr Hsub Hseen; cbn; [done|].
  apply Forall_cons in Hr as [H1 H2]. destruct (linuxRuleOperation _ _ _ _ _) as [k1 e].
  specialize (IH k1 (seen ++ [RuleDeleted rule e]) H2 ltac:(set_solver) ltac:(set_solver)).
  destruct (removeRules rules k1) as [[k2 cs] es]. split; [|exact IH].
  split; [by apply legacy_rule_of|]. exists family, all. set_solver.
Qed.

Lemma removeRoutes_supported tableID priority (listed : Route -> Prop) routes (k : K) seen :
  (forall old, listed old -> exists family all, RoutesRead family all ∈ seen /\ old ∈ all) ->
  Forall (fun route => exists old, listed old /\ legacy_route tableID old /\ deleted_as old route) routes ->
  supported (legacy_change tableID priority) seen (removeRoutes routes k).1.2.
Proof.
  revert k seen. induction routes as [|route routes IH]; intros k seen Hseen Hr; cbn; [done|].
  apply Forall_cons in Hr as [(old & Hl & Ho & Hd) H2]. destruct (linuxRouteOperation _ _ _ _ _) as [k1 e].
  assert (forall old, listed old -> exists family all,
    RoutesRead family all ∈ seen ++ [RouteDeleted route e] /\ old ∈ all) as Hseen'.
  { intros o Hlo. destruct (Hseen o Hlo) as (family & all & ? & ?). exists family, all. set_solver. }
  specialize (IH k1 _ Hseen' H2). destruct (removeRoutes routes k1) as [[k2 cs] es]. split; [|exact IH].
  destruct (Hseen old Hl) as (family & all & ? & ?). by exists family, all, old.
Qed.

Lemma restoreDefault_supported tableID priority (listed : Route -> Prop) x (k : K) seen :
  (forall old, listed old -> exists family all, RoutesRead family all ∈ seen /\ old ∈ all) ->
  collected tableID listed x ->
  supported (legacy_change tableID priority) seen (restoreDefault x k).1.2.
Proof.
  intros Hseen [_ C]. unfold restoreDefault. destruct (rr_restoreDefaultAmbiguous x); [done|].
  destruct (rr_restoreDefault x) as [route|]; [|done]. destruct (rr_hasIndependentDefault x); [done|].
  destruct (linuxRouteOperation _ _ _ _ _) as [k1 e]. split; [|done].
  destruct (C route eq_refl) as (old & Hl & Hg & Hr). destruct (Hseen old Hl) as (family & all & ? & ?).
  by exists family, all, old.
Qed.

Lemma RecoverLinuxOwnedRoutes_supported tableID priority tunName (k : K) :
  supported (legacy_change tableID priority) [] (RecoverLinuxOwnedRoutes tableID priority tunName k).1.2.
Proof.
  unfold RecoverLinuxOwnedRoutes. destruct (routeList FAMILY_V4 k) as [k1 [ipv4|e]]; [|done].
  destruct (routeList FAMILY_V6 k1) as [k2 [ipv6|e]]; [|done].
  pose proof (collect_collected tableID (fun r => r ∈ ipv4 ++ ipv6) ipv4 ipv6 tunName k2 (fun _ Hr => Hr)) as C.
  destruct (collectLinuxRecoveryRoutes ipv4 ipv6 tableID tunName k2) as [k3 x]. cbn [snd] in C.
  destruct (ruleList FAMILY_V4 k3) as [k4 rules].
  set (owned := match rules with Ok rules => _ | Err _ => [] end).
  set (reads := [RoutesRead FAMILY_V4 ipv4; RoutesRead FAMILY_V6 ipv6] ++ _).
  assert (forall seen old, reads ⊆ seen -> old ∈ ipv4 ++ ipv6 ->
    exists family all, RoutesRead family all ∈ seen /\ old ∈ all) as Hroutes.
  { intros seen old Hsub [Ho|Ho]%elem_of_app; [exists FAMILY_V4, ipv4|exists FAMILY_V6, ipv6];
      (split; [apply Hsub; unfold reads; set_solver|done]). }
  assert (supported (legacy_change tableID priority) [] reads) as F0 by (unfold reads; by destruct rules).
  assert (supported (legacy_change tableID priority) reads (removeRules owned k4).1.2) as F1.
  { unfold owned, reads. destruct rules as [rules|e]; [|done].
    apply (removeRules_supported _ _ FAMILY_V4 rules); [| |set_solver].
    - apply Forall_forall. intros r Hr. by apply list_elem_of_In, filter_In in Hr as [_ ?].
    - intros r Hr. apply list_elem_of_In, filter_In in Hr as [Hr _]. by apply list_elem_of_In. }
  destruct (removeRules owned k4) as [[k5 cs1] es1]. cbn [fst snd] in F1.
  pose proof (removeRoutes_supported tableID priority _ (rr_deletes x) k5 (reads ++ cs1)
    (fun old => Hroutes (reads ++ cs1) old ltac:(set_solver)) (proj1 C)) as F2.
  destruct (removeRoutes (rr_deletes x) k5) as [[k6 cs2] es2]. cbn [fst snd] in F2.
  pose proof (restoreDefault_supported tableID priority _ x k6 ((reads ++ cs1) ++ cs2)
    (fun old => Hroutes ((reads ++ cs1) ++ cs2) old ltac:(set_solver)) C) as F3.
  destruct (restoreDefault x k6) as [[k7 cs3] es3]. cbn [fst snd] in F3.
  assert (supported (legacy_change tableID priority) [] (reads ++ cs1 ++ cs2 ++ cs3)) as F.
  { apply (supported_app _ [] reads). split; [done|]. apply supported_app. split; [done|].
    apply supported_app. split; [exact F2|exact F3]. }
  by destruct (rr_deletes x), owned, rules.
Qed.
End linux.

(** C22: Recovering after an interrupted process touches nothing that is not
    the program's own, whatever the kernel lists and answers.  The routing
    recovery deletes only what it has read before: a rule that is one of its
    three for this table, mark and priority in every field, or a gateway-less
    unicast default route with its protocol tag in its table, whose link it has
    read to have its own name.  The recovery of older versions deletes only
    listed routes of the five kinds they installed, all with the protocol tag
    and in the main or their own table, and the rule with the session's table
    and mark, and restores a default route only from a listed marked one. *)
Theorem recovery_touches_only_its_own {K : Type} `{Netlink K} (tableID priority : Z)
    (tunName : string) (k : K) before c after :
  ((RecoverLinuxNetworkRules tableID priority tunName k).1.2 = before ++ c :: after ->
    own_change tableID priority tunName before c) /\
  ((RecoverLinuxOwnedRoutes tableID priority tunName k).1.2 = before ++ c :: after ->
    legacy_change tableID priority before c).
Proof.
  split; intros Heq; (eapply supported_before; [|exact Heq]); [|apply RecoverLinuxOwnedRoutes_supported].
  unfold RecoverLinuxNetworkRules. destruct (invalidIdentity tableID priority); [done|].
  destruct (recoverFamilies _ _ _ _ _ _) as [[k' changes] err] eqn:E.
  by destruct (recoverFamilies_spec _ _ _ _ _ _ _ _ [] (reflexivity _) E) as [F _].
Qed.

(** C23: Acquiring the network applies, in order and without a gap, the default
    route and the three rules of each family with the program's fields, all of
    them when it succeeds, and each of them is one that the recovery recognises
    as its own; the recovery recognises exactly the rules and exactly the
    routes with these fields; and a recovery that succeeds has, for both
    families, read the rules and the routes, and of what it read has deleted,
    or found gone, every rule and every route that is its own, but for routes
    whose link it read to have another name: so what an interrupted process
    installed is removed by the next one. *)
Theorem recovery_finds_what_was_installed {K : Type} `{Netlink K} (tableID priority : Z)
    (tunName : string) (Hnew : newRule = blankRule) :
  (forall sessionID (k : K),
    let '(p, _, err) := AcquireLinuxNetwork tunName tableID priority (NewPlan sessionID) k in
    exists index, (0 < index)%Z /\
      let rs := flat_map (own_resources tableID priority index) [FAMILY_V4; FAMILY_V6] in
      appliedPrefix rs (NewPlan sessionID) p err /\ Forall (recognised tableID priority) rs) /\
  (forall rule, linuxOwnsNetworkRule rule priority tableID tableID = true <-> own_rule tableID priority rule) /\
  (forall route family, family ∈ [FAMILY_V4; FAMILY_V6] ->
    ownedRouteShape route family tableID = true <-> own_route tableID family route) /\
  (forall k : K, let '(_, changes, err) := RecoverLinuxNetworkRules tableID priority tunName k in
    err = None -> Forall (found_all tableID priority tunName changes) [FAMILY_V4; FAMILY_V6]).
Proof.
  split_and!.
  - intros sessionID k. unfold AcquireLinuxNetwork.
    assert (forall index, (0 < index)%Z ->
      Forall (recognised tableID priority) (flat_map (own_resources tableID priority index) [FAMILY_V4; FAMILY_V6]))
      as Hrec.
    { intros index Hpos. cbn [flat_map]. rewrite app_nil_r. apply Forall_app.
      split; apply own_resources_recognised; try done; set_solver. }
    destruct (invalidIdentity tableID priority);
      [exists 1%Z; split; [lia|]; split; [apply appliedPrefix_none|by apply Hrec]|].
    destruct (linuxLinkIndex tunName k) as [k1 [index|e]] eqn:Hi;
      [|exists 1%Z; split; [lia|]; split; [apply appliedPrefix_none|by apply Hrec]].
    destruct (acquireFamilies _ _ _ _ _ _ _) as [[p k2] err] eqn:E.
    assert (0 < index)%Z as Hpos.
    { unfold linuxLinkIndex in Hi. destruct (String.eqb tunName ""); [done|].
      destruct (linkByName tunName k) as [? [link|]]; [|done].
      destruct (Z.ltb_spec 0 (lk_Index link)); [|done]. congruence. }
    exists index. split; [done|]. split; [|by apply Hrec].
    apply acquireFamilies_applied in E. cbn [flat_map] in E. by rewrite !familyResources_own in E.
  - intros rule. apply owns_rule_iff.
  - intros route family. apply owns_route_iff.
  - intros k. unfold RecoverLinuxNetworkRules. destruct (invalidIdentity tableID priority); [done|].
    destruct (recoverFamilies _ _ _ _ _ _) as [[k' changes] err] eqn:E.
    by destruct (recoverFamilies_spec _ _ _ _ _ _ _ _ [] (reflexivity _) E) as [_ F].
Qed.

(** ** A kernel that keeps what it is given *)

Definition exKernel : Type := list Route * list Rule.

#[export] Instance exNetlink : Netlink exKernel := {|
  routeList f k := (k, Ok (List.filter (fun r => ro_Family r =? f)%Z k.1));
  ruleList f k := (k, Ok (List.filter (fun r => ru_Family r =? f)%Z k.2));
  ruleDump _ k := (k, Ok []);
  routeAdd r k := ((k.1 ++ [r], k.2), None);
  routeReplace r k := ((k.1 ++ [r], k.2), None);
  routeDel r k := ((List.filter (fun r' => negb (ro_Family r' =? ro_Family r)%Z) k.1, k.2), None);
  ruleAdd r k := ((k.1, k.2 ++ [r]), None);
  ruleDel r k := ((k.1, List.filter (fun r' => negb (ru_Family r' =? ru_Family r)%Z ||
                         negb (ru_Priority r' =? ru_Priority r)%Z) k.2), None);
  linkByName name k := (k, Ok (mkLink name 7 true));
  linkByIndex index k := (k, Ok (mkLink "dobby0" index true));
  newRule := blankRule;
  nativeUint32 _ := 0%Z
|}.

(** An interrupted process leaves two routes and six rules; the next one finds
    and removes them all. *)
Example recovery_finds_witness :
  (let '(p, k, err) := AcquireLinuxNetwork "dobby0" 5000 100 (NewPlan "s") (([], []) : exKernel) in
   (length (acquiredRs (p_trace p)), length k.1, length k.2, err) = (8, 2, 6, None) /\
   (RecoverLinuxNetworkRules 5000 100 "dobby0" k).1.1 = ([], [])) /\
  (forall k : exKernel, let '(_, changes, err) := RecoverLinuxNetworkRules 5000 100 "dobby0" k in
    err = None -> Forall (found_all 5000 100 "dobby0" changes) [FAMILY_V4; FAMILY_V6]).
Proof.
  split; [vm_compute; split; reflexivity|].
  exact (proj2 (proj2 (proj2 (recovery_finds_what_was_installed (K := exKernel) 5000 100 "dobby0" eq_refl)))).
Defined.

(** What the interrupted process left, and the deletion of its IPv4 route. *)
Definition exLeft : exKernel := (AcquireLinuxNetwork "dobby0" 5000 100 (NewPlan "s") (([], []) : exKernel)).1.2.

Definition exRecord : list change := (RecoverLinuxNetworkRules 5000 100 "dobby0" exLeft).1.2.

Example recovery_touches_only_its_own_witness :
  exRecord = take 6 exRecord ++ RouteDeleted (networkRoute FAMILY_V4 5000 7) None :: drop 7 exRecord /\
  own_change 5000 100 "dobby0" (take 6 exRecord) (RouteDeleted (networkRoute FAMILY_V4 5000 7) None).
Proof.
  assert (exRecord = take 6 exRecord ++ RouteDeleted (networkRoute FAMILY_V4 5000 7) None :: drop 7 exRecord) as Hr
    by (vm_compute; reflexivity).
  split; [exact Hr|].
  exact (proj1 (recovery_touches_only_its_own (K := exKernel) 5000 100 "dobby0" exLeft (take 6 exRecord)
    (RouteDeleted (networkRoute FAMILY_V4 5000 7) None) (drop 7 exRecord)) Hr).
Defined.
