(* ===== verification/PlatformEngine.v ===== *)
(** * The packet engine's phases (core/tunnel/platform_engine/engine.go, engine_fd.go)

    The device and the packet stack the process owns, and their teardown: each
    phase runs in a goroutine of its own and outlives the deadline of the stop
    that began it; a later stop waits for it again.  tun2socks and the stack are
    third party: what they answer, and when a phase ends, is an argument.
    [pe_trace] records the phases that were begun.

    What stopping guarantees: however often a stop runs out of time and is
    retried, each phase runs once and one at a time, in the order the platform
    needs, and a stop that succeeds leaves nothing owned. *)

From S2P Require Import Prelude Errors.
Local Open Scope string_scope.
Local Open Scope list_scope.

Definition TunnelMTU : Z := 1280.

Inductive phaseName := LinkDetach | StackClose | StackWait | DeviceClose.

#[export] Instance phaseName_eq_dec : EqDecision phaseName.
Proof. solve_decision. Defined.

Definition phaseText (n : phaseName) : string :=
  match n with
  | LinkDetach => "link-detach" | StackClose => "stack-close"
  | StackWait => "stack-wait" | DeviceClose => "device-close"
  end.

(** A phase that was begun, for which start, and what was owned then. *)
Record begun := mkBegun { bg_run : nat; bg_phase : phaseName; bg_device : bool; bg_stack : bool }.

(** [pe_phases] is [stopPhases]: a begun phase, and whether it is done. *)
Record platform := mkPlatform {
  pe_device : bool;
  pe_stack : bool;
  pe_phases : phaseName -> option bool;
  pe_run : nat;
  pe_trace : list begun
}.
#[export] Instance eta_platform : Settable platform :=
  fun x => mkPlatform (pe_device x) (pe_stack x) (pe_phases x) (pe_run x) (pe_trace x).

Definition noPhases : phaseName -> option bool := fun _ => None.
Definition setPhase (n : phaseName) (done : bool) (m : phaseName -> option bool) : phaseName -> option bool :=
  fun n' => if bool_decide (n' = n) then Some done else m n'.

Definition newPlatform : platform := mkPlatform false false noPhases 0 [].

(** ** Starting *)

(** What the libraries answer: parsing the endpoint and opening the local SOCKS
    proxy when no dialer is given, opening the device, its MTU, and creating
    the stack. *)
Record startReplies := mkStartReplies {
  sr_dialer : bool;
  sr_endpoint : option gerr;
  sr_socks : option gerr;
  sr_device : bool;
  sr_openErr : option gerr;
  sr_mtu : Z;
  sr_stack : bool;
  sr_stackErr : option gerr
}.

(** The boolean says the owner must call stop; [None] for the whole result is
    the nil dereference of a device that was not returned. *)
Definition startStack (env : startReplies) (s : platform) : option (platform * bool * option gerr) :=
  if pe_device s || pe_stack s then Some (s, false, Some (EText "network stack is still owned"))
  else
    match (if sr_dialer env then None
           else match sr_endpoint env with
                | Some err => Some (EWrap "parse local SOCKS endpoint" err)
                | None => option_map (EWrap "open local SOCKS proxy") (sr_socks env)
                end) with
    | Some err => Some (s, false, Some err)
    | None =>
        let s := if sr_device env then s <| pe_device := true |> <| pe_run ::= S |> else s in
        match sr_openErr env with
        | Some err => Some (s, sr_device env, Some err)
        | None =>
            if negb (sr_device env) then None
            else if (sr_mtu env <? TunnelMTU)%Z
            then Some (s, true, Some (EText "tunnel MTU is below IPv6 minimum"))
            else Some (s <| pe_stack := sr_stack env |>, true, sr_stackErr env)
        end
    end.

(** ** Stopping *)

(** What happens while one stop waits: for each phase, whether it ended before
    the deadline, and the error of the context when it did not. *)
Record waits := mkWaits { wt_done : phaseName -> bool; wt_err : gerr }.

Definition beginPhase (n : phaseName) (s : platform) : platform :=
  match pe_phases s n with
  | Some _ => s
  | None =>
      s <| pe_phases ::= setPhase n false |>
        <| pe_trace ::= fun t => t ++ [mkBegun (pe_run s) n (pe_device s) (pe_stack s)] |>
  end.

Definition stopPhaseCtx (env : waits) (n : phaseName) (s : platform) : platform * option gerr :=
  let s := beginPhase n s in
  if bool_decide (pe_phases s n = Some true) then (s, None)
  else if wt_done env n then (s <| pe_phases ::= setPhase n true |>, None)
  else (s, Some (EWrap ("platform stop phase " +:+ phaseText n +:+ " exceeded cleanup deadline") (wt_err env))).

Definition drainStack (env : waits) (s : platform) : platform * option gerr :=
  let '(s, err) := stopPhaseCtx env StackClose s in
  match err with
  | Some err => (s, Some err)
  | None =>
      let '(s, err) := stopPhaseCtx env StackWait s in
      match err with
      | Some err => (s, Some err)
      | None => (s <| pe_stack := false |>, None)
      end
  end.

Definition stopDevice (env : waits) (s : platform) : platform * option gerr :=
  if pe_device s then
    let '(s, err) := stopPhaseCtx env DeviceClose s in
    match err with
    | Some err => (s, Some err)
    | None => (s <| pe_device := false |>, None)
    end
  else (s, None).

Definition stopStack (env : waits) (s : platform) : platform * option gerr :=
  let '(s, err) := stopDevice env s in
  match err with
  | Some err => (s, Some err)
  | None =>
      let '(s, err) := if pe_stack s then drainStack env s else (s, None) in
      match err with
      | Some err => (s, Some err)
      | None => (s <| pe_phases := noPhases |>, None)
      end
  end.

(** [stopPlatformEngine] of the descriptor platforms; [drainFirst] is Linux and
    Android, otherwise iOS. *)
Definition stopPlatformEngine (drainFirst : bool) (env : waits) (s : platform) : platform * option gerr :=
  if drainFirst && pe_stack s then
    let '(s, err) := if pe_device s then stopPhaseCtx env LinkDetach s else (s, None) in
    match err with
    | Some err => (s, Some err)
    | None =>
        let '(s, err) := drainStack env s in
        match err with
        | Some err => (s, Some err)
        | None => stopStack env s
        end
    end
  else stopStack env s.

(** ** The machine *)

Inductive platformEvent :=
| PEStart (env : startReplies)
| PEStop (env : waits)
| PEPhaseEnds (n : phaseName).

(** [None] is a panic. *)
Definition pe_step (drainFirst : bool) (ev : platformEvent) (s : platform) : option platform :=
  match ev with
  | PEStart env => option_map (fun x => x.1.1) (startStack env s)
  | PEStop env => Some (stopPlatformEngine drainFirst env s).1
  | PEPhaseEnds n =>
      Some (if bool_decide (pe_phases s n = Some false) then s <| pe_phases ::= setPhase n true |> else s)
  end.

Fixpoint pe_history (drainFirst : bool) (evs : list platformEvent) (s : platform) : option platform :=
  match evs with
  | [] => Some s
  | ev :: evs =>
      match pe_step drainFirst ev s with
      | Some s => pe_history drainFirst evs s
      | None => None
      end
  end.

(** ** The states between two calls *)

(** Every phase that was begun comes after one that is done. *)
Fixpoint chain (previous : option bool) (l : list (option bool)) : Prop :=
  match l with
  | [] => True
  | x :: l => (x <> None -> previous = Some true) /\ chain x l
  end.

Definition shape (drainFirst : bool) (s : platform) : Prop :=
  let p := pe_phases s in
  match pe_device s, pe_stack s with
  | false, false => forall n, p n = None
  | true, true =>
      if drainFirst then p DeviceClose = None /\ chain (Some true) [p LinkDetach; p StackClose; p StackWait]
      else p LinkDetach = None /\ p StackClose = None /\ p StackWait = None
  | true, false =>
      if drainFirst
      then exists x, (x = None \/ x = Some true) /\ p LinkDetach = x /\ p StackClose = x /\ p StackWait = x
      else p LinkDetach = None /\ p StackClose = None /\ p StackWait = None
  | false, true =>
      drainFirst = false /\ p LinkDetach = None /\ p DeviceClose = Some true /\
      chain (Some true) [p StackClose; p StackWait]
  end.

Lemma shape_new drainFirst : shape drainFirst newPlatform.
Proof. done. Qed.

Lemma setPhase_eq n b p : setPhase n b p n = Some b.
Proof. unfold setPhase. by rewrite bool_decide_eq_true_2. Qed.

Lemma setPhase_ne n n' b p : n' <> n -> setPhase n b p n' = p n'.
Proof. intros N. unfold setPhase. by rewrite bool_decide_eq_false_2. Qed.

(** At most one phase is running. *)
Lemma shape_one drainFirst s n m :
  shape drainFirst s -> pe_phases s n = Some false -> pe_phases s m = Some false -> n = m.
Proof.
  unfold shape. destruct (pe_device s), (pe_stack s), drainFirst; cbn; intros Hs Hn Hm;
    destruct n, m; try done; firstorder congruence.
Qed.

(** ** One phase *)

Lemma stopPhaseCtx_fields env n s s' err :
  stopPhaseCtx env n s = (s', err) ->
  pe_device s' = pe_device s /\ pe_stack s' = pe_stack s /\ pe_run s' = pe_run s /\
  (forall n', n' <> n -> pe_phases s' n' = pe_phases s n') /\
  match err with
  | None => pe_phases s' n = Some true
  | Some _ => pe_phases s' n = Some false /\ wt_done env n = false /\ pe_phases s n <> Some true
  end.
Proof.
  unfold stopPhaseCtx. assert (pe_device (beginPhase n s) = pe_device s /\
    pe_stack (beginPhase n s) = pe_stack s /\ pe_run (beginPhase n s) = pe_run s /\
    (forall n', n' <> n -> pe_phases (beginPhase n s) n' = pe_phases s n') /\
    exists b, pe_phases (beginPhase n s) n = Some b /\ (b = false -> pe_phases s n <> Some true))
    as (E1 & E2 & E3 & E4 & b & E5 & E6).
  { unfold beginPhase. destruct (pe_phases s n) as [b|] eqn:Hp; cbn.
    - do 3 (split; [done|]). split; [done|]. exists b. split; [done|]. by intros ->.
    - do 3 (split; [done|]). split; [intros; by apply setPhase_ne|]. exists false. split; [apply setPhase_eq|done]. }
  rewrite E5. destruct b.
  - rewrite bool_decide_eq_true_2 by done. by intros [= <- <-].
  - rewrite bool_decide_eq_false_2 by done. destruct (wt_done env n) eqn:Hd; intros [= <- <-];
      [|do 4 (split; [done|]); split; [exact E5|]; split; [done|by apply E6]].
    cbn. do 3 (split; [done|]). split; [|apply setPhase_eq]. intros n' N. rewrite setPhase_ne by done. by apply E4.
Qed.

(** ** The record *)

Definition isBegun (run : nat) (n : phaseName) (b : begun) : bool :=
  bool_decide (bg_run b = run) && bool_decide (bg_phase b = n).

Definition times (run : nat) (n : phaseName) (s : platform) : nat :=
  length (List.filter (isBegun run n) (pe_trace s)).

(** The record of the current start is what [stopPhases] remembers. *)
Definition remembered (s : platform) : Prop :=
  forall n, times (pe_run s) n s = match pe_phases s n with Some _ => 1 | None => 0 end.

(** The device is closed under no stack where the stack drains first; it drains
    without a device elsewhere. *)
Definition ordered (drainFirst : bool) (b : begun) : Prop :=
  match bg_phase b with
  | DeviceClose => drainFirst = true -> bg_stack b = false
  | LinkDetach => drainFirst = true /\ bg_device b = true
  | _ => drainFirst = false -> bg_device b = false
  end.

Record Bounded (drainFirst : bool) (s : platform) : Prop := mkBounded {
  bo_once : forall run n, times run n s <= 1;
  bo_fresh : forall run n, pe_run s < run -> times run n s = 0;
  bo_order : Forall (ordered drainFirst) (pe_trace s)
}.

(** One phase keeps the record, when it may be begun now. *)
Lemma stopPhaseCtx_record drainFirst env n s s' err :
  stopPhaseCtx env n s = (s', err) ->
  ordered drainFirst (mkBegun (pe_run s) n (pe_device s) (pe_stack s)) ->
  remembered s -> Bounded drainFirst s -> remembered s' /\ Bounded drainFirst s'.
Proof.
  intros E Ho Hr [B1 B2 B3].
  assert (remembered (beginPhase n s) /\ Bounded drainFirst (beginPhase n s)) as [Hr1 Hb1].
  { unfold beginPhase. destruct (pe_phases s n) as [b|] eqn:Hp; [done|].
    assert (forall run n', times run n' (s <| pe_phases ::= setPhase n false |>
        <| pe_trace ::= fun t => t ++ [mkBegun (pe_run s) n (pe_device s) (pe_stack s)] |>) =
      times run n' s + if bool_decide (pe_run s = run) && bool_decide (n = n') then 1 else 0) as Ht.
    { intros run n'. unfold times. cbn. rewrite List.filter_app, length_app. cbn.
      unfold isBegun at 2. cbn. by destruct (_ && _). }
    pose proof (Hr n) as Hn. rewrite Hp in Hn. split; [|constructor].
    - intros n'. rewrite Ht. cbn. rewrite (bool_decide_eq_true_2 (pe_run s = pe_run s)) by done. cbn.
      destruct (decide (n = n')) as [<-|N].
      + by rewrite Hn, setPhase_eq, bool_decide_eq_true_2.
      + by rewrite Hr, setPhase_ne, bool_decide_eq_false_2, Nat.add_0_r by done.
    - intros run n'. rewrite Ht. specialize (B1 run n').
      destruct (decide (pe_run s = run)) as [<-|N1]; [|rewrite bool_decide_eq_false_2 by done; cbn; lia].
      destruct (decide (n = n')) as [<-|N2]; [rewrite Hn; by destruct (_ && _); lia|].
      rewrite (bool_decide_eq_false_2 (n = n')) by done. rewrite andb_false_r. lia.
    - intros run n' Hlt. rewrite Ht. rewrite bool_decide_eq_false_2 by (cbn in Hlt; lia). cbn.
      rewrite Nat.add_0_r. by apply B2.
    - cbn. apply Forall_app. split; [done|by apply Forall_singleton]. }
  unfold stopPhaseCtx in E. case_bool_decide as Hd; [by injection E as <- <-|].
  destruct (wt_done env n); injection E as <- <-; [|done]. destruct Hb1 as [C1 C2 C3].
  assert (exists b, pe_phases (beginPhase n s) n = Some b) as [b Hb].
  { unfold beginPhase. destruct (pe_phases s n) as [b|] eqn:Hp; [by exists b|].
    exists false. apply setPhase_eq. }
  split; [|by constructor]. intros n'. cbn. change (times (pe_run (beginPhase n s)) n' (beginPhase n s) = match setPhase n true (pe_phases (beginPhase n s)) n' with Some _ => 1 | None => 0 end).
  rewrite (Hr1 n'). destruct (decide (n' = n)) as [->|N]; [by rewrite Hb, setPhase_eq|by rewrite setPhase_ne].
Qed.

(** ** A stop *)

Definition Kept (drainFirst : bool) (s : platform) : Prop := remembered s /\ Bounded drainFirst s.

(** Clearing flags keeps the record. *)
Lemma Kept_flags drainFirst s s' :
  pe_run s' = pe_run s -> pe_phases s' = pe_phases s -> pe_trace s' = pe_trace s ->
  Kept drainFirst s -> Kept drainFirst s'.
Proof.
  intros E1 E2 E3 [Hr [B1 B2 B3]]. unfold remembered, times in *.
  split; [intros n; unfold times; by rewrite E1, E2, E3|].
  constructor; unfold times; rewrite ?E1, ?E3; done.
Qed.

Lemma drainStack_spec drainFirst env s s' err :
  drainStack env s = (s', err) -> pe_stack s = true -> Kept drainFirst s ->
  (drainFirst = false -> pe_device s = false) ->
  chain (Some true) [pe_phases s StackClose; pe_phases s StackWait] ->
  Kept drainFirst s' /\ pe_device s' = pe_device s /\
  pe_phases s' LinkDetach = pe_phases s LinkDetach /\ pe_phases s' DeviceClose = pe_phases s DeviceClose /\
  match err with
  | None => pe_stack s' = false /\ pe_phases s' StackClose = Some true /\ pe_phases s' StackWait = Some true
  | Some _ => pe_stack s' = true /\ chain (Some true) [pe_phases s' StackClose; pe_phases s' StackWait] /\
      exists n, wt_done env n = false
  end.
Proof.
  unfold drainStack. intros E Hs [Hr Hb] Hd Hc.
  destruct (stopPhaseCtx env StackClose s) as [s1 err1] eqn:E1.
  destruct (stopPhaseCtx_fields _ _ _ _ _ E1) as (F1 & F2 & F3 & F4 & F5).
  destruct (stopPhaseCtx_record drainFirst _ _ _ _ _ E1 Hd Hr Hb) as [Hr1 Hb1].
  destruct err1 as [e|].
  { injection E as <- <-. destruct F5 as (F5 & F6 & F7). destruct Hc as (_ & Hc & _).
    split; [done|]. do 3 (split; [by auto|]). split; [congruence|]. split; [|by eexists].
    rewrite (F4 StackWait), F5 by done. split; [done|]. split; [|done]. intros Hw. by destruct F7; apply Hc. }
  destruct (stopPhaseCtx env StackWait s1) as [s2 err2] eqn:E2.
  destruct (stopPhaseCtx_fields _ _ _ _ _ E2) as (G1 & G2 & G3 & G4 & G5).
  assert (ordered drainFirst (mkBegun (pe_run s1) StackWait (pe_device s1) (pe_stack s1))) as Ho
    by (cbn; by rewrite F1).
  destruct (stopPhaseCtx_record drainFirst _ _ _ _ _ E2 Ho Hr1 Hb1) as [Hr2 Hb2].
  assert (pe_phases s2 LinkDetach = pe_phases s LinkDetach) as HL by (by rewrite G4, F4).
  assert (pe_phases s2 DeviceClose = pe_phases s DeviceClose) as HD by (by rewrite G4, F4).
  assert (pe_phases s2 StackClose = Some true) as HC by (by rewrite G4).
  destruct err2 as [e|]; injection E as <- <-.
  - destruct G5 as (G5 & G6 & _). do 4 (split; [done || congruence|]). split; [congruence|].
    split; [|by eexists]. by rewrite HC, G5.
  - split; [by eapply (Kept_flags _ s2)|]. split; [by cbn; congruence|]. by split_and!.
Qed.

Lemma stopDevice_spec drainFirst env s s' err :
  stopDevice env s = (s', err) -> pe_device s = true -> Kept drainFirst s ->
  (drainFirst = true -> pe_stack s = false) ->
  Kept drainFirst s' /\ pe_stack s' = pe_stack s /\
  (forall n, n <> DeviceClose -> pe_phases s' n = pe_phases s n) /\
  match err with
  | None => pe_device s' = false /\ pe_phases s' DeviceClose = Some true
  | Some _ => pe_device s' = true /\ exists n, wt_done env n = false
  end.
Proof.
  unfold stopDevice. intros E Hdev [Hr Hb] Hd. rewrite Hdev in E.
  destruct (stopPhaseCtx env DeviceClose s) as [s1 err1] eqn:E1.
  destruct (stopPhaseCtx_fields _ _ _ _ _ E1) as (F1 & F2 & F3 & F4 & F5).
  destruct (stopPhaseCtx_record drainFirst _ _ _ _ _ E1 Hd Hr Hb) as [Hr1 Hb1].
  destruct err1 as [e|]; injection E as <- <-.
  - destruct F5 as (_ & F6 & _). rewrite F1. split_and!; try done. by eexists.
  - cbn. split_and!; try done. by eapply (Kept_flags _ s1).
Qed.

(** A stop keeps the shape and the record; it succeeds exactly when nothing is
    owned any more, and always when no phase outlives it. *)
Definition Stopped (drainFirst : bool) (env : waits) (s' : platform) (err : option gerr) : Prop :=
  shape drainFirst s' /\ Bounded drainFirst s' /\
  match err with
  | None => pe_device s' = false /\ pe_stack s' = false
  | Some _ => (pe_device s' = true \/ pe_stack s' = true) /\ remembered s' /\ exists n, wt_done env n = false
  end.

Lemma Stopped_clear drainFirst env s :
  Bounded drainFirst s -> pe_device s = false -> pe_stack s = false ->
  Stopped drainFirst env (s <| pe_phases := noPhases |>) None.
Proof.
  intros [B1 B2 B3] Hd Hs. split; [|split; [by constructor|done]].
  unfold shape. cbn. by rewrite Hd, Hs.
Qed.

(** Once the device is the only thing left, or comes first. *)
Lemma stopStack_spec drainFirst env s s' err :
  stopStack env s = (s', err) -> shape drainFirst s -> Bounded drainFirst s ->
  (pe_device s = true \/ pe_stack s = true -> remembered s) ->
  (drainFirst = true -> pe_stack s = false) -> Stopped drainFirst env s' err.
Proof.
  unfold stopStack. intros E Hsh Hb Hrem Hd. destruct (pe_device s) eqn:Hdev.
  - specialize (Hrem (or_introl eq_refl)).
    destruct (stopDevice env s) as [s1 err1] eqn:E1.
    destruct (stopDevice_spec drainFirst _ _ _ _ E1 Hdev (conj Hrem Hb) Hd) as ([Hr1 Hb1] & F2 & F3 & F4).
    unfold shape in Hsh. rewrite Hdev in Hsh. destruct err1 as [e|].
    { injection E as <- <-. destruct F4 as [F4 Hw]. split; [|split; [done|by auto]].
      unfold shape. rewrite F4, F2. destruct (pe_stack s) eqn:Hst, drainFirst;
        [by specialize (Hd eq_refl)|by rewrite !F3..]. }
    destruct F4 as [F4 F5]. destruct (pe_stack s1) eqn:Hst1.
    2:{ injection E as <- <-. by apply Stopped_clear. }
    destruct drainFirst; [rewrite Hd in F2; congruence|]. rewrite <- F2 in Hsh.
    destruct Hsh as (P1 & P2 & P3).
    destruct (drainStack env s1) as [s2 err2] eqn:E2.
    assert (chain (Some true) [pe_phases s1 StackClose; pe_phases s1 StackWait]) as Hc
      by (rewrite !F3, P2, P3 by done; cbn; split; [done|]; split; [by intros []|done]).
    destruct (drainStack_spec false _ _ _ _ E2 Hst1 (conj Hr1 Hb1) (fun _ => F4) Hc)
      as ([Hr2 Hb2] & G1 & G2 & G3 & G4).
    destruct err2 as [e|]; injection E as <- <-.
    + destruct G4 as (G4 & G5 & G6). split; [|split; [done|by auto]].
      unfold shape. rewrite G1, F4, G4, G2, G3, F5, F3, P1 by done. done.
    + apply Stopped_clear; [done|by rewrite G1|by destruct G4].
  - assert (stopDevice env s = (s, None)) as E1 by (unfold stopDevice; by rewrite Hdev).
    rewrite E1 in E. destruct (pe_stack s) eqn:Hst.
    2:{ injection E as <- <-. by apply Stopped_clear. }
    destruct drainFirst; [by specialize (Hd eq_refl)|]. specialize (Hrem (or_intror eq_refl)).
    unfold shape in Hsh. rewrite Hdev, Hst in Hsh. destruct Hsh as (_ & P1 & P2 & P3).
    destruct (drainStack env s) as [s2 err2] eqn:E2.
    destruct (drainStack_spec false _ _ _ _ E2 Hst (conj Hrem Hb) (fun _ => Hdev) P3)
      as ([Hr2 Hb2] & G1 & G2 & G3 & G4).
    destruct err2 as [e|]; injection E as <- <-.
    + destruct G4 as (G4 & G5 & G6). split; [|split; [done|by auto]].
      unfold shape. by rewrite G1, Hdev, G4, G2, G3.
    + apply Stopped_clear; [done|by rewrite G1|by destruct G4].
Qed.

(** What is left once the stack of a draining platform is gone. *)
Lemma shape_drained s :
  pe_device s = true -> pe_stack s = false -> pe_phases s LinkDetach = Some true ->
  pe_phases s StackClose = Some true -> pe_phases s StackWait = Some true -> shape true s.
Proof.
  intros H1 H2 H3 H4 H5. unfold shape. rewrite H1, H2. exists (Some true). split; [by right|done].
Qed.

Lemma stopPlatformEngine_spec drainFirst env s s' err :
  stopPlatformEngine drainFirst env s = (s', err) -> shape drainFirst s -> Bounded drainFirst s ->
  (pe_device s = true \/ pe_stack s = true -> remembered s) -> Stopped drainFirst env s' err.
Proof.
  unfold stopPlatformEngine. intros E Hsh Hb Hrem. destruct drainFirst; cbn [andb] in E.
  2:{ by eapply stopStack_spec. }
  destruct (pe_stack s) eqn:Hst; [|eapply stopStack_spec; [exact E|exact Hsh|exact Hb|rewrite Hst; exact Hrem|done]].
  assert (pe_device s = true) as Hdev.
  { unfold shape in Hsh. rewrite Hst in Hsh. destruct (pe_device s); [done|]. by destruct Hsh. }
  specialize (Hrem (or_introl Hdev)). unfold shape in Hsh. rewrite Hdev, Hst in Hsh.
  destruct Hsh as [PD Hc]. rewrite Hdev in E.
  destruct (stopPhaseCtx env LinkDetach s) as [s1 err1] eqn:E1.
  destruct (stopPhaseCtx_fields _ _ _ _ _ E1) as (F1 & F2 & F3 & F4 & F5).
  assert (ordered true (mkBegun (pe_run s) LinkDetach (pe_device s) (pe_stack s))) as Ho by by cbn.
  destruct (stopPhaseCtx_record true _ _ _ _ _ E1 Ho Hrem Hb) as [Hr1 Hb1].
  destruct Hc as (_ & C2 & C3 & _). destruct err1 as [e|].
  { injection E as <- <-. destruct F5 as (F5 & F6 & F7).
    split; [|split; [done|split; [left; congruence|split; [done|by eexists]]]].
    unfold shape. rewrite F1, F2, Hdev, Hst, (F4 DeviceClose), PD by done. split; [done|].
    cbn. rewrite F5, (F4 StackClose), (F4 StackWait) by done. split; [done|].
    split; [intros H; by destruct F7; apply C2|]. split; [exact C3|done]. }
  destruct (drainStack env s1) as [s2 err2] eqn:E2.
  assert (chain (Some true) [pe_phases s1 StackClose; pe_phases s1 StackWait]) as Hc1.
  { rewrite (F4 StackClose), (F4 StackWait) by done. split; [done|]. by split. }
  assert (pe_stack s1 = true) as Hst1 by congruence.
  destruct (drainStack_spec true _ _ _ _ E2 Hst1 (conj Hr1 Hb1)) as ([Hr2 Hb2] & G1 & G2 & G3 & G4); [done..|].
  destruct err2 as [e|].
  - injection E as <- <-. destruct G4 as (G4 & G5 & G6).
    split; [|split; [done|split; [by right|done]]].
    unfold shape. rewrite G1, F1, Hdev, G4, G3, (F4 DeviceClose), PD by done. split; [done|].
    cbn. rewrite G2, F5. split; [done|]. destruct G5 as (? & ? & _). by split_and!.
  - destruct G4 as (G4 & G5 & G6). eapply stopStack_spec; [exact E| |done|done|done].
    apply shape_drained; congruence.
Qed.

(** ** Histories *)

Record PeInv (drainFirst : bool) (s : platform) : Prop := mkPeInv {
  pe_shape : shape drainFirst s;
  pe_bounded : Bounded drainFirst s;
  pe_remembered : pe_device s = true \/ pe_stack s = true -> remembered s
}.

Lemma PeInv_new drainFirst : PeInv drainFirst newPlatform.
Proof. constructor; [apply shape_new|constructor; cbn; done || (intros; cbn; lia)|by intros [?|?]]. Qed.

(** A start of an idle process that got a device. *)
Lemma PeInv_device drainFirst s stack :
  PeInv drainFirst s -> pe_device s = false -> pe_stack s = false ->
  PeInv drainFirst (s <| pe_device := true |> <| pe_run ::= S |> <| pe_stack := stack |>).
Proof.
  intros [Hsh [B1 B2 B3] _] Hd Hs. unfold shape in Hsh. rewrite Hd, Hs in Hsh.
  assert (forall s', pe_trace s' = pe_trace s -> forall run n, times run n s' = times run n s) as Ht
    by (intros s' E run n; unfold times; by rewrite E).
  constructor.
  - unfold shape. cbn. rewrite !Hsh. destruct stack, drainFirst; try done.
    exists None. split; [by left|done].
  - constructor; [intros run n; rewrite Ht by done; apply B1| |done].
    intros run n Hlt. rewrite Ht by done. apply B2. cbn in Hlt. lia.
  - intros _ n. rewrite Ht by done. cbn. rewrite Hsh. apply B2. lia.
Qed.

Lemma PeInv_start drainFirst env s s' stop err :
  PeInv drainFirst s -> startStack env s = Some (s', stop, err) ->
  PeInv drainFirst s' /\
  (stop = true <-> pe_device s = false /\ pe_stack s = false /\ pe_device s' = true) /\
  (err = None -> stop = true).
Proof.
  intros Hinv. unfold startStack. destruct (pe_device s) eqn:Hd; cbn [orb].
  { intros [= <- <- <-]. split; [done|]. split; [split; [done|by intros [? _]]|done]. }
  destruct (pe_stack s) eqn:Hs.
  { intros [= <- <- <-]. split; [done|]. split; [split; [done|by intros (_ & ? & _)]|done]. }
  assert (forall e, PeInv drainFirst s /\
    (false = true <-> false = false /\ false = false /\ pe_device s = true) /\
    (Some (e : gerr) = None -> false = true)) as Hsame.
  { intros e. split; [done|]. split; [split; [done|intros (_ & _ & ?); congruence]|done]. }
  destruct (if sr_dialer env then None else _) as [e|]; [intros [= <- <- <-]; apply (Hsame e)|].
  pose proof (PeInv_device drainFirst s (sr_stack env) Hinv Hd Hs) as H1.
  pose proof (PeInv_device drainFirst s false Hinv Hd Hs) as H0.
  assert (s <| pe_device := true |> <| pe_run ::= S |> <| pe_stack := false |> =
    s <| pe_device := true |> <| pe_run ::= S |>) as Hf by (destruct s; cbn in *; by subst).
  rewrite Hf in H0. destruct (sr_device env), (sr_openErr env) as [e|]; cbn [negb].
  - by intros [= <- <- <-].
  - destruct (sr_mtu env <? TunnelMTU)%Z; by intros [= <- <- <-].
  - intros [= <- <- <-]. apply (Hsame e).
  - done.
Qed.

Lemma pe_step_inv drainFirst ev s s' : PeInv drainFirst s -> pe_step drainFirst ev s = Some s' -> PeInv drainFirst s'.
Proof.
  intros Hinv. pose proof Hinv as [Hsh Hb Hr]. destruct ev as [env|env|n]; cbn.
  - destruct (startStack env s) as [[[s1 stop] err]|] eqn:E; [|done]. intros [= <-].
    by destruct (PeInv_start _ _ _ _ _ _ Hinv E).
  - destruct (stopPlatformEngine drainFirst env s) as [s1 err] eqn:E. intros [= <-].
    destruct (stopPlatformEngine_spec _ _ _ _ _ E Hsh Hb Hr) as (H1 & H2 & H3).
    constructor; [done|done|]. destruct err; [by destruct H3 as (_ & ? & _)|].
    intros [?|?]; destruct H3; congruence.
  - intros [= <-]. case_bool_decide as Hp; [|done].
    constructor; [|by destruct Hb|].
    + unfold shape in *. cbn. destruct (pe_device s), (pe_stack s), drainFirst; cbn in Hsh |- *;
        destruct n; cbn; try (firstorder congruence).
    + intros Ho m.
      change (times (pe_run s) m s = match setPhase n true (pe_phases s) m with Some _ => 1 | None => 0 end).
      rewrite (Hr Ho m).
      destruct (decide (m = n)) as [->|N]; [by rewrite Hp, setPhase_eq|by rewrite setPhase_ne].
Qed.

Lemma pe_history_inv drainFirst evs s s' :
  PeInv drainFirst s -> pe_history drainFirst evs s = Some s' -> PeInv drainFirst s'.
Proof.
  revert s. induction evs as [|ev evs IH]; intros s Hinv; cbn; [by intros [= <-]|].
  destruct (pe_step drainFirst ev s) as [s1|] eqn:E; [|done]. apply IH. by eapply pe_step_inv.
Qed.

(** Over any history of starts, stops that may run out of time at any
    phase, and phases that end in the background: each phase of each start is
    begun at most once and at most one is running; on Linux and Android the
    device is closed only when no stack is owned, elsewhere the stack is drained
    only when the device is closed; a start is refused while anything is owned,
    and otherwise asks to be stopped exactly when it opened a device; a stop
    that reports success leaves nothing owned, one that fails leaves something
    to stop again, and a stop that no phase outlives succeeds. *)
Theorem engine_teardown_runs_each_phase_once (drainFirst : bool) (evs : list platformEvent)
    (s : platform) (Hs : pe_history drainFirst evs newPlatform = Some s) :
  (forall run n, times run n s <= 1) /\
  (forall n m, pe_phases s n = Some false -> pe_phases s m = Some false -> n = m) /\
  Forall (ordered drainFirst) (pe_trace s) /\
  (forall env s' stop err, startStack env s = Some (s', stop, err) ->
    (stop = true <-> pe_device s = false /\ pe_stack s = false /\ pe_device s' = true) /\
    (err = None -> stop = true)) /\
  (forall env, let '(s', err) := stopPlatformEngine drainFirst env s in
    (err = None <-> pe_device s' = false /\ pe_stack s' = false) /\
    ((forall n, wt_done env n = true) -> err = None)).
Proof.
  pose proof (pe_history_inv drainFirst evs _ _ (PeInv_new drainFirst) Hs) as Hinv.
  pose proof Hinv as [Hsh [B1 B2 B3] Hr]. split; [exact B1|].
  split; [intros n m; by eapply shape_one|]. split; [exact B3|]. split.
  - intros env s' stop err E. by destruct (PeInv_start _ _ _ _ _ _ Hinv E).
  - intros env. destruct (stopPlatformEngine drainFirst env s) as [s' err] eqn:E.
    destruct (stopPlatformEngine_spec _ _ _ _ _ E Hsh (mkBounded _ _ B1 B2 B3) Hr) as (_ & _ & H).
    destruct err as [e|]; [|by split].
    destruct H as (Ho & _ & n & Hn). split.
    + split; [done|]. intros [? ?]. destruct Ho; congruence.
    + intros Hall. rewrite Hall in Hn. done.
Qed.

(** Linux: a stop times out while the stack drains, the drain ends later, and
    the retry closes the device without beginning any phase again. *)
Definition exStack : startReplies := mkStartReplies true None None true None 1280 true None.
Definition exLate : waits := mkWaits (fun n => bool_decide (n <> StackWait)) (EText "deadline exceeded").
Definition exInTime : waits := mkWaits (fun _ => true) (EText "deadline exceeded").

Example engine_teardown_witness :
  exists s, pe_history true [PEStart exStack; PEStop exLate; PEPhaseEnds StackWait] newPlatform = Some s /\
    pe_device s = true /\ pe_stack s = true /\
    let '(s', err) := stopPlatformEngine true exInTime s in
    map bg_phase (pe_trace s') = [LinkDetach; StackClose; StackWait; DeviceClose] /\
    ((err = None <-> pe_device s' = false /\ pe_stack s' = false) /\
     ((forall n, wt_done exInTime n = true) -> err = None)).
Proof.
  eexists. split; [vm_compute; reflexivity|]. split; [reflexivity|]. split; [reflexivity|].
  destruct (engine_teardown_runs_each_phase_once true
    [PEStart exStack; PEStop exLate; PEPhaseEnds StackWait] _ eq_refl) as (_ & _ & _ & _ & H).
  split; [reflexivity|]. exact (H exInTime).
Defined.
