(* ===== verification/Dns.v ===== *)
(** * DNS resolution (core/dnscache/cache.go, resolver_wire.go)

    Who may answer for an endpoint: the resolver of the current physical
    network, and the lookup that asks the servers captured on it.  Resolvers
    are named by numbers; what they and the DNS servers answer is an argument.
    netip.ParseAddr, dns.Fqdn and idna are parameters. *)

From S2P Require Import Prelude Errors GoStrings Bypass.
Local Open Scope string_scope.
Local Open Scope list_scope.

Definition IPAddr : Type := IP * string.

(** [strings.TrimSuffix] and [strings.TrimPrefix]. *)
Definition TrimPrefix (p s : string) : string :=
  if has_prefix p s then drop_bytes (String.length p) s else s.

Definition TrimSuffix (p s : string) : string := reverse (TrimPrefix (reverse p) (reverse s)).

(** ** The resolver owner *)

(** [c_changes] counts the changes of the resolver since the start; the code
    keeps [c_revision] only. *)
Record cache := mkCache {
  c_resolver : option nat;
  c_identity : string;
  c_revision : Z;
  c_source : option nat;
  c_changes : nat
}.
#[export] Instance eta_cache : Settable cache :=
  fun x => mkCache (c_resolver x) (c_identity x) (c_revision x) (c_source x) (c_changes x).

Definition newCache : cache := mkCache None "" 1 None 0.

Definition changed (c : cache) : cache := c <| c_revision ::= fun r => u64 (r + 1) |> <| c_changes ::= S |>.

Definition SetResolverSource (source : option nat) (c : cache) : cache :=
  changed (c <| c_source := source |> <| c_resolver := None |>).

(** [resolver] is [None] for a nil function. *)
Definition SetResolver (identity : string) (resolver : option nat) (c : cache) : cache :=
  if String.eqb (c_identity c) identity && match c_resolver c with Some _ => true | None => false end then c
  else changed (c <| c_identity := identity |> <| c_resolver := resolver |>).

(** A lookup between its sections: about to read the source, waiting for it,
    about to read the resolver, waiting for the resolver it read. *)
Inductive lookup :=
| LStart (host : string)
| LSource (host : string) (source : nat)
| LCapture (host : string)
| LResolve (host : string) (resolver : nat) (revision : Z)
| LDone (res : result (list IPAddr) gerr).

Section cache.
Context (ParseAddr : string -> option IPAddr).

Definition NormalizeHost (host : string) : string :=
  let host := TrimPrefix "[" (TrimSuffix "]" (TrimSpace host)) in
  match ParseAddr host with
  | Some _ => host
  | None => TrimSuffix "." (ToLower host)
  end.

(** [ResolveAddresses] up to its first lock; [ctxErr] is the context's error. *)
Definition lookup_begin (ctxErr : option gerr) (host : string) : lookup :=
  match ctxErr with
  | Some err => LDone (Err err)
  | None =>
      let host := NormalizeHost host in
      if String.eqb host "" then LDone (Err (EText "empty host"))
      else match ParseAddr host with
           | Some ip => LDone (Ok [ip])
           | None => LStart host
           end
  end.
End cache.

Definition lookup_source (host : string) (c : cache) : lookup :=
  match c_source c with Some source => LSource host source | None => LCapture host end.

(** The source answered. *)
Definition lookup_sourced (host : string) (reply : result (string * option nat) gerr) (c : cache) :
    cache * lookup :=
  match reply with
  | Err err => (c, LDone (Err (EWrap "capture underlying resolver" err)))
  | Ok (identity, resolver) => (SetResolver identity resolver c, LCapture host)
  end.

Definition lookup_capture (host : string) (c : cache) : lookup :=
  match c_resolver c with
  | None => LDone (Err (EText "underlying network resolver is unavailable"))
  | Some resolver => LResolve host resolver (c_revision c)
  end.

(** The resolver answered: [addresses] and [err], with the context's error. *)
Definition lookup_resolved (host : string) (revision : Z) (addresses : list IPAddr)
    (err ctxErr : option gerr) (c : cache) : lookup :=
  let err := if (c_revision c =? revision)%Z then err
             else join [err; Some (EText "underlying network changed during resolution")] in
  let err := match ctxErr with Some e => join [err; Some e] | None => err end in
  let err := match err, addresses with
             | None, [] => Some (EText "underlying resolver returned no addresses")
             | _, _ => err
             end in
  match err with
  | Some err => LDone (Err (EWrap ("resolve endpoint " +:+ host) err))
  | None => LDone (Ok addresses)
  end.

(** ** The lookups and the cache together *)

Record dnsState := mkDns { d_cache : cache; d_lookups : gmap nat lookup }.

Inductive dnsEvent :=
| DSetSource (source : option nat)
| DSetResolver (identity : string) (resolver : option nat)
| DBegin (id : nat) (ctxErr : option gerr) (host : string)
| DReadSource (id : nat)
| DSourced (id : nat) (reply : result (string * option nat) gerr)
| DCapture (id : nat)
| DResolved (id : nat) (addresses : list IPAddr) (err ctxErr : option gerr).

Section machine.
Context (ParseAddr : string -> option IPAddr).

Definition put (id : nat) (l : lookup) (s : dnsState) : dnsState :=
  mkDns (d_cache s) (<[id := l]> (d_lookups s)).

(** An event that does not fit the lookup it names changes nothing. *)
Definition dns_step (ev : dnsEvent) (s : dnsState) : dnsState :=
  let c := d_cache s in
  match ev with
  | DSetSource source => mkDns (SetResolverSource source c) (d_lookups s)
  | DSetResolver identity resolver => mkDns (SetResolver identity resolver c) (d_lookups s)
  | DBegin id ctxErr host =>
      match d_lookups s !! id with
      | None => put id (lookup_begin ParseAddr ctxErr host) s
      | Some _ => s
      end
  | DReadSource id =>
      match d_lookups s !! id with Some (LStart host) => put id (lookup_source host c) s | _ => s end
  | DSourced id reply =>
      match d_lookups s !! id with
      | Some (LSource host _) =>
          let '(c, l) := lookup_sourced host reply c in put id l (mkDns c (d_lookups s))
      | _ => s
      end
  | DCapture id =>
      match d_lookups s !! id with Some (LCapture host) => put id (lookup_capture host c) s | _ => s end
  | DResolved id addresses err ctxErr =>
      match d_lookups s !! id with
      | Some (LResolve host _ revision) => put id (lookup_resolved host revision addresses err ctxErr c) s
      | _ => s
      end
  end.

Definition dns_run (evs : list dnsEvent) (s : dnsState) : dnsState :=
  fold_left (fun s ev => dns_step ev s) evs s.
End machine.

(** ** The captured servers *)

Definition TypeA : Z := 1.
Definition TypeAAAA : Z := 28.
Definition RcodeSuccess : Z := 0.
Definition RcodeNameError : Z := 3.

(** A record of an answer: the name it is for, and its data. *)
Inductive rdata := RA (ip : IP) | RAAAA (ip : IP) | RCNAME (target : string) | ROther.

Record RR := mkRR { rr_Name : string; rr_Data : rdata }.

Record Msg := mkMsg { ms_Truncated : bool; ms_Rcode : Z; ms_Answer : list RR }.

(** One exchange over UDP, and over TCP when the answer was truncated. *)
Record exchange := mkExchange { ex_udp : result Msg gerr; ex_tcp : result Msg gerr }.

(** [IsNotFound] of a [*net.DNSError], or another error. *)
Inductive queryErr := NotFound (host server : string) | QueryFailed (err : gerr).

Section wire.
Context (Fqdn : string -> string).

Fixpoint capturedDNSAnswerRecords (answer : list RR) (name : string) (kind : Z)
    (addresses : list IPAddr) (alias : string) : list IPAddr * string :=
  match answer with
  | [] => (addresses, alias)
  | record :: answer =>
      if negb (EqualFold (rr_Name record) name)
      then capturedDNSAnswerRecords answer name kind addresses alias
      else match rr_Data record with
           | RA ip =>
               capturedDNSAnswerRecords answer name kind
                 (if (kind =? TypeA)%Z then addresses ++ [(ip, "")] else addresses) alias
           | RAAAA ip =>
               capturedDNSAnswerRecords answer name kind
                 (if (kind =? TypeAAAA)%Z then addresses ++ [(ip, "")] else addresses) alias
           | RCNAME target => capturedDNSAnswerRecords answer name kind addresses (ToLower (Fqdn target))
           | ROther => capturedDNSAnswerRecords answer name kind addresses alias
           end
  end.

(** Following the aliases inside one response. *)
Inductive chased :=
| Answered (addresses : list IPAddr)
| AliasLoop (name : string)
| AskFor (name : string) (seen : list string).

Definition present (answer : list RR) (name : string) : bool :=
  existsb (fun record => EqualFold (rr_Name record) name) answer.

Fixpoint chase (fuel : nat) (answer : list RR) (kind : Z) (name : string) (seen : list string) :
    option chased :=
  match fuel with
  | O => None
  | S fuel =>
      let '(addresses, alias) := capturedDNSAnswerRecords answer name kind [] "" in
      if negb (Nat.eqb (length addresses) 0) || String.eqb alias "" then Some (Answered addresses)
      else if bool_decide (alias ∈ seen) then Some (AliasLoop alias)
      else if present answer alias then chase fuel answer kind alias (alias :: seen)
      else Some (AskFor alias seen)
  end.

(** Every round of the inner loop leaves a name of the answer behind. *)
Definition chaseFuel (answer : list RR) : nat := S (length answer).
#[global] Arguments chaseFuel : simpl never.

Fixpoint queryRounds (fuel round : nat) (host server : string) (kind : Z)
    (env : nat -> exchange) (name : string) (seen : list string) :
    option (result (list IPAddr) queryErr) :=
  match fuel with
  | O => None
  | S fuel =>
      if bool_decide (name ∈ seen)
      then Some (Err (QueryFailed (EText ("DNS alias loop at " +:+ name))))
      else
        let seen := name :: seen in
        match ex_udp (env round) with
        | Err err => Some (Err (QueryFailed err))
        | Ok response =>
            match (if ms_Truncated response then ex_tcp (env round) else Ok response) with
            | Err err => Some (Err (QueryFailed err))
            | Ok response =>
                if (ms_Rcode response =? RcodeNameError)%Z then Some (Err (NotFound host server))
                else if negb (ms_Rcode response =? RcodeSuccess)%Z
                then Some (Err (QueryFailed (EText ("DNS response code " +:+ Itoa (ms_Rcode response)))))
                else match chase (chaseFuel (ms_Answer response)) (ms_Answer response) kind name seen with
                     | None => None
                     | Some (Answered addresses) => Some (Ok addresses)
                     | Some (AliasLoop alias) =>
                         Some (Err (QueryFailed (EText ("DNS alias loop at " +:+ alias))))
                     | Some (AskFor alias seen) =>
                         queryRounds fuel (S round) host server kind env alias seen
                     end
            end
        end
  end.

Definition queryCapturedDNSServer (fuel : nat) (host server : string) (kind : Z) (env : nat -> exchange) :
    option (result (list IPAddr) queryErr) :=
  queryRounds fuel 0 host server kind env (ToLower (Fqdn host)) [].
End wire.

(** ** Racing the servers *)

Definition queryError (e : queryErr) : gerr :=
  match e with
  | NotFound host server => EText ("lookup " +:+ host +:+ " on " +:+ server +:+ ": no such host")
  | QueryFailed err => err
  end.

(** The error of one server, as its goroutine reports it. *)
Definition serverError (server host : string) (kind : Z) (e : queryErr) : gerr :=
  EWrap ("physical DNS " +:+ server +:+ " type=" +:+ Itoa kind +:+ " host=" +:+ host) (queryError e).

(** The replies of one family in the order they arrive: the first that decides
    wins, the others are canceled. *)
Fixpoint familyReply (host : string) (kind : Z) (replies : list (string * result (list IPAddr) queryErr))
    (failures : list (option gerr)) : list IPAddr * option gerr :=
  match replies with
  | [] => ([], join failures)
  | (server, Ok addresses) :: _ => (addresses, None)
  | (server, Err (NotFound h s)) :: _ => ([], Some (serverError server host kind (NotFound h s)))
  | (server, Err (QueryFailed err)) :: replies =>
      familyReply host kind replies (failures ++ [Some (serverError server host kind (QueryFailed err))])
  end.

(** The families in the order they finish, each with its kind; [Err None] is a
    nil list with a nil error: every answer was empty. *)
Definition resolveCapturedDNSServers (ctxErr : option gerr) (servers : nat)
    (toASCII : option gerr) (host : string)
    (first second : Z * list (string * result (list IPAddr) queryErr))
    (ctxErr1 : option gerr) : result (list IPAddr) (option gerr) :=
  match ctxErr with
  | Some err => Err (Some err)
  | None =>
      if Nat.eqb servers 0 then Err (Some (EText "captured physical DNS server inventory is empty"))
      else match toASCII with
      | Some err => Err (Some (EWrap ("invalid endpoint DNS name " +:+ quoted host) err))
      | None =>
          let '(a1, e1) := familyReply host first.1 first.2 [] in
          let '(a2, e2) := familyReply host second.1 second.2 [] in
          match ctxErr1 with
          | Some err => Err (join [Some err; join [e1; e2]])
          | None =>
              match a1 ++ a2 with
              | [] => Err (join [e1; e2])
              | addresses => Ok addresses
              end
          end
      end
  end.
