(* ===== verification/DnsTheorems.v ===== *)
(** * What DNS resolution guarantees

    A lookup is answered by the resolver of the network that is current when it
    returns, and following aliases ends with addresses of the host's own alias
    chain. *)

From S2P Require Import Prelude Errors GoStrings Bypass Dns.
Local Open Scope string_scope.
Local Open Scope list_scope.

(** ** The revision names the resolver *)

(** Which resolver a waiting lookup has read, and after how many changes. *)
Definition read_at (c : cache) (l : lookup) : Prop :=
  match l with
  | LResolve _ resolver revision =>
      exists k, k <= c_changes c /\ revision = u64 (1 + Z.of_nat k) /\
        (k = c_changes c -> c_resolver c = Some resolver)
  | _ => True
  end.

Record DInv (s : dnsState) : Prop := mkDInv {
  di_revision : c_revision (d_cache s) = u64 (1 + Z.of_nat (c_changes (d_cache s)));
  di_read : forall id l, d_lookups s !! id = Some l -> read_at (d_cache s) l
}.

(** A cache operation: unchanged, or one change more. *)
Definition advances (c c' : cache) : Prop :=
  c' = c \/ (c_changes c' = S (c_changes c) /\ c_revision c' = u64 (c_revision c + 1)).

Lemma SetResolverSource_advances source c : advances c (SetResolverSource source c).
Proof. by right. Qed.

Lemma SetResolver_advances identity resolver c : advances c (SetResolver identity resolver c).
Proof. unfold SetResolver. destruct (_ && _); [by left|by right]. Qed.

Lemma advances_read c c' l : advances c c' -> read_at c l -> read_at c' l.
Proof.
  intros [->|[Hc _]]; [done|]. destruct l as [| | |h r rev|]; try done.
  cbn. intros (k & Hk & Hr & _). exists k. split; [lia|]. split; [done|lia].
Qed.

Lemma advances_revision c c' :
  advances c c' -> c_revision c = u64 (1 + Z.of_nat (c_changes c)) ->
  c_revision c' = u64 (1 + Z.of_nat (c_changes c')).
Proof.
  intros [->|[Hc Hr]] H; [done|]. rewrite Hr, H, Hc, u64_succ_u64. f_equal. lia.
Qed.

Lemma DInv_cache c' s : DInv s -> advances (d_cache s) c' -> DInv (mkDns c' (d_lookups s)).
Proof.
  intros [H1 H2] Ha. constructor; cbn; [by eapply advances_revision|].
  intros id l Hl. eapply advances_read; [done|by eapply H2].
Qed.

Lemma DInv_put id l s : DInv s -> read_at (d_cache s) l -> DInv (put id l s).
Proof.
  intros [H1 H2] Hl. constructor; cbn; [done|]. intros id' l'.
  destruct (decide (id' = id)) as [->|N].
  - rewrite lookup_insert_eq. by intros [= <-].
  - rewrite lookup_insert_ne by done. apply H2.
Qed.

Section machine.
Context (ParseAddr : string -> option IPAddr).

Lemma dns_step_DInv ev s : DInv s -> DInv (dns_step ParseAddr ev s).
Proof.
  intros Hinv. pose proof Hinv as [H1 H2]. destruct ev as [src|ident r|id e h|id|id reply|id|id addrs e e']; cbn.
  - apply DInv_cache; [done|apply SetResolverSource_advances].
  - apply DInv_cache; [done|apply SetResolver_advances].
  - destruct (d_lookups s !! id); [done|]. apply DInv_put; [done|]. unfold lookup_begin.
    destruct e; [done|]. destruct (String.eqb _ ""); [done|]. by destruct (ParseAddr _).
  - destruct (d_lookups s !! id) as [[]|]; try done. apply DInv_put; [done|].
    unfold lookup_source. by destruct (c_source _).
  - destruct (d_lookups s !! id) as [[]|]; try done.
    destruct reply as [[ident r]|err]; cbn; [|by destruct s; apply DInv_put].
    apply DInv_put; [|done]. apply DInv_cache; [done|apply SetResolver_advances].
  - destruct (d_lookups s !! id) as [[]|]; try done. apply DInv_put; [done|].
    unfold lookup_capture. destruct (c_resolver (d_cache s)) eqn:Hr; [|done]. cbn.
    exists (c_changes (d_cache s)). split; [lia|]. by split.
  - destruct (d_lookups s !! id) as [[]|]; try done. apply DInv_put; [done|].
    unfold lookup_resolved. cbv zeta. by repeat case_match.
Qed.

Lemma DInv_new : DInv (mkDns newCache ∅).
Proof. constructor; [done|]. intros id l Hl. cbn in Hl. by rewrite lookup_empty in Hl. Qed.

Lemma dns_run_DInv evs s : DInv s -> DInv (dns_run ParseAddr evs s).
Proof.
  revert s. induction evs as [|ev evs IH]; intros s H; [done|]. cbn. by apply IH, dns_step_DInv.
Qed.
End machine.

(** C24: Whatever the interleaving of lookups with changes of the network: a
    lookup that asked a resolver returns addresses only if that resolver is
    still the cache's own at that moment, answered without an error and with at
    least one address, the context had not ended, and the addresses are its
    answer; a change of the resolver in between makes the lookup fail. (The
    revision is 64 bits wide; fewer than 2^64 changes are assumed.) *)
Theorem lookups_use_the_current_network (ParseAddr : string -> option IPAddr) (evs : list dnsEvent)
    (id : nat) (host : string) (resolver : nat) (revision : Z) (addresses : list IPAddr)
    (err ctxErr : option gerr) :
  let s := dns_run ParseAddr evs (mkDns newCache ∅) in
  d_lookups s !! id = Some (LResolve host resolver revision) ->
  (Z.of_nat (c_changes (d_cache s)) < 2 ^ 64 - 1)%Z ->
  match d_lookups (dns_step ParseAddr (DResolved id addresses err ctxErr) s) !! id with
  | Some (LDone (Ok result)) =>
      c_resolver (d_cache s) = Some resolver /\ result = addresses /\ addresses <> [] /\
      err = None /\ ctxErr = None
  | Some (LDone (Err _)) =>
      c_revision (d_cache s) <> revision \/ err <> None \/ ctxErr <> None \/ addresses = []
  | _ => False
  end.
Proof.
  cbv zeta. set (s := dns_run ParseAddr evs (mkDns newCache ∅)). intros Hl Hb.
  pose proof (dns_run_DInv ParseAddr evs _ DInv_new) as [H1 H2]. fold s in H1, H2.
  destruct (H2 id _ Hl) as (k & Hk & Hr & Hcur). cbn. rewrite Hl. cbn. rewrite lookup_insert_eq.
  unfold lookup_resolved. destruct (Z.eqb_spec (c_revision (d_cache s)) revision) as [Heq|Hne].
  - assert (k = c_changes (d_cache s)) as Hsame.
    { rewrite H1, Hr, !u64_small in Heq by lia. lia. }
    specialize (Hcur Hsame). destruct err as [e|], ctxErr as [e'|], addresses as [|a l]; cbn; auto.
    all: right; left; done.
  - destruct err, ctxErr, addresses; cbn; by left.
Qed.

Lemma lookups_use_the_current_network_witness :
  let s := dns_run (fun _ => None)
    [DSetResolver "wifi" (Some 7); DBegin 1 None "[Example.org.]"; DReadSource 1; DCapture 1]
    (mkDns newCache ∅) in
  let reply : list IPAddr := [([192; 0; 2; 1]%Z, "")] in
  d_lookups s !! 1 = Some (LResolve "example.org" 7 2) /\
  match d_lookups (dns_step (fun _ => None) (DResolved 1 reply None None) s) !! 1 with
  | Some (LDone (Ok result)) =>
      c_resolver (d_cache s) = Some 7 /\ result = reply /\ reply <> [] /\
      @None gerr = None /\ @None gerr = None
  | Some (LDone (Err _)) =>
      c_revision (d_cache s) <> 2%Z \/ @None gerr <> None \/ @None gerr <> None \/ reply = []
  | _ => False
  end.
Proof.
  intros s reply. split; [reflexivity|].
  apply (lookups_use_the_current_network (fun _ => None) _ 1 "example.org" 7 2 reply None None);
    reflexivity.
Defined.

(** ** One answer *)

Lemma lower_lower c : lower (lower c) = lower c.
Proof. destruct c as [[] [] [] [] [] [] [] []]; vm_compute; reflexivity. Qed.

Lemma ToLower_ToLower s : ToLower (ToLower s) = ToLower s.
Proof. induction s as [|c s IH]; cbn; [done|]. by rewrite lower_lower, IH. Qed.

(** A record of [answer] for [name] that carries the address [a]. *)
Definition carries (kind : Z) (answer : list RR) (name : string) (a : IPAddr) : Prop :=
  exists record ip, record ∈ answer /\ EqualFold (rr_Name record) name = true /\ a = (ip, "") /\
    ((kind = TypeA /\ rr_Data record = RA ip) \/ (kind = TypeAAAA /\ rr_Data record = RAAAA ip)).

(** The number of [names] that were not seen yet. *)
Definition unseen (seen names : list string) : nat := length (filter (fun n => n ∉ seen) names).

Lemma unseen_le seen names : unseen seen names <= length names.
Proof. apply length_filter. Qed.

Lemma unseen_mono x seen names : unseen (x :: seen) names <= unseen seen names.
Proof.
  unfold unseen. induction names as [|n names IH]; [done|]. rewrite !filter_cons.
  destruct (decide (n ∉ x :: seen)) as [H1|H1], (decide (n ∉ seen)) as [H2|H2]; cbn; try lia.
  destruct H2. intros H. apply H1. by right.
Qed.

Lemma unseen_lt x seen names : x ∈ names -> x ∉ seen -> unseen (x :: seen) names < unseen seen names.
Proof.
  intros Hx Hs. induction names as [|n names IH]; [by apply not_elem_of_nil in Hx|].
  pose proof (unseen_mono x seen names) as Hm. unfold unseen in *. rewrite !filter_cons.
  apply elem_of_cons in Hx as [<-|Hx].
  - rewrite decide_False by (intros H; apply H; by left). rewrite decide_True by done. cbn. lia.
  - specialize (IH Hx). destruct (decide (n ∉ x :: seen)) as [H1|H1], (decide (n ∉ seen)) as [H2|H2]; cbn; try lia.
    destruct H2. intros H. apply H1. by right.
Qed.

Section wire.
Context (Fqdn : string -> string).

Abbreviation records := (capturedDNSAnswerRecords Fqdn).

Lemma records_spec answer name kind addresses alias as' al' :
  records answer name kind addresses alias = (as', al') ->
  (forall a, a ∈ as' -> a ∈ addresses \/ carries kind answer name a) /\
  (al' = alias \/ exists record target, record ∈ answer /\ EqualFold (rr_Name record) name = true /\
    rr_Data record = RCNAME target /\ al' = ToLower (Fqdn target)).
Proof.
  revert addresses alias. induction answer as [|record answer IH]; intros addresses alias; cbn.
  { intros [= <- <-]. split; [by left|by left]. }
  assert (forall adds al, records answer name kind adds al = (as', al') ->
    (forall a, a ∈ adds -> a ∈ addresses \/ carries kind (record :: answer) name a) ->
    (al = alias \/ exists r target, r ∈ record :: answer /\ EqualFold (rr_Name r) name = true /\
      rr_Data r = RCNAME target /\ al = ToLower (Fqdn target)) ->
    (forall a, a ∈ as' -> a ∈ addresses \/ carries kind (record :: answer) name a) /\
    (al' = alias \/ exists r target, r ∈ record :: answer /\ EqualFold (rr_Name r) name = true /\
      rr_Data r = RCNAME target /\ al' = ToLower (Fqdn target))) as Hstep.
  { intros adds al E Ha Hal. destruct (IH _ _ E) as [H1 H2]. split.
    - intros a Hin. destruct (H1 a Hin) as [?|(r & ip & Hr & ?)]; [by apply Ha|].
      right. exists r, ip. split; [by right|done].
    - destruct H2 as [->|(r & target & Hr & ?)]; [done|]. right. exists r, target. split; [by right|done]. }
  destruct (EqualFold (rr_Name record) name) eqn:He; cbn [negb].
  2:{ intros E. eapply Hstep; [exact E|by left|by left]. }
  destruct (rr_Data record) as [ip|ip|target|] eqn:Hd; intros E.
  - eapply Hstep; [exact E| |by left]. destruct (Z.eqb_spec kind TypeA) as [->|]; [|by left].
    intros a [?| ->%list_elem_of_singleton]%elem_of_app; [by left|right].
    exists record, ip. split; [by left|]. split; [done|]. split; [done|]. by left.
  - eapply Hstep; [exact E| |by left]. destruct (Z.eqb_spec kind TypeAAAA) as [->|]; [|by left].
    intros a [?| ->%list_elem_of_singleton]%elem_of_app; [by left|right].
    exists record, ip. split; [by left|]. split; [done|]. split; [done|]. by right.
  - eapply Hstep; [exact E|by left|right]. exists record, target. split; [by left|done].
  - eapply Hstep; [exact E|by left|by left].
Qed.

(** ** Following aliases *)

Lemma present_name answer alias :
  present answer alias = true -> ToLower alias = alias ->
  alias ∈ map (fun record => fold_case (rr_Name record)) answer.
Proof.
  intros (record & Hin & He)%existsb_exists Hl. apply list_elem_of_fmap. exists record.
  split; [|by apply list_elem_of_In]. apply String.eqb_eq in He. congruence.
Qed.

Lemma chase_ends fuel answer kind name seen :
  unseen seen (map (fun record => fold_case (rr_Name record)) answer) < fuel ->
  chase Fqdn fuel answer kind name seen <> None.
Proof.
  revert name seen. induction fuel as [|fuel IH]; intros name seen Hf; [lia|]. cbn.
  destruct (records answer name kind [] "") as [addresses alias] eqn:E.
  destruct (_ || String.eqb alias "") eqn:Hstop; [done|]. case_bool_decide as Hs; [done|].
  destruct (present answer alias) eqn:Hp; [|done]. apply IH.
  destruct (records_spec _ _ _ _ _ _ _ E) as [_ Hal]. split_bools.
  destruct Hal as [->|(r & target & _ & _ & _ & ->)]; [done|].
  pose proof (unseen_lt _ _ _ (present_name _ _ Hp (ToLower_ToLower _)) Hs). lia.
Qed.

(** The names the host stands for, by the answers that were given. *)
Definition responseOf (e : exchange) : result Msg gerr :=
  match ex_udp e with
  | Err err => Err err
  | Ok response => if ms_Truncated response then ex_tcp e else Ok response
  end.

Inductive aliasOf (env : nat -> exchange) (host : string) : string -> Prop :=
| alias_host : aliasOf env host (ToLower (Fqdn host))
| alias_step name round response record target :
    aliasOf env host name -> responseOf (env round) = Ok response -> record ∈ ms_Answer response ->
    EqualFold (rr_Name record) name = true -> rr_Data record = RCNAME target ->
    aliasOf env host (ToLower (Fqdn target)).

(** Addresses of a response for a name of the host. *)
Definition answered (env : nat -> exchange) (host : string) (kind : Z) (addresses : list IPAddr) : Prop :=
  exists round response name, responseOf (env round) = Ok response /\
    ms_Rcode response = RcodeSuccess /\ aliasOf env host name /\
    forall a, a ∈ addresses -> carries kind (ms_Answer response) name a.

Lemma chase_sound fuel env host round response kind name seen res :
  responseOf (env round) = Ok response -> aliasOf env host name ->
  chase Fqdn fuel (ms_Answer response) kind name seen = Some res ->
  match res with
  | Answered addresses => exists name', aliasOf env host name' /\
      forall a, a ∈ addresses -> carries kind (ms_Answer response) name' a
  | AliasLoop _ => True
  | AskFor alias _ => aliasOf env host alias
  end.
Proof.
  intros Hr. revert name seen. induction fuel as [|fuel IH]; intros name seen Hname; cbn; [done|].
  destruct (records (ms_Answer response) name kind [] "") as [addresses alias] eqn:E.
  destruct (records_spec _ _ _ _ _ _ _ E) as [Ha Hal].
  destruct (_ || String.eqb alias "") eqn:Hstop.
  { intros [= <-]. exists name. split; [done|]. intros a Hin.
    destruct (Ha a Hin) as [?%not_elem_of_nil|?]; done. }
  split_bools. assert (aliasOf env host alias) as Halias.
  { destruct Hal as [->|(r & target & H1 & H2 & H3 & ->)]; [done|]. by eapply alias_step. }
  case_bool_decide; [by intros [= <-]|]. destruct (present _ alias); [by apply IH|by intros [= <-]].
Qed.

Lemma queryRounds_spec fuel round host server kind env name seen :
  aliasOf env host name ->
  match queryRounds Fqdn fuel round host server kind env name seen with
  | Some (Ok addresses) => answered env host kind addresses
  | Some (Err _) => True
  | None => forall j, round <= j < round + fuel -> exists m, responseOf (env j) = Ok m
  end.
Proof.
  revert round name seen. induction fuel as [|fuel IH]; intros round name seen Hname; cbn; [intros; lia|].
  case_bool_decide; [done|].
  destruct (ex_udp (env round)) as [m0|e0] eqn:Hudp; [|done].
  assert (responseOf (env round) = (if ms_Truncated m0 then ex_tcp (env round) else Ok m0)) as Hresp
    by (unfold responseOf; by rewrite Hudp).
  destruct (if ms_Truncated m0 then _ else _) as [m|e]; [|done].
  destruct (Z.eqb_spec (ms_Rcode m) RcodeNameError); [done|].
  destruct (Z.eqb_spec (ms_Rcode m) RcodeSuccess) as [Hok|]; cbn [negb]; [|done].
  destruct (chase Fqdn _ _ _ _ _) as [res|] eqn:Hc.
  2:{ exfalso. eapply chase_ends; [|exact Hc]. unfold chaseFuel.
      pose proof (unseen_le (name :: seen) (map (fun record => fold_case (rr_Name record)) (ms_Answer m))) as Hle.
      rewrite length_map in Hle. lia. }
  pose proof (chase_sound _ _ _ _ _ _ _ _ _ Hresp Hname Hc) as Hs.
  destruct res as [addresses|alias|alias seen']; [|done|].
  - destruct Hs as (name' & H1 & H2). by exists round, m, name'.
  - specialize (IH (S round) alias seen' Hs). destruct (queryRounds Fqdn fuel _ _ _ _ _ _ _) as [[]|]; [done|done|].
    intros j Hj. destruct (decide (j = round)) as [->|]; [by exists m|apply IH; lia].
Qed.
End wire.

(** C25: Asking a captured server ends: one response is searched to its end
    whatever aliases it holds, and once the context ends an exchange no further
    question is sent. What it returns are addresses of the asked family from
    records of a successful response, for the host itself or a name its aliases
    lead to; and the race of the servers returns, without an error, only
    addresses that some server answered. *)
Theorem captured_lookup_answers_for_the_host (Fqdn : string -> string) (host server : string) (kind : Z)
    (env : nat -> exchange) :
  (forall n e, responseOf (env n) = Err e -> queryCapturedDNSServer Fqdn (S n) host server kind env <> None) /\
  (forall fuel addresses, queryCapturedDNSServer Fqdn fuel host server kind env = Some (Ok addresses) ->
    answered Fqdn env host kind addresses) /\
  (forall ctxErr servers toASCII first second ctxErr1 addresses,
    resolveCapturedDNSServers ctxErr servers toASCII host first second ctxErr1 = Ok addresses ->
    addresses <> [] /\ forall a, a ∈ addresses ->
      exists srv reply, (srv, Ok reply) ∈ first.2 ++ second.2 /\ a ∈ reply).
Proof.
  split_and!.
  - intros n e He Hn. pose proof (queryRounds_spec Fqdn (S n) 0 host server kind env _ [] (alias_host Fqdn env host)) as H.
    unfold queryCapturedDNSServer in Hn. rewrite Hn in H. destruct (H n) as [m Hm]; [lia|congruence].
  - intros fuel addresses E.
    pose proof (queryRounds_spec Fqdn fuel 0 host server kind env _ [] (alias_host Fqdn env host)) as H.
    unfold queryCapturedDNSServer in E. by rewrite E in H.
  - assert (forall k replies failures a, a ∈ (familyReply host k replies failures).1 ->
      exists srv reply, (srv, Ok reply) ∈ replies /\ a ∈ reply) as Hf.
    { intros k replies. induction replies as [|[srv [reply|[h s|e]]] replies IH]; intros failures a; cbn;
        try (by intros ?%not_elem_of_nil).
      - intros Ha. exists srv, reply. split; [by left|done].
      - intros Ha. destruct (IH _ _ Ha) as (s' & r' & H1 & H2). exists s', r'. split; [by right|done]. }
    intros ctxErr servers toASCII first second ctxErr1 addresses. unfold resolveCapturedDNSServers.
    destruct ctxErr; [done|]. destruct (Nat.eqb servers 0); [done|]. destruct toASCII; [done|].
    pose proof (Hf first.1 first.2 []) as H1. pose proof (Hf second.1 second.2 []) as H2.
    destruct (familyReply host first.1 first.2 []) as [a1 e1], (familyReply host second.1 second.2 []) as [a2 e2].
    cbn in H1, H2. destruct ctxErr1; [done|].
    assert (forall a, a ∈ a1 ++ a2 -> exists srv reply, (srv, Ok reply) ∈ first.2 ++ second.2 /\ a ∈ reply) as H.
    { intros a [Ha|Ha]%elem_of_app; [destruct (H1 a Ha) as (s & r & ? & ?)|destruct (H2 a Ha) as (s & r & ? & ?)];
        exists s, r; (split; [|done]); apply elem_of_app; [by left|by right]. }
    destruct (a1 ++ a2) as [|x l] eqn:E; [done|]. intros [= <-]. split; [done|exact H].
Qed.
