(* ===== verification/Dialing.v ===== *)
(** * Protected dialing (core/tunnel/protected_dialer/scope.go, dialer.go)

    Every transport socket is excluded from the tunnel before it is used.  The
    scopes of attempts, the process-wide platform protector and the dials in
    progress are one state; a dial is cut at the callback that protects its
    socket and at the connect that follows, so scopes may retire in between.
    [n_trace] records, newest first, what was asked of the permissions' owner
    and the platform and which sockets were used.  Numeric addresses are read
    by [ParseAddr] and [ParseIP], printed by [IPString]; a descriptor is a
    number that is fresh for every socket. *)

From S2P Require Import Prelude Errors GoStrings Bypass Dns.
From Stdlib Require Import Ascii.
Local Open Scope string_scope.
Local Open Scope list_scope.

(** ** Addresses *)

Fixpoint index_byte (c : Ascii.ascii) (s : string) : option nat :=
  match s with
  | EmptyString => None
  | String a s => if Ascii.eqb a c then Some 0 else S <$> index_byte c s
  end.

Fixpoint last_index_byte (c : Ascii.ascii) (s : string) : option nat :=
  match s with
  | EmptyString => None
  | String a s =>
      match last_index_byte c s with
      | Some i => Some (S i)
      | None => if Ascii.eqb a c then Some 0 else None
      end
  end.

Definition has_byte (c : Ascii.ascii) (s : string) : bool :=
  match index_byte c s with Some _ => true | None => false end.

(** [net.SplitHostPort], [net.JoinHostPort]. *)
Definition addrError (text hostport : string) : gerr :=
  EText ("address " +:+ hostport +:+ ": " +:+ text).

Definition SplitHostPort (hostport : string) : result (string * string) gerr :=
  match last_index_byte ":"%char hostport with
  | None => Err (addrError "missing port in address" hostport)
  | Some i =>
      let port := drop_bytes (S i) hostport in
      let checked host j k :=
        if has_byte "["%char (drop_bytes j hostport)
        then Err (addrError "unexpected '[' in address" hostport)
        else if has_byte "]"%char (drop_bytes k hostport)
        then Err (addrError "unexpected ']' in address" hostport)
        else Ok (host, port) in
      if has_prefix "[" hostport then
        match index_byte "]"%char hostport with
        | None => Err (addrError "missing ']' in address" hostport)
        | Some e =>
            if Nat.eqb (S e) (String.length hostport)
            then Err (addrError "missing port in address" hostport)
            else if Nat.eqb (S e) i
            then checked (take_bytes (e - 1) (drop_bytes 1 hostport)) 1 (S e)
            else if has_prefix ":" (drop_bytes (S e) hostport)
            then Err (addrError "too many colons in address" hostport)
            else Err (addrError "missing port in address" hostport)
        end
      else
        let host := take_bytes i hostport in
        if has_byte ":"%char host then Err (addrError "too many colons in address" hostport)
        else checked host 0 0
  end.

Definition JoinHostPort (host port : string) : string :=
  if has_byte ":"%char host then "[" +:+ host +:+ "]:" +:+ port else host +:+ ":" +:+ port.

(** [net.IP.IsLoopback]; [netip.Addr.Is6] and [Is4In6]. *)
Definition IsLoopback (ip : IP) : bool :=
  match To4 ip with
  | Some (a :: _) => (a =? 127)%Z
  | Some [] => false
  | None => bool_decide (ip = replicate 15 0%Z ++ [1%Z])
  end.

Definition Is6 (ip : IP) : bool := Nat.eqb (length ip) 16.
Definition Is4In6 (ip : IP) : bool := Is6 ip && bool_decide (take 12 ip = v4InV6Prefix).

Inductive transport := TCP | UDP.

Record sockNetwork := mkNetwork { sn_transport : transport; sn_v6 : bool }.

#[export] Instance transport_eq_dec : EqDecision transport.
Proof. solve_decision. Defined.
#[export] Instance sockNetwork_eq_dec : EqDecision sockNetwork.
Proof. solve_decision. Defined.

Definition networkName (n : sockNetwork) : string :=
  match sn_transport n, sn_v6 n with
  | TCP, false => "tcp4" | TCP, true => "tcp6" | UDP, false => "udp4" | UDP, true => "udp6"
  end.

(** ** Scopes *)

(** [sc_err] is the error of the scope's context; [sc_permissions] the owner
    captured when the scope was made, named by a number; [sc_protect] says a
    protect callback was given. *)
Record scope := mkScope {
  sc_err : option gerr;
  sc_generation : Z;
  sc_protect : bool;
  sc_permissions : option nat;
  sc_closed : bool
}.
#[export] Instance eta_scope : Settable scope := fun x =>
  mkScope (sc_err x) (sc_generation x) (sc_protect x) (sc_permissions x) (sc_closed x).

(** What is asked of the environment, with whether it agreed; [Used] is a
    connect, or a packet socket handed out for one destination. *)
Inductive netEvent :=
| Authorized (scope owner : nat) (generation : Z) (network : sockNetwork) (address : string) (ok : bool)
| Protected (scope : option nat) (fd : Z) (ok : bool)
| Retired (scope owner : nat) (generation : Z) (ok : bool)
| ScopeClosed (scope : nat)
| Used (scope : option nat) (fd : Z) (network : sockNetwork) (address : string).

Inductive dialKind := DialTCP | DialUDPConn | DialUDPPacket.

#[export] Instance dialKind_eq_dec : EqDecision dialKind.
Proof. solve_decision. Defined.

(** A dial about to try its next address, with a socket that may be used, or
    returned: [Err None] is a nil connection with a nil error. *)
Inductive dialing :=
| Trying (kind : dialKind) (scope : option nat) (rest : list string) (failures : list (option gerr))
| Connecting (kind : dialKind) (scope : option nat) (fd : Z) (address : string) (rest : list string)
    (failures : list (option gerr))
| Dialed (res : result Z (option gerr)).

Record netState := mkNet {
  n_owner : option nat;
  n_protector : bool;
  n_scopes : gmap nat scope;
  n_dials : gmap nat dialing;
  n_nextFD : Z;
  n_trace : list netEvent
}.
#[export] Instance eta_netState : Settable netState := fun x =>
  mkNet (n_owner x) (n_protector x) (n_scopes x) (n_dials x) (n_nextFD x) (n_trace x).

Definition newNetwork (protector : bool) : netState := mkNet None protector ∅ ∅ 0 [].

Definition tell (ev : netEvent) (n : netState) : netState := n <| n_trace ::= cons ev |>.

Definition set_scope (id : nat) (s : scope) (n : netState) : netState := n <| n_scopes ::= <[id := s]> |>.

Definition set_dialing (id : nat) (d : dialing) (n : netState) : netState := n <| n_dials ::= <[id := d]> |>.

Definition SetDestinationPermissions (owner : option nat) (n : netState) : netState := n <| n_owner := owner |>.

Definition NewSocketScope (id : nat) (parentErr : option gerr) (generation : Z) (protect : bool)
    (n : netState) : netState :=
  match n_scopes n !! id with
  | Some _ => n
  | None => set_scope id (mkScope parentErr generation protect (n_owner n) false) n
  end.

(** The context of a scope ends, by its own [cancel] or with its parent. *)
Definition cancelScope (err : gerr) (s : scope) : scope :=
  match sc_err s with None => s <| sc_err := Some err |> | Some _ => s end.

Definition agreed (err : option gerr) : bool := match err with None => true | Some _ => false end.

(** [Close] of a scope; [retire] is what [permissions.Retire] answers. *)
Definition CloseScope (id : nat) (retire : option gerr) (n : netState) : netState * option gerr :=
  match n_scopes n !! id with
  | None => (n, None)
  | Some s =>
      let s := cancelScope (ESent CtxCanceled) s in
      let n := set_scope id s n in
      if sc_closed s then (n, None)
      else
        let '(n, err) :=
          match sc_permissions s with
          | Some owner => (tell (Retired id owner (sc_generation s) (agreed retire)) n, retire)
          | None => (n, None)
          end in
        match err with
        | Some err => (n, Some err)
        | None => (tell (ScopeClosed id) (set_scope id (s <| sc_closed := true |>) n), None)
        end
  end.

(** [withSocketScope]: the owner's scope, if it carries one. *)
Definition withSocketScope (ctx owner : option nat) : option nat :=
  match owner with Some s => Some s | None => ctx end.

Definition ErrSocketProtectionUnavailable : gerr := EText "socket protection unavailable".

Definition MaxInt : Z := 2 ^ 63 - 1.

(** What the owner of the permissions, the protect callback or the platform,
    and [syscall.RawConn.Control] answer. *)
Record protection := mkProtection {
  pr_authorize : option gerr;
  pr_protect : option gerr;
  pr_control : option gerr
}.

Section dialing.
Context (ParseAddr : string -> option IPAddr) (ParseIP : string -> option IP) (IPString : IPAddr -> string).

Definition isLoopback (address : string) : bool :=
  match SplitHostPort address with
  | Err _ => false
  | Ok (host, _) => match ParseIP host with Some ip => IsLoopback ip | None => false end
  end.

(** [normalizeTCP] and [normalizeUDP]: a host that cannot be read is IPv4. *)
Definition normalize (t : transport) (address : string) : sockNetwork :=
  let host := match SplitHostPort address with Ok (host, _) => host | Err _ => "" end in
  mkNetwork t (match ParseAddr host with Some (ip, _) => Is6 ip && negb (Is4In6 ip) | None => false end).

Definition protectPlatformFD (fd : Z) (network : sockNetwork) (address : string) (r : protection)
    (n : netState) : netState * option gerr :=
  if isLoopback address then (n, None)
  else if negb (n_protector n) then (n, Some ErrSocketProtectionUnavailable)
  else
    (tell (Protected None fd (agreed (pr_protect r))) n,
     match pr_protect r with
     | Some err => Some (EWrap ("socket protection unavailable: network=" +:+ networkName network +:+
                                " destination=" +:+ address) err)
     | None => None
     end).

(** The permissions' owner, if there is one, authorizes the destination. *)
Definition authorize (id : nat) (s : scope) (network : sockNetwork) (address : string)
    (r : protection) (n : netState) : netState * option gerr :=
  match sc_permissions s with
  | Some owner =>
      (tell (Authorized id owner (sc_generation s) network address (agreed (pr_authorize r))) n,
       pr_authorize r)
  | None => (n, None)
  end.

(** [protectFD] of the scope [s]; [ctxErr] is the error of the caller's context. *)
Definition protectFD (id : nat) (s : scope) (ctxErr : option gerr) (fd : Z) (network : sockNetwork)
    (address : string) (r : protection) (n : netState) : netState * option gerr :=
  if sc_closed s then (n, Some (EText "socket attempt is retired"))
  else match join [ctxErr; sc_err s] with
  | Some err => (n, Some err)
  | None =>
      if isLoopback address then (n, None)
      else
        let '(n, err) := authorize id s network address r n in
        match err with
        | Some err => (n, Some err)
        | None =>
            if sc_protect s then
              if (MaxInt <? fd)%Z then (n, Some (EText "socket descriptor overflows int"))
              else (tell (Protected (Some id) fd (agreed (pr_protect r))) n, pr_protect r)
            else protectPlatformFD fd network address r n
        end
  end.

Definition protectContextFD (scope : option nat) (ctxErr : option gerr) (fd : Z) (network : sockNetwork)
    (address : string) (r : protection) (n : netState) : netState * option gerr :=
  match ctxErr with
  | Some err => (n, Some err)
  | None =>
      match scope with
      | Some id =>
          match n_scopes n !! id with
          | Some s => protectFD id s ctxErr fd network address r n
          | None => (n, Some (EText "no such scope"))
          end
      | None => protectPlatformFD fd network address r n
      end
  end.

Definition ProtectRawConnContext (scope : option nat) (ctxErr : option gerr) (fd : Z)
    (network : sockNetwork) (address : string) (r : protection) (n : netState) :
    netState * option gerr :=
  match pr_control r with
  | Some err => (n, Some err)
  | None => protectContextFD scope ctxErr fd network address r n
  end.

(** ** Dials *)

(** [ResolveAddresses] of the cache is [resolve]; [None] is a nil cache. *)
Definition resolvedDialAddresses (resolve : option (string -> result (list IPAddr) gerr))
    (address : string) : result (list string) gerr :=
  match resolve with
  | None => Err (EText "DNS resolver is required for protected dialing")
  | Some resolve =>
      match SplitHostPort address with
      | Err err => Err err
      | Ok (host, port) =>
          match resolve host with
          | Err err => Err err
          | Ok addresses => Ok (map (fun ip => JoinHostPort (IPString ip) port) addresses)
          end
      end
  end.

Definition transportOf (kind : dialKind) : transport :=
  match kind with DialTCP => TCP | DialUDPConn | DialUDPPacket => UDP end.

Definition listenAddr (network : sockNetwork) : string :=
  if bool_decide (network = mkNetwork UDP true) then "[::]:0" else "0.0.0.0:0".

(** How [net.Dialer] and [net.ListenConfig] report an error of [Control]. *)
Definition controlError (kind : dialKind) (network : sockNetwork) (address : string) (err : gerr) : gerr :=
  match kind with
  | DialTCP | DialUDPConn => EWrap ("dial " +:+ networkName network +:+ " " +:+ address) err
  | DialUDPPacket => EWrap ("listen " +:+ networkName network +:+ " " +:+ listenAddr network) err
  end.

(** One address failed: try the next unless the context ended. *)
Definition dial_next (kind : dialKind) (scope : option nat) (rest : list string)
    (failures : list (option gerr)) (ctxErr : option gerr) : dialing :=
  match ctxErr, rest with
  | None, _ :: _ => Trying kind scope rest failures
  | _, _ => Dialed (Err (join failures))
  end.

(** The loop over the addresses of the lookup. *)
Definition dial_first (kind : dialKind) (scope : option nat) (addresses : result (list string) gerr) :
    dialing :=
  match addresses with
  | Err err => Dialed (Err (Some err))
  | Ok addresses => dial_next kind scope addresses [] None
  end.

Section dials.
Context (resolve : option (string -> result (list IPAddr) gerr)).

Definition DialContextWithProtect (scope : option nat) (address : string) : dialing :=
  dial_first DialTCP scope (resolvedDialAddresses resolve address).

Definition DialUDPConnWithProtect (scope : option nat) (address : string) : dialing :=
  dial_first DialUDPConn scope (resolvedDialAddresses resolve address).

Definition DialUDPWithProtect (scope : option nat) (address : string) : dialing :=
  dial_first DialUDPPacket scope (resolvedDialAddresses resolve address).

Definition dial_begins (kind : dialKind) (scope : option nat) (address : string) : dialing :=
  match kind with
  | DialTCP => DialContextWithProtect scope address
  | DialUDPConn => DialUDPConnWithProtect scope address
  | DialUDPPacket => DialUDPWithProtect scope address
  end.
End dials.

Section control.
Context (scope : option nat) (rest : list string) (failures : list (option gerr)).
Context (ctxErr ctxErrAfter : option gerr) (r : protection).

(** The socket [fd] was created and its [Control] callback runs. *)
Definition controlled (kind : dialKind) (address : string) (fd : Z) (n : netState) :
    netState * dialing :=
  let network := normalize (transportOf kind) address in
  let '(n, err) := ProtectRawConnContext scope ctxErr fd network address r n in
  match err with
  | None => (n, Connecting kind scope fd address rest failures)
  | Some err =>
      (n, dial_next kind scope rest (failures ++ [Some (controlError kind network address err)])
            ctxErrAfter)
  end.

(** A loopback destination is dialed with no callback. *)
Definition dialResolvedTCP (address : string) (fd : Z) (n : netState) : netState * dialing :=
  if isLoopback address then (n, Connecting DialTCP scope fd address rest failures)
  else controlled DialTCP address fd n.

(** The dialer reports the numeric address it was given to the callback. *)
Definition dialResolvedUDPConn (address : string) (fd : Z) (n : netState) : netState * dialing :=
  controlled DialUDPConn address fd n.

Definition dialResolvedUDPPacket (address : string) (fd : Z) (n : netState) : netState * dialing :=
  if isLoopback address then (n, Connecting DialUDPPacket scope fd address rest failures)
  else controlled DialUDPPacket address fd n.

Definition dial_control (kind : dialKind) (address : string) (n : netState) : netState * dialing :=
  let fd := n_nextFD n in
  let n := n <| n_nextFD ::= fun fd => (fd + 1)%Z |> in
  match kind with
  | DialTCP => dialResolvedTCP address fd n
  | DialUDPConn => dialResolvedUDPConn address fd n
  | DialUDPPacket => dialResolvedUDPPacket address fd n
  end.
End control.

(** The connect, or the packet socket bound to its destination. *)
Definition dial_connect (kind : dialKind) (scope : option nat) (fd : Z) (address : string)
    (rest : list string) (failures : list (option gerr)) (err ctxErrAfter : option gerr)
    (n : netState) : netState * dialing :=
  (tell (Used scope fd (normalize (transportOf kind) address) address) n,
   match err with
   | None => Dialed (Ok fd)
   | Some err => dial_next kind scope rest (failures ++ [Some err]) ctxErrAfter
   end).

(** ** All of them together *)

Inductive netOp :=
| OSetPermissions (owner : option nat)
| ONewScope (id : nat) (parentErr : option gerr) (generation : Z) (protect : bool)
| OCancelScope (id : nat) (err : gerr)
| OCloseScope (id : nat) (retire : option gerr)
| ODial (id : nat) (kind : dialKind) (scope : option nat)
    (resolve : option (string -> result (list IPAddr) gerr)) (address : string)
| OControl (id : nat) (ctxErr ctxErrAfter : option gerr) (r : protection)
| ORefused (id : nat) (err : gerr) (ctxErrAfter : option gerr)
| OConnect (id : nat) (err ctxErrAfter : option gerr)
| OProtect (scope : option nat) (ctxErr : option gerr) (fd : Z) (network : sockNetwork)
    (address : string) (r : protection).

(** An operation that does not fit the state changes nothing: a context carries
    only scopes that were made, and a native descriptor is not a dial's. *)
Definition net_step (op : netOp) (n : netState) : netState :=
  match op with
  | OSetPermissions owner => SetDestinationPermissions owner n
  | ONewScope id parentErr generation protect => NewSocketScope id parentErr generation protect n
  | OCancelScope id err =>
      match n_scopes n !! id with Some s => set_scope id (cancelScope err s) n | None => n end
  | OCloseScope id retire => (CloseScope id retire n).1
  | ODial id kind scope resolve address =>
      match n_dials n !! id, scope with
      | None, Some s =>
          match n_scopes n !! s with
          | Some _ => set_dialing id (dial_begins resolve kind scope address) n
          | None => n
          end
      | None, None => set_dialing id (dial_begins resolve kind scope address) n
      | Some _, _ => n
      end
  | OControl id ctxErr ctxErrAfter r =>
      match n_dials n !! id with
      | Some (Trying kind scope (address :: rest) failures) =>
          let '(n, d) := dial_control scope rest failures ctxErr ctxErrAfter r kind address n in
          set_dialing id d n
      | _ => n
      end
  | ORefused id err ctxErrAfter =>
      match n_dials n !! id with
      | Some (Trying kind scope (_ :: rest) failures) =>
          set_dialing id (dial_next kind scope rest (failures ++ [Some err]) ctxErrAfter) n
      | _ => n
      end
  | OConnect id err ctxErrAfter =>
      match n_dials n !! id with
      | Some (Connecting kind scope fd address rest failures) =>
          let '(n, d) := dial_connect kind scope fd address rest failures err ctxErrAfter n in
          set_dialing id d n
      | _ => n
      end
  | OProtect scope ctxErr fd network address r =>
      if (0 <=? fd)%Z && (fd <? n_nextFD n)%Z then n
      else (protectContextFD scope ctxErr fd network address r n).1
  end.

Definition net_run (ops : list netOp) (n : netState) : netState :=
  fold_left (fun n op => net_step op n) ops n.

(** ** Descriptors of native libraries *)

(** The Linux values. *)
Definition AF_INET : Z := 2.
Definition AF_INET6 : Z := 10.
Definition SOCK_STREAM : Z := 1.
Definition SOCK_DGRAM : Z := 2.

Definition socketNetwork (family socketType : Z) : result sockNetwork gerr :=
  let typed v6 :=
    if (socketType =? SOCK_STREAM)%Z then Ok (mkNetwork TCP v6)
    else if (socketType =? SOCK_DGRAM)%Z then Ok (mkNetwork UDP v6)
    else Err (EText ("unsupported socket type " +:+ Itoa socketType +:+ " for family " +:+ Itoa family)) in
  if (family =? AF_INET)%Z then typed false
  else if (family =? AF_INET6)%Z then typed true
  else Err (EText ("unsupported socket family " +:+ Itoa family)).

(** [ip.Unmap().Is4()] *)
Definition Is4 (ip : IP) : bool := match To4 ip with Some _ => true | None => false end.

Context (ParseAddrPort : string -> result IPAddr gerr).

Definition destinationIP (address : string) : result IP gerr :=
  match ParseAddr address with
  | Some (ip, _) => Ok ip
  | None =>
      match ParseAddrPort address with
      | Ok (ip, _) => Ok ip
      | Err err => Err (EWrap ("native socket destination is not numeric: " +:+ quoted address) err)
      end
  end.

Fixpoint matchingDestinations (ipv4 : bool) (addresses : list string) : result (list string) gerr :=
  match addresses with
  | [] => Ok []
  | address :: rest =>
      match destinationIP address with
      | Err err => Err err
      | Ok ip =>
          match matchingDestinations ipv4 rest with
          | Err err => Err err
          | Ok matching => Ok (if Bool.eqb (Is4 ip) ipv4 then address :: matching else matching)
          end
      end
  end.

(** The contexts and answers of the calls, in order. *)
Fixpoint protectAll (scope : option nat) (fd : Z) (network : sockNetwork) (addresses : list string)
    (rs : list (option gerr * protection)) (n : netState) : netState * option gerr :=
  match addresses, rs with
  | [], _ => (n, None)
  | address :: addresses, (ctxErr, r) :: rs =>
      match protectContextFD scope ctxErr fd network address r n with
      | (n, Some err) => (n, Some err)
      | (n, None) => protectAll scope fd network addresses rs n
      end
  | _ :: _, [] => (n, Some (EText "no answer"))
  end.

Definition ProtectSocketDestinations (scope : option nat) (ctxErr : option gerr) (fd : Z)
    (descriptor : result sockNetwork gerr) (addresses : list string)
    (rs : list (option gerr * protection)) (n : netState) : netState * option gerr :=
  match ctxErr with
  | Some err => (n, Some err)
  | None =>
      match descriptor with
      | Err err => (n, Some err)
      | Ok network =>
          match addresses with
          | [] => (n, Some (EText "native socket has no authorized destinations"))
          | _ =>
              match matchingDestinations (negb (sn_v6 network)) addresses with
              | Err err => (n, Some err)
              | Ok [] => (n, Some (EText ("native socket has no " +:+ networkName network +:+
                                          " destination among [" +:+ String.concat " " addresses +:+ "]")))
              | Ok matching => protectAll scope fd network matching rs n
              end
          end
      end
  end.

Definition ProtectSocketIntErr (fd : Z) (descriptor : result sockNetwork gerr) (r : protection)
    (n : netState) : netState * option gerr :=
  if (fd <? 0)%Z then
    (n, Some (EWrap "socket protection unavailable" (EText ("invalid socket descriptor " +:+ Itoa fd))))
  else
    match descriptor with
    | Err err => (n, Some (EWrap ("socket protection unavailable: inspect external socket fd=" +:+ Itoa fd) err))
    | Ok network => protectPlatformFD fd network "external-socket" r n
    end.
End dialing.
