(* ===== verification/DialingTheorems.v ===== *)
(** * What protected dialing guarantees

    No socket is used outside the tunnel before the platform let it, and a
    retired scope asks for nothing any more. *)

From S2P Require Import Prelude Errors GoStrings Bypass Dns Dialing.
Local Open Scope string_scope.
Local Open Scope list_scope.

(** What never changes about a scope. *)
Record identity := mkIdentity { id_generation : Z; id_protect : bool; id_permissions : option nat }.

Definition identityOf (s : scope) : identity :=
  mkIdentity (sc_generation s) (sc_protect s) (sc_permissions s).

Definition identities (n : netState) : gmap nat identity := identityOf <$> n_scopes n.

Section theorems.
Context (ParseAddr : string -> option IPAddr) (ParseIP : string -> option IP).
Context (IPString : IPAddr -> string).

(** [past] holds what must come before a socket of [scope] is used for
    [address]: nothing for a loopback destination; otherwise the agreement of
    the platform or the attempt's callback for this socket and, if the scope
    has permissions, of their owner for this destination and generation. *)
Definition cleared (ids : gmap nat identity) (past : list netEvent) (scope : option nat) (fd : Z)
    (network : sockNetwork) (address : string) : Prop :=
  isLoopback ParseIP address = true \/
  match scope with
  | None => (Protected None fd true) ∈ past
  | Some id => exists i, ids !! id = Some i /\
      (forall owner, id_permissions i = Some owner ->
         (Authorized id owner (id_generation i) network address true) ∈ past) /\
      (Protected (if id_protect i then Some id else None) fd true) ∈ past
  end.

Definition event_ok (ids : gmap nat identity) (ev : netEvent) (past : list netEvent) : Prop :=
  match ev with
  | Used scope fd network address => cleared ids past scope fd network address
  | Authorized id _ _ _ _ _ | Protected (Some id) _ _ | Retired id _ _ _ => ScopeClosed id ∉ past
  | Protected None _ _ => True
  | ScopeClosed id => (ScopeClosed id ∉ past) /\ exists i, ids !! id = Some i /\
      forall owner, id_permissions i = Some owner -> (Retired id owner (id_generation i) true) ∈ past
  end.

Fixpoint grounded (ids : gmap nat identity) (trace : list netEvent) : Prop :=
  match trace with
  | [] => True
  | ev :: past => event_ok ids ev past /\ grounded ids past
  end.

Record NInv (n : netState) : Prop := mkNInv {
  ni_trace : grounded (identities n) (n_trace n);
  ni_closed : forall id, ScopeClosed id ∈ n_trace n ->
    exists s, n_scopes n !! id = Some s /\ sc_closed s = true;
  ni_dials : forall id kind scope fd address rest failures,
    n_dials n !! id = Some (Connecting kind scope fd address rest failures) ->
    cleared (identities n) (n_trace n) scope fd (normalize ParseAddr (transportOf kind) address) address
}.

(** ** Growing *)

Lemma cleared_mono ids ids' past past' scope fd network address :
  ids ⊆ ids' -> past ⊆ past' -> cleared ids past scope fd network address ->
  cleared ids' past' scope fd network address.
Proof.
  intros Hi Hp [?|H]; [by left|right]. destruct scope as [id|]; [|by apply Hp].
  destruct H as (i & H1 & H2 & H3). exists i. split_and!; [by eapply lookup_weaken|..]; auto.
Qed.

Lemma grounded_mono ids ids' trace : ids ⊆ ids' -> grounded ids trace -> grounded ids' trace.
Proof.
  intros Hi. induction trace as [|ev past IH]; [done|]. intros [He Hp]. split; [|by apply IH].
  destruct ev as [| [] | | |]; try done.
  - destruct He as (? & i & Hl & Hr). split; [done|]. exists i. split; [by eapply lookup_weaken|done].
  - by eapply cleared_mono.
Qed.

(** The scopes keep their identities, the trace grows. *)
Record extends (n n' : netState) (new : list netEvent) : Prop := mkExtends {
  ex_trace : n_trace n' = new ++ n_trace n;
  ex_ids : identities n ⊆ identities n';
  ex_dials : n_dials n' = n_dials n;
  ex_closed : forall id s, n_scopes n !! id = Some s -> sc_closed s = true ->
    exists s', n_scopes n' !! id = Some s' /\ sc_closed s' = true
}.

Lemma NInv_extends n n' new :
  NInv n -> extends n n' new -> grounded (identities n') (new ++ n_trace n) ->
  (forall id, ScopeClosed id ∈ new -> exists s, n_scopes n' !! id = Some s /\ sc_closed s = true) ->
  NInv n'.
Proof.
  intros [H1 H2 H3] [E1 E2 E3 E4] Hg Hc. constructor.
  - by rewrite E1.
  - intros id. rewrite E1. intros [Hin|Hin]%elem_of_app; [by apply Hc|].
    destruct (H2 id Hin) as (s & Hs & Hcl). by eapply E4.
  - intros id kind scope fd address rest failures. rewrite E3, E1. intros Hd.
    eapply cleared_mono; [exact E2| |by eapply H3]. set_solver.
Qed.

Lemma set_scope_ids id s s' n :
  n_scopes n !! id = Some s -> identityOf s' = identityOf s ->
  identities (set_scope id s' n) = identities n.
Proof.
  intros Hs He. unfold identities, set_scope. cbn. rewrite fmap_insert. apply insert_id.
  by rewrite lookup_fmap, Hs, He.
Qed.

Lemma extends_refl n : extends n n [].
Proof. constructor; try done. intros id s Hs Hc. by exists s. Qed.

Lemma extends_tell n ev : extends n (tell ev n) [ev].
Proof. constructor; try done. intros id s Hs Hc. by exists s. Qed.

Lemma extends_trans n1 n2 n3 new new' :
  extends n1 n2 new -> extends n2 n3 new' -> extends n1 n3 (new' ++ new).
Proof.
  intros [A1 A2 A3 A4] [B1 B2 B3 B4]. constructor.
  - by rewrite B1, A1, app_assoc.
  - by transitivity (identities n2).
  - congruence.
  - intros id s Hs Hc. destruct (A4 id s Hs Hc) as (s2 & Hs2 & Hc2). by eapply B4.
Qed.

Lemma extends_set_scope n id s s' :
  n_scopes n !! id = Some s -> identityOf s' = identityOf s ->
  (sc_closed s = true -> sc_closed s' = true) -> extends n (set_scope id s' n) [].
Proof.
  intros Hs He Hc. constructor; try done; [by rewrite (set_scope_ids _ _ _ _ Hs He)|].
  intros id' s1 Hs1 Hc1. cbn. destruct (decide (id' = id)) as [->|Hne].
  - exists s'. rewrite lookup_insert_eq. split; [done|]. apply Hc. congruence.
  - exists s1. by rewrite lookup_insert_ne by done.
Qed.

(** ** Protection *)

(** The events of one protection, and what it cleared. *)
Record guarded (n n' : netState) (err : option gerr) (scope : option nat) (fd : Z)
    (network : sockNetwork) (address : string) (new : list netEvent) : Prop := mkGuarded {
  gu_state : n' = n <| n_trace ::= app new |>;
  gu_grounded : NInv n -> grounded (identities n) (new ++ n_trace n);
  gu_closed : forall id, ScopeClosed id ∉ new;
  gu_cleared : err = None -> cleared (identities n) (n_trace n') scope fd network address
}.

(** What a protection may ask: the platform, or on behalf of an open scope. *)
Definition asks (n : netState) (ev : netEvent) : Prop :=
  match ev with
  | Protected None _ _ => True
  | Protected (Some id) _ _ | Authorized id _ _ _ _ _ =>
      exists s, n_scopes n !! id = Some s /\ sc_closed s = false
  | _ => False
  end.

Lemma not_closed n id s :
  NInv n -> n_scopes n !! id = Some s -> sc_closed s = false -> ScopeClosed id ∉ n_trace n.
Proof. intros Hi Hs Hc Hin. destruct (ni_closed _ Hi id Hin) as (s' & Hs' & Hc'). congruence. Qed.

Lemma told n new : Forall (asks n) new -> NInv n -> grounded (identities n) (new ++ n_trace n).
Proof.
  intros Ha Hi. induction new as [|ev new IH]; [exact (ni_trace _ Hi)|].
  inversion_clear Ha as [|? ? Hev Hnew]. split; [|by apply IH].
  assert (forall id, (exists s, n_scopes n !! id = Some s /\ sc_closed s = false) ->
    ScopeClosed id ∉ new ++ n_trace n) as Hopen.
  { intros id (s & Hs & Hcl) [Hin|Hin]%elem_of_app.
    - eapply Forall_forall in Hnew; [|exact Hin]. done.
    - by eapply not_closed. }
  destruct ev as [| [] | | |]; cbn in *; auto; done.
Qed.

Lemma guarded_asks n n' err scope fd network address new :
  n' = n <| n_trace ::= app new |> -> Forall (asks n) new ->
  (err = None -> cleared (identities n) (new ++ n_trace n) scope fd network address) ->
  guarded n n' err scope fd network address new.
Proof.
  intros -> Ha Hc. constructor; [done|by apply told| |done].
  intros id Hin. eapply Forall_forall in Ha; [|exact Hin]. done.
Qed.

Lemma app_nothing n : n = n <| n_trace ::= app [] |>.
Proof. by destruct n. Qed.

Lemma guarded_nothing n err scope fd network address :
  (err = None -> isLoopback ParseIP address = true) -> guarded n n err scope fd network address [].
Proof.
  intros H. apply guarded_asks; [apply app_nothing|done|]. intros He. left. auto.
Qed.

(** The platform's part, after [before] was told. *)
Lemma protectPlatformFD_spec fd network address r n :
  let '(n', err) := protectPlatformFD ParseIP fd network address r n in
  exists new, n' = n <| n_trace ::= app new |> /\ (new = [] \/ exists ok, new = [Protected None fd ok]) /\
    (err = None -> isLoopback ParseIP address = true \/ new = [Protected None fd true]).
Proof.
  unfold protectPlatformFD. destruct (isLoopback ParseIP address) eqn:Hl.
  { exists []. split; [apply app_nothing|]. by split; left. }
  destruct (n_protector n); cbn [negb]; [|exists []; split; [apply app_nothing|by split; [left|]]].
  exists [Protected None fd (agreed (pr_protect r))]. split; [done|]. split; [right; by eexists|].
  destruct (pr_protect r); [done|by right].
Qed.

Lemma authorize_spec id s network address r n :
  n_scopes n !! id = Some s -> sc_closed s = false ->
  let '(n', err) := authorize id s network address r n in
  exists new, n' = n <| n_trace ::= app new |> /\ Forall (asks n) new /\
    (err = None -> forall owner, sc_permissions s = Some owner ->
       Authorized id owner (sc_generation s) network address true ∈ new).
Proof.
  intros Hs Hc. unfold authorize. destruct (sc_permissions s) as [owner|].
  - eexists [_]. split; [done|]. split; [repeat constructor; by exists s|].
    intros -> owner' [= ->]. by left.
  - exists []. split; [apply app_nothing|done].
Qed.

Lemma protectFD_guarded id s ctxErr fd network address r n :
  n_scopes n !! id = Some s ->
  let '(n', err) := protectFD ParseIP id s ctxErr fd network address r n in
  exists new, guarded n n' err (Some id) fd network address new.
Proof.
  intros Hs. unfold protectFD.
  destruct (sc_closed s) eqn:Hc; [exists []; by apply guarded_nothing|].
  destruct (join [ctxErr; sc_err s]); [exists []; by apply guarded_nothing|].
  destruct (isLoopback ParseIP address) eqn:Hl; [exists []; by apply guarded_nothing|].
  assert (identities n !! id = Some (identityOf s)) as Hid by (unfold identities; by rewrite lookup_fmap, Hs).
  pose proof (authorize_spec id s network address r n Hs Hc) as Ha.
  destruct (authorize id s network address r n) as [n1 err1]. destruct Ha as (auth & -> & Ha & Hauth).
  destruct err1 as [e|]; [exists auth; by apply guarded_asks|]. specialize (Hauth eq_refl).
  destruct (sc_protect s) eqn:Hp.
  - destruct (MaxInt <? fd)%Z; [exists auth; by apply guarded_asks|].
    exists (Protected (Some id) fd (agreed (pr_protect r)) :: auth). apply guarded_asks; [done| |].
    + constructor; [by exists s|done].
    + intros ->. right. exists (identityOf s). split; [done|]. split.
      * intros owner Ho. apply elem_of_app. left. right. by apply Hauth.
      * cbn. rewrite Hp. by left.
  - pose proof (protectPlatformFD_spec fd network address r (n <| n_trace ::= app auth |>)) as Hpl.
    destruct (protectPlatformFD _ _ _ _ _ _) as [n2 err2]. destruct Hpl as (new & -> & Hnew & Hok).
    exists (new ++ auth). apply guarded_asks.
    + destruct n. cbn. by rewrite app_assoc.
    + apply Forall_app. split; [|done]. destruct Hnew as [->|[ok ->]]; by repeat constructor.
    + intros He. destruct (Hok He) as [Hl'| ->]; [congruence|]. right. exists (identityOf s).
      split; [done|]. split; [|cbn; rewrite Hp; by left].
      intros owner Ho. right. apply elem_of_app. left. by apply Hauth.
Qed.

Lemma protectContextFD_guarded scope ctxErr fd network address r n :
  let '(n', err) := protectContextFD ParseIP scope ctxErr fd network address r n in
  exists new, guarded n n' err scope fd network address new.
Proof.
  unfold protectContextFD. destruct ctxErr; [exists []; by apply guarded_nothing|].
  destruct scope as [id|].
  - destruct (n_scopes n !! id) as [s|] eqn:Hs; [by apply protectFD_guarded|].
    exists []. by apply guarded_nothing.
  - pose proof (protectPlatformFD_spec fd network address r n) as Hpl.
    destruct (protectPlatformFD _ _ _ _ _ _) as [n2 err2]. destruct Hpl as (new & -> & Hnew & Hok).
    exists new. apply guarded_asks; [done| |].
    + destruct Hnew as [->|[ok ->]]; by repeat constructor.
    + intros He. destruct (Hok He) as [Hl'| ->]; [by left|]. right. by left.
Qed.

Lemma ProtectRawConnContext_guarded scope ctxErr fd network address r n :
  let '(n', err) := ProtectRawConnContext ParseIP scope ctxErr fd network address r n in
  exists new, guarded n n' err scope fd network address new.
Proof.
  unfold ProtectRawConnContext.
  destruct (pr_control r); [exists []; by apply guarded_nothing|apply protectContextFD_guarded].
Qed.

(** ** The operations *)

Lemma guarded_NInv n n' err scope fd network address new :
  NInv n -> guarded n n' err scope fd network address new -> NInv n'.
Proof.
  intros Hi [-> Hg Hc _]. eapply NInv_extends; [exact Hi| |by apply Hg|].
  - constructor; try done. intros id s Hs Hcl. by exists s.
  - intros id Hin. by destruct (Hc id).
Qed.

Lemma guarded_same n n' err scope fd network address new :
  guarded n n' err scope fd network address new ->
  identities n' = identities n /\ n_dials n' = n_dials n.
Proof. by intros [-> _ _ _]. Qed.

(** A dial moves on: what it holds is cleared. *)
Lemma NInv_set_dialing n id d :
  NInv n ->
  (forall kind scope fd address rest failures, d = Connecting kind scope fd address rest failures ->
     cleared (identities n) (n_trace n) scope fd (normalize ParseAddr (transportOf kind) address) address) ->
  NInv (set_dialing id d n).
Proof.
  intros [H1 H2 H3] Hd. constructor; [done|done|]. intros id' kind scope fd address rest failures. cbn.
  intros [[-> Heq]|[_ Hl]]%lookup_insert_Some; [by eapply Hd|by eapply H3].
Qed.

Lemma NInv_dial_next n id kind scope rest failures ctxErr :
  NInv n -> NInv (set_dialing id (dial_next kind scope rest failures ctxErr) n).
Proof. intros Hi. apply NInv_set_dialing; [done|]. intros. unfold dial_next in *. by destruct ctxErr, rest. Qed.

Lemma NInv_dial_first n id kind scope addresses :
  NInv n -> NInv (set_dialing id (dial_first kind scope addresses) n).
Proof. intros Hi. destruct addresses; [by apply NInv_dial_next|by apply NInv_set_dialing]. Qed.

Lemma NInv_nextFD n f : NInv n -> NInv (n <| n_nextFD ::= f |>).
Proof. by intros []. Qed.

Lemma NInv_set_scope n id s s' :
  NInv n -> n_scopes n !! id = Some s -> identityOf s' = identityOf s ->
  (sc_closed s = true -> sc_closed s' = true) -> NInv (set_scope id s' n).
Proof.
  intros Hi Hs He Hc. pose proof (set_scope_ids id s s' n Hs He) as Hid.
  eapply NInv_extends; [exact Hi|by eapply extends_set_scope| |intros id' Hin; by apply not_elem_of_nil in Hin].
  rewrite Hid. exact (ni_trace _ Hi).
Qed.

Lemma NInv_NewSocketScope n id parentErr generation protect :
  NInv n -> NInv (NewSocketScope id parentErr generation protect n).
Proof.
  intros Hi. unfold NewSocketScope. destruct (n_scopes n !! id) eqn:Hs; [done|].
  set (s' := mkScope _ _ _ _ _).
  assert (identities n ⊆ identities (set_scope id s' n)) as Hids.
  { unfold identities, set_scope. cbn. rewrite fmap_insert. apply insert_subseteq.
    by rewrite lookup_fmap, Hs. }
  eapply (NInv_extends n _ []); [exact Hi| | |intros id' Hin; by apply not_elem_of_nil in Hin].
  - constructor; try done. intros id1 s1 Hs1 Hc. cbn. exists s1. split; [|done].
    rewrite lookup_insert_ne; [done|]. intros ->. congruence.
  - eapply grounded_mono; [exact Hids|exact (ni_trace _ Hi)].
Qed.

Lemma cancelScope_same err s :
  identityOf (cancelScope err s) = identityOf s /\ sc_closed (cancelScope err s) = sc_closed s.
Proof. unfold cancelScope. by destruct (sc_err s). Qed.

(** Telling one more event. *)
Lemma NInv_tell n ev :
  NInv n -> event_ok (identities n) ev (n_trace n) -> (forall id, ev <> ScopeClosed id) -> NInv (tell ev n).
Proof.
  intros Hi He Hc. eapply NInv_extends; [exact Hi|apply extends_tell| |].
  - split; [done|exact (ni_trace _ Hi)].
  - intros id Heq%list_elem_of_singleton. by destruct (Hc id).
Qed.

(** An open scope whose permissions, if any, are retired may be closed. *)
Lemma NInv_scope_closed n id s :
  NInv n -> n_scopes n !! id = Some s -> sc_closed s = false ->
  (forall owner, sc_permissions s = Some owner -> Retired id owner (sc_generation s) true ∈ n_trace n) ->
  NInv (tell (ScopeClosed id) (set_scope id (s <| sc_closed := true |>) n)).
Proof.
  intros Hi Hs Hc Hr. set (n1 := set_scope id _ n).
  assert (identities n1 = identities n) as Hids by by eapply set_scope_ids.
  assert (NInv n1) as Hi1 by by eapply NInv_set_scope.
  eapply NInv_extends; [exact Hi1|apply extends_tell| |].
  - split; [|exact (ni_trace _ Hi1)]. split; [by apply (not_closed n id s)|].
    exists (identityOf s). change (identities (tell (ScopeClosed id) n1)) with (identities n1).
    rewrite Hids. unfold identities. rewrite lookup_fmap, Hs. by split.
  - intros id' [= ->]%list_elem_of_singleton. eexists. cbn. by rewrite lookup_insert_eq.
Qed.

Lemma NInv_CloseScope n id retire : NInv n -> NInv (CloseScope id retire n).1.
Proof.
  intros Hi. unfold CloseScope. destruct (n_scopes n !! id) as [s0|] eqn:Hs; [|done].
  destruct (cancelScope_same (ESent CtxCanceled) s0) as [He Hc]. cbv zeta.
  set (s := cancelScope _ s0) in *. set (n1 := set_scope id s n).
  assert (NInv n1) as Hi1 by (eapply NInv_set_scope; [done..|congruence]).
  assert (n_scopes n1 !! id = Some s) as Hs1 by (cbn; by rewrite lookup_insert_eq).
  clearbody n1 s. destruct (sc_closed s) eqn:Hcl; [done|].
  destruct (sc_permissions s) as [owner|] eqn:Hp.
  - assert (NInv (tell (Retired id owner (sc_generation s) (agreed retire)) n1)) as Hi2.
    { apply NInv_tell; [done|by apply (not_closed n1 id s)|done]. }
    destruct retire as [err|]; [done|]. cbn [fst]. apply NInv_scope_closed; try done.
    rewrite Hp. intros owner' [= <-]. by left.
  - cbn [fst]. apply NInv_scope_closed; try done. by rewrite Hp.
Qed.

Lemma NInv_connecting n id kind scope fd address rest failures :
  NInv n -> cleared (identities n) (n_trace n) scope fd (normalize ParseAddr (transportOf kind) address) address ->
  NInv (set_dialing id (Connecting kind scope fd address rest failures) n).
Proof. intros Hi Hc. apply NInv_set_dialing; [done|]. intros ? ? ? ? ? ? [= <- <- <- <- <- <-]. done. Qed.

Lemma controlled_NInv n id kind scope address rest failures ctxErr ctxErrAfter r fd :
  NInv n ->
  let '(n', d) := controlled ParseAddr ParseIP scope rest failures ctxErr ctxErrAfter r kind address fd n in
  NInv (set_dialing id d n').
Proof.
  intros Hi. unfold controlled.
  pose proof (ProtectRawConnContext_guarded scope ctxErr fd
    (normalize ParseAddr (transportOf kind) address) address r n) as Hg.
  destruct (ProtectRawConnContext _ _ _ _ _ _ _ _) as [n2 err]. destruct Hg as [new Hg].
  pose proof (guarded_NInv _ _ _ _ _ _ _ _ Hi Hg) as Hi2.
  destruct err as [e|]; [by apply NInv_dial_next|]. apply NInv_connecting; [done|].
  destruct (guarded_same _ _ _ _ _ _ _ _ Hg) as [-> _]. by apply (gu_cleared _ _ _ _ _ _ _ _ Hg).
Qed.

Lemma dial_control_NInv n id kind scope address rest failures ctxErr ctxErrAfter r :
  NInv n ->
  let '(n', d) := dial_control ParseAddr ParseIP scope rest failures ctxErr ctxErrAfter r kind address n in
  NInv (set_dialing id d n').
Proof.
  intros Hi. unfold dial_control, dialResolvedTCP, dialResolvedUDPConn, dialResolvedUDPPacket.
  pose proof (NInv_nextFD n (fun fd => (fd + 1)%Z) Hi) as Hi1.
  generalize (n_nextFD n). intros fd.
  destruct kind; [destruct (isLoopback ParseIP address) eqn:Hl| |destruct (isLoopback ParseIP address) eqn:Hl];
    solve [by apply controlled_NInv|apply NInv_connecting; [done|by left]].
Qed.

Lemma dial_connect_NInv n id kind scope fd address rest failures err ctxErrAfter :
  NInv n -> n_dials n !! id = Some (Connecting kind scope fd address rest failures) ->
  let '(n', d) := dial_connect ParseAddr kind scope fd address rest failures err ctxErrAfter n in
  NInv (set_dialing id d n').
Proof.
  intros Hi Hd. unfold dial_connect. pose proof (ni_dials _ Hi _ _ _ _ _ _ _ Hd) as Hc.
  set (n1 := tell _ n). assert (NInv n1) as Hi1 by by apply NInv_tell.
  destruct err; [by apply NInv_dial_next|by apply NInv_set_dialing].
Qed.

Lemma net_step_NInv op n : NInv n -> NInv (net_step ParseAddr ParseIP IPString op n).
Proof.
  intros Hi. destruct op; cbn.
  - by destruct Hi.
  - by apply NInv_NewSocketScope.
  - destruct (n_scopes n !! id) as [s|] eqn:Hs; [|done]. destruct (cancelScope_same err s).
    eapply NInv_set_scope; [done..|congruence].
  - by apply NInv_CloseScope.
  - assert (NInv (set_dialing id (dial_begins IPString resolve kind scope address) n)) as Hb.
    { destruct kind; by apply NInv_dial_first. }
    destruct (n_dials n !! id); [done|]. destruct scope; [|done]. by case_match.
  - destruct (n_dials n !! id) as [[kind scope [|address rest] failures| |]|]; try done.
    pose proof (dial_control_NInv n id kind scope address rest failures ctxErr ctxErrAfter r Hi) as H.
    by destruct (dial_control _ _ _ _ _ _ _ _ _ _ _).
  - destruct (n_dials n !! id) as [[kind scope [|address rest] failures| |]|]; try done.
    by apply NInv_dial_next.
  - destruct (n_dials n !! id) as [[]|] eqn:Hd; try done.
    pose proof (dial_connect_NInv n id _ _ _ _ _ _ err ctxErrAfter Hi Hd) as H.
    exact H.
  - destruct (_ && _); [done|].
    pose proof (protectContextFD_guarded scope ctxErr fd network address r n) as Hg.
    destruct (protectContextFD _ _ _ _ _ _ _ _) as [n' err]. destruct Hg as [new Hg].
    by eapply guarded_NInv.
Qed.

Lemma NInv_new protector : NInv (newNetwork protector).
Proof. constructor; [done|intros id Hin; by apply not_elem_of_nil in Hin|done]. Qed.

Lemma net_run_NInv ops n : NInv n -> NInv (net_run ParseAddr ParseIP IPString ops n).
Proof.
  revert n. induction ops as [|op ops IH]; intros n Hi; [done|]. cbn. by apply IH, net_step_NInv.
Qed.

Lemma grounded_at ids pre ev past : grounded ids (pre ++ ev :: past) -> event_ok ids ev past.
Proof. induction pre as [|e pre IH]; [by intros [? _]|intros [_ ?]; auto]. Qed.

(** An event on behalf of the scope [id]. *)
Definition onBehalfOf (id : nat) (ev : netEvent) : Prop :=
  match ev with
  | Authorized s _ _ _ _ _ | Protected (Some s) _ _ | Retired s _ _ _ | ScopeClosed s => s = id
  | _ => False
  end.

(** After a scope closed nothing happens on its behalf. *)
Lemma grounded_closed ids pre id past :
  grounded ids (pre ++ ScopeClosed id :: past) -> Forall (fun ev => ~ onBehalfOf id ev) pre.
Proof.
  induction pre as [|ev pre IH]; [done|]. intros [He Hg]. constructor; [|by apply IH].
  assert (ScopeClosed id ∈ pre ++ ScopeClosed id :: past) as Hin.
  { apply elem_of_app. right. by left. }
  intros Hb. destruct ev as [s| [s|]|s|s|]; cbn in Hb, He; try done; subst s; try by apply He.
Qed.
End theorems.

(** C26: Whatever the order of dials, native descriptors, scopes made, canceled
    and closed and permissions set, and whatever the platform answers: a socket
    is used for a destination only if that destination is loopback, or the
    platform (or the attempt's own callback) agreed before to exclude exactly
    this socket from the tunnel and, when the attempt's scope has permissions,
    their owner authorized exactly this destination for the attempt's
    generation. A scope whose close succeeded has retired its permissions, and
    nothing is asked on its behalf afterwards. *)
Theorem sockets_are_protected_before_use (ParseAddr : string -> option IPAddr)
    (ParseIP : string -> option IP) (IPString : IPAddr -> string) (protector : bool) (ops : list netOp) :
  let n := net_run ParseAddr ParseIP IPString ops (newNetwork protector) in
  (forall pre scope fd network address past,
    n_trace n = pre ++ Used scope fd network address :: past ->
    cleared ParseIP (identities n) past scope fd network address) /\
  (forall pre id past, n_trace n = pre ++ ScopeClosed id :: past ->
    Forall (fun ev => ~ onBehalfOf id ev) pre /\
    exists i, identities n !! id = Some i /\
      forall owner, id_permissions i = Some owner -> (Retired id owner (id_generation i) true) ∈ past).
Proof.
  intros n. pose proof (net_run_NInv ParseAddr ParseIP IPString ops _ (NInv_new ParseAddr ParseIP protector)) as [Hg _ _].
  fold n in Hg. split.
  - intros pre scope fd network address past He. rewrite He in Hg. by apply grounded_at in Hg.
  - intros pre id past He. rewrite He in Hg. split; [by eapply grounded_closed|].
    by apply grounded_at in Hg as [_ Hr].
Qed.

(** A dial in a scope with permissions: the first address is refused by the
    owner, the second is authorized, protected and used. *)
Example dial_falls_back :
  n_trace (net_run (fun _ => None) (fun _ => None) (fun a => if bool_decide (a.1 = [1%Z]) then "192.0.2.1" else "192.0.2.2")
    [OSetPermissions (Some 7); ONewScope 1 None 3 true;
     ODial 0 DialTCP (Some 1) (Some (fun _ => Ok [([1%Z], ""); ([2%Z], "")])) "example.org:443";
     OControl 0 None None (mkProtection (Some (EText "denied")) None None);
     OControl 0 None None (mkProtection None None None);
     OConnect 0 None None; OCloseScope 1 None;
     OProtect (Some 1) None 9 (mkNetwork UDP false) "192.0.2.3:53" (mkProtection None None None)]
    (newNetwork true)) =
  [ScopeClosed 1; Retired 1 7 3 true; Used (Some 1) 1 (mkNetwork TCP false) "192.0.2.2:443";
   Protected (Some 1) 1 true; Authorized 1 7 3 (mkNetwork TCP false) "192.0.2.2:443" true;
   Authorized 1 7 3 (mkNetwork TCP false) "192.0.2.1:443" false].
Proof. reflexivity. Qed.
