(* ===== verification/Sockets.v ===== *)
(** * Sockets a protocol device owns

    The wrappers of the three devices ([transportSocket] in
    xray/internal/transport_sockets.go, [endpointConn] in
    trusttunnel/endpoint_forwarder.go, [ownedConn] in outline/ownership.go)
    share one discipline: a socket is listed by its owner from the moment it is
    wrapped until a close of it succeeded.  A socket is named by its wrapper's
    number. *)

From S2P Require Import Prelude Errors.

(** Sockets the operating system holds open, sockets the owner lists, wrappers
    whose [closed] flag is set. *)
Record pool := mkPool { po_open : gset nat; po_listed : gset nat; po_closed : gset nat }.
#[export] Instance eta_pool : Settable pool := fun x => mkPool (po_open x) (po_listed x) (po_closed x).

Definition emptyPool : pool := mkPool ∅ ∅ ∅.

(** The system opened a socket; nobody lists it yet. *)
Definition opens (fd : nat) (p : pool) : pool := p <| po_open ::= union {[fd]} |>.

Definition lists (fd : nat) (p : pool) : pool := p <| po_listed ::= union {[fd]} |>.

(** Closing a socket that has no wrapper. *)
Definition closeRaw (fd : nat) (answer : option gerr) (p : pool) : pool * option gerr :=
  (if closeFailed answer then p else p <| po_open ::= fun s => s ∖ {[fd]} |>, answer).

(** [Close] of the wrapper: done once; a failure keeps the socket listed. *)
Definition closeOwned (fd : nat) (answer : option gerr) (p : pool) : pool * option gerr :=
  if bool_decide (fd ∈ po_closed p) then (p, None)
  else if closeFailed answer then (p, answer)
  else (p <| po_open ::= fun s => s ∖ {[fd]} |> <| po_listed ::= fun s => s ∖ {[fd]} |>
          <| po_closed ::= union {[fd]} |>, None).

(** ** The discipline *)

(** Every open socket is listed, or in the hands of a worker ([held]); numbers
    from [next] on have not been used. *)
Record pool_ok (held : nat -> Prop) (next : nat) (p : pool) : Prop := mkPoolOk {
  pk_open : forall fd, fd ∈ po_open p -> (fd ∈ po_listed p) \/ held fd;
  pk_closed : po_closed p ## po_open p;
  pk_fresh : forall fd, fd ∈ po_closed p -> fd < next
}.

Lemma pool_ok_weaken (held held' : nat -> Prop) next p :
  (forall fd, held fd -> held' fd) -> pool_ok held next p -> pool_ok held' next p.
Proof. intros Hh [H1 H2 H3]. constructor; [|done..]. intros fd Hfd. destruct (H1 fd Hfd); auto. Qed.

Section pool.
Context (held : nat -> Prop) (next : nat).

Lemma pool_ok_empty : pool_ok held next emptyPool.
Proof. constructor; cbn; set_solver. Qed.

(** Hands change. *)
Lemma pool_ok_held held' p :
  pool_ok held next p -> (forall fd, held fd -> fd ∈ po_open p -> held' fd \/ (fd ∈ po_listed p)) ->
  pool_ok held' next p.
Proof.
  intros [H1 H2 H3] Hh. constructor; [|done..]. intros fd Hfd.
  destruct (H1 fd Hfd) as [?|Hin]; [by left|]. destruct (Hh fd Hin Hfd); auto.
Qed.

Lemma pool_ok_opens p :
  pool_ok held next p -> pool_ok (fun fd => fd = next \/ held fd) (S next) (opens next p).
Proof.
  intros [H1 H2 H3]. constructor; cbn.
  - intros fd [->%elem_of_singleton|Hfd]%elem_of_union; [by right; left|]. destruct (H1 fd Hfd); auto.
  - intros fd Hc [->%elem_of_singleton|Hfd]%elem_of_union; [by apply H3 in Hc; lia|]. by apply (H2 fd).
  - intros fd Hc. apply H3 in Hc. lia.
Qed.

Lemma pool_ok_lists fd p :
  pool_ok held next p -> pool_ok (fun fd' => held fd' /\ fd' <> fd) next (lists fd p).
Proof.
  intros [H1 H2 H3]. constructor; cbn; [|done..]. intros fd' Hfd.
  destruct (decide (fd' = fd)) as [->|]; [left; set_solver|]. destruct (H1 fd' Hfd); [left; set_solver|by right].
Qed.

Lemma pool_ok_closed fd p :
  pool_ok held next p -> fd < next ->
  pool_ok (fun fd' => held fd' /\ fd' <> fd) next
    (p <| po_open ::= fun s => s ∖ {[fd]} |> <| po_listed ::= fun s => s ∖ {[fd]} |> <| po_closed ::= union {[fd]} |>).
Proof.
  intros [H1 H2 H3] Hlt. constructor; cbn.
  - intros fd' [Hfd Hne%not_elem_of_singleton]%elem_of_difference. destruct (H1 fd' Hfd); [left; set_solver|by right].
  - set_solver.
  - intros fd' [->%elem_of_singleton|Hc]%elem_of_union; auto.
Qed.

Lemma pool_ok_closeOwned fd answer p p' err :
  pool_ok held next p -> fd < next -> closeOwned fd answer p = (p', err) ->
  pool_ok held next p' /\ (err = None -> fd ∉ po_open p').
Proof.
  intros Hp Hlt. unfold closeOwned. case_bool_decide as Hc.
  { intros [= <- <-]. split; [done|]. intros _ Ho. by apply (pk_closed _ _ _ Hp fd). }
  destruct (closeFailed answer) eqn:Hcf; intros [= <- <-].
  - split; [done|]. by intros ->.
  - split; [|cbn; set_solver]. by eapply pool_ok_weaken, pool_ok_closed; [intros ? []|..].
Qed.

Lemma pool_ok_closeRaw fd answer p p' err :
  pool_ok held next p -> closeRaw fd answer p = (p', err) ->
  pool_ok held next p' /\ (closeFailed err = false -> fd ∉ po_open p').
Proof.
  intros [H1 H2 H3]. unfold closeRaw. destruct (closeFailed answer) eqn:E; intros [= <- <-].
  - split; [done|]. congruence.
  - split; [|cbn; set_solver]. constructor; cbn; [|set_solver|done]. intros fd' [Hfd _]%elem_of_difference. by apply H1.
Qed.
End pool.

Lemma closeOwned_shrinks fd answer p p' err :
  closeOwned fd answer p = (p', err) -> po_open p' ⊆ po_open p /\ po_listed p' ⊆ po_listed p.
Proof. unfold closeOwned. repeat case_match; intros [= <- <-]; cbn; set_solver. Qed.

(** With nothing listed and nothing held, nothing is open. *)
Lemma pool_ok_quiet held next p :
  pool_ok held next p -> po_listed p = ∅ -> (forall fd, ~ held fd) -> po_open p = ∅.
Proof.
  intros [H1 _ _] Hl Hh. apply elem_of_equiv_empty_L. intros fd Hfd.
  destruct (H1 fd Hfd) as [Hin|Hin]; [rewrite Hl in Hin; set_solver|by apply (Hh fd)].
Qed.
