(* ===== verification/Transports.v ===== *)
(** * Xray transport sockets (core/xray/internal/transport_sockets.go, protected_system_dialer.go, dialer_owner.go)

    Xray caches sockets beyond the close of its instance, so the attempt owns
    every socket its system dialer returns.  Dials, closes by Xray and the
    closes of the owner are program counters cut at the critical sections; what
    the network, the resolver and the platform answer is an argument. *)

From S2P Require Import Prelude Errors GoStrings Bypass Dns Dialing Sockets.
Local Open Scope string_scope.
Local Open Scope list_scope.

(** ** The protection callback *)

(** The contexts of the dial, of the owned sockets and of the attempt; the
    answers of [RawConn.Control], [applyOptions] and [protect]. *)
Record controlEnv := mkControlEnv {
  co_ctxErr : option gerr;
  co_socketsErr : option gerr;
  co_ownerErr : option gerr;
  co_sockopt : bool;
  co_control : option gerr;
  co_options : option gerr;
  co_protect : option gerr
}.

Definition dialContextError (env : controlEnv) : option gerr :=
  join [co_ctxErr env; co_socketsErr env; co_ownerErr env].

Inductive controlCall := AppliedOptions (ok : bool) | ProtectedSocket (ok : bool).

(** [control]: options first, protection last; a failed option is only logged. *)
Definition control (destination : string) (env : controlEnv) : list controlCall * option gerr :=
  match dialContextError env with
  | Some err => ([], Some err)
  | None =>
      match co_control env with
      | Some err => ([], Some err)
      | None =>
          let options := if co_sockopt env then [AppliedOptions (agreed (co_options env))] else [] in
          match co_protect env with
          | Some err =>
              (options ++ [ProtectedSocket false],
               Some (EWrap ("failed to protect Xray outbound socket for " +:+ destination) err))
          | None => (options ++ [ProtectedSocket true], None)
          end
      end
  end.

(** [LookupIP] of [underlyingDNS]: what the resolver found, by family. *)
Definition LookupIP (ipv4 ipv6 : bool) (resolved : result (list IPAddr) gerr) : result (list IP) gerr :=
  match resolved with
  | Err err => Err err
  | Ok addresses =>
      let ips := filter (fun ip => match To4 ip with Some _ => ipv4 | None => ipv6 end = true) (map fst addresses) in
      match ips with
      | [] => Err (EText "empty response")
      | _ => Ok ips
      end
  end.

(** ** The owner *)

(** A dial: between its calls, checking the route of a UDP destination,
    holding a socket that is not tracked yet, about to look at the contexts
    with a tracked one, closing it again, and about to end with its result. *)
Inductive sockDial :=
| Working
| CheckingRoute (fd : nat)
| Holding (fd : nat)
| Tracked (fd : nat)
| Dropping (fd : nat) (err : gerr)
| Ending (res : result nat gerr)
| Ended (res : result nat gerr).

(** [close]: closing the sockets of its snapshot, waiting for the dials. *)
Inductive sockCloser :=
| ClosingSockets (rest : list nat) (pending : bool)
| WaitingSettled
| Concluding
| CloseReturned (res : option gerr).

(** [ts_pool] holds the sockets and [ts_errs] the error a close of a listed one
    left; [ts_routes] are UDP route checks whose own close failed;
    [ts_settled] says the channel of the last dials is closed; [ts_installed]
    that the alternative system dialer is. *)
Record transports := mkTransports {
  ts_pool : pool;
  ts_errs : gmap nat gerr;
  ts_routes : gset nat;
  ts_next : nat;
  ts_closing : bool;
  ts_pending : Z;
  ts_settled : bool;
  ts_dials : gmap nat sockDial;
  ts_closers : gmap nat sockCloser;
  ts_installed : bool
}.
#[export] Instance eta_transports : Settable transports := fun x =>
  mkTransports (ts_pool x) (ts_errs x) (ts_routes x) (ts_next x) (ts_closing x) (ts_pending x)
    (ts_settled x) (ts_dials x) (ts_closers x) (ts_installed x).

Definition newTransportSockets : transports :=
  mkTransports emptyPool ∅ ∅ 0 false 0 true ∅ ∅ true.

Definition set_dial (id : nat) (d : sockDial) (s : transports) : transports :=
  s <| ts_dials ::= <[id := d]> |>.

Definition set_closer (id : nat) (c : sockCloser) (s : transports) : transports :=
  s <| ts_closers ::= <[id := c]> |>.

Definition begin (s : transports) : result transports gerr :=
  if ts_closing s then Err (ESent NetErrClosed)
  else
    let s := if (ts_pending s =? 0)%Z then s <| ts_settled := false |> else s in
    Ok (s <| ts_pending ::= fun n => (n + 1)%Z |>).

Definition endDialing (s : transports) : transports :=
  let s := s <| ts_pending ::= fun n => (n - 1)%Z |> in
  if (ts_pending s =? 0)%Z then s <| ts_settled := true |> else s.

(** [Close] of a [transportSocket]. *)
Definition closeSocket (fd : nat) (answer : option gerr) (s : transports) : transports * option gerr :=
  let '(p, err) := closeOwned fd answer (ts_pool s) in
  (match err with
   | Some err => s <| ts_pool := p |> <| ts_errs ::= <[fd := err]> |>
   | None => s <| ts_pool := p |> <| ts_errs ::= delete fd |>
   end, err).

(** [track] up to the close of a socket that came too late. *)
Definition trackSocketOf (fd : nat) (s : transports) : transports * bool :=
  (s <| ts_pool ::= lists fd |> <| ts_errs ::= delete fd |>, ts_closing s).

(** *** Dials *)

Definition openSocket (s : transports) : transports * nat :=
  (s <| ts_pool ::= opens (ts_next s) |> <| ts_next ::= S |>, ts_next s).

Inductive dialAnswer :=
| DialControl (destination : string) (env : controlEnv)
| DialClosed (answer : option gerr)
| DialContext (err : option gerr)
| DialGivesUp (err : gerr).

(** The dialer creates a socket if its callback agrees: the transport's own, or
    one that only checks the route of a UDP destination. *)
Definition createSocket (id : nat) (udpRoute : bool) (destination : string) (env : controlEnv)
    (s : transports) : transports :=
  match control destination env with
  | (_, Some _) => s
  | (_, None) =>
      let '(s, fd) := openSocket s in
      set_dial id (if udpRoute then CheckingRoute fd else Holding fd) s
  end.

(** [dialPacket] closes the route check before it binds the transport socket. *)
Definition routeChecked (id fd : nat) (answer : option gerr) (s : transports) : transports :=
  let '(p, err) := closeRaw fd answer (ts_pool s) in
  let s := s <| ts_pool := p |> in
  let s := if closeFailed err then s <| ts_routes ::= union {[fd]} |> else s in
  set_dial id Working s.

(** [trackSocket], and its second look at the contexts. *)
Definition trackSocket (id fd : nat) (s : transports) : transports :=
  let '(s, late) := trackSocketOf fd s in
  set_dial id (if late then Dropping fd (ESent NetErrClosed) else Tracked fd) s.

Definition trackChecked (id fd : nat) (ctxErr : option gerr) (s : transports) : transports :=
  set_dial id (match ctxErr with Some err => Dropping fd err | None => Ending (Ok fd) end) s.

(** [Dial] after [begin]: it tries addresses until a socket is handed out or it
    gives up, and ends. *)
Definition dialStep (id : nat) (udpRoute : bool) (answer : dialAnswer) (d : sockDial) (s : transports) :
    transports :=
  match d, answer with
  | Working, DialControl destination env => createSocket id udpRoute destination env s
  | Working, DialGivesUp err => set_dial id (Ending (Err err)) s
  | CheckingRoute fd, DialClosed answer => routeChecked id fd answer s
  | Holding fd, _ => trackSocket id fd s
  | Tracked fd, DialContext ctxErr => trackChecked id fd ctxErr s
  | Dropping fd err, DialClosed answer => set_dial id Working (closeSocket fd answer s).1
  | Ending res, _ => set_dial id (Ended res) (endDialing s)
  | _, _ => s
  end.

(** *** Closes of the owner *)

Definition remains (s : transports) (fd : nat) : option gerr :=
  match ts_errs s !! fd with
  | Some err => Some err
  | None => Some (EText "xray transport socket remains open")
  end.

(** What [close] reports: dials that did not end, then every socket left. *)
Definition conclude (ctxErr : option gerr) (s : transports) : option gerr :=
  let unresolved :=
    if (ts_pending s =? 0)%Z then None
    else
      let text := "xray transport cleanup has " +:+ Itoa (ts_pending s) +:+ " unresolved dials" in
      Some (match ctxErr with Some err => EWrap text err | None => EText text end) in
  foldl (fun result fd => join [result; remains s fd]) unresolved (elements (po_listed (ts_pool s))).

Definition closerStep (id : nat) (answer : option gerr) (expired : option gerr) (c : sockCloser)
    (s : transports) : transports :=
  match c with
  | ClosingSockets [] pending => set_closer id (if pending then WaitingSettled else Concluding) s
  | ClosingSockets (fd :: rest) pending =>
      set_closer id (ClosingSockets rest pending) (closeSocket fd answer s).1
  | WaitingSettled =>
      if ts_settled s || negb (agreed expired) then set_closer id Concluding s else s
  | Concluding => set_closer id (CloseReturned (conclude expired s)) s
  | CloseReturned None => s <| ts_installed := false |>
  | CloseReturned (Some _) => s
  end.

Definition closeBegin (id : nat) (s : transports) : transports :=
  let s := s <| ts_closing := true |> in
  set_closer id (ClosingSockets (elements (po_listed (ts_pool s))) (negb (ts_pending s =? 0)%Z)) s.

(** *** All of them together *)

Inductive transportOp :=
| DialStep (id : nat) (udpRoute : bool) (answer : dialAnswer)
| XrayCloses (fd : nat) (answer : option gerr)
| CloserStep (id : nat) (answer expired : option gerr).

Definition transport_step (op : transportOp) (s : transports) : transports :=
  match op with
  | DialStep id udpRoute answer =>
      match ts_dials s !! id with
      | Some d => dialStep id udpRoute answer d s
      | None =>
          match begin s with
          | Ok s => set_dial id Working s
          | Err err => set_dial id (Ended (Err err)) s
          end
      end
  | XrayCloses fd answer =>
      if bool_decide (fd ∈ po_listed (ts_pool s) ∪ po_closed (ts_pool s))
      then (closeSocket fd answer s).1 else s
  | CloserStep id answer expired =>
      match ts_closers s !! id with
      | Some c => closerStep id answer expired c s
      | None => closeBegin id s
      end
  end.

Definition transport_run (ops : list transportOp) (s : transports) : transports :=
  fold_left (fun s op => transport_step op s) ops s.
