(* ===== verification/TransportTheorems.v ===== *)
(** * What the owner of Xray's transport sockets guarantees

    After a close that returned nil no socket it handed out is open, and none
    is opened ever again; a close that fails can be retried. *)

From S2P Require Import Prelude Errors GoStrings Bypass Dns Dialing Sockets Transports.
Local Open Scope list_scope.

(** ** The invariant *)

Definition holds (d : sockDial) : option nat :=
  match d with CheckingRoute fd | Holding fd => Some fd | _ => None end.

Definition mentions (d : sockDial) : option nat :=
  match d with
  | CheckingRoute fd | Holding fd | Tracked fd | Dropping fd _ => Some fd
  | _ => None
  end.

(** A dial that was counted and has not ended. *)
Definition counted (d : sockDial) : Z := match d with Ended _ => 0 | _ => 1 end.

Definition in_hands (s : transports) (fd : nat) : Prop :=
  (fd ∈ ts_routes s) \/ exists id d, ts_dials s !! id = Some d /\ holds d = Some fd.

(** Nothing is listed, no dial runs and none can begin. *)
Record closed_down (s : transports) : Prop := mkClosedDown {
  cd_closing : ts_closing s = true;
  cd_pending : ts_pending s = 0%Z;
  cd_listed : po_listed (ts_pool s) = ∅
}.

Record TInv (s : transports) : Prop := mkTInv {
  ti_pool : pool_ok (in_hands s) (ts_next s) (ts_pool s);
  ti_listed : forall fd, fd ∈ po_listed (ts_pool s) -> fd < ts_next s;
  ti_dials : forall id d fd, ts_dials s !! id = Some d -> mentions d = Some fd -> fd < ts_next s;
  ti_closers : forall id rest pending fd, ts_closers s !! id = Some (ClosingSockets rest pending) ->
    fd ∈ rest -> fd < ts_next s;
  ti_pending : ts_pending s = csum counted (ts_dials s);
  ti_returned : forall id, ts_closers s !! id = Some (CloseReturned None) -> closed_down s;
  ti_installed : ts_installed s = false -> closed_down s
}.

Lemma counted_nonneg d : (0 <= counted d)%Z.
Proof. by destruct d. Qed.

Lemma TInv_new : TInv newTransportSockets.
Proof.
  constructor; try done; apply pool_ok_empty.
Qed.

(** In a closed-down owner every dial has ended. *)
Lemma closed_down_ended s id d :
  TInv s -> closed_down s -> ts_dials s !! id = Some d -> exists res, d = Ended res.
Proof.
  intros Hi [_ Hp _] Hd. rewrite (ti_pending _ Hi) in Hp.
  pose proof (csum_zero _ _ _ _ counted_nonneg Hp Hd) as Hc. destruct d; try done. by eexists.
Qed.

Lemma closed_down_open s : TInv s -> closed_down s -> po_open (ts_pool s) ⊆ ts_routes s.
Proof.
  intros Hi Hc fd Hfd. destruct (pk_open _ _ _ (ti_pool _ Hi) fd Hfd) as [Hl|[Hr|(id & d & Hd & Hh)]].
  - rewrite (cd_listed _ Hc) in Hl. set_solver.
  - done.
  - destruct (closed_down_ended _ _ _ Hi Hc Hd) as [res ->]. done.
Qed.

(** ** Closing a socket *)

Lemma closeSocket_same fd answer s s' err :
  closeSocket fd answer s = (s', err) ->
  ts_dials s' = ts_dials s /\ ts_closers s' = ts_closers s /\ ts_routes s' = ts_routes s /\
  ts_next s' = ts_next s /\ ts_closing s' = ts_closing s /\ ts_pending s' = ts_pending s /\
  ts_installed s' = ts_installed s /\ exists e, closeOwned fd answer (ts_pool s) = (ts_pool s', e).
Proof.
  unfold closeSocket. destruct (closeOwned _ _ _) as [p [e|]]; intros [= <- <-]; split_and!; try done; by eexists.
Qed.

Lemma TInv_closeSocket fd answer s :
  TInv s -> fd < ts_next s -> TInv (closeSocket fd answer s).1.
Proof.
  intros Hi Hf. destruct (closeSocket fd answer s) as [s' err] eqn:E. cbn.
  destruct (closeSocket_same _ _ _ _ _ E) as (E1 & E2 & E3 & E4 & E5 & E6 & E7 & e & Hc).
  destruct Hi. destruct (pool_ok_closeOwned _ _ _ _ _ _ _ ti_pool0 Hf Hc) as [Hp _].
  destruct (closeOwned_shrinks _ _ _ _ _ Hc) as [_ Hl].
  assert (closed_down s -> closed_down s') as Hcd.
  { intros [C1 C2 C3]. constructor; [congruence..|]. rewrite C3 in Hl. set_solver. }
  constructor; rewrite ?E1, ?E2, ?E4, ?E6, ?E7; try done.
  - eapply pool_ok_weaken; [|exact Hp]. unfold in_hands. by rewrite E1, E3.
  - intros fd' H. by apply ti_listed0, Hl.
  - intros id H. by eapply Hcd, ti_returned0.
  - intros H. by apply Hcd, ti_installed0.
Qed.

(** ** Dials *)

(** One dial moves on. *)
Lemma TInv_dial_moves s s' id d d' :
  TInv s -> ts_dials s !! id = Some d -> counted d = 1%Z -> ts_dials s' = <[id := d']> (ts_dials s) ->
  ts_closers s' = ts_closers s -> ts_installed s' = ts_installed s ->
  pool_ok (in_hands s') (ts_next s') (ts_pool s') ->
  (forall fd, fd ∈ po_listed (ts_pool s') -> (fd ∈ po_listed (ts_pool s)) \/ mentions d = Some fd) ->
  ts_next s <= ts_next s' -> (forall fd, mentions d' = Some fd -> fd < ts_next s') ->
  ts_pending s' = (ts_pending s - 1 + counted d')%Z -> TInv s'.
Proof.
  intros Hi Hd Hone Hds Hcl Hin Hp Hl Hn Hm Hpend.
  assert (closed_down s -> False) as Hno.
  { intros Hc. destruct (closed_down_ended _ _ _ Hi Hc Hd) as [res ->]. done. }
  destruct Hi. constructor; rewrite ?Hds, ?Hcl, ?Hin; try done.
  - intros fd Hfd. destruct (Hl fd Hfd) as [H|H]; [apply ti_listed0 in H; lia|].
    specialize (ti_dials0 _ _ _ Hd H). lia.
  - intros id' d1 fd [[-> <-]|[_ Hd1]]%lookup_insert_Some Hfd; [by apply Hm|].
    specialize (ti_dials0 _ _ _ Hd1 Hfd). lia.
  - intros id' rest pending fd Hc Hfd. specialize (ti_closers0 _ _ _ _ Hc Hfd). lia.
  - rewrite Hpend, ti_pending0, (csum_update _ _ _ _ _ Hd), Hone. lia.
  - intros id' H. by destruct (Hno (ti_returned0 _ H)).
  - intros H. by destruct (Hno (ti_installed0 H)).
Qed.

(** Hands after a dial moved from [d] to [d']. *)
Lemma in_hands_moved s s' id d d' fd :
  ts_dials s !! id = Some d -> ts_dials s' = <[id := d']> (ts_dials s) -> ts_routes s ⊆ ts_routes s' ->
  in_hands s fd -> holds d <> Some fd \/ holds d' = Some fd -> in_hands s' fd.
Proof.
  intros Hd Hds Hr [H|(id' & d1 & Hd1 & Hh)] Hk; [left; set_solver|]. right. rewrite Hds.
  destruct (decide (id' = id)) as [->|Hne].
  - exists id, d'. rewrite lookup_insert_eq. split; [done|]. destruct Hk as [Hk|Hk]; [congruence|done].
  - exists id', d1. by rewrite lookup_insert_ne.
Qed.

(** Nothing changes but the dial's place. *)
Lemma TInv_set_dial s id d d' :
  TInv s -> ts_dials s !! id = Some d -> counted d = 1%Z -> counted d' = 1%Z -> holds d = None ->
  (forall fd, mentions d' = Some fd -> mentions d = Some fd) -> TInv (set_dial id d' s).
Proof.
  intros Hi Hd H1 H2 Hh Hm. eapply (TInv_dial_moves s); try done.
  - eapply pool_ok_weaken; [|exact (ti_pool _ Hi)]. intros fd Hf.
    eapply in_hands_moved; [done..|]. left. by rewrite Hh.
  - by left.
  - intros fd Hfd. by eapply (ti_dials _ Hi), Hm.
  - cbn. rewrite H2. lia.
Qed.

Lemma TInv_open s id d' :
  TInv s -> ts_dials s !! id = Some Working -> d' = CheckingRoute (ts_next s) \/ d' = Holding (ts_next s) ->
  TInv (set_dial id d' (openSocket s).1).
Proof.
  intros Hi Hd Hd'. assert (holds d' = Some (ts_next s)) as Hh by by destruct Hd' as [-> | ->].
  eapply (TInv_dial_moves s _ id Working d'); try done; cbn.
  - eapply pool_ok_weaken; [|exact (pool_ok_opens _ _ _ (ti_pool _ Hi))]. intros fd [->|Hf].
    + right. exists id, d'. cbn. by rewrite lookup_insert_eq.
    + eapply in_hands_moved; [done..|]. by left.
  - by left.
  - lia.
  - intros fd. destruct Hd' as [-> | ->]; intros [= <-]; lia.
  - destruct Hd' as [-> | ->]; cbn; lia.
Qed.

Lemma TInv_checked s id fd answer :
  TInv s -> ts_dials s !! id = Some (CheckingRoute fd) ->
  TInv (dialStep id true (DialClosed answer) (CheckingRoute fd) s).
Proof.
  intros Hi Hd. unfold dialStep, routeChecked. destruct (closeRaw fd answer (ts_pool s)) as [p err] eqn:E.
  destruct (pool_ok_closeRaw _ _ _ _ _ _ _ (ti_pool _ Hi) E) as [Hp Hcl].
  assert (po_listed p = po_listed (ts_pool s)) as Hl by (unfold closeRaw in E; case_match; by injection E as <- _).
  set (s1 := if closeFailed err then s <| ts_pool := p |> <| ts_routes ::= union {[fd]} |> else s <| ts_pool := p |>).
  assert (ts_pool s1 = p /\ ts_dials s1 = ts_dials s /\ ts_closers s1 = ts_closers s /\ ts_next s1 = ts_next s /\
    ts_installed s1 = ts_installed s /\ ts_pending s1 = ts_pending s /\
    ts_routes s1 = if closeFailed err then {[fd]} ∪ ts_routes s else ts_routes s) as (E1 & E2 & E3 & E4 & E5 & E6 & E7).
  { subst s1. by destruct (closeFailed err). }
  clearbody s1. eapply (TInv_dial_moves s _ id (CheckingRoute fd) Working); try done; cbn; rewrite ?E1, ?E2, ?E4, ?E6; try done.
  - eapply pool_ok_held; [exact Hp|]. intros fd' Hf Hopen. left.
    destruct (decide (fd' = fd)) as [->|Hne].
    + left. cbn. rewrite E7. destruct (closeFailed err); [set_solver|]. by destruct (Hcl eq_refl).
    + eapply in_hands_moved; [exact Hd|cbn; by rewrite E2| |exact Hf|left; cbn; congruence].
      cbn. rewrite E7. destruct (closeFailed err); set_solver.
  - rewrite Hl. by left.
  - cbn. lia.
Qed.

Lemma TInv_track s id fd :
  TInv s -> ts_dials s !! id = Some (Holding fd) -> forall udpRoute answer,
  TInv (dialStep id udpRoute answer (Holding fd) s).
Proof.
  intros Hi Hd udpRoute answer. unfold dialStep, trackSocket, trackSocketOf.
  set (d' := if ts_closing s then Dropping fd (ESent NetErrClosed) else Tracked fd).
  assert (counted d' = 1%Z /\ mentions d' = Some fd /\ holds d' = None) as (H1 & H2 & H3) by (subst d'; by case_match).
  clearbody d'. eapply (TInv_dial_moves s _ id (Holding fd) d'); try done; cbn.
  - eapply pool_ok_weaken; [|exact (pool_ok_lists _ _ fd _ (ti_pool _ Hi))]. intros fd' [Hf Hne].
    eapply in_hands_moved; [exact Hd|done|done|exact Hf|left; cbn; congruence].
  - intros fd' [->%elem_of_singleton|H]%elem_of_union; [by right|by left].
  - intros fd' Hf. apply (ti_dials _ Hi _ _ _ Hd). cbn. congruence.
  - rewrite H1. lia.
Qed.

Lemma TInv_ending s id res udpRoute answer :
  TInv s -> ts_dials s !! id = Some (Ending res) -> TInv (dialStep id udpRoute answer (Ending res) s).
Proof.
  intros Hi Hd. cbn. set (s1 := endDialing s).
  assert (ts_pool s1 = ts_pool s /\ ts_dials s1 = ts_dials s /\ ts_closers s1 = ts_closers s /\ ts_next s1 = ts_next s /\
    ts_installed s1 = ts_installed s /\ ts_pending s1 = (ts_pending s - 1)%Z /\ ts_routes s1 = ts_routes s)
    as (E1 & E2 & E3 & E4 & E5 & E6 & E7) by (subst s1; unfold endDialing; by case_match).
  clearbody s1. eapply (TInv_dial_moves s _ id (Ending res) (Ended res)); try done; cbn; rewrite ?E1, ?E2, ?E4, ?E6; try done.
  - eapply pool_ok_weaken; [|exact (ti_pool _ Hi)]. intros fd Hf.
    eapply in_hands_moved; [exact Hd|cbn; by rewrite E2|cbn; by rewrite E7|exact Hf|by left].
  - by left.
  - lia.
Qed.

Lemma TInv_dialStep id udpRoute answer d s :
  TInv s -> ts_dials s !! id = Some d -> TInv (dialStep id udpRoute answer d s).
Proof.
  intros Hi Hd. destruct d as [|fd|fd|fd|fd err|res|res].
  - destruct answer as [destination env|a|e|e]; cbn; unfold createSocket; try done; [|by eapply TInv_set_dial].
    destruct (control destination env) as [calls [err|]]; [done|].
    destruct udpRoute; apply TInv_open; auto.
  - destruct answer; try done. by apply TInv_checked.
  - by apply TInv_track.
  - destruct answer as [destination env|a|[e|]|e]; try done; by eapply TInv_set_dial.
  - destruct answer as [destination env|a|e|e]; try done. cbn.
    pose proof (TInv_closeSocket fd a s Hi (ti_dials _ Hi _ _ _ Hd eq_refl)) as Hi1.
    destruct (closeSocket fd a s) as [s1 err1] eqn:E. destruct (closeSocket_same _ _ _ _ _ E) as (E1 & _).
    cbn [fst] in *. eapply TInv_set_dial; [done|by rewrite E1|done..].
  - by apply TInv_ending.
  - by destruct answer.
Qed.

(** ** Closes *)

Lemma conclude_None expired s :
  conclude expired s = None -> ts_pending s = 0%Z /\ po_listed (ts_pool s) = ∅.
Proof.
  unfold conclude. set (start := if (ts_pending s =? 0)%Z then _ else _). intros H.
  assert (forall fds e, foldl (fun result fd => join [result; remains s fd]) (Some e) fds <> None) as Hsome.
  { induction fds as [|fd fds IH]; intros e; [done|]. cbn -[join]. destruct (join _) eqn:E; [apply IH|].
    apply join_None in E. by inversion E. }
  destruct start as [e|] eqn:E; [by destruct (Hsome _ _ H)|]. split.
  - subst start. destruct (Z.eqb_spec (ts_pending s) 0); [done|]. by case_match.
  - apply leibniz_equiv, elements_empty_iff. destruct (elements (po_listed (ts_pool s))) as [|fd fds]; [done|].
    cbn -[join] in H. destruct (join [None; remains s fd]) eqn:Ej; [by destruct (Hsome _ _ H)|].
    apply join_None in Ej. inversion Ej as [|? ? _ Hr]. inversion Hr as [|? ? Hrem]. unfold remains in Hrem. by case_match.
Qed.

(** A closer moves on. *)
Lemma TInv_set_closer s id c :
  TInv s ->
  (forall rest pending fd, c = ClosingSockets rest pending -> fd ∈ rest -> fd < ts_next s) ->
  (c = CloseReturned None -> closed_down s) -> TInv (set_closer id c s).
Proof.
  intros [] Hr Hc. constructor; cbn; try done.
  - intros id' rest pending fd [[-> ->]|[_ Hl]]%lookup_insert_Some Hfd; [by eapply Hr|by eapply ti_closers0].
  - intros id' [[-> ->]|[_ Hl]]%lookup_insert_Some; [by destruct (Hc eq_refl)|by destruct (ti_returned0 _ Hl)].
  - intros H. by destruct (ti_installed0 H).
Qed.

(** What concludes has sealed the owner before. *)
Record sealed (s : transports) : Prop := mkSealed {
  se_closers : forall id c, ts_closers s !! id = Some c -> ts_closing s = true
}.

Lemma TInv_closerStep id answer expired c s :
  TInv s -> sealed s -> ts_closers s !! id = Some c -> TInv (closerStep id answer expired c s).
Proof.
  intros Hi [Hse] Hc. specialize (Hse _ _ Hc). destruct c as [[|fd rest] pending| | |[err|]]; cbn.
  - apply TInv_set_closer; destruct pending; done.
  - assert (forall x, x ∈ fd :: rest -> x < ts_next s) as Hlt by (intros x; by eapply (ti_closers _ Hi)).
    destruct (closeSocket fd answer s) as [s1 err] eqn:E. pose proof (closeSocket_same _ _ _ _ _ E) as (E1 & E2 & E3 & E4 & _).
    pose proof (TInv_closeSocket fd answer s Hi (Hlt _ (list_elem_of_here _ _))) as Hi1. rewrite E in Hi1.
    apply TInv_set_closer; [done| |done]. cbn. rewrite E4. intros rest' p x [= <- <-] Hx. apply Hlt. by right.
  - case_match; [|done]. by apply TInv_set_closer.
  - apply TInv_set_closer; [done..|]. intros [= Hn]. destruct (conclude_None _ _ Hn). by constructor.
  - done.
  - destruct (ti_returned _ Hi _ Hc). by destruct Hi.
Qed.

Lemma TInv_closeBegin id s : TInv s -> TInv (closeBegin id s).
Proof.
  intros Hi. unfold closeBegin. apply TInv_set_closer; cbn; [|intros ? ? fd [= <- _]|done].
  - destruct Hi. constructor; try done; cbn.
    + intros id' H. by destruct (ti_returned0 _ H).
    + intros H. by destruct (ti_installed0 H).
  - intros Hfd%elem_of_elements. by apply (ti_listed _ Hi).
Qed.

Lemma TInv_begin s s' id :
  TInv s -> ts_dials s !! id = None -> begin s = Ok s' -> TInv (set_dial id Working s').
Proof.
  intros Hi Hd. unfold begin. destruct (ts_closing s) eqn:Hc; [done|].
  set (s1 := if (ts_pending s =? 0)%Z then _ else _).
  assert (ts_pool s1 = ts_pool s /\ ts_dials s1 = ts_dials s /\ ts_closers s1 = ts_closers s /\ ts_next s1 = ts_next s /\
    ts_installed s1 = ts_installed s /\ ts_pending s1 = ts_pending s /\ ts_routes s1 = ts_routes s)
    as (E1 & E2 & E3 & E4 & E5 & E6 & E7) by (subst s1; by case_match).
  clearbody s1. intros [= <-]. destruct Hi. constructor; cbn; rewrite ?E1, ?E2, ?E3, ?E4, ?E5, ?E6; try done.
  - eapply pool_ok_weaken; [|exact ti_pool0]. intros fd [H|(id' & d & Hl & Hh)]; [left; cbn; by rewrite ?E7|].
    right. exists id', d. cbn. rewrite ?E2, lookup_insert_ne by congruence. done.
  - intros id' d fd [[-> <-]|[_ Hl]]%lookup_insert_Some; [done|by eapply ti_dials0].
  - rewrite csum_insert by done. cbn. lia.
  - intros id' H. destruct (ti_returned0 _ H). congruence.
  - intros H. destruct (ti_installed0 H). congruence.
Qed.

Lemma TInv_refused s id res : TInv s -> ts_dials s !! id = None -> TInv (set_dial id (Ended res) s).
Proof.
  intros [] Hd. constructor; cbn; try done.
  - eapply pool_ok_weaken; [|exact ti_pool0]. intros fd [H|(id' & d & Hl & Hh)]; [by left|].
    right. exists id', d. cbn. rewrite lookup_insert_ne by congruence. done.
  - intros id' d fd [[-> <-]|[_ Hl]]%lookup_insert_Some; [done|by eapply ti_dials0].
  - rewrite csum_insert by done. cbn. lia.
  - intros id' H. by destruct (ti_returned0 _ H).
  - intros H. by destruct (ti_installed0 H).
Qed.

Lemma ti_known s fd :
  TInv s -> fd ∈ po_listed (ts_pool s) ∪ po_closed (ts_pool s) -> fd < ts_next s.
Proof. intros Hi [H|H]%elem_of_union; [by apply (ti_listed _ Hi)|by apply (pk_fresh _ _ _ (ti_pool _ Hi))]. Qed.

Lemma transport_step_TInv op s : TInv s -> sealed s -> TInv (transport_step op s).
Proof.
  intros Hi Hse. destruct op as [id udpRoute answer|fd answer|id answer expired]; cbn.
  - destruct (ts_dials s !! id) as [d|] eqn:Hd; [by apply TInv_dialStep|].
    destruct (begin s) eqn:Hb; [by eapply TInv_begin|by apply TInv_refused].
  - case_bool_decide as Hk; [|done]. apply TInv_closeSocket; [done|by apply ti_known].
  - destruct (ts_closers s !! id) as [c|] eqn:Hc; [by apply TInv_closerStep|by apply TInv_closeBegin].
Qed.

(** ** All steps *)

Lemma dialStep_closers id udpRoute answer d s :
  ts_closers (dialStep id udpRoute answer d s) = ts_closers s /\
  ts_closing (dialStep id udpRoute answer d s) = ts_closing s.
Proof.
  destruct d, answer; cbn; try done;
    unfold createSocket, routeChecked, trackSocket, trackChecked, endDialing, closeSocket;
    repeat (case_match; simplify_eq/=); done.
Qed.

Lemma sealed_step op s : sealed s -> sealed (transport_step op s).
Proof.
  intros [Hse]. constructor. destruct op as [id udpRoute answer|fd answer|id answer expired]; cbn.
  - destruct (ts_dials s !! id) as [d|]; [destruct (dialStep_closers id udpRoute answer d s) as [-> ->]; exact Hse|].
    unfold begin. destruct (ts_closing s) eqn:E; [intros; exact E|]. case_match; cbn; intros ? ? X; by apply Hse in X.
  - case_bool_decide; [|exact Hse]. destruct (closeSocket fd answer s) as [s1 err] eqn:E.
    destruct (closeSocket_same _ _ _ _ _ E) as (_ & E2 & _ & _ & E5 & _). cbn. rewrite E2, E5. exact Hse.
  - destruct (ts_closers s !! id) as [c|] eqn:Hc; [|done]. specialize (Hse _ _ Hc).
    intros id' c' _. destruct c as [[|fd rest] pending| | |[err|]]; cbn; try done; [|by case_match].
    destruct (closeSocket fd answer s) as [s1 err] eqn:E. destruct (closeSocket_same _ _ _ _ _ E) as (_ & _ & _ & _ & E5 & _).
    cbn. by rewrite E5.
Qed.

Lemma transport_run_inv ops s : TInv s -> sealed s -> TInv (transport_run ops s) /\ sealed (transport_run ops s).
Proof.
  revert s. induction ops as [|op ops IH]; intros s Hi Hse; [done|]. cbn.
  by apply IH; [apply transport_step_TInv|apply sealed_step].
Qed.

Lemma new_sealed : sealed newTransportSockets.
Proof. by constructor. Qed.

(** A closed-down owner stays so, and leaks no route check any more. *)
Lemma closed_down_step op s :
  TInv s -> closed_down s -> closed_down (transport_step op s) /\ ts_routes (transport_step op s) = ts_routes s.
Proof.
  intros Hi Hcd. pose proof Hcd as [C1 C2 C3].
  assert (forall fd answer, let s' := (closeSocket fd answer s).1 in closed_down s' /\ ts_routes s' = ts_routes s) as Hclose.
  { intros fd answer. destruct (closeSocket fd answer s) as [s1 err] eqn:E.
    destruct (closeSocket_same _ _ _ _ _ E) as (_ & _ & E3 & _ & E5 & E6 & _ & e & Hc).
    destruct (closeOwned_shrinks _ _ _ _ _ Hc) as [_ Hl]. split; [|done].
    constructor; cbn; [congruence..|]. rewrite C3 in Hl. set_solver. }
  destruct op as [id udpRoute answer|fd answer|id answer expired]; cbn.
  - destruct (ts_dials s !! id) as [d|] eqn:Hd.
    + destruct (closed_down_ended _ _ _ Hi Hcd Hd) as [res ->]. by destruct answer.
    + unfold begin. by rewrite C1.
  - case_bool_decide; [apply Hclose|done].
  - destruct (ts_closers s !! id) as [c|]; [|by split; [constructor|]].
    destruct c as [[|fd rest] pending| | |[err|]]; cbn; try case_match; try (split; [by constructor|done]).
    destruct (Hclose fd answer) as [[] Hr]. split; [by constructor|done].
Qed.

Lemma closed_down_run ops s :
  TInv s -> sealed s -> closed_down s ->
  closed_down (transport_run ops s) /\ ts_routes (transport_run ops s) = ts_routes s.
Proof.
  revert s. induction ops as [|op ops IH]; intros s Hi Hse Hcd; [done|]. cbn.
  destruct (closed_down_step op s Hi Hcd) as [Hcd' <-].
  by apply IH; [apply transport_step_TInv|apply sealed_step|].
Qed.

(** ** Opening *)

Lemma closeSocket_open fd answer s : po_open (ts_pool (closeSocket fd answer s).1) ⊆ po_open (ts_pool s).
Proof.
  destruct (closeSocket fd answer s) as [s1 err] eqn:E.
  destruct (closeSocket_same _ _ _ _ _ E) as (_ & _ & _ & _ & _ & _ & _ & e & Hc).
  by destruct (closeOwned_shrinks _ _ _ _ _ Hc).
Qed.

Lemma control_protects_last destination env calls :
  control destination env = (calls, None) -> last calls = Some (ProtectedSocket true).
Proof.
  unfold control. destruct (dialContextError env); [done|]. destruct (co_control env); [done|].
  destruct (co_protect env); [done|]. intros [= <-]. by rewrite last_snoc.
Qed.

Lemma begin_open s s' : begin s = Ok s' -> ts_pool s' = ts_pool s.
Proof. unfold begin. destruct (ts_closing s); [done|]. case_match; by intros [= <-]. Qed.

(** A step after which another socket is open. *)
Definition creates (op : transportOp) : Prop :=
  exists id udpRoute destination env calls, op = DialStep id udpRoute (DialControl destination env) /\
    control destination env = (calls, None) /\ last calls = Some (ProtectedSocket true).

Lemma step_opens op s fd :
  fd ∉ po_open (ts_pool s) -> fd ∈ po_open (ts_pool (transport_step op s)) -> creates op.
Proof.
  intros Hn Ho. destruct op as [id udpRoute answer|fd' answer|id answer expired]; cbn in Ho.
  - destruct (ts_dials s !! id) as [d|].
    + destruct d as [|fd1|fd1|fd1|fd1 e1|res|res], answer as [destination env|a|[e|]|e]; cbn in Ho; try done.
      * unfold createSocket in Ho. destruct (control destination env) as [calls [err|]] eqn:E; [done|].
        exists id, udpRoute, destination, env, calls. split_and!; [done..|by eapply control_protects_last].
      * exfalso. unfold routeChecked, closeRaw in Ho. repeat case_match; cbn in Ho; set_solver.
      * destruct (Hn (closeSocket_open _ _ _ _ Ho)).
      * unfold endDialing in Ho. by case_match.
      * unfold endDialing in Ho. by case_match.
      * unfold endDialing in Ho. by case_match.
      * unfold endDialing in Ho. by case_match.
      * unfold endDialing in Ho. by case_match.
    + destruct (begin s) eqn:E; [apply begin_open in E; cbn in Ho; congruence|done].
  - case_bool_decide; [destruct (Hn (closeSocket_open _ _ _ _ Ho))|done].
  - destruct (ts_closers s !! id) as [[[|fd' rest] pending| | |[err|]]|]; cbn in Ho; try done; try (by case_match).
    destruct (Hn (closeSocket_open _ _ _ _ Ho)).
Qed.

(** Whatever the order of dials, closes by Xray and closes of the owner, and
    whatever the network answers: once a close of the owner returned nil, or the
    dialer was uninstalled, no socket is open but UDP route checks whose own
    close failed, and none is opened ever again; and a socket is created only
    by a dial whose contexts were alive and whose last act on it, after any
    socket options, was to have the platform protect it. *)
Theorem xray_close_leaves_nothing_open (ops : list transportOp) :
  let s := transport_run ops newTransportSockets in
  (forall id, ts_closers s !! id = Some (CloseReturned None) \/ ts_installed s = false ->
    forall ops', let s' := transport_run ops' s in
      po_open (ts_pool s') ⊆ ts_routes s /\ po_listed (ts_pool s') = ∅ /\ ts_pending s' = 0%Z) /\
  (forall op fd, fd ∉ po_open (ts_pool s) -> fd ∈ po_open (ts_pool (transport_step op s)) -> creates op).
Proof.
  intros s. destruct (transport_run_inv ops _ TInv_new new_sealed) as [Hi Hse]. fold s in Hi, Hse. split.
  - intros id Hr ops'. assert (closed_down s) as Hcd.
    { destruct Hr as [Hr|Hr]; [by eapply (ti_returned _ Hi)|by apply (ti_installed _ Hi)]. }
    destruct (closed_down_run ops' s Hi Hse Hcd) as [Hcd' Hr']. cbv zeta. rewrite <- Hr'.
    destruct (transport_run_inv ops' s Hi Hse) as [Hi' _].
    split_and!; [by apply closed_down_open|apply Hcd'..].
  - intros op fd. apply step_opens.
Qed.

(** A dial that returns after the close began, and a socket whose close fails
    at first: the first close reports it, the second one retries only that. *)
Example close_retries :
  let ok := DialStep 0 false in
  let env := mkControlEnv None None None true None (Some (EText "unsupported")) None in
  let s := transport_run
    [ok (DialGivesUp (EText "")); ok (DialControl "192.0.2.1:443" env); CloserStep 0 None None;
     ok (DialGivesUp (EText "")); ok (DialClosed (Some (EText "busy"))); ok (DialGivesUp (EText "late"));
     ok (DialGivesUp (EText "")); CloserStep 0 None None; CloserStep 0 None None; CloserStep 0 None None;
     CloserStep 1 None None; CloserStep 1 None None; CloserStep 1 None None; CloserStep 1 None None]
    newTransportSockets in
  ts_closers s !! 0 = Some (CloseReturned (join [None; Some (EText "busy")])) /\
  ts_closers s !! 1 = Some (CloseReturned None) /\ ts_dials s !! 0 = Some (Ended (Err (EText "late"))).
Proof. split_and!; reflexivity. Qed.
