(* ===== verification/Forwarder.v ===== *)
(** * TrustTunnel's endpoint forwarder (core/trusttunnel/endpoint_forwarder.go)

    A local TCP and UDP endpoint in front of one upstream address, so that the
    native engine's sockets stay inside the attempt's protected dialer.  The
    accept loop, the UDP loop, the relays and every Close are program counters
    cut at the forwarder's lock and at the calls to the network. *)

From S2P Require Import Prelude Errors GoStrings Sockets.
Local Open Scope string_scope.
Local Open Scope list_scope.

(** ** The pair of listeners *)

(** What one attempt meets: the context before the TCP listen, its port, the
    context after it, the UDP bind, the context after that, and the closes. *)
Record pairAttempt := mkPairAttempt {
  pa_ctx : option gerr;
  pa_tcp : result string gerr;
  pa_ctxTCP : option gerr;
  pa_udp : option gerr;
  pa_ctxUDP : option gerr;
  pa_closeTCP : option gerr;
  pa_closeUDP : option gerr;
  pa_ctxRetry : option gerr
}.

(** Listeners opened and closed, in order. *)
Inductive pairEvent :=
| TCPOpened (candidate : string)
| UDPOpened (candidate : string)
| TCPClosed (candidate : string)
| UDPClosed (candidate : string).

Definition maxAttempts : nat := 16.

Section pair.
Context (retryEndpointPairBind : gerr -> bool) (attempts : nat -> pairAttempt).

Definition bindError (attempt : nat) (candidate : string) (err : gerr) : gerr :=
  EWrap ("endpoint pair attempt " +:+ Itoa (Z.of_nat attempt) +:+ " candidate " +:+ candidate +:+ " udp4") err.

(** The attempts from [attempt] on, of which [n] remain; the pair's address. *)
Fixpoint listenAttempts (n attempt : nat) (last : option gerr) :
    list pairEvent * result string (option gerr) :=
  match n with
  | O =>
      let text := "endpoint pair exhausted " +:+ Itoa (Z.of_nat maxAttempts) +:+ " candidates" in
      ([], Err (Some (match last with Some err => EWrap text err | None => EText text end)))
  | S n =>
      let a := attempts attempt in
      match pa_ctx a with
      | Some err => ([], Err (join [last; Some err]))
      | None =>
      match pa_tcp a with
      | Err err => ([], Err (join [last; Some err]))
      | Ok candidate =>
      match pa_ctxTCP a with
      | Some err => ([TCPOpened candidate; TCPClosed candidate], Err (join [last; Some err; pa_closeTCP a]))
      | None =>
      match pa_udp a with
      | None =>
          match pa_ctxUDP a with
          | Some err =>
              ([TCPOpened candidate; UDPOpened candidate; TCPClosed candidate; UDPClosed candidate],
               Err (join [last; Some err; pa_closeTCP a; pa_closeUDP a]))
          | None => ([TCPOpened candidate; UDPOpened candidate], Ok candidate)
          end
      | Some err =>
          let last := join [last; Some (bindError attempt candidate err)] in
          let events := [TCPOpened candidate; TCPClosed candidate] in
          if negb (bool_decide (pa_closeTCP a = None)) || negb (bool_decide (pa_ctxRetry a = None)) ||
             negb (retryEndpointPairBind err)
          then (events, Err (join [last; pa_ctxRetry a; pa_closeTCP a]))
          else
            let '(later, res) := listenAttempts n (S attempt) last in
            (events ++ later, res)
      end end end end
  end.

Definition listenEndpointPair : list pairEvent * result string (option gerr) :=
  listenAttempts maxAttempts 1 None.
End pair.

(** ** The forwarder *)

(** The accept loop, a TCP relay (dialing for its local socket, with a remote
    one that is not tracked yet, copying, releasing), the UDP loop and the
    relay of one peer's answers. *)
Inductive worker :=
| Accepting
| Accepted (local : nat)
| AcceptLate (local : nat)
| RelayDialing (local : nat)
| RelayDialed (local remote : nat)
| Copying (local remote : nat)
| Releasing (fds : list nat)
| Receiving
| PeerDialing (key : string)
| PeerDialed (key : string) (fd : nat)
| PeerLate (fd : nat)
| Returning (key : string) (fd : nat)
| WorkerDone.

#[export] Instance worker_eq_dec : EqDecision worker.
Proof. solve_decision. Defined.

(** [Close]: its two listeners, the snapshot it releases, the wait for the
    workers, the second snapshot. *)
Inductive closing :=
| ClosingTCP (snapshot : list nat)
| ClosingUDP (snapshot : list nat) (failed : option gerr)
| ReleasingConns (rest : list nat) (failed : option gerr)
| WaitingWorkers
| ReleasingLate (rest : list nat) (failed : option gerr)
| ForwarderClosed (res : option gerr).

(** [fw_address] is the upstream it dials, [fw_local] the address its pair
    listens on ([localAddress]). *)
Record forwarder := mkForwarder {
  fw_address : string;
  fw_local : string;
  fw_pool : pool;
  fw_next : nat;
  fw_tcp : bool;
  fw_udp : bool;
  fw_canceled : bool;
  fw_closed : bool;
  fw_peers : gmap string nat;
  fw_workers : gmap nat worker;
  fw_nextWorker : nat;
  fw_closes : gmap nat closing
}.
#[export] Instance eta_forwarder : Settable forwarder := fun x =>
  mkForwarder (fw_address x) (fw_local x) (fw_pool x) (fw_next x) (fw_tcp x) (fw_udp x) (fw_canceled x) (fw_closed x) (fw_peers x)
    (fw_workers x) (fw_nextWorker x) (fw_closes x).

(** [newEndpointForwarder], once the pair listens at [local]. *)
Definition newEndpointForwarder (address local : string) : forwarder :=
  mkForwarder address local emptyPool 0 true true false false ∅ {[0 := Accepting; 1 := Receiving]} 2 ∅.

Definition set_worker (w : nat) (pc : worker) (f : forwarder) : forwarder :=
  f <| fw_workers ::= <[w := pc]> |>.

(** [workers.Add(1)] and the goroutine. *)
Definition spawn (pc : worker) (f : forwarder) : forwarder :=
  set_worker (fw_nextWorker f) pc f <| fw_nextWorker ::= S |>.

(** [track] up to the release of a socket that came after [Close] began. *)
Definition trackConn (fd : nat) (f : forwarder) : forwarder * bool :=
  (f <| fw_pool ::= lists fd |>, fw_closed f).

(** [release] *)
Definition releaseConn (fd : nat) (answer : option gerr) (f : forwarder) : forwarder * option gerr :=
  let '(p, err) := closeOwned fd answer (fw_pool f) in (f <| fw_pool := p |>, err).

Definition openConn (f : forwarder) : forwarder * nat :=
  (f <| fw_pool ::= opens (fw_next f) |> <| fw_next ::= S |>, fw_next f).

(** What a worker's call returned: a socket accepted or dialed, a datagram of a
    peer, an error, or a close's answer. *)
Inductive workerAnswer :=
| GotSocket
| GotPeer (key : string)
| GotError
| GotClose (answer : option gerr).

Definition workerStep (w : nat) (pc : worker) (answer : workerAnswer) (f : forwarder) : forwarder :=
  match pc, answer with
  | Accepting, GotSocket =>
      if fw_tcp f then let '(f, fd) := openConn f in set_worker w (Accepted fd) f else f
  | Accepting, GotError => set_worker w WorkerDone f
  | Accepted local, _ =>
      let '(f, late) := trackConn local f in
      if late then set_worker w (AcceptLate local) f
      else spawn (RelayDialing local) (set_worker w Accepting f)
  | AcceptLate local, GotClose answer => set_worker w WorkerDone (releaseConn local answer f).1
  | RelayDialing local, GotError => set_worker w (Releasing [local]) f
  | RelayDialing local, GotSocket =>
      let '(f, fd) := openConn f in set_worker w (RelayDialed local fd) f
  | RelayDialed local remote, _ =>
      let '(f, late) := trackConn remote f in
      set_worker w (if late then Releasing [remote; local] else Copying local remote) f
  | Copying local remote, GotError => set_worker w (Releasing [remote; local]) f
  | Copying local remote, GotClose answer =>
      (releaseConn local answer (releaseConn remote answer f).1).1
  | Releasing (fd :: rest), GotClose answer => set_worker w (Releasing rest) (releaseConn fd answer f).1
  | Releasing [], _ => set_worker w WorkerDone f
  | Receiving, GotError => set_worker w WorkerDone f
  | Receiving, GotPeer key =>
      if fw_udp f then
        match fw_peers f !! key with
        | Some _ => f
        | None => set_worker w (PeerDialing key) f
        end
      else f
  | PeerDialing key, GotError => set_worker w Receiving f
  | PeerDialing key, GotSocket => let '(f, fd) := openConn f in set_worker w (PeerDialed key fd) f
  | PeerDialed key fd, _ =>
      let '(f, late) := trackConn fd f in
      if late then set_worker w (PeerLate fd) f
      else spawn (Returning key fd) (set_worker w Receiving f <| fw_peers ::= <[key := fd]> |>)
  | PeerLate fd, GotClose answer => set_worker w WorkerDone (releaseConn fd answer f).1
  | Returning key fd, GotError => set_worker w (Releasing [fd]) f <| fw_peers ::= delete key |>
  | _, _ => f
  end.

(** *** Close *)

Definition set_closing (id : nat) (c : closing) (f : forwarder) : forwarder :=
  f <| fw_closes ::= <[id := c]> |>.

(** [errors.Join(result, err)] where [net.ErrClosed] is not an error. *)
Definition joinClose (failed answer : option gerr) : option gerr :=
  if closeFailed answer then join [failed; answer] else failed.

Definition all_done (f : forwarder) : bool := bool_decide (map_Forall (fun _ pc => pc = WorkerDone) (fw_workers f)).

Definition closeBegins (id : nat) (f : forwarder) : forwarder :=
  let f := f <| fw_canceled := true |> <| fw_closed := true |> in
  set_closing id (ClosingTCP (elements (po_listed (fw_pool f)))) f.

Definition closeStep (id : nat) (answer : option gerr) (c : closing) (f : forwarder) : forwarder :=
  match c with
  | ClosingTCP snapshot =>
      let f := if closeFailed answer then f else f <| fw_tcp := false |> in
      set_closing id (ClosingUDP snapshot (joinClose None answer)) f
  | ClosingUDP snapshot failed =>
      let f := if closeFailed answer then f else f <| fw_udp := false |> in
      set_closing id (ReleasingConns snapshot (joinClose failed answer)) f
  | ReleasingConns (fd :: rest) failed =>
      let '(f, err) := releaseConn fd answer f in
      set_closing id (ReleasingConns rest (match err with Some _ => join [failed; err] | None => failed end)) f
  | ReleasingConns [] (Some err) =>
      set_closing id (ForwarderClosed (Some (EWrap "close protected endpoint forwarder" err))) f
  | ReleasingConns [] None => set_closing id WaitingWorkers f
  | WaitingWorkers =>
      if all_done f then set_closing id (ReleasingLate (elements (po_listed (fw_pool f))) None) f else f
  | ReleasingLate (fd :: rest) failed =>
      let '(f, err) := releaseConn fd answer f in
      set_closing id (ReleasingLate rest (join [failed; err])) f
  | ReleasingLate [] (Some err) =>
      set_closing id (ForwarderClosed (Some (EWrap "close late protected endpoint socket" err))) f
  | ReleasingLate [] None => set_closing id (ForwarderClosed None) f
  | ForwarderClosed _ => f
  end.

Inductive forwarderOp :=
| WorkerStep (w : nat) (answer : workerAnswer)
| CloseStep (id : nat) (answer : option gerr).

Definition forwarder_step (op : forwarderOp) (f : forwarder) : forwarder :=
  match op with
  | WorkerStep w answer =>
      match fw_workers f !! w with Some pc => workerStep w pc answer f | None => f end
  | CloseStep id answer =>
      match fw_closes f !! id with Some c => closeStep id answer c f | None => closeBegins id f end
  end.

Definition forwarder_run (ops : list forwarderOp) (f : forwarder) : forwarder :=
  fold_left (fun f op => forwarder_step op f) ops f.
