(* ===== verification/ForwarderTheorems.v ===== *)
(** * What the endpoint forwarder guarantees

    The pair of listeners is found within sixteen attempts and no candidate is
    left behind without a close; after a Close that returned nil neither a
    listener nor a relayed socket is open, and none is opened again. *)

From S2P Require Import Prelude Errors GoStrings Sockets Forwarder.
Local Open Scope string_scope.
Local Open Scope list_scope.

(** ** The pair *)

Fixpoint openTCP (events : list pairEvent) (open : gset string) : gset string :=
  match events with
  | [] => open
  | TCPOpened c :: events => openTCP events ({[c]} ∪ open)
  | TCPClosed c :: events => openTCP events (open ∖ {[c]})
  | _ :: events => openTCP events open
  end.

Fixpoint openUDP (events : list pairEvent) (open : gset string) : gset string :=
  match events with
  | [] => open
  | UDPOpened c :: events => openUDP events ({[c]} ∪ open)
  | UDPClosed c :: events => openUDP events (open ∖ {[c]})
  | _ :: events => openUDP events open
  end.

(** How many TCP ports were tried. *)
Definition tried (events : list pairEvent) : nat :=
  sum_list_with (fun ev => match ev with TCPOpened _ => 1 | _ => 0 end) events.

(** What was opened and not told to close is the result's pair. *)
Definition exactly (res : result string (option gerr)) (open : gset string) : Prop :=
  match res with Ok c => open = {[c]} | Err err => open = ∅ /\ err <> None end.

Lemma reopened (c : string) : ({[c]} ∪ ∅) ∖ {[c]} = (∅ : gset string).
Proof. set_solver. Qed.

Lemma listenAttempts_exact retry attempts n attempt last :
  let '(events, res) := listenAttempts retry attempts n attempt last in
  exactly res (openTCP events ∅) /\ exactly res (openUDP events ∅) /\ tried events <= n.
Proof.
  revert attempt last. induction n as [|n IH]; intros attempt last; [done|]. cbn [listenAttempts].
  set (a := attempts attempt).
  assert (forall errs e, join (last :: Some e :: errs) <> None) as Hj by (intros errs e; by destruct last).
  destruct (pa_ctx a) as [e|]; [cbn -[join]; split_and!; try done; lia|].
  destruct (pa_tcp a) as [c|e]; [|cbn -[join]; split_and!; try done; lia].
  destruct (pa_ctxTCP a) as [e|]; [cbn -[join]; rewrite reopened; split_and!; try done; lia|].
  destruct (pa_udp a) as [e|].
  2:{ destruct (pa_ctxUDP a) as [e|]; cbn -[join]; rewrite ?reopened; split_and!; try done; try lia; set_solver. }
  set (last' := join [last; Some (bindError attempt c e)]). assert (last' <> None) as Hl by apply Hj.
  destruct (negb _ || negb _ || negb _).
  { cbn -[join]. rewrite reopened. split_and!; try done; try lia; intros Hn; apply join_None in Hn; by inversion Hn. }
  specialize (IH (S attempt) last').
  destruct (listenAttempts retry attempts n (S attempt) last') as [later res]. destruct IH as (I1 & I2 & I3).
  cbn. rewrite reopened. split_and!; [done..|]. unfold tried in *. lia.
Qed.

(** ** The invariant of the forwarder *)

Definition worker_holds (pc : worker) : option nat :=
  match pc with Accepted fd | RelayDialed _ fd | PeerDialed _ fd => Some fd | _ => None end.

(** The sockets a worker will close or hand on. *)
Definition worker_fds (pc : worker) : list nat :=
  match pc with
  | Accepted fd | AcceptLate fd | RelayDialing fd | PeerDialed _ fd | PeerLate fd | Returning _ fd => [fd]
  | RelayDialed l r | Copying l r => [l; r]
  | Releasing fds => fds
  | _ => []
  end.

Definition workers_hold (ws : gmap nat worker) (fd : nat) : Prop :=
  exists w pc, ws !! w = Some pc /\ worker_holds pc = Some fd.

Definition workers_done (f : forwarder) : Prop := map_Forall (fun _ pc => pc = WorkerDone) (fw_workers f).

Definition close_fds (c : closing) : list nat :=
  match c with
  | ClosingTCP fds | ClosingUDP fds _ | ReleasingConns fds _ | ReleasingLate fds _ => fds
  | _ => []
  end.

(** What a Close has achieved where it stands. *)
Definition close_ok (c : closing) (f : forwarder) : Prop :=
  fw_closed f = true /\
  match c with
  | ClosingTCP _ => True
  | ClosingUDP _ failed => failed = None -> fw_tcp f = false
  | ReleasingConns _ failed => failed = None -> fw_tcp f = false /\ fw_udp f = false
  | WaitingWorkers => fw_tcp f = false /\ fw_udp f = false
  | ReleasingLate rest failed =>
      fw_tcp f = false /\ fw_udp f = false /\ workers_done f /\
      (failed = None -> forall fd, fd ∈ po_open (fw_pool f) -> fd ∈ rest)
  | ForwarderClosed None =>
      fw_tcp f = false /\ fw_udp f = false /\ workers_done f /\ po_open (fw_pool f) = ∅
  | ForwarderClosed (Some _) => True
  end.

Record FwInv (f : forwarder) : Prop := mkFwInv {
  fi_pool : pool_ok (workers_hold (fw_workers f)) (fw_next f) (fw_pool f);
  fi_listed : forall fd, fd ∈ po_listed (fw_pool f) -> fd < fw_next f;
  fi_workers : forall w pc fd, fw_workers f !! w = Some pc -> fd ∈ worker_fds pc -> fd < fw_next f;
  fi_fresh : forall w pc, fw_workers f !! w = Some pc -> w < fw_nextWorker f;
  fi_closes : forall id c fd, fw_closes f !! id = Some c -> fd ∈ close_fds c -> fd < fw_next f;
  fi_achieved : forall id c, fw_closes f !! id = Some c -> close_ok c f
}.

Lemma FwInv_new address local : FwInv (newEndpointForwarder address local).
Proof.
  constructor.
  - apply pool_ok_empty.
  - intros fd H. by apply not_elem_of_empty in H.
  - cbn. intros w pc fd. rewrite lookup_insert_Some, lookup_singleton_Some.
    intros [[_ <-]|[_ [_ <-]]] Hin; by apply not_elem_of_nil in Hin.
  - cbn. intros w pc. rewrite lookup_insert_Some, lookup_singleton_Some. intros [[<- _]|[_ [<- _]]]; lia.
  - intros id c fd H. cbn in H. by rewrite lookup_empty in H.
  - intros id c H. cbn in H. by rewrite lookup_empty in H.
Qed.

(** A running worker means no Close has got past its wait. *)
Lemma close_ok_busy c f f' w pc :
  fw_workers f !! w = Some pc -> pc <> WorkerDone -> close_ok c f ->
  fw_tcp f' = fw_tcp f -> fw_udp f' = fw_udp f -> fw_closed f' = fw_closed f -> close_ok c f'.
Proof.
  intros Hw Hne [Hc Hok] E1 E2 E3. unfold close_ok. rewrite E1, E2, E3. split; [done|].
  assert (workers_done f -> False) as Hno by (intros Hd; exact (Hne (Hd _ _ Hw))).
  destruct c as [| | | |rest failed|[e|]]; try done; destruct Hok as (_ & _ & Hd & _); by destruct (Hno Hd).
Qed.

(** ** Workers *)

Section moves.
Context (f : forwarder) (w : nat) (pc : worker) (Hi : FwInv f).
Context (Hw : fw_workers f !! w = Some pc) (Hrun : pc <> WorkerDone).

Lemma worker_moves f' pc' :
  fw_workers f' = <[w := pc']> (fw_workers f) -> fw_closes f' = fw_closes f ->
  fw_tcp f' = fw_tcp f -> fw_udp f' = fw_udp f -> fw_closed f' = fw_closed f ->
  fw_nextWorker f' = fw_nextWorker f ->
  pool_ok (workers_hold (fw_workers f')) (fw_next f') (fw_pool f') ->
  (forall fd, fd ∈ po_listed (fw_pool f') -> (fd ∈ po_listed (fw_pool f)) \/ (fd ∈ worker_fds pc)) ->
  fw_next f <= fw_next f' -> (forall fd, fd ∈ worker_fds pc' -> fd < fw_next f') -> FwInv f'.
Proof.
  intros Hws Hcl E1 E2 E3 E4 Hp Hl Hn Hfds. destruct Hi. constructor; rewrite ?Hws, ?Hcl, ?E4.
  - by rewrite <- Hws.
  - intros fd Hfd. destruct (Hl fd Hfd) as [H|H]; [apply fi_listed0 in H; lia|].
    specialize (fi_workers0 _ _ _ Hw H). lia.
  - intros w' pc1 fd [[-> <-]|[_ H]]%lookup_insert_Some Hfd; [by apply Hfds|].
    specialize (fi_workers0 _ _ _ H Hfd). lia.
  - intros w' pc1 [[-> <-]|[_ H]]%lookup_insert_Some; by eapply fi_fresh0.
  - intros id c fd Hc Hfd. specialize (fi_closes0 _ _ _ Hc Hfd). lia.
  - intros id c Hc. eapply close_ok_busy; eauto.
Qed.

Lemma workers_hold_moved pc' fd :
  workers_hold (fw_workers f) fd -> worker_holds pc <> Some fd \/ worker_holds pc' = Some fd ->
  workers_hold (<[w := pc']> (fw_workers f)) fd.
Proof.
  intros (w' & pc1 & H & Hh) Hk. destruct (decide (w' = w)) as [->|Hne].
  - exists w, pc'. rewrite lookup_insert_eq. split; [done|]. destruct Hk; [congruence|done].
  - exists w', pc1. by rewrite lookup_insert_ne.
Qed.

(** Only the worker's place changes. *)
Lemma worker_goes pc' :
  worker_holds pc = None -> (forall fd, fd ∈ worker_fds pc' -> fd ∈ worker_fds pc) -> FwInv (set_worker w pc' f).
Proof.
  intros Hh Hf. eapply worker_moves; try done.
  - eapply pool_ok_weaken; [|exact (fi_pool _ Hi)]. intros fd H. apply workers_hold_moved; [done|left; congruence].
  - by left.
  - intros fd H. by eapply (fi_workers _ Hi), Hf.
Qed.

(** The call returned a socket. *)
Lemma worker_opens pc' :
  worker_holds pc = None -> worker_holds pc' = Some (fw_next f) ->
  (forall fd, fd ∈ worker_fds pc' -> fd = fw_next f \/ (fd ∈ worker_fds pc)) ->
  FwInv (set_worker w pc' (openConn f).1).
Proof.
  intros Hh Hh' Hf. eapply worker_moves; try done; cbn.
  - eapply pool_ok_weaken; [|exact (pool_ok_opens _ _ _ (fi_pool _ Hi))]. intros fd [->|H].
    + exists w, pc'. by rewrite lookup_insert_eq.
    + apply workers_hold_moved; [done|left; congruence].
  - by left.
  - lia.
  - intros fd [->|H]%Hf; [lia|]. specialize (fi_workers _ Hi _ _ _ Hw H). lia.
Qed.

(** The socket it holds is listed. *)
Lemma worker_tracks fd pc' :
  worker_holds pc = Some fd -> worker_holds pc' = None -> (fd ∈ worker_fds pc) ->
  (forall x, x ∈ worker_fds pc' -> x ∈ worker_fds pc) -> FwInv (set_worker w pc' (trackConn fd f).1).
Proof.
  intros Hh Hh' Hfd Hf. eapply worker_moves; try done; cbn.
  - eapply pool_ok_weaken; [|exact (pool_ok_lists _ _ fd _ (fi_pool _ Hi))]. intros x [H Hne].
    apply workers_hold_moved; [done|left; congruence].
  - intros x [->%elem_of_singleton|H]%elem_of_union; [by right|by left].
  - intros x H. by eapply (fi_workers _ Hi), Hf.
Qed.

Lemma running_not_done : ~ workers_done f.
Proof. intros Hd. exact (Hrun (Hd _ _ Hw)). Qed.
End moves.

Lemma FwInv_spawn f pc w0 pc0 :
  FwInv f -> fw_workers f !! w0 = Some pc0 -> pc0 <> WorkerDone -> worker_holds pc = None ->
  (forall fd, fd ∈ worker_fds pc -> fd < fw_next f) -> FwInv (spawn pc f).
Proof.
  intros Hi Hw0 Hrun Hh Hf. destruct Hi. constructor; cbn; try done.
  - eapply pool_ok_weaken; [|exact fi_pool0]. intros fd (w' & pc1 & H & Hh1). exists w', pc1.
    rewrite lookup_insert_ne; [done|]. specialize (fi_fresh0 _ _ H). lia.
  - intros w' pc1 fd [[_ <-]|[_ H]]%lookup_insert_Some Hfd; [by apply Hf|by eapply fi_workers0].
  - intros w' pc1 [[<- _]|[_ H]]%lookup_insert_Some; [lia|]. specialize (fi_fresh0 _ _ H). lia.
  - intros id c Hc. eapply (close_ok_busy c f); eauto.
Qed.

Lemma FwInv_peers f g : FwInv f -> FwInv (f <| fw_peers ::= g |>).
Proof. by intros []. Qed.

(** ** Releases *)

Lemma releaseConn_same fd answer f f' err :
  releaseConn fd answer f = (f', err) ->
  f' = f <| fw_pool := fw_pool f' |> /\ closeOwned fd answer (fw_pool f) = (fw_pool f', err).
Proof. unfold releaseConn. destruct (closeOwned _ _ _) as [p e]. by intros [= <- <-]. Qed.

Lemma FwInv_release fd answer f f' err :
  FwInv f -> fd < fw_next f -> releaseConn fd answer f = (f', err) ->
  FwInv f' /\ (err = None -> fd ∉ po_open (fw_pool f')) /\ po_open (fw_pool f') ⊆ po_open (fw_pool f).
Proof.
  intros Hi Hfd Hr. destruct (releaseConn_same _ _ _ _ _ Hr) as [He Hc].
  destruct (pool_ok_closeOwned _ _ _ _ _ _ _ (fi_pool _ Hi) Hfd Hc) as [Hp Hn].
  destruct (closeOwned_shrinks _ _ _ _ _ Hc) as [Ho Hl]. split; [|done].
  rewrite He in *. clear He. destruct Hi. constructor; cbn in *; try done; [by intros x ?%Hl%fi_listed0|].
  intros id c H. destruct (fi_achieved0 id c H) as [H1 H2]. split; [done|].
  destruct c as [| | | |rest failed|[e|]]; try done; cbn in *; destruct H2 as (T1 & T2 & T3 & T4); split_and!; try done.
  - intros Hf x Hx. by apply T4, Ho.
  - set_solver.
Qed.

(** A worker closes one of its sockets and goes on. *)
Lemma worker_releases f w pc pc' fd answer :
  FwInv f -> fw_workers f !! w = Some pc -> pc <> WorkerDone -> worker_holds pc = None ->
  (fd ∈ worker_fds pc) -> (forall x, x ∈ worker_fds pc' -> x ∈ worker_fds pc) ->
  FwInv (set_worker w pc' (releaseConn fd answer f).1).
Proof.
  intros Hi Hw Hrun Hh Hfd Hf. destruct (releaseConn fd answer f) as [f1 err] eqn:E. cbn [fst].
  destruct (FwInv_release _ _ _ _ _ Hi (fi_workers _ Hi _ _ _ Hw Hfd) E) as [Hi1 _].
  destruct (releaseConn_same _ _ _ _ _ E) as [He _].
  apply (worker_goes f1 w pc); try done. by rewrite He.
Qed.

Lemma FwInv_workerStep w pc answer f :
  FwInv f -> fw_workers f !! w = Some pc -> FwInv (workerStep w pc answer f).
Proof.
  intros Hi Hw. destruct pc as [|fd|fd|l|l r|l r|fds|  |key|key fd|fd|key fd|]; try (by destruct answer).
  - destruct answer; try done; unfold workerStep.
    + destruct (fw_tcp f); [|done]. apply (worker_opens f w Accepting Hi Hw ltac:(done) (Accepted (fw_next f))); try done.
      cbn. set_solver.
    + by apply (worker_goes f w Accepting).
  - unfold workerStep, trackConn. destruct (fw_closed f).
    + apply (worker_tracks f w (Accepted fd) Hi Hw ltac:(done) fd (AcceptLate fd)); try done; cbn; set_solver.
    + assert (FwInv (set_worker w Accepting (trackConn fd f).1)) as Hi1.
      { apply (worker_tracks f w (Accepted fd) Hi Hw ltac:(done) fd Accepting); try done; cbn; set_solver. }
      eapply (FwInv_spawn _ _ w Accepting Hi1); [cbn; by rewrite lookup_insert_eq|done|done|].
      intros x Hx%list_elem_of_singleton. subst x. cbn. eapply (fi_workers _ Hi _ _ _ Hw). cbn. set_solver.
  - destruct answer; try done. apply (worker_releases f w (AcceptLate fd)); try done; cbn; set_solver.
  - destruct answer; try done; cbn.
    + apply (worker_opens f w (RelayDialing l) Hi Hw ltac:(done) (RelayDialed l (fw_next f))); try done. cbn. set_solver.
    + by apply (worker_goes f w (RelayDialing l)).
  - unfold workerStep, trackConn. destruct (fw_closed f).
    + apply (worker_tracks f w (RelayDialed l r) Hi Hw ltac:(done) r (Releasing [r; l])); try done; cbn; set_solver.
    + apply (worker_tracks f w (RelayDialed l r) Hi Hw ltac:(done) r (Copying l r)); try done; cbn; set_solver.
  - destruct answer as [| | |a]; try done; cbn.
    + apply (worker_goes f w (Copying l r)); try done. cbn. set_solver.
    + destruct (releaseConn r a f) as [f1 e1] eqn:E1. cbn.
      destruct (FwInv_release _ _ _ _ _ Hi (fi_workers _ Hi _ _ r Hw ltac:(cbn; set_solver)) E1) as [Hi1 _].
      destruct (releaseConn_same _ _ _ _ _ E1) as [He _]. destruct (releaseConn l a f1) as [f2 e2] eqn:E2.
      assert (fw_workers f1 !! w = Some (Copying l r)) as Hw1 by by rewrite He.
      by destruct (FwInv_release _ _ _ _ _ Hi1 (fi_workers _ Hi1 _ _ l Hw1 ltac:(cbn; set_solver)) E2).
  - destruct fds as [|fd rest]; cbn; [by apply (worker_goes f w (Releasing []))|].
    destruct answer; try done. apply (worker_releases f w (Releasing (fd :: rest))); try done; cbn; set_solver.
  - destruct answer; try done; cbn.
    + destruct (fw_udp f); [|done]. destruct (fw_peers f !! key); [done|]. by apply (worker_goes f w Receiving).
    + by apply (worker_goes f w Receiving).
  - destruct answer; try done; cbn.
    + apply (worker_opens f w (PeerDialing key) Hi Hw ltac:(done) (PeerDialed key (fw_next f))); try done. cbn. set_solver.
    + by apply (worker_goes f w (PeerDialing key)).
  - unfold workerStep, trackConn. destruct (fw_closed f).
    + apply (worker_tracks f w (PeerDialed key fd) Hi Hw ltac:(done) fd (PeerLate fd)); try done; cbn; set_solver.
    + assert (FwInv (set_worker w Receiving (trackConn fd f).1)) as Hi1.
      { apply (worker_tracks f w (PeerDialed key fd) Hi Hw ltac:(done) fd Receiving); try done; cbn; set_solver. }
      eapply (FwInv_spawn _ _ w Receiving (FwInv_peers _ _ Hi1)); [cbn; by rewrite lookup_insert_eq|done|done|].
      intros x Hx%list_elem_of_singleton. subst x. cbn. eapply (fi_workers _ Hi _ _ _ Hw). cbn. set_solver.
  - destruct answer; try done. apply (worker_releases f w (PeerLate fd)); try done; cbn; set_solver.
  - destruct answer; try done. apply FwInv_peers. by apply (worker_goes f w (Returning key fd)).
Qed.

(** ** Close *)

(** A Close goes on; what it listed and achieved is known. *)
Lemma FwInv_set_closing f id c :
  FwInv f -> (forall fd, fd ∈ close_fds c -> fd < fw_next f) -> close_ok c f -> FwInv (set_closing id c f).
Proof.
  intros [] Hfd Hok. constructor; cbn; try done.
  - intros id' c' fd [[-> <-]|[_ H]]%lookup_insert_Some; [by apply Hfd|by eapply fi_closes0].
  - intros id' c' [[-> <-]|[_ H]]%lookup_insert_Some; [exact Hok|exact (fi_achieved0 _ _ H)].
Qed.

(** The listeners may go away at any time. *)
Lemma FwInv_listeners f tcp udp :
  FwInv f -> FwInv (f <| fw_tcp ::= fun b => b && tcp |> <| fw_udp ::= fun b => b && udp |>).
Proof.
  intros []. constructor; cbn; try done. intros id c H. destruct (fi_achieved0 id c H) as [H1 H2]. split; [done|].
  destruct c as [| | | |rest failed|[e|]]; cbn in *; try done.
  - intros Hf. by rewrite H2.
  - intros Hf. destruct (H2 Hf) as [-> ->]. done.
  - by destruct H2 as [-> ->].
  - by destruct H2 as (-> & -> & ? & ?).
  - by destruct H2 as (-> & -> & ? & ?).
Qed.

Lemma closes_tcp f answer :
  (if closeFailed answer then f else f <| fw_tcp := false |>) =
  f <| fw_tcp ::= fun b => b && closeFailed answer |> <| fw_udp ::= fun b => b && true |>.
Proof. destruct f as [address local p n t u x y z a b c]. destruct (closeFailed answer); destruct t, u; done. Qed.

Lemma closes_udp f answer :
  (if closeFailed answer then f else f <| fw_udp := false |>) =
  f <| fw_tcp ::= fun b => b && true |> <| fw_udp ::= fun b => b && closeFailed answer |>.
Proof. destruct f as [address local p n t u x y z a b c]. destruct (closeFailed answer); destruct t, u; done. Qed.

Lemma joinClose_None failed answer :
  joinClose failed answer = None -> failed = None /\ closeFailed answer = false.
Proof.
  unfold joinClose. destruct (closeFailed answer) eqn:E; [|done]. intros [_ ->]%join_pair_None. done.
Qed.

Lemma FwInv_closeStep id answer c f :
  FwInv f -> fw_closes f !! id = Some c -> FwInv (closeStep id answer c f).
Proof.
  intros Hi Hc. pose proof (fun fd => fi_closes _ Hi _ _ fd Hc) as Hfds. destruct (fi_achieved _ Hi _ _ Hc) as [Hcl Hok].
  destruct c as [fds|fds failed|[|fd rest] failed| |[|fd rest] failed|res]; unfold closeStep.
  - rewrite closes_tcp. apply FwInv_set_closing; [by apply FwInv_listeners|done|]. split; [done|].
    cbn. intros [_ ->]%joinClose_None. by rewrite andb_false_r.
  - rewrite closes_udp. apply FwInv_set_closing; [by apply FwInv_listeners|done|]. split; [done|].
    cbn. intros [Hf ->]%joinClose_None. by rewrite (Hok Hf), andb_false_r.
  - destruct failed as [e|]; (apply FwInv_set_closing; [done|by intros x Hx%not_elem_of_nil|]); [done|].
    by split; [|apply Hok].
  - destruct (releaseConn fd answer f) as [f1 err] eqn:E.
    destruct (FwInv_release _ _ _ _ _ Hi (Hfds fd (list_elem_of_here _ _)) E) as (Hi1 & _).
    destruct (releaseConn_same _ _ _ _ _ E) as [He _]. apply FwInv_set_closing; [done| |].
    + intros x Hx. rewrite He. apply Hfds. by right.
    + rewrite He. split; [done|]. cbn. destruct err as [e|]; [|done]. intros Hj. exfalso. by destruct failed.
  - unfold all_done. case_bool_decide as Hd; [|done]. apply FwInv_set_closing; [done| |].
    + cbn. intros fd Hfd%elem_of_elements. by apply (fi_listed _ Hi).
    + destruct Hok as [H1 H2]. split; [done|]. split_and!; try done. intros _ fd Hfd.
      destruct (pk_open _ _ _ (fi_pool _ Hi) fd Hfd) as [Hl|(w & pc & Hw & Hh)]; [by apply elem_of_elements|].
      rewrite (Hd _ _ Hw) in Hh. done.
  - destruct Hok as (H1 & H2 & H3 & H4). destruct failed as [e|]; (apply FwInv_set_closing; [done|by intros x Hx%not_elem_of_nil|]); [done|].
    split; [done|]. split_and!; try done. apply elem_of_equiv_empty_L. intros x Hx.
    specialize (H4 eq_refl x Hx). by apply not_elem_of_nil in H4.
  - destruct (releaseConn fd answer f) as [f1 err] eqn:E.
    destruct (FwInv_release _ _ _ _ _ Hi (Hfds fd (list_elem_of_here _ _)) E) as (Hi1 & Hn & Ho).
    destruct (releaseConn_same _ _ _ _ _ E) as [He _]. apply FwInv_set_closing; [done| |].
    + intros x Hx. rewrite He. apply Hfds. by right.
    + destruct Hok as (H1 & H2 & H3 & H4). rewrite He. split; [done|]. split_and!; try done.
      intros [-> ->]%join_pair_None x Hx. specialize (H4 eq_refl x (Ho x Hx)). apply elem_of_cons in H4 as [->|]; [|done].
      by destruct (Hn eq_refl).
  - done.
Qed.

Lemma FwInv_closeBegins id f : FwInv f -> FwInv (closeBegins id f).
Proof.
  intros Hi. unfold closeBegins. apply FwInv_set_closing; [| |done].
  - destruct Hi. constructor; cbn; try done. intros id' c H. by destruct (fi_achieved0 id' c H).
  - cbn. intros fd Hfd%elem_of_elements. by apply (fi_listed _ Hi).
Qed.

Lemma forwarder_step_FwInv op f : FwInv f -> FwInv (forwarder_step op f).
Proof.
  intros Hi. destruct op as [w answer|id answer]; cbn.
  - destruct (fw_workers f !! w) eqn:E; [by apply FwInv_workerStep|done].
  - destruct (fw_closes f !! id) eqn:E; [by apply FwInv_closeStep|by apply FwInv_closeBegins].
Qed.

Lemma forwarder_run_FwInv ops f : FwInv f -> FwInv (forwarder_run ops f).
Proof.
  revert f. induction ops as [|op ops IH]; intros f Hi; [done|]. cbn. by apply IH, forwarder_step_FwInv.
Qed.

(** ** The answer of Close *)

Lemma releaseConn_closes fd answer f : fw_closes (releaseConn fd answer f).1 = fw_closes f.
Proof. unfold releaseConn. by destruct (closeOwned _ _ _). Qed.

Lemma workerStep_closes w pc answer f : fw_closes (workerStep w pc answer f) = fw_closes f.
Proof.
  unfold workerStep, trackConn, openConn, spawn.
  destruct pc as [| | | | | |[|]| | | | | |], answer; cbn -[releaseConn]; repeat case_match; cbn -[releaseConn];
    by rewrite ?releaseConn_closes.
Qed.

Lemma closeStep_others id id' answer c f :
  id' <> id -> fw_closes (closeStep id answer c f) !! id' = fw_closes f !! id'.
Proof.
  intros Hne.
  assert (forall c f, fw_closes (set_closing id c f) !! id' = fw_closes f !! id') as Hs
    by (intros; by apply lookup_insert_ne).
  destruct c as [fds|fds failed|[|fd rest] [e|]| |[|fd rest] [e|]|res]; cbn -[set_closing releaseConn];
    try (destruct (releaseConn fd answer f) as [f1 err] eqn:E; destruct (releaseConn_same _ _ _ _ _ E) as [He _]);
    rewrite ?Hs; try done; try (by rewrite He); try case_match; rewrite ?Hs; done.
Qed.

Lemma answer_stays op id res f :
  fw_closes f !! id = Some (ForwarderClosed res) ->
  fw_closes (forwarder_step op f) !! id = Some (ForwarderClosed res).
Proof.
  intros Hc. destruct op as [w answer|id' answer]; cbn.
  - destruct (fw_workers f !! w); [by rewrite workerStep_closes|done].
  - destruct (decide (id = id')) as [->|Hne]; [by rewrite Hc|].
    destruct (fw_closes f !! id'); [by rewrite closeStep_others|]. cbn. by rewrite lookup_insert_ne.
Qed.

Lemma answer_stays_run ops id res f :
  fw_closes f !! id = Some (ForwarderClosed res) ->
  fw_closes (forwarder_run ops f) !! id = Some (ForwarderClosed res).
Proof. revert f. induction ops as [|op ops IH]; intros f Hc; [done|]. cbn. by apply IH, answer_stays. Qed.

(** The pair that is returned: the last two listeners opened, one on TCP and one
    on UDP at the address returned, and no close after them. *)
Definition pair_listens (retry : gerr -> bool) (attempts : nat -> pairAttempt) (local : string) : Prop :=
  exists before, listenEndpointPair retry attempts = (before ++ [TCPOpened local; UDPOpened local], Ok local).

Lemma listenAttempts_listens retry attempts n attempt last local :
  (listenAttempts retry attempts n attempt last).2 = Ok local ->
  exists before, listenAttempts retry attempts n attempt last = (before ++ [TCPOpened local; UDPOpened local], Ok local).
Proof.
  revert attempt last. induction n as [|n IH]; intros attempt last; [done|]. cbn [listenAttempts].
  destruct (pa_ctx _); [done|]. destruct (pa_tcp _) as [candidate|]; [|done]. destruct (pa_ctxTCP _); [done|].
  destruct (pa_udp _) as [err|]; [|destruct (pa_ctxUDP _); [done|]; intros [= ->]; by exists []].
  destruct (_ || _); [done|]. set (last' := join _).
  destruct (listenAttempts retry attempts n (S attempt) last') as [later res] eqn:E. cbn. intros ->.
  destruct (IH (S attempt) last') as [before Hb]; [by rewrite E|]. rewrite E in Hb. injection Hb as ->.
  by exists ([TCPOpened candidate; TCPClosed candidate] ++ before).
Qed.

(** A forwarder keeps its upstream and its address; a worker keeps its
    listeners as well. *)
Lemma forwarder_step_ends op f :
  fw_address (forwarder_step op f) = fw_address f /\ fw_local (forwarder_step op f) = fw_local f.
Proof.
  destruct op as [w answer|id answer]; cbn; case_match; try done; unfold workerStep, closeStep, releaseConn, trackConn;
    repeat (case_match; simplify_eq; try done).
Qed.

Lemma worker_keeps_listeners w answer f :
  fw_tcp (forwarder_step (WorkerStep w answer) f) = fw_tcp f /\
  fw_udp (forwarder_step (WorkerStep w answer) f) = fw_udp f.
Proof.
  cbn. case_match; [|done]. unfold workerStep, releaseConn, trackConn. repeat (case_match; simplify_eq; try done).
Qed.

(** The pair of listeners: at most sixteen ports are tried, every listener
    opened for a pair that failed was told to close, and the pair returned is
    one TCP and one UDP listener on the same port.  The forwarder: whatever the
    order of its loops, relays, late dials and Closes and whatever their calls
    answer, once a Close returned nil both listeners are closed, every worker
    has ended and no relayed socket is open, now and ever after. *)
Theorem forwarder_close_leaves_nothing_open (retryEndpointPairBind : gerr -> bool)
    (attempts : nat -> pairAttempt) (address local : string) (ops : list forwarderOp) :
  (let '(events, res) := listenEndpointPair retryEndpointPairBind attempts in
   exactly res (openTCP events ∅) /\ exactly res (openUDP events ∅) /\ tried events <= 16) /\
  forall id, fw_closes (forwarder_run ops (newEndpointForwarder address local)) !! id = Some (ForwarderClosed None) ->
    forall ops', let f := forwarder_run ops' (forwarder_run ops (newEndpointForwarder address local)) in
      fw_tcp f = false /\ fw_udp f = false /\ workers_done f /\ po_open (fw_pool f) = ∅.
Proof.
  split; [apply listenAttempts_exact|]. intros id Hc ops' f.
  assert (FwInv f) as Hi by apply forwarder_run_FwInv, forwarder_run_FwInv, FwInv_new.
  pose proof (answer_stays_run ops' _ _ _ Hc) as Hc'. by destruct (fi_achieved _ Hi _ _ Hc') as [_ Hok].
Qed.

(** A relay whose dial returns after the Close began, with a local socket that
    refuses to close twice: the first Close reports it, the second finishes. *)
Example forwarder_close_retries :
  let accept := WorkerStep 0 in let relay := WorkerStep 2 in
  let f := forwarder_run
    [accept GotSocket; accept GotSocket; relay GotSocket; CloseStep 0 None; CloseStep 0 None; CloseStep 0 None;
     relay GotError; relay (GotClose (Some (EText "busy"))); relay (GotClose None); relay GotError;
     CloseStep 0 None; CloseStep 0 None; accept GotError; WorkerStep 1 GotError;
     CloseStep 0 None; CloseStep 0 (Some (EText "busy")); CloseStep 0 None;
     CloseStep 1 (Some (ESent NetErrClosed)); CloseStep 1 (Some (ESent NetErrClosed)); CloseStep 1 None;
     CloseStep 1 None; CloseStep 1 None; CloseStep 1 None; CloseStep 1 None]
    (newEndpointForwarder "192.0.2.1:443" "127.0.0.1:40001") in
  fw_closes f !! 0 =
    Some (ForwarderClosed (Some (EWrap "close late protected endpoint socket" (EJoin [EText "busy"])))) /\
  fw_closes f !! 1 = Some (ForwarderClosed None) /\ elements (po_open (fw_pool f)) = [].
Proof. vm_compute. by split_and!. Qed.
