(* ===== verification/Outline.v ===== *)
(** * The Outline device (core/outline/outline_device.go, ownership.go)

    A local SOCKS server whose connections and transport streams the device
    owns.  A stream that is still shaking hands belongs to the scope of its
    dial, which closes it when the dial is canceled; a dialed connection belongs
    to the device.  The server's workers, the goroutines of the transport
    library, the cancellations and every Close step in any order. *)

From S2P Require Import Prelude Errors GoStrings Sockets.
Local Open Scope string_scope.
Local Open Scope list_scope.

(** ** The scope of one dial *)

(** Where the function of [context.AfterFunc] is: not started, to abort, closing
    what it took, finished, or stopped before it started. *)
Inductive afterFunc := Armed | Fired | AbortClosing (rest : list nat) | Ran | Stopped.

Record streamScope := mkStreamScope {
  ss_canceled : bool;
  ss_pending : gset nat;
  ss_aborted : bool;
  ss_handedOff : bool;
  ss_after : afterFunc;
  ss_done : bool
}.
#[export] Instance eta_streamScope : Settable streamScope := fun x =>
  mkStreamScope (ss_canceled x) (ss_pending x) (ss_aborted x) (ss_handedOff x) (ss_after x) (ss_done x).

(** A scope of a context that has ended starts with its function running. *)
Definition newPendingStreamConnScope (canceled : bool) : streamScope :=
  mkStreamScope canceled ∅ false false (if canceled then Fired else Armed) false.

Definition cancelDial (s : streamScope) : streamScope :=
  s <| ss_canceled := true |>
    <| ss_after := match ss_after s with Armed => Fired | a => a end |>.

(** What is taken is closed after the lock is released. *)
Definition takePendingLocked (s : streamScope) : streamScope * list nat :=
  (s <| ss_pending := ∅ |>, elements (ss_pending s)).

Definition registerConn (conn : nat) (s : streamScope) : streamScope * list nat * option gerr :=
  if ss_aborted s || ss_handedOff s || ss_canceled s then
    let s := if ss_handedOff s then s else s <| ss_aborted := true |> in
    let '(s, pending) := takePendingLocked s in
    (s, pending ++ [conn], Some (ESent (if ss_canceled s then CtxCanceled else NetErrClosed)))
  else (s <| ss_pending ::= union {[conn]} |>, [], None).

(** [handoff] up to the wait for the function. *)
Definition handoff (s : streamScope) : streamScope * list nat * bool :=
  if ss_aborted s || ss_canceled s then
    let '(s, pending) := takePendingLocked (s <| ss_aborted := true |>) in
    (s, pending, false)
  else (s <| ss_handedOff := true |> <| ss_pending := ∅ |>, [], true).

Definition abort (s : streamScope) : streamScope * list nat :=
  if ss_handedOff s then (s, []) else takePendingLocked (s <| ss_aborted := true |>).

(** [stopAndWait]: [None] while the function still runs. *)
Definition stopAndWaitScope (s : streamScope) : option streamScope :=
  match ss_after s with
  | Armed => Some (s <| ss_after := Stopped |> <| ss_done := true |>)
  | _ => if ss_done s then Some s else None
  end.

(** ** The device *)

(** A worker of the SOCKS server: in the library's code, with a connection that
    is about to be tracked, in a dial, with what the dial returned, waiting in
    its handoff, with a dialed connection that is about to be tracked, closing
    what a failed handoff took, discarding its scope. *)
Inductive serverWorker :=
| Serving
| TrackingConn (fd : nat)
| DialingStream (sid : nat)
| HandingOff (sid fd : nat)
| StoppingScope (sid fd : nat)
| TrackingStream (sid fd : nat)
| HandoffClosing (sid : nat) (rest : list nat)
| Discarding (sid : nat)
| DiscardClosing (sid : nat) (rest : list nat)
| DiscardStopping (sid : nat)
| Finished.

#[export] Instance serverWorker_eq_dec : EqDecision serverWorker.
Proof. solve_decision. Defined.

(** A goroutine of the transport library: about to register the stream it
    dialed, or closing what the registration refused. *)
Inductive transportTask :=
| Registering (sid fd : nat)
| RefusedClosing (rest : list nat).

Inductive deviceClose :=
| ClosingListener (snapshot : list nat)
| ClosingConns (rest : list nat) (failed : option gerr)
| DrainingWorkers
| ClosingLate (rest : list nat) (failed : option gerr)
| DeviceClosed (res : option gerr).

(** [od_leaked] are sockets whose only close failed: nobody owns them;
    [od_left] are streams a dial registered but did not return, which its
    handoff left to the transport library. *)
Record outlineDevice := mkOutlineDevice {
  od_pool : pool;
  od_next : nat;
  od_leaked : gset nat;
  od_left : gset nat;
  od_closing : bool;
  od_listener : bool;
  od_scopes : gmap nat streamScope;
  od_nextScope : nat;
  od_workers : gmap nat serverWorker;
  od_nextWorker : nat;
  od_tasks : gmap nat transportTask;
  od_closes : gmap nat deviceClose
}.
#[export] Instance eta_outlineDevice : Settable outlineDevice := fun x =>
  mkOutlineDevice (od_pool x) (od_next x) (od_leaked x) (od_left x) (od_closing x) (od_listener x) (od_scopes x)
    (od_nextScope x) (od_workers x) (od_nextWorker x) (od_tasks x) (od_closes x).

(** [NewOutlineDevice]: its first worker serves the listener. *)
Definition NewOutlineDevice : outlineDevice :=
  mkOutlineDevice emptyPool 0 ∅ ∅ false true ∅ 0 {[0 := Serving]} 1 ∅ ∅.

Definition set_serving (w : nat) (pc : serverWorker) (d : outlineDevice) : outlineDevice :=
  d <| od_workers ::= <[w := pc]> |>.

Definition set_streamScope (sid : nat) (s : streamScope) (d : outlineDevice) : outlineDevice :=
  d <| od_scopes ::= <[sid := s]> |>.

Definition newConn (d : outlineDevice) : outlineDevice * nat :=
  (d <| od_pool ::= opens (od_next d) |> <| od_next ::= S |>, od_next d).

(** [_ = conn.Close()] *)
Definition closeUnowned (fd : nat) (answer : option gerr) (d : outlineDevice) : outlineDevice :=
  let '(p, err) := closeRaw fd answer (od_pool d) in
  let d := d <| od_pool := p |> in
  if closeFailed err then d <| od_leaked ::= union {[fd]} |> else d.

Definition closeConn (fd : nat) (answer : option gerr) (d : outlineDevice) : outlineDevice * option gerr :=
  let '(p, err) := closeOwned fd answer (od_pool d) in (d <| od_pool := p |>, err).

(** [track]; late connections are listed too, for Close to drain. *)
Definition trackOutline (fd : nat) (d : outlineDevice) : outlineDevice := d <| od_pool ::= lists fd |>.

(** [Submit] *)
Definition Submit (d : outlineDevice) : outlineDevice :=
  set_serving (od_nextWorker d) Serving d <| od_nextWorker ::= S |>.

(** A dial returns one of the streams it registered, or a packet connection,
    which is not registered. *)
Inductive dialed := DialFailed | DialedStream (fd : nat) | DialedPacket.

(** What the call of a worker returned. *)
Inductive servedAnswer :=
| SubmitsWork
| AcceptsConn
| BeginsDial (canceled : bool)
| DialReturns (conn : dialed)
| Closes (answer : option gerr)
| Returned.

(** [handoff] of what the dialer returned; its wait follows. *)
Definition handOffConn (w sid fd : nat) (d : outlineDevice) : outlineDevice :=
  match od_scopes d !! sid with
  | Some s =>
      match handoff s with
      | (s', _, true) =>
          set_serving w (StoppingScope sid fd)
            (set_streamScope sid s' d <| od_left ::= union (ss_pending s ∖ {[fd]}) |>)
      | (s', pending, false) =>
          set_serving w (HandoffClosing sid (pending ++ [fd])) (set_streamScope sid s' d)
      end
  | None => d
  end.

Definition dialReturned (w sid : nat) (conn : dialed) (d : outlineDevice) : outlineDevice :=
  match conn with
  | DialFailed => set_serving w (Discarding sid) d
  | DialedStream fd => if Nat.ltb fd (od_next d) then set_serving w (HandingOff sid fd) d else d
  | DialedPacket => let '(d, fd) := newConn d in set_serving w (HandingOff sid fd) d
  end.

(** [discard]: the abort, then the closes, then the wait. *)
Definition discardScope (w sid : nat) (d : outlineDevice) : outlineDevice :=
  match od_scopes d !! sid with
  | Some s => let '(s, pending) := abort s in set_serving w (DiscardClosing sid pending) (set_streamScope sid s d)
  | None => d
  end.

(** The wait for the function of the scope, then [pc]. *)
Definition scopeStopped (w sid : nat) (pc : serverWorker) (d : outlineDevice) : outlineDevice :=
  match od_scopes d !! sid with
  | Some s =>
      match stopAndWaitScope s with
      | Some s => set_serving w pc (set_streamScope sid s d)
      | None => d
      end
  | None => d
  end.

Definition serveStep (w : nat) (pc : serverWorker) (answer : servedAnswer) (d : outlineDevice) :
    outlineDevice :=
  match pc, answer with
  | Serving, SubmitsWork => Submit d
  | Serving, AcceptsConn => let '(d, fd) := newConn d in set_serving w (TrackingConn fd) d
  | Serving, BeginsDial canceled =>
      let sid := od_nextScope d in
      set_serving w (DialingStream sid)
        (set_streamScope sid (newPendingStreamConnScope canceled) (d <| od_nextScope ::= S |>))
  | Serving, Returned => set_serving w Finished d
  | TrackingConn fd, _ => set_serving w Serving (trackOutline fd d)
  | DialingStream sid, DialReturns conn => dialReturned w sid conn d
  | HandingOff sid fd, _ => handOffConn w sid fd d
  | StoppingScope sid fd, _ => scopeStopped w sid (TrackingStream sid fd) d
  | TrackingStream sid fd, _ => set_serving w (Discarding sid) (trackOutline fd d)
  | HandoffClosing sid (fd :: rest), Closes answer =>
      set_serving w (HandoffClosing sid rest) (closeUnowned fd answer d)
  | HandoffClosing sid [], _ => set_serving w (Discarding sid) d
  | Discarding sid, _ => discardScope w sid d
  | DiscardClosing sid (fd :: rest), Closes answer =>
      set_serving w (DiscardClosing sid rest) (closeUnowned fd answer d)
  | DiscardClosing sid [], _ => set_serving w (DiscardStopping sid) d
  | DiscardStopping sid, _ => scopeStopped w sid Serving d
  | _, _ => d
  end.

(** The transport library dials a stream in the context of the scope. *)
Definition taskBegins (t sid : nat) (d : outlineDevice) : outlineDevice :=
  match od_scopes d !! sid with
  | Some _ => let '(d, fd) := newConn d in d <| od_tasks ::= <[t := Registering sid fd]> |>
  | None => d
  end.

Definition taskStep (t : nat) (task : transportTask) (answer : option gerr) (d : outlineDevice) :
    outlineDevice :=
  match task with
  | Registering sid fd =>
      match od_scopes d !! sid with
      | Some s =>
          match registerConn fd s with
          | (s, _, None) => set_streamScope sid s d <| od_tasks ::= delete t |>
          | (s, closes, Some _) => set_streamScope sid s d <| od_tasks ::= <[t := RefusedClosing closes]> |>
          end
      | None => d
      end
  | RefusedClosing (fd :: rest) => closeUnowned fd answer d <| od_tasks ::= <[t := RefusedClosing rest]> |>
  | RefusedClosing [] => d <| od_tasks ::= delete t |>
  end.

(** The function of [context.AfterFunc]. *)
Definition afterStep (sid : nat) (answer : option gerr) (d : outlineDevice) : outlineDevice :=
  match od_scopes d !! sid with
  | Some s =>
      match ss_after s with
      | Fired => let '(s, pending) := abort s in set_streamScope sid (s <| ss_after := AbortClosing pending |>) d
      | AbortClosing (fd :: rest) =>
          set_streamScope sid (s <| ss_after := AbortClosing rest |>) (closeUnowned fd answer d)
      | AbortClosing [] => set_streamScope sid (s <| ss_after := Ran |> <| ss_done := true |>) d
      | _ => d
      end
  | None => d
  end.

(** *** Close *)

Definition set_deviceClose (id : nat) (c : deviceClose) (d : outlineDevice) : outlineDevice :=
  d <| od_closes ::= <[id := c]> |>.

Definition closeReturned (c : deviceClose) : bool := match c with DeviceClosed _ => true | _ => false end.

(** [closeMu]: one Close at a time. *)
Definition closeLocked (d : outlineDevice) : bool :=
  bool_decide (map_Forall (fun _ c => closeReturned c = true) (od_closes d)).

Definition workersDrained (d : outlineDevice) : bool :=
  bool_decide (map_Forall (fun _ pc => pc = Finished) (od_workers d)).

Definition deviceCloseBegins (id : nat) (d : outlineDevice) : outlineDevice :=
  let d := d <| od_closing := true |> in
  set_deviceClose id (ClosingListener (elements (po_listed (od_pool d)))) d.

Definition deviceCloseStep (id : nat) (answer : option gerr) (c : deviceClose) (d : outlineDevice) :
    outlineDevice :=
  match c with
  | ClosingListener snapshot =>
      let failed :=
        if closeFailed answer
        then option_map (EWrap "close Outline SOCKS listener") answer else None in
      let d := if closeFailed answer then d else d <| od_listener := false |> in
      set_deviceClose id (ClosingConns snapshot failed) d
  | ClosingConns (fd :: rest) failed =>
      let '(d, err) := closeConn fd answer d in set_deviceClose id (ClosingConns rest (join [failed; err])) d
  | ClosingConns [] (Some err) => set_deviceClose id (DeviceClosed (Some err)) d
  | ClosingConns [] None => set_deviceClose id DrainingWorkers d
  | DrainingWorkers =>
      if workersDrained d
      then set_deviceClose id (ClosingLate (elements (po_listed (od_pool d))) None) d else d
  | ClosingLate (fd :: rest) failed =>
      let '(d, err) := closeConn fd answer d in set_deviceClose id (ClosingLate rest (join [failed; err])) d
  | ClosingLate [] failed => set_deviceClose id (DeviceClosed failed) d
  | DeviceClosed _ => d
  end.

Inductive outlineOp :=
| OpServe (w : nat) (answer : servedAnswer)
| OpTask (t sid : nat) (answer : option gerr)
| OpAfter (sid : nat) (answer : option gerr)
| OpCancelDial (sid : nat)
| OpConnCloses (fd : nat) (answer : option gerr)
| OpDeviceClose (id : nat) (answer : option gerr).

Definition outline_step (op : outlineOp) (d : outlineDevice) : outlineDevice :=
  match op with
  | OpServe w answer =>
      match od_workers d !! w with Some pc => serveStep w pc answer d | None => d end
  | OpTask t sid answer =>
      match od_tasks d !! t with Some task => taskStep t task answer d | None => taskBegins t sid d end
  | OpAfter sid answer => afterStep sid answer d
  | OpCancelDial sid =>
      match od_scopes d !! sid with Some s => set_streamScope sid (cancelDial s) d | None => d end
  | OpConnCloses fd answer =>
      if bool_decide (fd ∈ po_listed (od_pool d) ∪ po_closed (od_pool d))
      then (closeConn fd answer d).1 else d
  | OpDeviceClose id answer =>
      match od_closes d !! id with
      | Some c => deviceCloseStep id answer c d
      | None => if closeLocked d then deviceCloseBegins id d else d
      end
  end.

Definition outline_run (ops : list outlineOp) (d : outlineDevice) : outlineDevice :=
  fold_left (fun d op => outline_step op d) ops d.
