(* ===== verification/OutlineTheorems.v ===== *)
(** * What the Outline device guarantees

    A stream that was registered with a dial is handed off or closed by its
    scope, once and never both; after a Close that returned nil the device owns
    no open socket. *)

From S2P Require Import Prelude Errors GoStrings Sockets Outline.
Local Open Scope string_scope.
Local Open Scope list_scope.

(** ** One scope *)

(** Registrations, the handoff and the aborts (of the canceled context or of
    [discard]) in any order. *)
Inductive scopeOp := ScopeRegisters (conn : nat) | ScopeHandsOff | ScopeAborts | ScopeCanceled.

(** The streams seen, those the scope told to close, in order, and those that
    were pending when the handoff succeeded. *)
Record scopeHistory := mkScopeHistory {
  sh_scope : streamScope;
  sh_seen : gset nat;
  sh_told : list nat;
  sh_handed : gset nat
}.

Definition newScopeHistory (canceled : bool) : scopeHistory :=
  mkScopeHistory (newPendingStreamConnScope canceled) ∅ [] ∅.

Definition scope_step (op : scopeOp) (h : scopeHistory) : scopeHistory :=
  let s := sh_scope h in
  match op with
  | ScopeRegisters conn =>
      if bool_decide (conn ∈ sh_seen h) then h
      else
        let '(s, closes, _) := registerConn conn s in
        mkScopeHistory s ({[conn]} ∪ sh_seen h) (sh_told h ++ closes) (sh_handed h)
  | ScopeHandsOff =>
      let '(s', closes, ok) := handoff s in
      mkScopeHistory s' (sh_seen h) (sh_told h ++ closes)
        (if ok then ss_pending s ∪ sh_handed h else sh_handed h)
  | ScopeAborts =>
      let '(s, closes) := abort s in mkScopeHistory s (sh_seen h) (sh_told h ++ closes) (sh_handed h)
  | ScopeCanceled => mkScopeHistory (cancelDial s) (sh_seen h) (sh_told h) (sh_handed h)
  end.

Definition scope_run (ops : list scopeOp) (h : scopeHistory) : scopeHistory :=
  fold_left (fun h op => scope_step op h) ops h.

Record one_owner (h : scopeHistory) : Prop := mkOneOwner {
  oo_told : NoDup (sh_told h);
  oo_pending : forall c, c ∈ ss_pending (sh_scope h) -> (c ∉ sh_told h) /\ (c ∉ sh_handed h);
  oo_handed : forall c, c ∈ sh_handed h -> c ∉ sh_told h;
  oo_seen : forall c, (c ∈ sh_seen h) <-> (c ∈ ss_pending (sh_scope h)) \/ (c ∈ sh_told h) \/ (c ∈ sh_handed h);
  oo_over : ss_aborted (sh_scope h) = true \/ ss_handedOff (sh_scope h) = true -> ss_pending (sh_scope h) = ∅
}.

(** All that is pending is told to close, with what else is new. *)
Lemma one_owner_closes h s new :
  one_owner h -> ss_pending s = ∅ -> NoDup new -> (forall c, c ∈ new -> c ∉ sh_seen h) ->
  one_owner (mkScopeHistory s (list_to_set new ∪ sh_seen h)
    (sh_told h ++ elements (ss_pending (sh_scope h)) ++ new) (sh_handed h)).
Proof.
  intros [H1 H2 H3 H4 H5] Hs Hnd Hn. constructor; cbn.
  - apply NoDup_app. split_and!; [done| |].
    + intros c Ht [Hp%elem_of_elements|Hc]%elem_of_app; [by destruct (H2 c Hp)|]. apply (Hn c Hc), H4. auto.
    + apply NoDup_app. split_and!; [apply NoDup_elements| |done].
      intros c Hp%elem_of_elements Hc. apply (Hn c Hc), H4. auto.
  - rewrite Hs. set_solver.
  - intros c Hh. rewrite !not_elem_of_app, elem_of_elements. split_and!; [by apply H3| |].
    + intros Hp. by destruct (H2 c Hp).
    + intros Hc. apply (Hn c Hc), H4. auto.
  - intros c. rewrite elem_of_union, elem_of_list_to_set, !elem_of_app, elem_of_elements, H4, Hs. set_solver.
  - by rewrite Hs.
Qed.

Lemma one_owner_scope h s :
  one_owner h -> ss_pending s = ss_pending (sh_scope h) ->
  (ss_aborted s = true \/ ss_handedOff s = true -> ss_pending s = ∅) ->
  one_owner (mkScopeHistory s (sh_seen h) (sh_told h) (sh_handed h)).
Proof. intros [H1 H2 H3 H4 H5] Hp Ho. constructor; cbn; rewrite ?Hp; try done. by rewrite <- Hp. Qed.

Lemma one_owner_step op h : one_owner h -> one_owner (scope_step op h).
Proof.
  intros Hi. pose proof (oo_over _ Hi) as Hover. destruct op as [conn| | |]; cbn.
  - case_bool_decide as Hs; [done|]. unfold registerConn.
    destruct (ss_aborted _ || ss_handedOff _ || ss_canceled _) eqn:E; cbn.
    + pose proof (one_owner_closes h ((if ss_handedOff (sh_scope h) then sh_scope h
        else sh_scope h <| ss_aborted := true |>) <| ss_pending := ∅ |>) [conn] Hi) as H.
      cbn in H. rewrite union_empty_r_L in H. destruct (ss_handedOff (sh_scope h)); cbn in *;
        (apply H; [done|by apply NoDup_singleton|by intros c ->%list_elem_of_singleton]).
    + rewrite app_nil_r. apply orb_false_iff in E as [[E1 E2]%orb_false_iff _].
      destruct Hi as [H1 H2 H3 H4 H5]. constructor; cbn; try done.
      * intros c [->%elem_of_singleton|Hc]%elem_of_union; [|by apply H2]. split; intros H; apply Hs, H4; auto.
      * intros c. rewrite !elem_of_union, H4. tauto.
      * rewrite E1, E2. by intros [].
  - unfold handoff. destruct (ss_aborted _ || ss_canceled _) eqn:E; cbn.
    + pose proof (one_owner_closes h (sh_scope h <| ss_aborted := true |> <| ss_pending := ∅ |>) [] Hi) as H.
      cbn in H. rewrite union_empty_l_L, app_nil_r in H. apply H; [done|apply NoDup_nil_2|by intros c ?%not_elem_of_nil].
    + rewrite app_nil_r. destruct Hi as [H1 H2 H3 H4 H5]. constructor; cbn; try done.
      * intros c [Hp|Hh]%elem_of_union; [by destruct (H2 c Hp)|by apply H3].
      * intros c. rewrite elem_of_union, H4. set_solver.
  - unfold abort. destruct (ss_handedOff (sh_scope h)) eqn:E; cbn.
    + rewrite app_nil_r. by destruct h.
    + pose proof (one_owner_closes h (sh_scope h <| ss_aborted := true |> <| ss_pending := ∅ |>) [] Hi) as H.
      cbn in H. rewrite union_empty_l_L, app_nil_r in H. apply H; [done|apply NoDup_nil_2|by intros c ?%not_elem_of_nil].
  - by apply one_owner_scope.
Qed.

Lemma one_owner_run ops h : one_owner h -> one_owner (scope_run ops h).
Proof. revert h. induction ops as [|op ops IH]; intros h Hi; [done|]. cbn. by apply IH, one_owner_step. Qed.

Lemma one_owner_new canceled : one_owner (newScopeHistory canceled).
Proof. constructor; cbn; try done; solve [apply NoDup_nil_2|set_solver]. Qed.

(** Whatever the order in which streams are registered, the dial is
    canceled, handed off and discarded, and whoever comes late: a stream is told
    to close by its dial's scope at most once, and never when it was handed off;
    once the scope has aborted or handed off nothing is pending, so every stream
    it saw was handed off or told to close. *)
Theorem pending_stream_has_one_owner (canceled : bool) (ops : list scopeOp) :
  let h := scope_run ops (newScopeHistory canceled) in
  NoDup (sh_told h) /\
  (forall c, c ∈ sh_handed h -> c ∉ sh_told h) /\
  (ss_aborted (sh_scope h) = true \/ ss_handedOff (sh_scope h) = true ->
   forall c, (c ∈ sh_seen h) <-> (c ∈ sh_told h) \/ (c ∈ sh_handed h)).
Proof.
  intros h. destruct (one_owner_run ops _ (one_owner_new canceled)) as [H1 H2 H3 H4 H5]. fold h in H1, H2, H3, H4, H5.
  split_and!; [done..|]. intros Ho c. rewrite H4, (H5 Ho). set_solver.
Qed.

(** ** Who holds a socket *)

Definition hold {A} (P : A -> nat -> Prop) (m : gmap nat A) (fd : nat) : Prop :=
  exists k a, m !! k = Some a /\ P a fd.

Section hold.
Context {A : Type} (P : A -> nat -> Prop).
Implicit Types m : gmap nat A.

Lemma hold_new m k a fd : P a fd -> hold P (<[k := a]> m) fd.
Proof. intros H. exists k, a. by rewrite lookup_insert_eq. Qed.

Lemma hold_insert m k a fd :
  hold P m fd -> hold P (<[k := a]> m) fd \/ exists a0, m !! k = Some a0 /\ P a0 fd.
Proof.
  intros (k0 & a0 & Hk & Ha). destruct (decide (k0 = k)) as [->|Hne]; [right; by exists a0|].
  left. exists k0, a0. by rewrite lookup_insert_ne.
Qed.

Lemma hold_delete m k fd :
  hold P m fd -> hold P (delete k m) fd \/ exists a0, m !! k = Some a0 /\ P a0 fd.
Proof.
  intros (k0 & a0 & Hk & Ha). destruct (decide (k0 = k)) as [->|Hne]; [right; by exists a0|].
  left. exists k0, a0. by rewrite lookup_delete_ne.
Qed.
End hold.

Definition after_list (a : afterFunc) : list nat := match a with AbortClosing rest => rest | _ => [] end.

Definition scope_hands (s : streamScope) (fd : nat) : Prop :=
  (fd ∈ ss_pending s) \/ (fd ∈ after_list (ss_after s)).

Definition serving_list (pc : serverWorker) : list nat :=
  match pc with
  | TrackingConn fd | HandingOff _ fd | StoppingScope _ fd | TrackingStream _ fd => [fd]
  | HandoffClosing _ fds | DiscardClosing _ fds => fds
  | _ => []
  end.

Definition serving_hands (pc : serverWorker) (fd : nat) : Prop := fd ∈ serving_list pc.

Definition task_list (task : transportTask) : list nat :=
  match task with Registering _ fd => [fd] | RefusedClosing fds => fds end.

Definition task_hands (task : transportTask) (fd : nat) : Prop := fd ∈ task_list task.

(** Nobody's, or the transport library's. *)
Definition residual (d : outlineDevice) (fd : nat) : Prop :=
  (fd ∈ od_leaked d) \/ (fd ∈ od_left d) \/ hold task_hands (od_tasks d) fd.

Definition hands (d : outlineDevice) (fd : nat) : Prop :=
  residual d fd \/ hold scope_hands (od_scopes d) fd \/ hold serving_hands (od_workers d) fd.

(** ** The invariant *)

Definition over (s : streamScope) : Prop := ss_aborted s = true \/ ss_handedOff s = true.

Definition settled (s : streamScope) : Prop := over s /\ (ss_after s = Ran \/ ss_after s = Stopped).

Record scope_ok (s : streamScope) : Prop := mkScopeOk {
  so_over : over s -> ss_pending s = ∅;
  so_done : ss_done s = true -> ss_after s = Ran \/ ss_after s = Stopped
}.

Definition worker_sid (pc : serverWorker) : option nat :=
  match pc with
  | DialingStream sid | HandingOff sid _ | StoppingScope sid _ | TrackingStream sid _ | HandoffClosing sid _ | Discarding sid
  | DiscardClosing sid _ | DiscardStopping sid => Some sid
  | _ => None
  end.

Definition discards (pc : serverWorker) : Prop :=
  match pc with DiscardClosing _ _ | DiscardStopping _ => True | _ => False end.

Record worker_ok (pc : serverWorker) (d : outlineDevice) : Prop := mkWorkerOk {
  wo_fds : forall fd, fd ∈ serving_list pc -> match pc with HandoffClosing _ _ | DiscardClosing _ _ => True | _ => fd < od_next d end;
  wo_scope : forall sid, worker_sid pc = Some sid ->
    exists s, od_scopes d !! sid = Some s /\ (discards pc -> over s)
}.

Definition finished (d : outlineDevice) : Prop := map_Forall (fun _ pc => pc = Finished) (od_workers d).

Definition deviceClose_fds (c : deviceClose) : list nat :=
  match c with ClosingListener fds | ClosingConns fds _ | ClosingLate fds _ => fds | _ => [] end.

Definition deviceClose_ok (c : deviceClose) (d : outlineDevice) : Prop :=
  match c with
  | ClosingListener _ => True
  | ClosingConns _ failed => failed = None -> od_listener d = false
  | DrainingWorkers => od_listener d = false
  | ClosingLate rest failed =>
      od_listener d = false /\ finished d /\
      (failed = None -> forall fd, fd ∈ po_open (od_pool d) -> (fd ∈ rest) \/ residual d fd)
  | DeviceClosed None =>
      od_listener d = false /\ finished d /\ forall fd, fd ∈ po_open (od_pool d) -> residual d fd
  | DeviceClosed (Some _) => True
  end.

Record OInv (d : outlineDevice) : Prop := mkOInv {
  oi_pool : pool_ok (hands d) (od_next d) (od_pool d);
  oi_listed : forall fd, fd ∈ po_listed (od_pool d) -> fd < od_next d;
  oi_workers : forall w pc, od_workers d !! w = Some pc -> w < od_nextWorker d /\ worker_ok pc d;
  oi_scopes : forall sid s, od_scopes d !! sid = Some s -> sid < od_nextScope d /\ scope_ok s;
  oi_owned : forall sid s, od_scopes d !! sid = Some s ->
    settled s \/ exists w pc, od_workers d !! w = Some pc /\ worker_sid pc = Some sid;
  oi_closes : forall id c fd, od_closes d !! id = Some c -> fd ∈ deviceClose_fds c -> fd < od_next d;
  oi_achieved : forall id c, od_closes d !! id = Some c -> deviceClose_ok c d
}.

(** Scopes only move towards their end. *)
Definition scope_grows (s s' : streamScope) : Prop := (over s -> over s') /\ (settled s -> settled s').

Definition scopes_grow (d d' : outlineDevice) : Prop :=
  forall sid s, od_scopes d !! sid = Some s -> exists s', od_scopes d' !! sid = Some s' /\ scope_grows s s'.

Lemma scope_grows_refl s : scope_grows s s.
Proof. done. Qed.

Lemma scopes_grow_refl d d' : od_scopes d' = od_scopes d -> scopes_grow d d'.
Proof. intros E sid s H. exists s. rewrite E. by split. Qed.

Lemma scopes_grow_set d sid s s' :
  od_scopes d !! sid = Some s -> scope_grows s s' -> scopes_grow d (set_streamScope sid s' d).
Proof.
  intros Hs Hg sid' s1 H1. cbn. destruct (decide (sid' = sid)) as [->|Hne].
  - exists s'. rewrite lookup_insert_eq. split; [done|]. congruence.
  - exists s1. by rewrite lookup_insert_ne.
Qed.

Lemma worker_ok_grows pc d d' :
  worker_ok pc d -> scopes_grow d d' -> od_next d <= od_next d' -> worker_ok pc d'.
Proof.
  intros [H1 H2] Hg Hn. constructor.
  - intros fd Hfd. specialize (H1 fd Hfd). destruct pc; try done; lia.
  - intros sid Hs. destruct (H2 sid Hs) as (s & Hl & Ho). destruct (Hg sid s Hl) as (s' & Hl' & Ho' & _).
    exists s'. split; [done|]. auto.
Qed.

Lemma settled_quiet s : scope_ok s -> settled s -> forall fd, ~ scope_hands s fd.
Proof.
  intros [Hp _] [Ho Ha] fd [Hf|Hf]; [rewrite (Hp Ho) in Hf; set_solver|].
  by destruct Ha as [Ha|Ha]; rewrite Ha in Hf; apply not_elem_of_nil in Hf.
Qed.

(** Once the workers have finished every scope is settled. *)
Lemma finished_settled d sid s :
  OInv d -> finished d -> od_scopes d !! sid = Some s -> settled s.
Proof.
  intros Hi Hf Hs. destruct (oi_owned _ Hi sid s Hs) as [?|(w & pc & Hw & Hsid)]; [done|].
  by rewrite (Hf _ _ Hw) in Hsid.
Qed.

Lemma finished_hands d fd : OInv d -> finished d -> hands d fd -> residual d fd.
Proof.
  intros Hi Hf [Hr|[(sid & s & Hs & Hh)|(w & pc & Hw & Hh)]]; [done| |].
  - destruct (oi_scopes _ Hi _ _ Hs) as [_ Hok].
    by destruct (settled_quiet _ Hok (finished_settled _ _ _ Hi Hf Hs) fd).
  - rewrite (Hf _ _ Hw) in Hh. by apply not_elem_of_nil in Hh.
Qed.

(** ** The operations of a scope *)

Ltac scope_cases s := destruct s as [canceled pending aborted handedOff after done0].

Lemma cancelDial_ok s : scope_ok s -> scope_ok (cancelDial s) /\ scope_grows s (cancelDial s).
Proof.
  intros [H1 H2]. scope_cases s. split; [constructor|split]; cbn in *; try done.
  - intros H. destruct (H2 H) as [-> | ->]; auto.
  - intros [Ho [H|H]]; cbn in *; subst; split; auto.
Qed.

Lemma cancelDial_hands s fd : scope_hands s fd -> scope_hands (cancelDial s) fd.
Proof. scope_cases s. intros [H|H]; [by left|right]. by destruct after. Qed.

Lemma register_ok fd s s' closes err :
  scope_ok s -> registerConn fd s = (s', closes, err) ->
  scope_ok s' /\ scope_grows s s' /\
  (forall x, scope_hands s x -> scope_hands s' x \/ (x ∈ closes)) /\
  match err with Some _ => fd ∈ closes | None => scope_hands s' fd /\ closes = [] end.
Proof.
  intros [H1 H2]. scope_cases s. unfold registerConn, takePendingLocked. cbn.
  destruct (aborted || handedOff || canceled) eqn:E.
  - destruct handedOff; intros [= <- <- <-]; (split_and!; [constructor; cbn in *; done|..]); cbn.
    + done.
    + intros x [H|H]; [right; apply elem_of_app; left; by apply elem_of_elements|by left; right].
    + apply elem_of_app. right. by left.
    + split; cbn; [|intros [_ Ha]; split; [|done]]; intros; by left.
    + intros x [H|H]; [right; apply elem_of_app; left; by apply elem_of_elements|by left; right].
    + apply elem_of_app. right. by left.
  - intros [= <- <- <-]. apply orb_false_iff in E as [[-> ->]%orb_false_iff ->]. split_and!; cbn.
    + constructor; cbn in *; [by intros [|]|done].
    + done.
    + intros x [H|H]; left; [left; cbn; set_solver|by right].
    + left. cbn. set_solver.
    + done.
Qed.

Lemma handoff_ok s s' closes ok :
  scope_ok s -> handoff s = (s', closes, ok) ->
  scope_ok s' /\ scope_grows s s' /\ over s' /\
  (forall x, scope_hands s x -> scope_hands s' x \/ (if ok then x ∈ ss_pending s else x ∈ closes)).
Proof.
  intros [H1 H2]. scope_cases s. unfold handoff, takePendingLocked. cbn.
  destruct (aborted || canceled) eqn:E; intros [= <- <- <-]; split_and!; cbn.
  - by constructor.
  - split; cbn; [|intros [_ Ha]; split; [|done]]; by left.
  - by left.
  - intros x [H|H]; [right; by apply elem_of_elements|by left; right].
  - by constructor.
  - split; cbn; [|intros [_ Ha]; split; [|done]]; by right.
  - by right.
  - intros x [H|H]; [by right|by left; right].
Qed.

Lemma abort_ok s s' closes :
  scope_ok s -> abort s = (s', closes) ->
  scope_ok s' /\ scope_grows s s' /\ over s' /\ ss_after s' = ss_after s /\
  (forall x, scope_hands s x -> scope_hands s' x \/ (x ∈ closes)).
Proof.
  intros [H1 H2]. scope_cases s. unfold abort, takePendingLocked. cbn.
  destruct handedOff; intros [= <- <-]; split_and!; cbn; try done.
  - by right.
  - intros x H. by left.
  - split; cbn; [|intros [_ Ha]; split; [|done]]; by left.
  - by left.
  - intros x [H|H]; [right; by apply elem_of_elements|by left; right].
Qed.

Lemma stop_ok s s' :
  scope_ok s -> stopAndWaitScope s = Some s' ->
  scope_ok s' /\ scope_grows s s' /\ (over s -> settled s') /\ (forall x, scope_hands s x -> scope_hands s' x).
Proof.
  intros [H1 H2]. scope_cases s. unfold stopAndWaitScope. cbn. destruct after; cbn in *;
    try (destruct done0; [|done]; intros [= <-]; destruct (H2 eq_refl); try done;
         (split_and!; [by constructor|done|intros Ho; split; cbn; auto|done])).
  intros [= <-]. split_and!; cbn.
  - constructor; cbn; [done|auto].
  - split; [done|]. by intros [_ [?|?]].
  - intros Ho. split; [done|auto].
  - intros x [H|H]; [by left|]. by apply not_elem_of_nil in H.
Qed.

(** ** Workers *)

Section serve.
Context (d : outlineDevice) (w : nat) (pc : serverWorker).
Context (Hi : OInv d) (Hw : od_workers d !! w = Some pc) (Hrun : pc <> Finished).

Lemma running_unfinished : ~ finished d.
Proof. intros Hf. exact (Hrun (Hf _ _ Hw)). Qed.

Lemma serve_moves d' pc' :
  od_workers d' = <[w := pc']> (od_workers d) -> od_closes d' = od_closes d ->
  od_listener d' = od_listener d -> od_nextWorker d' = od_nextWorker d ->
  od_nextScope d <= od_nextScope d' -> od_next d <= od_next d' ->
  pool_ok (hands d') (od_next d') (od_pool d') ->
  (forall fd, fd ∈ po_listed (od_pool d') -> (fd ∈ po_listed (od_pool d)) \/ fd < od_next d') ->
  scopes_grow d d' ->
  (forall sid s, od_scopes d' !! sid = Some s -> sid < od_nextScope d' /\ scope_ok s) ->
  worker_ok pc' d' ->
  (forall sid s, od_scopes d' !! sid = Some s -> settled s \/ worker_sid pc' = Some sid \/
     (worker_sid pc <> Some sid /\ is_Some (od_scopes d !! sid))) -> OInv d'.
Proof.
  intros Hws Hcl Hls Hnw Hns Hn Hp Hlist Hg Hsc Hok Hown. pose proof running_unfinished as Hno.
  destruct Hi. constructor; try done.
  - intros fd Hfd. destruct (Hlist fd Hfd) as [H|H]; [apply oi_listed0 in H; lia|done].
  - rewrite Hws, Hnw. intros w0 pc0 [[<- <-]|[_ H]]%lookup_insert_Some.
    + split; [by destruct (oi_workers0 _ _ Hw)|done].
    + destruct (oi_workers0 _ _ H). split; [done|by eapply worker_ok_grows].
  - intros sid s' Hs'. destruct (Hown sid s' Hs') as [?|[?|[Hne [s Hs]]]]; [by left|right|].
    + exists w, pc'. by rewrite Hws, lookup_insert_eq.
    + destruct (Hg sid s Hs) as (s1 & Hs1 & _ & Hset). simplify_eq.
      destruct (oi_owned0 sid s Hs) as [?|(w0 & pc0 & Hw0 & Hsid)]; [left; auto|].
      right. exists w0, pc0. rewrite Hws, lookup_insert_ne; [done|]. intros ->. congruence.
  - rewrite Hcl. intros id c fd Hc Hfd. specialize (oi_closes0 _ _ _ Hc Hfd). lia.
  - rewrite Hcl. intros id c Hc. specialize (oi_achieved0 id c Hc).
    destruct c as [| | |rest failed|[e|]]; cbn in *; rewrite ?Hls; try done.
    + by destruct oi_achieved0 as (_ & Hf & _).
    + by destruct oi_achieved0 as (_ & Hf & _).
Qed.

(** What the workers held, and this one goes on with. *)
Lemma hands_serving d' pc' fd :
  hands d fd -> od_workers d' = <[w := pc']> (od_workers d) ->
  (forall x, residual d x -> residual d' x) ->
  (forall x, hold scope_hands (od_scopes d) x -> hold scope_hands (od_scopes d') x \/ hands d' x) ->
  (serving_hands pc fd -> hands d' fd) -> hands d' fd.
Proof.
  intros [Hr|[Hs|Hs]] Hws Hres Hsc Hpc.
  - left. auto.
  - destruct (Hsc _ Hs); [by right; left|done].
  - destruct (hold_insert serving_hands (od_workers d) w pc' fd Hs) as [H|(pc0 & H & Hh)].
    + right. right. by rewrite Hws.
    + apply Hpc. congruence.
Qed.

Lemma scopes_same d' :
  od_scopes d' = od_scopes d -> od_nextScope d' = od_nextScope d ->
  forall sid s, od_scopes d' !! sid = Some s -> sid < od_nextScope d' /\ scope_ok s.
Proof. intros -> ->. exact (oi_scopes _ Hi). Qed.

(** Only the worker's place changes. *)
Lemma serve_goes pc' :
  (forall fd, fd ∈ serving_list pc -> fd ∈ serving_list pc') -> worker_ok pc' d ->
  worker_sid pc' = worker_sid pc -> OInv (set_serving w pc' d).
Proof.
  intros Hl Hok Hsid. apply (serve_moves _ pc'); try done.
  - eapply pool_ok_weaken; [|exact (oi_pool _ Hi)]. intros fd Hh.
    eapply (hands_serving _ pc'); [done|done|done|by left|].
    intros H. right. right. apply (hold_new serving_hands). by apply Hl.
  - by left.
  - by apply scopes_grow_refl.
  - exact (oi_scopes _ Hi).
  - destruct Hok. by constructor.
  - intros sid s Hs. rewrite Hsid. destruct (decide (worker_sid pc = Some sid)); [auto|].
    right. right. split; [done|by eexists].
Qed.

End serve.

(** The worker closes a socket nobody lists. *)
Lemma closeUnowned_same d fd answer :
  let d' := closeUnowned fd answer d in
  od_workers d' = od_workers d /\ od_closes d' = od_closes d /\ od_listener d' = od_listener d /\
  od_nextWorker d' = od_nextWorker d /\ od_nextScope d' = od_nextScope d /\ od_next d' = od_next d /\
  od_scopes d' = od_scopes d /\ od_left d' = od_left d /\ od_tasks d' = od_tasks d /\
  po_listed (od_pool d') = po_listed (od_pool d).
Proof.
  unfold closeUnowned, closeRaw. destruct (closeFailed answer) eqn:E; cbn; rewrite ?E; done.
Qed.

Lemma closeUnowned_hands d fd answer x :
  hands d x -> hands (closeUnowned fd answer d) x.
Proof.
  unfold closeUnowned, closeRaw. destruct (closeFailed answer) eqn:E; cbn; rewrite ?E; [|done].
  intros [[H|H]|H]; [left; left; cbn; set_solver|left; by right|by right].
Qed.

Lemma closeUnowned_pool d fd answer :
  OInv d ->
  let d' := closeUnowned fd answer d in
  pool_ok (fun x => hands d' x /\ (x = fd -> x ∈ od_leaked d')) (od_next d') (od_pool d').
Proof.
  intros Hi. cbv zeta. unfold closeUnowned. destruct (closeRaw fd answer (od_pool d)) as [p err] eqn:E.
  destruct (pool_ok_closeRaw _ _ _ _ _ _ _ (oi_pool _ Hi) E) as [Hp Hn].
  destruct (closeFailed err) eqn:Hc; cbn.
  - eapply pool_ok_weaken; [|exact Hp]. intros x Hx. split; [|intros ->; set_solver].
    destruct Hx as [[H|H]|H]; [left; left; cbn; set_solver|left; by right|by right].
  - eapply pool_ok_held; [exact Hp|]. intros x Hx Hopen. left. split; [exact Hx|].
    intros ->. by destruct (Hn eq_refl).
Qed.

Lemma closeUnowned_open d fd answer x :
  let d' := closeUnowned fd answer d in
  x ∈ po_open (od_pool d') ->
  (x ∈ po_open (od_pool d)) /\ (x = fd -> x ∈ od_leaked d') /\ od_leaked d ⊆ od_leaked d'.
Proof.
  unfold closeUnowned, closeRaw. destruct (closeFailed answer) eqn:E; cbn; rewrite ?E; cbn; set_solver.
Qed.

Lemma worker_ok_same pc d d' :
  worker_ok pc d -> od_scopes d' = od_scopes d -> od_next d' = od_next d -> worker_ok pc d'.
Proof. intros [H1 H2] E1 E2. constructor; rewrite ?E1, ?E2; done. Qed.

(** The worker closes the first socket of its list. *)
Lemma serve_closes d w pc pc' fd answer :
  OInv d -> od_workers d !! w = Some pc -> pc <> Finished ->
  serving_list pc = fd :: serving_list pc' -> worker_sid pc' = worker_sid pc -> worker_ok pc' d ->
  OInv (set_serving w pc' (closeUnowned fd answer d)).
Proof.
  intros Hi Hw Hrun Hl Hsid Hok.
  destruct (closeUnowned_same d fd answer) as (E1 & E2 & E3 & E4 & E5 & E6 & E7 & E8 & E9 & E10).
  pose proof (closeUnowned_pool d fd answer Hi) as Hp.
  set (d1 := closeUnowned fd answer d) in *. clearbody d1.
  apply (serve_moves d w pc Hi Hw Hrun _ pc'); cbn; rewrite ?E1, ?E2, ?E3, ?E4, ?E5, ?E6, ?E7; try done.
  - eapply pool_ok_weaken; [|rewrite <- E6; exact Hp]. cbn. intros x [Hx Hfd].
    assert (od_workers d1 !! w = Some pc) as Hw1 by by rewrite E1.
    eapply (hands_serving d1 w pc Hw1 _ pc'); [exact Hx|by cbn; rewrite E1|done|by left|].
    unfold serving_hands. rewrite Hl. intros [->|Hin]%elem_of_cons; [left; left; by apply Hfd|].
    right. right. apply (hold_new serving_hands). done.
  - rewrite E10. by left.
  - by apply scopes_grow_refl.
  - exact (oi_scopes _ Hi).
  - eapply worker_ok_same; [exact Hok|done..].
  - intros sid s Hs. rewrite Hsid. destruct (decide (worker_sid pc = Some sid)); [auto|].
    right. right. split; [done|]. by eexists.
Qed.

(** The worker got a connection and holds it. *)
Lemma newConn_pool d :
  OInv d -> let d' := (newConn d).1 in
  pool_ok (fun x => hands d' x \/ x = od_next d) (od_next d') (od_pool d').
Proof.
  intros Hi. cbn. eapply pool_ok_weaken; [|exact (pool_ok_opens _ _ _ (oi_pool _ Hi))].
  intros x [->|H]; [by right|by left].
Qed.

Lemma serve_opens d w pc pc' :
  OInv d -> od_workers d !! w = Some pc -> pc <> Finished -> serving_list pc = [] ->
  serving_list pc' = [od_next d] -> worker_sid pc' = worker_sid pc ->
  (forall sid, worker_sid pc' = Some sid -> exists s, od_scopes d !! sid = Some s /\ (discards pc' -> over s)) ->
  OInv (set_serving w pc' (newConn d).1).
Proof.
  intros Hi Hw Hrun Hl Hl' Hsid Hsc. apply (serve_moves d w pc Hi Hw Hrun _ pc'); cbn; try done; try lia.
  - eapply pool_ok_weaken; [|exact (newConn_pool d Hi)]. intros x [Hx| ->].
    + eapply (hands_serving (newConn d).1 w pc Hw _ pc'); [exact Hx|done|done|by left|].
      unfold serving_hands. rewrite Hl. by intros ?%not_elem_of_nil.
    + right. right. apply (hold_new serving_hands). unfold serving_hands. rewrite Hl'. by left.
  - by left.
  - by apply scopes_grow_refl.
  - exact (oi_scopes _ Hi).
  - constructor; cbn; [|done]. rewrite Hl'. intros fd ->%list_elem_of_singleton. destruct pc'; try done; lia.
  - intros sid s Hs. rewrite Hsid. destruct (decide (worker_sid pc = Some sid)); [auto|].
    right. right. split; [done|by eexists].
Qed.

Lemma serve_accepts d w :
  OInv d -> od_workers d !! w = Some Serving ->
  OInv (set_serving w (TrackingConn (od_next d)) (newConn d).1).
Proof. intros Hi Hw. by apply (serve_opens d w Serving). Qed.

(** The connection the worker holds is listed. *)
Lemma serve_tracks d w pc pc' fd :
  OInv d -> od_workers d !! w = Some pc -> pc <> Finished -> serving_list pc = [fd] -> fd < od_next d ->
  serving_list pc' = [] -> worker_sid pc' = worker_sid pc -> (discards pc' -> False) ->
  OInv (set_serving w pc' (trackOutline fd d)).
Proof.
  intros Hi Hw Hrun Hl Hfd Hl' Hsid Hnd.
  apply (serve_moves d w pc Hi Hw Hrun _ pc'); cbn; try done.
  - eapply pool_ok_weaken; [|exact (pool_ok_lists _ _ fd _ (oi_pool _ Hi))]. intros x [Hx Hne].
    eapply (hands_serving d w pc Hw _ pc'); [exact Hx|done|done|by left|].
    unfold serving_hands. rewrite Hl. by intros ->%list_elem_of_singleton.
  - intros x [->%elem_of_singleton|H]%elem_of_union; [by right|by left].
  - by apply scopes_grow_refl.
  - exact (oi_scopes _ Hi).
  - constructor; [rewrite Hl'; by intros x ?%not_elem_of_nil|]. intros sid Hs. rewrite Hsid in Hs.
    destruct (oi_workers _ Hi _ _ Hw) as [_ [_ Hsc]]. destruct (Hsc sid Hs) as (s & Hs1 & _). exists s. by split.
  - intros sid s Hs. rewrite Hsid. destruct (decide (worker_sid pc = Some sid)); [auto|].
    right. right. split; [done|by eexists].
Qed.

(** The worker operates on the scope of its dial. *)
Lemma serve_scope d d1 w pc pc' sid s s' :
  OInv d -> od_workers d !! w = Some pc -> pc <> Finished -> worker_sid pc = Some sid ->
  od_scopes d !! sid = Some s -> scope_ok s' -> scope_grows s s' ->
  d1 = set_streamScope sid s' d <| od_left := od_left d1 |> -> od_left d ⊆ od_left d1 ->
  (forall x, scope_hands s x -> scope_hands s' x \/ (x ∈ serving_list pc') \/ (x ∈ od_left d1)) ->
  (forall x, x ∈ serving_list pc -> x ∈ serving_list pc') ->
  worker_ok pc' (set_streamScope sid s' d) -> worker_sid pc' = Some sid \/ settled s' ->
  OInv (set_serving w pc' d1).
Proof.
  intros Hi Hw Hrun Hsid Hs Hok Hg Hd1 Hleft Hh Hl Hwok Hsid'.
  assert (od_workers d1 = od_workers d /\ od_closes d1 = od_closes d /\ od_listener d1 = od_listener d /\
    od_nextWorker d1 = od_nextWorker d /\ od_nextScope d1 = od_nextScope d /\ od_next d1 = od_next d /\
    od_scopes d1 = <[sid := s']> (od_scopes d) /\ od_pool d1 = od_pool d /\ od_leaked d1 = od_leaked d /\
    od_tasks d1 = od_tasks d) as (E1 & E2 & E3 & E4 & E5 & E6 & E7 & E8 & E9 & E10) by (rewrite Hd1; done).
  clear Hd1. apply (serve_moves d w pc Hi Hw Hrun _ pc'); cbn; rewrite ?E1, ?E2, ?E3, ?E4, ?E5, ?E6, ?E7, ?E8; try done.
  - eapply pool_ok_weaken; [|exact (oi_pool _ Hi)]. intros x Hx.
    eapply (hands_serving d w pc Hw _ pc'); [exact Hx|by cbn; rewrite E1| | |].
    + intros y [H|[H|H]]; [left; cbn; by rewrite E9|right; left; cbn; set_solver|right; right; cbn; by rewrite E10].
    + intros y Hy. cbn. rewrite E7. destruct (hold_insert scope_hands _ sid s' y Hy) as [H|(s0 & H0 & H)]; [by left|].
      simplify_eq. destruct (Hh y H) as [H1|[H1|H1]]; [left; by apply (hold_new scope_hands)| |].
      * right. right. right. cbn. apply (hold_new serving_hands). done.
      * right. left. right. by left.
    + intros H. right. right. cbn. apply (hold_new serving_hands). by apply Hl.
  - by left.
  - intros sid0 s0 H0. cbn. rewrite E7. destruct (decide (sid0 = sid)) as [->|Hne].
    + exists s'. rewrite lookup_insert_eq. split; [done|]. congruence.
    + exists s0. by rewrite lookup_insert_ne.
  - intros sid0 s0 [[<- <-]|[_ H0]]%lookup_insert_Some; [|by apply (oi_scopes _ Hi)].
    split; [by destruct (oi_scopes _ Hi _ _ Hs)|done].
  - eapply worker_ok_same; [exact Hwok|cbn; by rewrite E7|by cbn].
  - intros sid0 s0 [[<- <-]|[Hne H0]]%lookup_insert_Some; [tauto|].
    right. right. split; [congruence|by eexists].
Qed.

(** *** Every step of a worker *)

Lemma no_fds {P : Prop} fd : fd ∈ ([] : list nat) -> P.
Proof. by intros ?%not_elem_of_nil. Qed.

Lemma worker_ok_scope d w pc pc' sid :
  OInv d -> od_workers d !! w = Some pc -> worker_sid pc = Some sid -> worker_sid pc' = Some sid ->
  serving_list pc' = [] -> ~ discards pc' -> worker_ok pc' d.
Proof.
  intros Hi Hw Hsid Hsid' Hl Hnd. constructor; [rewrite Hl; intros fd; apply no_fds|].
  intros sid0 H0. destruct (oi_workers _ Hi _ _ Hw) as [_ [_ Hsc]].
  assert (sid0 = sid) as -> by congruence. destruct (Hsc sid Hsid) as (s & Hs & _). exists s. by split.
Qed.

Lemma worker_scope d w pc sid :
  OInv d -> od_workers d !! w = Some pc -> worker_sid pc = Some sid ->
  exists s, od_scopes d !! sid = Some s /\ scope_ok s /\ (discards pc -> over s).
Proof.
  intros Hi Hw Hsid. destruct (oi_workers _ Hi _ _ Hw) as [_ [_ Hsc]]. destruct (Hsc sid Hsid) as (s & Hs & Ho).
  exists s. split_and!; [done|by destruct (oi_scopes _ Hi _ _ Hs)|done].
Qed.

(** The worker works with a scope that was set to [s]. *)
Lemma worker_ok_set d pc' sid s :
  worker_sid pc' = Some sid -> (discards pc' -> over s) ->
  (forall fd, fd ∈ serving_list pc' -> match pc' with HandoffClosing _ _ | DiscardClosing _ _ => True | _ => fd < od_next d end) ->
  worker_ok pc' (set_streamScope sid s d).
Proof.
  intros Hsid Ho Hfd. constructor; [done|]. intros sid0 H0. assert (sid0 = sid) as -> by congruence.
  exists s. cbn. by rewrite lookup_insert_eq.
Qed.

Lemma serve_submits d w : OInv d -> od_workers d !! w = Some Serving -> OInv (Submit d).
Proof.
  intros Hi Hw. assert (od_workers d !! od_nextWorker d = None) as Hnew.
  { destruct (od_workers d !! od_nextWorker d) as [pc|] eqn:E; [|done].
    destruct (oi_workers _ Hi _ _ E). lia. }
  pose proof (running_unfinished d w Serving Hw ltac:(done)) as Hno.
  destruct Hi. constructor; cbn; try done.
  - eapply pool_ok_weaken; [|exact oi_pool0]. intros fd [H|[H|H]]; [by left|by right; left|right; right].
    cbn. destruct (hold_insert serving_hands _ (od_nextWorker d) Serving fd H) as [?|(? & ? & ?)]; [done|congruence].
  - intros w0 pc0 [[<- <-]|[_ H]]%lookup_insert_Some.
    + split; [lia|]. constructor; [intros fd; apply no_fds|done].
    + destruct (oi_workers0 _ _ H) as [? [? ?]]. split; [lia|by constructor].
  - intros sid s Hs. destruct (oi_owned0 sid s Hs) as [?|(w0 & pc0 & Hw0 & Hsid)]; [by left|right].
    exists w0, pc0. rewrite lookup_insert_ne; [done|congruence].
  - intros id c Hc. specialize (oi_achieved0 id c Hc). destruct c as [| | |rest failed|[e|]]; cbn in *; try done;
      by destruct oi_achieved0 as (_ & Hf & _).
Qed.

Lemma serve_begins d w canceled :
  OInv d -> od_workers d !! w = Some Serving ->
  OInv (set_serving w (DialingStream (od_nextScope d))
    (set_streamScope (od_nextScope d) (newPendingStreamConnScope canceled) (d <| od_nextScope ::= S |>))).
Proof.
  intros Hi Hw. assert (forall sid s, od_scopes d !! sid = Some s -> sid <> od_nextScope d) as Hne.
  { intros sid s Hs ->. destruct (oi_scopes _ Hi _ _ Hs). lia. }
  apply (serve_moves d w Serving Hi Hw ltac:(done) _ (DialingStream (od_nextScope d))); cbn; try done; try lia.
  - eapply pool_ok_weaken; [|exact (oi_pool _ Hi)]. intros fd Hh.
    eapply (hands_serving d w Serving Hw _ (DialingStream (od_nextScope d))); [exact Hh|done|done| |intros H; by apply (no_fds fd)].
    intros x (sid & s & Hs & Hx). left. exists sid, s. cbn. by rewrite lookup_insert_ne; [|apply not_eq_sym, (Hne _ _ Hs)].
  - by left.
  - intros sid s Hs. exists s. cbn. rewrite lookup_insert_ne; [done|apply not_eq_sym, (Hne _ _ Hs)].
  - intros sid s [[<- <-]|[_ Hs]]%lookup_insert_Some; [split; [lia|by constructor; destruct canceled]|].
    destruct (oi_scopes _ Hi _ _ Hs). split; [lia|done].
  - eapply worker_ok_same; [apply (worker_ok_set d _ (od_nextScope d)); [done..|]|done..]. intros fd. apply no_fds.
  - intros sid s [[<- <-]|[_ Hs]]%lookup_insert_Some; [auto|]. right. right. split; [done|by eexists].
Qed.

(** The dialed packet connection. *)
Lemma serve_packet d w sid :
  OInv d -> od_workers d !! w = Some (DialingStream sid) ->
  OInv (set_serving w (HandingOff sid (od_next d)) (newConn d).1).
Proof.
  intros Hi Hw. destruct (worker_scope d w _ sid Hi Hw eq_refl) as (s & Hs & _).
  apply (serve_opens d w (DialingStream sid)); try done.
  intros sid0 [= <-]. exists s. by split.
Qed.

Lemma serve_hands_off d w sid fd :
  OInv d -> od_workers d !! w = Some (HandingOff sid fd) -> OInv (handOffConn w sid fd d).
Proof.
  intros Hi Hw. destruct (worker_scope d w _ sid Hi Hw eq_refl) as (s & Hs & Hok & _).
  destruct (oi_workers _ Hi _ _ Hw) as [_ [Hfd _]]. specialize (Hfd fd (list_elem_of_here _ _)). cbn in Hfd.
  unfold handOffConn. rewrite Hs. destruct (handoff s) as [[s' pending] ok] eqn:E.
  destruct (handoff_ok s s' pending ok Hok E) as (Hok' & Hg & Ho & Hh). destruct ok.
  - apply (serve_scope d (set_streamScope sid s' d <| od_left ::= union (ss_pending s ∖ {[fd]}) |>) w
      (HandingOff sid fd) (StoppingScope sid fd) sid s s'); try done.
    + cbn. set_solver.
    + intros x Hx. destruct (Hh x Hx) as [?|Hp]; [by left|right]. destruct (decide (x = fd)) as [->|Hne].
      * left. by left.
      * right. cbn. set_solver.
    + apply worker_ok_set; [done..|]. by intros x ->%list_elem_of_singleton.
    + by left.
  - apply (serve_scope d (set_streamScope sid s' d) w
      (HandingOff sid fd) (HandoffClosing sid (pending ++ [fd])) sid s s'); try done.
    + intros x Hx. destruct (Hh x Hx) as [?|Hp]; [by left|right; left]. apply elem_of_app. by left.
    + intros x Hx. apply elem_of_app. by right.
    + by apply worker_ok_set.
    + by left.
Qed.

Lemma serve_discards d w sid :
  OInv d -> od_workers d !! w = Some (Discarding sid) -> OInv (discardScope w sid d).
Proof.
  intros Hi Hw. destruct (worker_scope d w _ sid Hi Hw eq_refl) as (s & Hs & Hok & _).
  unfold discardScope. rewrite Hs. destruct (abort s) as [s' pending] eqn:E.
  destruct (abort_ok s s' pending Hok E) as (Hok' & Hg & Ho & _ & Hh).
  apply (serve_scope d (set_streamScope sid s' d) w (Discarding sid) (DiscardClosing sid pending) sid s s'); try done.
  - intros x Hx. destruct (Hh x Hx); auto.
  - intros x. apply no_fds.
  - by apply worker_ok_set.
  - by left.
Qed.

Lemma serve_stops d w pc pc' sid :
  OInv d -> od_workers d !! w = Some pc -> pc <> Finished -> worker_sid pc = Some sid ->
  serving_list pc' = serving_list pc ->
  (forall s, worker_ok pc' (set_streamScope sid s d)) ->
  (worker_sid pc' = Some sid \/ discards pc) -> OInv (scopeStopped w sid pc' d).
Proof.
  intros Hi Hw Hrun Hsid Hl Hwok Hend. destruct (worker_scope d w _ sid Hi Hw Hsid) as (s & Hs & Hok & Ho).
  unfold scopeStopped. rewrite Hs. destruct (stopAndWaitScope s) as [s'|] eqn:E; [|done].
  destruct (stop_ok s s' Hok E) as (Hok' & Hg & Hset & Hh).
  apply (serve_scope d (set_streamScope sid s' d) w pc pc' sid s s'); try done.
  - auto.
  - by rewrite Hl.
  - destruct Hend; [by left|right; auto].
Qed.

Lemma OInv_serve w pc answer d :
  OInv d -> od_workers d !! w = Some pc -> OInv (serveStep w pc answer d).
Proof.
  intros Hi Hw. destruct (oi_workers _ Hi _ _ Hw) as [_ Hok]. pose proof Hok as [Hfds _].
  destruct pc as [|fd|sid|sid fd|sid fd|sid fd|sid fds|sid|sid fds|sid|]; cbn [serveStep].
  - destruct answer as [| |canceled|conn|answer|]; try done.
    + by apply (serve_submits _ w).
    + by apply serve_accepts.
    + by apply serve_begins.
    + apply (serve_goes d w Serving); [done..|constructor; [intros fd; apply no_fds|done]|done].
  - apply (serve_tracks d w (TrackingConn fd)); try done. apply (Hfds fd), list_elem_of_here.
  - destruct answer as [| |canceled|[|fd|]|answer|]; try done; unfold dialReturned.
    + apply (serve_goes d w (DialingStream sid)); try done. apply (worker_ok_scope d w (DialingStream sid) _ sid); [done..|by intros []].
    + destruct (Nat.ltb_spec fd (od_next d)) as [Hlt|]; [|done].
      apply (serve_goes d w (DialingStream sid)); try done; [intros x; apply no_fds|].
      destruct Hok as [_ Hsc]. constructor; [by intros x ->%list_elem_of_singleton|done].
    + by apply serve_packet.
  - by apply serve_hands_off.
  - apply (serve_stops d w (StoppingScope sid fd)); try done; [|by left]. intros s. apply worker_ok_set; [done..|exact Hfds].
  - apply (serve_tracks d w (TrackingStream sid fd)); try done. apply (Hfds fd), list_elem_of_here.
  - destruct fds as [|fd rest].
    + apply (serve_goes d w (HandoffClosing sid [])); try done. apply (worker_ok_scope d w (HandoffClosing sid []) _ sid); [done..|by intros []].
    + destruct answer; try done. apply (serve_closes d w (HandoffClosing sid (fd :: rest))); try done.
      destruct Hok as [_ Hsc]. by constructor.
  - by apply serve_discards.
  - destruct fds as [|fd rest].
    + apply (serve_goes d w (DiscardClosing sid [])); try done. destruct Hok as [_ Hsc].
      constructor; [intros fd; apply no_fds|exact Hsc].
    + destruct answer; try done. apply (serve_closes d w (DiscardClosing sid (fd :: rest))); try done.
      destruct Hok as [_ Hsc]. by constructor.
  - apply (serve_stops d w (DiscardStopping sid)); try done. by right.
  - done.
Qed.

(** ** The library's goroutines, the cancellations and the connections' closes *)

Lemma OInv_others d d' :
  OInv d -> od_workers d' = od_workers d -> od_nextWorker d' = od_nextWorker d ->
  od_closes d' = od_closes d -> od_listener d' = od_listener d -> od_nextScope d' = od_nextScope d ->
  od_next d <= od_next d' -> pool_ok (hands d') (od_next d') (od_pool d') ->
  po_listed (od_pool d') ⊆ po_listed (od_pool d) -> scopes_grow d d' ->
  (forall sid s, od_scopes d' !! sid = Some s -> scope_ok s /\ is_Some (od_scopes d !! sid)) ->
  (finished d -> forall fd, fd ∈ po_open (od_pool d') ->
     ((fd ∈ po_open (od_pool d)) /\ (residual d fd -> residual d' fd)) \/ residual d' fd) -> OInv d'.
Proof.
  intros Hi Hws Hnw Hcl Hls Hns Hn Hp Hlist Hg Hsc Hdrained.
  destruct Hi. constructor; try done.
  - intros fd Hfd. apply Hlist, oi_listed0 in Hfd. lia.
  - rewrite Hws, Hnw. intros w pc Hw. destruct (oi_workers0 _ _ Hw). split; [done|by eapply worker_ok_grows].
  - intros sid s Hs. destruct (Hsc sid s Hs) as [? [s0 Hs0]]. split; [|done]. rewrite Hns. by eapply oi_scopes0.
  - intros sid s' Hs'. destruct (Hsc sid s' Hs') as [_ [s Hs]]. destruct (Hg sid s Hs) as (s1 & Hs1 & _ & Hset).
    simplify_eq. destruct (oi_owned0 sid s Hs) as [?|(w & pc & Hw & Hsid)]; [left; auto|right].
    exists w, pc. by rewrite Hws.
  - rewrite Hcl. intros id c fd Hc Hfd. specialize (oi_closes0 _ _ _ Hc Hfd). lia.
  - rewrite Hcl. intros id c Hc. specialize (oi_achieved0 id c Hc).
    destruct c as [| | |rest failed|[e|]]; cbn in *; rewrite ?Hls; unfold finished; rewrite ?Hws; try done.
    + destruct oi_achieved0 as (Hl & Hf & Ho). split_and!; [done..|]. intros Hnone fd Hfd.
      destruct (Hdrained Hf fd Hfd) as [[H1 H2]|?]; [|by right]. destruct (Ho Hnone fd H1); auto.
    + destruct oi_achieved0 as (Hl & Hf & Ho). split_and!; [done..|]. intros fd Hfd.
      destruct (Hdrained Hf fd Hfd) as [[H1 H2]|?]; auto.
Qed.

Lemma scopes_kept d d' :
  OInv d -> od_scopes d' = od_scopes d ->
  forall sid s, od_scopes d' !! sid = Some s -> scope_ok s /\ is_Some (od_scopes d !! sid).
Proof. intros Hi -> sid s Hs. split; [by destruct (oi_scopes _ Hi _ _ Hs)|by eexists]. Qed.

Lemma scopes_set d sid s s' :
  OInv d -> od_scopes d !! sid = Some s -> scope_ok s' ->
  forall sid0 s0, <[sid := s']> (od_scopes d) !! sid0 = Some s0 -> scope_ok s0 /\ is_Some (od_scopes d !! sid0).
Proof.
  intros Hi Hs Hok sid0 s0 [[<- <-]|[_ H0]]%lookup_insert_Some; [split; [done|by eexists]|].
  split; [by destruct (oi_scopes _ Hi _ _ H0)|by eexists].
Qed.

(** What a changed scope no longer holds is held elsewhere. *)
Lemma hands_scope d d' sid s s' fd :
  hands d fd -> od_scopes d !! sid = Some s -> od_scopes d' = <[sid := s']> (od_scopes d) ->
  od_workers d' = od_workers d -> (residual d fd -> hands d' fd) ->
  (scope_hands s fd -> scope_hands s' fd \/ hands d' fd) -> hands d' fd.
Proof.
  intros [Hr|[Hh|Hh]] Hs Hsc Hws Hres Hs'.
  - auto.
  - destruct (hold_insert scope_hands _ sid s' fd Hh) as [H|(s0 & H0 & H)].
    + right. left. by rewrite Hsc.
    + simplify_eq. destruct (Hs' H) as [?|?]; [|done]. right. left. rewrite Hsc. by apply hold_new.
  - right. right. by rewrite Hws.
Qed.

Lemma OInv_cancel d sid s :
  OInv d -> od_scopes d !! sid = Some s -> OInv (set_streamScope sid (cancelDial s) d).
Proof.
  intros Hi Hs. destruct (oi_scopes _ Hi _ _ Hs) as [_ Hok]. destruct (cancelDial_ok s Hok) as [Hok' Hg].
  apply (OInv_others d); cbn; try done.
  - eapply pool_ok_weaken; [|exact (oi_pool _ Hi)]. intros fd Hh.
    eapply (hands_scope d _ sid s (cancelDial s)); [exact Hh|done..|by left|].
    intros H. left. by apply cancelDial_hands.
  - by apply (scopes_grow_set d sid s).
  - by apply (scopes_set d sid s).
  - intros _ fd Hfd. left. by split.
Qed.

Lemma OInv_connCloses d fd answer : OInv d -> fd < od_next d -> OInv (closeConn fd answer d).1.
Proof.
  intros Hi Hlt. unfold closeConn. destruct (closeOwned fd answer (od_pool d)) as [p err] eqn:E.
  destruct (closeOwned_shrinks _ _ _ _ _ E) as [Ho Hl]. apply (OInv_others d); cbn; try done.
  - by apply (pool_ok_closeOwned _ _ _ _ _ _ _ (oi_pool _ Hi) Hlt E).
  - by apply scopes_grow_refl.
  - by apply (scopes_kept d d Hi).
  - intros _ x Hx. left. split; [by apply Ho|done].
Qed.

(** A goroutine of the library closes the first socket of its list. *)
Lemma OInv_taskCloses d t fd rest answer :
  OInv d -> od_tasks d !! t = Some (RefusedClosing (fd :: rest)) ->
  OInv (closeUnowned fd answer d <| od_tasks ::= <[t := RefusedClosing rest]> |>).
Proof.
  intros Hi Ht. destruct (closeUnowned_same d fd answer) as (E1 & E2 & E3 & E4 & E5 & E6 & E7 & E8 & E9 & E10).
  pose proof (closeUnowned_pool d fd answer Hi) as Hp. pose proof (closeUnowned_open d fd answer) as Hopen.
  set (d1 := closeUnowned fd answer d) in *. clearbody d1.
  assert (forall x, residual d1 x -> (x = fd -> x ∈ od_leaked d1) ->
    residual (d1 <| od_tasks ::= <[t := RefusedClosing rest]> |>) x) as Hres.
  { intros x [H|[H|H]] Hfd; [by left|by right; left|].
    destruct (hold_insert task_hands _ t (RefusedClosing rest) x H) as [?|(a0 & H0 & Ha)]; [by right; right|].
    rewrite E9, Ht in H0. simplify_eq. unfold task_hands in Ha. cbn in Ha.
    apply elem_of_cons in Ha as [->|Ha]; [left; by apply Hfd|]. right. right. cbn. by apply (hold_new task_hands). }
  apply (OInv_others d); try done; cbn.
  - by rewrite E6.
  - eapply pool_ok_weaken; [|exact Hp]. intros x [[Hx|Hx] Hfd]; [left; auto|right; exact Hx].
  - by rewrite E10.
  - by apply scopes_grow_refl.
  - by apply (scopes_kept d _ Hi).
  - intros _ x Hx. destruct (Hopen x Hx) as (Hx' & Hfd & Hlk). left. split; [done|]. intros Hr. apply Hres; [|done].
    destruct Hr as [H|[H|H]]; [left; auto|right; left; by rewrite E8|right; right; by rewrite E9].
Qed.

Lemma OInv_taskBegins d t sid :
  OInv d -> od_tasks d !! t = None -> OInv (taskBegins t sid d).
Proof.
  intros Hi Ht. unfold taskBegins. destruct (od_scopes d !! sid) as [s|] eqn:Hs; [|done].
  assert (forall x, residual d x -> residual (d <| od_tasks ::= <[t := Registering sid (od_next d)]> |>) x) as Hres.
  { intros x [H|[H|H]]; [by left|by right; left|].
    destruct (hold_insert task_hands _ t (Registering sid (od_next d)) x H) as [?|(a0 & H0 & _)]; [by right; right|congruence]. }
  assert (residual (d <| od_tasks ::= <[t := Registering sid (od_next d)]> |>) (od_next d)) as Hnew.
  { right. right. cbn. apply (hold_new task_hands). by left. }
  apply (OInv_others d); try done; cbn.
  - lia.
  - eapply pool_ok_weaken; [|exact (newConn_pool d Hi)]. intros x [[Hx|Hx]| ->]; [left|right; exact Hx|by left].
    by apply Hres.
  - by apply scopes_grow_refl.
  - by apply (scopes_kept d _ Hi).
  - intros _ x [->%elem_of_singleton|Hx]%elem_of_union; [by right|left]. split; [done|apply Hres].
Qed.

(** A finished task: it holds nothing, or what a scope took over. *)
Lemma residual_task_delete d t task x :
  residual d x -> od_tasks d !! t = Some task ->
  residual (d <| od_tasks ::= delete t |>) x \/ task_hands task x.
Proof.
  intros [H|[H|H]] Ht; [by left; left|by left; right; left|].
  destruct (hold_delete task_hands _ t x H) as [?|(a0 & H0 & Ha)]; [by left; right; right|right]. congruence.
Qed.

Lemma OInv_taskEnds d t :
  OInv d -> od_tasks d !! t = Some (RefusedClosing []) -> OInv (d <| od_tasks ::= delete t |>).
Proof.
  intros Hi Ht.
  assert (forall x, residual d x -> residual (d <| od_tasks ::= delete t |>) x) as Hres.
  { intros x Hx. destruct (residual_task_delete d t _ x Hx Ht) as [?|H]; [done|]. by apply (no_fds x). }
  apply (OInv_others d); try done; cbn.
  - eapply pool_ok_weaken; [|exact (oi_pool _ Hi)]. intros x [Hx|Hx]; [left; by apply Hres|by right].
  - by apply scopes_grow_refl.
  - by apply (scopes_kept d _ Hi).
  - intros _ x Hx. left. split; [done|apply Hres].
Qed.

Lemma registered_over fd s : over s -> (registerConn fd s).2 <> None.
Proof. unfold registerConn, takePendingLocked. intros [->| ->]; cbn; rewrite ?orb_true_r; by repeat case_match. Qed.

Lemma OInv_registers d t sid fd answer :
  OInv d -> od_tasks d !! t = Some (Registering sid fd) -> OInv (taskStep t (Registering sid fd) answer d).
Proof.
  intros Hi Ht. cbn. destruct (od_scopes d !! sid) as [s|] eqn:Hs; [|done].
  destruct (oi_scopes _ Hi _ _ Hs) as [_ Hok]. destruct (registerConn fd s) as [[s' closes] err] eqn:E.
  destruct (register_ok fd s s' closes err Hok E) as (Hok' & Hg & Hh & Hend). destruct err as [err|].
  - set (d' := set_streamScope sid s' d <| od_tasks ::= <[t := RefusedClosing closes]> |>).
    assert (forall x, residual d x -> residual d' x) as Hres.
    { intros x [H|[H|H]]; [by left|by right; left|]. right. right. cbn.
      destruct (hold_insert task_hands _ t (RefusedClosing closes) x H) as [?|(a0 & H0 & Ha)]; [done|].
      simplify_eq. apply list_elem_of_singleton in Ha as ->. by apply (hold_new task_hands). }
    apply (OInv_others d); try done; cbn.
    + eapply pool_ok_weaken; [|exact (oi_pool _ Hi)]. intros x Hx.
      eapply (hands_scope d d' sid s s'); [exact Hx|done..|intros H; left; by apply Hres|].
      intros H. destruct (Hh x H) as [?|Hc]; [by left|right]. left. right. right. cbn. by apply (hold_new task_hands).
    + by apply (scopes_grow_set d sid s).
    + by apply (scopes_set d sid s).
    + intros _ x Hx. left. split; [done|apply Hres].
  - destruct Hend as [Hfd ->]. set (d' := set_streamScope sid s' d <| od_tasks ::= delete t |>).
    assert (forall x, residual d x -> residual d' x \/ x = fd) as Hres.
    { intros x Hx. destruct (residual_task_delete d t _ x Hx Ht) as [[H|[H|H]]|H]; [by left; left|by left; right; left| |].
      - left. right. by right.
      - right. by apply list_elem_of_singleton in H. }
    apply (OInv_others d); try done; cbn.
    + eapply pool_ok_weaken; [|exact (oi_pool _ Hi)]. intros x Hx.
      eapply (hands_scope d d' sid s s'); [exact Hx|done..| |].
      * intros H. destruct (Hres x H) as [?| ->]; [by left|]. right. left. cbn. by apply (hold_new scope_hands).
      * intros H. destruct (Hh x H) as [?|Hc]; [by left|]. by apply (no_fds x).
    + by apply (scopes_grow_set d sid s).
    + by apply (scopes_set d sid s).
    + intros Hf x Hx. destruct (finished_settled d sid s Hi Hf Hs) as [Ho _].
      destruct (registered_over fd s Ho). by rewrite E.
Qed.

(** The function of the scope; a settled scope's has ended. *)
Lemma OInv_scopeCloses d sid s fd rest answer :
  OInv d -> od_scopes d !! sid = Some s -> ss_after s = AbortClosing (fd :: rest) ->
  OInv (set_streamScope sid (s <| ss_after := AbortClosing rest |>) (closeUnowned fd answer d)).
Proof.
  intros Hi Hs Ha. destruct (oi_scopes _ Hi _ _ Hs) as [_ [Hover Hdone]].
  destruct (closeUnowned_same d fd answer) as (E1 & E2 & E3 & E4 & E5 & E6 & E7 & E8 & E9 & E10).
  pose proof (closeUnowned_pool d fd answer Hi) as Hp.
  set (d1 := closeUnowned fd answer d) in *. clearbody d1. apply (OInv_others d); try done; cbn.
  - by rewrite E6.
  - eapply pool_ok_weaken; [|exact Hp]. intros x [Hx Hfd].
    eapply (hands_scope d1 _ sid s); [exact Hx|by rewrite E7|done|done|by left|].
    intros [H|H]; [by left; left|]. rewrite Ha in H. cbn in H.
    apply elem_of_cons in H as [->|H]; [right; left; left; by apply Hfd|by left; right].
  - by rewrite E10.
  - intros sid0 s0 H0. cbn. rewrite E7. destruct (decide (sid0 = sid)) as [->|Hne].
    + eexists. rewrite lookup_insert_eq. split; [done|]. simplify_eq. split; [done|]. intros [_ [H|H]]; congruence.
    + exists s0. by rewrite lookup_insert_ne.
  - rewrite E7. apply (scopes_set d sid s); [done..|]. constructor; cbn; [done|].
    intros H. destruct (Hdone H); congruence.
  - intros Hf. destruct (finished_settled d sid s Hi Hf Hs) as [_ [H|H]]; congruence.
Qed.

Lemma OInv_after d sid answer : OInv d -> OInv (afterStep sid answer d).
Proof.
  intros Hi. unfold afterStep. destruct (od_scopes d !! sid) as [s|] eqn:Hs; [|done].
  destruct (oi_scopes _ Hi _ _ Hs) as [_ Hok]. pose proof Hok as [Hover Hdone].
  assert (forall s', scope_ok s' -> scope_grows s s' -> (forall x, scope_hands s x -> scope_hands s' x) ->
    OInv (set_streamScope sid s' d)) as Hset.
  { intros s' Hok' Hg Hh. apply (OInv_others d); try done; cbn.
    - eapply pool_ok_weaken; [|exact (oi_pool _ Hi)]. intros x Hx.
      eapply (hands_scope d _ sid s s'); [exact Hx|done..|by left|auto].
    - by apply (scopes_grow_set d sid s).
    - by apply (scopes_set d sid s).
    - intros _ x Hx. left. by split. }
  destruct (ss_after s) as [| |[|fd rest]| |] eqn:Ha; [done| | | |done..].
  - destruct (abort s) as [s' pending] eqn:E. destruct (abort_ok s s' pending Hok E) as ([Ho' Hd'] & Hg & Ho & Haft & Hh).
    apply Hset.
    + constructor; cbn; [done|]. intros H. destruct (Hd' H); congruence.
    + destruct Hg as [Hg1 Hg2]. split; [done|]. intros H. destruct (Hg2 H) as [_ [?|?]]; congruence.
    + intros x Hx. destruct (Hh x Hx) as [[H|H]|H]; [by left| |by right]. rewrite Haft, Ha in H. by apply (no_fds x).
  - apply Hset.
    + constructor; cbn; [done|auto].
    + split; [done|]. intros [H _]. split; cbn; auto.
    + intros x [H|H]; [by left|]. rewrite Ha in H. by apply (no_fds x).
  - by apply OInv_scopeCloses.
Qed.

(** ** Close *)

Lemma OInv_set_deviceClose d id c :
  OInv d -> deviceClose_ok c d -> (forall fd, fd ∈ deviceClose_fds c -> fd < od_next d) ->
  OInv (set_deviceClose id c d).
Proof.
  intros Hi Hc Hfd. destruct Hi. constructor; try done; cbn.
  - intros w pc Hw. destruct (oi_workers0 w pc Hw) as [? [? ?]]. split; [done|by constructor].
  - intros id0 c0 fd [[<- <-]|[_ H]]%lookup_insert_Some Hin; [by apply Hfd|by eapply oi_closes0].
  - intros id0 c0 [[<- <-]|[_ H]]%lookup_insert_Some; [exact Hc|exact (oi_achieved0 _ _ H)].
Qed.

Lemma OInv_flags d closing listener :
  OInv d -> (od_listener d = false -> listener = false) ->
  OInv (d <| od_closing := closing |> <| od_listener := listener |>).
Proof.
  intros Hi Hl. destruct Hi. constructor; try done; cbn.
  - intros w pc Hw. destruct (oi_workers0 w pc Hw) as [? [? ?]]. split; [done|by constructor].
  - intros id c Hc. specialize (oi_achieved0 id c Hc).
    destruct c as [| | |rest failed|[e|]]; cbn in *; try done; auto; destruct oi_achieved0 as (? & ? & ?); auto.
Qed.

(** One close of the list; [None] so far means every closed one is not open. *)
Lemma OInv_closes_one d fd answer d' err :
  OInv d -> fd < od_next d -> closeConn fd answer d = (d', err) ->
  OInv d' /\ od_next d' = od_next d /\ od_listener d' = od_listener d /\ od_workers d' = od_workers d /\
  (forall x, residual d x -> residual d' x) /\ po_open (od_pool d') ⊆ po_open (od_pool d) /\
  (err = None -> fd ∉ po_open (od_pool d')).
Proof.
  intros Hi Hlt E. pose proof (OInv_connCloses d fd answer Hi Hlt) as H. rewrite E in H. cbn in H.
  unfold closeConn in E. destruct (closeOwned fd answer (od_pool d)) as [p err0] eqn:Ec. simplify_eq. cbn.
  destruct (closeOwned_shrinks _ _ _ _ _ Ec) as [Ho _].
  destruct (pool_ok_closeOwned _ _ _ _ _ _ _ (oi_pool _ Hi) Hlt Ec) as [_ Hn]. by split_and!.
Qed.

Lemma OInv_deviceClose id answer c d :
  OInv d -> od_closes d !! id = Some c -> OInv (deviceCloseStep id answer c d).
Proof.
  intros Hi Hc. pose proof (oi_achieved _ Hi id c Hc) as Hok. pose proof (oi_closes _ Hi id c) as Hfds.
  destruct c as [snapshot|[|fd rest] failed| |[|fd rest] failed|res]; cbn [deviceCloseStep].
  - set (d1 := if closeFailed answer then d else d <| od_listener := false |>).
    assert (OInv d1) as Hi1.
    { subst d1. destruct (closeFailed answer); [done|]. by apply (OInv_flags d (od_closing d) false). }
    apply OInv_set_deviceClose; [done| |].
    + cbn. subst d1. destruct (closeFailed answer) eqn:E; [|done]. by destruct answer.
    + intros fd Hfd. specialize (Hfds fd Hc Hfd). subst d1. by destruct (closeFailed answer).
  - destruct failed as [err|].
    + apply OInv_set_deviceClose; [done..|]. intros fd. apply no_fds.
    + apply OInv_set_deviceClose; [done|by apply Hok|]. intros fd. apply no_fds.
  - destruct (closeConn fd answer d) as [d' err] eqn:E.
    destruct (OInv_closes_one d fd answer d' err Hi (Hfds fd Hc (list_elem_of_here _ _)) E) as (Hi' & Hn & Hl & _).
    apply OInv_set_deviceClose; [done| |].
    + cbn. rewrite Hl. intros [-> _]%join_pair_None. by apply Hok.
    + intros x Hx. rewrite Hn. apply (Hfds x Hc). cbn. by right.
  - unfold workersDrained. case_bool_decide as Hf; [|done]. apply OInv_set_deviceClose; [done| |].
    + cbn. split_and!; [done..|]. intros _ x Hx. rewrite elem_of_elements.
      destruct (pk_open _ _ _ (oi_pool _ Hi) x Hx) as [?|?]; [by left|right; by apply finished_hands].
    + cbn. intros x Hx%elem_of_elements. by apply (oi_listed _ Hi).
  - destruct Hok as (Hl & Hf & Ho). apply OInv_set_deviceClose; [done| |].
    + destruct failed as [e|]; [done|]. cbn. split_and!; [done..|]. intros x Hx.
      destruct (Ho eq_refl x Hx) as [H|?]; [by apply (no_fds x)|done].
    + intros x. destruct failed; apply no_fds.
  - destruct Hok as (Hl0 & Hf & Ho). destruct (closeConn fd answer d) as [d' err] eqn:E.
    destruct (OInv_closes_one d fd answer d' err Hi (Hfds fd Hc (list_elem_of_here _ _)) E)
      as (Hi' & Hn & Hl & Hws & Hres & Hopen & Hgone).
    apply OInv_set_deviceClose; [done| |].
    + cbn. unfold finished. rewrite Hl, Hws. split_and!; [done..|]. intros [-> ->]%join_pair_None x Hx.
      destruct (Ho eq_refl x (Hopen x Hx)) as [H|?]; [|right; auto].
      apply elem_of_cons in H as [->|?]; [by destruct (Hgone eq_refl)|by left].
    + intros x Hx. rewrite Hn. apply (Hfds x Hc). cbn. by right.
  - done.
Qed.

Lemma OInv_deviceCloseBegins id d : OInv d -> OInv (deviceCloseBegins id d).
Proof.
  intros Hi. apply OInv_set_deviceClose; [by apply (OInv_flags d true (od_listener d))|done|].
  cbn. intros fd Hfd%elem_of_elements. by apply (oi_listed _ Hi).
Qed.

Lemma OInv_step op d : OInv d -> OInv (outline_step op d).
Proof.
  intros Hi. destruct op as [w answer|t sid answer|sid answer|sid|fd answer|id answer]; cbn.
  - destruct (od_workers d !! w) as [pc|] eqn:Hw; [|done]. by apply OInv_serve.
  - destruct (od_tasks d !! t) as [[sid0 fd|[|fd rest]]|] eqn:Ht.
    + by apply OInv_registers.
    + by apply OInv_taskEnds.
    + by apply OInv_taskCloses.
    + by apply OInv_taskBegins.
  - by apply OInv_after.
  - destruct (od_scopes d !! sid) as [s|] eqn:Hs; [|done]. by apply OInv_cancel.
  - case_bool_decide as Hfd; [|done]. apply OInv_connCloses; [done|].
    apply elem_of_union in Hfd as [H|H]; [by apply (oi_listed _ Hi)|by apply (pk_fresh _ _ _ (oi_pool _ Hi))].
  - destruct (od_closes d !! id) as [c|] eqn:Hc; [by apply OInv_deviceClose|].
    destruct (closeLocked d); [by apply OInv_deviceCloseBegins|done].
Qed.

Lemma OInv_new : OInv NewOutlineDevice.
Proof.
  constructor; cbn; try done.
  intros w pc [<- <-]%lookup_singleton_Some. split; [lia|]. constructor; [intros fd; apply no_fds|done].
Qed.

Lemma OInv_run ops d : OInv d -> OInv (outline_run ops d).
Proof. revert d. induction ops as [|op ops IH]; intros d Hi; [done|]. cbn. by apply IH, OInv_step. Qed.

(** *** The answer of a Close *)

Lemma serve_keeps_closes w pc answer d : od_closes (serveStep w pc answer d) = od_closes d.
Proof.
  unfold serveStep, dialReturned, handOffConn, discardScope, scopeStopped, closeUnowned, newConn.
  repeat case_match; by simplify_eq/=.
Qed.

Lemma task_keeps_closes t task answer d : od_closes (taskStep t task answer d) = od_closes d.
Proof. unfold taskStep, closeUnowned. repeat case_match; by simplify_eq/=. Qed.

Lemma others_keep_closes t sid answer d :
  od_closes (taskBegins t sid d) = od_closes d /\ od_closes (afterStep sid answer d) = od_closes d /\
  forall fd, od_closes (closeConn fd answer d).1 = od_closes d.
Proof.
  unfold taskBegins, afterStep, closeUnowned, newConn, closeConn.
  split_and!; [by repeat case_match; simplify_eq/=..|]. intros fd. by destruct (closeOwned _ _ _).
Qed.

Lemma answer_kept op id res d :
  od_closes d !! id = Some (DeviceClosed res) -> od_closes (outline_step op d) !! id = Some (DeviceClosed res).
Proof.
  intros Hc. destruct op as [w answer|t sid answer|sid answer|sid|fd answer|id0 answer]; cbn.
  - destruct (od_workers d !! w); [by rewrite serve_keeps_closes|done].
  - destruct (od_tasks d !! t); [by rewrite task_keeps_closes|by destruct (others_keep_closes t sid answer d) as (-> & _)].
  - by destruct (others_keep_closes 0 sid answer d) as (_ & -> & _).
  - by destruct (od_scopes d !! sid).
  - case_bool_decide; [|done]. by destruct (others_keep_closes 0 0 answer d) as (_ & _ & ->).
  - destruct (od_closes d !! id0) as [c|] eqn:H0.
    + destruct (decide (id0 = id)) as [->|Hne]; [by simplify_eq|].
      destruct (others_keep_closes 0 0 answer d) as (_ & _ & Hk).
      assert (forall d' c', od_closes d' = od_closes d ->
        od_closes (set_deviceClose id0 c' d') !! id = Some (DeviceClosed res)) as Hs.
      { intros d' c' E. cbn. by rewrite lookup_insert_ne, E. }
      destruct c as [snapshot|[|fd rest] [e|]| |[|fd rest] failed|res0]; cbn [deviceCloseStep]; try by apply Hs.
      * apply Hs. by destruct (closeFailed answer).
      * specialize (Hk fd). destruct (closeConn fd answer d) as [d' err]. by apply Hs.
      * specialize (Hk fd). destruct (closeConn fd answer d) as [d' err]. by apply Hs.
      * destruct (workersDrained d); [by apply Hs|done].
      * specialize (Hk fd). destruct (closeConn fd answer d) as [d' err]. by apply Hs.
      * done.
    + destruct (closeLocked d); [|done]. cbn. rewrite lookup_insert_ne; [done|congruence].
Qed.

Lemma answer_kept_run ops id res d :
  od_closes d !! id = Some (DeviceClosed res) -> od_closes (outline_run ops d) !! id = Some (DeviceClosed res).
Proof. revert d. induction ops as [|op ops IH]; intros d H; [done|]. cbn. by apply IH, answer_kept. Qed.

(** Once a Close of the device returned nil, then and ever after, whatever
    the server's workers, the dials, the transport library, the cancellations
    and other Closes did before and do later: the listener is closed, every
    worker has finished, and a socket that is open is one whose only close
    failed, one a successful handoff left to the transport, or one a goroutine
    of the transport library still holds: the device owns no open socket. *)
Theorem outline_close_leaves_nothing_open (ops ops' : list outlineOp) (id : nat) :
  od_closes (outline_run ops NewOutlineDevice) !! id = Some (DeviceClosed None) ->
  let d := outline_run (ops ++ ops') NewOutlineDevice in
  od_listener d = false /\
  (forall w pc, od_workers d !! w = Some pc -> pc = Finished) /\
  (forall fd, fd ∈ po_open (od_pool d) ->
     (fd ∈ od_leaked d) \/ (fd ∈ od_left d) \/
     exists t task, od_tasks d !! t = Some task /\ fd ∈ task_list task).
Proof.
  intros Hc d. pose proof (answer_kept_run ops' id None _ Hc) as Hc'.
  unfold outline_run in Hc'. rewrite <- fold_left_app in Hc'. fold (outline_run (ops ++ ops')) in Hc'.
  exact (oi_achieved _ (OInv_run (ops ++ ops') _ OInv_new) _ _ Hc').
Qed.

(** A client is accepted and dials; the dial registers a stream and returns it,
    a late stream of the dial is refused; Close drains the workers and closes
    the dialed connection, which was tracked after Close took its snapshot. *)
Definition outline_scenario : list outlineOp :=
  [OpServe 0 AcceptsConn; OpServe 0 Returned; OpServe 0 SubmitsWork; OpServe 1 (BeginsDial false);
   OpTask 0 0 None; OpTask 0 0 None; OpDeviceClose 7 None; OpServe 1 (DialReturns (DialedStream 1));
   OpTask 1 0 None; OpServe 1 Returned; OpDeviceClose 7 None; OpDeviceClose 7 None; OpDeviceClose 7 None;
   OpDeviceClose 7 None; OpServe 1 Returned; OpServe 1 Returned; OpServe 1 Returned; OpServe 1 Returned;
   OpServe 1 Returned; OpServe 1 Returned; OpServe 0 Returned; OpTask 1 0 None; OpTask 1 0 None; OpTask 1 0 None;
   OpDeviceClose 7 None; OpDeviceClose 7 None; OpDeviceClose 7 None].

Lemma outline_close_leaves_nothing_open_witness :
  let d := outline_run (outline_scenario ++ [OpTask 2 0 None]) NewOutlineDevice in
  po_closed (od_pool d) = {[0; 1]} /\ od_tasks d = {[2 := Registering 0 3]} /\
  (forall fd, fd ∈ po_open (od_pool d) ->
     (fd ∈ od_leaked d) \/ (fd ∈ od_left d) \/
     exists t task, od_tasks d !! t = Some task /\ fd ∈ task_list task).
Proof.
  split_and!; [by vm_compute..|].
  destruct (outline_close_leaves_nothing_open outline_scenario [OpTask 2 0 None] 7 ltac:(by vm_compute)) as (_ & _ & H).
  exact H.
Defined.
