(* ===== verification/TrustTunnel.v ===== *)
(** * The TrustTunnel device (core/trusttunnel/trusttunnel_device.go,
    native_readiness.go, internal/config.go)

    The configuration handed to the native engine, the readiness its callbacks
    report, and the devices of the process: the native bridge is global, so a
    device opens only while it holds the one token and gives it back when its
    engine was stopped and its endpoint forwarders are closed.  Forwarders are
    those of [Forwarder]; opens, closes and forwarder workers in any order. *)

From S2P Require Import Prelude Errors Values GoStrings Bypass Dns Dialing Forwarder.
From Stdlib Require Import Ascii.
Local Open Scope string_scope.
Local Open Scope list_scope.

(** ** The endpoint's addresses *)

Definition has_suffix_byte (c : Ascii.ascii) (s : string) : bool :=
  match last_index_byte c s with Some i => Nat.eqb (S i) (String.length s) | None => false end.

(** [strings.Trim(s, cutset)] where the cutset is the two brackets. *)
Fixpoint trim_left_brackets (s : string) : string :=
  match s with
  | String c s' => if Ascii.eqb c "["%char || Ascii.eqb c "]"%char then trim_left_brackets s' else s
  | EmptyString => s
  end.

Fixpoint trim_right_brackets (s : string) : string :=
  match s with
  | String c s' =>
      match trim_right_brackets s' with
      | EmptyString => if Ascii.eqb c "["%char || Ascii.eqb c "]"%char then EmptyString else String c EmptyString
      | t => String c t
      end
  | EmptyString => s
  end.

Definition trim_brackets (s : string) : string := trim_right_brackets (trim_left_brackets s).

Record endpointAddress := mkEndpointAddress {
  ea_host : string;
  ea_port : string;
  ea_hasPort : bool;
  ea_literal : option IPAddr
}.

Section addresses.
(** [netip.ParseAddr], the printing of an address, and the cache's lookups (the
    index tells the calls apart; the deadline is part of the answer). *)
Context (ParseAddr : string -> option IPAddr) (IPString : IPAddr -> string).
Context (lookupIPAddr : nat -> string -> result (list IPAddr) gerr).

Definition splitEndpointAddress (address : string) : result endpointAddress gerr :=
  match SplitHostPort address with
  | Ok (host, port) => Ok (mkEndpointAddress host port true (ParseAddr host))
  | Err splitErr =>
      match ParseAddr address with
      | Some literal => Ok (mkEndpointAddress address "" false (Some literal))
      | None =>
          let host := take_bytes (String.length address - 2) (drop_bytes 1 address) in
          match (if has_prefix "[" address && has_suffix_byte "]"%char address then ParseAddr host else None) with
          | Some literal => Ok (mkEndpointAddress host "" false (Some literal))
          | None =>
              if has_byte ":"%char address then Err (EWrap "expected a valid host:port address" splitErr)
              else Ok (mkEndpointAddress address "" false None)
          end
      end
  end.

Definition resolvedEndpointAddress (result : IPAddr) : option (string * IP) :=
  let '(ip, zone) := result in
  match To4 ip with
  | Some ip4 => Some (IPString (ip4, ""), ip4)
  | None => if Nat.eqb (length ip) 16 then Some (IPString (ip, zone), ip) else None
  end.

(** The addresses in the resolver's order, and the first one's bytes. *)
Fixpoint prepareResolvedEndpointAddresses (resolved : list IPAddr) (port : string) (hasPort : bool) :
    option (list any * option IP) :=
  match resolved with
  | [] => Some ([], None)
  | result :: resolved =>
      match resolvedEndpointAddress result, prepareResolvedEndpointAddresses resolved port hasPort with
      | Some (address, ip), Some (prepared, _) =>
          Some (AString (if hasPort then JoinHostPort address port else address) :: prepared, Some ip)
      | _, _ => None
      end
  end.

Definition endpointText (index : nat) (address : string) : string :=
  "endpoint address[" +:+ Itoa (Z.of_nat index) +:+ "] " +:+ quoted address.

Definition prepareEndpointAddress (index : nat) (address : string) : result (list any * option IP) gerr :=
  match splitEndpointAddress address with
  | Err err => Err (EWrap ("invalid " +:+ endpointText index address) err)
  | Ok a =>
      match ea_literal a with
      | Some (ip, _) => Ok ([AString address], Some ip)
      | None =>
          let text := endpointText index address +:+ " (host " +:+ quoted (ea_host a) +:+ ")" in
          match lookupIPAddr index (ea_host a) with
          | Err err => Err (EWrap ("failed to resolve " +:+ text) err)
          | Ok [] => Err (EText (text +:+ " resolved to no addresses"))
          | Ok resolved =>
              match prepareResolvedEndpointAddresses resolved (ea_port a) (ea_hasPort a) with
              | Some prepared => Ok prepared
              | None => Err (EText (text +:+ " resolved to an invalid IP address"))
              end
          end
      end
  end.

(** The primary address is that of the first entry. *)
Fixpoint prepareAddresses (index : nat) (addresses : list any) : result (list any * option IP) gerr :=
  match addresses with
  | [] => Ok ([], None)
  | AString address :: addresses =>
      match prepareEndpointAddress index address with
      | Err err => Err err
      | Ok (resolved, ip) =>
          match prepareAddresses (S index) addresses with
          | Err err => Err err
          | Ok (prepared, _) => Ok (resolved ++ prepared, ip)
          end
      end
  | _ :: _ => Err (EText ("endpoint address[" +:+ Itoa (Z.of_nat index) +:+ "] is not a string"))
  end.

Definition PrepareEndpointAddresses (endpoint : fields) : result (list any * option IP) gerr :=
  match field "addresses" endpoint with
  | ASlice (a :: addresses) => prepareAddresses 0 (a :: addresses)
  | _ => Err (EText "no addresses found in endpoint configuration")
  end.

Fixpoint numericIPs (index : nat) (addresses : list any) : result (list IP) gerr :=
  match addresses with
  | [] => Ok []
  | AString address :: addresses =>
      let host := match SplitHostPort address with Ok (host, _) => host | Err _ => trim_brackets address end in
      match ParseAddr host with
      | None => Err (EText (endpointText index address +:+ " is not numeric"))
      | Some (ip, _) =>
          match numericIPs (S index) addresses with Ok ips => Ok (ip :: ips) | Err err => Err err end
      end
  | _ :: _ => Err (EText ("endpoint address[" +:+ Itoa (Z.of_nat index) +:+ "] is not a string"))
  end.

Definition numericEndpointIPs (addresses : list any) : result (list IP) gerr :=
  match numericIPs 0 addresses with
  | Ok [] => Err (EText "no numeric endpoint addresses")
  | res => res
  end.

(** ** The native configuration *)

Definition VPNDNSServers : list string := ["9.9.9.9"; "1.1.1.1"; "2620:fe::fe"; "2606:4700:4700::1111"].

(** A nested section that is created when it is missing. *)
Definition section (key : string) (config : fields) : option fields :=
  match lookup_field key config with
  | None => Some []
  | Some (AMap m) => Some m
  | Some _ => None
  end.

(** [NewTrustTunnelDevice] up to the device: the rewritten configuration, the
    numeric upstreams and the SOCKS address.  [listen] is the free port. *)
Definition newDeviceConfig (accepted : fields) (listen : result Z gerr) (socksUser socksPass : string) :
    result (fields * list IP * string) gerr :=
  let parsedConfig := CloneFields accepted in
  match field "endpoint" parsedConfig with
  | AMap endpoint =>
      match PrepareEndpointAddresses endpoint with
      | Err err => Err (EWrap "failed to prepare TrustTunnel endpoint addresses" err)
      | Ok (addresses, _) =>
          match numericEndpointIPs addresses with
          | Err err => Err (EWrap "failed to retain numeric TrustTunnel endpoint addresses" err)
          | Ok upstreamIPs =>
              let endpoint := set_field "addresses" (ASlice addresses) endpoint in
              let parsedConfig := set_field "killswitch_enabled" (ABool true) parsedConfig in
              let parsedConfig := set_field "killswitch_allow_ports" (ASlice []) parsedConfig in
              let dnsUpstreams := map (fun server => AString (JoinHostPort server "53")) VPNDNSServers in
              let endpoint := set_field "dns_upstreams" (ASlice dnsUpstreams) endpoint in
              let parsedConfig := delete_field "dns_upstreams" parsedConfig in
              let parsedConfig := set_field "endpoint" (AMap endpoint) parsedConfig in
              match listen with
              | Err err => Err (EWrap "failed to allocate local port" err)
              | Ok port =>
                  match section "listener" parsedConfig with
                  | None => Err (EText "invalid listener section in config")
                  | Some listener =>
                      match section "socks" listener with
                      | None => Err (EText "invalid listener.socks section in config")
                      | Some socks =>
                          let socksAddress := "127.0.0.1:" +:+ Itoa port in
                          let socks := set_field "address" (AString socksAddress) socks in
                          let socks := set_field "username" (AString socksUser) socks in
                          let socks := set_field "password" (AString socksPass) socks in
                          let listener := set_field "socks" (AMap socks) listener in
                          Ok (set_field "listener" (AMap listener) parsedConfig, upstreamIPs, socksAddress)
                      end
                  end
              end
          end
      end
  | _ => Err (EText "invalid endpoint configuration")
  end.
End addresses.

Definition endpointOf (config : fields) : fields :=
  match field "endpoint" config with AMap endpoint => endpoint | _ => [] end.

Definition stringOf (v : any) : string := match v with AString s => s | _ => "" end.

(** The destinations of the device's forwarders, in order. *)
Definition destinations (config : fields) : list string :=
  match field "addresses" (endpointOf config) with ASlice l => map stringOf l | _ => [] end.

(** What [Open] writes into the configuration once its forwarders listen, and
    whether the engine is given it. *)
Definition openConfig (routingTableID : Z) (uplinkIface : string) (localAddresses : list string)
    (config : fields) : fields * bool :=
  let endpoint := set_field "addresses" (ASlice (map AString localAddresses)) (endpointOf config) in
  let config := set_field "endpoint" (AMap endpoint) config in
  match section "routing" config with
  | None => (config, false)
  | Some routing =>
      let routing := set_field "routing_table_id" (AInt routingTableID) routing in
      let routing :=
        if String.eqb uplinkIface "" then routing
        else set_field "uplink_interface" (AString uplinkIface) routing in
      (set_field "routing" (AMap routing) config, true)
  end.

(** ** Readiness *)

Inductive vpnState := Disconnected | Connecting | Connected | Reconnecting | StateError | UnknownState (z : Z).

#[export] Instance vpnState_eq_dec : EqDecision vpnState.
Proof. solve_decision. Defined.

Definition nativeStateName (state : vpnState) : string :=
  match state with
  | Disconnected => "disconnected"
  | Connecting => "connecting"
  | Connected => "connected"
  | Reconnecting => "reconnecting"
  | StateError => "error"
  | UnknownState z => "unknown(" +:+ Itoa z +:+ ")"
  end.

(** [nr_changed] names the current channel; [nr_closedChans] are closed. *)
Record nativeReadiness := mkReadiness {
  nr_changed : nat;
  nr_closedChans : gset nat;
  nr_observed : option vpnState;
  nr_closed : bool
}.
#[export] Instance eta_nativeReadiness : Settable nativeReadiness := fun x =>
  mkReadiness (nr_changed x) (nr_closedChans x) (nr_observed x) (nr_closed x).

Definition newNativeReadiness : nativeReadiness := mkReadiness 0 ∅ None false.

(** [close(r.changed)], which panics on a closed channel. *)
Definition closeChanged (r : nativeReadiness) : option nativeReadiness :=
  if bool_decide (nr_changed r ∈ nr_closedChans r) then None
  else Some (r <| nr_closedChans ::= union {[nr_changed r]} |>).

Definition update (state : vpnState) (r : nativeReadiness) : option (nativeReadiness * bool) :=
  if nr_closed r || bool_decide (nr_observed r = Some state) then Some (r, false)
  else
    match closeChanged (r <| nr_observed := Some state |>) with
    | Some r => Some (r <| nr_changed ::= S |>, true)
    | None => None
    end.

Definition closeReadiness (r : nativeReadiness) : option nativeReadiness :=
  if nr_closed r then Some r else closeChanged (r <| nr_closed := true |>).

Definition errNativeStopped : gerr := EText "TrustTunnel native transport stopped".

(** A [wait]: about to look, parked on a channel, returned. *)
Inductive waiting := WaitLooks | WaitParked (changed : nat) | WaitDone (res : option gerr).

Definition waitLooks (r : nativeReadiness) : waiting :=
  if nr_closed r then WaitDone (Some errNativeStopped)
  else
    match nr_observed r with
    | Some Connected => WaitDone None
    | Some StateError => WaitDone (Some (EText "TrustTunnel native transport reported an error"))
    | _ => WaitParked (nr_changed r)
    end.

(** [ctxErr] is the context's error when the wait looks at it; a parked wait
    whose channel and context are both ready picks either. *)
Definition waitStep (ctxErr : option gerr) (pc : waiting) (r : nativeReadiness) : waiting :=
  match pc, ctxErr with
  | WaitDone _, _ => pc
  | _, Some err => WaitDone (Some err)
  | WaitLooks, None => waitLooks r
  | WaitParked changed, None => if bool_decide (changed ∈ nr_closedChans r) then WaitLooks else pc
  end.

Inductive readinessOp :=
| StateChanges (state : vpnState)
| ReadinessCloses
| WaitStep (id : nat) (ctxErr : option gerr).

Definition readiness_step (op : readinessOp) (s : nativeReadiness * gmap nat waiting) :
    option (nativeReadiness * gmap nat waiting) :=
  let '(r, waits) := s in
  match op with
  | StateChanges state => match update state r with Some (r, _) => Some (r, waits) | None => None end
  | ReadinessCloses => match closeReadiness r with Some r => Some (r, waits) | None => None end
  | WaitStep id ctxErr =>
      Some (r, <[id := match waits !! id with Some pc => waitStep ctxErr pc r | None => WaitLooks end]> waits)
  end.

Fixpoint readiness_run (ops : list readinessOp) (s : nativeReadiness * gmap nat waiting) :
    option (nativeReadiness * gmap nat waiting) :=
  match ops with
  | [] => Some s
  | op :: ops => match readiness_step op s with Some s => readiness_run ops s | None => None end
  end.

(** ** The devices of the process *)

Record ttDevice := mkDevice {
  dv_config : fields;
  dv_forwarders : list forwarder;
  dv_ctxErr : option gerr;
  dv_lock : option nat;
  dv_nativeOwned : bool;
  dv_closed : bool
}.
#[export] Instance eta_ttDevice : Settable ttDevice := fun x =>
  mkDevice (dv_config x) (dv_forwarders x) (dv_ctxErr x) (dv_lock x) (dv_nativeOwned x) (dv_closed x).

Definition newDevice (config : fields) : ttDevice := mkDevice config [] None None false false.

(** Where a call of [Open] or [Close] is; from the lock on it holds
    [lifecycleMu]. *)
Inductive ttPlace :=
| OpenLocks
| OpenSelects
| OpenChecks
| OpenForwards (rest locals : list string)
| OpenStarts (locals : list string)
| OpenReturned (res : option gerr)
| CloseCancels
| CloseLocks
| CloseStops
| CloseForwarders (i : nat) (failed : option gerr)
| CloseReturned (res : option gerr).

Record ttCall := mkCall {
  tc_device : nat;
  tc_routingTableID : Z;
  tc_uplinkIface : string;
  tc_place : ttPlace
}.
#[export] Instance eta_ttCall : Settable ttCall := fun x =>
  mkCall (tc_device x) (tc_routingTableID x) (tc_uplinkIface x) (tc_place x).

(** The calls of the native engine. *)
Inductive nativeEvent := NativeStart (id : nat) (config : fields) | NativeStop (id : nat).

(** [tt_owner] is whether the token is taken; the trace is newest first. *)
Record ttWorld := mkWorld {
  tt_owner : bool;
  tt_devices : gmap nat ttDevice;
  tt_calls : gmap nat ttCall;
  tt_trace : list nativeEvent
}.
#[export] Instance eta_ttWorld : Settable ttWorld := fun x =>
  mkWorld (tt_owner x) (tt_devices x) (tt_calls x) (tt_trace x).

Definition noDevices : ttWorld := mkWorld false ∅ ∅ [].

(** What a call of [Open] or [Close] meets: the ready case the select picks, a
    pair of listeners, the encoder and the engine, a close of a socket. *)
Inductive ttAnswer :=
| Goes
| Selects (token : bool)
| PairListens (attempts : nat -> pairAttempt)
| NativeAnswers (encodeErr startErr : option gerr)
| SocketCloses (answer : option gerr).

Definition opened (res : option gerr) (d : ttDevice) : ttDevice * ttPlace := (d <| dv_lock := None |>, OpenReturned res).

Definition closed (res : option gerr) (d : ttDevice) : ttDevice * ttPlace := (d <| dv_lock := None |>, CloseReturned res).

Section devices.
Context (retryEndpointPairBind : gerr -> bool).

(** [Open] of device [id] by the call [call]: the device, the token, the events
    and the next place. *)
Definition openStep (call id : nat) (c : ttCall) (answer : ttAnswer) (d : ttDevice) (owner : bool) :
    ttDevice * ttPlace * bool * list nativeEvent :=
  let stays := (d, tc_place c, owner, []) in
  match tc_place c, answer with
  | OpenLocks, _ =>
      match dv_lock d with
      | Some _ => stays
      | None =>
          if dv_closed d then (opened (Some errNativeStopped) d, owner, [])
          else if dv_nativeOwned d
          then (opened (Some (EText "TrustTunnel native transport already opened")) d, owner, [])
          else (d <| dv_lock := Some call |>, OpenSelects, owner, [])
      end
  | OpenSelects, Selects true =>
      if owner then stays else (d <| dv_nativeOwned := true |>, OpenChecks, true, [])
  | OpenSelects, Selects false =>
      match dv_ctxErr d with Some err => (opened (Some err) d, owner, []) | None => stays end
  | OpenChecks, _ =>
      match dv_ctxErr d with
      | Some err => (opened (Some err) d, owner, [])
      | None => (d, OpenForwards (destinations (dv_config d)) [], owner, [])
      end
  | OpenForwards [] locals, _ => (d, OpenStarts locals, owner, [])
  | OpenForwards (destination :: rest) locals, PairListens attempts =>
      match (listenEndpointPair retryEndpointPairBind attempts).2 with
      | Ok local =>
          (d <| dv_forwarders ::= fun l => l ++ [newEndpointForwarder destination local] |>,
           OpenForwards rest (locals ++ [local]), owner, [])
      | Err err =>
          (opened (option_map (EWrap ("prepare protected native endpoint " +:+ destination)) err) d, owner, [])
      end
  | OpenStarts locals, NativeAnswers encodeErr startErr =>
      let '(config, ok) := openConfig (tc_routingTableID c) (tc_uplinkIface c) locals (dv_config d) in
      let d := d <| dv_config := config |> in
      if ok then
        match encodeErr with
        | Some err => (opened (Some (EWrap "failed to re-encode config with routing" err)) d, owner, [])
        | None =>
            (opened (option_map (EWrap "failed to start trusttunnel") startErr) d, owner, [NativeStart id config])
        end
      else (opened (Some (EText "invalid routing section in config")) d, owner, [])
  | _, _ => stays
  end.

Definition cancelDevice (err : gerr) (d : ttDevice) : ttDevice :=
  match dv_ctxErr d with Some _ => d | None => d <| dv_ctxErr := Some err |> end.

(** [Close]; the call's number names its close of each forwarder. *)
Definition ttCloseStep (call id : nat) (c : ttCall) (answer : ttAnswer) (d : ttDevice) (owner : bool) :
    ttDevice * ttPlace * bool * list nativeEvent :=
  let stays := (d, tc_place c, owner, []) in
  match tc_place c with
  | CloseCancels => (cancelDevice (ESent CtxCanceled) d, CloseLocks, owner, [])
  | CloseLocks =>
      match dv_lock d with
      | Some _ => stays
      | None =>
          if dv_closed d then (closed None d, owner, [])
          else (d <| dv_lock := Some call |>, CloseStops, owner, [])
      end
  | CloseStops => (d, CloseForwarders 0 None, owner, if dv_nativeOwned d then [NativeStop id] else [])
  | CloseForwarders i failed =>
      match dv_forwarders d !! i with
      | Some f =>
          match fw_closes f !! call, answer with
          | Some (ForwarderClosed res), _ => (d, CloseForwarders (S i) (join [failed; res]), owner, [])
          | _, SocketCloses answer =>
              (d <| dv_forwarders ::= <[i := forwarder_step (CloseStep call answer) f]> |>,
               CloseForwarders i failed, owner, [])
          | _, _ => stays
          end
      | None =>
          match failed with
          | Some err => (closed (Some err) d, owner, [])
          | None =>
              let d' := d <| dv_closed := true |> in
              if dv_nativeOwned d then
                if owner then (closed None (d' <| dv_nativeOwned := false |>), false, []) else stays
              else (closed None d', owner, [])
          end
      end
  | _ => stays
  end.

Definition isOpen (p : ttPlace) : bool :=
  match p with
  | OpenLocks | OpenSelects | OpenChecks | OpenForwards _ _ | OpenStarts _ | OpenReturned _ => true
  | _ => false
  end.

Inductive ttOp :=
| TTNew (id : nat) (config : fields)
| TTCancels (id : nat) (err : gerr)
| TTOpens (call id : nat) (routingTableID : Z) (uplinkIface : string)
| TTCloses (call id : nat)
| TTStep (call : nat) (answer : ttAnswer)
| TTRelays (id i w : nat) (answer : workerAnswer).

Definition tt_call (call : nat) (c : ttCall) (answer : ttAnswer) (w : ttWorld) : ttWorld :=
  match tt_devices w !! tc_device c with
  | Some d =>
      let '(d, place, owner, events) :=
        (if isOpen (tc_place c) then openStep else ttCloseStep) call (tc_device c) c answer d (tt_owner w) in
      w <| tt_devices ::= <[tc_device c := d]> |> <| tt_calls ::= <[call := c <| tc_place := place |>]> |>
        <| tt_owner := owner |> <| tt_trace ::= app events |>
  | None => w
  end.

Definition tt_step (op : ttOp) (w : ttWorld) : ttWorld :=
  match op with
  | TTNew id config =>
      match tt_devices w !! id with Some _ => w | None => w <| tt_devices ::= <[id := newDevice config]> |> end
  | TTCancels id err =>
      match tt_devices w !! id with Some d => w <| tt_devices ::= <[id := cancelDevice err d]> |> | None => w end
  | TTOpens call id routingTableID uplinkIface =>
      match tt_calls w !! call with
      | Some _ => w
      | None => w <| tt_calls ::= <[call := mkCall id routingTableID uplinkIface OpenLocks]> |>
      end
  | TTCloses call id =>
      match tt_calls w !! call with
      | Some _ => w
      | None => w <| tt_calls ::= <[call := mkCall id 0 "" CloseCancels]> |>
      end
  | TTStep call answer =>
      match tt_calls w !! call with Some c => tt_call call c answer w | None => w end
  | TTRelays id i worker answer =>
      match tt_devices w !! id with
      | Some d =>
          w <| tt_devices ::= <[id := d <| dv_forwarders ::= alter (forwarder_step (WorkerStep worker answer)) i |>]> |>
      | None => w
      end
  end.

Definition tt_run (ops : list ttOp) (w : ttWorld) : ttWorld := fold_left (fun w op => tt_step op w) ops w.
End devices.
