(* ===== verification/TrustTunnelTheorems.v ===== *)
(** * What the TrustTunnel device guarantees

    The engine's configuration is confined to the addresses the device's
    forwarders listen on, a wait for readiness misses no change, and the
    process-global engine serves one device at a time and none that is
    closed. *)

From S2P Require Import Prelude Errors Values GoStrings Bypass Dns Dialing Sockets Forwarder ForwarderTheorems TrustTunnel.
Local Open Scope string_scope.
Local Open Scope list_scope.

(** ** The configuration *)

Lemma field_set key key' v m : field key' (set_field key v m) = if String.eqb key key' then v else field key' m.
Proof. unfold field. rewrite lookup_set_field. by destruct (String.eqb key key'). Qed.

Lemma lookup_delete_field key key' m :
  lookup_field key' (delete_field key m) = if String.eqb key key' then None else lookup_field key' m.
Proof.
  unfold delete_field. induction m as [|[k v] m IH]; simpl; [by destruct (String.eqb key key')|].
  destruct (String.eqb_spec k key) as [->|Hk]; simpl.
  - rewrite IH. by destruct (String.eqb key key').
  - rewrite IH. destruct (String.eqb_spec k key') as [->|]; [|done].
    destruct (String.eqb_spec key key'); [congruence|done].
Qed.

Lemma endpointOf_set endpoint m : endpointOf (set_field "endpoint" (AMap endpoint) m) = endpoint.
Proof. done. Qed.

Lemma endpointOf_other key v m : key <> "endpoint" -> endpointOf (set_field key v m) = endpointOf m.
Proof. intros H. unfold endpointOf. rewrite field_set. by apply String.eqb_neq in H as ->. Qed.

Definition addressHost (address : string) : string :=
  match SplitHostPort address with Ok (host, _) => host | Err _ => trim_brackets address end.

(** Every address reads as the number it is listed with. *)
Definition numeric (ParseAddr : string -> option IPAddr) (address : string) (ip : IP) : Prop :=
  exists zone, ParseAddr (addressHost address) = Some (ip, zone).

Lemma numericIPs_spec ParseAddr index addresses ips :
  numericIPs ParseAddr index addresses = Ok ips -> Forall2 (numeric ParseAddr) (map stringOf addresses) ips.
Proof.
  revert index ips. induction addresses as [|v addresses IH]; intros index ips; cbn [numericIPs map].
  { intros [= <-]. constructor. }
  destruct v as [|address| | | | | | | | |]; try done. cbn [stringOf].
  destruct (ParseAddr _) as [[ip zone]|] eqn:Hp; [|done].
  destruct (numericIPs _ _ _) as [rest|] eqn:E; [|done]. intros [= <-].
  constructor; [by exists zone|by eapply IH].
Qed.

Lemma numericEndpointIPs_spec ParseAddr addresses ips :
  numericEndpointIPs ParseAddr addresses = Ok ips ->
  Forall2 (numeric ParseAddr) (map stringOf addresses) ips /\ ips <> [].
Proof.
  unfold numericEndpointIPs. destruct (numericIPs _ _ _) as [[|ip rest]|] eqn:E; intros [= <-].
  split; [by eapply numericIPs_spec|done].
Qed.

(** What the constructor's configuration says, and what the engine's still
    says: nothing leaves the tunnel while it reconnects, names are asked through
    it, the SOCKS endpoint is local and asks for the credentials, and all else
    is the accepted document. *)
Record guarded (accepted config : fields) (socksUser socksPass socksAddress : string) : Prop := mkGuarded {
  gd_killswitch : field "killswitch_enabled" config = ABool true;
  gd_ports : field "killswitch_allow_ports" config = ASlice [];
  gd_legacy : lookup_field "dns_upstreams" config = None;
  gd_dns : field "dns_upstreams" (endpointOf config) =
    ASlice (map (fun server => AString (JoinHostPort server "53")) VPNDNSServers);
  gd_socks : exists listener socks, field "listener" config = AMap listener /\ field "socks" listener = AMap socks /\
    field "address" socks = AString socksAddress /\ field "username" socks = AString socksUser /\
    field "password" socks = AString socksPass;
  gd_endpoint : exists endpoint, field "endpoint" accepted = AMap endpoint /\
    forall key, key <> "addresses" -> key <> "dns_upstreams" ->
      lookup_field key (endpointOf config) = option_map cloneValue (lookup_field key endpoint);
  gd_others : forall key,
    ~ In key ["killswitch_enabled"; "killswitch_allow_ports"; "dns_upstreams"; "endpoint"; "listener"; "routing"] ->
    lookup_field key config = option_map cloneValue (lookup_field key accepted)
}.

Lemma eqb_ne a b : a <> b -> String.eqb a b = false.
Proof. by apply String.eqb_neq. Qed.

Ltac not_in_list H := repeat (apply Decidable.not_or in H as [? H]).

Lemma field_CloneFields_map key m endpoint :
  field key (CloneFields m) = AMap endpoint -> exists e, field key m = AMap e /\ endpoint = CloneFields e.
Proof.
  unfold field. rewrite lookup_CloneFields. destruct (lookup_field key m) as [v|]; [|done]. cbn.
  destruct v; try done. cbn. intros [= <-]. by eexists.
Qed.

Lemma newDeviceConfig_guarded ParseAddr IPString lookupIPAddr accepted listen user pass config ips socks :
  newDeviceConfig ParseAddr IPString lookupIPAddr accepted listen user pass = Ok (config, ips, socks) ->
  guarded accepted config user pass socks /\ (exists port, socks = "127.0.0.1:" +:+ Itoa port) /\
  Forall2 (numeric ParseAddr) (destinations config) ips /\ ips <> [].
Proof.
  unfold newDeviceConfig. destruct (field "endpoint" (CloneFields accepted)) as [| | | | | |endpoint| | | |] eqn:He; try done.
  destruct (field_CloneFields_map _ _ _ He) as (e & Hacc & ->).
  destruct (PrepareEndpointAddresses _ _ _ _) as [[addresses ip]|] eqn:Hp; [|done].
  destruct (numericEndpointIPs ParseAddr addresses) as [ips0|] eqn:Hn; [|done]. destruct listen as [port|]; [|done].
  set (cfg := set_field "endpoint" _ _). destruct (section "listener" cfg) as [listener|]; [|done].
  destruct (section "socks" listener) as [socks0|]; [|done]. intros [= <- <- <-].
  destruct (numericEndpointIPs_spec _ _ _ Hn) as [Hnum Hne]. split_and!; [|by exists port|exact Hnum|done].
  constructor; try done.
  - subst cfg. by rewrite !lookup_set_field, lookup_delete_field.
  - do 2 eexists. split_and!; reflexivity.
  - exists e. split; [done|]. intros key H1 H2. rewrite endpointOf_other by done. subst cfg.
    rewrite endpointOf_set, !lookup_set_field, lookup_CloneFields, !eqb_ne by congruence. done.
  - intros key Hk. cbn in Hk. not_in_list Hk. subst cfg.
    rewrite !lookup_set_field, lookup_delete_field, !lookup_set_field, lookup_CloneFields.
    by rewrite !eqb_ne.
Qed.

Lemma openConfig_guarded routingTableID uplinkIface locals accepted config user pass socks :
  guarded accepted config user pass socks ->
  guarded accepted (openConfig routingTableID uplinkIface locals config).1 user pass socks.
Proof.
  intros [H1 H2 H3 H4 (listener & socks0 & H5) (endpoint & H6 & H7) H8]. set (native := (openConfig _ _ _ _).1).
  assert (exists config1, endpointOf native = set_field "addresses" (ASlice (map AString locals)) (endpointOf config) /\
    (forall key, key <> "endpoint" -> key <> "routing" -> lookup_field key native = lookup_field key config) /\
    native = config1) as (_ & He & Hk & _).
  { subst native. unfold openConfig. cbv zeta.
    set (c1 := set_field "endpoint" _ config).
    assert (endpointOf c1 = set_field "addresses" (ASlice (map AString locals)) (endpointOf config)) as E1 by done.
    assert (forall key, key <> "endpoint" -> lookup_field key c1 = lookup_field key config) as E2.
    { intros key Hne. subst c1. by rewrite lookup_set_field, eqb_ne by congruence. }
    clearbody c1. destruct (section "routing" c1) as [routing|]; cbn [fst]; eexists.
    - rewrite endpointOf_other by done. split_and!; [done| |done].
      intros key Hne Hnr. rewrite lookup_set_field, eqb_ne by congruence. auto.
    - split_and!; [done| |done]. auto. }
  clearbody native. unfold field in *. constructor; unfold field; rewrite ?Hk by done; try done.
  - by rewrite He, lookup_set_field.
  - by exists listener, socks0.
  - exists endpoint. split; [done|]. intros key Ha Hd. rewrite He, lookup_set_field, eqb_ne by congruence. auto.
  - intros key Hin. rewrite Hk; [by apply H8|intros ->; apply Hin; cbn; tauto..].
Qed.

Lemma openConfig_addresses routingTableID uplinkIface locals config :
  field "addresses" (endpointOf (openConfig routingTableID uplinkIface locals config).1) = ASlice (map AString locals).
Proof.
  unfold openConfig. cbv zeta. destruct (section "routing" _); cbn [fst]; rewrite ?endpointOf_other by done; done.
Qed.

(** The engine's routing section. *)
Definition routed (routingTableID : Z) (uplinkIface : string) (native : fields) : Prop :=
  exists routing, field "routing" native = AMap routing /\ field "routing_table_id" routing = AInt routingTableID /\
    (uplinkIface <> "" -> field "uplink_interface" routing = AString uplinkIface).

Lemma openConfig_routed routingTableID uplinkIface locals config :
  (openConfig routingTableID uplinkIface locals config).2 = true ->
  routed routingTableID uplinkIface (openConfig routingTableID uplinkIface locals config).1.
Proof.
  unfold openConfig, routed. cbv zeta. destruct (section "routing" _) as [routing|]; [|done]. intros _. cbn [fst].
  eexists. split; [done|]. destruct (String.eqb_spec uplinkIface "") as [->|]; by rewrite !field_set.
Qed.

(** ** Readiness *)

Definition undecided (r : nativeReadiness) : Prop :=
  nr_closed r = false /\ nr_observed r <> Some Connected /\ nr_observed r <> Some StateError.

Record RInv (r : nativeReadiness) (waits : gmap nat waiting) : Prop := mkRInv {
  ri_chans : forall c, (c ∈ nr_closedChans r) <-> c < nr_changed r \/ (c = nr_changed r /\ nr_closed r = true);
  ri_parked : forall id c, waits !! id = Some (WaitParked c) ->
    c < nr_changed r \/ (c = nr_changed r /\ (nr_closed r = true \/ undecided r))
}.

Lemma readiness_RInv_new : RInv newNativeReadiness ∅.
Proof. constructor; cbn; [|done]. intros c. split; [intros []%not_elem_of_empty|]. intros [?|[_ ?]]; [lia|done]. Qed.

Lemma closeChanged_open r waits :
  RInv r waits -> nr_closed r = false -> nr_changed r ∉ nr_closedChans r.
Proof. intros [Hc _] E [?|[_ ?]]%Hc; [lia|congruence]. Qed.

Lemma RInv_update state r waits :
  RInv r waits -> exists r' changed, update state r = Some (r', changed) /\ RInv r' waits.
Proof.
  intros Hi. pose proof (closeChanged_open _ _ Hi) as Ho. pose proof Hi as [Hchan Hp].
  unfold update. destruct (nr_closed r) eqn:Hc; cbn; [by do 2 eexists|].
  case_bool_decide; [by do 2 eexists|]. unfold closeChanged. cbn.
  rewrite bool_decide_eq_false_2 by auto. do 2 eexists. split; [done|]. constructor; cbn.
  - intros c. rewrite elem_of_union, elem_of_singleton, Hchan, Hc. split; [intros [?|[?|[_ ?]]]; [lia|lia|done]|].
    intros [?|[_ ?]]; [|done]. destruct (decide (c = nr_changed r)); [by left|right; left; lia].
  - intros id c Hw. destruct (Hp id c Hw) as [?|[-> _]]; left; lia.
Qed.

Lemma RInv_close r waits : RInv r waits -> exists r', closeReadiness r = Some r' /\ RInv r' waits.
Proof.
  intros Hi. pose proof (closeChanged_open _ _ Hi) as Ho. pose proof Hi as [Hchan Hp].
  unfold closeReadiness. destruct (nr_closed r) eqn:Hc; [by eexists|]. unfold closeChanged. cbn.
  rewrite bool_decide_eq_false_2 by auto. eexists. split; [done|]. constructor; cbn.
  - intros c. rewrite elem_of_union, elem_of_singleton, Hchan. split; [intros [?|[?|[_ ?]]]; auto; done|].
    intros [?|[? _]]; auto.
  - intros id c Hw. destruct (Hp id c Hw) as [?|[-> _]]; auto.
Qed.

(** What a wait that looked may have found. *)
Lemma waitLooks_parks r c :
  waitLooks r = WaitParked c -> c = nr_changed r /\ undecided r.
Proof.
  unfold waitLooks, undecided. destruct (nr_closed r); [done|].
  destruct (nr_observed r) as [[]|]; intros [= <-]; by split_and!.
Qed.

Lemma RInv_wait id ctxErr r waits :
  RInv r waits ->
  RInv r (<[id := match waits !! id with Some pc => waitStep ctxErr pc r | None => WaitLooks end]> waits).
Proof.
  intros [Hchan Hp]. constructor; [done|]. intros id' c [[-> H]|[_ H]]%lookup_insert_Some; [|by apply (Hp id')].
  destruct (waits !! id') as [[|c0|res]|] eqn:E; [| |done..]; destruct ctxErr; try done; cbn in H.
  - destruct (waitLooks_parks _ _ H) as [-> ?]. right. by split; [|right].
  - case_bool_decide; simplify_eq. by apply (Hp id').
Qed.

Lemma RInv_run ops r waits :
  RInv r waits -> exists r' waits', readiness_run ops (r, waits) = Some (r', waits') /\ RInv r' waits'.
Proof.
  revert r waits. induction ops as [|op ops IH]; intros r waits Hi; [by do 2 eexists|].
  destruct op as [state| |id ctxErr]; cbn.
  - destruct (RInv_update state r waits Hi) as (r' & ch & -> & Hi'). by apply IH.
  - destruct (RInv_close r waits Hi) as (r' & -> & Hi'). by apply IH.
  - by apply IH, RInv_wait.
Qed.

(** Whatever the order of state changes, closes and waits: no channel is
    closed twice; a wait returns nil only when it finds the transport connected
    and not closed; and no change is missed: a wait that stays parked is parked
    on a transport that is neither closed nor connected nor in error, so as soon
    as one of these holds every parked wait is woken and finds it. *)
Theorem readiness_misses_no_change (ops : list readinessOp) :
  exists r waits, readiness_run ops (newNativeReadiness, ∅) = Some (r, waits) /\
  (forall pc ctxErr, waitStep ctxErr pc r = WaitDone None ->
     pc = WaitDone None \/ nr_closed r = false /\ nr_observed r = Some Connected) /\
  (forall id c, waits !! id = Some (WaitParked c) ->
     waitStep None (WaitParked c) r = WaitLooks \/
     (nr_closed r = false /\ nr_observed r <> Some Connected /\ nr_observed r <> Some StateError)) /\
  (forall id c, waits !! id = Some (WaitParked c) ->
     (nr_closed r = true \/ nr_observed r = Some Connected \/ nr_observed r = Some StateError) ->
     exists res, waitStep None (waitStep None (WaitParked c) r) r = WaitDone res).
Proof.
  destruct (RInv_run ops _ _ readiness_RInv_new) as (r & waits & E & [Hchan Hp]). exists r, waits. split; [done|].
  assert (forall id c, waits !! id = Some (WaitParked c) ->
    waitStep None (WaitParked c) r = WaitLooks \/ undecided r) as Hwake.
  { intros id c Hw. destruct (Hp id c Hw) as [H|[-> [H|H]]]; [left|left|by right];
      cbn; by rewrite bool_decide_eq_true_2 by (apply Hchan; auto). }
  split_and!; [|done|].
  - intros [|c|res] [err|]; cbn; try done; [|by case_bool_decide|by left..].
    unfold waitLooks. destruct (nr_closed r); [done|]. destruct (nr_observed r) as [[]|]; try done. by right.
  - intros id c Hw Hd. destruct (Hwake id c Hw) as [->|(H1 & H2 & H3)]; [|by destruct Hd as [?|[?|?]]; congruence].
    cbn. unfold waitLooks. destruct (nr_closed r); [by eexists|]. destruct Hd as [?|[->| ->]]; [done|by eexists..].
Qed.

(** ** The devices *)

(** The engines that run, from the newest event back. *)
Fixpoint running (trace : list nativeEvent) : gset nat :=
  match trace with
  | [] => ∅
  | NativeStart id _ :: trace => {[id]} ∪ running trace
  | NativeStop id :: trace => running trace ∖ {[id]}
  end.

(** Every start found no engine running. *)
Fixpoint one_at_a_time (trace : list nativeEvent) : Prop :=
  match trace with
  | [] => True
  | NativeStart _ _ :: trace => running trace = ∅ /\ one_at_a_time trace
  | NativeStop _ :: trace => one_at_a_time trace
  end.

Definition holdsLock (p : ttPlace) : bool :=
  match p with
  | OpenSelects | OpenChecks | OpenForwards _ _ | OpenStarts _ | CloseStops | CloseForwarders _ _ => true
  | _ => false
  end.

(** A Close that has canceled its device. *)
Definition hasCanceled (p : ttPlace) : bool :=
  match p with CloseLocks | CloseStops | CloseForwarders _ _ => true | _ => false end.

Definition forwarderClosed (call : nat) (f : forwarder) : Prop := fw_closes f !! call = Some (ForwarderClosed None).

(** The engine of the device was not started yet. *)
Definition never (trace : list nativeEvent) (id : nat) : Prop := forall native, ~ In (NativeStart id native) trace.

Lemma never_running trace id : never trace id -> id ∉ running trace.
Proof.
  induction trace as [|e trace IH]; intros Hn; [cbn; set_solver|].
  assert (id ∉ running trace) as Hr by (apply IH; intros native Hin; apply (Hn native); by right).
  destruct e as [id' native|id']; cbn; [|set_solver].
  assert (id <> id') by (intros ->; apply (Hn native); by left). set_solver.
Qed.

(** Every engine that runs was started. *)
Lemma running_started trace id : id ∈ running trace -> exists native, In (NativeStart id native) trace.
Proof.
  induction trace as [|[id' native|id'] trace IH]; cbn; [set_solver| |].
  - intros [->%elem_of_singleton|H]%elem_of_union; [by eexists; left|]. destruct (IH H) as [native' ?]. eexists. by right.
  - intros [H _]%elem_of_difference. destruct (IH H) as [native' ?]. eexists. by right.
Qed.

(** Both listeners of the forwarder are open. *)
Definition serving (f : forwarder) : Prop := fw_tcp f = true /\ fw_udp f = true.

Section devices.
(** [Known op] holds of the operations of the run. *)
Context (retryEndpointPairBind : gerr -> bool) (Known : ttOp -> Prop).

Definition Made (id : nat) (config : fields) : Prop := Known (TTNew id config).

(** A pair of listeners the open [call] obtained. *)
Definition listened (call : nat) (local : string) : Prop :=
  exists attempts, Known (TTStep call (PairListens attempts)) /\ pair_listens retryEndpointPairBind attempts local.

(** What the engine of a device was given, whose forwarders are [fs]. *)
Definition given (id : nat) (native : fields) (fs : list forwarder) : Prop :=
  exists config call routingTableID uplinkIface,
    Made id config /\ Known (TTOpens call id routingTableID uplinkIface) /\
    native = (openConfig routingTableID uplinkIface (map fw_local fs) config).1 /\
    (openConfig routingTableID uplinkIface (map fw_local fs) config).2 = true /\
    map fw_address fs = destinations config /\ Forall (listened call) (map fw_local fs).

(** The forwarders an open has made, with [rest] still to come. *)
Record forwards (trace : list nativeEvent) (call id : nat) (rest locals : list string) (d : ttDevice) : Prop := mkForwards {
  fd_owned : dv_nativeOwned d = true;
  fd_never : never trace id;
  fd_made : Made id (dv_config d);
  fd_upstreams : map fw_address (dv_forwarders d) ++ rest = destinations (dv_config d);
  fd_locals : map fw_local (dv_forwarders d) = locals;
  fd_listened : Forall (listened call) locals;
  fd_serving : Forall serving (dv_forwarders d)
}.

Definition place_ok (trace : list nativeEvent) (call id : nat) (p : ttPlace) (d : ttDevice) : Prop :=
  match p with
  | OpenSelects => dv_nativeOwned d = false
  | OpenChecks => forwards trace call id (destinations (dv_config d)) [] d
  | OpenForwards rest locals => forwards trace call id rest locals d
  | OpenStarts locals => forwards trace call id [] locals d
  | CloseForwarders i failed =>
      (id ∉ running trace) /\
      (failed = None -> forall j f, j < i -> dv_forwarders d !! j = Some f -> forwarderClosed call f)
  | _ => True
  end.

Record call_ok (w : ttWorld) (call : nat) (c : ttCall) : Prop := mkCallOk {
  co_opened : isOpen (tc_place c) = true ->
    Known (TTOpens call (tc_device c) (tc_routingTableID c) (tc_uplinkIface c));
  co_canceled : hasCanceled (tc_place c) = true ->
    exists d, tt_devices w !! tc_device c = Some d /\ dv_ctxErr d <> None;
  co_locked : holdsLock (tc_place c) = true ->
    exists d, tt_devices w !! tc_device c = Some d /\ dv_lock d = Some call /\ dv_closed d = false /\
      place_ok (tt_trace w) call (tc_device c) (tc_place c) d
}.

Record device_ok (trace : list nativeEvent) (id : nat) (d : ttDevice) : Prop := mkDeviceOk {
  do_forwarders : Forall FwInv (dv_forwarders d);
  do_running : id ∈ running trace -> dv_nativeOwned d = true;
  do_serving : id ∈ running trace -> Forall serving (dv_forwarders d);
  do_given : forall native, In (NativeStart id native) trace -> given id native (dv_forwarders d);
  do_made : dv_nativeOwned d = false -> dv_closed d = false ->
    Made id (dv_config d) /\ never trace id /\ dv_forwarders d = [];
  do_closed : dv_closed d = true ->
    dv_nativeOwned d = false /\ Forall (fun f => exists call, forwarderClosed call f) (dv_forwarders d)
}.

Record TTInv (w : ttWorld) : Prop := mkTTInv {
  tv_devices : forall id d, tt_devices w !! id = Some d -> device_ok (tt_trace w) id d;
  tv_calls : forall call c, tt_calls w !! call = Some c -> call_ok w call c;
  tv_started : forall id native, In (NativeStart id native) (tt_trace w) -> is_Some (tt_devices w !! id);
  tv_owner : tt_owner w = true <-> exists id d, tt_devices w !! id = Some d /\ dv_nativeOwned d = true;
  tv_unique : forall id1 d1 id2 d2, tt_devices w !! id1 = Some d1 -> tt_devices w !! id2 = Some d2 ->
    dv_nativeOwned d1 = true -> dv_nativeOwned d2 = true -> id1 = id2;
  tv_alone : one_at_a_time (tt_trace w);
  tv_returned : forall call c, tt_calls w !! call = Some c -> tc_place c = CloseReturned None ->
    exists d, tt_devices w !! tc_device c = Some d /\ dv_closed d = true
}.

(** A forwarder moves on; what was closed stays closed. *)
Lemma forwarderClosed_step call op f : forwarderClosed call f -> forwarderClosed call (forwarder_step op f).
Proof. apply answer_stays. Qed.

(** The device of a call is replaced: the token and the engine change hands the
    way one call may change them. *)
Definition token_moves (owner owner' : bool) (d d' : ttDevice) : Prop :=
  (owner' = owner /\ dv_nativeOwned d' = dv_nativeOwned d) \/
  (owner = false /\ owner' = true /\ dv_nativeOwned d' = true) \/
  (owner' = false /\ dv_nativeOwned d = true /\ dv_nativeOwned d' = false).

Definition runs_like (id : nat) (trace trace' : list nativeEvent) : Prop :=
  forall id', id' <> id -> ((id' ∈ running trace') <-> (id' ∈ running trace)) /\
    forall native, In (NativeStart id' native) trace' <-> In (NativeStart id' native) trace.

(** What another call of the device may rely on. *)
Definition left_alone (call : nat) (trace trace' : list nativeEvent) (d d' : ttDevice) : Prop :=
  (dv_ctxErr d <> None -> dv_ctxErr d' <> None) /\ (dv_closed d = true -> dv_closed d' = true) /\
  (dv_lock d = None \/ dv_lock d = Some call \/
   (trace' = trace /\ exists err, d' = d <| dv_ctxErr := err |>)).

Lemma place_ok_runs trace trace' call id p d :
  (id ∉ running trace -> id ∉ running trace') -> (never trace id -> never trace' id) ->
  place_ok trace call id p d -> place_ok trace' call id p d.
Proof.
  intros H H'. destruct p; cbn; try done; [intros []; constructor; auto..|]. intros (? & ?); auto.
Qed.

Lemma place_ok_ctx trace call id p d err :
  place_ok trace call id p d -> place_ok trace call id p (d <| dv_ctxErr := err |>).
Proof. destruct p; cbn; try done; by intros []. Qed.

(** Forwarders with the same ends. *)
Definition same_ends (fs fs' : list forwarder) : Prop :=
  map fw_address fs' = map fw_address fs /\ map fw_local fs' = map fw_local fs.

Lemma same_ends_given fs fs' id native : same_ends fs fs' -> given id native fs -> given id native fs'.
Proof. unfold given. by intros [-> ->]. Qed.

Lemma same_ends_nil fs fs' : same_ends fs fs' -> fs = [] -> fs' = [].
Proof. intros [H _] ->. by destruct fs'. Qed.

Lemma same_ends_step fs i f op : fs !! i = Some f -> same_ends fs (<[i := forwarder_step op f]> fs).
Proof.
  destruct (forwarder_step_ends op f) as [Ha Hl]. unfold same_ends.
  revert i. induction fs as [|f0 fs IH]; intros [|i] Hf; cbn in *; simplify_eq; [by rewrite Ha, Hl|].
  destruct (IH i Hf) as [H1 H2]. split; f_equal; [exact H1|exact H2].
Qed.

Lemma same_ends_alter fs i op : same_ends fs (alter (forwarder_step op) i fs).
Proof.
  unfold same_ends. revert i. induction fs as [|f fs IH]; intros [|i]; try done; cbn.
  - by destruct (forwarder_step_ends op f) as [-> ->].
  - destruct (IH i) as [H1 H2]. split; f_equal; [exact H1|exact H2].
Qed.

Lemma TTInv_call w call c d d' place owner events :
  let id := tc_device c in let trace' := events ++ tt_trace w in
  TTInv w -> tt_calls w !! call = Some c -> tt_devices w !! id = Some d ->
  left_alone call (tt_trace w) trace' d d' -> token_moves (tt_owner w) owner d d' ->
  runs_like id (tt_trace w) trace' -> device_ok trace' id d' ->
  (isOpen place = true -> isOpen (tc_place c) = true) ->
  (hasCanceled place = true -> dv_ctxErr d' <> None) ->
  (holdsLock place = true -> dv_lock d' = Some call /\ dv_closed d' = false /\ place_ok trace' call id place d') ->
  one_at_a_time trace' ->
  (place = CloseReturned None -> dv_closed d' = true) ->
  TTInv (w <| tt_devices ::= <[id := d']> |> <| tt_calls ::= <[call := c <| tc_place := place |>]> |>
    <| tt_owner := owner |> <| tt_trace ::= app events |>).
Proof.
  intros id trace' Hi Hc Hd (Hctx & Hcl & Hlock) Htok Hrun Hok Hopens Hcan Hplace Hone Hret.
  assert (forall id1 d1, <[id := d']> (tt_devices w) !! id1 = Some d1 -> dv_nativeOwned d1 = true ->
    id1 = id /\ d1 = d' \/ id1 <> id /\ tt_devices w !! id1 = Some d1) as Hin.
  { intros id1 d1 [[<- <-]|[? ?]]%lookup_insert_Some _; [by left|by right]. }
  destruct Hi. constructor; cbn.
  - intros id1 d1 [[<- <-]|[Hne H1]]%lookup_insert_Some; [exact Hok|].
    destruct (Hrun id1 (not_eq_sym Hne)) as [Hr1 Hs1]. destruct (tv_devices0 id1 d1 H1). constructor; try done.
    + intros H. by apply do_running0, Hr1.
    + intros H. by apply do_serving0, Hr1.
    + intros native H. by apply do_given0, Hs1.
    + intros Ho Hc1. destruct (do_made0 Ho Hc1) as (? & Hn & ?). split_and!; [done| |done]. intros native Hs. by apply (Hn native), Hs1.
  - intros call1 c1 [[<- <-]|[Hne H1]]%lookup_insert_Some.
    + constructor; cbn; intros H; [by apply (co_opened _ _ _ (tv_calls0 _ _ Hc)), Hopens|..];
        exists d'; (split; [by apply lookup_insert_eq|]); auto.
    + destruct (tv_calls0 call1 c1 H1) as [Hopened Hcanceled Hlocked]. constructor; cbn; [done|..].
      * intros H. destruct (Hcanceled H) as (d1 & Hd1 & Hc1). destruct (decide (tc_device c1 = id)) as [E|E].
        -- exists d'. rewrite E, lookup_insert_eq. split; [done|]. rewrite E in Hd1. simplify_eq. auto.
        -- exists d1. by rewrite lookup_insert_ne.
      * intros H. destruct (Hlocked H) as (d1 & Hd1 & Hl1 & Hcl1 & Hp1). destruct (decide (tc_device c1 = id)) as [E|E].
        -- rewrite E in *. simplify_eq. destruct Hlock as [?|[?|[Hr [err ->]]]]; [congruence..|].
           eexists. rewrite lookup_insert_eq. split_and!; [done..|]. apply place_ok_ctx.
           change (events ++ tt_trace w) with trace'. by rewrite Hr.
        -- exists d1. rewrite lookup_insert_ne by done. split_and!; [done..|].
           destruct (Hrun _ E) as [Hr1 Hs1].
           eapply place_ok_runs; [..|exact Hp1]; [intros Hn Hin'; by apply Hn, Hr1|].
           intros Hn native Hin'. by apply (Hn native), Hs1.
  - intros id1 native Hs. destruct (decide (id1 = id)) as [->|Hne]; [rewrite lookup_insert_eq; by eexists|].
    rewrite lookup_insert_ne by done. by apply (tv_started0 id1 native), (Hrun id1 Hne).
  - destruct Htok as [[-> Ho]|[(Hf & -> & Ho)|(-> & Ho & Ho')]].
    + rewrite tv_owner0. split; intros (id1 & d1 & H1 & H2).
      * destruct (decide (id1 = id)) as [->|Hne].
        -- exists id, d'. rewrite lookup_insert_eq. split; [done|]. rewrite Ho. congruence.
        -- exists id1, d1. by rewrite lookup_insert_ne.
      * destruct (Hin id1 d1 H1 H2) as [[-> ->]|[Hne H]]; [|by exists id1, d1].
        exists id, d. split; [done|]. congruence.
    + split; [|done]. intros _. exists id, d'. by rewrite lookup_insert_eq.
    + split; [done|]. intros (id1 & d1 & H1 & H2). exfalso.
      destruct (Hin id1 d1 H1 H2) as [[-> ->]|[Hne H]]; [congruence|]. by apply Hne, (tv_unique0 id1 d1 id d).
  - intros id1 d1 id2 d2 H1 H2 O1 O2.
    assert (forall id1 d1, id1 <> id -> tt_devices w !! id1 = Some d1 -> dv_nativeOwned d1 = true ->
      dv_nativeOwned d' = true -> False) as Hx.
    { intros id0 d0 Hne H0 O0 O'. destruct Htok as [[-> Ho]|[(Hf & -> & Ho)|(-> & Ho & Ho')]].
      - apply Hne, (tv_unique0 id0 d0 id d); congruence.
      - assert (tt_owner w = true) by (apply tv_owner0; by exists id0, d0). congruence.
      - congruence. }
    destruct (Hin _ _ H1 O1) as [[-> ->]|[Hn1 H1']], (Hin _ _ H2 O2) as [[-> ->]|[Hn2 H2']]; [done| | |].
    + by destruct (Hx id2 d2).
    + by destruct (Hx id1 d1).
    + by apply (tv_unique0 id1 d1 id2 d2).
  - exact Hone.
  - intros call1 c1 [[<- <-]|[Hne H1]]%lookup_insert_Some Hp; cbn in *.
    + exists d'. rewrite lookup_insert_eq. auto.
    + destruct (tv_returned0 call1 c1 H1 Hp) as (d1 & Hd1 & Hcl1). destruct (decide (tc_device c1 = id)) as [E|E].
      * exists d'. rewrite E, lookup_insert_eq. rewrite E in Hd1. simplify_eq. auto.
      * exists d1. by rewrite lookup_insert_ne.
Qed.

(** What [TTInv_call] asks of a step of a call. *)
Record step_ok (w : ttWorld) (call : nat) (c : ttCall) (d : ttDevice)
    (res : ttDevice * ttPlace * bool * list nativeEvent) : Prop := mkStepOk {
  so_alone : left_alone call (tt_trace w) (res.2 ++ tt_trace w) d res.1.1.1;
  so_token : token_moves (tt_owner w) res.1.2 d res.1.1.1;
  so_runs : runs_like (tc_device c) (tt_trace w) (res.2 ++ tt_trace w);
  so_device : device_ok (res.2 ++ tt_trace w) (tc_device c) res.1.1.1;
  so_opens : isOpen res.1.1.2 = true -> isOpen (tc_place c) = true;
  so_canceled : hasCanceled res.1.1.2 = true -> dv_ctxErr res.1.1.1 <> None;
  so_locked : holdsLock res.1.1.2 = true ->
    dv_lock res.1.1.1 = Some call /\ dv_closed res.1.1.1 = false /\
    place_ok (res.2 ++ tt_trace w) call (tc_device c) res.1.1.2 res.1.1.1;
  so_one : one_at_a_time (res.2 ++ tt_trace w);
  so_returned : res.1.1.2 = CloseReturned None -> dv_closed res.1.1.1 = true
}.

Section step.
Context (w : ttWorld) (call : nat) (c : ttCall) (d : ttDevice).
Context (Hi : TTInv w) (Hc : tt_calls w !! call = Some c) (Hd : tt_devices w !! tc_device c = Some d).

Lemma device_ok_lock trace id l : device_ok trace id d -> device_ok trace id (d <| dv_lock := l |>).
Proof. intros []. by constructor. Qed.

(** Only the lock and the place change. *)
Lemma step_quiet l place :
  dv_lock d = None \/ dv_lock d = Some call ->
  (isOpen place = true -> isOpen (tc_place c) = true) ->
  (hasCanceled place = true -> dv_ctxErr d <> None) ->
  (holdsLock place = true -> l = Some call /\ dv_closed d = false /\
     place_ok (tt_trace w) call (tc_device c) place (d <| dv_lock := l |>)) ->
  (place = CloseReturned None -> dv_closed d = true) ->
  step_ok w call c d (d <| dv_lock := l |>, place, tt_owner w, []).
Proof.
  intros Hl Hopens Hcan Hp Hret. constructor; cbn; try done.
  - split_and!; [done..|]. tauto.
  - by left.
  - by apply device_ok_lock, (tv_devices _ Hi).
  - apply (tv_alone _ Hi).
Qed.

Lemma step_stays : step_ok w call c d (d, tc_place c, tt_owner w, []).
Proof.
  destruct (tv_calls _ Hi _ _ Hc) as [_ Hcan Hlock]. constructor; cbn; try done.
  - split_and!; [done..|]. right. right. split; [done|]. exists (dv_ctxErr d). by destruct d.
  - by left.
  - by apply (tv_devices _ Hi).
  - intros H. destruct (Hcan H) as (d0 & ? & ?). congruence.
  - intros H. destruct (Hlock H) as (d0 & ? & ? & ? & ?). simplify_eq. by split_and!.
  - apply (tv_alone _ Hi).
  - intros H. destruct (tv_returned _ Hi _ _ Hc H) as (d0 & ? & ?). congruence.
Qed.

(** The call holds the lock. *)
Lemma call_locked :
  holdsLock (tc_place c) = true ->
  dv_lock d = Some call /\ dv_closed d = false /\
  place_ok (tt_trace w) call (tc_device c) (tc_place c) d.
Proof.
  intros H. destruct (tv_calls _ Hi _ _ Hc) as [_ _ Hlock]. destruct (Hlock H) as (d0 & ? & ? & ? & ?).
  simplify_eq. by split_and!.
Qed.

Lemma call_canceled : hasCanceled (tc_place c) = true -> dv_ctxErr d <> None.
Proof.
  intros H. destruct (tv_calls _ Hi _ _ Hc) as [_ Hcan _]. destruct (Hcan H) as (d0 & ? & ?). congruence.
Qed.

(** With the lock the call of an open returns. *)
Lemma step_opened res :
  isOpen (tc_place c) = true ->
  dv_lock d = None \/ dv_lock d = Some call -> step_ok w call c d (opened res d, tt_owner w, []).
Proof. intros Ho Hl. by apply step_quiet. Qed.

(** The lock is held and the token is not: the engine of this device is not
    running. *)
Lemma not_running : dv_nativeOwned d = false -> tc_device c ∉ running (tt_trace w).
Proof. intros Ho Hr. apply (do_running _ _ _ (tv_devices _ Hi _ _ Hd)) in Hr. congruence. Qed.

(** Its own engine aside, the one that holds the token finds none running. *)
Lemma alone_running :
  dv_nativeOwned d = true -> tc_device c ∉ running (tt_trace w) -> running (tt_trace w) = ∅.
Proof.
  intros Ho Hn. apply elem_of_equiv_empty_L. intros id Hr. destruct (running_started _ _ Hr) as [native Hs].
  destruct (tv_started _ Hi _ _ Hs) as [d0 H0].
  pose proof (do_running _ _ _ (tv_devices _ Hi _ _ H0) Hr) as O0.
  rewrite (tv_unique _ Hi _ _ _ _ H0 Hd O0 Ho) in Hr. done.
Qed.

(** An open under the lock, whose engine was not started yet, changes its
    device: the forwarders and the configuration. *)
Lemma step_under_lock d' place :
  isOpen (tc_place c) = true -> dv_lock d = Some call -> dv_closed d = false -> dv_nativeOwned d = true ->
  never (tt_trace w) (tc_device c) ->
  dv_ctxErr d' = dv_ctxErr d -> dv_closed d' = false -> dv_nativeOwned d' = true ->
  Forall FwInv (dv_forwarders d') -> hasCanceled place = false ->
  (holdsLock place = true -> dv_lock d' = Some call /\ place_ok (tt_trace w) call (tc_device c) place d') ->
  place <> CloseReturned None -> step_ok w call c d (d', place, tt_owner w, []).
Proof.
  intros Hopens Hl Hcl Ho Hn Hctx Hcl' Ho' Hf Hcan Hp Hret. constructor; cbn; try done.
  - split_and!; [congruence|congruence|tauto].
  - left. by rewrite Ho, Ho'.
  - constructor; try done; [by intros H%(never_running _ _ Hn)|by intros native H%Hn|congruence..].
  - congruence.
  - intros H. destruct (Hp H). by split_and!.
  - apply (tv_alone _ Hi).
Qed.

(** The open gets the token. *)
Lemma step_takes :
  tc_place c = OpenSelects -> tt_owner w = false -> step_ok w call c d (d <| dv_nativeOwned := true |>, OpenChecks, true, []).
Proof.
  intros Hp Hw. destruct call_locked as (Hl & Hcl & Ho); [by rewrite Hp|]. rewrite Hp in Ho. cbn in Ho.
  pose proof (tv_devices _ Hi _ _ Hd) as [Hfw Hrun Hserv Hgiven Hmade Hclosed].
  destruct (Hmade Ho Hcl) as (Hm & Hn & Hnil). constructor; cbn; try done.
  - split_and!; [done..|tauto].
  - right. left. by rewrite Hw.
  - constructor; cbn; try done; congruence.
  - by rewrite Hp.
  - intros _. split_and!; try done. constructor; cbn; try done; rewrite Hnil; by try constructor.
  - apply (tv_alone _ Hi).
Qed.

(** A forwarder listens. *)
Lemma forwards_listens trace destination rest locals local :
  forwards trace call (tc_device c) (destination :: rest) locals d -> listened call local ->
  forwards trace call (tc_device c) rest (locals ++ [local])
    (d <| dv_forwarders ::= fun l => l ++ [newEndpointForwarder destination local] |>).
Proof.
  intros [] Hlocal. constructor; cbn; try done.
  - by rewrite map_app, <- app_assoc.
  - by rewrite map_app, fd_locals0.
  - apply Forall_app. by split; [|constructor].
  - apply Forall_app. by split; [|repeat constructor].
Qed.

(** The engine starts. *)
Lemma step_starts locals res :
  tc_place c = OpenStarts locals ->
  let native := (openConfig (tc_routingTableID c) (tc_uplinkIface c) locals (dv_config d)).1 in
  (openConfig (tc_routingTableID c) (tc_uplinkIface c) locals (dv_config d)).2 = true ->
  step_ok w call c d (opened res (d <| dv_config := native |>), tt_owner w, [NativeStart (tc_device c) native]).
Proof.
  intros Hp native Hok. destruct call_locked as (Hl & Hcl & Hf); [by rewrite Hp|]. rewrite Hp in Hf.
  destruct Hf as [Ho Hn Hm Hup Hloc Hlist Hserv]. rewrite app_nil_r in Hup.
  pose proof (tv_devices _ Hi _ _ Hd) as [Hfw Hrun _ Hgiven Hmade Hclosed]. constructor; cbn; try done.
  - split_and!; [done..|tauto].
  - by left.
  - intros id Hne. cbn. split; [rewrite elem_of_union, elem_of_singleton; tauto|]. intros native'. split; [|by right].
    intros [E|H]; [congruence|done].
  - constructor; cbn; try done; [|congruence]. intros native' [[= <-]|H]; [|by apply Hn in H].
    exists (dv_config d), call, (tc_routingTableID c), (tc_uplinkIface c). rewrite Hloc. split_and!; try done.
    apply (co_opened _ _ _ (tv_calls _ Hi _ _ Hc)). by rewrite Hp.
  - by rewrite Hp.
  - split; [by apply alone_running, never_running|apply (tv_alone _ Hi)].
Qed.

Lemma openStep_ok answer :
  isOpen (tc_place c) = true -> Known (TTStep call answer) ->
  step_ok w call c d (openStep retryEndpointPairBind call (tc_device c) c answer d (tt_owner w)).
Proof.
  intros Hopen Hknown. pose proof step_stays as Hstay. pose proof call_locked as Hlocked.
  pose proof (do_forwarders _ _ _ (tv_devices _ Hi _ _ Hd)) as Hfw.
  assert (forall res, dv_lock d = None \/ dv_lock d = Some call -> step_ok w call c d (opened res d, tt_owner w, [])) as Hopened
    by (intros res; by apply step_opened).
  pose proof step_takes as Htakes. pose proof step_starts as Hstarts.
  pose proof step_under_lock as Hunder. unfold openStep.
  destruct (tc_place c) as [| | |[|destination rest] locals|locals|res| | | | |res] eqn:Hp; try done; try (by destruct answer).
  - destruct (dv_lock d) eqn:Hl; [done|]. destruct (dv_closed d) eqn:Hcl; [apply Hopened; by left|].
    destruct (dv_nativeOwned d) eqn:Ho; [apply Hopened; by left|]. apply step_quiet; rewrite ?Hp; try done. by left.
  - destruct Hlocked as (Hl & _); [done|]. destruct answer as [|[|]| | |]; try done.
    + destruct (tt_owner w) eqn:Hw; [done|]. by apply Htakes.
    + destruct (dv_ctxErr d); [|done]. apply Hopened. by right.
  - destruct Hlocked as (Hl & Hcl & Hf); [done|].
    assert (step_ok w call c d (match dv_ctxErr d with
      | Some err => (opened (Some err) d, tt_owner w, [])
      | None => (d, OpenForwards (destinations (dv_config d)) [], tt_owner w, []) end)) as H; [|by destruct answer].
    destruct (dv_ctxErr d) eqn:E; [apply Hopened; by right|]. pose proof Hf as [].
    by apply Hunder.
  - destruct Hlocked as (Hl & Hcl & Hf); [done|].
    assert (step_ok w call c d (d, OpenStarts locals, tt_owner w, [])) as H; [|by destruct answer].
    pose proof Hf as []. by apply Hunder.
  - destruct Hlocked as (Hl & Hcl & Hf); [done|]. destruct answer as [| |attempts| |]; try done.
    destruct (listenEndpointPair retryEndpointPairBind attempts).2 as [local|err] eqn:E; [|apply Hopened; by right].
    pose proof Hf as []. apply Hunder; try done; cbn.
    + apply Forall_app. split; [done|]. constructor; [apply FwInv_new|done].
    + intros _. split; [done|]. apply forwards_listens; [done|]. exists attempts.
      split; [done|by apply listenAttempts_listens].
  - destruct Hlocked as (Hl & Hcl & Hf); [done|]. destruct answer as [| | |encodeErr startErr|]; try done.
    specialize (Hstarts locals (option_map (EWrap "failed to start trusttunnel") startErr) eq_refl). cbn in Hstarts.
    destruct (openConfig (tc_routingTableID c) (tc_uplinkIface c) locals (dv_config d)) as [config ok] eqn:E.
    pose proof Hf as []. destruct ok; [|by apply Hunder]. destruct encodeErr as [err|]; [by apply Hunder|]. by apply Hstarts.
Qed.

(** Only the place of a close changes. *)
Lemma step_goes place :
  dv_lock d = Some call -> dv_closed d = false -> isOpen place = false ->
  (hasCanceled place = true -> dv_ctxErr d <> None) ->
  (holdsLock place = true -> place_ok (tt_trace w) call (tc_device c) place d) ->
  place <> CloseReturned None -> step_ok w call c d (d, place, tt_owner w, []).
Proof.
  intros Hl Hcl Hop Hcan Hp Hret.
  assert (d = d <| dv_lock := dv_lock d |>) as E by by destruct d. rewrite E at 2.
  apply step_quiet; try done; [by right|congruence|]. rewrite <- E. intros H. split_and!; auto.
Qed.

(** A forwarder's close goes on: the engine does not run. *)
Lemma step_closes_forwarder i failed f answer :
  tc_place c = CloseForwarders i failed -> dv_forwarders d !! i = Some f ->
  step_ok w call c d (d <| dv_forwarders ::= <[i := forwarder_step (CloseStep call answer) f]> |>,
    CloseForwarders i failed, tt_owner w, []).
Proof.
  intros Hp Hf. destruct call_locked as (Hl & Hcl & Hpl); [by rewrite Hp|]. rewrite Hp in Hpl. destruct Hpl as [Hn Hpre].
  pose proof (tv_devices _ Hi _ _ Hd) as [Hfw Hrun Hserv Hgiven Hmade Hclosed].
  pose proof (same_ends_step (dv_forwarders d) i f (CloseStep call answer) Hf) as Hends.
  constructor; cbn; try done.
  - split_and!; [done..|tauto].
  - by left.
  - constructor; cbn; try done; [| | |congruence].
    + apply Forall_insert; [done|]. apply (forwarder_step_FwInv (CloseStep call answer)). by eapply Forall_lookup_1.
    + intros native H. by apply (same_ends_given _ _ _ _ Hends), Hgiven.
    + intros Ho Hcl'. destruct (Hmade Ho Hcl') as (? & ? & Hnil). by rewrite Hnil in Hf.
  - intros _. apply call_canceled. by rewrite Hp.
  - intros _. split_and!; try done. intros Hnone j f0 Hj. rewrite list_lookup_insert_ne by lia. by apply Hpre.
  - apply (tv_alone _ Hi).
Qed.

Lemma step_finishes i :
  tc_place c = CloseForwarders i None -> dv_forwarders d !! i = None ->
  step_ok w call c d (let d' := d <| dv_closed := true |> in
    if dv_nativeOwned d then
      if tt_owner w then (closed None (d' <| dv_nativeOwned := false |>), false, []) else (d, CloseForwarders i None, tt_owner w, [])
    else (closed None d', tt_owner w, [])).
Proof.
  intros Hp Hf. destruct call_locked as (Hl & Hcl & Hpl); [by rewrite Hp|]. rewrite Hp in Hpl. destruct Hpl as [Hn Hpre].
  pose proof (tv_devices _ Hi _ _ Hd) as [Hfw Hrun Hserv Hgiven Hmade Hclosed]. pose proof step_stays as Hstay. rewrite Hp in Hstay.
  assert (Forall (fun f => exists call, forwarderClosed call f) (dv_forwarders d)) as Hall.
  { apply Forall_lookup_2. intros j f Hj. exists call. apply (Hpre eq_refl j f); [|done].
    apply lookup_lt_Some in Hj. apply lookup_ge_None in Hf. lia. }
  cbv zeta. destruct (dv_nativeOwned d) eqn:Ho; [destruct (tt_owner w) eqn:Hw; [|done]|].
  - constructor; cbn; try done.
    + split_and!; [done..|tauto].
    + right. right. by rewrite Ho.
    + apply (tv_alone _ Hi).
  - constructor; cbn; try done.
    + split_and!; [done..|tauto].
    + left. by rewrite Ho.
    + apply (tv_alone _ Hi).
Qed.

(** The engine is stopped. *)
Lemma step_stops :
  tc_place c = CloseStops -> dv_nativeOwned d = true ->
  step_ok w call c d (d, CloseForwarders 0 None, tt_owner w, [NativeStop (tc_device c)]).
Proof.
  intros Hp Ho. destruct call_locked as (Hl & Hcl & _); [by rewrite Hp|]. pose proof call_canceled as Hcan. rewrite Hp in Hcan.
  pose proof (tv_devices _ Hi _ _ Hd) as [Hfw Hrun Hserv Hgiven Hmade Hclosed]. constructor; cbn; try done.
  - split_and!; [done..|tauto].
  - by left.
  - intros id Hne. cbn. split; [set_solver|]. intros native. split; [|by right]. by intros [H|H].
  - constructor; try done; cbn; [set_solver| |congruence]. intros native [H|H]; [done|by apply Hgiven].
  - intros _. split_and!; [done|done|cbn; set_solver|]. intros _ j f Hj. lia.
  - apply (tv_alone _ Hi).
Qed.

(** The close cancels its device. *)
Lemma step_cancels err :
  tc_place c = CloseCancels -> step_ok w call c d (cancelDevice err d, CloseLocks, tt_owner w, []).
Proof.
  intros Hp. pose proof (tv_devices _ Hi _ _ Hd) as [Hfw Hrun Hserv Hgiven Hmade Hclosed]. constructor; cbn; try done.
  - unfold cancelDevice. destruct (dv_ctxErr d) eqn:E; (split_and!; [intros ?; cbn; congruence|done|]); right; right;
      (split; [done|]); [exists (dv_ctxErr d); by destruct d|by eexists].
  - left. unfold cancelDevice. by destruct (dv_ctxErr d).
  - unfold cancelDevice. destruct (dv_ctxErr d); by constructor.
  - intros _. unfold cancelDevice. destruct (dv_ctxErr d) eqn:E; [congruence|done].
  - apply (tv_alone _ Hi).
Qed.

Lemma closeStep_ok answer :
  isOpen (tc_place c) = false ->
  step_ok w call c d (ttCloseStep call (tc_device c) c answer d (tt_owner w)).
Proof.
  intros Hclose. pose proof step_stays as Hstay. pose proof call_locked as Hlocked. pose proof call_canceled as Hcan.
  pose proof step_stops as Hstops. pose proof (step_cancels (ESent CtxCanceled)) as Hcancels. unfold ttCloseStep.
  destruct (tc_place c) as [| | | | | | | | |i failed|res] eqn:Hp; try done.
  - by apply Hcancels.
  - destruct (dv_lock d) eqn:Hl; [done|]. destruct (dv_closed d) eqn:Hcl; (apply step_quiet; [by left|done|done|..]); try done.
  - destruct Hlocked as (Hl & Hcl & _); [done|]. destruct (dv_nativeOwned d) eqn:Ho; [by apply Hstops|].
    apply step_goes; [done|done|done|by intros _; apply Hcan| |done]. intros _. split; [by apply not_running|].
    intros _ j f Hj. lia.
  - destruct Hlocked as (Hl & Hcl & Hn & Hpre); [done|]. destruct (dv_forwarders d !! i) as [f|] eqn:Hf.
    + destruct (fw_closes f !! call) as [[| | | | |res]|] eqn:Ec;
        try (destruct answer; try done; by apply step_closes_forwarder).
      apply step_goes; [done|done|done|by intros _; apply Hcan| |done]. intros _. split; [done|].
      intros [-> ->]%join_pair_None j f0 Hj Hj0. destruct (decide (j = i)) as [->|Hne]; [by simplify_eq|].
      apply (Hpre eq_refl j f0); [lia|done].
    + destruct failed as [err|]; [apply step_quiet; [by right|done..]|]. by apply step_finishes.
Qed.
End step.

Lemma TTInv_tt_call w call c answer :
  TTInv w -> tt_calls w !! call = Some c -> Known (TTStep call answer) ->
  TTInv (tt_call retryEndpointPairBind call c answer w).
Proof.
  intros Hi Hc Hk. unfold tt_call. destruct (tt_devices w !! tc_device c) as [d|] eqn:Hd; [|done].
  set (res := (if isOpen (tc_place c) then openStep retryEndpointPairBind else ttCloseStep) _ _ _ _ _ _).
  assert (step_ok w call c d res) as [].
  { subst res. destruct (isOpen (tc_place c)) eqn:E; [by apply openStep_ok|by apply closeStep_ok]. }
  clearbody res. destruct res as [[[d' place] owner] events]. by apply (TTInv_call w call c d).
Qed.

(** The device changes outside its calls: its context or its forwarders. *)
Record moves_alone (d d' : ttDevice) : Prop := mkMovesAlone {
  ma_owned : dv_nativeOwned d' = dv_nativeOwned d;
  ma_closed : dv_closed d' = dv_closed d;
  ma_lock : dv_lock d' = dv_lock d;
  ma_config : dv_config d' = dv_config d;
  ma_ctxErr : dv_ctxErr d <> None -> dv_ctxErr d' <> None;
  ma_ends : same_ends (dv_forwarders d) (dv_forwarders d');
  ma_serving : Forall serving (dv_forwarders d) -> Forall serving (dv_forwarders d');
  ma_closes : forall j f', dv_forwarders d' !! j = Some f' -> exists f, dv_forwarders d !! j = Some f /\
     forall call, forwarderClosed call f -> forwarderClosed call f'
}.

Lemma place_ok_moves trace call id p d d' : moves_alone d d' -> place_ok trace call id p d -> place_ok trace call id p d'.
Proof.
  intros [Ho Hcl Hl Hcfg Hctx [Ha Hloc] Hserv Hcls].
  assert (forall rest locals, forwards trace call id rest locals d -> forwards trace call id rest locals d') as Hf.
  { intros rest locals []. constructor; rewrite ?Ho, ?Hcfg, ?Ha, ?Hloc; auto. }
  destruct p as [| | |rest locals|locals|res| | | |i failed|res]; cbn; rewrite ?Ho, ?Hcfg; try done; auto.
  intros [Hn Hpre]. split; [done|]. intros Hnone j f' Hj Hf'. destruct (Hcls j f' Hf') as (f & Hf0 & Hk).
  by apply Hk, (Hpre Hnone j f).
Qed.

Lemma device_ok_moves trace id d d' :
  moves_alone d d' -> Forall FwInv (dv_forwarders d') -> device_ok trace id d -> device_ok trace id d'.
Proof.
  intros [Ho Hcl Hl Hcfg Hctx Hends Hserv Hcls] Hfw []. constructor; rewrite ?Ho, ?Hcl, ?Hcfg; auto.
  - intros native H. by apply (same_ends_given _ _ _ _ Hends), do_given0.
  - intros H1 H2. destruct (do_made0 H1 H2) as (? & ? & ?). split_and!; [done..|]. by apply (same_ends_nil _ _ Hends).
  - intros H. destruct (do_closed0 H) as [H1 H2]. split; [done|]. apply Forall_lookup_2. intros j f' Hf'.
    destruct (Hcls j f' Hf') as (f & Hf & Hk). destruct (Forall_lookup_1 _ _ _ _ H2 Hf) as [call Hc]. exists call. auto.
Qed.

Lemma TTInv_device w id d d' :
  TTInv w -> tt_devices w !! id = Some d -> moves_alone d d' -> Forall FwInv (dv_forwarders d') ->
  TTInv (w <| tt_devices ::= <[id := d']> |>).
Proof.
  intros Hi Hd Hm Hfw. pose proof Hm as [Ho Hcl Hl _ Hctx _ _ _].
  assert (forall id1 d1, <[id := d']> (tt_devices w) !! id1 = Some d1 ->
    exists d0, tt_devices w !! id1 = Some d0 /\ dv_nativeOwned d1 = dv_nativeOwned d0) as Hback.
  { intros id1 d1 [[<- <-]|[_ H]]%lookup_insert_Some; [by exists d|by exists d1]. }
  assert (forall id1 d0, tt_devices w !! id1 = Some d0 -> exists d1, <[id := d']> (tt_devices w) !! id1 = Some d1 /\
    dv_nativeOwned d1 = dv_nativeOwned d0 /\ dv_closed d1 = dv_closed d0 /\
    (dv_ctxErr d0 <> None -> dv_ctxErr d1 <> None) /\ dv_lock d1 = dv_lock d0 /\
    forall trace call p, place_ok trace call id1 p d0 -> place_ok trace call id1 p d1) as Hforth.
  { intros id1 d0 H0. destruct (decide (id1 = id)) as [->|Hne].
    - exists d'. rewrite lookup_insert_eq. simplify_eq. split_and!; [done..|]. intros trace call p. by apply place_ok_moves.
    - exists d0. rewrite lookup_insert_ne by done. by split_and!. }
  destruct Hi. constructor; cbn; try done.
  - intros id1 d1 [[<- <-]|[_ H]]%lookup_insert_Some; [|by apply tv_devices0].
    apply (device_ok_moves _ _ d); auto.
  - intros call c Hc. destruct (tv_calls0 _ _ Hc) as [H0 H1 H2]. constructor; cbn; intros H; [auto|..].
    + destruct (H1 H) as (d0 & Hd0 & Hc0). destruct (Hforth _ _ Hd0) as (d1 & Hd1 & _ & _ & Hx & _). exists d1. auto.
    + destruct (H2 H) as (d0 & Hd0 & Hl0 & Hcl0 & Hp0). destruct (Hforth _ _ Hd0) as (d1 & Hd1 & _ & Hc1 & _ & Hl1 & Hp1).
      exists d1. split_and!; [done|congruence|congruence|auto].
  - intros id1 native H. destruct (tv_started0 id1 native H) as [d0 H0]. destruct (Hforth _ _ H0) as (d1 & -> & _). by eexists.
  - rewrite tv_owner0. split; intros (id1 & d1 & H1 & H2).
    + destruct (Hforth _ _ H1) as (d2 & Hd2 & E & _). exists id1, d2. split; [done|congruence].
    + destruct (Hback _ _ H1) as (d0 & H0 & E). exists id1, d0. split; [done|congruence].
  - intros id1 d1 id2 d2 H1 H2 O1 O2. destruct (Hback _ _ H1) as (d3 & H3 & E3), (Hback _ _ H2) as (d4 & H4 & E4).
    apply (tv_unique0 id1 d3 id2 d4); congruence.
  - intros call c Hc Hp. destruct (tv_returned0 _ _ Hc Hp) as (d0 & H0 & Hc0).
    destruct (Hforth _ _ H0) as (d1 & Hd1 & _ & Hc1 & _). exists d1. split; [done|congruence].
Qed.

Lemma TTInv_newcall w call c :
  TTInv w -> tt_calls w !! call = None ->
  (isOpen (tc_place c) = true -> Known (TTOpens call (tc_device c) (tc_routingTableID c) (tc_uplinkIface c))) ->
  hasCanceled (tc_place c) = false -> holdsLock (tc_place c) = false ->
  tc_place c <> CloseReturned None -> TTInv (w <| tt_calls ::= <[call := c]> |>).
Proof.
  intros Hi Hnew H0 H1 H2 H3. destruct Hi. constructor; cbn; try done.
  - intros call1 c1 [[<- <-]|[_ H]]%lookup_insert_Some; [constructor; auto; congruence|].
    destruct (tv_calls0 _ _ H). by constructor.
  - intros call1 c1 [[<- <-]|[_ H]]%lookup_insert_Some; [done|by apply (tv_returned0 call1)].
Qed.

Lemma TTInv_newdevice w id config :
  TTInv w -> tt_devices w !! id = None -> Made id config -> TTInv (w <| tt_devices ::= <[id := newDevice config]> |>).
Proof.
  intros Hi Hnew Hm.
  assert (forall id1 d1, <[id := newDevice config]> (tt_devices w) !! id1 = Some d1 -> dv_nativeOwned d1 = true ->
    tt_devices w !! id1 = Some d1) as Hback by by intros id1 d1 [[<- <-]|[_ H]]%lookup_insert_Some.
  assert (forall id1 d0, tt_devices w !! id1 = Some d0 -> <[id := newDevice config]> (tt_devices w) !! id1 = Some d0) as Hforth.
  { intros id1 d0 H. rewrite lookup_insert_ne; [done|congruence]. }
  destruct Hi.
  assert (never (tt_trace w) id) as Hn by (intros native H; destruct (tv_started0 _ _ H); congruence).
  constructor; cbn; try done.
  - intros id1 d1 [[<- <-]|[_ H]]%lookup_insert_Some; [|by apply tv_devices0]. constructor; cbn; try done.
    + by intros H%(never_running _ _ Hn).
    + by intros native H%Hn.
  - intros call c Hc. destruct (tv_calls0 _ _ Hc) as [H0 H1 H2]. constructor; cbn; intros H; [auto|..].
    + destruct (H1 H) as (d0 & Hd0 & ?). exists d0. auto.
    + destruct (H2 H) as (d0 & Hd0 & ? & ? & ?). exists d0. auto.
  - intros id1 native H. destruct (tv_started0 id1 native H) as [d0 H0]. rewrite (Hforth _ _ H0). by eexists.
  - rewrite tv_owner0. split; intros (id1 & d1 & H1 & H2); exists id1, d1; auto.
  - intros id1 d1 id2 d2 H1 H2 O1 O2. by apply (tv_unique0 id1 d1 id2 d2); auto.
  - intros call c Hc Hp. destruct (tv_returned0 _ _ Hc Hp) as (d0 & H0 & Hc0). exists d0. auto.
Qed.

Lemma moves_alone_relays d i worker answer :
  moves_alone d (d <| dv_forwarders ::= alter (forwarder_step (WorkerStep worker answer)) i |>).
Proof.
  constructor; cbn; try done.
  - apply same_ends_alter.
  - intros H. apply Forall_alter; [done|]. intros f Hf [H1 H2].
    destruct (worker_keeps_listeners worker answer f) as [E1 E2]. split; congruence.
  - intros j f' Hj. destruct (decide (j = i)) as [->|Hne].
    + rewrite list_lookup_alter_eq in Hj. destruct (dv_forwarders d !! i) as [f|]; [|done]. exists f.
      split; [done|]. intros call Hc. injection Hj as <-. by apply (forwarderClosed_step call (WorkerStep worker answer)).
    + rewrite list_lookup_alter_ne in Hj by done. by exists f'.
Qed.

Lemma moves_alone_cancel err d : moves_alone d (cancelDevice err d).
Proof.
  unfold cancelDevice. destruct (dv_ctxErr d) eqn:E; constructor; cbn; try done; try congruence; intros j f' Hj; by exists f'.
Qed.

Lemma TTInv_step op w : TTInv w -> Known op -> TTInv (tt_step retryEndpointPairBind op w).
Proof.
  intros Hi Hk. destruct op as [id config|id err|call id table uplink|call id|call answer|id i worker answer]; cbn.
  - destruct (tt_devices w !! id) eqn:Hd; [done|]. by apply TTInv_newdevice.
  - destruct (tt_devices w !! id) as [d|] eqn:Hd; [|done]. apply (TTInv_device w id d); [done|done|apply moves_alone_cancel|].
    assert (dv_forwarders (cancelDevice err d) = dv_forwarders d) as -> by (unfold cancelDevice; by destruct (dv_ctxErr d)).
    apply (do_forwarders _ _ _ (tv_devices _ Hi _ _ Hd)).
  - destruct (tt_calls w !! call) eqn:Hc; [done|]. by apply TTInv_newcall.
  - destruct (tt_calls w !! call) eqn:Hc; [done|]. by apply TTInv_newcall.
  - destruct (tt_calls w !! call) as [c|] eqn:Hc; [by apply TTInv_tt_call|done].
  - destruct (tt_devices w !! id) as [d|] eqn:Hd; [|done]. apply (TTInv_device w id d); [done|done|apply moves_alone_relays|].
    cbn. apply Forall_alter; [apply (do_forwarders _ _ _ (tv_devices _ Hi _ _ Hd))|].
    intros f _. apply (forwarder_step_FwInv (WorkerStep worker answer)).
Qed.

Lemma TTInv_new : TTInv noDevices.
Proof. constructor; try done; cbn; set_solver. Qed.

Lemma TTInv_run ops w :
  TTInv w -> (forall op, In op ops -> Known op) -> TTInv (tt_run retryEndpointPairBind ops w).
Proof.
  revert w. induction ops as [|op ops IH]; intros w Hi Hk; [done|]. cbn. apply IH.
  - apply TTInv_step; [done|]. apply Hk. by left.
  - intros op' H. apply Hk. by right.
Qed.
End devices.

(** The invariant of a run, which knows its operations. *)
Lemma TTInv_ops retryEndpointPairBind ops :
  TTInv retryEndpointPairBind (fun op => In op ops) (tt_run retryEndpointPairBind ops noDevices).
Proof. apply TTInv_run; [apply TTInv_new|done]. Qed.

(** C27: Whatever devices the process makes and however their opens, closes,
    cancellations and relays interleave: the token is taken exactly when a
    device has it, and one device has it at most; a device's engine runs only
    while the device has the token, and every start found no other engine
    running.  A Close never waits for an engine another device holds: once it
    canceled its device, an Open of that device which waits for the token is
    able to return. *)
Theorem one_native_engine_at_a_time (retryEndpointPairBind : gerr -> bool) (ops : list ttOp) :
  let w := tt_run retryEndpointPairBind ops noDevices in
  (tt_owner w = true <-> exists id d, tt_devices w !! id = Some d /\ dv_nativeOwned d = true) /\
  (forall id1 d1 id2 d2, tt_devices w !! id1 = Some d1 -> tt_devices w !! id2 = Some d2 ->
     dv_nativeOwned d1 = true -> dv_nativeOwned d2 = true -> id1 = id2) /\
  (forall id, id ∈ running (tt_trace w) -> exists d, tt_devices w !! id = Some d /\ dv_nativeOwned d = true) /\
  one_at_a_time (tt_trace w) /\
  (forall open co close cc, tt_calls w !! open = Some co -> tt_calls w !! close = Some cc ->
     tc_device co = tc_device cc -> tc_place co = OpenSelects -> hasCanceled (tc_place cc) = true ->
     exists err, tc_place <$> tt_calls (tt_step retryEndpointPairBind (TTStep open (Selects false)) w) !! open =
       Some (OpenReturned (Some err))).
Proof.
  intros w. pose proof (TTInv_ops retryEndpointPairBind ops) as Hi.
  fold w in Hi. pose proof Hi as [Hdev Hcalls Hstart Hown Huniq Hone Hret]. split_and!; [done..| |done|].
  - intros id H. destruct (running_started _ _ H) as [native Hs]. destruct (Hstart id native Hs) as [d Hd]. exists d.
    split; [done|]. by apply (do_running _ _ _ _ _ (Hdev id d Hd) H).
  - intros open co close cc Ho Hc Edev Hp Hcan. destruct (Hcalls _ _ Hc) as [_ Hctx _].
    destruct (Hctx Hcan) as (d & Hd & Herr). destruct (dv_ctxErr d) as [err|] eqn:E; [|done]. exists err.
    cbn. rewrite Ho. unfold tt_call. rewrite Edev, Hd, Hp. cbn. unfold openStep. rewrite Hp, E. cbn.
    by rewrite lookup_insert_eq.
Qed.

Lemma returned_kept retryEndpointPairBind op call c res w :
  tt_calls w !! call = Some c -> tc_place c = CloseReturned res ->
  tt_calls (tt_step retryEndpointPairBind op w) !! call = Some c.
Proof.
  intros Hc Hp. destruct op as [id config|id err|call0 id table uplink|call0 id|call0 answer|id i worker answer]; cbn;
    try by case_match.
  - case_match; [done|]. cbn. rewrite lookup_insert_ne; [done|congruence].
  - case_match; [done|]. cbn. rewrite lookup_insert_ne; [done|congruence].
  - destruct (tt_calls w !! call0) as [c0|] eqn:H0; [|done]. unfold tt_call.
    destruct (tt_devices w !! tc_device c0); [|done].
    destruct ((if isOpen (tc_place c0) then openStep retryEndpointPairBind else ttCloseStep) _ _ _ _ _ _)
      as [[[d place] owner] events] eqn:E. cbn. destruct (decide (call0 = call)) as [->|Hne]; [|by rewrite lookup_insert_ne].
    simplify_eq. destruct c as [id table uplink p]. cbn in Hp. subst p. cbn in E. simplify_eq. by rewrite lookup_insert_eq.
Qed.

Lemma returned_kept_run retryEndpointPairBind ops call c res w :
  tt_calls w !! call = Some c -> tc_place c = CloseReturned res ->
  tt_calls (tt_run retryEndpointPairBind ops w) !! call = Some c.
Proof.
  revert w. induction ops as [|op ops IH]; intros w Hc Hp; [done|]. cbn. apply IH; [|done]. by eapply returned_kept.
Qed.

(** Once a Close of a device returned nil, then and ever after, whatever
    happens to it and to the other devices: the device has given the token
    back, its engine does not run, and neither of the listeners nor a relayed
    socket of any of its forwarders is open. *)
Theorem trusttunnel_close_leaves_nothing_open (retryEndpointPairBind : gerr -> bool) (ops ops' : list ttOp)
    (call : nat) (c : ttCall) :
  tt_calls (tt_run retryEndpointPairBind ops noDevices) !! call = Some c -> tc_place c = CloseReturned None ->
  let w := tt_run retryEndpointPairBind (ops ++ ops') noDevices in
  exists d, tt_devices w !! tc_device c = Some d /\ dv_closed d = true /\ dv_nativeOwned d = false /\
  (tc_device c ∉ running (tt_trace w)) /\
  forall i f, dv_forwarders d !! i = Some f ->
    fw_tcp f = false /\ fw_udp f = false /\ workers_done f /\ po_open (fw_pool f) = ∅.
Proof.
  intros Hc Hp w.
  pose proof (TTInv_ops retryEndpointPairBind (ops ++ ops')) as Hi. fold w in Hi.
  assert (tt_calls w !! call = Some c) as Hc'.
  { subst w. unfold tt_run. rewrite fold_left_app. by eapply returned_kept_run. }
  destruct (tv_returned _ _ _ Hi call c Hc' Hp) as (d & Hd & Hcl). exists d.
  destruct (tv_devices _ _ _ Hi _ _ Hd) as [Hfw Hrun _ _ _ Hclosed]. destruct (Hclosed Hcl) as [Ho Hall].
  split_and!; [done..|intros H; rewrite (Hrun H) in Ho; done|].
  intros i f Hf. destruct (Forall_lookup_1 _ _ _ _ Hall Hf) as [id Hid].
  by destruct (fi_achieved _ (Forall_lookup_1 _ _ _ _ Hfw Hf) _ _ Hid) as [_ Hok].
Qed.

(** C28: A configuration handed to the native engine of a device names as its
    endpoints exactly the addresses the device's forwarders listen on, in their
    order: the forwarders relay to the addresses of the configuration the
    device was made with, one each, and each listens where the Open that
    started the engine obtained a pair - a TCP and a UDP listener, opened last
    and not closed.  While the engine runs both listeners of each are open.
    The engine routes through the table, and the uplink if there is one, of
    that Open.  When the constructor made the device's configuration, the
    forwarders' destinations are numeric, the engine's kill switch is on without
    allowed ports, its DNS goes to the VPN's servers, its SOCKS endpoint is on
    the loopback with the generated credentials, and every other setting is the
    accepted document's. *)
Theorem native_engine_is_confined (retryEndpointPairBind : gerr -> bool) (ops : list ttOp) (id : nat) (native : fields) :
  let w := tt_run retryEndpointPairBind ops noDevices in
  In (NativeStart id native) (tt_trace w) ->
  exists d config call routingTableID uplinkIface,
    tt_devices w !! id = Some d /\ In (TTNew id config) ops /\
    In (TTOpens call id routingTableID uplinkIface) ops /\
    field "addresses" (endpointOf native) = ASlice (map (fun f => AString (fw_local f)) (dv_forwarders d)) /\
    map fw_address (dv_forwarders d) = destinations config /\
    (forall f, In f (dv_forwarders d) -> exists attempts before,
       In (TTStep call (PairListens attempts)) ops /\
       listenEndpointPair retryEndpointPairBind attempts =
         (before ++ [TCPOpened (fw_local f); UDPOpened (fw_local f)], Ok (fw_local f))) /\
    (id ∈ running (tt_trace w) -> forall f, In f (dv_forwarders d) -> fw_tcp f = true /\ fw_udp f = true) /\
    routed routingTableID uplinkIface native /\
    forall ParseAddr IPString lookupIPAddr accepted listen user pass ips socksAddress,
      newDeviceConfig ParseAddr IPString lookupIPAddr accepted listen user pass = Ok (config, ips, socksAddress) ->
      guarded accepted native user pass socksAddress /\ (exists port, socksAddress = "127.0.0.1:" +:+ Itoa port) /\
      Forall2 (numeric ParseAddr) (destinations config) ips /\ ips <> [].
Proof.
  intros w Hin. pose proof (TTInv_ops retryEndpointPairBind ops) as Hi. fold w in Hi.
  destruct (tv_started _ _ _ Hi _ _ Hin) as [d Hd]. destruct (tv_devices _ _ _ Hi _ _ Hd) as [_ _ Hserv Hgiven _ _].
  destruct (Hgiven native Hin) as (config & call & table & uplink & Hm & Hk & -> & Hok & Hup & Hls).
  exists d, config, call, table, uplink. split_and!; [done|done|done|rewrite openConfig_addresses; by rewrite map_map|done|..].
  - intros f Hf. rewrite List.Forall_forall in Hls. destruct (Hls (fw_local f)) as (attempts & Ha & before & Hb).
    { by apply in_map. } by exists attempts, before.
  - intros Hr f Hf. specialize (Hserv Hr). rewrite List.Forall_forall in Hserv. by apply Hserv.
  - by apply openConfig_routed.
  - intros ParseAddr IPString lookupIPAddr accepted listen user pass ips socks Hnew.
    destruct (newDeviceConfig_guarded _ _ _ _ _ _ _ _ _ _ Hnew) as (Hg & Hport & Hnum & Hne).
    split_and!; try done. by apply openConfig_guarded.
Qed.

(** *** A device from its document to its close *)

Definition exampleParse (host : string) : option IPAddr :=
  if String.eqb host "192.0.2.1" then Some ([192; 0; 2; 1]%Z, "") else None.

Definition exampleAccepted : fields :=
  [("loglevel", AString "info"); ("dns_upstreams", ASlice []);
   ("endpoint", AMap [("hostname", AString "vpn.example"); ("addresses", ASlice [AString "192.0.2.1:443"])])].

Definition exampleNew : result (fields * list IP * string) gerr :=
  newDeviceConfig exampleParse (fun _ => "") (fun _ _ => Ok []) exampleAccepted (Ok 1080%Z) "user" "pass".

Definition exampleConfig : fields := match exampleNew with Ok (config, _, _) => config | Err _ => [] end.

Definition onePort : nat -> pairAttempt :=
  fun _ => mkPairAttempt None (Ok "127.0.0.1:40001") None None None None None None.

Definition goes (call n : nat) : list ttOp := repeat (TTStep call Goes) n.
Definition closesSocket (call n : nat) : list ttOp := repeat (TTStep call (SocketCloses None)) n.

(** The first device opens while the second waits for the engine; the first
    closes, and the second's open goes on. *)
Definition exampleOpens : list ttOp :=
  [TTNew 0 exampleConfig; TTNew 1 exampleConfig; TTOpens 10 0 100 "eth0"; TTStep 10 Goes; TTStep 10 (Selects true);
   TTStep 10 Goes; TTStep 10 (PairListens onePort); TTStep 10 Goes; TTStep 10 (NativeAnswers None None);
   TTOpens 11 1 100 ""; TTStep 11 Goes; TTStep 11 (Selects true)].

Definition exampleCloses : list ttOp :=
  [TTCloses 20 0] ++ goes 20 3 ++ closesSocket 20 4 ++
  [TTRelays 0 0 0 GotError; TTRelays 0 0 1 GotError] ++ closesSocket 20 2 ++ goes 20 2.

Lemma native_engine_is_confined_witness :
  match exampleNew with Ok (_, ips, socks) => ips = [[192; 0; 2; 1]%Z] /\ socks = "127.0.0.1:1080" | Err _ => False end /\
  exists native d, let w := tt_run (fun _ => false) exampleOpens noDevices in
  tt_trace w = [NativeStart 0 native] /\ tt_devices w !! 0 = Some d /\
  map fw_address (dv_forwarders d) = ["192.0.2.1:443"] /\ map fw_local (dv_forwarders d) = ["127.0.0.1:40001"] /\
  field "addresses" (endpointOf native) = ASlice (map (fun f => AString (fw_local f)) (dv_forwarders d)) /\
  guarded exampleAccepted native "user" "pass" "127.0.0.1:1080".
Proof.
  split; [by vm_compute|].
  assert (exists native, tt_trace (tt_run (fun _ => false) exampleOpens noDevices) = [NativeStart 0 native]) as [native E]
    by (eexists; vm_compute; reflexivity).
  destruct (native_engine_is_confined (fun _ => false) exampleOpens 0 native)
    as (d & config & call & table & uplink & Hd & Hin & _ & Haddr & Hup & _ & _ & _ & H).
  { rewrite E. by left. }
  assert (config = exampleConfig) as Ec.
  { destruct Hin as [Hin|[Hin|Hin]]; [by injection Hin|by injection Hin|].
    repeat destruct Hin as [Hin|Hin]; try discriminate Hin; done. }
  rewrite Ec in Hup, H.
  destruct (H exampleParse (fun _ => "") (fun _ _ => Ok []) exampleAccepted (Ok 1080%Z) "user" "pass"
    [[192; 0; 2; 1]%Z] "127.0.0.1:1080") as [Hg _]; [by vm_compute|].
  exists native, d. split; [exact E|]. split; [exact Hd|]. split; [exact Hup|].
  split; [|split; [exact Haddr|exact Hg]].
  assert (forall d', tt_devices (tt_run (fun _ => false) exampleOpens noDevices) !! 0 = Some d' ->
    map fw_local (dv_forwarders d') = ["127.0.0.1:40001"]) as Hloc by (vm_compute; by intros d' [= <-]).
  exact (Hloc d Hd).
Defined.

Lemma trusttunnel_close_leaves_nothing_open_witness :
  let w := tt_run (fun _ => false) (exampleOpens ++ exampleCloses ++ [TTStep 11 (Selects true)]) noDevices in
  tt_owner w = true /\ (exists d, tt_devices w !! 1 = Some d /\ dv_nativeOwned d = true) /\
  exists d, tt_devices w !! 0 = Some d /\ dv_closed d = true /\ dv_nativeOwned d = false /\ length (dv_forwarders d) = 1.
Proof.
  split_and!; [by vm_compute|eexists; split; vm_compute; reflexivity|].
  destruct (trusttunnel_close_leaves_nothing_open (fun _ => false) (exampleOpens ++ exampleCloses)
    [TTStep 11 (Selects true)] 20 (mkCall 0 0 "" (CloseReturned None)) ltac:(by vm_compute) eq_refl)
    as (d & Hd & Hcl & Ho & _). rewrite <- app_assoc in Hd.
  exists d. split_and!; [exact Hd|exact Hcl|exact Ho|]. cbn [tc_device] in Hd.
  assert (forall d', tt_devices (tt_run (fun _ => false) (exampleOpens ++ exampleCloses ++ [TTStep 11 (Selects true)])
    noDevices) !! 0 = Some d' -> length (dv_forwarders d') = 1) as Hlen by (vm_compute; by intros d' [= <-]).
  exact (Hlen d Hd).
Defined.
