(* ===== verification/Protocol.v ===== *)
(** * The session protocol: what a client may rely on

    An abstract session: the fields of a snapshot a client acts on, with the
    three fences behind them, and the moves a session may make.  Goroutines,
    ledgers, contexts, budgets, profiles and failures are left out;
    [Refinement] proves that the manager makes no other move. *)

From S2P Require Import Prelude Errors Values Session Activation Manager Worker.

Record view := mkView {
  v_state : State;
  v_generation : Z;
  v_networkGeneration : Z;
  v_vpnActive : bool;
  v_stopRequested : bool;
  v_closing : bool;
  v_cleanupDone : bool;
  v_cleanupFailed : bool
}.

#[export] Instance eta_view : Settable view := fun v =>
  mkView (v_state v) (v_generation v) (v_networkGeneration v) (v_vpnActive v)
    (v_stopRequested v) (v_closing v) (v_cleanupDone v) (v_cleanupFailed v).

Definition initial : view := mkView StateIdle 0 0 false false false true false.

(** The moves: the first seven answer a call, the others are the attempt's. *)
Inductive action :=
| Configures
| Starts
| Retries
| Switches
| Stops
| Closes
| Resumes
| Protects
| Renews
| Tries
| Connects
| Degrades
| Blocks
| Finishes
| Restarts
| Fails.

Definition next (generation : Z) : Z := u64 (generation + 1).

Definition selecting (state : State) : Prop := state = StateProbing \/ state = StatePreparing.

(** [None] is a step a client cannot see. *)
Inductive protocol : option action -> view -> view -> Prop :=
| p_stutter v : protocol None v v
(** A configuration shows only while no attempt holds anything. *)
| p_configure v :
    v_cleanupDone v = true -> attemptActive (v_state v) = false ->
    protocol (Some Configures) v (v <| v_state := StateConfigured |>)
(** A start needs complete cleanup and takes two new generations. *)
| p_start v :
    v_cleanupDone v = true -> v_closing v = false -> v_vpnActive v = false ->
    attemptActive (v_state v) = false ->
    protocol (Some Starts) v (v <| v_state := StateProbing |> <| v_generation ::= next |>
      <| v_networkGeneration ::= next |> <| v_stopRequested := false |> <| v_cleanupDone := false |>)
(** A retry keeps the network a failed attempt left behind. *)
| p_retry v :
    v_state v = StateFailed -> v_vpnActive v = true -> v_closing v = false ->
    v_cleanupDone v = false -> v_cleanupFailed v = false ->
    protocol (Some Retries) v (v <| v_state := StateProbing |> <| v_generation ::= next |>
      <| v_stopRequested := false |>)
| p_switch v :
    v_state v = StateConnected -> v_vpnActive v = true -> v_closing v = false ->
    protocol (Some Switches) v (v <| v_state := StateStopping |>)
(** A stop fences an attempt, and retries a cleanup that failed. *)
| p_stop_clean v :
    v_cleanupDone v = true ->
    protocol (Some Stops) v (v <| v_stopRequested := true |>)
| p_stop v :
    v_cleanupDone v = false ->
    protocol (Some Stops) v (v <| v_state := StateStopping |> <| v_stopRequested := true |>
      <| v_cleanupFailed := false |>)
| p_close v :
    protocol (Some Closes) v (v <| v_closing := true |> <| v_stopRequested := true |>
      <| v_state := if v_cleanupDone v || v_cleanupFailed v then v_state v else StateStopping |>)
| p_resume v :
    v_closing v = true -> v_cleanupDone v = true ->
    protocol (Some Resumes) v (v <| v_closing := false |>)
(** The attempt: protection first, *)
| p_protect v :
    attemptActive (v_state v) = true -> v_vpnActive v = false ->
    protocol (Some Protects) v (v <| v_vpnActive := true |>)
(** then its candidates, each with a generation of its own, *)
| p_renew v :
    selecting (v_state v) -> v_vpnActive v = true -> v_stopRequested v = false ->
    protocol (Some Renews) v (v <| v_generation ::= next |>)
| p_try v state :
    selecting (v_state v) -> selecting state -> v_vpnActive v = true -> v_stopRequested v = false ->
    protocol (Some Tries) v (v <| v_state := state |>)
| p_connect v :
    selecting (v_state v) -> v_vpnActive v = true -> v_stopRequested v = false ->
    protocol (Some Connects) v (v <| v_state := StateConnected |>)
| p_degrade v :
    v_state v = StateConnected ->
    protocol (Some Degrades) v (v <| v_state := StateStopping |>)
(** and its end: cleanup failed, a stop ended it, another attempt follows
    behind the same network, or it failed and keeps the network it has. *)
| p_block v :
    attemptActive (v_state v) = true ->
    protocol (Some Blocks) v (v <| v_state := StateFailed |> <| v_cleanupFailed := true |>)
| p_finish v :
    attemptActive (v_state v) = true -> v_stopRequested v = true ->
    protocol (Some Finishes) v (v <| v_state := StateIdle |> <| v_vpnActive := false |>
      <| v_cleanupDone := true |>)
| p_restart v :
    attemptActive (v_state v) = true -> v_vpnActive v = true -> v_stopRequested v = false ->
    protocol (Some Restarts) v (v <| v_state := StateProbing |> <| v_generation ::= next |>)
| p_fail v :
    attemptActive (v_state v) = true -> v_stopRequested v = false ->
    protocol (Some Fails) v (v <| v_state := StateFailed |> <| v_cleanupDone := negb (v_vpnActive v) |>).

(** Which moves an event of the manager may make. *)
Definition performs (ev : event) (a : option action) : bool :=
  match a, ev with
  | None, _ => true
  | Some Configures, EvAccept _ _ _ _ => true
  | Some (Starts | Retries | Switches), EvStart _ _ _ _ => true
  | Some Stops, EvStop _ _ _ => true
  | Some Closes, EvStopAndWait => true
  | Some Resumes, EvResume => true
  | Some (Protects | Renews | Tries | Connects | Degrades | Blocks | Finishes | Restarts | Fails),
    EvWorker _ _ => true
  | _, _ => false
  end.

(** A run of the protocol, labelled by its moves. *)
Inductive behaves : list (option action) -> view -> view -> Prop :=
| behaves_nil v : behaves [] v v
| behaves_cons a acts v1 v2 v3 :
    protocol a v1 v2 -> behaves acts v2 v3 -> behaves (a :: acts) v1 v3.

(** What a client sees of the manager. *)
Definition view_of (s : session) : view :=
  let snapshot := snapshotLocked s in
  mkView (sn_State snapshot) (sn_Generation snapshot) (sn_NetworkGeneration snapshot)
    (sn_VPNActive snapshot) (s_stopRequested s) (s_closing s) (sn_CleanupComplete snapshot)
    (s_cleanupFailed s).

Definition manager_view (m : manager) : view := view_of (m_session m).
