(* ===== verification/Refinement.v ===== *)
(** * The manager refines the session protocol

    One lemma per operation: what it does to the [view], then the simulation
    of the machine by [Protocol]. *)

From S2P Require Import Prelude Errors Values Session Activation Manager Worker Ownership Invariant InvariantApi InvariantWorker Effects Scenario Protocol.

(** ** The primitives and the session *)

Section session.
Context (m : manager).

Lemma session_panic : m_session (panic m) = m_session m.
Proof. done. Qed.
Lemma session_emit o : m_session (emit o m) = m_session m.
Proof. done. Qed.
Lemma session_retainPolicy d ps : m_session (retainPolicy d ps m) = m_session m.
Proof. by destruct ps. Qed.
Lemma session_call_cancel : m_session (call_cancel m) = m_session m.
Proof. unfold call_cancel. by case_match. Qed.
Lemma session_budget_begin now : m_session (budget_begin now m) = m_session m.
Proof. unfold budget_begin. by case_match. Qed.
Lemma session_budget_finish : m_session (budget_finish m) = m_session m.
Proof. unfold budget_finish. by case_match. Qed.
Lemma session_goto wid k p : m_session (goto wid k p m) = m_session m.
Proof. done. Qed.
Lemma session_spawn k : m_session (spawn k m) = m_session m.
Proof. done. Qed.
Lemma session_push w l : m_session (push w l m) = m_session m.
Proof. by destruct w. Qed.
Lemma session_acquire kind granted w : m_session (acquire kind granted w m) = m_session m.
Proof. destruct granted; [|done]. by destruct w. Qed.
Lemma workers_retainPolicy d ps : m_workers (retainPolicy d ps m) = m_workers m.
Proof. by destruct ps. Qed.
Lemma workers_budget_begin now : m_workers (budget_begin now m) = m_workers m.
Proof. unfold budget_begin. by case_match. Qed.
Lemma workers_cleanupContext now : m_workers (cleanupContext now m) = m_workers m.
Proof. unfold cleanupContext, budget_begin. by repeat case_match. Qed.
Lemma view_cleanupContext now : manager_view (cleanupContext now m) = manager_view m.
Proof. unfold cleanupContext, budget_begin. by repeat case_match. Qed.
Lemma view_appendLocked now : manager_view (appendLocked now m) = manager_view m.
Proof. done. Qed.
Lemma state_view : s_state (m_session m) = v_state (manager_view m).
Proof. done. Qed.
End session.

Create Rewrite HintDb session.
#[export] Hint Rewrite session_panic session_emit session_retainPolicy session_call_cancel
  cancel_if_set_session session_budget_begin session_budget_finish session_goto session_spawn
  session_push session_acquire workers_retainPolicy workers_budget_begin : session.

(** A worker that selects a candidate is not connected yet. *)
Definition selects (p : pc) : bool :=
  in_run p && match p with PWait _ => false | _ => true end.

Definition Selecting (m : manager) : Prop :=
  forall wid k, m_workers m !! wid = Some k -> selects (wk_pc k) = true ->
    s_state (m_session m) <> StateConnected.

(** One step of the manager: a move, and the candidates stay disconnected. *)
Definition simulated (ev : event) (m m' : manager) : Prop :=
  (exists a, performs ev a = true /\ protocol a (manager_view m) (manager_view m')) /\
  Selecting m'.

Lemma simulated_stutter ev m m' :
  manager_view m' = manager_view m -> m_workers m' = m_workers m -> Selecting m -> simulated ev m m'.
Proof.
  intros Hv Hw Hs. split; [exists None; split; [done|rewrite Hv; constructor]|].
  assert (s_state (m_session m') = s_state (m_session m)) as He by by rewrite !state_view, Hv.
  intros wid k. rewrite Hw, He. apply Hs.
Qed.

(** A move that does not end CONNECTED. *)
Lemma simulated_move ev a m m' :
  performs ev (Some a) = true -> protocol (Some a) (manager_view m) (manager_view m') ->
  s_state (m_session m') <> StateConnected -> simulated ev m m'.
Proof. intros Hp Hm Hs. split; [by exists (Some a)|by intros ???]. Qed.

(** The move [c] with the view it leads to. *)
Lemma protocol_to a v v1 v2 : protocol a v v1 -> v2 = v1 -> protocol a v v2.
Proof. by intros H ->. Qed.

Ltac session_steps := cbn; repeat (progress autorewrite with session; cbn).

(** Evaluate comparisons of known states. *)
Ltac decide_states :=
  repeat match goal with
    | |- context [bool_decide (?a = ?b)] =>
        first [rewrite (bool_decide_eq_true_2 (a = b)) by done
              |rewrite (bool_decide_eq_false_2 (a = b)) by done]
    end; cbn [andb orb negb is_Some_b].

(** The views of two sessions agree field by field. *)
Ltac by_view := unfold manager_view, view_of; session_steps; unfold next; f_equal; congruence.

(** ** The session API *)

Lemma sim_Configure_begin ctxErr seq m ev :
  Selecting m -> simulated ev m (Configure_begin ctxErr seq m).1.
Proof. intros Hs. apply simulated_stutter; [| |done]; unfold Configure_begin; by case_match. Qed.

Lemma done_resting m :
  Inv m -> s_cleanupDone (m_session m) = true -> resting (m_session m) /\ m_workers m = ∅.
Proof.
  intros Hi Hd. destruct (inv_shape _ Hi) as [Hw Hr|Hw []|Hw []|wid k Hw []]; try congruence. done.
Qed.

Lemma sim_Configure_accept now ctxErr request loaded parsed io m ce lc i :
  Inv m -> Selecting m ->
  simulated (EvAccept request ce lc i) m (Configure_accept now ctxErr request loaded parsed io m).1.
Proof.
  intros Hi Hs. unfold Configure_accept. case_match; [by apply simulated_stutter|].
  destruct (saveSource_store loaded io m) as [t Ht].
  destruct (saveSource loaded io m) as [m1 err]. cbn [fst] in Ht. subst m1.
  destruct err; [by apply simulated_stutter|]. cbv zeta. cbn [fst m_session on_session].
  set (m1 := on_session _ _). destruct (_ && _) eqn:Hq.
  - cbn in Hq. split_bools. destruct (done_resting m Hi) as [[] _]; [done|].
    apply (simulated_move _ Configures); [done| |].
    + eapply protocol_to; [by apply p_configure|]. unfold manager_view.
      case_match; unfold view_of; session_steps; done.
    + case_match; session_steps; done.
  - apply simulated_stutter; [| |done]; case_match; unfold manager_view, view_of; session_steps; done.
Qed.

(** A failed attempt behind its network, and a cleanup that failed. *)
Lemma failed_dormant m :
  Inv m -> s_state (m_session m) = StateFailed -> s_cleanupFailed (m_session m) = false ->
  s_vpnActive (m_session m) = true -> dormant (m_session m).
Proof.
  intros Hi Hst Hf Hv. destruct (inv_shape _ Hi) as [Hw []|Hw ?|Hw []|wid k Hw []]; try congruence.
  by rewrite Hst in rn_active.
Qed.

Lemma connected_running m :
  Inv m -> s_state (m_session m) = StateConnected -> s_vpnActive (m_session m) = true.
Proof.
  intros Hi Hst. destruct (running_shape m Hi) as (wid & k & _ & []); [by rewrite Hst|auto].
Qed.

Lemma sim_retryLocked now target supplied m a b c d :
  Inv m -> Selecting m -> canRetry (m_session m) = true ->
  simulated (EvStart a b c d) m (retryLocked now target supplied m).1.
Proof.
  intros Hi Hs Hc. unfold retryLocked. case_match; [by apply simulated_stutter|].
  unfold canRetry in Hc. split_bools. apply (simulated_move _ Retries); [done| |done].
  destruct (failed_dormant m Hi) as []; [done..|].
  eapply protocol_to; [by apply p_retry|]. by_view.
Qed.

Lemma sim_replaceLocked now io target m a b c d :
  Inv m -> Selecting m -> simulated (EvStart a b c d) m (replaceLocked now io target m).1.
Proof.
  intros Hi Hs. unfold replaceLocked. case_match eqn:Hc; [by apply simulated_stutter|].
  destruct (saveActivationLocked_store io target m) as [t Ht].
  destruct (saveActivationLocked io target m) as [m1 err]. cbn [fst] in Ht. subst m1.
  destruct err; [by apply simulated_stutter|]. cbv zeta. cbn [fst].
  unfold canSwitch in Hc. split_bools.
  apply (simulated_move _ Switches); [done| |session_steps; done].
  eapply protocol_to; [apply p_switch; [done|by apply connected_running|done]|].
  by_view.
Qed.

Lemma sim_Start_locked now io seq target supplied m a b c d :
  Inv m -> Selecting m -> simulated (EvStart a b c d) m (Start_locked now io seq target supplied m).1.
Proof.
  intros Hi Hs. unfold Start_locked. case_match; [by apply simulated_stutter|].
  case_match; [by apply simulated_stutter|]. destruct (canRetry _) eqn:Hc; [by apply sim_retryLocked|].
  destruct (validateStartTarget _ _); [by apply simulated_stutter|].
  destruct (configurationBlocked _) eqn:Hb; [by apply sim_replaceLocked|].
  destruct (saveActivationLocked_store io target m) as [t Ht].
  destruct (saveActivationLocked io target m) as [m1 err]. cbn [fst] in Ht. subst m1.
  destruct err; [by apply simulated_stutter|]. cbv zeta. cbn [fst].
  unfold configurationBlocked in Hb. split_bools.
  destruct (done_resting m Hi) as [[] _]; [done|].
  apply (simulated_move _ Starts); [done| |session_steps; done].
  eapply protocol_to; [by apply p_start|]. by_view.
Qed.

(** ** Stop, closing and resuming *)

Lemma view_stop_requested now m :
  manager_view (stop_requested now m) = manager_view m <| v_stopRequested := true |>.
Proof. unfold stop_requested. by case_match. Qed.

Lemma workers_stop_requested now m : m_workers (stop_requested now m) = m_workers m.
Proof. unfold stop_requested. by case_match. Qed.

Lemma view_stop_retained now g retry m :
  s_cleanupFailed (m_session m) = retry ->
  manager_view (stop_retained now g retry m) =
    manager_view m <| v_state := StateStopping |> <| v_cleanupFailed := false |>.
Proof.
  intros <-. unfold stop_retained, manager_view, view_of.
  destruct (s_cleanupFailed _) eqn:Hc; session_steps; by rewrite ?Hc.
Qed.

Lemma view_stop_attempt now m :
  s_cleanupFailed (m_session m) = false ->
  manager_view (stop_attempt now m) =
    manager_view m <| v_state := StateStopping |> <| v_cleanupFailed := false |>.
Proof.
  intros Hf. unfold stop_attempt. set (m1 := if _ : bool then on_session _ m else m).
  assert (manager_view m1 = manager_view m) as <- by (unfold m1; by case_match).
  assert (s_cleanupFailed (m_session m1) = false) as Hf1 by (unfold m1; by case_match).
  clearbody m1. unfold manager_view, view_of. case_bool_decide; session_steps; congruence.
Qed.

Lemma view_acknowledge now g m : manager_view (acknowledgeStoppedLocked now g m).1.1 = manager_view m.
Proof. unfold acknowledgeStoppedLocked. by repeat case_match. Qed.

(** The view after a stop of anything but a session at rest. *)
Lemma stop_outcome_view now m :
  attemptActive (s_state (m_session m)) = true /\ s_cleanupFailed (m_session m) = false \/
  s_state (m_session m) = StateFailed /\
    retryableCleanup (m_session m) || s_vpnActive (m_session m) && negb (s_cleanupFailed (m_session m)) = true ->
  manager_view (stop_outcome now m) =
    manager_view m <| v_state := StateStopping |> <| v_cleanupFailed := false |>.
Proof.
  unfold stop_outcome. intros [[Ha Hf]|[Hst Hr]].
  - rewrite Ha. by apply view_stop_attempt.
  - rewrite Hst, Hr. decide_states. apply view_stop_retained. unfold retryableCleanup in *.
    rewrite Hst in *. change (bool_decide (StateFailed = StateFailed)) with true in *. cbn [andb] in *.
    destruct (s_cleanupFailed (m_session m)); [|done]. cbn in Hr.
    by rewrite andb_false_r, orb_false_r in Hr.
Qed.

Lemma sim_Stop now loadErr io generation m a b c :
  Inv m -> Selecting m -> simulated (EvStop a b c) m (Stop now loadErr io generation m).1.1.
Proof.
  intros Hi Hs. destruct (acceptsStop (m_session m) generation) eqn:Ha.
  2: { unfold Stop. rewrite Ha. by apply simulated_stutter. }
  destruct (stopActivationLocked_store loadErr io m) as [t Ht].
  destruct (stopActivationLocked loadErr io m) as [m1 err] eqn:Hst. cbn [fst] in Ht. subst m1.
  rewrite (Stop_outcome _ _ _ _ _ _ _ Ha Hst). clear Hst. set (m1 := m <| m_sourceStore := t |>).
  pose proof (view_stop_requested now m1) as Hv. change (manager_view m1) with (manager_view m) in Hv.
  pose proof (fr_network _ _ (frame_stop_requested now m1)) as Hnet.
  generalize dependent (stop_requested now m1). intros m2 Hv Hnet.
  assert (s_state (m_session m2) = s_state (m_session m)) as Hst by by rewrite !state_view, Hv.
  destruct (decide (s_cleanupDone (m_session m) = true)) as [Hd|Hd%not_true_is_false].
  - destruct (done_resting m Hi Hd) as [[] _]. unfold stop_outcome. rewrite Hst, rs_state.
    assert (retryableCleanup (m_session m2) || s_vpnActive (m_session m2) && negb (s_cleanupFailed (m_session m2)) = false) as ->.
    { unfold retryableCleanup. change (s_vpnActive (m_session m2)) with (v_vpnActive (manager_view m2)).
      change (s_cleanupFailed (m_session m2)) with (v_cleanupFailed (manager_view m2)). rewrite Hv. cbn.
      by rewrite rs_failed, rs_vpn, andb_false_r. }
    rewrite andb_false_r. apply (simulated_move _ Stops); [done| |].
    + eapply protocol_to; [by apply p_stop_clean|]. by rewrite view_acknowledge.
    + rewrite state_view, view_acknowledge, <- state_view, Hst. intros He. by rewrite He in rs_state.
  - assert (manager_view (stop_outcome now m2) =
      manager_view m2 <| v_state := StateStopping |> <| v_cleanupFailed := false |>) as Hv2.
    { apply stop_outcome_view. unfold retryableCleanup.
      change (s_vpnActive (m_session m2)) with (v_vpnActive (manager_view m2)).
      change (s_cleanupFailed (m_session m2)) with (v_cleanupFailed (manager_view m2)). rewrite Hv, Hst. cbn.
      destruct (inv_shape _ Hi) as [? []|? []|? []|? ? ? []]; [congruence|right|right|by left].
      - rewrite dm_state, dm_failed, dm_vpn. split; [done|]. by rewrite andb_false_r.
      - rewrite bl_state, bl_failed, Hnet. destruct bl_network as [x Hx]. split; [done|].
        change (s_networkLedger (m_session m1)) with (s_networkLedger (m_session m)).
        rewrite Hx. decide_states. by rewrite orb_true_r. }
    apply (simulated_move _ Stops); [done| |by rewrite state_view, Hv2].
    eapply protocol_to; [by apply p_stop|]. by rewrite Hv2, Hv.
Qed.

Lemma view_close_attempt now m :
  manager_view (close_attempt now m) = manager_view m <| v_state := StateStopping |>.
Proof.
  unfold close_attempt. generalize (bool_decide (s_state (m_session m) = StateFailed)). intros dormant.
  cbv zeta. set (m1 := if _ : bool then alloc_budget _ else _).
  assert (manager_view m1 = manager_view m <| v_state := StateStopping |>) as <-.
  { unfold m1. by case_match. }
  clearbody m1. case_match; [|case_match]; unfold manager_view; session_steps; done.
Qed.

Lemma sim_StopAndWait_begin now m :
  Selecting m -> simulated EvStopAndWait m (StopAndWait_begin now m).
Proof.
  intros Hs. unfold StopAndWait_begin. set (m1 := close_requested m).
  assert (manager_view m1 = manager_view m <| v_closing := true |> <| v_stopRequested := true |>) as Hv by done.
  cbv zeta. destruct (negb _ && _) eqn:Hc; cbn in Hc.
  - split_bools. apply (simulated_move _ Closes); [done| |].
    + eapply protocol_to; [by apply p_close|]. rewrite view_appendLocked, view_close_attempt, Hv.
      unfold manager_view, view_of. cbn. rewrite H, H0. done.
    + by rewrite state_view, view_appendLocked, view_close_attempt.
  - split; [|exact Hs]. exists (Some Closes). split; [done|].
    eapply protocol_to; [by apply p_close|]. rewrite view_appendLocked, Hv.
    unfold manager_view, view_of. cbn.
    by destruct (s_cleanupDone (m_session m)), (s_cleanupFailed (m_session m)).
Qed.

Lemma sim_Resume now m : Inv m -> Selecting m -> simulated EvResume m (Resume now m).1.
Proof.
  intros Hi Hs. unfold Resume. case_match eqn:Hc; [by apply simulated_stutter|].
  case_match eqn:Hd; [by apply simulated_stutter|]. cbn [fst]. split_bools.
  split; [|exact Hs]. exists (Some Resumes). split; [done|].
  eapply protocol_to; [by apply p_resume|]. by_view.
Qed.

Lemma sim_AttachSourceStore_loaded now loaded m ev :
  Selecting m -> simulated ev m (AttachSourceStore_loaded now loaded m).
Proof.
  intros Hs. unfold AttachSourceStore_loaded.
  apply simulated_stutter; [| |done]; destruct loaded as [[url|]|]; cbn; repeat case_match; done.
Qed.

(** ** The worker *)

Section worker.
Context (m : manager) (wid : nat) (k : worker) (ev : event).
Hypothesis Hi : Inv m.
Hypothesis Hs : Selecting m.
Hypothesis Hk : m_workers m !! wid = Some k.

Lemma goto_selecting k' p m1 :
  m_workers m1 = m_workers m -> (selects p = true -> s_state (m_session m1) <> StateConnected) ->
  Selecting (goto wid (k' : worker) p m1).
Proof using Hi Hk.
  intros Hw Hp wid' k1. destruct (the_worker _ _ _ Hi Hk) as [Hone _].
  cbn. rewrite Hw, Hone, insert_singleton_eq. intros [<- <-]%lookup_singleton_Some. exact Hp.
Qed.

(** A piece that moves the worker only. *)
Lemma sim_goto k' p m1 :
  manager_view m1 = manager_view m -> m_workers m1 = m_workers m ->
  (selects p = true -> selects (wk_pc k) = true) -> simulated ev m (goto wid k' p m1).
Proof using Hi Hk Hs.
  intros Hv Hw Hp. split.
  - exists None. split; [done|]. eapply protocol_to; [apply p_stutter|done].
  - apply goto_selecting; [done|]. intros Hsel. rewrite state_view, Hv. eapply Hs; eauto.
Qed.
End worker.

(** A piece that makes the move [a]. *)
Lemma sim_goto_move a m wid k r k' p m1 :
  Inv m -> m_workers m !! wid = Some k -> performs (EvWorker wid r) (Some a) = true ->
  protocol (Some a) (manager_view m) (manager_view m1) -> m_workers m1 = m_workers m ->
  (selects p = true -> s_state (m_session m1) <> StateConnected) ->
  simulated (EvWorker wid r) m (goto wid k' p m1).
Proof.
  intros Hi Hk Ha Hm Hw Hp. split; [by exists (Some a)|by eapply goto_selecting].
Qed.

(** While a candidate is selected and the attempt was not told to stop. *)
Lemma candidate_facts m wid k :
  Inv m -> Selecting m -> m_workers m !! wid = Some k -> selects (wk_pc k) = true ->
  network_up (wk_pc k) = true -> s_state (m_session m) <> StateStopping ->
  selecting (s_state (m_session m)) /\ s_vpnActive (m_session m) = true /\
  s_stopRequested (m_session m) = false.
Proof.
  intros Hi Hs Hk Hsel Hup Hst. destruct (the_worker _ _ _ Hi Hk) as [Hw Hr].
  destruct (not_stopping_facts m wid k Hi Hk Hst) as (Hsr & _ & _).
  assert (in_run (wk_pc k) = true) as Hin.
  { unfold selects in Hsel. by destruct (in_run _). }
  destruct (in_run_facts m wid k Hi Hk Hin) as [c []]. pose proof (Hs _ _ Hk Hsel) as Hc.
  destruct Hr. split_and!; auto. unfold selecting.
  destruct (s_state (m_session m)); try done; auto.
Qed.

Lemma advance_view now g state profile m m' :
  advance now g state profile m = Some m' ->
  s_state (m_session m) <> StateStopping /\ m_workers m' = m_workers m /\
  manager_view m' = manager_view m <| v_state := state |>.
Proof.
  unfold advance. case_match eqn:Hg; [done|]. intros [= <-]. split_bools.
  split; [done|]. by case_match.
Qed.

Section pieces.
Context (m : manager) (wid : nat) (k : worker).
Hypothesis Hi : Inv m.
Hypothesis Hs : Selecting m.
Hypothesis Hk : m_workers m !! wid = Some k.

Lemma sim_advance now r state profile next_pc m1 m2 :
  selects (wk_pc k) = true -> network_up (wk_pc k) = true -> selecting state ->
  advance now (wk_generation k) state profile m = Some m1 ->
  m_workers m2 = m_workers m1 -> m_session m2 = m_session m1 ->
  simulated (EvWorker wid r) m (goto wid k next_pc m2).
Proof using Hi Hs Hk.
  intros Hsel Hup Hst Ha Hw Hse. apply advance_view in Ha as (Hne & Hw1 & Hv).
  destruct (candidate_facts m wid k) as (H1 & H2 & H3); try done.
  assert (manager_view m2 = manager_view m <| v_state := state |>) as Hv2
    by (rewrite <- Hv; unfold manager_view; by rewrite Hse).
  eapply (sim_goto_move Tries); try done.
  - eapply protocol_to; [by apply (p_try _ state)|done].
  - congruence.
  - intros _. rewrite state_view, Hv2. cbn. by destruct Hst as [->| ->].
Qed.

Lemma sim_runStart_candidate r index rest errs :
  wk_pc k = PCandidate index rest errs ->
  simulated (EvWorker wid r) m (runStart_candidate wid k index rest errs m).
Proof using Hi Hs Hk.
  intros Hpc. unfold runStart_candidate. destruct rest as [|profile rest]; [by apply (sim_goto m wid k)|].
  unfold prepareCandidate. destruct index as [|index].
  { apply (sim_goto m wid k); try done. by rewrite Hpc. }
  destruct (_ || _) eqn:Hstop; [by apply (sim_goto m wid k)|]. split_bools.
  destruct (in_run_facts m wid k Hi Hk) as [c Hro]; [by rewrite Hpc|].
  destruct (the_worker _ _ _ Hi Hk) as [Hw Hr].
  assert (s_state (m_session m) <> StateStopping) as Hst.
  { intros He. assert (m_canceled m !! c = Some true) as Hc.
    { by apply (rn_canceled _ _ _ _ Hr He), (ro_cancel _ _ _ _ Hro). }
    unfold ctx_err in *. rewrite (ro_ctx _ _ _ _ Hro), Hc in *. done. }
  destruct (candidate_facts m wid k) as (H1 & H2 & H3); try done; [by rewrite Hpc..|].
  eapply (sim_goto_move Renews); try done.
  - eapply protocol_to; [by apply p_renew|]. by_view.
  - intros _. cbn. by destruct H1 as [->| ->].
Qed.
End pieces.

(** ** The end of an attempt *)

Lemma view_finish_release rel m :
  manager_view (finish_release rel m) =
    if rel then manager_view m <| v_vpnActive := false |> else manager_view m.
Proof. by destruct rel. Qed.

Lemma view_finish_idle now m :
  manager_view (finish_idle now m) = manager_view m <| v_state := StateIdle |>.
Proof. done. Qed.

Lemma view_finish_restart now m :
  manager_view (finish_restart now m) = manager_view m <| v_state := StateProbing |>
    <| v_generation ::= next |> <| v_stopRequested := false |> <| v_cleanupDone := false |>
    <| v_cleanupFailed := false |>.
Proof. unfold finish_restart, manager_view, view_of. case_match; session_steps; done. Qed.

Lemma view_finishProtectedFailure now cause m :
  manager_view (finishProtectedFailureLocked now cause m) = manager_view m <| v_state := StateFailed |>.
Proof. unfold finishProtectedFailureLocked. cbv zeta. by case_match. Qed.

Lemma view_budget_finish m : manager_view (budget_finish m) = manager_view m.
Proof. unfold manager_view. by rewrite session_budget_finish. Qed.

(** [v1] is what is left of the view [v] once its leases were released. *)
Record released_view (v v1 : view) : Prop := mkReleasedView {
  rv_active : attemptActive (v_state v) = true;
  rv_done : v_cleanupDone v = false;
  rv_failed : v_cleanupFailed v = false;
  rv_closing : v_closing v = true -> v_stopRequested v = true;
  rv_view : v1 = v \/ v_stopRequested v = true /\ v1 = v <| v_vpnActive := false |>;
  rv_stop : v_stopRequested v = true -> v_vpnActive v1 = false
}.

Lemma finish_settle_move wid r now cause m v :
  released_view v (manager_view m) ->
  exists a, performs (EvWorker wid r) (Some a) = true /\
    protocol (Some a) v (manager_view (finish_settle now cause m)) /\
    s_state (m_session (finish_settle now cause m)) <> StateConnected.
Proof.
  intros [Hact Hd Hf Hcl Hv Hvpn]. unfold finish_settle.
  set (m1 := on_session _ (budget_finish m)).
  assert (manager_view m1 = manager_view m <| v_cleanupDone := negb (v_vpnActive (manager_view m)) |>) as Hv1.
  { unfold m1, manager_view, view_of. session_steps. done. }
  generalize dependent (manager_view m). intros v1 Hv Hvpn Hv1. cbv zeta. clearbody m1.
  change (s_stopRequested (m_session m1)) with (v_stopRequested (manager_view m1)).
  change (s_closing (m_session m1)) with (v_closing (manager_view m1)).
  change (s_vpnActive (m_session m1)) with (v_vpnActive (manager_view m1)).
  rewrite !state_view, Hv1. cbn [v_stopRequested v_closing v_vpnActive].
  destruct (v_stopRequested _ || v_closing _) eqn:Hstop; cbn in Hstop.
  - assert (v_stopRequested v = true) as Hsr.
    { destruct Hv as [->|[? ->]]; cbn in Hstop; apply orb_true_iff in Hstop as [?|?]; auto. }
    exists Finishes. split; [done|]. rewrite view_finish_idle, Hv1. split; [|done].
    eapply protocol_to; [by apply p_finish|]. specialize (Hvpn Hsr). rewrite Hvpn.
    destruct Hv as [->|[_ ->]]; destruct v; cbn in *; by subst.
  - split_bools. destruct Hv as [->|[? ->]]; [|cbn in *; congruence].
    destruct (_ && _) eqn:Hgo; cbn in Hgo.
    + split_bools. exists Restarts. split; [done|]. rewrite view_finish_restart, Hv1. split; [|done].
      eapply protocol_to; [by apply p_restart|]. destruct v; cbn in *. by subst.
    + exists Fails. split; [done|]. rewrite view_finishProtectedFailure, Hv1. split; [|done].
      eapply protocol_to; [by apply p_fail|]. by destruct v.
Qed.

Lemma sim_finish_commit now m wid k r cause rel cleanupErr :
  Inv m -> m_workers m !! wid = Some k -> wk_pc k = PCommit cause rel cleanupErr ->
  simulated (EvWorker wid r) m (finish_commit now wid k cause rel cleanupErr m).
Proof.
  intros Hi Hk Hpc. destruct (the_worker _ _ _ Hi Hk) as [Hw []]. rewrite Hpc in rn_pc.
  destruct rn_pc as [_ Hrel]. unfold finish_commit.
  assert (m_workers (stop_worker wid m) = ∅) as Hw0 by by eapply stopped_workers.
  replace (s_generation (m_session (stop_worker wid m)) =? wk_generation k)%Z with true.
  2: { symmetry. by apply Z.eqb_eq. }
  cbn [negb]. generalize dependent (is_Some_b cleanupErr || bool_decide (CodeOf cause = FailureCleanup)).
  intros failed. cbv zeta. set (m1 := on_session _ (stop_worker wid m)).
  assert (manager_view m1 = manager_view m <| v_cleanupFailed := failed |>) as Hv1 by done.
  clearbody m1. destruct failed.
  { apply (simulated_move _ Blocks); [done| |done]. eapply protocol_to; [by apply p_block|].
    unfold finish_failed. rewrite view_appendLocked. destruct (manager_view m) eqn:Hm.
    unfold manager_view, view_of in *. cbn in *. congruence. }
  assert (manager_view m <| v_cleanupFailed := false |> = manager_view m) as Hnf.
  { unfold manager_view, view_of. cbn. congruence. }
  pose proof (view_finish_release rel m1) as Hv. rewrite Hv1, Hnf in Hv.
  generalize dependent (finish_release rel m1). intros m2 Hv.
  change (s_stopRequested (m_session m2)) with (v_stopRequested (manager_view m2)).
  change (s_closing (m_session m2)) with (v_closing (manager_view m2)).
  destruct (negb rel && _) eqn:Hagain.
  - destruct rel; [done|]. rewrite Hv in Hagain. cbn in Hagain.
    assert (s_state (m_session m) = StateStopping) as Hst.
    { apply rn_stop. apply orb_true_iff in Hagain as [?|?]; [done|by apply (inv_closing _ Hi)]. }
    split; [|by intros ???]. exists None. split; [done|].
    eapply protocol_to; [apply p_stutter|]. rewrite <- Hv.
    rewrite state_view, <- Hv in Hst. destruct (manager_view m2) eqn:Hm2.
    unfold manager_view, view_of in *. cbn in *. congruence.
  - assert (released_view (manager_view m) (manager_view m2)) as Hrv.
    { rewrite Hv. constructor; try done; [exact (inv_closing _ Hi)| |].
      - destruct rel; [|by left]. destruct Hrel as [_ [?|Hvpn]]; [by right|left].
        unfold manager_view, view_of. cbn. congruence.
      - intros Hsr. destruct rel; [done|]. rewrite Hv, Hsr in Hagain. done. }
    destruct (finish_settle_move wid r now cause m2 _ Hrv) as (a & Ha & Hm & Hc).
    by apply (simulated_move _ a).
Qed.

Lemma prepareHealthRecovery_view now g cause s :
  view_of (prepareHealthRecoveryLocked now g cause s) = view_of s.
Proof.
  unfold prepareHealthRecoveryLocked, queueRecovery, forgiveStable. repeat case_match; done.
Qed.

Lemma reportHealthFailure_view now g cause m :
  reportHealthFailure now g cause m = m \/
  s_state (m_session m) = StateConnected /\
  manager_view (reportHealthFailure now g cause m) = manager_view m <| v_state := StateStopping |>.
Proof.
  unfold reportHealthFailure. case_match eqn:Hg; [by left|right]. split_bools. split; [done|].
  set (c := match cause with Some c => c | None => _ end). clearbody c.
  unfold manager_view. rewrite cancel_if_set_session.
  pose proof (prepareHealthRecovery_view now g c (m_session m)) as Hv.
  unfold view_of in *. cbn in *. congruence.
Qed.

Lemma sim_waitForAttemptEnd now m wid k fo r m' :
  Inv m -> Selecting m -> m_workers m !! wid = Some k -> wk_pc k = PWait fo ->
  waitForAttemptEnd now wid k fo r m = Some m' -> simulated (EvWorker wid r) m m'.
Proof.
  intros Hi Hs Hk Hpc. unfold waitForAttemptEnd.
  repeat case_match; intros [= <-]; try by apply (sim_goto m wid k).
  all: try by apply simulated_stutter.
  match goal with |- context [reportHealthFailure ?t ?g ?c m] =>
    destruct (reportHealthFailure_view t g c m) as [->|[Hc Hv]];
    pose proof (reportHealthFailure_workers m t g c) as Hw end.
  - by apply (sim_goto m wid k).
  - eapply (sim_goto_move Degrades); try done. eapply protocol_to; [by apply p_degrade|done].
Qed.

Lemma acquire_workers kind granted w m : m_workers (acquire kind granted w m) = m_workers m.
Proof. destruct granted; [|done]. by destruct w. Qed.

Lemma acquire_view kind granted w m : manager_view (acquire kind granted w m) = manager_view m.
Proof. unfold manager_view. by rewrite session_acquire. Qed.

Lemma release_step_view work closeErr m m' err :
  release_step work closeErr m = Some (m', err) ->
  manager_view m' = manager_view m /\ m_workers m' = m_workers m.
Proof. intros (l & tl & _ & H)%release_step_spec. by destruct closeErr; destruct H as [? ?]; subst. Qed.

Section worker_step.
Context (now : Z) (m : manager) (wid : nat) (k : worker).
Hypothesis Hi : Inv m.
Hypothesis Hs : Selecting m.
Hypothesis Hk : m_workers m !! wid = Some k.

Lemma sim_prepareNetwork_commit r :
  wk_pc k = PNetworkUp -> simulated (EvWorker wid r) m (prepareNetwork_commit now wid k m).
Proof using Hi Hs Hk.
  intros Hpc. unfold prepareNetwork_commit. set (m1 := on_session _ m).
  assert (s_state (m_session m) <> StateConnected) as Hc by (eapply Hs; [done|by rewrite Hpc]).
  destruct (s_vpnActive (m_session m)) eqn:Hv.
  - apply (sim_goto m wid k); try done.
    + rewrite view_appendLocked. unfold m1, manager_view, view_of. cbn. by rewrite Hv.
    + by rewrite Hpc.
  - eapply (sim_goto_move Protects); try done.
    eapply protocol_to; [apply p_protect; [|done]|done].
    by destruct (the_worker _ _ _ Hi Hk) as [_ []].
Qed.

Lemma sim_runStart_advance r index profile rest errs :
  wk_pc k = PAdvance index profile rest errs ->
  simulated (EvWorker wid r) m (runStart_advance now wid k index profile rest errs m).
Proof using Hi Hs Hk.
  intros Hpc. unfold runStart_advance. set (st := if _ : bool then _ else _).
  destruct (advance _ _ _ _ _) as [m1|] eqn:Ha; [|by apply (sim_goto m wid k)].
  eapply sim_advance; [done..|by rewrite Hpc|by rewrite Hpc| |exact Ha|done|done].
  unfold st, selecting. case_match; auto.
Qed.

Lemma sim_runStart_started r index profile rest errs granted err :
  wk_pc k = PStarting index profile rest errs ->
  simulated (EvWorker wid r) m (runStart_started wid k index profile rest errs granted err m).
Proof using Hi Hs Hk.
  intros Hpc. unfold runStart_started.
  pose proof (acquire_view AttemptLease granted (s_ledger (m_session m)) m) as Hv.
  pose proof (acquire_workers AttemptLease granted (s_ledger (m_session m)) m) as Hw.
  generalize dependent (acquire AttemptLease granted (s_ledger (m_session m)) m). intros m1 Hv Hw.
  cbv zeta. set (err' := if _ : bool then _ else err). clearbody err'.
  assert (forall p, simulated (EvWorker wid r) m (goto wid k p m1)) as Hgo.
  { intros p. apply (sim_goto m wid k); try done. by rewrite Hpc. }
  repeat case_match; apply Hgo.
Qed.

Lemma sim_runStart_connect r profile :
  wk_pc k = PConnect profile -> simulated (EvWorker wid r) m (runStart_connect now wid k profile m).
Proof using Hi Hs Hk.
  intros Hpc. unfold runStart_connect.
  destruct (advance _ _ _ _ _) as [m1|] eqn:Ha; [|by apply (sim_goto m wid k)].
  apply advance_view in Ha as (Hne & Hw & Hv).
  destruct (candidate_facts m wid k) as (H1 & H2 & H3); try done; [by rewrite Hpc..|].
  eapply (sim_goto_move Connects); try done. eapply protocol_to; [by apply p_connect|done].
Qed.

Lemma sim_worker_step r m' :
  worker_step now wid k r m = Some m' -> simulated (EvWorker wid r) m m'.
Proof using Hi Hs Hk.
  unfold worker_step.
  assert (forall ev m1 p, manager_view m1 = manager_view m -> m_workers m1 = m_workers m ->
    (selects p = true -> selects (wk_pc k) = true) -> simulated ev m (goto wid k p m1)) as Hgo.
  { intros. by apply (sim_goto m wid k). }
  destruct (wk_pc k) eqn:Hpc; intros Hst;
    lazymatch type of Hst with
    | waitForAttemptEnd _ _ _ _ _ _ = _ => idtac
    | _ => destruct r; try discriminate Hst; try injection Hst as <-
    end.
  - unfold prepareNetwork_begin. repeat case_match; try by apply Hgo. all: by apply simulated_stutter.
  - unfold prepareNetwork_tunnel. pose proof (acquire_view PlatformLease granted work m).
    pose proof (acquire_workers PlatformLease granted work m). repeat case_match; by apply Hgo.
  - unfold prepareNetwork_runtime. pose proof (acquire_view NetworkLease granted work m).
    pose proof (acquire_workers NetworkLease granted work m). repeat case_match; by apply Hgo.
  - by apply sim_prepareNetwork_commit.
  - unfold prepareNetwork_check. case_match; by apply Hgo.
  - unfold runStart_profiles. repeat case_match; try by apply Hgo. by apply simulated_stutter.
  - by apply sim_runStart_candidate.
  - by apply sim_runStart_advance.
  - by apply sim_runStart_started.
  - unfold runStart_cleanup. case_match; [|by apply simulated_stutter].
    apply Hgo; [apply view_cleanupContext|apply workers_cleanupContext|done].
  - destruct (ledger_empty work m); [|done]. injection Hst as <-. by apply Hgo.
  - destruct (release_step work err m) as [[m1 [e|]]|] eqn:Hrel; try discriminate Hst; injection Hst as <-.
    all: apply release_step_view in Hrel as [Hv Hw].
    + by apply Hgo.
    + by apply simulated_stutter.
  - unfold runStart_next. repeat case_match; by apply Hgo.
  - by apply sim_runStart_connect.
  - by eapply sim_waitForAttemptEnd.
  - unfold finish_begin. case_match; [|by apply Hgo].
    split; [exists None; split; [done|apply p_stutter]|].
    intros w' k'. cbn. intros Hl Hsel. apply lookup_delete_Some in Hl as [_ Hl]. by apply (Hs w' k').
  - unfold retire_begin. repeat case_match; apply Hgo; try done.
    + apply view_cleanupContext.
    + apply workers_cleanupContext.
  - destruct (ledger_empty work m); [|done]. injection Hst as <-. by apply Hgo.
  - destruct (release_step work err m) as [[m1 [e|]]|] eqn:Hrel; try discriminate Hst; injection Hst as <-.
    all: apply release_step_view in Hrel as [Hv Hw].
    + by apply Hgo.
    + by apply simulated_stutter.
  - unfold retire_network. repeat case_match; by apply Hgo.
  - apply Hgo; [apply view_cleanupContext|apply workers_cleanupContext|done].
  - destruct (ledger_empty network m); [|done]. injection Hst as <-. by apply Hgo.
  - destruct (release_step network err m) as [[m1 [e|]]|] eqn:Hrel; try discriminate Hst; injection Hst as <-.
    all: apply release_step_view in Hrel as [Hv Hw].
    + by apply Hgo.
    + by apply simulated_stutter.
  - by apply sim_finish_commit.
Qed.
End worker_step.

(** ** The simulation *)

Section machine.
Context `{ConfigParser}.

Lemma sim_step now ev m m' :
  Inv m -> Selecting m -> step now ev m = Some m' -> simulated ev m m'.
Proof.
  intros Hi Hs. unfold step. destruct (m_panic m); [done|]. destruct ev.
  - intros [= <-]. by apply sim_Configure_begin.
  - case_match; [|done]. intros [= <-]. by apply simulated_stutter.
  - case_match; [|done]. destruct (parseConfig (lc_Raw loaded)); intros [= <-].
    + pose proof (Inv_inflight (List.remove Z.eq_dec request) m Hi) as Hi1.
      exact (sim_Configure_accept now ctxErr request loaded _ io _ ctxErr loaded io Hi1 Hs).
    + by apply simulated_stutter.
  - intros [= <-]. by apply sim_Start_locked.
  - intros [= <-]. by apply sim_Stop.
  - intros [= <-]. by apply sim_StopAndWait_begin.
  - intros [= <-]. apply simulated_stutter; [apply view_cleanupContext|apply workers_cleanupContext|done].
  - intros [= <-]. by apply sim_Resume.
  - intros [= <-]. unfold AttachSourceStore_install. case_match; by apply simulated_stutter.
  - intros [= <-]. by apply sim_AttachSourceStore_loaded.
  - destruct (m_workers m !! wid) as [k|] eqn:Hk; [|done]. by apply sim_worker_step.
Qed.

Lemma sim_run evs m m' :
  Inv m -> Selecting m -> run evs m = Some m' ->
  exists acts, Forall2 (fun ev a => performs ev.2 a = true) evs acts /\
    behaves acts (manager_view m) (manager_view m').
Proof.
  revert m. induction evs as [|[now ev] evs IH]; intros m Hi Hs Hr; cbn in Hr.
  { injection Hr as <-. exists []. split; constructor. }
  destruct (step now ev m) as [m1|] eqn:Hst; [|done].
  destruct (sim_step _ _ _ _ Hi Hs Hst) as [(a & Ha & Hm) Hs1].
  destruct (IH m1) as (acts & Hp & Hb); [by eapply Inv_step|done|done|].
  exists (a :: acts). split; [by constructor|by econstructor].
Qed.

Lemma Selecting_NewManager id initErr nr store saved : Selecting (NewManager id initErr nr store saved).
Proof. intros wid k Hk. unfold NewManager in Hk. by destruct store; [destruct saved|]. Qed.

Lemma view_NewManager id initErr nr store saved :
  manager_view (NewManager id initErr nr store saved) = initial.
Proof. unfold NewManager. by destruct store; [destruct saved|]. Qed.
End machine.

(** C2: every history of the manager is a run of the abstract session protocol:
    seen through the snapshot fields and the three fences, each event makes at
    most the one move its caller may make, or none. So only a start takes a
    network generation, protection is only given up by the move that ends a
    stopped attempt in IDLE, CONNECTED is only reached by a protected candidate
    nobody stopped, and an attempt that ends otherwise is restarted behind its
    network, fails, or is blocked until a stop retries its cleanup. *)
Theorem manager_refines_the_protocol `{ConfigParser} (id : string) (initErr : option gerr)
    (networkRuntime : bool) (store : option sourceStore) (saved : result string gerr)
    (evs : list (Z * event)) (m : manager) :
  run evs (NewManager id initErr networkRuntime store saved) = Some m ->
  exists acts, Forall2 (fun ev a => performs ev.2 a = true) evs acts /\
    behaves acts initial (manager_view m).
Proof.
  intros Hr. rewrite <- (view_NewManager id initErr networkRuntime store saved).
  eapply sim_run; [apply Inv_NewManager|apply Selecting_NewManager|done].
Qed.

Lemma manager_refines_the_protocol_witness :
  exists acts, Forall2 (fun ev a => performs ev.2 a = true) (timed history) acts /\
    behaves acts initial (mkView StateIdle 2 1 false true false true false).
Proof.
  apply (manager_refines_the_protocol "owner" None true None (Ok "") (timed history) idle).
  vm_compute. reflexivity.
Defined.
