(* ===== verification/Published.v ===== *)
(** * Every change a waiter may wait for is published

    [waitForRestoredNetwork] and the snapshot watchers sleep on the session's
    [changed] channel, which [appendLocked] replaces.  A step that publishes
    nothing leaves what a client sees as it was, but for a candidate's new
    generation behind an active network and the mark of a stop that comes while
    the session already stops or rests. *)

From S2P Require Import Prelude Errors Values Session Activation Manager Worker Ownership Invariant InvariantApi InvariantWorker Effects Protocol Refinement.

Notation changed m := (s_changed (m_session m)).

Inductive unseen : view -> view -> Prop :=
| unseen_same v : unseen v v
| unseen_renew v : v_vpnActive v = true -> unseen v (v <| v_generation ::= next |>)
| unseen_stop v :
    v_cleanupDone v = true \/ v_state v = StateStopping -> unseen v (v <| v_stopRequested := true |>).

(** A step published, or changed nothing a sleeper waits for. *)
Definition told (m m' : manager) : Prop :=
  changed m < changed m' \/ changed m' = changed m /\ unseen (manager_view m) (manager_view m').

Lemma told_same m m' : changed m' = changed m -> manager_view m' = manager_view m -> told m m'.
Proof. intros H1 H2. right. split; [done|]. rewrite H2. constructor. Qed.

Lemma changed_appendLocked now m : changed (appendLocked now m) = S (changed m).
Proof. done. Qed.

Lemma changed_on_session f m : (forall s, s_changed (f s) = s_changed s) -> changed (on_session f m) = changed m.
Proof. intros H. apply H. Qed.

Ltac publishes := left; session_steps; lia.

Section told.
Context (m : manager).

Lemma changed_cleanupContext now : changed (cleanupContext now m) = changed m.
Proof. unfold cleanupContext, budget_begin. by repeat case_match. Qed.

Lemma told_cleanupContext now : told m (cleanupContext now m).
Proof. apply told_same; [apply changed_cleanupContext|apply view_cleanupContext]. Qed.

Lemma told_Configure_begin ctxErr seq : told m (Configure_begin ctxErr seq m).1.
Proof. unfold Configure_begin. case_match; by apply told_same. Qed.

Lemma told_Configure_accept now ctxErr request loaded parsed io :
  told m (Configure_accept now ctxErr request loaded parsed io m).1.
Proof.
  unfold Configure_accept. case_match; [by apply told_same|].
  destruct (saveSource_store loaded io m) as [t Ht].
  destruct (saveSource loaded io m) as [m1 err]. cbn [fst] in Ht. subst m1.
  destruct err; [by apply told_same|]. cbv zeta. cbn [fst].
  set (m1 := on_session _ _).
  assert (changed m1 = changed m) as E.
  { subst m1. rewrite changed_on_session by (by intros []). done. }
  clearbody m1. set (m2 := if _ && _ : bool then _ else m1). assert (changed m2 = changed m) as E2.
  { subst m2. case_match; [|done]. by rewrite changed_on_session by (by intros []). }
  clearbody m2. left. rewrite changed_appendLocked. case_match; [rewrite session_retainPolicy|]; lia.
Qed.

Lemma told_retryLocked now target supplied : told m (retryLocked now target supplied m).1.
Proof. unfold retryLocked. case_match; [by apply told_same|]. cbv zeta. cbn [fst]. publishes. Qed.

Lemma told_replaceLocked now io target : told m (replaceLocked now io target m).1.
Proof.
  unfold replaceLocked. case_match; [by apply told_same|].
  destruct (saveActivationLocked_store io target m) as [t Ht].
  destruct (saveActivationLocked io target m) as [m1 err]. cbn [fst] in Ht. subst m1.
  destruct err; [by apply told_same|]. cbv zeta. cbn [fst]. publishes.
Qed.

Lemma told_Start_locked now io seq target supplied : told m (Start_locked now io seq target supplied m).1.
Proof.
  unfold Start_locked. case_match; [by apply told_same|]. case_match; [by apply told_same|].
  destruct (canRetry _); [by apply told_retryLocked|].
  destruct (validateStartTarget _ _); [by apply told_same|].
  destruct (configurationBlocked _); [by apply told_replaceLocked|].
  destruct (saveActivationLocked_store io target m) as [t Ht].
  destruct (saveActivationLocked io target m) as [m1 err]. cbn [fst] in Ht. subst m1.
  destruct err; [by apply told_same|]. cbv zeta. cbn [fst]. publishes.
Qed.

Lemma told_Resume now : told m (Resume now m).1.
Proof. unfold Resume. case_match; [by apply told_same|]. case_match; [by apply told_same|]. publishes. Qed.

Lemma told_StopAndWait_begin now : told m (StopAndWait_begin now m).
Proof.
  unfold StopAndWait_begin. cbv zeta. set (m1 := if _ : bool then _ else _).
  assert (changed m1 = changed m) as E; [|left; session_steps; lia].
  subst m1. case_match; [|done]. unfold close_attempt. cbv zeta. set (m1 := if _ : bool then alloc_budget _ else _).
  assert (changed m1 = changed m) as E by (subst m1; by case_match). clearbody m1.
  case_match; [session_steps; done|]. case_match; session_steps; done.
Qed.

Lemma told_AttachSourceStore_loaded now loaded : told m (AttachSourceStore_loaded now loaded m).
Proof.
  unfold AttachSourceStore_loaded. cbv zeta. set (m1 := match loaded with Ok _ => _ | Err _ => _ end).
  assert (changed m1 = changed m) as E; [|publishes]. subst m1.
  destruct loaded as [[url|]|]; [|done..]. case_match; [|done]. by case_match.
Qed.

(** *** Stop *)

Lemma changed_stop_requested now : changed m <= changed (stop_requested now m).
Proof. unfold stop_requested. case_match; session_steps; lia. Qed.

Lemma changed_stop_outcome now :
  changed m <= changed (stop_outcome now m) /\
  (s_state (m_session m) <> StateStopping -> attemptActive (s_state (m_session m)) = true \/
     bool_decide (s_state (m_session m) = StateFailed) && (retryableCleanup (m_session m) ||
     s_vpnActive (m_session m) && negb (s_cleanupFailed (m_session m))) = true ->
   changed m < changed (stop_outcome now m)).
Proof.
  unfold stop_outcome. destruct (attemptActive _) eqn:Ha.
  - unfold stop_attempt. set (m1 := if _ : bool then on_session _ m else m).
    assert (changed m1 = changed m /\ s_state (m_session m1) = s_state (m_session m)) as [E Es]
      by (subst m1; by case_match).
    clearbody m1. rewrite Es. case_bool_decide as Hst; cbn [negb].
    + split; [lia|done].
    + session_steps. split; [lia|intros; lia].
  - destruct (_ && _).
    + unfold stop_retained. destruct (retryableCleanup _); session_steps; split; intros; lia.
    + unfold acknowledgeStoppedLocked. split; [|by intros _ [|]]. repeat case_match; session_steps; lia.
Qed.
End told.

Lemma told_Stop now loadErr io generation m :
  Inv m -> told m (Stop now loadErr io generation m).1.1.
Proof.
  intros Hi. destruct (acceptsStop (m_session m) generation) eqn:Ha.
  2: { unfold Stop. rewrite Ha. by apply told_same. }
  destruct (stopActivationLocked_store loadErr io m) as [t Ht].
  destruct (stopActivationLocked loadErr io m) as [m1 err] eqn:Hst. cbn [fst] in Ht. subst m1.
  rewrite (Stop_outcome _ _ _ _ _ _ _ Ha Hst). clear Hst. set (m1 := m <| m_sourceStore := t |>).
  pose proof (view_stop_requested now m1) as Hv. change (manager_view m1) with (manager_view m) in Hv.
  pose proof (changed_stop_requested m1 now) as Hch. change (changed m1) with (changed m) in Hch.
  pose proof (fr_network _ _ (frame_stop_requested now m1)) as Hnet.
  generalize dependent (stop_requested now m1). intros m2 Hv Hch Hnet.
  destruct (changed_stop_outcome m2 now) as [Hle Hlt].
  assert (s_state (m_session m2) = s_state (m_session m)) as Hst by by rewrite !state_view, Hv.
  assert (changed m = changed (stop_outcome now m2) \/ changed m < changed (stop_outcome now m2)) as [E|?] by lia;
    [right; split; [done|]|by left].
  destruct (decide (s_cleanupDone (m_session m) = true)) as [Hd|Hd%not_true_is_false].
  - destruct (done_resting m Hi Hd) as [[] _]. unfold stop_outcome. rewrite Hst, rs_state.
    assert (retryableCleanup (m_session m2) || s_vpnActive (m_session m2) && negb (s_cleanupFailed (m_session m2)) = false) as ->.
    { unfold retryableCleanup. change (s_vpnActive (m_session m2)) with (v_vpnActive (manager_view m2)).
      change (s_cleanupFailed (m_session m2)) with (v_cleanupFailed (manager_view m2)). rewrite Hv. cbn.
      by rewrite rs_failed, rs_vpn, andb_false_r. }
    rewrite andb_false_r, view_acknowledge, Hv. by apply unseen_stop; left.
  - assert (attemptActive (s_state (m_session m2)) = true \/
      s_state (m_session m2) = StateFailed /\ retryableCleanup (m_session m2) || s_vpnActive (m_session m2) && negb (s_cleanupFailed (m_session m2)) = true) as Hout.
    { rewrite Hst. unfold retryableCleanup.
      change (s_vpnActive (m_session m2)) with (v_vpnActive (manager_view m2)).
      change (s_cleanupFailed (m_session m2)) with (v_cleanupFailed (manager_view m2)). rewrite Hv, Hst. cbn.
      destruct (inv_shape _ Hi) as [? []|? []|? []|? ? ? []]; [congruence|right|right|by left].
      - rewrite dm_state, dm_failed, dm_vpn. split; [done|]. by rewrite andb_false_r.
      - rewrite bl_state, bl_failed, Hnet. destruct bl_network as [x Hx]. split; [done|].
        change (s_networkLedger (m_session m1)) with (s_networkLedger (m_session m)).
        rewrite Hx. decide_states. by rewrite orb_true_r. }
    destruct (decide (s_state (m_session m) = StateStopping)) as [Hs|Hs].
    + assert (manager_view (stop_outcome now m2) = manager_view m <| v_stopRequested := true |>) as ->; [|by apply unseen_stop; right].
      destruct (inv_shape _ Hi) as [? []|? []|? []|? ? ? []]; try congruence.
      rewrite stop_outcome_view.
      * rewrite Hv. unfold manager_view, view_of. cbn. by rewrite Hs, rn_failed.
      * left. rewrite Hst, Hs. split; [done|].
        change (s_cleanupFailed (m_session m2)) with (v_cleanupFailed (manager_view m2)). by rewrite Hv.
    + exfalso. assert (changed m2 < changed (stop_outcome now m2)); [|lia]. apply Hlt; [congruence|].
      destruct Hout as [?|[Hf Hr]]; [by left|right]. rewrite Hf, Hr. by decide_states.
Qed.

(** *** The worker *)

Lemma told_goto m wid k p m1 : told m m1 -> told m (goto wid k p m1).
Proof. done. Qed.

Lemma advance_told now g state profile m m' : advance now g state profile m = Some m' -> changed m < changed m'.
Proof.
  unfold advance. case_match; [done|]. intros [= <-]. rewrite changed_appendLocked.
  case_match; rewrite !changed_on_session by (by intros []); lia.
Qed.

Lemma acquire_told kind granted w m : told m (acquire kind granted w m).
Proof. apply told_same; [by rewrite session_acquire|apply acquire_view]. Qed.

Lemma release_step_changed work closeErr m m' err :
  release_step work closeErr m = Some (m', err) -> told m m'.
Proof.
  intros Hr. destruct (release_step_view _ _ _ _ _ Hr) as [Hv _]. apply told_same; [|done].
  unfold release_step in Hr. repeat case_match; simplify_eq; done.
Qed.

Lemma told_reportHealthFailure now g cause m : told m (reportHealthFailure now g cause m).
Proof.
  unfold reportHealthFailure. case_match; [by apply told_same|]. left. rewrite cancel_if_set_session, changed_appendLocked.
  rewrite changed_on_session by (by intros []). rewrite changed_on_session; [lia|].
  intros s. unfold prepareHealthRecoveryLocked, queueRecovery, forgiveStable. repeat case_match; by destruct s.
Qed.

Lemma told_finish_settle now cause m : changed m < changed (finish_settle now cause m).
Proof.
  unfold finish_settle. set (m1 := on_session _ (budget_finish m)).
  assert (changed m1 = changed m) as <-.
  { subst m1. rewrite changed_on_session by (by intros []). by rewrite session_budget_finish. }
  clearbody m1. cbv zeta. case_match; [|case_match].
  - unfold finish_idle. rewrite changed_appendLocked, changed_on_session by (by intros []). lia.
  - unfold finish_restart. destruct (s_pending (m_session m1)); session_steps; lia.
  - unfold finishProtectedFailureLocked. cbv zeta. destruct (if negb _ then _ else _) as [code message].
    rewrite changed_appendLocked, changed_on_session by (by intros []). lia.
Qed.

Lemma view_stopping m :
  s_state (m_session m) = StateStopping ->
  manager_view (on_session (fun s => s <| s_state := StateStopping |>) m) = manager_view m.
Proof. intros H. unfold manager_view, view_of. cbn. by rewrite H. Qed.

Lemma told_finish_commit now wid k cause rel cleanupErr m :
  Inv m -> m_workers m !! wid = Some k -> wk_pc k = PCommit cause rel cleanupErr ->
  told m (finish_commit now wid k cause rel cleanupErr m).
Proof.
  intros Hi Hk Hpc. destruct (the_worker _ _ _ Hi Hk) as [Hw []]. rewrite Hpc in rn_pc.
  unfold finish_commit. case_match; [by apply told_same|].
  generalize dependent (is_Some_b cleanupErr || bool_decide (CodeOf cause = FailureCleanup)).
  intros failed. cbv zeta. set (m1 := on_session _ (stop_worker wid m)).
  assert (manager_view m1 = manager_view m <| v_cleanupFailed := failed |>) as Hv1 by done.
  assert (changed m1 = changed m) as Hc1 by (subst m1; by rewrite changed_on_session by (by intros [])).
  clearbody m1. destruct failed.
  { left. unfold finish_failed. rewrite changed_appendLocked, changed_on_session by (by intros []). lia. }
  assert (changed (finish_release rel m1) = changed m) as Hc.
  { unfold finish_release. destruct rel; rewrite !changed_on_session by (by intros []); done. }
  pose proof (view_finish_release rel m1) as Hv. rewrite Hv1 in Hv.
  generalize dependent (finish_release rel m1). intros m2 Hc Hv.
  destruct (negb rel && _) eqn:Hagain; [|left; rewrite <- Hc; apply told_finish_settle].
  destruct rel; [done|].
  assert (manager_view m <| v_cleanupFailed := false |> = manager_view m) as Hnf.
  { unfold manager_view, view_of. cbn. congruence. }
  assert (s_state (m_session m) = StateStopping) as Hst.
  { change (s_stopRequested (m_session m2)) with (v_stopRequested (manager_view m2)) in Hagain.
    change (s_closing (m_session m2)) with (v_closing (manager_view m2)) in Hagain. rewrite Hv in Hagain. cbn in Hagain.
    apply rn_stop. apply orb_true_iff in Hagain as [?|?]; [done|by apply (inv_closing _ Hi)]. }
  rewrite state_view, <- Hnf, <- Hv, <- state_view in Hst. apply told_same.
  - unfold spawn_finish. rewrite session_spawn, changed_on_session by (by intros []). done.
  - unfold spawn_finish. change (manager_view (spawn ?x ?y)) with (manager_view y).
    rewrite view_stopping by done. by rewrite Hv.
Qed.

Section worker_told.
Context (now : Z) (m : manager) (wid : nat) (k : worker).
Hypothesis Hi : Inv m.
Hypothesis Hk : m_workers m !! wid = Some k.

Lemma told_runStart_candidate index rest errs :
  wk_pc k = PCandidate index rest errs -> told m (runStart_candidate wid k index rest errs m).
Proof using Hi Hk.
  intros Hpc. unfold runStart_candidate. destruct rest as [|profile rest]; [by apply told_same|].
  unfold prepareCandidate. destruct index as [|index]; [by apply told_same|].
  destruct (_ || _); [by apply told_same|]. right. split; [done|].
  destruct (in_run_facts m wid k Hi Hk) as [c []]; [by rewrite Hpc|].
  assert (s_vpnActive (m_session m) = true) as Hv by (apply ro_vpn; by rewrite Hpc).
  exact (unseen_renew (manager_view m) Hv).
Qed.

Lemma told_worker_step r m' : worker_step now wid k r m = Some m' -> told m m'.
Proof using Hi Hk.
  unfold worker_step. pose proof (told_same m m eq_refl eq_refl) as Hsame.
  destruct (wk_pc k) eqn:Hpc; intros Hst;
    lazymatch type of Hst with
    | waitForAttemptEnd _ _ _ _ _ _ = _ => idtac
    | _ => destruct r; try discriminate Hst; try injection Hst as <-
    end.
  - unfold prepareNetwork_begin. repeat case_match; by apply told_same.
  - pose proof (acquire_told PlatformLease granted work m). unfold prepareNetwork_tunnel. by repeat case_match.
  - pose proof (acquire_told NetworkLease granted work m). unfold prepareNetwork_runtime. by repeat case_match.
  - left. unfold prepareNetwork_commit. cbv zeta. rewrite session_goto, changed_appendLocked, changed_on_session by (by intros []). lia.
  - unfold prepareNetwork_check. by case_match.
  - unfold runStart_profiles. by repeat case_match.
  - by apply told_runStart_candidate.
  - unfold runStart_advance. cbv zeta. destruct (advance _ _ _ _ _) as [m1|] eqn:Ha; [|done].
    left. exact (advance_told _ _ _ _ _ _ Ha).
  - pose proof (acquire_told AttemptLease granted (s_ledger (m_session m)) m). unfold runStart_started.
    generalize dependent (acquire AttemptLease granted (s_ledger (m_session m)) m). intros m1 H. cbv zeta.
    by repeat case_match.
  - unfold runStart_cleanup. case_match; [|done]. apply told_cleanupContext.
  - destruct (ledger_empty work m); [|done]. by injection Hst as <-.
  - destruct (release_step work err m) as [[m1 [e|]]|] eqn:Hrel; try discriminate Hst; injection Hst as <-;
      by apply release_step_changed in Hrel.
  - unfold runStart_next. by repeat case_match.
  - unfold runStart_connect. destruct (advance _ _ _ _ _) as [m1|] eqn:Ha; [|done].
    left. exact (advance_told _ _ _ _ _ _ Ha).
  - unfold waitForAttemptEnd in Hst. repeat case_match; simplify_eq; try done. apply told_reportHealthFailure.
  - unfold finish_begin. by case_match.
  - unfold retire_begin. repeat case_match; try done. apply told_cleanupContext.
  - destruct (ledger_empty work m); [|done]. by injection Hst as <-.
  - destruct (release_step work err m) as [[m1 [e|]]|] eqn:Hrel; try discriminate Hst; injection Hst as <-;
      by apply release_step_changed in Hrel.
  - unfold retire_network. by repeat case_match.
  - apply told_cleanupContext.
  - destruct (ledger_empty network m); [|done]. by injection Hst as <-.
  - destruct (release_step network err m) as [[m1 [e|]]|] eqn:Hrel; try discriminate Hst; injection Hst as <-;
      by apply release_step_changed in Hrel.
  - by apply told_finish_commit.
Qed.
End worker_told.

Section machine.
Context `{ConfigParser}.

Lemma told_step now ev m m' : Inv m -> step now ev m = Some m' -> told m m'.
Proof.
  intros Hi. unfold step. destruct (m_panic m); [done|]. destruct ev.
  - intros [= <-]. apply told_Configure_begin.
  - case_match; [|done]. intros [= <-]. by apply told_same.
  - case_match; [|done]. destruct (parseConfig (lc_Raw loaded)) as [parsed|]; intros [= <-]; [|by apply told_same].
    set (m1 := m <| m_inflight ::= List.remove Z.eq_dec request |>). change (told m1 (Configure_accept now ctxErr request loaded parsed io m1).1).
    apply told_Configure_accept.
  - intros [= <-]. apply told_Start_locked.
  - intros [= <-]. by apply told_Stop.
  - intros [= <-]. apply told_StopAndWait_begin.
  - intros [= <-]. apply told_cleanupContext.
  - intros [= <-]. apply told_Resume.
  - intros [= <-]. unfold AttachSourceStore_install. case_match; by apply told_same.
  - intros [= <-]. apply told_AttachSourceStore_loaded.
  - destruct (m_workers m !! wid) as [k|] eqn:Hk; [|done]. by apply told_worker_step.
Qed.

Lemma changed_run evs m m' : Inv m -> run evs m = Some m' -> changed m <= changed m'.
Proof.
  revert m. induction evs as [|[now ev] evs IH]; intros m Hi Hr; cbn in Hr; [by simplify_eq|].
  destruct (step now ev m) as [m1|] eqn:Hst; [|done].
  pose proof (IH m1 (Inv_step _ _ _ _ Hi Hst) Hr). destruct (told_step _ _ _ _ Hi Hst) as [?|[? _]]; lia.
Qed.
End machine.
