(* ===== verification/Restore.v ===== *)
(** * Automatic activation (core/sessionapi/restore.go, [Restore])

    The operating system's entry point: it reads the saved selection, configures
    the saved URL again, starts the selection and waits for protection.  It is a
    client of the session API, cut where it leaves the session's lock, so the
    API and the attempt's goroutine run between its steps. *)

From S2P Require Import Prelude Errors Values Session Activation Manager Worker.

(** What one step of [Restore] meets: the clock, its context, the answer of
    [LoadActivation], of [loadConfig] for the saved URL, of the store. *)
Record restoreAnswer := mkRestoreAnswer {
  ra_now : Z;
  ra_ctx : option gerr;
  ra_loadErr : option gerr;
  ra_loaded : result LoadedConfig gerr;
  ra_io : io_reply
}.

Inductive restorePlace :=
| RestoreEnters
| RestoreLoads (sequence : Z) (source : string)
| RestoreConfigures (saved : savedActivation) (sequence : Z)
| RestoreParses (saved : savedActivation) (request : Z)
| RestoreStarts (saved : savedActivation) (configured : ConfigureResult)
| RestoreWaits (started : GenerationResult)
| RestoreSleeps (started : GenerationResult) (changed : nat)
| RestoreReturned (result : GenerationResult) (err : option gerr).

Definition noResult : GenerationResult := mkGenerationResult 0 0.

(** [return StartResult{}, err] *)
Definition refused (err : gerr) : restorePlace := RestoreReturned noResult (Some err).

(** The head of one turn of [waitForRestoredNetwork]: [Some] when it returns. *)
Definition restoredNetwork (expectedGeneration : Z) (s : session) : option (option gerr) :=
  let stopped := s_stopRequested s || s_cleanupDone s in
  if s_vpnActive s && negb (s_closing s) && negb stopped then Some None
  else if bool_decide (s_state s = StateFailed) || s_closing s || stopped
  then Some (Some (EText ("automatic activation failed: " +:+ s_lastFailureMessage s)))
  else if negb (s_generation s =? expectedGeneration)%Z
  then Some (Some (failure FailureStaleGeneration "automatic activation was replaced"))
  else None.

Section restore.
Context `{ConfigParser} (onlyPreviouslyEnabled : bool).

(** Up to the load of the saved selection. *)
Definition restore_enter (m : manager) : restorePlace :=
  let s := m_session m in
  if s_vpnActive s && negb (s_stopRequested s) && negb (s_closing s)
  then RestoreReturned (generation_result m) None
  else if s_closing s || negb (s_cleanupDone s)
  then refused (failure FailureConflict "previous VPN owner has not completed cleanup")
  else
    match m_sourceStore m with
    | Some store =>
        if ss_activation store then RestoreLoads (s_sequence s) (s_sourceURL s)
        else refused (failure FailureNotConfigured "automatic startup storage is unavailable")
    | None => refused (failure FailureNotConfigured "automatic startup storage is unavailable")
    end.

(** Up to the call of [Configure]. *)
Definition restore_load (a : restoreAnswer) (sequence : Z) (source : string) (m : manager) : restorePlace :=
  match ra_loadErr a with
  | Some err => refused (failureWithCause FailurePlatform "saved activation could not be read" (Some err))
  | None =>
      match decodeActivation (match m_sourceStore m with Some store => ss_saved store | None => RawEmpty end) with
      | Err err => refused err
      | Ok saved =>
          if onlyPreviouslyEnabled && negb (sa_Enabled saved) then RestoreReturned noResult None
          else if String.eqb source ""
          then refused (failure FailureNotConfigured "automatic startup requires a saved configuration URL")
          else RestoreConfigures saved sequence
      end
  end.

(** The first section of [Configure], *)
Definition restore_configure (a : restoreAnswer) (saved : savedActivation) (sequence : Z) (m : manager) :
    manager * restorePlace :=
  match get (s_id (m_session m)) m with
  | Some err => (m, refused err)
  | None =>
      match Configure_begin (ra_ctx a) sequence m with
      | (m, Err err) => (m, refused err)
      | (m, Ok request) => (m, RestoreParses saved request)
      end
  end.

(** its load and its second section, then the comparison of the inventories. *)
Definition restore_parse (a : restoreAnswer) (saved : savedActivation) (request : Z) (m : manager) :
    manager * restorePlace :=
  let m := m <| m_inflight ::= List.remove Z.eq_dec request |> in
  match ra_loaded a with
  | Err err => (m, refused err)
  | Ok loaded =>
      match parseConfig (lc_Raw loaded) with
      | Err err => (m, refused err)
      | Ok parsed =>
          match Configure_accept (ra_now a) (ra_ctx a) request loaded parsed (ra_io a) m with
          | (m, Err err) => (m, refused err)
          | (m, Ok configured) =>
              if bool_decide (sa_Mode saved = ProfileIndex) &&
                 negb (String.eqb (cr_Digest configured) (sa_Digest saved))
              then (m, refused (failure FailureConflict
                         "saved profile inventory changed; select the profile again"))
              else (m, RestoreStarts saved configured)
          end
      end
  end.

Definition restoreTarget (saved : savedActivation) (configured : ConfigureResult) : StartTarget :=
  mkStartTarget (sa_Mode saved) (sa_Index saved) false (cr_Digest configured) None.

Definition restore_start (a : restoreAnswer) (saved : savedActivation) (configured : ConfigureResult) (m : manager) :
    manager * restorePlace :=
  match Start_begin (s_id (m_session m)) (ra_ctx a) (restoreTarget saved configured) m with
  | Err err => (m, refused err)
  | Ok (_, target) =>
      match Start_locked (ra_now a) (ra_io a) (cr_Sequence configured) target false m with
      | (m, Err err) => (m, refused err)
      | (m, Ok started) => (m, RestoreWaits started)
      end
  end.

Definition restore_step (a : restoreAnswer) (p : restorePlace) (m : manager) : manager * restorePlace :=
  match p with
  | RestoreEnters => (m, restore_enter m)
  | RestoreLoads sequence source => (m, restore_load a sequence source m)
  | RestoreConfigures saved sequence => restore_configure a saved sequence m
  | RestoreParses saved request => restore_parse a saved request m
  | RestoreStarts saved configured => restore_start a saved configured m
  | RestoreWaits started =>
      (m, match restoredNetwork (gr_Generation started) (m_session m) with
          | Some err => RestoreReturned started err
          | None => RestoreSleeps started (s_changed (m_session m))
          end)
  | RestoreSleeps started changed =>
      (m, match ra_ctx a with
          | Some err =>
              RestoreReturned started (join [Some err; Some (failure FailureCanceled "automatic activation canceled")])
          | None =>
              if Nat.eqb (s_changed (m_session m)) changed then p else RestoreWaits started
          end)
  | RestoreReturned _ _ => (m, p)
  end.

(** Its steps and those of the rest of the program. *)
Inductive restoreOp :=
| RestoreGoesOn (a : restoreAnswer)
| OthersStep (now : Z) (ev : event).

Definition restore_op (op : restoreOp) (w : manager * restorePlace) : manager * restorePlace :=
  match op with
  | RestoreGoesOn a => restore_step a w.2 w.1
  | OthersStep now ev => match step now ev w.1 with Some m => (m, w.2) | None => w end
  end.

Definition restore_run (ops : list restoreOp) (w : manager * restorePlace) : manager * restorePlace :=
  fold_left (fun w op => restore_op op w) ops w.
End restore.
