(* ===== verification/RestoreTheorems.v ===== *)
(** * What automatic activation may start, and when it returns

    [Restore] runs between other clients' calls and the attempt's goroutine:
    the selection it starts is the one its store held, and a sleeping
    [waitForRestoredNetwork] wakes up for every decision. *)

From S2P Require Import Prelude Errors Values Session Activation Manager Worker Ownership Invariant InvariantApi InvariantWorker Effects Scenario Protocol Refinement Published Restore.

(** ** A session that stops was stopped, or is protected *)

Definition stopping_ok (v : view) : Prop :=
  (v_state v = StateConnected -> v_vpnActive v = true) /\
  (v_state v = StateStopping -> v_stopRequested v = true \/ v_vpnActive v = true).

Lemma protocol_stopping a v v' : protocol a v v' -> stopping_ok v -> stopping_ok v'.
Proof.
  unfold stopping_ok, selecting. intros Hp [Hc Hs].
  destruct Hp; cbn in *; repeat case_match; intuition congruence.
Qed.

Record Good (m : manager) : Prop := {
  gd_inv : Inv m;
  gd_selecting : Selecting m;
  gd_stopping : stopping_ok (manager_view m)
}.

Lemma Good_simulated ev m m' : Good m -> Inv m' -> simulated ev m m' -> Good m'.
Proof.
  intros [Hi Hs Ho] Hi' [(a & _ & Hp) Hs']. constructor; [done|done|]. by eapply protocol_stopping.
Qed.

(** What [waitForRestoredNetwork] reads. *)
Lemma restoredNetwork_undecided g m :
  restoredNetwork g (m_session m) = None <->
  v_vpnActive (manager_view m) = false /\ v_state (manager_view m) <> StateFailed /\
  v_closing (manager_view m) = false /\ v_stopRequested (manager_view m) = false /\
  v_cleanupDone (manager_view m) = false /\ v_generation (manager_view m) = g.
Proof.
  unfold restoredNetwork, manager_view, view_of. cbn. destruct (m_session m) eqn:Hm. cbn. clear Hm m.
  split.
  - destruct s_vpnActive, s_closing, s_stopRequested, s_cleanupDone; cbn; try case_bool_decide; cbn; try done.
    all: destruct (Z.eqb_spec s_generation g); cbn; try done.
  - intros (-> & Hf & -> & -> & -> & ->). rewrite bool_decide_eq_false_2 by done. by rewrite Z.eqb_refl.
Qed.

(** A session that awaits a decision awaits it until a step publishes. *)
Lemma undecided_unseen g m m' :
  stopping_ok (manager_view m) -> unseen (manager_view m) (manager_view m') ->
  restoredNetwork g (m_session m) = None -> restoredNetwork g (m_session m') = None.
Proof.
  rewrite !restoredNetwork_undecided. generalize (manager_view m) (manager_view m'). clear m m'.
  intros v v' [Hc Hs] Hu (Hv & Hf & Hcl & Hst & Hd & Hg). destruct Hu as [v|v Hvpn|v [?|Hstop]]; [done|congruence..|].
  destruct (Hs Hstop); congruence.
Qed.

(** ** The selection that was loaded *)

Section restore.
Context `{ConfigParser} (onlyPreviouslyEnabled : bool).
Notation run_restore := (restore_run onlyPreviouslyEnabled).

Lemma restore_run_snoc ops op w : run_restore (ops ++ [op]) w = restore_op onlyPreviouslyEnabled op (run_restore ops w).
Proof. unfold restore_run. by rewrite fold_left_app. Qed.

(** The store held [saved] when [Restore] loaded it. *)
Definition loaded_selection (m0 : manager) (ops : list restoreOp) (saved : savedActivation) : Prop :=
  exists before a after m sequence source store,
    ops = before ++ RestoreGoesOn a :: after /\
    run_restore before (m0, RestoreEnters) = (m, RestoreLoads sequence source) /\
    m_sourceStore m = Some store /\ ss_saved store = RawJSON saved /\
    decodeActivation (ss_saved store) = Ok saved /\
    (onlyPreviouslyEnabled = true -> sa_Enabled saved = true).

Lemma loaded_later m0 ops op saved : loaded_selection m0 ops saved -> loaded_selection m0 (ops ++ [op]) saved.
Proof.
  intros (before & a & after & m & seq & src & store & -> & Hl). exists before, a, (after ++ [op]), m, seq, src, store.
  by rewrite <- app_assoc.
Qed.

(** *** The invariant of a run *)

Definition place_ok (m0 : manager) (ops : list restoreOp) (m : manager) (p : restorePlace) : Prop :=
  match p with
  | RestoreConfigures saved _ | RestoreParses saved _ => loaded_selection m0 ops saved
  | RestoreStarts saved configured =>
      loaded_selection m0 ops saved /\ (sa_Mode saved = ProfileIndex -> cr_Digest configured = sa_Digest saved)
  | RestoreSleeps started c =>
      c <= changed m /\ (c = changed m -> restoredNetwork (gr_Generation started) (m_session m) = None)
  | _ => True
  end.

(** Nothing a place says is undone by a step of the others. *)
Lemma place_others m0 ops op m m' p :
  stopping_ok (manager_view m) -> told m m' -> place_ok m0 ops m p -> place_ok m0 (ops ++ [op]) m' p.
Proof using Type.
  intros Ho Ht. destruct p; cbn; try done; try apply loaded_later.
  - intros [? ?]. split; [by apply loaded_later|done].
  - intros [Hc Hu]. destruct Ht as [?|[-> ?]]; [split; [lia|]|split; [done|]]; intros ->; [lia|].
    eapply undecided_unseen; eauto.
Qed.

Lemma place_refused m0 ops m err : place_ok m0 ops m (refused err).
Proof using Type. done. Qed.

(** The sections of the manager [Restore] itself runs. *)
Lemma Good_configure a saved sequence m : Good m -> Good (restore_configure a saved sequence m).1.
Proof using Type.
  intros Hg. unfold restore_configure. case_match; [done|].
  pose proof (Inv_Configure_begin (ra_ctx a) sequence m (gd_inv _ Hg)) as Hi.
  pose proof (sim_Configure_begin (ra_ctx a) sequence m (EvConfigure (ra_ctx a) sequence) (gd_selecting _ Hg)) as Hs.
  destruct (Configure_begin _ _ _) as [m1 [r|e]]; cbn in *; by eapply Good_simulated.
Qed.

Lemma Good_inflight f m : Good m -> Good (m <| m_inflight ::= f |>).
Proof using Type. intros [Hi Hs Ho]. constructor; [by apply Inv_inflight|done|done]. Qed.

Lemma Good_parse a saved request m : Good m -> Good (restore_parse a saved request m).1.
Proof using Type.
  intros Hg. unfold restore_parse. cbv zeta. apply (Good_inflight (List.remove Z.eq_dec request)) in Hg.
  set (m1 := m <| m_inflight ::= _ |>) in *. clearbody m1.
  destruct (ra_loaded a) as [loaded|]; [|done]. destruct (parseConfig (lc_Raw loaded)) as [parsed|] eqn:Hp; [|done].
  apply parseConfig_profiles in Hp.
  pose proof (Inv_Configure_accept (ra_now a) (ra_ctx a) request loaded parsed (ra_io a) m1 Hp (gd_inv _ Hg)) as Hi.
  pose proof (sim_Configure_accept (ra_now a) (ra_ctx a) request loaded parsed (ra_io a) m1 None loaded (ra_io a)
    (gd_inv _ Hg) (gd_selecting _ Hg)) as Hs.
  destruct (Configure_accept _ _ _ _ _ _ _) as [m2 [c|e]]; cbn in *; [case_match|]; by eapply Good_simulated.
Qed.

Lemma Good_start a saved configured m : Good m -> Good (restore_start a saved configured m).1.
Proof using Type.
  intros Hg. unfold restore_start. destruct (Start_begin _ _ _ _) as [[s target]|]; [|done].
  pose proof (Inv_Start_locked (ra_now a) (ra_io a) (cr_Sequence configured) target false m (gd_inv _ Hg)) as Hi.
  pose proof (sim_Start_locked (ra_now a) (ra_io a) (cr_Sequence configured) target false m
    0%Z target false (ra_io a) (gd_inv _ Hg) (gd_selecting _ Hg)) as Hs.
  destruct (Start_locked _ _ _ _ _ _) as [m1 [r|e]]; cbn in *; by eapply Good_simulated.
Qed.

Lemma Good_restore a p m : Good m -> Good (restore_step onlyPreviouslyEnabled a p m).1.
Proof using Type. destruct p; cbn; auto using Good_configure, Good_parse, Good_start. Qed.

Lemma Good_others now ev m m' : Good m -> step now ev m = Some m' -> Good m'.
Proof using Type.
  intros Hg Hst. eapply Good_simulated; [done| |].
  - eapply Inv_step; [apply Hg|done].
  - eapply sim_step; [apply Hg..|done].
Qed.

(** *** The run *)

Lemma place_load m0 ops a sequence source m :
  run_restore ops (m0, RestoreEnters) = (m, RestoreLoads sequence source) ->
  place_ok m0 (ops ++ [RestoreGoesOn a]) m (restore_load onlyPreviouslyEnabled a sequence source m).
Proof using Type.
  intros Hr. unfold restore_load. destruct (ra_loadErr a); [done|].
  destruct (m_sourceStore m) as [store|] eqn:Hs; [|done].
  destruct (decodeActivation (ss_saved store)) as [saved|] eqn:Hd; [|done].
  destruct (_ && _) eqn:Hb; [done|]. case_match; [done|]. cbn.
  exists ops, a, [], m, sequence, source, store. split_and!; try done.
  - by apply decodeActivation_valid in Hd as [-> _].
  - intros ->. cbn in Hb. by apply negb_false_iff in Hb.
Qed.

Lemma place_parse m0 ops a saved request m :
  loaded_selection m0 ops saved ->
  place_ok m0 ops (restore_parse a saved request m).1 (restore_parse a saved request m).2.
Proof using Type.
  intros Hl. unfold restore_parse. cbv zeta. generalize (m <| m_inflight ::= List.remove Z.eq_dec request |>). clear m. intros m.
  destruct (ra_loaded a) as [loaded|]; [|done]. destruct (parseConfig (lc_Raw loaded)) as [parsed|]; [|done].
  destruct (Configure_accept _ _ _ _ _ _ _) as [m2 [c|e]]; [|done].
  destruct (_ && _) eqn:Hb; [done|]. cbn. split; [done|]. intros Hm.
  rewrite Hm in Hb. cbn in Hb. by apply negb_false_iff, String.eqb_eq in Hb.
Qed.

Lemma place_step m0 ops a m p :
  run_restore ops (m0, RestoreEnters) = (m, p) -> place_ok m0 ops m p ->
  place_ok m0 (ops ++ [RestoreGoesOn a])
    (restore_step onlyPreviouslyEnabled a p m).1 (restore_step onlyPreviouslyEnabled a p m).2.
Proof using Type.
  intros Hr Hp. destruct p as [|seq src|saved seq|saved req|saved conf|started|started c|]; cbn in *.
  - unfold restore_enter. by repeat case_match.
  - by apply place_load.
  - unfold restore_configure. case_match; [done|]. destruct (Configure_begin _ _ _) as [m1 [r|e]]; [|done]. by apply loaded_later.
  - by apply place_parse, loaded_later.
  - unfold restore_start. destruct (Start_begin _ _ _ _) as [[s target]|]; [|done].
    by destruct (Start_locked _ _ _ _ _ _) as [m1 [r|e]].
  - destruct (restoredNetwork _ _) eqn:Hn; [done|]. cbn. done.
  - case_match; [done|]. case_match; [|done]. cbn. done.
  - done.
Qed.

Lemma run_ok m0 ops :
  Good m0 ->
  let w := run_restore ops (m0, RestoreEnters) in Good w.1 /\ place_ok m0 ops w.1 w.2.
Proof using Type.
  intros H0. induction ops as [|op ops [Hg Hp]] using rev_ind; [done|].
  cbv zeta. rewrite restore_run_snoc. destruct (run_restore ops _) as [m p] eqn:Hr. cbn [fst snd] in *.
  destruct op as [a|now ev]; cbn.
  - split; [by apply Good_restore|]. by apply place_step.
  - destruct (step now ev m) as [m'|] eqn:Hst; cbn.
    + split; [by eapply Good_others|]. eapply place_others; [apply Hg| |done].
      eapply told_step; [apply Hg|done].
    + split; [done|]. eapply place_others; [apply Hg|by apply told_same|done].
Qed.

Lemma Good_reachable m : reachable m -> Good m.
Proof using Type.
  intros (id & ie & nr & store & url & evs & Hr).
  assert (Good (NewManager id ie nr store url)) as Hg.
  { constructor; [apply Inv_NewManager|apply Selecting_NewManager|]. by rewrite view_NewManager. }
  revert Hg Hr. generalize (NewManager id ie nr store url). clear.
  induction evs as [|[now ev] evs IH]; intros m0 Hg Hr; cbn in Hr; [by simplify_eq|].
  destruct (step now ev m0) as [m1|] eqn:Hst; [|done]. apply (IH m1); [|done]. by eapply Good_others.
Qed.
End restore.

(** ** The attempt an accepted start begins *)

(** [target] is what the session attempts, from the profiles with this digest. *)
Definition attempts (s : session) (target : StartTarget) : Prop :=
  t_Mode (s_activeTarget s) = t_Mode target /\
  (t_Mode target = ProfileIndex -> t_Index (s_activeTarget s) = t_Index target) /\
  (t_Digest target <> "" -> s_activeDigest s = t_Digest target).

Lemma digest_agrees (d e : string) : negb (String.eqb d "") && negb (String.eqb d e) = false -> d <> "" -> e = d.
Proof. destruct (String.eqb_spec d ""), (String.eqb_spec d e); cbn; congruence. Qed.

Lemma index_agrees (target active : StartTarget) :
  bool_decide (t_Mode target = ProfileIndex) && negb (t_Index target =? t_Index active)%Z = false ->
  t_Mode target = ProfileIndex -> t_Index active = t_Index target.
Proof. intros Hc Hm. rewrite bool_decide_eq_true_2 in Hc by done. cbn in Hc. split_bools. lia. Qed.

Lemma retryLocked_attempts now target supplied m m' started :
  retryLocked now target supplied m = (m', Ok started) ->
  attempts (m_session m') target /\ started = generation_result m'.
Proof.
  unfold retryLocked. destruct (_ || _) eqn:Hc; [done|]. intros [= <- <-]. split; [|done].
  apply orb_false_iff in Hc as [Hc Hd]. apply orb_false_iff in Hc as [Hc Hx]. apply orb_false_iff in Hc as [_ Hm].
  apply negb_false_iff, bool_decide_eq_true in Hm. cbn.
  split; [done|]. split; [by apply index_agrees|by apply digest_agrees].
Qed.

Lemma Start_locked_attempts now io seq target m m' started :
  t_ReplaceCurrent target = false ->
  Start_locked now io seq target false m = (m', Ok started) ->
  attempts (m_session m') target /\ started = generation_result m'.
Proof.
  intros Hrep. unfold Start_locked. case_match; [done|]. case_match; [done|].
  case_match; [apply retryLocked_attempts|].
  destruct (validateStartTarget (m_session m) target) eqn:Hv; [done|]. case_match.
  { unfold replaceLocked. by rewrite Hrep. }
  destruct (saveActivationLocked_store io target m) as [t Ht].
  destruct (saveActivationLocked io target m) as [m1 err]. cbn [fst] in Ht. subst m1.
  destruct err; [done|]. intros [= <- <-]. split; [|done]. cbn. autorewrite with session. cbn.
  split; [done|]. split; [done|]. unfold validateStartTarget in Hv.
  case_match; [done|]. case_match; [done|]. case_match eqn:Hd; [done|]. by apply digest_agrees.
Qed.

(** ** A service that restarts with the second profile saved *)

Definition savedURL : string := "https://example.org/vpn".
Definition savedSelection : savedActivation := mkSavedActivation 1 true ProfileIndex 1 "doc".
Definition restarted : manager :=
  NewManager "owner" None true (Some (mkSourceStore true (Some savedURL) (RawJSON savedSelection))) (Ok savedURL).

Definition restoreAnswers : restoreAnswer :=
  mkRestoreAnswer 0 None None (Ok (mkLoadedConfig "doc" ConfigSourceURL savedURL)) io_ok.
Definition goesOn (n : nat) : list restoreOp := repeat (RestoreGoesOn restoreAnswers) n.

(** It waits; the attempt's goroutine brings the network up. *)
Definition restores : list restoreOp := goesOn 6.
Definition protects : list restoreOp :=
  map (fun r => OthersStep 0 (EvWorker 4 r)) [RNone; RLease true None; RLease true None; RNone].

Lemma restarted_reachable : reachable restarted.
Proof. by exists "owner", None, true, (Some (mkSourceStore true (Some savedURL) (RawJSON savedSelection))), (Ok savedURL), []. Qed.

Definition restoreConfigured : ConfigureResult :=
  mkConfigureResult "doc" 2 (summaries [outlineProfile; xrayProfile]) ConfigSourceURL.
Definition aboutToStart : manager := (restore_run true (goesOn 4) (restarted, RestoreEnters)).1.
Definition justStarted : manager := (restore_run true (goesOn 5) (restarted, RestoreEnters)).1.
Definition protectedAgain : manager := (restore_run true (restores ++ protects) (restarted, RestoreEnters)).1.

(** C29: between the calls of other clients and the steps of the attempt,
    [Restore] starts only what its store held when it loaded the selection: an
    accepted start of its own began the attempt it waits for, in the saved mode,
    with the saved index and from an inventory with the digest saved beside it
    when the selection names a profile, and, for a service restart, only when
    the user had not stopped it. *)
Theorem restore_starts_only_what_was_saved `{ConfigParser} (onlyPreviouslyEnabled : bool) (m0 : manager)
    (ops : list restoreOp) (m : manager) (saved : savedActivation) (configured : ConfigureResult)
    (a : restoreAnswer) (m' : manager) (started : GenerationResult) :
  reachable m0 ->
  restore_run onlyPreviouslyEnabled ops (m0, RestoreEnters) = (m, RestoreStarts saved configured) ->
  restore_step onlyPreviouslyEnabled a (RestoreStarts saved configured) m = (m', RestoreWaits started) ->
  loaded_selection onlyPreviouslyEnabled m0 ops saved /\
  started = generation_result m' /\
  t_Mode (s_activeTarget (m_session m')) = sa_Mode saved /\
  (sa_Mode saved = ProfileIndex ->
    t_Index (s_activeTarget (m_session m')) = sa_Index saved /\
    s_activeDigest (m_session m') = sa_Digest saved).
Proof.
  intros Hr Hrun Hstep.
  destruct (run_ok onlyPreviouslyEnabled m0 ops (Good_reachable _ Hr)) as [_ Hp]. rewrite Hrun in Hp.
  destruct Hp as [Hl Hd]. split; [done|]. cbn in Hstep. unfold restore_start in Hstep.
  destruct (Start_begin _ _ _ _) as [[src target]|] eqn:Hb; [|by simplify_eq].
  assert (target = restoreTarget saved configured) as ->.
  { unfold Start_begin in Hb. repeat case_match; by simplify_eq. }
  destruct (Start_locked _ _ _ _ _ _) as [m1 [r|e]] eqn:Hs; [|by simplify_eq]. injection Hstep as -> ->.
  apply Start_locked_attempts in Hs as [(Hm & Hi & Hdg) ->]; [|done]. split; [done|]. split; [done|].
  intros Hpi. split; [by apply Hi|]. cbn in Hdg. rewrite (Hd Hpi) in Hdg. apply Hdg.
  destruct Hl as (_ & _ & _ & _ & _ & _ & store & _ & _ & _ & _ & Hdec & _).
  by apply decodeActivation_valid in Hdec as (_ & _ & ? & _).
Qed.

Lemma restore_starts_only_what_was_saved_witness :
  loaded_selection true restarted (goesOn 4) savedSelection /\
  mkGenerationResult 1 3 = generation_result justStarted /\
  t_Mode (s_activeTarget (m_session justStarted)) = ProfileIndex /\
  (ProfileIndex = ProfileIndex ->
    t_Index (s_activeTarget (m_session justStarted)) = 1%Z /\
    s_activeDigest (m_session justStarted) = "doc").
Proof.
  apply (restore_starts_only_what_was_saved true restarted (goesOn 4) aboutToStart savedSelection restoreConfigured
    restoreAnswers justStarted (mkGenerationResult 1 3)).
  - exact restarted_reachable.
  - vm_compute. reflexivity.
  - vm_compute. reflexivity.
Defined.

(** a sleeping [waitForRestoredNetwork] misses nothing: whenever the
    session it waits for is protected, failed, stopped, closing, cleaned up or
    replaced, [Restore] is awake or the channel it sleeps on is closed, so its
    next two steps return exactly that decision. *)
Theorem restore_wakes_for_every_decision `{ConfigParser} (onlyPreviouslyEnabled : bool) (m0 : manager)
    (ops : list restoreOp) (m : manager) (started : GenerationResult) (c : nat) (err : option gerr)
    (a1 a2 : restoreAnswer) :
  reachable m0 ->
  restore_run onlyPreviouslyEnabled ops (m0, RestoreEnters) = (m, RestoreSleeps started c) ->
  restoredNetwork (gr_Generation started) (m_session m) = Some err -> ra_ctx a1 = None ->
  restore_run onlyPreviouslyEnabled (ops ++ [RestoreGoesOn a1; RestoreGoesOn a2]) (m0, RestoreEnters) =
    (m, RestoreReturned started err).
Proof.
  intros Hr Hrun Hd Ha.
  destruct (run_ok onlyPreviouslyEnabled m0 ops (Good_reachable _ Hr)) as [_ Hp]. rewrite Hrun in Hp.
  destruct Hp as [_ Hp]. unfold restore_run in *. rewrite fold_left_app, Hrun. cbn. rewrite Ha.
  destruct (Nat.eqb_spec (changed m) c) as [Hc|Hc]; cbn; [|by rewrite Hd].
  specialize (Hp (eq_sym Hc)). cbn in Hp. congruence.
Qed.

Lemma restore_wakes_for_every_decision_witness :
  restore_run true ((restores ++ protects) ++ goesOn 2) (restarted, RestoreEnters) =
    (protectedAgain, RestoreReturned (mkGenerationResult 1 3) None).
Proof.
  apply (restore_wakes_for_every_decision true restarted (restores ++ protects) protectedAgain
    (mkGenerationResult 1 3) 2 None restoreAnswers restoreAnswers).
  - exact restarted_reachable.
  - vm_compute. reflexivity.
  - vm_compute. reflexivity.
  - reflexivity.
Defined.
