(* ===== verification/SavedTheorems.v ===== *)
(** * The saved selection stays valid

    The activation store outlives the process: [Stop] and [Restore] decode what
    an earlier process wrote.  Whatever the manager writes, it can decode. *)

From S2P Require Import Prelude Errors Values Session Activation Manager Worker GoStrings Config Loader Ownership Invariant InvariantApi InvariantWorker Effects Scenario ConfigTheorems.

(** ** What only [Configure], [Start], [Stop] and a new store change *)

Record keeps (m m' : manager) : Prop := mkKeeps {
  kp_store : m_sourceStore m' = m_sourceStore m;
  kp_configured : s_configured (m_session m') = s_configured (m_session m);
  kp_digest : s_digest (m_session m') = s_digest (m_session m)
}.

#[export] Instance keeps_preorder : PreOrder keeps.
Proof. split; [by constructor|]. intros m1 m2 m3 [] []. constructor; congruence. Qed.

Lemma keeps_on_session f m :
  (forall s, s_configured (f s) = s_configured s /\ s_digest (f s) = s_digest s) -> keeps m (on_session f m).
Proof. intros Hf. destruct (Hf (m_session m)). by constructor. Qed.

Lemma keeps_frame m m' : m_session m' = m_session m -> m_sourceStore m' = m_sourceStore m -> keeps m m'.
Proof. intros Hs Ht. by constructor; rewrite ?Hs. Qed.

Lemma keeps_appendLocked now m : keeps m (appendLocked now m).
Proof. by constructor. Qed.

Lemma keeps_retainPolicy d ps m : keeps m (retainPolicy d ps m).
Proof. by destruct ps; apply keeps_frame. Qed.

Lemma keeps_call_cancel m : keeps m (call_cancel m).
Proof. unfold call_cancel. case_match; by apply keeps_frame. Qed.

Lemma keeps_cancel_if_set m : keeps m (cancel_if_set m).
Proof. unfold cancel_if_set. case_match; by apply keeps_frame. Qed.

Lemma keeps_budget_begin now m : keeps m (budget_begin now m).
Proof. unfold budget_begin. case_match; by apply keeps_frame. Qed.

Lemma keeps_budget_finish m : keeps m (budget_finish m).
Proof. unfold budget_finish. case_match; by apply keeps_frame. Qed.

Lemma keeps_push x l m : keeps m (push x l m).
Proof. by destruct x; apply keeps_frame. Qed.

Lemma keeps_acquire kind granted x m : keeps m (acquire kind granted x m).
Proof. destruct granted; [|done]. by destruct x; apply keeps_frame. Qed.

Lemma keeps_release_step x c m m' err : release_step x c m = Some (m', err) -> keeps m m'.
Proof. intros (l & tl & _ & Hm)%release_step_spec. destruct c; destruct Hm as [Hm Hm']; subst; by apply keeps_frame. Qed.

Lemma keeps_alloc_budget m : keeps m (alloc_budget m).
Proof. by constructor. Qed.

Lemma keeps_alloc_ledger m : keeps m (alloc_ledger m).
Proof. by constructor. Qed.

Lemma keeps_alloc_networkLedger m : keeps m (alloc_networkLedger m).
Proof. by constructor. Qed.

Lemma keeps_alloc_context m : keeps m (alloc_context m).
Proof. by constructor. Qed.

Lemma keeps_spawn k m : keeps m (spawn k m).
Proof. by constructor. Qed.

Lemma keeps_spawn_runStart t m : keeps m (spawn_runStart t m).
Proof. by constructor. Qed.

Lemma keeps_spawn_finish g m : keeps m (spawn_finish g m).
Proof. by constructor. Qed.

Lemma keeps_goto wid k p m : keeps m (goto wid k p m).
Proof. by constructor. Qed.

Lemma keeps_stop_worker wid m : keeps m (stop_worker wid m).
Proof. by constructor. Qed.

Lemma keeps_emit o m : keeps m (emit o m).
Proof. by constructor. Qed.

Lemma keeps_panic m : keeps m (panic m).
Proof. by constructor. Qed.

(** Strip the outermost primitive. *)
Ltac keeps_step :=
  match goal with
  | |- keeps ?m ?m => reflexivity
  | |- keeps _ (appendLocked _ _) => etrans; [|apply keeps_appendLocked]
  | |- keeps _ (retainPolicy _ _ _) => etrans; [|apply keeps_retainPolicy]
  | |- keeps _ (on_session _ _) => etrans; [|apply keeps_on_session; by intros []]
  | |- keeps _ (call_cancel _) => etrans; [|apply keeps_call_cancel]
  | |- keeps _ (cancel_if_set _) => etrans; [|apply keeps_cancel_if_set]
  | |- keeps _ (budget_begin _ _) => etrans; [|apply keeps_budget_begin]
  | |- keeps _ (budget_finish _) => etrans; [|apply keeps_budget_finish]
  | |- keeps _ (acquire _ _ _ _) => etrans; [|apply keeps_acquire]
  | |- keeps _ (alloc_budget _) => etrans; [|apply keeps_alloc_budget]
  | |- keeps _ (alloc_ledger _) => etrans; [|apply keeps_alloc_ledger]
  | |- keeps _ (alloc_networkLedger _) => etrans; [|apply keeps_alloc_networkLedger]
  | |- keeps _ (alloc_context _) => etrans; [|apply keeps_alloc_context]
  | |- keeps _ (spawn _ _) => etrans; [|apply keeps_spawn]
  | |- keeps _ (spawn_runStart _ _) => etrans; [|apply keeps_spawn_runStart]
  | |- keeps _ (spawn_finish _ _) => etrans; [|apply keeps_spawn_finish]
  | |- keeps _ (goto _ _ _ _) => etrans; [|apply keeps_goto]
  | |- keeps _ (stop_worker _ _) => etrans; [|apply keeps_stop_worker]
  | |- keeps _ (emit _ _) => etrans; [|apply keeps_emit]
  | |- keeps _ (panic _) => etrans; [|apply keeps_panic]
  end.
Ltac keeps_steps := repeat case_match; repeat keeps_step.

Lemma keeps_cleanupContext now m : keeps m (cleanupContext now m).
Proof. unfold cleanupContext. keeps_steps. Qed.

Lemma keeps_beginAttemptLocked now t m : keeps m (beginAttemptLocked now t m).
Proof. unfold beginAttemptLocked. cbv zeta. repeat keeps_step. Qed.

Lemma keeps_Configure_begin ctxErr seq m : keeps m (Configure_begin ctxErr seq m).1.
Proof. unfold Configure_begin. case_match; [done|]. by constructor. Qed.

Lemma keeps_retryLocked now t sup m : keeps m (retryLocked now t sup m).1.
Proof.
  unfold retryLocked. case_match; [done|]. cbv zeta. cbn [fst]. repeat keeps_step.
  etrans; [|apply keeps_beginAttemptLocked]. repeat keeps_step.
Qed.

Lemma keeps_Resume now m : keeps m (Resume now m).1.
Proof. unfold Resume. by repeat case_match. Qed.

Lemma keeps_stop_outcome now m : keeps m (stop_outcome now m).
Proof.
  unfold stop_outcome, stop_attempt, stop_retained, acknowledgeStoppedLocked. cbv zeta.
  repeat case_match; cbn [fst]; repeat keeps_step.
Qed.

Lemma keeps_stop_requested now m : keeps m (stop_requested now m).
Proof. unfold stop_requested. cbv zeta. keeps_steps. Qed.

Lemma keeps_close_attempt now m : keeps m (close_attempt now m).
Proof.
  unfold close_attempt. set (w := bool_decide _). set (m1 := on_session _ m).
  transitivity m1; [unfold m1; repeat keeps_step|]. clearbody m1.
  set (m2 := if _ : bool then _ else m1). cbv zeta.
  transitivity m2; [unfold m2; keeps_steps|]. clearbody m2.
  transitivity (budget_begin now m2); [repeat keeps_step|].
  case_match; [by apply keeps_frame|]. destruct w; repeat keeps_step.
Qed.

Lemma keeps_StopAndWait_begin now m : keeps m (StopAndWait_begin now m).
Proof.
  unfold StopAndWait_begin, close_requested. cbv zeta. keeps_step. case_match.
  - etrans; [|apply keeps_close_attempt]. repeat keeps_step.
  - repeat keeps_step.
Qed.

Lemma keeps_AttachSourceStore_loaded now l m : keeps m (AttachSourceStore_loaded now l m).
Proof.
  unfold AttachSourceStore_loaded. cbv zeta. keeps_step. destruct l as [[url|]|]; repeat keeps_step.
  case_match; [|done]. case_match; repeat keeps_step.
Qed.

Lemma keeps_reportHealthFailure now g c m : keeps m (reportHealthFailure now g c m).
Proof.
  unfold reportHealthFailure. case_match; [done|]. do 3 keeps_step.
  apply keeps_on_session. intros s. unfold prepareHealthRecoveryLocked, queueRecovery, forgiveStable.
  repeat case_match; by destruct s.
Qed.

Lemma keeps_advance now g st p m m' : advance now g st p m = Some m' -> keeps m m'.
Proof. unfold advance. case_match; [done|]. intros [= <-]. keeps_steps. Qed.

Lemma keeps_finish_settle now cause m : keeps m (finish_settle now cause m).
Proof.
  unfold finish_settle, finish_idle, finish_restart, finishProtectedFailureLocked. cbv zeta.
  set (m1 := on_session _ (budget_finish m)).
  transitivity m1; [unfold m1; repeat keeps_step|]. clearbody m1.
  case_match; [repeat keeps_step|]. case_match; [|keeps_steps].
  case_match; keeps_step; (etrans; [|apply keeps_beginAttemptLocked]); repeat keeps_step.
Qed.

Lemma keeps_finish_commit now wid k cause rel ce m : keeps m (finish_commit now wid k cause rel ce m).
Proof.
  unfold finish_commit. cbv zeta. case_match; [repeat keeps_step|].
  set (m1 := on_session _ (stop_worker wid m)).
  transitivity m1; [unfold m1; repeat keeps_step|]. clearbody m1.
  case_match; [unfold finish_failed; repeat keeps_step|].
  transitivity (finish_release rel m1); [unfold finish_release; destruct rel; repeat keeps_step|].
  case_match; [repeat keeps_step|apply keeps_finish_settle].
Qed.

Lemma keeps_worker_step now wid k r m m' : worker_step now wid k r m = Some m' -> keeps m m'.
Proof.
  unfold worker_step.
  destruct (wk_pc k) eqn:Hpc; intros Hs;
    lazymatch type of Hs with
    | waitForAttemptEnd _ _ _ _ _ _ = _ => idtac
    | _ => destruct r; try discriminate Hs; try injection Hs as <-
    end.
  all: try match type of Hs with
    | match release_step ?x ?e ?m0 with _ => _ end = _ =>
        destruct (release_step x e m0) as [[m1 [?|]]|] eqn:Hrel; try discriminate Hs; injection Hs as <-;
        [keeps_step|]; by eapply keeps_release_step
    | (if _ then _ else _) = _ => case_match; [|done]; injection Hs as <-; repeat keeps_step
    end.
  - unfold prepareNetwork_begin. keeps_steps.
  - unfold prepareNetwork_tunnel. keeps_steps.
  - unfold prepareNetwork_runtime. keeps_steps.
  - unfold prepareNetwork_commit. repeat keeps_step.
  - unfold prepareNetwork_check. keeps_steps.
  - unfold runStart_profiles. keeps_steps.
  - unfold runStart_candidate, prepareCandidate.
    destruct rest; [repeat keeps_step|]. destruct index; [repeat keeps_step|]. destruct (_ || _); repeat keeps_step.
  - unfold runStart_advance. cbv zeta. destruct (advance _ _ _ _ _) eqn:Ha; repeat keeps_step.
    by eapply keeps_advance.
  - unfold runStart_started. cbv zeta. generalize (keeps_acquire AttemptLease granted (s_ledger (m_session m)) m).
    generalize (acquire AttemptLease granted (s_ledger (m_session m)) m). intros m1 Hm. etrans; [exact Hm|]. keeps_steps.
  - unfold runStart_cleanup. case_match; keeps_step; [apply keeps_cleanupContext|done].
  - unfold runStart_next. keeps_steps.
  - unfold runStart_connect. destruct (advance _ _ _ _ _) eqn:Ha; repeat keeps_step. by eapply keeps_advance.
  - revert Hs. unfold waitForAttemptEnd. repeat case_match; intros; simplify_eq; repeat keeps_step.
    apply keeps_reportHealthFailure.
  - unfold finish_begin. keeps_steps.
  - unfold retire_begin. keeps_steps. apply keeps_cleanupContext.
  - unfold retire_network. keeps_steps.
  - keeps_step. apply keeps_cleanupContext.
  - apply keeps_finish_commit.
Qed.

(** ** What is stored *)

(** An activation store holds nothing, or a selection it can restore. *)
Definition valid_store (store : option sourceStore) : Prop :=
  match store with
  | Some t => ss_saved t = RawEmpty \/ is_ok (decodeActivation (ss_saved t)) = true
  | None => True
  end.

Record Saved (m : manager) : Prop := {
  sv_store : valid_store (m_sourceStore m);
  sv_digest : s_configured (m_session m) = true -> s_digest (m_session m) <> ""
}.

Lemma Saved_keeps m m' : keeps m m' -> Saved m -> Saved m'.
Proof. intros [Hs Hc Hd] [? ?]. constructor; rewrite ?Hs, ?Hc, ?Hd; done. Qed.

Lemma decodeActivation_ok saved :
  sa_Version saved = 1%Z -> sa_Digest saved <> "" ->
  (sa_Mode saved = AutoSelect \/ sa_Mode saved = ProfileIndex /\ (0 <= sa_Index saved)%Z) ->
  decodeActivation (RawJSON saved) = Ok saved.
Proof.
  destruct saved as [v e md ix d]. cbn. intros -> Hd%String.eqb_neq Hm. rewrite Hd. cbn.
  destruct Hm as [->|[-> Hi]]; cbn; [done|]. by rewrite (proj2 (Z.ltb_ge ix 0) Hi).
Qed.

(** A validated target is one a saved selection may have. *)
Lemma saveActivation_valid io target m :
  Saved m -> s_configured (m_session m) = true -> validateStartTarget (m_session m) target = None ->
  valid_store (m_sourceStore (saveActivationLocked io target m).1).
Proof.
  intros [Hs Hd] Hc Hv. unfold saveActivationLocked.
  destruct (m_sourceStore m) as [store|] eqn:Hm; [|by cbn; rewrite Hm].
  destruct (_ || _); [by cbn; rewrite Hm|]. cbn. case_match; [|done]. cbn. right.
  change (is_ok (decodeActivation (RawJSON (activationFor (s_digest (m_session m)) target))) = true).
  rewrite decodeActivation_ok; [done|done|by apply Hd|]. unfold validateStartTarget in Hv.
  case_match eqn:Hmode; [done|]. case_match eqn:Hidx; [done|]. cbn. destruct (t_Mode target) as [| |x]; cbn in Hmode.
  - by left.
  - right. split; [done|]. rewrite bool_decide_eq_true_2 in Hidx by done. cbn [andb] in Hidx. split_bools. lia.
  - done.
Qed.

Lemma Saved_store t m :
  valid_store t -> Saved m -> Saved (m <| m_sourceStore := t |>).
Proof. intros Ht [_ Hd]. by constructor. Qed.

Lemma Saved_saveActivation io target m :
  Saved m -> s_configured (m_session m) = true -> validateStartTarget (m_session m) target = None ->
  Saved (saveActivationLocked io target m).1.
Proof.
  intros Hs Hc Hv. pose proof (saveActivation_valid io target m Hs Hc Hv) as H.
  destruct (saveActivationLocked_store io target m) as [t Ht]. rewrite Ht in *. by apply Saved_store.
Qed.

Lemma Saved_Start_locked now io seq t sup m : Saved m -> Saved (Start_locked now io seq t sup m).1.
Proof.
  intros Hs. unfold Start_locked. case_match; [done|]. case_match eqn:Hcf; [done|]. apply negb_false_iff in Hcf.
  case_match; [by apply (Saved_keeps m); [apply keeps_retryLocked|]|].
  destruct (validateStartTarget _ _) eqn:Hv; [done|].
  pose proof (Saved_saveActivation io t m Hs Hcf Hv) as Hsv. unfold replaceLocked.
  destruct (saveActivationLocked io t m) as [m1 err]. cbn [fst] in Hsv.
  repeat case_match; try done; cbv zeta; cbn [fst]; apply (Saved_keeps m1); try done; repeat keeps_step.
Qed.

Lemma Saved_stopActivation loadErr io m : Saved m -> Saved (stopActivationLocked loadErr io m).1.
Proof.
  intros Hs. unfold stopActivationLocked. destruct (m_sourceStore m) as [store|] eqn:Hm; [|done].
  case_match; [done|]. destruct loadErr; [done|].
  assert (forall (x : manager) e, Saved x -> Saved (x, e : option gerr).1) as Hpair by done.
  destruct (ss_saved store) as [|e|saved] eqn:Hsaved; [done|done|].
  destruct (decodeActivation (RawJSON saved)) as [a|] eqn:Hd; [|done]. cbn [fst]. apply Saved_store; [|done].
  apply decodeActivation_valid in Hd as ([= <-] & Hv & Hdg & Hmode). case_match; cbn; right.
  - change (is_ok (decodeActivation (RawJSON (saved <| sa_Enabled := false |>))) = true).
    by rewrite decodeActivation_ok.
  - rewrite Hsaved. by rewrite decodeActivation_ok.
Qed.

Lemma Saved_Stop now loadErr io g m : Saved m -> Saved (Stop now loadErr io g m).1.1.
Proof.
  intros Hs. destruct (acceptsStop (m_session m) g) eqn:Ha; [|by unfold Stop; rewrite Ha].
  pose proof (Saved_stopActivation loadErr io m Hs) as H1.
  destruct (stopActivationLocked loadErr io m) as [m1 err] eqn:Hst.
  rewrite (Stop_outcome _ _ _ _ _ _ _ Ha Hst). apply (Saved_keeps m1); [|done].
  etrans; [apply keeps_stop_requested|apply keeps_stop_outcome].
Qed.

Lemma Saved_Configure_accept now ctxErr request loaded parsed io m :
  pc_digest parsed <> "" -> Saved m -> Saved (Configure_accept now ctxErr request loaded parsed io m).1.
Proof.
  intros Hp Hs. unfold Configure_accept. case_match; [done|].
  assert (Saved (saveSource loaded io m).1) as H1.
  { unfold saveSource. destruct (m_sourceStore m) as [store|] eqn:Hm; [|done].
    pose proof (sv_store _ Hs) as Hv. rewrite Hm in Hv.
    destruct (bool_decide _); cbn [fst]; (apply Saved_store; [by destruct (stored io)|done]). }
  destruct (saveSource loaded io m) as [m1 err]. cbn [fst] in H1. destruct err; [done|]. cbv zeta. cbn [fst].
  set (m2 := on_session _ m1).
  assert (Saved m2) as H2 by by constructor; [apply H1|]. clearbody m2. apply (Saved_keeps m2); [|done]. keeps_step.
  set (m3 := if _ && _ : bool then _ else m2). transitivity m3; [unfold m3; keeps_steps|keeps_steps].
Qed.

Section machine.
Context `{ConfigParser}.

(** The digest of a configuration is never empty, and every store the program
    attaches is valid. *)
Definition digests_configurations : Prop :=
  forall raw parsed, parseConfig raw = Ok parsed -> pc_digest parsed <> "".

Definition attaches_valid (ev : event) : Prop :=
  match ev with EvAttachStore store => valid_store (Some store) | _ => True end.

Lemma Saved_step now ev m m' :
  digests_configurations -> attaches_valid ev -> Saved m -> step now ev m = Some m' -> Saved m'.
Proof using Type.
  intros Hdg Hev Hs. unfold step. destruct (m_panic m); [done|]. destruct ev.
  - intros [= <-]. by apply (Saved_keeps m); [apply keeps_Configure_begin|].
  - case_match; [|done]. intros [= <-]. by apply (Saved_keeps m); [by apply keeps_frame|].
  - case_match; [|done]. set (m1 := m <| m_inflight ::= _ |>).
    assert (Saved m1) as H1 by by apply (Saved_keeps m); [by apply keeps_frame|].
    destruct (parseConfig (lc_Raw loaded)) as [parsed|] eqn:Hp; intros [= <-]; [|done].
    apply Saved_Configure_accept; [by eapply Hdg|done].
  - intros [= <-]. by apply Saved_Start_locked.
  - intros [= <-]. by apply Saved_Stop.
  - intros [= <-]. by apply (Saved_keeps m); [apply keeps_StopAndWait_begin|].
  - intros [= <-]. by apply (Saved_keeps m); [apply keeps_cleanupContext|].
  - intros [= <-]. by apply (Saved_keeps m); [apply keeps_Resume|].
  - intros [= <-]. unfold AttachSourceStore_install. case_match; [done|]. by apply Saved_store.
  - intros [= <-]. by apply (Saved_keeps m); [apply keeps_AttachSourceStore_loaded|].
  - case_match; [|done]. intros Hst. apply (Saved_keeps m); [by eapply keeps_worker_step|done].
Qed.

Lemma Saved_run evs m m' :
  digests_configurations -> Forall (fun ev => attaches_valid ev.2) evs -> Saved m -> run evs m = Some m' -> Saved m'.
Proof using Type.
  intros Hdg Hev. revert m. induction Hev as [|[now ev] evs Hx _ IH]; intros m Hs Hr; cbn in Hr; [by simplify_eq|].
  destruct (step now ev m) as [m1|] eqn:Hst; [|done]. apply (IH m1); [|done]. by eapply Saved_step.
Qed.

Lemma Saved_NewManager id initErr nr store url :
  valid_store store -> Saved (NewManager id initErr nr store url).
Proof using Type. intros Hs. unfold NewManager. destruct store as [t|]; [destruct url|]; by constructor. Qed.
End machine.

(** C30: the saved selection is always well formed: if the store a process starts
    with, and every store attached later, holds nothing or a selection [Restore]
    accepts, then so does the store after every history, whichever writes fail
    or are applied although they reported an error. A selection has version 1,
    a digest, a known mode and no negative index. *)
Theorem saved_selection_stays_valid `{ConfigParser} (id : string) (initErr : option gerr)
    (networkRuntime : bool) (store : option sourceStore) (saved : result string gerr)
    (evs : list (Z * event)) (m : manager) :
  digests_configurations -> valid_store store -> Forall (fun ev => attaches_valid ev.2) evs ->
  run evs (NewManager id initErr networkRuntime store saved) = Some m ->
  match m_sourceStore m with
  | None => True
  | Some t =>
      ss_saved t = RawEmpty \/
      exists selection, ss_saved t = RawJSON selection /\ decodeActivation (ss_saved t) = Ok selection /\
        sa_Version selection = 1%Z /\ sa_Digest selection <> "" /\
        (sa_Mode selection = AutoSelect \/ sa_Mode selection = ProfileIndex /\ (0 <= sa_Index selection)%Z)
  end.
Proof.
  intros Hdg Hst Hev Hr. destruct (Saved_run _ _ _ Hdg Hev (Saved_NewManager _ _ _ _ _ Hst) Hr) as [Hs _].
  destruct (m_sourceStore m) as [t|]; [|done]. destruct Hs as [->|Hs]; [by left|right].
  destruct (decodeActivation (ss_saved t)) as [selection|] eqn:Hd; [|done]. exists selection.
  pose proof (decodeActivation_valid _ _ Hd) as (Hj & ? & ? & ?). done.
Qed.

(** ** The document parser and a saved start *)

Lemma documentParser_digests tomlDecode urlParse sha256Hex overflowInt64 :
  (forall raw, sha256Hex raw <> "") ->
  @digests_configurations (documentParser tomlDecode urlParse sha256Hex overflowInt64).
Proof.
  intros Hsha raw parsed. cbn. unfold parseLoaded, parseDocument.
  destruct (decodeConfig tomlDecode raw) as [[root protocols]|e]; [|by destruct (as_domain e)].
  destruct (parseProfiles _ _ _) as [[ps|e]|]; [|by destruct (as_domain e)|done].
  destruct (validateLogsEndpoint _ _) as [e|]; [by destruct (as_domain e)|].
  intros [= <-]. apply Hsha.
Qed.

Definition documentDigest (raw : string) : string := "sha256:" +:+ raw.
Definition realParser : ConfigParser := documentParser exampleDoc (fun _ => None) documentDigest (fun _ => 0%Z).
Definition emptyStore : sourceStore := mkSourceStore true None RawEmpty.
Definition savedStart : list (Z * event) :=
  [(0%Z, EvConfigure None 1);
   (0%Z, EvAccept 1 None (mkLoadedConfig "doc" ConfigSourceURL "https://example.org") io_ok);
   (0%Z, EvStart 2 (mkStartTarget ProfileIndex 0 false "" None) false (mkIoReply (Some (EText "disk full")) true));
   (0%Z, EvStart 2 (mkStartTarget ProfileIndex 0 false "" None) false io_ok)].
Definition startedAndSaved : manager :=
  match @run realParser savedStart (NewManager "owner" None true (Some emptyStore) (Ok "")) with Some m => m | None => fresh end.
Definition savedDocument : rawActivation :=
  match m_sourceStore startedAndSaved with Some t => ss_saved t | None => RawEmpty end.

Lemma saved_selection_stays_valid_witness :
  match m_sourceStore startedAndSaved with
  | None => True
  | Some t =>
      ss_saved t = RawEmpty \/
      exists selection, ss_saved t = RawJSON selection /\ decodeActivation (ss_saved t) = Ok selection /\
        sa_Version selection = 1%Z /\ sa_Digest selection <> "" /\
        (sa_Mode selection = AutoSelect \/ sa_Mode selection = ProfileIndex /\ (0 <= sa_Index selection)%Z)
  end.
Proof.
  apply (@saved_selection_stays_valid realParser "owner" None true (Some emptyStore) (Ok "") savedStart).
  - by apply documentParser_digests.
  - by left.
  - by repeat constructor.
  - vm_compute. reflexivity.
Defined.
