(* ===== verification/Files.v ===== *)
(** * Files

    What the source store uses of package [os] and of the file system behind
    it: directories, files with their permissions and whether they were
    flushed, symbolic links.  Every call may fail; a failed write may have
    written a part.  A small monad threads the file system, remembers every
    state it was in, for a reader may look and the power may fail between any
    two calls, and stops at the first error. *)

From S2P Require Import Prelude Errors GoStrings.
From stdpp Require Import gmap strings list.

(** A clean path, the last name first; [[]] is the root. *)
Notation path := (list string).

Record file := mkFile { f_bytes : string; f_mode : Z; f_synced : bool }.
#[export] Instance eta_file : Settable file := fun f => mkFile (f_bytes f) (f_mode f) (f_synced f).
#[export] Instance file_eq_dec : EqDecision file.
Proof. solve_decision. Defined.

Inductive node :=
| NDir
| NFile (f : file)
| NLink (target : path)
| NOther.
#[export] Instance node_eq_dec : EqDecision node.
Proof. solve_decision. Defined.

Notation fs := (gmap path node).

Definition entry (d : fs) (p : path) : option node := match p with [] => Some NDir | _ => d !! p end.

Definition ENOENT : gerr := ESent OsErrNotExist.
Definition ENOTDIR : gerr := EText "not a directory".
Definition ELOOP : gerr := EText "too many levels of symbolic links".
Definition EEXIST : gerr := EText "file exists".
Definition EISDIR : gerr := EText "is a directory".
Definition ENOTEMPTY : gerr := EText "directory not empty".
Definition EINVAL : gerr := EText "invalid argument".

(** ** Names *)

(** The path without links of what [p] names; [links] is how many links the
    system follows one out of another. *)
Fixpoint resolve (links : nat) (d : fs) : path -> result path gerr :=
  fix walk (p : path) : result path gerr :=
    match p with
    | [] => Ok []
    | name :: dir =>
        match walk dir with
        | Err e => Err e
        | Ok q =>
            match entry d q with
            | Some NDir =>
                match d !! (name :: q) with
                | None => Err ENOENT
                | Some (NLink target) =>
                    match links with O => Err ELOOP | S links => resolve links d target end
                | Some _ => Ok (name :: q)
                end
            | _ => Err ENOTDIR
            end
        end
    end.

Definition maxLinks : nat := 40.
#[global] Arguments maxLinks : simpl never.

(** The directory entry [p] names, itself not followed. *)
Definition locate (d : fs) (p : path) : result path gerr :=
  match p with
  | [] => Ok []
  | name :: dir =>
      match resolve maxLinks d dir with
      | Err e => Err e
      | Ok q => match entry d q with Some NDir => Ok (name :: q) | _ => Err ENOTDIR end
      end
  end.

(** ** The monad *)

(** A call that fails says why, never that a file that exists does not; a write
    that fails wrote [ft_written] bytes. *)
Record fault := mkFault { ft_text : string; ft_written : nat }.

(** [w_past] holds the states since the start, the last first; [w_name] is what
    the system makes up for the next temporary file. *)
Record world := mkWorld {
  w_fs : fs;
  w_past : list fs;
  w_faults : list (option fault);
  w_name : string
}.
#[export] Instance eta_files_world : Settable world := fun w =>
  mkWorld (w_fs w) (w_past w) (w_faults w) (w_name w).

Definition io (A : Type) : Type := world -> world * result A gerr.

Definition ret {A} (a : A) : io A := fun w => (w, Ok a).
Definition fail {A} (e : gerr) : io A := fun w => (w, Err e).
Definition bind {A B} (m : io A) (k : A -> io B) : io B :=
  fun w => let '(w, r) := m w in match r with Ok a => k a w | Err e => (w, Err e) end.

(** The error as a value, [if err := m; err != nil]. *)
Definition attempt {A} (m : io A) : io (result A gerr) := fun w => let '(w, r) := m w in (w, Ok r).

(** [fmt.Errorf("prefix: %w", err)] *)
Definition wrapped {A} (prefix : string) (m : io A) : io A :=
  fun w => let '(w, r) := m w in (w, match r with Ok a => Ok a | Err e => Err (EWrap prefix e) end).

(** [defer func() { _ = after() }()] *)
Definition deferred {A B} (after : io B) (m : io A) : io A :=
  fun w => let '(w, r) := m w in let '(w, _) := after w in (w, r).

(** [_ = after()] before an error is returned. *)
Definition onError {A B} (after : io B) (m : io A) : io A :=
  fun w => let '(w, r) := m w in
    match r with Ok a => (w, Ok a) | Err e => let '(w, _) := after w in (w, Err e) end.

Declare Scope io_scope.
Delimit Scope io_scope with io.
Notation "'let!' x ':=' m 'in' k" := (bind m (fun x => k))
  (at level 10, x name, m at level 100, k at level 200) : io_scope.
Open Scope io_scope.

Definition commit (d : fs) (w : world) : world := w <| w_fs := d |> <| w_past ::= cons d |>.

(** One call: the next fault, or its effect. *)
Definition syscall {A : Type} (partly : nat -> fs -> fs) (act : fs -> result (fs * A) gerr) : io A := fun w =>
  let '(f, rest) := match w_faults w with [] => (None, []) | f :: rest => (f, rest) end in
  let w := w <| w_faults := rest |> in
  match f with
  | Some ft => (commit (partly (ft_written ft) (w_fs w)) w, Err (EText (ft_text ft)))
  | None =>
      match act (w_fs w) with
      | Ok (d, a) => (commit d w, Ok a)
      | Err e => (w, Err e)
      end
  end.

Definition nothing : nat -> fs -> fs := fun _ d => d.

(** ** The calls *)

Definition Lstat (p : path) : io node := syscall nothing (fun d =>
  match locate d p with
  | Err e => Err e
  | Ok q => match entry d q with Some n => Ok (d, n) | None => Err ENOENT end
  end).

Definition Stat (p : path) : io node := syscall nothing (fun d =>
  match resolve maxLinks d p with
  | Err e => Err e
  | Ok q => match entry d q with Some n => Ok (d, n) | None => Err ENOENT end
  end).

Definition Mkdir (p : path) : io unit := syscall nothing (fun d =>
  match locate d p with
  | Err e => Err e
  | Ok q => match entry d q with Some _ => Err EEXIST | None => Ok (<[q := NDir]> d, tt) end
  end).

(** [os.MkdirAll]: the parent first; a failed [Mkdir] of a directory somebody
    else made in the meantime is none. *)
Fixpoint MkdirAll (p : path) : io unit :=
  let! found := attempt (Stat p) in
  match found with
  | Ok NDir => ret tt
  | Ok _ => fail ENOTDIR
  | Err _ =>
      let! _ := match p with [] => ret tt | _ :: dir => MkdirAll dir end in
      let! made := attempt (Mkdir p) in
      match made with
      | Ok _ => ret tt
      | Err e =>
          let! found := attempt (Lstat p) in
          match found with Ok NDir => ret tt | _ => fail e end
      end
  end.

(** [os.CreateTemp]: the file is created for its owner only. *)
Definition CreateTemp (dir : path) (prefix suffix : string) : io path := fun w =>
  let p := (prefix +:+ w_name w +:+ suffix) :: dir in
  syscall nothing (fun d =>
    match locate d p with
    | Err e => Err e
    | Ok q => match entry d q with
              | Some _ => Err EEXIST
              | None => Ok (<[q := NFile (mkFile "" 384 false)]> d, p)
              end
    end) w.

(** A change of the file an open descriptor of [p] refers to. *)
Definition update_file (f : file -> file) (p : path) (d : fs) : fs :=
  match resolve maxLinks d p with
  | Ok q => alter (fun n => match n with NFile x => NFile (f x) | _ => n end) q d
  | Err _ => d
  end.

Definition FileChmod (p : path) (mode : Z) : io unit :=
  syscall nothing (fun d => Ok (update_file (fun x => x <| f_mode := mode |>) p d, tt)).

Definition written (s : string) (x : file) : file := x <| f_bytes ::= fun b => b +:+ s |> <| f_synced := false |>.

Definition FileWrite (p : path) (s : string) : io unit :=
  syscall (fun n => update_file (written (take_bytes n s)) p)
    (fun d => Ok (update_file (written s) p d, tt)).

Definition FileSync (p : path) : io unit :=
  syscall nothing (fun d => Ok (update_file (fun x => x <| f_synced := true |>) p d, tt)).

Definition FileClose (p : path) : io unit := syscall nothing (fun d => Ok (d, tt)).

(** Nothing is renamed over a directory. *)
Definition Rename (src dst : path) : io unit := syscall nothing (fun d =>
  match locate d src, locate d dst with
  | Ok p, Ok q =>
      match entry d p, entry d q with
      | None, _ => Err ENOENT
      | Some _, Some NDir => Err EEXIST
      | Some NDir, _ => Err EINVAL
      | Some n, _ => if bool_decide (p = q) then Ok (d, tt) else Ok (<[q := n]> (delete p d), tt)
      end
  | Err e, _ | _, Err e => Err e
  end).

Definition Chmod (p : path) (mode : Z) : io unit := syscall nothing (fun d =>
  match resolve maxLinks d p with
  | Err e => Err e
  | Ok q => Ok (update_file (fun x => x <| f_mode := mode |>) p d, tt)
  end).

Definition has_children (q : path) (d : fs) : bool :=
  existsb (fun e => bool_decide (tail e.1 = q)) (map_to_list d).

Definition Remove (p : path) : io unit := syscall nothing (fun d =>
  match locate d p with
  | Err e => Err e
  | Ok q =>
      match entry d q with
      | None => Err ENOENT
      | Some NDir => if has_children q d || bool_decide (q = []) then Err ENOTEMPTY else Ok (delete q d, tt)
      | Some _ => Ok (delete q d, tt)
      end
  end).

Definition ReadFile (p : path) : io string := syscall nothing (fun d =>
  match resolve maxLinks d p with
  | Err e => Err e
  | Ok q =>
      match entry d q with
      | Some (NFile x) => Ok (d, f_bytes x)
      | Some NDir => Err EISDIR
      | _ => Err EINVAL
      end
  end).
