(* ===== verification/FilesLogic.v ===== *)
(** * Reasoning about calls that fail and states that are seen

    Specifications of file programs with three conditions: what holds before,
    what holds of the outcome, and what holds of every state in between, for a
    reader or a power failure may meet any of them. *)

From S2P Require Import Prelude Errors GoStrings Files.
From stdpp Require Import gmap strings list.
Open Scope io_scope.

(** ** Triples *)

Section triples.
(** [name] is the next temporary name; a [calm] system fails no call. *)
Context (name : string) (calm : bool).

Definition ready (w : world) : Prop := w_name w = name /\ (calm = true -> w_faults w = []).

Definition outcome {A : Type} (seen : fs -> Prop) (Q : result A gerr -> fs -> Prop) (w : world) (o : world * result A gerr) : Prop :=
  ready o.1 /\ Q o.2 (w_fs o.1) /\ exists states, w_past o.1 = states ++ w_past w /\ Forall seen states.

Definition triple {A : Type} (P : fs -> Prop) (m : io A) (seen : fs -> Prop) (Q : result A gerr -> fs -> Prop) : Prop :=
  forall w, ready w -> P (w_fs w) -> outcome seen Q w (m w).

Context (seen : fs -> Prop).

Lemma triple_ret {A : Type} (P : fs -> Prop) (a : A) (Q : result A gerr -> fs -> Prop) :
  (forall d, P d -> Q (Ok a) d) -> triple P (ret a) seen Q.
Proof using Type. intros H w Hw HP. split; [done|]. split; [by apply H|]. by exists []. Qed.

Lemma triple_fail {A : Type} (P : fs -> Prop) (e : gerr) (Q : result A gerr -> fs -> Prop) :
  (forall d, P d -> Q (Err e) d) -> triple P (fail e) seen Q.
Proof using Type. intros H w Hw HP. split; [done|]. split; [by apply H|]. by exists []. Qed.

(** Run [k] after what [m] did. *)
Lemma outcome_then {A B : Type} (R : result A gerr -> fs -> Prop) (Q : result B gerr -> fs -> Prop)
    w (o : world * result A gerr) (o' : world * result B gerr) :
  outcome seen R w o -> (R o.2 (w_fs o.1) -> ready o.1 -> outcome seen Q o.1 o') -> outcome seen Q w o'.
Proof using Type.
  intros (Hr & HR & st1 & E1 & F1) Hk. destruct (Hk HR Hr) as (Hr' & HQ & st2 & E2 & F2).
  split; [done|]. split; [done|]. exists (st2 ++ st1). rewrite E2, E1, app_assoc. split; [done|].
  by apply Forall_app.
Qed.

Lemma triple_bind {A B : Type} (P : fs -> Prop) (m : io A) (k : A -> io B) (R : result A gerr -> fs -> Prop)
    (Q : result B gerr -> fs -> Prop) :
  triple P m seen R -> (forall d e, R (Err e) d -> Q (Err e) d) ->
  (forall a, triple (R (Ok a)) (k a) seen Q) -> triple P (bind m k) seen Q.
Proof using Type.
  intros Hm He Hk w Hw HP. eapply outcome_then; [by apply Hm|]. intros HR Hr. unfold bind.
  destruct (m w) as [w1 [a|e]]; cbn in *; [by apply Hk|].
  split; [done|]. split; [by apply He|]. by exists [].
Qed.

Lemma triple_attempt {A : Type} (P : fs -> Prop) (m : io A) (Q : result (result A gerr) gerr -> fs -> Prop) :
  triple P m seen (fun r d => Q (Ok r) d) -> triple P (attempt m) seen Q.
Proof using Type. intros Hm w Hw HP. specialize (Hm w Hw HP). unfold attempt. by destruct (m w) as [w1 r]. Qed.

Lemma triple_wrapped {A : Type} (P : fs -> Prop) (prefix : string) (m : io A) (Q : result A gerr -> fs -> Prop) :
  triple P m seen (fun r d => match r with Ok a => Q (Ok a) d | Err e => Q (Err (EWrap prefix e)) d end) ->
  triple P (wrapped prefix m) seen Q.
Proof using Type. intros Hm w Hw HP. specialize (Hm w Hw HP). unfold wrapped. by destruct (m w) as [w1 [a|e]]. Qed.

Lemma triple_deferred {A B : Type} (P : fs -> Prop) (after : io B) (m : io A) (R : result A gerr -> fs -> Prop)
    (Q : result A gerr -> fs -> Prop) :
  triple P m seen R -> (forall r, triple (R r) after seen (fun _ d => Q r d)) -> triple P (deferred after m) seen Q.
Proof using Type.
  intros Hm Ha w Hw HP. eapply outcome_then; [by apply Hm|]. intros HR Hr. unfold deferred.
  destruct (m w) as [w1 r]. cbn in *. specialize (Ha r w1 Hr HR). by destruct (after w1) as [w2 ?].
Qed.

Lemma triple_onError {A B : Type} (P : fs -> Prop) (after : io B) (m : io A) (R : result A gerr -> fs -> Prop)
    (Q : result A gerr -> fs -> Prop) :
  triple P m seen R -> (forall d a, R (Ok a) d -> Q (Ok a) d) ->
  (forall e, triple (R (Err e)) after seen (fun _ d => Q (Err e) d)) -> triple P (onError after m) seen Q.
Proof using Type.
  intros Hm Ho Ha w Hw HP. eapply outcome_then; [by apply Hm|]. intros HR Hr. unfold onError.
  destruct (m w) as [w1 [a|e]]; cbn in *.
  - split; [done|]. split; [by apply Ho|]. by exists [].
  - specialize (Ha e w1 Hr HR). by destruct (after w1) as [w2 ?].
Qed.

Lemma triple_conseq {A : Type} (P P' : fs -> Prop) (m : io A) (Q Q' : result A gerr -> fs -> Prop) :
  triple P' m seen Q' -> (forall d, P d -> P' d) -> (forall r d, Q' r d -> Q r d) -> triple P m seen Q.
Proof using Type. intros Hm Hp Hq w Hw HP. destruct (Hm w Hw (Hp _ HP)) as (? & ? & ?). split; [done|]. auto. Qed.

(** A fact about an unchanged file system is a hypothesis. *)
Lemma triple_given {A : Type} (d0 : fs) (fact : Prop) (m : io A) (Q : result A gerr -> fs -> Prop) :
  (fact -> triple (eq d0) m seen Q) -> triple (fun d => d = d0 /\ fact) m seen Q.
Proof using Type. intros Hm w Hw [Hd Hf]. by apply Hm. Qed.

Lemma triple_each {A : Type} (P : fs -> Prop) (m : io A) (Q : result A gerr -> fs -> Prop) :
  (forall d, P d -> triple (eq d) m seen Q) -> triple P m seen Q.
Proof using Type. intros Hm w Hw HP. by apply (Hm (w_fs w)). Qed.

Lemma triple_syscall {A : Type} (P : fs -> Prop) (partly : nat -> fs -> fs) (act : fs -> result (fs * A) gerr)
    (Q : result A gerr -> fs -> Prop) :
  (forall d n e, P d -> calm = false -> seen (partly n d) /\ Q (Err (EText e)) (partly n d)) ->
  (forall d, P d -> match act d with Ok (d', a) => seen d' /\ Q (Ok a) d' | Err e => Q (Err e) d end) ->
  triple P (syscall partly act) seen Q.
Proof using Type.
  intros Hf Ha w [Hn Hc] HP. unfold syscall.
  assert (forall f rest d past, w_faults w = f :: rest -> ready (mkWorld d past rest (w_name w))) as Hrest.
  { intros f rest d past Hw. split; [done|]. intros Hcalm. specialize (Hc Hcalm). congruence. }
  assert (forall d past, ready (mkWorld d past (w_faults w) (w_name w))) as Hnone by by split.
  assert (forall ft rest, w_faults w = Some ft :: rest -> calm = false) as Hcalm.
  { intros ft rest Hw. destruct calm; [|done]. specialize (Hc eq_refl). congruence. }
  specialize (Ha _ HP). destruct (w_faults w) as [|[ft|] rest] eqn:Hw; cbn.
  2: { destruct (Hf (w_fs w) (ft_written ft) (ft_text ft) HP (Hcalm _ _ eq_refl)).
       split; [by eapply Hrest|]. split; [done|]. eexists [_]. split; [done|]. by constructor. }
  all: destruct (act (w_fs w)) as [[d a]|e]; cbn; [destruct Ha as [Hs HQ]|].
  all: (split; [first [apply Hnone|by eapply Hrest]|]); (split; [done|]).
  1, 3: (eexists [_]; split; [done|]; by constructor).
  all: by exists [].
Qed.
End triples.

(** ** Names without links *)

(** Every entry is in a directory. *)
Definition parented (d : fs) : Prop :=
  forall (name : string) (dir : path) (n : node), d !! (name :: dir) = Some n -> entry d dir = Some NDir.

(** Neither the path nor a directory on the way is a link. *)
Fixpoint linkfree (d : fs) (p : path) : Prop :=
  match p with
  | [] => True
  | name :: dir => (forall target, d !! (name :: dir) <> Some (NLink target)) /\ linkfree d dir
  end.

Section names.
Context (d : fs).
Hypothesis Hp : parented d.

Lemma linkfree_dir p : entry d p = Some NDir -> linkfree d p.
Proof using Hp.
  induction p as [|name dir IH]; [done|]. cbn. intros Hd. split; [congruence|].
  apply IH. by eapply Hp.
Qed.

Lemma resolve_linkfree links p :
  linkfree d p ->
  match entry d p with
  | Some _ => resolve links d p = Ok p
  | None => exists e, resolve links d p = Err e
  end.
Proof using Hp.
  induction p as [|name dir IH]; [by destruct links|]. intros [Hn Hl]. specialize (IH Hl).
  assert (resolve links d (name :: dir) =
    match resolve links d dir with
    | Err e => Err e
    | Ok q => match entry d q with
        | Some NDir => match d !! (name :: q) with
            | None => Err ENOENT
            | Some (NLink target) => match links with O => Err ELOOP | S links => resolve links d target end
            | Some _ => Ok (name :: q) end
        | _ => Err ENOTDIR end
    end) as -> by by destruct links.
  cbn. destruct (d !! (name :: dir)) as [n|] eqn:Hd.
  - pose proof (Hp _ _ _ Hd) as Hdir. rewrite Hdir in IH. rewrite IH, Hdir, Hd.
    destruct n; [done..| |done]. by destruct (Hn target).
  - destruct (entry d dir) as [n|] eqn:He.
    + rewrite IH, He. destruct n; [|by eexists..]. rewrite Hd. by eexists.
    + destruct IH as [e ->]. by eexists.
Qed.

Lemma resolve_entry links p n : linkfree d p -> entry d p = Some n -> resolve links d p = Ok p.
Proof using Hp. intros Hl Hn. pose proof (resolve_linkfree links p Hl) as H. by rewrite Hn in H. Qed.

Lemma resolve_missing links name dir :
  entry d dir = Some NDir -> d !! (name :: dir) = None -> resolve links d (name :: dir) = Err ENOENT.
Proof using Hp.
  intros Hd Hn. pose proof (resolve_entry links dir NDir (linkfree_dir dir Hd) Hd) as Hr.
  destruct links; cbn [resolve] in *; by rewrite Hr, Hd, Hn.
Qed.

Lemma locate_in_dir name dir : entry d dir = Some NDir -> locate d (name :: dir) = Ok (name :: dir).
Proof using Hp. intros Hd. unfold locate. by rewrite (resolve_entry _ dir NDir), Hd by auto using linkfree_dir. Qed.

Lemma locate_entry p n : linkfree d (tail p) -> entry d p = Some n -> locate d p = Ok p.
Proof using Hp. intros Hl Hn. destruct p as [|name dir]; [done|]. apply locate_in_dir. by eapply Hp. Qed.

Lemma locate_linkfree p q : linkfree d (tail p) -> locate d p = Ok q -> q = p.
Proof using Hp.
  destruct p as [|name dir]; [by intros _ [= <-]|]. cbn. intros Hl.
  pose proof (resolve_linkfree maxLinks dir Hl) as H. destruct (entry d dir) as [n|] eqn:He.
  - rewrite H, He. destruct n; congruence.
  - destruct H as [e ->]. done.
Qed.
End names.

Lemma linkfree_mono d d' p :
  (forall q target, d' !! q = Some (NLink target) -> d !! q = Some (NLink target)) -> linkfree d p -> linkfree d' p.
Proof.
  intros Hd. induction p as [|name dir IH]; [done|]. intros [Hn Hl]. split; [|by apply IH].
  intros target Ht. by apply (Hn target), Hd.
Qed.

Lemma linkfree_suffix d p q : q `suffix_of` p -> linkfree d p -> linkfree d q.
Proof. intros [k ->]. induction k as [|name k IH]; [done|]. intros [_ ?]. by apply IH. Qed.

Lemma entry_insert d (name : string) (dir q : path) (n : node) :
  entry (<[name :: dir := n]> d) q = if decide (q = name :: dir) then Some n else entry d q.
Proof.
  destruct q as [|base q]; [by rewrite decide_False|]. cbn. case_decide as Hq.
  - by rewrite Hq, lookup_insert_eq.
  - by rewrite lookup_insert_ne.
Qed.

Lemma cons_not_self {A : Type} (a : A) (l : list A) : l <> a :: l.
Proof. intros H. apply (f_equal length) in H. cbn in H. lia. Qed.

Lemma parented_insert d (name : string) (dir : path) (n : node) :
  parented d -> entry d dir = Some NDir -> (d !! (name :: dir) = Some NDir -> n = NDir) ->
  parented (<[name :: dir := n]> d).
Proof.
  intros Hp Hd Hn base q m Hm. rewrite entry_insert. destruct (decide (base :: q = name :: dir)) as [[= -> ->]|Hne].
  - by rewrite decide_False by apply cons_not_self.
  - rewrite lookup_insert_ne in Hm by done. apply Hp in Hm. case_decide as Hq; [|done].
    rewrite Hq in Hm. cbn in Hm. by rewrite Hn.
Qed.

Lemma parented_delete d (p : path) : parented d -> entry d p <> Some NDir -> parented (delete p d).
Proof.
  intros Hp Hn base q m Hm. apply lookup_delete_Some in Hm as [_ Hm]. apply Hp in Hm.
  destruct q as [|b q]; [done|]. cbn in *. rewrite lookup_delete_ne; [done|]. by intros ->.
Qed.

(** What [Lstat] finds. *)
Definition lstat (d : fs) (p : path) : result node gerr :=
  match locate d p with
  | Err e => Err e
  | Ok q => match entry d q with Some n => Ok n | None => Err ENOENT end
  end.

Lemma lstat_sound d p n : parented d -> linkfree d (tail p) -> lstat d p = Ok n -> entry d p = Some n.
Proof.
  intros Hp Hl. unfold lstat. destruct (locate d p) as [q|] eqn:Hq; [|done].
  apply locate_linkfree in Hq as ->; [|done..]. by destruct (entry d p) as [n'|]; [intros [= ->]|].
Qed.

Lemma lstat_entry d p n : parented d -> linkfree d (tail p) -> entry d p = Some n -> lstat d p = Ok n.
Proof. intros Hp Hl Hn. unfold lstat. by rewrite (locate_entry d Hp p n), Hn. Qed.

Lemma lstat_dir d p : parented d -> entry d p = Some NDir -> lstat d p = Ok NDir.
Proof.
  intros Hp Hd. apply lstat_entry; [done| |done]. apply (linkfree_dir d Hp) in Hd. by destruct p; [|apply Hd].
Qed.

Lemma lstat_in_dir d name dir :
  parented d -> entry d dir = Some NDir ->
  lstat d (name :: dir) = match d !! (name :: dir) with Some n => Ok n | None => Err ENOENT end.
Proof. intros Hp Hd. unfold lstat. by rewrite locate_in_dir. Qed.

(** ** The calls *)

Section calls.
Context (name : string) (calm : bool) (seen : fs -> Prop).
Notation triple := (triple name calm).

(** A failed call of a calm system has a reason. *)
Definition excuse {A : Type} (r : result A gerr) : Prop := calm = false /\ exists e, r = Err (EText e).

Lemma triple_query {A : Type} (P : fs -> Prop) (act : fs -> result (fs * A) gerr) (Q : result A gerr -> fs -> Prop) :
  (forall d, P d -> seen d) ->
  (forall d e, P d -> calm = false -> Q (Err (EText e)) d) ->
  (forall d, P d -> match act d with Ok (d', a) => d' = d /\ Q (Ok a) d | Err e => Q (Err e) d end) ->
  triple P (syscall nothing act) seen Q.
Proof using Type.
  intros Hs Hf Ha. apply triple_syscall.
  - intros d n e HP Hc. split; [by apply Hs|by apply Hf].
  - intros d HP. specialize (Ha d HP). destruct (act d) as [[d' a]|e]; [|done]. destruct Ha as [-> ?]. split; [by apply Hs|done].
Qed.

Lemma triple_Lstat (d0 : fs) (p : path) (Q : result node gerr -> fs -> Prop) :
  seen d0 -> (forall e, calm = false -> Q (Err (EText e)) d0) -> Q (lstat d0 p) d0 ->
  triple (eq d0) (Lstat p) seen Q.
Proof using Type.
  intros Hs Hf HQ. apply triple_query; [by intros d <-|intros d e <- ?; by apply Hf|]. intros d <-. unfold lstat in HQ.
  destruct (locate d0 p); [|done]. by destruct (entry d0 _).
Qed.
End calls.
