(* ===== verification/SourceStore.v ===== *)
(** * The file behind the source store (core/sessionapi/source_store.go)

    The accepted URL and the saved selection live in one private file each,
    replaced through a temporary file beside it. *)

From S2P Require Import Prelude Errors GoStrings Files.
From stdpp Require Import gmap strings list.
Open Scope io_scope.

Definition maxStoredSourceURL : Z := 1048576%Z.

(** The permissions 0600. *)
Definition private : Z := 384%Z.

Record FileSourceStore := mkFileSourceStore { Path : path }.

(** [filepath.Dir]; the parent of the root is the root. *)
Definition Dir (p : path) : path := tail p.

Definition is_link (n : node) : bool := match n with NLink _ => true | _ => false end.

(** From the path itself up to the root. *)
Fixpoint validateNoSymlinkAncestors (current : path) : io unit :=
  let parent := match current with [] => ret tt | _ :: dir => validateNoSymlinkAncestors dir end in
  let! info := attempt (Lstat current) in
  match info with
  | Err err => if negb (is_sent OsErrNotExist err) then fail err else parent
  | Ok info =>
      if is_link info then fail (EText "saved configuration path contains a symbolic link")
      else parent
  end.

Definition validateSourcePath (dir p : path) : io unit :=
  let! _ := validateNoSymlinkAncestors dir in
  let! info := Lstat dir in
  match info with
  | NDir =>
      let! info := attempt (Lstat p) in
      match info with
      | Err err => if is_sent OsErrNotExist err then ret tt else fail err
      | Ok (NFile _) => ret tt
      | Ok _ => fail (EText "saved configuration URL is not a regular file")
      end
  | _ => fail (EText "saved configuration directory is not a real directory")
  end.

Definition replaceSourceFile (temporary destination : path) : io unit := Rename temporary destination.

Definition tooLarge (raw : string) : bool := (maxStoredSourceURL <? Z.of_nat (String.length raw))%Z.

Definition read (p : path) : io string :=
  match p with
  | [] => fail ENOENT
  | _ =>
      let! valid := attempt (validateSourcePath (Dir p) p) in
      match valid with
      | Err err => if is_sent OsErrNotExist err then fail ENOENT else fail err
      | Ok _ =>
          let! raw := ReadFile p in
          if tooLarge raw then fail (EText "saved configuration URL exceeds 1048576 bytes") else ret raw
      end
  end.

(** [if err := ctx.Err(); err != nil] *)
Definition checked (ctxErr : option gerr) : io unit :=
  match ctxErr with Some err => fail err | None => ret tt end.

(** [None] is the nil slice of a file that does not exist. *)
Definition Load (s : FileSourceStore) (ctxErr : option gerr) : io (option string) :=
  let! _ := checked ctxErr in
  let! raw := attempt (read (Path s)) in
  match raw with
  | Ok raw => ret (Some raw)
  | Err err => if is_sent OsErrNotExist err then ret None else fail err
  end.

(** What the temporary file goes through before it replaces the file. *)
Definition fill (temporary : path) (raw : string) : io unit :=
  let! _ := wrapped "restrict saved configuration permissions"
              (onError (FileClose temporary) (FileChmod temporary private)) in
  let! _ := wrapped "write saved configuration URL" (onError (FileClose temporary) (FileWrite temporary raw)) in
  let! _ := wrapped "flush saved configuration URL" (onError (FileClose temporary) (FileSync temporary)) in
  wrapped "close saved configuration URL" (FileClose temporary).

Definition publish (temporary destination : path) : io unit :=
  let! _ := wrapped "replace saved configuration URL" (replaceSourceFile temporary destination) in
  wrapped "restrict saved configuration permissions" (Chmod destination private).

Definition acceptable (raw : string) : option gerr :=
  if String.eqb raw "" || tooLarge raw
  then Some (EText "saved configuration URL must contain 1 to 1048576 bytes")
  else if String.eqb (TrimSpace raw) "" then Some (EText "saved configuration URL is empty")
  else None.

Definition Save (s : FileSourceStore) (ctxErr : option gerr) (raw : string) : io unit :=
  let! _ := checked ctxErr in
  match acceptable raw with
  | Some err => fail err
  | None =>
      let dir := Dir (Path s) in
      let! _ := validateNoSymlinkAncestors dir in
      let! _ := wrapped "create saved configuration directory" (MkdirAll dir) in
      let! _ := validateSourcePath dir (Path s) in
      let! temporary := wrapped "create saved configuration temporary file"
                          (CreateTemp dir ".dobby-source-" ".tmp") in
      deferred (Remove temporary)
        (let! _ := fill temporary raw in publish temporary (Path s))
  end.

Definition removeSource (p : path) : io unit :=
  let! removed := attempt (Remove p) in
  match removed with
  | Err err => if negb (is_sent OsErrNotExist err) then fail (EWrap "remove saved configuration URL" err) else ret tt
  | Ok _ => ret tt
  end.

Definition Clear (s : FileSourceStore) (ctxErr : option gerr) : io unit :=
  let! _ := checked ctxErr in
  let! valid := attempt (validateSourcePath (Dir (Path s)) (Path s)) in
  match valid with
  | Err err => if negb (is_sent OsErrNotExist err) then fail err else removeSource (Path s)
  | Ok _ => removeSource (Path s)
  end.

(** The saved selection is a file beside it. *)
Definition activationStore (s : FileSourceStore) : FileSourceStore :=
  mkFileSourceStore
    match Path s with
    | [] => [".activation.json"]
    | name :: dir => (name +:+ ".activation.json") :: dir
    end.

Definition LoadActivation (s : FileSourceStore) (ctxErr : option gerr) : io (option string) :=
  Load (activationStore s) ctxErr.

Definition SaveActivation (s : FileSourceStore) (ctxErr : option gerr) (raw : string) : io unit :=
  Save (activationStore s) ctxErr raw.

(** controlplane/source_store.go, [ConnectionSourceStore] *)
Definition ConnectionSourceStore (home : path) : FileSourceStore :=
  mkFileSourceStore ("connection-url.txt" :: "configs" :: ".dobbyvpn" :: home).
