(* ===== verification/SourceStoreTheorems.v ===== *)
(** * What the stored files promise *)

From S2P Require Import Prelude Errors GoStrings Files FilesLogic SourceStore.
From stdpp Require Import gmap strings list.
Open Scope io_scope.

(** ** The checks of a path *)

Section checks.
Context (name : string) (calm : bool) (seen : fs -> Prop) (d0 : fs).
Hypothesis Hp : parented d0.
Hypothesis Hs : seen d0.
Notation triple := (triple name calm).

(** The system's answer, or that of a call that failed. *)
Definition answered_by {A : Type} (real r : result A gerr) : Prop :=
  r = real \/ calm = false /\ exists e, r = Err (EText e).

(** [errors.Is(err, os.ErrNotExist)] *)
Definition missing {A : Type} (r : result A gerr) : bool :=
  match r with Err err => is_sent OsErrNotExist err | Ok _ => false end.

Lemma triple_attempt_Lstat (p : path) :
  triple (eq d0) (attempt (Lstat p)) seen
    (fun r d => d = d0 /\ match r with Ok r => answered_by (lstat d0 p) r | Err _ => False end).
Proof using Hs.
  apply triple_attempt, triple_Lstat; [done| |].
  - intros e Hc. split; [done|]. right. eauto.
  - split; [done|]. by left.
Qed.

Lemma not_linked p err :
  linkfree d0 (tail p) -> answered_by (lstat d0 p) (Err err) -> is_sent OsErrNotExist err = true -> linkfree d0 p.
Proof using Hp.
  intros Hl Ha He. destruct p as [|base dir]; [done|]. split; [|done]. intros target Ht.
  rewrite (lstat_entry d0 (base :: dir) (NLink target)) in Ha by done.
  destruct Ha as [?|(_ & e & [= ->])]; done.
Qed.

Lemma triple_validateNoSymlinkAncestors (p : path) :
  triple (eq d0) (validateNoSymlinkAncestors p) seen
    (fun r d => d = d0 /\ (r = Ok tt -> linkfree d0 p) /\ (calm = true -> entry d0 p = Some NDir -> r = Ok tt) /\
      missing r = false).
Proof using Hp Hs.
  induction p as [|base dir IH].
  { eapply triple_bind; [apply triple_attempt_Lstat|by intros d e [_ []]|]. intros [info|err].
    - cbn. destruct (is_link info) eqn:Hi; [apply triple_fail|apply triple_ret]; intros d [-> Ha]; split_and!; try done.
      intros Hc _. destruct Ha as [Ha|[? _]]; [|congruence]. by injection Ha as ->.
    - cbn. destruct (negb _) eqn:Hn; [apply triple_fail|apply triple_ret]; intros d [-> Ha]; split_and!; try done.
      2: by apply negb_true_iff in Hn.
      intros Hc _. destruct Ha as [Ha|[? _]]; [done|congruence]. }
  cbn [validateNoSymlinkAncestors]. eapply triple_bind; [apply triple_attempt_Lstat|by intros d e [_ []]|].
  intros [info|err].
  - destruct (is_link info) eqn:Hi.
    + apply triple_fail. intros d [-> Ha]. split_and!; try done. intros Hc Hd.
      rewrite lstat_dir in Ha by done.
      destruct Ha as [[= ->]|[? _]]; [done|congruence].
    + intros w Hw [Hd Ha]. destruct (IH w Hw (eq_sym Hd)) as (Hr & (Hd' & Hl & Hc & Hm) & Hst). split; [done|]. split; [|done].
      split_and!; [done| | |done].
      * intros Hok. specialize (Hl Hok). split; [|done]. intros target Ht.
        rewrite (lstat_entry d0 _ (NLink target)) in Ha by done. destruct Ha as [[= ->]|(_ & ? & ?)]; done.
      * intros Hcalm Hdir. apply Hc; [done|]. by eapply Hp.
  - destruct (negb _) eqn:Hn.
    + apply triple_fail. intros d [-> Ha]. split_and!; try done; [|by apply negb_true_iff in Hn].
      intros Hc Hd. rewrite lstat_dir in Ha by done. destruct Ha as [?|[? _]]; [done|congruence].
    + apply negb_false_iff in Hn. intros w Hw [Hd Ha]. destruct (IH w Hw (eq_sym Hd)) as (Hr & (Hd' & Hl & Hc & Hm) & Hst).
      split; [done|]. split; [|done]. split_and!; [done| | |done].
      * intros Hok. by eapply not_linked; [apply Hl| |].
      * intros Hcalm Hdir. apply Hc; [done|]. by eapply Hp.
Qed.

(** What a source may be stored as: a file or nothing. *)
Definition regular (p : path) : Prop := d0 !! p = None \/ exists f, d0 !! p = Some (NFile f).

Lemma missing_dir (base : string) (dir : path) : entry d0 dir <> Some NDir -> d0 !! (base :: dir) = None.
Proof using Hp. intros Hd. destruct (d0 !! (base :: dir)) eqn:He; [|done]. by destruct Hd; eapply Hp. Qed.

(** The outcome of [validateSourcePath]. *)
Definition validated (base : string) (dir : path) (r : result unit gerr) : Prop :=
  (r = Ok tt -> linkfree d0 dir /\ entry d0 dir = Some NDir /\ regular (base :: dir)) /\
  (calm = true -> entry d0 dir = Some NDir -> regular (base :: dir) -> r = Ok tt) /\
  (missing r = true -> linkfree d0 dir /\ d0 !! (base :: dir) = None).

(** Its last look, at the file itself. *)
Lemma validated_file (base : string) (dir : path) (info : result node gerr) :
  linkfree d0 dir -> entry d0 dir = Some NDir -> answered_by (lstat d0 (base :: dir)) info ->
  validated base dir
    match info with
    | Err err => if is_sent OsErrNotExist err then Ok tt else Err err
    | Ok (NFile _) => Ok tt
    | Ok _ => Err (EText "saved configuration URL is not a regular file")
    end.
Proof using Hp.
  intros Hl Hd. rewrite lstat_in_dir by done. unfold validated, regular.
  intros [->|(Hc & e & ->)]; [|split_and!; try done; intros; congruence].
  destruct (d0 !! (base :: dir)) as [[|f|target|]|] eqn:He; cbn; split_and!; try done; eauto.
  all: intros _ _ [?|[? ?]]; congruence.
Qed.

Lemma triple_validateSourcePath (base : string) (dir : path) :
  triple (eq d0) (validateSourcePath dir (base :: dir)) seen (fun r d => d = d0 /\ validated base dir r).
Proof using Hp Hs.
  eapply triple_bind; [apply triple_validateNoSymlinkAncestors| |].
  { intros d e (-> & _ & Hc & Hm). split; [done|]. split_and!; [done| |by rewrite Hm]. intros Hcalm Hd. by specialize (Hc Hcalm Hd). }
  intros []. apply triple_given. intros (Hl & _ & _). specialize (Hl eq_refl).
  eapply triple_bind with (R := fun r d => d = d0 /\ answered_by (lstat d0 dir) r).
  { apply triple_Lstat; [done| |]; [intros e Hc|]; (split; [done|]); [right; eauto|by left]. }
  { intros d e (-> & Ha). split; [done|]. split_and!; [done| |].
    - intros Hc Hd. rewrite lstat_dir in Ha by done. destruct Ha as [?|[? _]]; [done|congruence].
    - cbn. intros He. split; [done|]. apply missing_dir. intros Hd. rewrite lstat_dir in Ha by done.
      destruct Ha as [?|(_ & ? & [= ->])]; done. }
  intros info. apply triple_given. intros Ha. assert (entry d0 dir = Some info) as Hinfo.
  { destruct Ha as [Ha|(_ & ? & ?)]; [|done]. symmetry in Ha. apply lstat_sound in Ha; [done..|]. by destruct dir; [|apply Hl]. }
  destruct info as [|f|target|].
  2-4: apply triple_fail; intros d <-; split; [done|]; split_and!; [done|congruence|done].
  eapply triple_bind; [apply triple_attempt_Lstat|by intros d e [_ []]|].
  intros r. apply triple_given. intros Hr. pose proof (validated_file base dir r Hl Hinfo Hr) as Hv.
  destruct r as [[|f|target|]|e]; [apply triple_fail|apply triple_ret|apply triple_fail..|]; [by intros d <-..|].
  case_match; [apply triple_ret|apply triple_fail]; by intros d <-.
Qed.

(** ** Reading *)

(** The contents [Load] may return, and must when no call fails. *)
Definition contents (p : path) : option string :=
  match d0 !! p with Some (NFile f) => Some (f_bytes f) | _ => None end.

Definition reads (base : string) (dir : path) (r : result string gerr) : Prop :=
  (forall raw, r = Ok raw -> linkfree d0 (base :: dir) /\ contents (base :: dir) = Some raw /\ tooLarge raw = false) /\
  (missing r = true -> linkfree d0 (base :: dir) /\ d0 !! (base :: dir) = None) /\
  (calm = true -> entry d0 dir = Some NDir ->
    (d0 !! (base :: dir) = None -> missing r = true) /\
    (forall raw, contents (base :: dir) = Some raw -> tooLarge raw = false -> r = Ok raw)).

Lemma contents_regular p raw : contents p = Some raw -> regular p.
Proof using Type. unfold contents, regular. destruct (d0 !! p) as [[]|]; try done; eauto. Qed.

Lemma triple_read (base : string) (dir : path) :
  triple (eq d0) (read (base :: dir)) seen (fun r d => d = d0 /\ reads base dir r).
Proof using Hp Hs.
  cbn [read Dir tail].
  eapply triple_bind with (R := fun r d => d = d0 /\ match r with Ok r => validated base dir r | Err _ => False end).
  { apply triple_attempt, triple_validateSourcePath. }
  { by intros d e [_ []]. }
  intros [[]|e]; apply triple_given; intros (Hok & Hcalm & Hmiss).
  2: { assert (reads base dir (Err e)) as Hr.
       { split_and!; [done| |].
       { intros Hm. destruct (Hmiss Hm) as [Hl Hn]. split; [|done]. split; [by rewrite Hn|done]. }
       intros Hc Hd. split.
         - intros Hn. by specialize (Hcalm Hc Hd (or_introl Hn)).
         - intros raw Hraw _. by specialize (Hcalm Hc Hd (contents_regular _ _ Hraw)). }
       case_match eqn:He; apply triple_fail; intros d <-; (split; [done|]); [|done].
       destruct Hr as (_ & Hm & Hx). split_and!; [done|by intros _; apply Hm|]. intros Hc Hd.
       destruct (Hx Hc Hd) as [_ Hy]. split; [done|]. intros raw H1 H2. by specialize (Hy raw H1 H2). }
  destruct (Hok eq_refl) as (Hl & Hdir & Hreg). clear Hok Hcalm Hmiss.
  eapply triple_bind with (R := fun r d => d = d0 /\ answered_by match contents (base :: dir) with
    | Some raw => Ok raw | None => Err ENOENT end r).
  { apply triple_query; [by intros d <-|intros d e <- Hc; split; [done|right; eauto]|]. intros d <-. unfold contents.
    destruct Hreg as [Hn|[f Hf]].
    - rewrite resolve_missing by done. rewrite Hn. split; [done|by left].
    - assert (linkfree d0 (base :: dir)) as Hlp by (split; [congruence|done]).
      rewrite (resolve_entry d0 Hp maxLinks (base :: dir) (NFile f)) by done. cbn. rewrite Hf.
      split; [done|]. split; [done|by left]. }
  { intros d e [-> Ha]. split; [done|]. split_and!; [done| |].
    - cbn. unfold contents in Ha. destruct Hreg as [Hn|[f Hf]]; [intros _; split; [split; [by rewrite Hn|done]|done]|]. rewrite Hf in Ha.
      destruct Ha as [?|(_ & ? & [= ->])]; done.
    - intros Hc _. destruct Ha as [Ha|[? _]]; [|congruence]. unfold contents in *. destruct (d0 !! (base :: dir)) as [[]|] eqn:He;
        by simplify_eq. }
  intros raw. apply triple_given. intros [Ha|(_ & ? & ?)]; [|done].
  assert (contents (base :: dir) = Some raw) as Hraw by (destruct (contents _); congruence).
  assert (linkfree d0 (base :: dir)) as Hlp.
  { split; [|done]. unfold contents in Hraw. intros t Ht. by rewrite Ht in Hraw. }
  assert (d0 !! (base :: dir) <> None) as Hn by by (unfold contents in Hraw; destruct (d0 !! _)).
  destruct (tooLarge raw) eqn:Ht; [apply triple_fail|apply triple_ret]; intros d <-; (split; [done|]); split_and!; try done.
  - intros _ _. split; [done|]. intros raw' Hr Ht'. congruence.
  - by intros raw' [= <-].
  - intros _ _. split; [done|]. intros raw' Hr _. congruence.
Qed.

Definition loads (base : string) (dir : path) (r : result (option string) gerr) : Prop :=
  (forall raw, r = Ok (Some raw) ->
    linkfree d0 (base :: dir) /\ contents (base :: dir) = Some raw /\ tooLarge raw = false) /\
  (r = Ok None -> linkfree d0 (base :: dir) /\ d0 !! (base :: dir) = None) /\
  (calm = true -> entry d0 dir = Some NDir ->
    (d0 !! (base :: dir) = None -> r = Ok None) /\
    (forall raw, contents (base :: dir) = Some raw -> tooLarge raw = false -> r = Ok (Some raw))).

Lemma triple_Load (base : string) (dir : path) (ctxErr : option gerr) :
  triple (eq d0) (Load (mkFileSourceStore (base :: dir)) ctxErr) seen
    (fun r d => d = d0 /\ (ctxErr = None -> loads base dir r) /\ (ctxErr <> None -> is_ok r = false)).
Proof using Hp Hs.
  eapply triple_bind with (R := fun r d => d = d0 /\ r = match ctxErr with Some e => Err e | None => Ok tt end).
  { destruct ctxErr; [apply triple_fail|apply triple_ret]; by intros d <-. }
  { intros d e [-> He]. destruct ctxErr; [|done]. by split. }
  intros []. apply triple_given. intros Hc. destruct ctxErr; [done|]. clear Hc.
  eapply triple_bind with (R := fun r d => d = d0 /\ match r with Ok r => reads base dir r | Err _ => False end).
  { apply triple_attempt, triple_read. }
  { by intros d e [_ []]. }
  intros r. apply triple_given. intros (Hok & Hmiss & Hcalm).
  destruct r as [raw|e]; [apply triple_ret|case_match eqn:He; [apply triple_ret|apply triple_fail]]; intros d <-;
    (split; [done|]); (split; [|done]); intros _; split_and!; try done.
  - intros raw' [= <-]. by apply Hok.
  - intros Hc Hd. destruct (Hcalm Hc Hd) as [H1 H2]. split; [intros Hn; by specialize (H1 Hn)|].
    intros raw' Hr Ht. by specialize (H2 _ Hr Ht) as [= ->].
  - by intros _; apply Hmiss.
  - intros Hc Hd. destruct (Hcalm Hc Hd) as [H1 H2]. split; [done|]. intros raw' Hr Ht. by specialize (H2 _ Hr Ht).
  - intros Hc Hd. destruct (Hcalm Hc Hd) as [H1 H2]. split; [|intros raw' Hr Ht; by specialize (H2 _ Hr Ht)].
    intros Hn. specialize (H1 Hn). cbn in H1. congruence.
Qed.
End checks.

(** ** Replacing *)

Definition temporary (name : string) (dir : path) : path := (".dobby-source-" +:+ name +:+ ".tmp") :: dir.

Section save.
Context (name : string) (calm : bool) (base : string) (dir : path) (raw : string) (d0 : fs).
Notation p := (base :: dir).
Notation temp := (temporary name dir).
Hypothesis Hp0 : parented d0.
Hypothesis Htemp : temp <> p.

Definition new : node := NFile (mkFile raw private true).

(** Directories on the way to the file were made, nothing else. *)
Definition made (d : fs) (q : path) : Prop :=
  d !! q = d0 !! q \/ d0 !! q = None /\ d !! q = Some NDir /\ q `suffix_of` dir /\ q <> [].

(** What a reader may find while the file is replaced. *)
Record replacing (d : fs) : Prop := {
  rp_file : d !! p = d0 !! p \/ d !! p = Some new;
  rp_temp : d !! temp = d0 !! temp \/ exists f, d !! temp = Some (NFile f) /\ f_mode f = private;
  rp_rest : forall q, q <> p -> q <> temp -> made d q;
  rp_parented : parented d
}.

Record prepared (d : fs) : Prop := {
  pr_made : forall q, made d q;
  pr_parented : parented d;
  pr_linkfree : linkfree d dir
}.
Notation triple := (triple name calm).

Lemma not_suffix (b : string) : ~ (b :: dir) `suffix_of` dir.
Proof using Type. intros [k H]. apply (f_equal length) in H. rewrite length_app in H. cbn in H. lia. Qed.

Lemma made_beside d (b : string) : made d (b :: dir) -> d !! (b :: dir) = d0 !! (b :: dir).
Proof using Type. intros [?|(_ & _ & H & _)]; [done|]. by apply not_suffix in H. Qed.

Lemma prepared_replacing d : prepared d -> replacing d.
Proof using Type.
  intros [Hm Hpa _]. constructor; [left; by apply made_beside|left; by apply made_beside| |done]. intros q _ _. apply Hm.
Qed.

(** *** The directory *)

Lemma prepared_mkdir d (b : string) (q : path) :
  prepared d -> entry d q = Some NDir -> d !! (b :: q) = None -> (b :: q) `suffix_of` dir ->
  prepared (<[b :: q := NDir]> d).
Proof using Type.
  intros [Hm Hpa Hl] Hq Hn Hsuf. constructor.
  - intros x. unfold made. destruct (decide (x = b :: q)) as [->|Hx].
    + rewrite lookup_insert_eq. right. split_and!; [|done..]. destruct (Hm (b :: q)) as [H|(H & _)]; congruence.
    + rewrite lookup_insert_ne by done. apply Hm.
  - by apply parented_insert.
  - eapply linkfree_mono; [|done]. intros x t Hx. destruct (decide (x = b :: q)) as [->|Hne].
    + by rewrite lookup_insert_eq in Hx.
    + by rewrite lookup_insert_ne in Hx.
Qed.

Section prepared.
Context (d : fs).
Hypothesis Hd : prepared d.

Lemma suffix_linkfree q : q `suffix_of` dir -> linkfree d q.
Proof using Hd. intros H. eapply linkfree_suffix; [done|apply Hd]. Qed.

Lemma triple_attempt_Stat (q : path) :
  q `suffix_of` dir ->
  triple (eq d) (attempt (Stat q)) replacing (fun r d' => d' = d /\
    match r with Ok (Ok n) => entry d q = Some n | Ok (Err _) => True | Err _ => False end).
Proof using Hd.
  intros Hq. pose proof (prepared_replacing d Hd) as Hs. apply triple_attempt, triple_query; [by intros ? <-|by intros ? e <-|].
  intros ? <-. pose proof (resolve_linkfree d (pr_parented _ Hd) maxLinks q (suffix_linkfree q Hq)) as Hr.
  destruct (entry d q) as [n|] eqn:He; [by rewrite Hr, He|]. by destruct Hr as [e ->].
Qed.

Lemma triple_attempt_Lstat_dir (q : path) :
  q `suffix_of` dir ->
  triple (eq d) (attempt (Lstat q)) replacing (fun r d' => d' = d /\
    match r with Ok (Ok n) => entry d q = Some n | Ok (Err _) => True | Err _ => False end).
Proof using Hd.
  intros Hq. pose proof (prepared_replacing d Hd) as Hs. apply triple_attempt, triple_Lstat; [done|done|].
  split; [done|]. destruct (lstat d q) as [n|] eqn:Hn; [|done]. apply lstat_sound in Hn; [done|apply Hd|].
  apply suffix_linkfree in Hq. by destruct q; [|apply Hq].
Qed.

Lemma triple_attempt_Mkdir (q : path) :
  q `suffix_of` dir -> entry d (tail q) = Some NDir ->
  triple (eq d) (attempt (Mkdir q)) replacing (fun r d' => prepared d' /\
    match r with Ok (Ok _) => entry d' q = Some NDir | Ok (Err _) => True | Err _ => False end).
Proof using Hd.
  intros Hq Hdir. pose proof (prepared_replacing d Hd) as Hs. apply triple_attempt, triple_syscall; [by intros ? n e <- _|].
  intros ? <-. destruct q as [|b q]; [done|]. rewrite (locate_in_dir d (pr_parented _ Hd)) by done. cbn [entry].
  destruct (d !! (b :: q)) as [n|] eqn:Hn; [done|].
  assert (prepared (<[b :: q := NDir]> d)) as Hd' by by apply prepared_mkdir.
  split; [by apply prepared_replacing|]. split; [done|]. cbn. by rewrite lookup_insert_eq.
Qed.
End prepared.

(** [MkdirAll] once the parent is there. *)
Lemma triple_ensure (d : fs) (q : path) :
  prepared d -> q `suffix_of` dir -> entry d (tail q) = Some NDir ->
  triple (eq d)
    (let! made := attempt (Mkdir q) in
     match made with
     | Ok _ => ret tt
     | Err e => let! found := attempt (Lstat q) in match found with Ok NDir => ret tt | _ => fail e end
     end) replacing (fun r d' => prepared d' /\ (r = Ok tt -> entry d' q = Some NDir)).
Proof using Type.
  intros Hd Hq Hdir. eapply triple_bind; [by apply triple_attempt_Mkdir|by intros ? e [_ []]|].
  intros [[]|e]; [by apply triple_ret; intros ? [? ?]|]. apply triple_each. intros d' [Hd' _].
  eapply triple_bind; [by apply triple_attempt_Lstat_dir|by intros ? ? [_ []]|].
  intros [[]|e']; apply triple_given; intros He; [apply triple_ret|apply triple_fail..]; by intros ? <-.
Qed.

Lemma triple_MkdirAll (q : path) :
  q `suffix_of` dir ->
  triple prepared (MkdirAll q) replacing (fun r d => prepared d /\ (r = Ok tt -> entry d q = Some NDir)).
Proof using Type.
  induction q as [|b q IH]; intros Hsuf; cbn [MkdirAll]; apply triple_each; intros d Hd.
  all: eapply triple_bind; [by apply triple_attempt_Stat|by intros ? e [_ []]|];
    intros [[]|e]; apply triple_given; intros Hst;
    try (by apply triple_fail; intros ? <-); try (by apply triple_ret; intros ? <-).
  - eapply triple_bind with (R := fun r d' => d' = d /\ r = Ok tt); [by apply triple_ret; intros ? <-|by intros ? ? [_ ?]|].
    intros u. apply triple_given. intros _. by apply triple_ensure.
  - eapply triple_bind; [eapply triple_conseq; [apply IH|by intros ? <-|intros r d' H; exact H]| |].
    + etrans; [|exact Hsuf]. by exists [b].
    + by intros d' e' [? _].
    + intros []. apply triple_each. intros d' [Hd' Hdir]. apply triple_ensure; [done|done|by apply Hdir].
Qed.

(** *** The temporary file *)

Section filling.
Context (d1 : fs).
Hypothesis Hd1 : prepared d1.
Hypothesis Hdir : entry d1 dir = Some NDir.
Hypothesis Hfile : forall n, d1 !! p = Some n -> exists f, n = NFile f.
Hypothesis Hfresh : d1 !! temp = None.

Definition with_temp (fact : file -> Prop) (d : fs) : Prop :=
  exists f, d = <[temp := NFile f]> d1 /\ f_mode f = private /\ fact f.

Definition any (f : file) : Prop := True.

Lemma with_temp_parented f : parented (<[temp := NFile f]> d1).
Proof using Hd1 Hdir Hfresh.
  apply parented_insert; [apply Hd1|done|]. intros Ht. change (d1 !! temp = Some NDir) in Ht. congruence.
Qed.

Lemma with_temp_replacing fact d : with_temp fact d -> replacing d.
Proof using Hd1 Hdir Hfresh Htemp.
  intros (f & -> & Hm & _). destruct (prepared_replacing _ Hd1) as [Hf _ Hr _]. constructor; [| | |apply with_temp_parented].
  - by rewrite lookup_insert_ne by done.
  - right. exists f. by rewrite lookup_insert_eq.
  - intros q H1 H2. unfold made. rewrite lookup_insert_ne by done. by apply Hr.
Qed.

Lemma with_temp_any fact d : with_temp fact d -> with_temp any d.
Proof using Type. intros (f & -> & Hm & _). by exists f. Qed.

(** A change through the descriptor of the temporary file. *)
Lemma update_temp (f : file) (g : file -> file) :
  update_file g temp (<[temp := NFile f]> d1) = <[temp := NFile (g f)]> d1.
Proof using Hd1 Hdir Hfresh.
  pose proof (with_temp_parented f) as Hp.
  unfold update_file. rewrite (resolve_entry _ Hp maxLinks temp (NFile f)).
  - apply map_eq. intros q. destruct (decide (q = temp)) as [->|Hq].
    + by rewrite lookup_alter_eq, !lookup_insert_eq.
    + by rewrite lookup_alter_ne, !lookup_insert_ne by done.
  - split; [by rewrite lookup_insert_eq|]. apply (linkfree_dir _ Hp).
    unfold temporary; rewrite entry_insert, decide_False; [done|apply cons_not_self].
  - cbn. by rewrite lookup_insert_eq.
Qed.

Lemma triple_update (partly : nat -> file -> file) (g : file -> file) (fact result_fact : file -> Prop) :
  (forall n f, f_mode f = private -> f_mode (partly n f) = private) ->
  (forall f, f_mode f = private -> fact f -> f_mode (g f) = private /\ result_fact (g f)) ->
  triple (with_temp fact) (syscall (fun n => update_file (partly n) temp) (fun d => Ok (update_file g temp d, tt))) replacing
    (fun r d => match r with Ok _ => with_temp result_fact d | Err _ => with_temp any d end).
Proof using Hd1 Hdir Hfresh Htemp.
  intros Hn Hg. apply triple_syscall.
  - intros d n e (f & -> & Hm & Hf) _. rewrite update_temp.
    assert (with_temp any (<[temp := NFile (partly n f)]> d1)) as H by (exists (partly n f); split_and!; [done|by apply Hn|done]).
    split; [by eapply with_temp_replacing|done].
  - intros d (f & -> & Hm & Hf). rewrite update_temp. destruct (Hg f Hm Hf) as [H1 H2].
    assert (with_temp result_fact (<[temp := NFile (g f)]> d1)) as H by by exists (g f).
    split; [by eapply with_temp_replacing|done].
Qed.

Lemma update_same (d : fs) : update_file (fun f => f) temp d = d.
Proof using Type.
  unfold update_file. destruct (resolve _ _ _) as [q|]; [|done]. apply map_eq. intros x.
  destruct (decide (x = q)) as [->|Hx]; [|by rewrite lookup_alter_ne].
  rewrite lookup_alter_eq. by destruct (d !! q) as [[]|].
Qed.

(** A call through the descriptor that changes nothing when it fails, *)
Lemma triple_update_whole (g : file -> file) (fact result_fact : file -> Prop) :
  (forall f, f_mode f = private -> fact f -> f_mode (g f) = private /\ result_fact (g f)) ->
  triple (with_temp fact) (syscall nothing (fun d => Ok (update_file g temp d, tt))) replacing
    (fun r d => match r with Ok _ => with_temp result_fact d | Err _ => with_temp any d end).
Proof using Hd1 Hdir Hfresh Htemp.
  intros Hg. apply triple_syscall.
  - intros d n e H _. split; [by eapply with_temp_replacing|by eapply with_temp_any].
  - intros d (f & -> & Hm & Hf). rewrite update_temp. destruct (Hg f Hm Hf) as [H1 H2].
    assert (with_temp result_fact (<[temp := NFile (g f)]> d1)) as H by by exists (g f).
    split; [by eapply with_temp_replacing|done].
Qed.

(** and a close. *)
Lemma triple_FileClose (fact : file -> Prop) :
  triple (with_temp fact) (FileClose temp) replacing
    (fun r d => match r with Ok _ => with_temp fact d | Err _ => with_temp any d end).
Proof using Hd1 Hdir Hfresh Htemp.
  apply triple_syscall.
  - intros d n e H _. split; [by eapply with_temp_replacing|by eapply with_temp_any].
  - intros d H. split; [by eapply with_temp_replacing|done].
Qed.

Notation either fact := (fun (r : result unit gerr) d => match r with Ok _ => with_temp fact d | Err _ => with_temp any d end).

(** One step of [fill]. *)
Lemma triple_fill_step (prefix : string) (m : io unit) (fact result_fact : file -> Prop) :
  triple (with_temp fact) m replacing (either result_fact) ->
  triple (with_temp fact) (wrapped prefix (onError (FileClose temp) m)) replacing (either result_fact).
Proof using Hd1 Hdir Hfresh Htemp.
  intros Hm. apply triple_wrapped. eapply triple_onError; [exact Hm|by intros d []|].
  intros e. eapply triple_conseq; [apply (triple_FileClose any)|done|]. by intros [] d ?.
Qed.

Definition complete (f : file) : Prop := f = mkFile raw private true.

Lemma triple_fill :
  triple (with_temp (fun f => f_bytes f = "")) (fill temp raw) replacing (either complete).
Proof using Hd1 Hdir Hfresh Htemp.
  eapply triple_bind; [apply triple_fill_step; apply (triple_update_whole _ _ (fun f => f_bytes f = "")); by intros []|done|].
  intros []. eapply triple_bind; [apply triple_fill_step; apply (triple_update _ _ _ (fun f => f_bytes f = raw))|done|].
  - by intros n [].
  - intros [b md s] Hm Hb. cbn in *. split; [done|]. by rewrite Hb.
  - intros []. eapply triple_bind; [apply triple_fill_step; apply (triple_update_whole _ _ complete)|done|].
    + intros [b md s] Hm Hb. cbn in *. by subst.
    + intros []. apply triple_wrapped. eapply triple_conseq; [apply triple_FileClose|done|]. by intros [] d ?.
Qed.

(** *** The rename and what is left *)

Definition filed (d : fs) : Prop := d = <[p := new]> d1.

Lemma filed_parented : parented (<[p := new]> d1).
Proof using Hd1 Hdir Hfile.
  apply parented_insert; [apply Hd1|done|]. intros H. by destruct (Hfile _ H).
Qed.

Lemma filed_replacing d : filed d -> replacing d.
Proof using Hd1 Hdir Hfile Htemp.
  intros ->. destruct (prepared_replacing _ Hd1) as [Hf Ht Hr _]. constructor; [| | |apply filed_parented].
  - right. by rewrite lookup_insert_eq.
  - by rewrite lookup_insert_ne by done.
  - intros q H1 H2. unfold made. rewrite lookup_insert_ne by done. by apply Hr.
Qed.

Lemma entry_dir (b : string) (n : node) : entry (<[b :: dir := n]> d1) dir = Some NDir.
Proof using Hdir. rewrite entry_insert, decide_False; [done|apply cons_not_self]. Qed.

Lemma locate_temp d : parented d -> entry d dir = Some NDir -> locate d temp = Ok temp.
Proof using Type. intros Hp. by apply (locate_in_dir _ Hp). Qed.

Lemma triple_Rename :
  triple (with_temp complete) (replaceSourceFile temp p) replacing
    (fun r d => match r with Ok _ => filed d | Err _ => with_temp any d end).
Proof using Hd1 Hdir Hfile Hfresh Htemp.
  apply triple_syscall.
  - intros d n e H _. split; [by eapply with_temp_replacing|by eapply with_temp_any].
  - intros d (f & -> & _ & ->). pose proof (with_temp_parented (mkFile raw private true)) as Hp.
    change (NFile (mkFile raw private true)) with new in *.
    rewrite (locate_temp _ Hp (entry_dir _ _)).
    assert (locate (<[temp := new]> d1) p = Ok p) as -> by by apply (locate_in_dir _ Hp), entry_dir.
    assert (entry (<[temp := new]> d1) temp = Some new) as -> by (cbn; apply lookup_insert_eq).
    assert (entry (<[temp := new]> d1) p = d1 !! p) as -> by (cbn; by rewrite lookup_insert_ne).
    assert (filed (<[p := new]> (delete temp (<[temp := new]> d1)))) as Hf by (unfold filed; by rewrite delete_insert_id).
    rewrite bool_decide_eq_false_2 by done. pose proof (filed_replacing _ Hf) as Hr.
    destruct (d1 !! p) as [n|]; [destruct (Hfile _ eq_refl) as [f ->]|]; done.
Qed.

Lemma triple_Chmod :
  triple filed (Chmod p private) replacing (fun _ d => filed d).
Proof using Hd1 Hdir Hfile Htemp.
  apply triple_syscall.
  - intros d n e H _. split; [by apply filed_replacing|done].
  - intros d ->. pose proof filed_parented as Hp.
    assert (resolve maxLinks (<[p := new]> d1) p = Ok p) as Hr.
    { apply (resolve_entry _ Hp _ _ new); [|cbn; apply lookup_insert_eq]. split; [by rewrite lookup_insert_eq|].
      by apply (linkfree_dir _ Hp), entry_dir. }
    rewrite Hr. unfold update_file. rewrite Hr, alter_insert_eq. by split; [apply filed_replacing|].
Qed.

Lemma triple_publish :
  triple (with_temp complete) (publish temp p) replacing
    (fun r d => match r with Ok _ => filed d | Err _ => with_temp any d \/ filed d end).
Proof using Hd1 Hdir Hfile Hfresh Htemp.
  eapply triple_bind with (R := fun r d => match r with Ok _ => filed d | Err _ => with_temp any d end).
  - apply triple_wrapped. eapply triple_conseq; [apply triple_Rename|done|]. by intros [] d ?.
  - by left.
  - intros u. apply triple_wrapped. eapply triple_conseq; [apply triple_Chmod|done|]. intros [] d ?; [done|by right].
Qed.

Lemma triple_Remove_temp (P : Prop) :
  triple (fun d => (with_temp any d /\ P) \/ filed d) (Remove temp) replacing
    (fun _ d => ((with_temp any d \/ d = d1) /\ P) \/ filed d).
Proof using Hd1 Hdir Hfile Hfresh Htemp.
  assert (forall d, (with_temp any d /\ P) \/ filed d -> replacing d) as Hs.
  { intros d [[? _]|?]; [by eapply with_temp_replacing|by apply filed_replacing]. }
  apply triple_syscall.
  - intros d n e H _. split; [by apply Hs|]. destruct H as [[? ?]|?]; auto.
  - intros d [[(f & -> & Hm & _) HP]| ->].
    + rewrite (locate_temp _ (with_temp_parented f) (entry_dir _ _)).
      assert (entry (<[temp := NFile f]> d1) temp = Some (NFile f)) as -> by (cbn; apply lookup_insert_eq).
      rewrite delete_insert_id by done. split; [by apply prepared_replacing|]. left. auto.
    + rewrite (locate_temp _ filed_parented (entry_dir _ _)).
      assert (entry (<[p := new]> d1) temp = None) as -> by (cbn; by rewrite lookup_insert_ne).
      by right.
Qed.

(** Everything after [CreateTemp]. *)
Lemma triple_write :
  triple (with_temp (fun f => f_bytes f = ""))
    (deferred (Remove temp) (let! _ := fill temp raw in publish temp p)) replacing
    (fun r d => match r with Ok _ => filed d | Err _ => (with_temp any d \/ d = d1) \/ filed d end).
Proof using Hd1 Hdir Hfile Hfresh Htemp.
  eapply triple_deferred with (R := fun r d => (with_temp any d /\ is_ok r = false) \/ filed d).
  - eapply triple_bind; [apply triple_fill|by left|]. intros u.
    eapply triple_conseq; [apply triple_publish|done|]. intros [] d; [by right|]. intros [?|?]; auto.
  - intros r. eapply triple_conseq; [apply (triple_Remove_temp (is_ok r = false))|done|].
    intros r' d H. destruct r; destruct H as [[? ?]|?]; auto; done.
Qed.
End filling.

(** *** The whole of [Save] *)

Record saved (r : result unit gerr) (d : fs) : Prop := {
  sd_replacing : replacing d;
  sd_ok : r = Ok tt ->
    acceptable raw = None /\ linkfree d0 p /\ d !! p = Some new /\ d !! temp = None /\ d0 !! temp = None /\
    parented d /\ entry d dir = Some NDir;
  sd_linked : ~ linkfree d0 p -> r <> Ok tt /\ d = d0
}.

Lemma prepared_linked d : prepared d -> linkfree d0 dir -> ~ linkfree d0 p -> d = d0.
Proof using Hp0.
  intros [Hm _ _] Hl Hn. assert (is_Some (d0 !! p)) as [n Hp].
  { destruct (d0 !! p) eqn:He; [done|]. destruct Hn. split; [by rewrite He|done]. }
  apply Hp0 in Hp. apply map_eq. intros q. destruct (Hm q) as [?|(Hq & _ & Hsuf & Hne)]; [done|]. exfalso.
  assert (forall x, x `suffix_of` dir -> entry d0 x = Some NDir) as Hall.
  { intros x [k Hk]. revert Hp. clear -Hp0 Hk. revert dir Hk. induction k as [|b k IH]; intros dir ->; [done|].
    intros Hd. apply (IH (k ++ x)); [done|]. exact (Hp0 b (k ++ x) NDir Hd). }
  specialize (Hall q Hsuf). destruct q; [done|]. cbn in Hall. congruence.
Qed.

Lemma regular_linkfree d :
  prepared d -> linkfree d0 dir -> (forall n, d !! p = Some n -> exists f, n = NFile f) -> linkfree d0 p.
Proof using Type.
  intros Hd Hl Hf. split; [|done]. intros target Ht. rewrite <- (made_beside d base) in Ht by apply Hd.
  by destruct (Hf _ Ht).
Qed.

Lemma saved_early e d : prepared d -> linkfree d0 dir -> saved (Err e) d.
Proof using Hp0.
  intros Hd Hl. constructor; [by apply prepared_replacing|done|]. intros Hn. split; [done|].
  by apply (prepared_linked d Hd Hl Hn).
Qed.

Lemma prepared_d0 : linkfree d0 dir -> prepared d0.
Proof using Hp0. intros Hl. constructor; [by left|done|done]. Qed.

Lemma replacing_d0 : replacing d0.
Proof using Hp0. constructor; [by left|by left| |done]. intros q _ _. by left. Qed.

Lemma triple_CreateTemp (d : fs) :
  prepared d -> entry d dir = Some NDir ->
  triple (eq d) (CreateTemp dir ".dobby-source-" ".tmp") replacing
    (fun r d' => match r with
      | Ok t => t = temp /\ d !! temp = None /\ d' = <[temp := NFile (mkFile "" private false)]> d
      | Err _ => d' = d end).
Proof using Htemp.
  intros Hd Hdir w [Hn Hc] HP. unfold CreateTemp. rewrite Hn.
  refine (triple_syscall name calm replacing (eq d) _ _ _ _ _ w (conj Hn Hc) HP).
  - intros d' n e <- _. split; [by apply prepared_replacing|done].
  - intros d' <-. fold (temporary name dir). rewrite (locate_temp d (pr_parented _ Hd) Hdir).
    assert (entry d temp = d !! temp) as -> by done. destruct (d !! temp) eqn:Ht; [done|].
    split; [|done]. apply (with_temp_replacing d Hd Hdir Ht any). by eexists.
Qed.

Lemma triple_Save :
  triple (eq d0) (Save (mkFileSourceStore p) None raw) replacing saved.
Proof using Hp0 Htemp.
  eapply triple_bind with (R := fun r d => d = d0 /\ r = Ok tt); [by apply triple_ret; intros ? <-|by intros ? e [_ ?]|].
  intros u. apply triple_given. intros _. clear u.
  destruct (acceptable raw) eqn:Hacc.
  { apply triple_fail. intros ? <-. constructor; [apply replacing_d0|done|done]. }
  cbn [Dir Path tail]. pose proof replacing_d0 as Hs0.
  eapply triple_bind; [by apply (triple_validateNoSymlinkAncestors name calm replacing d0)| |].
  { intros d e (-> & _). constructor; [done|done|done]. }
  intros []. apply triple_given. intros (Hl & _). specialize (Hl eq_refl).
  eapply triple_bind with (R := fun r d => prepared d /\ (r = Ok tt -> entry d dir = Some NDir)).
  { apply triple_wrapped. eapply triple_conseq; [by apply triple_MkdirAll|by intros ? <-; apply prepared_d0|].
    by intros [] d [? ?]. }
  { intros d e [Hd _]. by apply saved_early. }
  intros []. apply triple_each. intros d1 [Hd1 Hdir]. specialize (Hdir eq_refl).
  eapply triple_bind; [apply (triple_validateSourcePath name calm replacing d1); [apply Hd1|by apply prepared_replacing]| |].
  { intros d e [-> _]. by apply saved_early. }
  intros []. apply triple_given. intros (Hok & _). destruct (Hok eq_refl) as (_ & _ & Hreg).
  assert (forall n, d1 !! p = Some n -> exists f, n = NFile f) as Hfile.
  { intros n Hn. destruct Hreg as [?|[f Hf]]; [congruence|]. exists f. congruence. }
  pose proof (regular_linkfree d1 Hd1 Hl Hfile) as Hlp.
  eapply triple_bind with (R := fun r d => match r with
      | Ok t => t = temp /\ d1 !! temp = None /\ d = <[temp := NFile (mkFile "" private false)]> d1 | Err _ => d = d1 end).
  { apply triple_wrapped. eapply triple_conseq; [by apply triple_CreateTemp|done|]. by intros [] d ?. }
  { intros d e ->. by apply saved_early. }
  intros t. apply triple_each. intros d (-> & Hfresh & ->).
  eapply triple_conseq; [by apply (triple_write d1)|intros ? <-; by eexists|].
  intros [u|e] d Hd; (constructor; [|intros Hr|done]); try done.
  - by apply (filed_replacing d1).
  - rewrite Hd. split_and!; try done.
    + by rewrite lookup_insert_eq.
    + by rewrite lookup_insert_ne.
    + transitivity (d1 !! temp); [symmetry; apply made_beside, Hd1|done].
    + by apply filed_parented.
    + by apply entry_dir.
  - destruct Hd as [[H| ->]|H]; [by eapply with_temp_replacing|by apply prepared_replacing|by eapply filed_replacing].
Qed.
End save.

(** ** Clearing *)

Section clear.
Context (name : string) (calm : bool) (base : string) (dir : path) (d0 : fs).
Notation p := (base :: dir).
Hypothesis Hp0 : parented d0.
Notation triple := (triple name calm).

Definition clearing (d : fs) : Prop := d = d0 \/ d = delete p d0.

Record cleared (r : result unit gerr) (d : fs) : Prop := {
  cl_clearing : clearing d;
  cl_parented : parented d;
  cl_ok : r = Ok tt -> linkfree d0 p /\ d !! p = None;
  cl_linked : ~ linkfree d0 p -> r <> Ok tt /\ d = d0
}.

(** [Remove] of a path without links that is no directory. *)
Lemma triple_removeSource :
  linkfree d0 p -> (forall n, d0 !! p = Some n -> exists f, n = NFile f) ->
  triple (eq d0) (removeSource p) clearing cleared.
Proof using Hp0.
  intros Hl Hf. assert (forall e, cleared (Err e) d0) as Herr by (intros e; constructor; [by left|done..]).
  eapply triple_bind with (R := fun r d => (clearing d /\ parented d) /\ match r with
    | Ok (Ok _) => d !! p = None | Ok (Err e) => d = d0 /\ (is_sent OsErrNotExist e = true -> d0 !! p = None) | Err _ => False end).
  - apply triple_attempt, triple_syscall; [by intros d n e <- _; split; [left|split; [split; [left|]|]]|]. intros d <-.
    destruct (locate d0 p) as [q|e] eqn:Hq.
    + apply (locate_linkfree d0 Hp0) in Hq as ->; [|apply Hl]. cbn [entry].
      destruct (d0 !! p) as [n|] eqn:Hn; [|by split; [split; [left|]|]]. destruct (Hf _ eq_refl) as [f ->].
      assert (clearing (delete p d0)) as Hc by by right.
      split; [done|]. split; [split; [done|]|by rewrite lookup_delete_eq].
      apply parented_delete; [done|]. cbn. congruence.
    + split; [by split; [left|]|]. split; [done|]. intros _. destruct (d0 !! p) as [n|] eqn:Hn; [|done].
      rewrite (locate_entry d0 Hp0 p n) in Hq; [done|apply Hl|done].
  - by intros d e [_ []].
  - intros [[]|e].
    + apply triple_ret. intros d [[Hc Hpa] Hn]. by constructor.
    + destruct (negb _) eqn:He; [apply triple_fail; by intros d [_ [-> _]]|apply triple_ret].
      intros d [_ [-> Hn]]. apply negb_false_iff in He. constructor; [by left|done|auto|done].
Qed.

Lemma triple_Clear :
  triple (eq d0) (Clear (mkFileSourceStore p) None) clearing cleared.
Proof using Hp0.
  assert (clearing d0) as Hs by by left.
  eapply triple_bind with (R := fun r d => d = d0 /\ r = Ok tt); [by apply triple_ret; intros ? <-|by intros ? e [_ ?]|].
  intros u. apply triple_given. intros _. clear u. cbn [Dir Path tail].
  eapply triple_bind with (R := fun r d => d = d0 /\ match r with Ok r => validated calm d0 base dir r | Err _ => False end).
  { by apply triple_attempt, triple_validateSourcePath. }
  { by intros d e [_ []]. }
  intros r. apply triple_given. intros (Hok & _ & Hmiss).
  destruct r as [[]|e].
  - destruct (Hok eq_refl) as (Hl & _ & Hreg). apply triple_removeSource.
    + split; [|done]. intros t Ht. destruct Hreg as [?|[f Hf]]; congruence.
    + intros n Hn. destruct Hreg as [?|[f Hf]]; [congruence|]. exists f. congruence.
  - destruct (negb _) eqn:He.
    + apply triple_fail. intros d <-. by constructor; [left|..].
    + apply negb_false_iff in He. destruct (Hmiss He) as [Hl Hn].
      apply triple_removeSource; [split; [by rewrite Hn|done]|by rewrite Hn].
Qed.
End clear.
