(* ===== verification/StoreTheorems.v ===== *)
(** * The stored source: atomic, private, never through a link

    The claims about the files, and that they implement the store the
    manager's model works with. *)

From S2P Require Import Prelude Errors GoStrings Session Activation Manager Files FilesLogic SourceStore SourceStoreTheorems.
From stdpp Require Import gmap strings list.
From Stdlib Require Import Ascii.
Open Scope io_scope.

(** ** Runs *)

(** A triple about every run of a system that may fail, *)
Lemma triple_run {A : Type} (m : io A) (seen : fs -> Prop) (Q : result A gerr -> fs -> Prop) (w : world) :
  triple (w_name w) false (eq (w_fs w)) m seen Q -> outcome (w_name w) false seen Q w (m w).
Proof. intros H. apply H; [|done]. by split. Qed.

(** and of one that does not. *)
Lemma triple_run_calm {A : Type} (m : io A) (seen : fs -> Prop) (Q : result A gerr -> fs -> Prop) (w : world) :
  w_faults w = [] -> triple (w_name w) true (eq (w_fs w)) m seen Q -> outcome (w_name w) true seen Q w (m w).
Proof. intros Hw H. apply H; [|done]. by split. Qed.

(** The power fails: a file that was not flushed may hold anything. *)
Definition power_loss (d d' : fs) : Prop :=
  forall q, match d !! q with
    | Some (NFile f) => exists bytes, d' !! q = Some (NFile (f <| f_bytes := bytes |>)) /\
        (f_synced f = true -> bytes = f_bytes f)
    | other => d' !! q = other
    end.

Lemma power_loss_contents d d' p :
  power_loss d d' -> (forall f, d !! p = Some (NFile f) -> f_synced f = true) -> contents d' p = contents d p.
Proof.
  intros Hl Hs. unfold contents. specialize (Hl p). destruct (d !! p) as [[|f|t|]|]; try by rewrite Hl.
  destruct Hl as (bytes & -> & Hb). cbn. by rewrite Hb by by apply Hs.
Qed.

Section replaced.
Context (name base raw : string) (dir : path) (d0 d : fs).
Notation p := (base :: dir).
Hypothesis Hr : replacing name base dir raw d0 d.

Lemma replacing_contents : contents d p = contents d0 p \/ contents d p = Some raw.
Proof using Hr. destruct (rp_file _ _ _ _ _ _ Hr) as [He|He]; unfold contents; rewrite He; [by left|by right]. Qed.

Lemma replacing_durable d' :
  (forall f, d0 !! p = Some (NFile f) -> f_synced f = true) -> power_loss d d' ->
  contents d' p = contents d0 p \/ contents d' p = Some raw.
Proof using Hr.
  intros Hs Hl. rewrite (power_loss_contents d d' p Hl); [apply replacing_contents|].
  intros f Hf. destruct (rp_file _ _ _ _ _ _ Hr) as [He|He]; rewrite He in Hf; [by apply Hs|by injection Hf as <-].
Qed.
End replaced.

(** C31: a save replaces the stored file all at once: whatever calls fail, every
    state a reader may look at holds the old file or the complete new one,
    readable for its owner only and flushed, so after a power failure it is
    still one of the two; beside it there is at most a private temporary file
    and directories that were missing on the way. A save that returned nil has
    stored exactly the bytes, 1 to 1048576 and not blank, and left no
    temporary file. *)
Theorem source_save_is_atomic (base : string) (dir : path) (raw : string) (w : world) :
  let p := base :: dir in
  parented (w_fs w) -> temporary (w_name w) dir <> p ->
  (forall f, w_fs w !! p = Some (NFile f) -> f_synced f = true) ->
  let '(w', r) := Save (mkFileSourceStore p) None raw w in
  (exists states, w_past w' = states ++ w_past w /\
    Forall (fun d => replacing (w_name w) base dir raw (w_fs w) d /\
      forall d', power_loss d d' -> contents d' p = contents (w_fs w) p \/ contents d' p = Some raw) states) /\
  match r with
  | Ok _ =>
      w_fs w' !! p = Some (NFile (mkFile raw private true)) /\ w_fs w' !! temporary (w_name w) dir = None /\
      acceptable raw = None
  | Err _ => contents (w_fs w') p = contents (w_fs w) p \/ contents (w_fs w') p = Some raw
  end.
Proof.
  cbv zeta. intros Hp Ht Hs.
  destruct (triple_run _ _ _ w (triple_Save (w_name w) false base dir raw (w_fs w) Hp Ht)) as (_ & Hq & states & E & F).
  destruct (Save _ _ _ w) as [w' r]. cbn in *. split.
  - exists states. split; [done|]. eapply Forall_impl; [exact F|]. intros d Hd. split; [done|].
    intros d' Hl. by eapply replacing_durable.
  - destruct Hq as [Hrep Hok _]. destruct r; [|by eapply replacing_contents].
    destruct a. by destruct (Hok eq_refl) as (? & _ & ? & ? & _).
Qed.

(** A link on the way. *)
Lemma linked (d : fs) (p q target : path) :
  q `suffix_of` p -> q <> [] -> d !! q = Some (NLink target) -> ~ linkfree d p.
Proof. intros Hs Hq Hd Hl. eapply linkfree_suffix in Hl; [|exact Hs]. destruct q; [done|]. by destruct Hl as [Hn _]; destruct (Hn target). Qed.

(** An error, and the files as they were. *)
Definition refuses {A : Type} (w : world) (o : world * result A gerr) : Prop :=
  is_ok o.2 = false /\ w_fs o.1 = w_fs w.

(** C32: nothing is read, replaced or removed through a symbolic link: when the
    stored file or a directory above it is one, [Load], [Save] and [Clear]
    return an error and change nothing, whatever other calls fail. And what
    [Load] returns is always what the regular file at the path itself holds, at
    most 1048576 bytes. *)
Theorem symbolic_links_are_refused (base : string) (dir : path) (w : world) :
  let s := mkFileSourceStore (base :: dir) in
  parented (w_fs w) -> temporary (w_name w) dir <> base :: dir ->
  (forall q target raw,
    q `suffix_of` (base :: dir) -> q <> [] -> w_fs w !! q = Some (NLink target) ->
    refuses w (Load s None w) /\ refuses w (Save s None raw w) /\ refuses w (Clear s None w)) /\
  (forall ctxErr raw, (Load s ctxErr w).2 = Ok (Some raw) ->
    contents (w_fs w) (base :: dir) = Some raw /\ (Z.of_nat (String.length raw) <= maxStoredSourceURL)%Z).
Proof.
  cbv zeta. intros Hp Ht.
  assert (forall ctxErr, let '(w', r) := Load (mkFileSourceStore (base :: dir)) ctxErr w in w_fs w' = w_fs w /\
    (ctxErr = None -> loads false (w_fs w) base dir r) /\ (ctxErr <> None -> is_ok r = false)) as HL.
  { intros ctxErr. destruct (triple_run _ (eq (w_fs w)) _ w
      (triple_Load (w_name w) false (eq (w_fs w)) (w_fs w) Hp eq_refl base dir ctxErr)) as (_ & Hq & _).
    by destruct (Load _ _ w). }
  split.
  - intros q target raw Hsuf Hq Hlink. pose proof (linked _ _ _ _ Hsuf Hq Hlink) as Hn. unfold refuses. split_and!.
    1, 2: specialize (HL None); destruct (Load _ None w) as [w' r]; destruct HL as (Hw & HL & _); try done.
    { destruct (HL eq_refl) as (H1 & H2 & _). destruct r as [[raw'|]|]; [|by destruct (H2 eq_refl)|done].
      by destruct (H1 raw' eq_refl). }
    1, 2: destruct (triple_run _ _ _ w (triple_Save (w_name w) false base dir raw (w_fs w) Hp Ht)) as (_ & [_ _ Hl] & _);
      destruct (Hl Hn); by destruct (Save _ _ _ w) as [w' [[]|]].
    1, 2: destruct (triple_run _ _ _ w (triple_Clear (w_name w) false base dir (w_fs w) Hp)) as (_ & [_ _ _ Hl] & _);
      destruct (Hl Hn); by destruct (Clear _ _ w) as [w' [[]|]].
  - intros ctxErr raw Hok. specialize (HL ctxErr). destruct (Load _ ctxErr w) as [w' r]. cbn in Hok. subst r.
    destruct HL as (_ & HL & Hc). destruct ctxErr; [by specialize (Hc ltac:(done))|].
    destruct (HL eq_refl) as (H1 & _). destruct (H1 raw eq_refl) as (_ & ? & Hl). split; [done|].
    unfold tooLarge in Hl. lia.
Qed.

(** ** The store of the manager's model *)

Section refinement.
(** [json.Marshal] and [json.Unmarshal] of a saved selection. *)
Context (encode : savedActivation -> string) (decode : string -> rawActivation).
Context (base : string) (dir : path).
Notation s := (mkFileSourceStore (base :: dir)).
Notation saved_base := (base +:+ ".activation.json").

(** What the files hold, as the store of the manager's model. *)
Record represents (d : fs) (t : sourceStore) : Prop := {
  rs_parented : parented d;
  rs_activation : ss_activation t = true;
  rs_url : ss_url t = contents d (base :: dir);
  rs_saved : ss_saved t = match contents d (saved_base :: dir) with Some raw => decode raw | None => RawEmpty end
}.

(** The calls of [saveSource] and [saveActivationLocked]. *)
Definition fileSaveSource (loaded : LoadedConfig) : io unit :=
  if bool_decide (lc_Kind loaded = ConfigSourceURL) then Save s None (lc_SourceURL loaded) else Clear s None.

Definition fileSaveActivation (saved : savedActivation) : io unit := SaveActivation s None (encode saved).

(** The reply the manager's model was given. *)
Definition replied (r : result unit gerr) (io : io_reply) : Prop :=
  io_err io = match r with Ok _ => None | Err e => Some e end.

Lemma saved_base_ne : saved_base <> base.
Proof using Type. clear. induction base as [|a b IH]; [done|]. intros [=]. by apply IH. Qed.

(** Beside the file that is replaced or removed nothing changes for the other. *)
Lemma replacing_beside (name b other raw : string) (d0 d : fs) :
  replacing name b dir raw d0 d -> other <> b -> temporary name dir <> other :: dir ->
  contents d (other :: dir) = contents d0 (other :: dir).
Proof using Type.
  intros Hr Hob Ht. unfold contents.
  rewrite (made_beside dir d0 d other); [done|]. apply (rp_rest _ _ _ _ _ _ Hr); congruence.
Qed.

Lemma file_saves (w : world) (b other raw : string) :
  parented (w_fs w) -> temporary (w_name w) dir <> b :: dir -> temporary (w_name w) dir <> other :: dir -> other <> b ->
  let '(w', r) := Save (mkFileSourceStore (b :: dir)) None raw w in
  parented (w_fs w') /\ contents (w_fs w') (other :: dir) = contents (w_fs w) (other :: dir) /\
  exists io, replied r io /\
    contents (w_fs w') (b :: dir) = if stored io then Some raw else contents (w_fs w) (b :: dir).
Proof using Type.
  intros Hp Ht Hto Hob.
  destruct (triple_run _ _ _ w (triple_Save (w_name w) false b dir raw (w_fs w) Hp Ht)) as (_ & [Hr Hok _] & _).
  destruct (Save _ _ _ w) as [w' r]. cbn in *. split; [apply Hr|]. split; [by eapply replacing_beside|].
  destruct r as [[]|e].
  - exists io_ok. split; [done|]. cbn. destruct (Hok eq_refl) as (_ & _ & Hn & _). unfold contents. by rewrite Hn.
  - destruct (replacing_contents _ _ _ _ _ _ Hr) as [Hc|Hc]; [exists (mkIoReply (Some e) false)|exists (mkIoReply (Some e) true)];
      (split; [done|]); by rewrite Hc.
Qed.

Lemma file_clears (w : world) (b other : string) :
  parented (w_fs w) -> other <> b ->
  let '(w', r) := Clear (mkFileSourceStore (b :: dir)) None w in
  parented (w_fs w') /\ contents (w_fs w') (other :: dir) = contents (w_fs w) (other :: dir) /\
  exists io, replied r io /\
    contents (w_fs w') (b :: dir) = if stored io then None else contents (w_fs w) (b :: dir).
Proof using Type.
  intros Hp Hob.
  destruct (triple_run _ _ _ w (triple_Clear (w_name w) false b dir (w_fs w) Hp)) as (_ & [Hc Hpa Hok _] & _).
  destruct (Clear _ _ w) as [w' r]. cbn in *. split; [done|]. split.
  { unfold contents. destruct Hc as [->| ->]; [done|]. rewrite lookup_delete_ne; [done|congruence]. }
  destruct r as [[]|e].
  - exists io_ok. split; [done|]. cbn. destruct (Hok eq_refl) as [_ Hn]. unfold contents. by rewrite Hn.
  - destruct Hc as [->| ->]; [by exists (mkIoReply (Some e) false)|exists (mkIoReply (Some e) true)].
    split; [done|]. unfold contents. cbn. by rewrite lookup_delete_eq.
Qed.

Definition apart (w : world) : Prop :=
  temporary (w_name w) dir <> base :: dir /\ temporary (w_name w) dir <> saved_base :: dir.

(** C33: the files implement the store the manager's model uses. From files that
    represent a store, the call [Configure] makes to save or clear the URL, and
    the call [Start] makes to save the selection, leave files that
    represent the store of the model after one of its replies: nil means
    written, an error may mean written or not. Read back by a system that fails
    no call, a regular file of at most 1048576 bytes is the URL of the store. *)
Theorem files_implement_the_store (w : world) (t : sourceStore) (m : manager) :
  represents (w_fs w) t -> apart w -> m_sourceStore m = Some t ->
  (forall loaded, let '(w', r) := fileSaveSource loaded w in
    exists io t', replied r io /\ m_sourceStore (saveSource loaded io m).1 = Some t' /\ represents (w_fs w') t') /\
  (forall target, s_sourceKind (m_session m) = ConfigSourceURL ->
    (forall saved, decode (encode saved) = RawJSON saved) ->
    let '(w', r) := fileSaveActivation (activationFor (s_digest (m_session m)) target) w in
    exists io t', replied r io /\ m_sourceStore (saveActivationLocked io target m).1 = Some t' /\
      represents (w_fs w') t') /\
  (w_faults w = [] -> entry (w_fs w) dir = Some NDir -> regular (w_fs w) (base :: dir) ->
    (forall raw, ss_url t = Some raw -> tooLarge raw = false) ->
    Load s None w = ((Load s None w).1, Ok (ss_url t)) /\ represents (w_fs (Load s None w).1) t).
Proof using Type.
  intros [Hp Ha Hu Hs] [H1 H2] Hm. split_and!.
  - intros loaded. unfold fileSaveSource. case_bool_decide as Hk.
    + pose proof (file_saves w base saved_base (lc_SourceURL loaded) Hp H1 H2 saved_base_ne) as Hf.
      destruct (Save _ _ _ w) as [w' r]. destruct Hf as (Hpa & Ho & io & Hr & Hc).
      exists io. eexists. split; [done|]. unfold saveSource. rewrite Hm, bool_decide_eq_true_2 by done. split; [done|].
      rewrite <- Hu in Hc. constructor; [done|by destruct (stored io)| |rewrite Ho; by destruct (stored io)].
      rewrite Hc. by destruct (stored io).
    + pose proof (file_clears w base saved_base Hp saved_base_ne) as Hf.
      destruct (Clear _ _ w) as [w' r]. destruct Hf as (Hpa & Ho & io & Hr & Hc).
      exists io. eexists. split; [done|]. unfold saveSource. rewrite Hm, bool_decide_eq_false_2 by done. split; [done|].
      rewrite <- Hu in Hc. constructor; [done|by destruct (stored io)| |rewrite Ho; by destruct (stored io)].
      rewrite Hc. by destruct (stored io).
  - intros target Hk Hdec. unfold fileSaveActivation, SaveActivation. cbn [activationStore Path].
    pose proof (file_saves w saved_base base (encode (activationFor (s_digest (m_session m)) target)) Hp H2 H1
      (not_eq_sym saved_base_ne)) as Hf.
    destruct (Save _ _ _ w) as [w' r]. destruct Hf as (Hpa & Ho & io & Hr & Hc).
    exists io. eexists. split; [done|]. unfold saveActivationLocked. rewrite Hm, Ha, Hk. split; [done|].
    constructor; [done|by destruct (stored io)|rewrite Ho; by destruct (stored io)|].
    rewrite Hc. destruct (stored io); [by rewrite Hdec|done].
  - intros Hw Hd Hreg Hl.
    destruct (triple_run_calm _ (eq (w_fs w)) _ w Hw
      (triple_Load (w_name w) true (eq (w_fs w)) (w_fs w) Hp eq_refl base dir None)) as (_ & (He & Hq & _) & _).
    destruct (Load _ _ w) as [w' r]. cbn in *. rewrite He. split; [|done].
    destruct (Hq eq_refl) as (_ & _ & Hc). destruct (Hc eq_refl Hd) as [Hnone Hsome]. rewrite Hu in *. f_equal.
    destruct (contents (w_fs w) (base :: dir)) as [raw|] eqn:Hraw; [by apply Hsome; [|apply Hl]|].
    apply Hnone. unfold contents in Hraw. destruct Hreg as [?|[f Hf]]; [done|]. by rewrite Hf in Hraw.
Qed.
End refinement.

(** ** A store in a home directory *)

Definition exampleDir : path := ["vpn"; "home"].
Definition exampleFiles : fs := <[exampleDir := NDir]> (<[["home"] := NDir]> ∅).
Definition exampleURL : string := "https://example.org/vpn".

(** The twelfth call, the write, fails after three bytes. *)
Definition failingWorld : world :=
  mkWorld exampleFiles [] (repeat None 11 ++ [Some (mkFault "no space left on device" 3)]) "1".
Definition calmWorld : world := mkWorld exampleFiles [] [] "1".

(** The directory replaced by a link to another. *)
Definition linkedFiles : fs := <[exampleDir := NLink ["elsewhere"]]> (<[["elsewhere"] := NDir]> (<[["home"] := NDir]> ∅)).
Definition linkedWorld : world := mkWorld linkedFiles [] [] "1".

Lemma example_parented : parented exampleFiles.
Proof. by repeat (apply parented_insert; [|done|done]). Qed.

Lemma linked_parented : parented linkedFiles.
Proof. by repeat (apply parented_insert; [|done|done]). Qed.

Lemma source_save_is_atomic_witness :
  let p := "url.txt" :: exampleDir in
  let '(w', r) := Save (mkFileSourceStore p) None exampleURL failingWorld in
  (exists states, w_past w' = states ++ w_past failingWorld /\
    Forall (fun d => replacing "1" "url.txt" exampleDir exampleURL exampleFiles d /\
      forall d', power_loss d d' -> contents d' p = contents exampleFiles p \/ contents d' p = Some exampleURL) states) /\
  match r with
  | Ok _ =>
      w_fs w' !! p = Some (NFile (mkFile exampleURL private true)) /\ w_fs w' !! temporary "1" exampleDir = None /\
      acceptable exampleURL = None
  | Err _ => contents (w_fs w') p = contents exampleFiles p \/ contents (w_fs w') p = Some exampleURL
  end.
Proof.
  apply (source_save_is_atomic "url.txt" exampleDir exampleURL failingWorld).
  - exact example_parented.
  - done.
  - by intros f.
Defined.

Lemma symbolic_links_are_refused_witness :
  refuses linkedWorld (Load (mkFileSourceStore ("url.txt" :: exampleDir)) None linkedWorld).
Proof.
  apply (proj1 (symbolic_links_are_refused "url.txt" exampleDir linkedWorld linked_parented ltac:(done))
    exampleDir ["elsewhere"] exampleURL); [by exists ["url.txt"]|done|reflexivity].
Defined.

(** An encoding of selections as bits. *)
Fixpoint bits (n : positive) : string :=
  match n with xH => "" | xO n => String "0"%char (bits n) | xI n => String "1"%char (bits n) end.
Fixpoint unbits (s : string) : positive :=
  match s with EmptyString => xH | String a s => if Ascii.eqb a "1"%char then xI (unbits s) else xO (unbits s) end.

Lemma unbits_bits n : unbits (bits n) = n.
Proof. induction n as [n IH|n IH|]; cbn; by rewrite ?IH. Qed.

#[export] Instance StartMode_countable : Countable StartMode.
Proof.
  refine (inj_countable' (fun m => match m with AutoSelect => inl (inl tt) | ProfileIndex => inl (inr tt) | OtherMode s => inr s end)
    (fun x => match x with inl (inl _) => AutoSelect | inl (inr _) => ProfileIndex | inr s => OtherMode s end) _).
  by intros [].
Defined.

#[export] Instance savedActivation_eq_dec : EqDecision savedActivation.
Proof. solve_decision. Defined.

#[export] Instance savedActivation_countable : Countable savedActivation.
Proof.
  refine (inj_countable' (fun a => (sa_Version a, sa_Enabled a, sa_Mode a, sa_Index a, sa_Digest a))
    (fun '(v, e, m, i, g) => mkSavedActivation v e m i g) _).
  by intros [].
Defined.

Definition encodeBits (a : savedActivation) : string := bits (countable.encode a).
Definition decodeBits (s : string) : rawActivation :=
  match countable.decode (unbits s) with Some a => RawJSON a | None => RawInvalid (EText "malformed") end.

Lemma decode_encodeBits a : decodeBits (encodeBits a) = RawJSON a.
Proof. unfold decodeBits, encodeBits. by rewrite unbits_bits, decode_encode. Qed.

Definition exampleStore : sourceStore := mkSourceStore true None RawEmpty.
Definition exampleManager : manager := NewManager "owner" None true (Some exampleStore) (Ok "").

Lemma example_represents : represents decodeBits "url.txt" exampleDir exampleFiles exampleStore.
Proof. constructor; [exact example_parented|reflexivity|vm_compute; reflexivity..]. Qed.

Lemma files_implement_the_store_witness :
  (forall saved, decodeBits (encodeBits saved) = RawJSON saved) /\
  let s := mkFileSourceStore ("url.txt" :: exampleDir) in
  Load s None calmWorld = ((Load s None calmWorld).1, Ok None) /\
  let '(w', r) := fileSaveSource "url.txt" exampleDir (mkLoadedConfig "doc" ConfigSourceURL exampleURL) failingWorld in
  exists io t', replied r io /\
    m_sourceStore (saveSource (mkLoadedConfig "doc" ConfigSourceURL exampleURL) io exampleManager).1 = Some t' /\
    represents decodeBits "url.txt" exampleDir (w_fs w') t'.
Proof.
  split; [exact decode_encodeBits|]. split.
  - refine (proj1 (proj2 (proj2 (files_implement_the_store encodeBits decodeBits "url.txt" exampleDir calmWorld
      exampleStore exampleManager example_represents _ _)) _ _ _ _)); [by split|reflexivity..|by left|done].
  - refine (proj1 (files_implement_the_store encodeBits decodeBits "url.txt" exampleDir failingWorld
      exampleStore exampleManager example_represents _ _) (mkLoadedConfig "doc" ConfigSourceURL exampleURL));
      [by split|reflexivity].
Defined.
