(* ===== verification/MobilePlatform.v ===== *)
(** * The mobile platform adapter (core/sessionapi/mobilebinding/platform.go, ownership.go, platform_mobile.go)

    Between the Go core and the Android service or the iOS extension: it owns
    the TUN descriptors the shell hands over, the one generation whose sockets
    may be protected, and the channel that publishes the session's state.  The
    shell's callbacks may be replaced at any time; a call of the shell returns
    whenever it likes, and other calls run meanwhile. *)

From S2P Require Import Prelude Errors Session.
Local Open Scope string_scope.
Local Open Scope list_scope.

(** ** Descriptors (ownership.go) *)

Record fdOwner := mkFdOwner { fo_session : string; fo_generation : Z }.
#[export] Instance fdOwner_eq_dec : EqDecision fdOwner.
Proof. solve_decision. Defined.

Notation tunnelFDs := (gmap Z fdOwner).

Definition newTunnelFDs : tunnelFDs := ∅.

Definition reserve (fd : Z) (owner : fdOwner) (o : tunnelFDs) : tunnelFDs * bool :=
  match o !! fd with
  | Some _ => (o, false)
  | None => (<[fd := owner]> o, true)
  end.

Definition releaseFD (fd : Z) (owner : fdOwner) (o : tunnelFDs) : tunnelFDs :=
  match o !! fd with
  | Some current => if bool_decide (current = owner) then delete fd o else o
  | None => o
  end.

(** ** Widths *)

Definition generationAsInt64 (generation : Z) : result Z gerr :=
  if (max_int64 <? generation)%Z then Err (EText "generation exceeds the native callback range") else Ok generation.

Definition descriptorAsUintptr (fd : Z) : result Z gerr :=
  if (fd <? 0)%Z then Err (EText "descriptor must be non-negative") else Ok fd.

Definition descriptorAsInt32 (fd : Z) : result Z gerr :=
  if (fd <? 0)%Z || (max_int32 <? fd)%Z then Err (EText "socket descriptor exceeds the native callback range")
  else Ok fd.

(** ** The shell's answers *)

Record NativeTunnelResult := mkNativeTunnelResult { FD : option Z; nt_Error : string; CleanupPending : bool }.

(** What the shell returned: whether it is JSON at all, and what
    [json.Unmarshal] makes of it. *)
Record rawAnswer := mkRawAnswer {
  raw_valid : bool;
  raw_decodeErr : option gerr;
  raw_result : NativeTunnelResult
}.

Definition decodeTunnelResult (raw : rawAnswer) : NativeTunnelResult * option gerr :=
  match raw_decodeErr raw with
  | Some err => (raw_result raw, Some (EWrap "invalid native tunnel result" err))
  | None =>
      if negb (String.eqb (nt_Error (raw_result raw)) "")
      then (raw_result raw, Some (EText (nt_Error (raw_result raw))))
      else (raw_result raw, None)
  end.

(** ** The adapter *)

Inductive nativeCall :=
| AcquireTunnel (cb : nat) (session : string) (generation : Z)
| ReleaseTunnel (cb : nat) (lease : nat) (session : string) (generation fd : Z)
| TunnelReleased (lease : nat)
| FileClosed (lease : nat)
| NativeProtect (cb : nat) (session : string) (generation fd : Z).

(** [tl_file]: the [os.File] is not nil; [tl_busy]: [releaseMu] is held. *)
Record tunnelLease := mkTunnelLease {
  tl_file : bool;
  tl_fd : Z;
  tl_ref : SessionRef;
  tl_callbacks : nat;
  tl_closed : bool;
  tl_closeErr : option gerr;
  tl_busy : bool;
  tl_released : bool
}.
#[export] Instance eta_tunnelLease : Settable tunnelLease := fun l =>
  mkTunnelLease (tl_file l) (tl_fd l) (tl_ref l) (tl_callbacks l) (tl_closed l) (tl_closeErr l)
    (tl_busy l) (tl_released l).

(** A call of the shell that has not returned. *)
Inductive nativeTask :=
| Acquiring (ref : SessionRef) (cb : nat)
| Releasing (lease : nat).

(** [ad_callbacks] names the registered shell; [ad_trace] is the last call first. *)
Record platformAdapter := mkPlatformAdapter {
  ad_callbacks : option nat;
  ad_tunnels : tunnelFDs;
  ad_active : gmap string SessionRef;
  ad_leases : gmap nat tunnelLease;
  ad_tasks : gmap nat nativeTask;
  ad_next : nat;
  ad_trace : list nativeCall
}.
#[export] Instance eta_platformAdapter : Settable platformAdapter := fun p =>
  mkPlatformAdapter (ad_callbacks p) (ad_tunnels p) (ad_active p) (ad_leases p) (ad_tasks p) (ad_next p) (ad_trace p).

Definition newPlatformAdapter (callbacks : option nat) : platformAdapter :=
  mkPlatformAdapter callbacks newTunnelFDs ∅ ∅ ∅ 0 [].

Definition calls (c : nativeCall) (p : platformAdapter) : platformAdapter := p <| ad_trace ::= cons c |>.

Definition setCallbacks (callbacks : option nat) (p : platformAdapter) : platformAdapter :=
  p <| ad_callbacks := callbacks |>.

Definition PrepareTunnel (ref : SessionRef) (p : platformAdapter) : platformAdapter * option gerr :=
  match ad_active p !! ref_SessionID ref with
  | Some existing =>
      if bool_decide (existing = ref) then (p <| ad_active ::= <[ref_SessionID ref := ref]> |>, None)
      else (p, Some (EText "another generation is still active"))
  | None => (p <| ad_active ::= <[ref_SessionID ref := ref]> |>, None)
  end.

(** [platformLease.Release] *)
Definition ReleasePlatform (ref : SessionRef) (p : platformAdapter) : platformAdapter :=
  match ad_active p !! ref_SessionID ref with
  | Some active => if bool_decide (active = ref) then p <| ad_active ::= delete (ref_SessionID ref) |> else p
  | None => p
  end.

Definition ownerOf (ref : SessionRef) : fdOwner := mkFdOwner (ref_SessionID ref) (ref_Generation ref).

(** The next number, for a task or a lease. *)
Definition allocate (p : platformAdapter) : nat * platformAdapter := (ad_next p, p <| ad_next ::= S |>).

(** [acquire] up to the call of the shell. *)
Definition acquireBegin (ref : SessionRef) (p : platformAdapter) : platformAdapter * option gerr :=
  match ad_callbacks p with
  | None => (p, Some (EText "platform tunnel callback is not registered"))
  | Some cb =>
      match generationAsInt64 (ref_Generation ref) with
      | Err err => (p, Some err)
      | Ok generation =>
          let '(task, p) := allocate p in
          (calls (AcquireTunnel cb (ref_SessionID ref) generation) p <| ad_tasks ::= <[task := Acquiring ref cb]> |>, None)
      end
  end.

(** The rest of [acquire]: a descriptor, or an error with the callbacks when the
    shell may still own something. *)
Definition acquireResult (raw : rawAnswer) (ref : SessionRef) (p : platformAdapter) :
    platformAdapter * result Z (gerr * bool) :=
  let '(r, err) := decodeTunnelResult raw in
  let missing := match FD r with None => true | Some fd => (fd <? 0)%Z end in
  if is_Some_b err || missing then
    let failure := match err with Some err => err | None => EText "platform returned no tunnel descriptor" end in
    let noFD := match FD r with None => true | _ => false end in
    (p, Err (failure, CleanupPending r || negb (raw_valid raw) || (noFD && String.eqb (nt_Error r) "")))
  else
    match FD r with
    | None => (p, Err (EText "platform returned no tunnel descriptor", false))
    | Some fd =>
        let '(tunnels, reserved) := reserve fd (ownerOf ref) (ad_tunnels p) in
        let p := p <| ad_tunnels := tunnels |> in
        if reserved then (p, Ok fd)
        else (p, Err (ECleanup (EText "platform reused an active tunnel descriptor"), false))
    end.

Definition newTunnelLease (l : tunnelLease) (p : platformAdapter) : platformAdapter * nat :=
  let '(i, p) := allocate p in (p <| ad_leases ::= <[i := l]> |>, i).

(** The rest of [Acquire]; [newFile] says [os.NewFile] returned one. *)
Definition acquireEnd (raw : rawAnswer) (newFile : bool) (ref : SessionRef) (cb : nat) (p : platformAdapter) :
    platformAdapter * option nat * option gerr :=
  let lease file fd := mkTunnelLease file fd ref cb false None false false in
  match acquireResult raw ref p with
  | (p, Err (err, owned)) =>
      if owned then let '(p, i) := newTunnelLease (lease false (-1)%Z) p in (p, Some i, Some err)
      else (p, None, Some err)
  | (p, Ok fd) =>
      match descriptorAsUintptr fd with
      | Err err => let '(p, i) := newTunnelLease (lease false fd) p in (p, Some i, Some err)
      | Ok fileDescriptor =>
          let '(p, i) := newTunnelLease (lease newFile fileDescriptor) p in
          (p, Some i, if newFile then None else Some (EText "could not own tunnel descriptor"))
      end
  end.

Definition setTunnelLease (i : nat) (l : tunnelLease) (p : platformAdapter) : platformAdapter :=
  p <| ad_leases ::= <[i := l]> |>.

(** [tunnelLease.Close], once. *)
Definition CloseTunnel (closeErr : option gerr) (i : nat) (l : tunnelLease) (p : platformAdapter) :
    platformAdapter * tunnelLease * option gerr :=
  if tl_closed l then (p, l, tl_closeErr l)
  else
    let l := l <| tl_closed := true |> in
    if tl_file l then
      let l := l <| tl_closeErr := closeErr |> in
      (calls (FileClosed i) (setTunnelLease i l p), l, closeErr)
    else (setTunnelLease i l p, l, None).

(** [tunnelLease.Release] up to the call of the shell; [None] while another
    release holds the lock.  [late]: the cleanup's deadline has passed. *)
Definition releaseBegin (closeErr : option gerr) (late : bool) (i : nat) (l : tunnelLease) (p : platformAdapter) :
    option (platformAdapter * option (option gerr)) :=
  if tl_busy l then None
  else if tl_released l then Some (p, Some (tl_closeErr l))
  else
    let '(p, l, closed) := CloseTunnel closeErr i l p in
    match generationAsInt64 (ref_Generation (tl_ref l)) with
    | Err err => Some (p, Some (join [closed; Some err]))
    | Ok generation =>
        if late then
          Some (p, Some (join [closed; Some (EWrap "platform tunnel cleanup still pending" (ESent CtxDeadlineExceeded))]))
        else
          let '(task, p) := allocate (setTunnelLease i (l <| tl_busy := true |>) p) in
          Some (calls (ReleaseTunnel (tl_callbacks l) i (ref_SessionID (tl_ref l)) generation (tl_fd l)) p
                  <| ad_tasks ::= <[task := Releasing i]> |>, None)
    end.

(** The rest of [Release]. *)
Definition releaseEnd (raw : rawAnswer) (i : nat) (l : tunnelLease) (p : platformAdapter) :
    platformAdapter * option gerr :=
  let '(r, err) := decodeTunnelResult raw in
  let l := l <| tl_busy := false |> in
  match err with
  | Some err => (setTunnelLease i l p, join [tl_closeErr l; Some (EWrap "platform tunnel cleanup failed" err)])
  | None =>
      if CleanupPending r
      then (setTunnelLease i l p, join [tl_closeErr l; Some (EText "platform tunnel cleanup still pending")])
      else
        let p := p <| ad_tunnels ::= releaseFD (tl_fd l) (ownerOf (tl_ref l)) |> in
        (calls (TunnelReleased i) (setTunnelLease i (l <| tl_released := true |>) p), join [tl_closeErr l])
  end.

(** [ProtectSocket]: a protocol's own socket; [accepted] is the shell's answer. *)
Definition ProtectRef (accepted : bool) (ref : SessionRef) (fd : Z) (p : platformAdapter) :
    platformAdapter * option gerr :=
  if (fd <? 0)%Z then (p, Some (EText "invalid socket descriptor"))
  else
    match ad_callbacks p with
    | None => (p, Some (EText "platform socket protector is not registered"))
    | Some cb =>
        match generationAsInt64 (ref_Generation ref), descriptorAsInt32 fd with
        | Err err, _ | _, Err err => (p, Some err)
        | Ok generation, Ok descriptor =>
            (calls (NativeProtect cb (ref_SessionID ref) generation descriptor) p,
             if accepted then None else Some (EText "platform rejected socket protection"))
        end
    end.

(** [protectActive]: a descriptor of the protected dialer, which knows no session. *)
Definition protectActive (accepted : bool) (fd : Z) (p : platformAdapter) : platformAdapter * bool :=
  if (fd <? 0)%Z then (p, false)
  else
    match map_to_list (ad_active p) with
    | [(_, ref)] =>
        match ad_callbacks p with
        | None => (p, false)
        | Some cb =>
            match generationAsInt64 (ref_Generation ref) with
            | Err _ => (p, false)
            | Ok generation => (calls (NativeProtect cb (ref_SessionID ref) generation fd) p, accepted)
            end
        end
    | _ => (p, false)
    end.

(** ** Every interleaving *)

Inductive platformOp :=
| OpCallbacks (callbacks : option nat)
| OpPrepare (ref : SessionRef)
| OpReleasePlatform (ref : SessionRef)
| OpAcquire (ref : SessionRef)
| OpAnswer (task : nat) (raw : rawAnswer) (newFile : bool)
| OpClose (lease : nat) (closeErr : option gerr)
| OpRelease (lease : nat) (closeErr : option gerr) (late : bool)
| OpProtect (ref : SessionRef) (fd : Z) (accepted : bool)
| OpProtectActive (fd : Z) (accepted : bool).

Definition platform_step (op : platformOp) (p : platformAdapter) : platformAdapter :=
  match op with
  | OpCallbacks callbacks => setCallbacks callbacks p
  | OpPrepare ref => (PrepareTunnel ref p).1
  | OpReleasePlatform ref => ReleasePlatform ref p
  | OpAcquire ref => (acquireBegin ref p).1
  | OpAnswer task raw newFile =>
      match ad_tasks p !! task with
      | Some (Acquiring ref cb) => (acquireEnd raw newFile ref cb (p <| ad_tasks ::= delete task |>)).1.1
      | Some (Releasing i) =>
          match ad_leases p !! i with
          | Some l => (releaseEnd raw i l (p <| ad_tasks ::= delete task |>)).1
          | None => p
          end
      | None => p
      end
  | OpClose i closeErr =>
      match ad_leases p !! i with
      | Some l => (CloseTunnel closeErr i l p).1.1
      | None => p
      end
  | OpRelease i closeErr late =>
      match ad_leases p !! i with
      | Some l => match releaseBegin closeErr late i l p with Some (p, _) => p | None => p end
      | None => p
      end
  | OpProtect ref fd accepted => (ProtectRef accepted ref fd p).1
  | OpProtectActive fd accepted => (protectActive accepted fd p).1
  end.

Definition platform_run (ops : list platformOp) (p : platformAdapter) : platformAdapter :=
  fold_left (fun p op => platform_step op p) ops p.

(** ** Publishing states *)

(** [stateChanges] holds one event.  [PublishState] is cut at its three
    selects; it runs under the session's lock, so there is one of it. *)
Inductive publisher :=
| PublishIdle
| PublishFull (event : StateChange)
| PublishDrained (event : StateChange).

Record stateChannel := mkStateChannel {
  sc_slot : option StateChange;
  sc_publisher : publisher;
  sc_taken : list StateChange
}.
#[export] Instance eta_stateChannel : Settable stateChannel := fun c =>
  mkStateChannel (sc_slot c) (sc_publisher c) (sc_taken c).

Definition publish_step (c : stateChannel) (start : option StateChange) : stateChannel :=
  match sc_publisher c, start with
  | PublishIdle, Some event =>
      match sc_slot c with
      | None => c <| sc_slot := Some event |>
      | Some _ => c <| sc_publisher := PublishFull event |>
      end
  | PublishFull event, _ => c <| sc_slot := None |> <| sc_publisher := PublishDrained event |>
  | PublishDrained event, _ =>
      match sc_slot c with
      | None => c <| sc_slot := Some event |> <| sc_publisher := PublishIdle |>
      | Some _ => c <| sc_publisher := PublishIdle |>
      end
  | PublishIdle, None => c
  end.

(** [publishStateChanges] takes the next event; what it then does with it
    depends on the callbacks of that moment. *)
Definition takeState (c : stateChannel) : stateChannel :=
  match sc_slot c with
  | Some event => c <| sc_slot := None |> <| sc_taken ::= fun t => t ++ [event] |>
  | None => c
  end.

Definition deliverState (callbacks : option nat) (event : StateChange) : option (nat * StateChange) :=
  match callbacks with
  | None => None
  | Some cb =>
      match generationAsInt64 (sc_NetworkGeneration event) with
      | Ok _ => Some (cb, event)
      | Err _ => None
      end
  end.
