(* ===== verification/MobilePlatformTheorems.v ===== *)
(** * Who owns a tunnel descriptor, and what the shell is told *)

From S2P Require Import Prelude Errors Session MobilePlatform.

(** ** Traces *)

Definition is_closed (i : nat) (c : nativeCall) : bool :=
  match c with FileClosed j => Nat.eqb i j | _ => false end.
Definition is_released (i : nat) (c : nativeCall) : bool :=
  match c with TunnelReleased j => Nat.eqb i j | _ => false end.

Definition times (f : nativeCall -> bool) (trace : list nativeCall) : nat := length (List.filter f trace).
#[local] Arguments times : simpl never.

(** The lease a call is about. *)
Definition names (c : nativeCall) : option nat :=
  match c with
  | ReleaseTunnel _ i _ _ _ | TunnelReleased i | FileClosed i => Some i
  | _ => None
  end.

Definition generation_of (c : nativeCall) : option Z :=
  match c with
  | AcquireTunnel _ _ g | ReleaseTunnel _ _ _ g _ | NativeProtect _ _ g _ => Some g
  | _ => None
  end.

(** [trace], the last call first: the shell takes a tunnel back only after Go
    closed its file, and not once it said it has. *)
Fixpoint release_order (file : nat -> bool) (trace : list nativeCall) : Prop :=
  match trace with
  | [] => True
  | c :: before =>
      match c with
      | ReleaseTunnel _ i _ _ _ =>
          (file i = true -> FileClosed i ∈ before) /\ ~ TunnelReleased i ∈ before
      | _ => True
      end /\ release_order file before
  end.

Definition has_file (leases : gmap nat tunnelLease) (i : nat) : bool :=
  match leases !! i with Some l => tl_file l | None => false end.

(** ** The invariant *)

(** A lease the shell has not taken back. *)
Definition live (p : platformAdapter) (i : nat) (l : tunnelLease) : Prop :=
  ad_leases p !! i = Some l /\ tl_released l = false.

Record AdInv (p : platformAdapter) : Prop := {
  pi_lease_next : forall i l, ad_leases p !! i = Some l -> i < ad_next p;
  pi_trace_next : forall c i, c ∈ ad_trace p -> names c = Some i -> is_Some (ad_leases p !! i);
  pi_reserved : forall i l, live p i l -> (0 <= tl_fd l)%Z -> ad_tunnels p !! tl_fd l = Some (ownerOf (tl_ref l));
  pi_unique : forall i j li lj, live p i li -> live p j lj -> (0 <= tl_fd li)%Z -> tl_fd li = tl_fd lj -> i = j;
  pi_backed : forall fd o, ad_tunnels p !! fd = Some o -> (0 <= fd)%Z /\ exists i l, live p i l /\ tl_fd l = fd;
  pi_busy : forall t i, ad_tasks p !! t = Some (Releasing i) -> exists l, live p i l /\ tl_busy l = true;
  pi_one_release : forall t u i, ad_tasks p !! t = Some (Releasing i) -> ad_tasks p !! u = Some (Releasing i) -> t = u;
  pi_task_next : forall t k, ad_tasks p !! t = Some k -> t < ad_next p;
  pi_closed : forall i l, ad_leases p !! i = Some l ->
    times (is_closed i) (ad_trace p) = if tl_closed l && tl_file l then 1 else 0;
  pi_released : forall i l, ad_leases p !! i = Some l ->
    times (is_released i) (ad_trace p) = if tl_released l then 1 else 0;
  pi_order : release_order (has_file (ad_leases p)) (ad_trace p);
  pi_generations : Forall (fun c => match generation_of c with Some g => (g <= max_int64)%Z | None => True end) (ad_trace p)
}.

Lemma AdInv_new callbacks : AdInv (newPlatformAdapter callbacks).
Proof. constructor; cbn; try done; unfold live; try (intros; set_solver). all: by intros; decompose_Forall. Qed.

(** ** Traces, continued *)

Lemma times_cons f c trace : times f (c :: trace) = (if f c then 1 else 0) + times f trace.
Proof. unfold times. cbn. by case_match. Qed.

Lemma times_zero f trace : (forall c, c ∈ trace -> f c = false) -> times f trace = 0.
Proof.
  induction trace as [|c trace IH]; [done|]. intros H0. rewrite times_cons, (H0 c) by set_solver.
  apply IH. set_solver.
Qed.

Lemma times_elem f trace : times f trace <> 0 -> exists c, c ∈ trace /\ f c = true.
Proof.
  induction trace as [|c trace IH]; [done|]. rewrite times_cons. destruct (f c) eqn:Ef; intros Hn.
  - exists c. set_solver.
  - destruct (IH Hn) as (d & Hd & Efd). exists d. set_solver.
Qed.

Lemma release_order_ext f g trace :
  (forall c i, c ∈ trace -> names c = Some i -> f i = g i) -> release_order f trace -> release_order g trace.
Proof.
  induction trace as [|c trace IH]; [done|]. intros Hfg [Hc Ht]. split; [|apply IH; set_solver].
  destruct c; try done. cbn in *. rewrite <- (Hfg (ReleaseTunnel cb lease session generation fd)); set_solver.
Qed.

Lemma has_file_insert leases i l j :
  has_file (<[i := l]> leases) j = if decide (i = j) then tl_file l else has_file leases j.
Proof. unfold has_file. case_decide; subst; by rewrite ?lookup_insert_eq, ?lookup_insert_ne by done. Qed.

(** ** Each step keeps the invariant *)

(** Neither the callbacks nor the active generations matter, and a task that
    ends, a new task of acquiring and a call about no lease change nothing. *)
Lemma AdInv_frame p q :
  ad_tunnels q = ad_tunnels p -> ad_leases q = ad_leases p -> ad_tasks q ⊆ ad_tasks p ->
  ad_next q = ad_next p -> ad_trace q = ad_trace p -> AdInv p -> AdInv q.
Proof.
  intros Et El Ek En Er [? ? ? ? ? Hb Ho Hn ? ? ? ?].
  constructor; unfold live in *; rewrite ?Et, ?El, ?En, ?Er; try done.
  - intros t i Ht. eapply Hb, lookup_weaken; eassumption.
  - intros t u i Ht Hu. eapply Ho; eapply lookup_weaken; eassumption.
  - intros t k Ht. eapply Hn, lookup_weaken; eassumption.
Qed.

Lemma AdInv_calls c p :
  names c = None -> match generation_of c with Some g => (g <= max_int64)%Z | None => True end ->
  AdInv p -> AdInv (calls c p).
Proof.
  intros Ec Hg [? Ht ? ? ? ? ? ? Hc Hr Ho Hf]. constructor; unfold live in *; cbn; try done.
  - intros d i [->|Hd]%elem_of_cons Ed; [congruence|eauto].
  - intros i l Hl. rewrite times_cons, (Hc _ _ Hl). by destruct c; try done.
  - intros i l Hl. rewrite times_cons, (Hr _ _ Hl). by destruct c; try done.
  - split; [by destruct c|done].
  - by constructor.
Qed.

Lemma AdInv_acquiring ref cb p :
  AdInv p -> AdInv (p <| ad_next ::= S |> <| ad_tasks ::= <[ad_next p := Acquiring ref cb]> |>).
Proof.
  intros [Hl ? ? ? ? Hb Ho Hn ? ? ? ?]. constructor; unfold live in *; cbn; try done.
  - intros i l Hi. specialize (Hl i l Hi). lia.
  - intros t i [[_ [=]]|[_ Ht]]%lookup_insert_Some. eauto.
  - intros t u i [[_ [=]]|[_ Ht]]%lookup_insert_Some [[_ [=]]|[_ Hu]]%lookup_insert_Some. eauto.
  - intros t k [[<- _]|[_ Ht]]%lookup_insert_Some; [lia|]. specialize (Hn t k Ht). lia.
Qed.

Lemma AdInv_untraced p c : AdInv p -> c ∈ ad_trace p -> names c = Some (ad_next p) -> False.
Proof.
  intros HP Hc En. destruct (pi_trace_next p HP c _ Hc En) as [l Hl].
  pose proof (pi_lease_next p HP _ _ Hl). lia.
Qed.

Lemma is_closed_names i c : is_closed i c = true -> c = FileClosed i.
Proof. destruct c; cbn; try done. by intros ->%Nat.eqb_eq. Qed.
Lemma is_released_names i c : is_released i c = true -> c = TunnelReleased i.
Proof. destruct c; cbn; try done. by intros ->%Nat.eqb_eq. Qed.

(** A lease of nothing, or of a descriptor nobody has reserved. *)
Lemma AdInv_newLease l tunnels p :
  tl_closed l = false -> tl_released l = false ->
  ((tl_fd l < 0)%Z /\ tunnels = ad_tunnels p) \/
    ((0 <= tl_fd l)%Z /\ ad_tunnels p !! tl_fd l = None /\ tunnels = <[tl_fd l := ownerOf (tl_ref l)]> (ad_tunnels p)) ->
  AdInv p -> AdInv (newTunnelLease l (p <| ad_tunnels := tunnels |>)).1.
Proof.
  intros Ec Er Ht HP. pose proof HP as [Hl Htr Hres Huni Hback Hb Ho Hn Hc Hr Hord Hg].
  assert (Hfresh : ad_leases p !! ad_next p = None).
  { destruct (ad_leases p !! ad_next p) as [l'|] eqn:E; [|done]. specialize (Hl _ _ E). lia. }
  assert (Hkeep : forall i l', ad_leases p !! i = Some l' -> <[ad_next p := l]> (ad_leases p) !! i = Some l').
  { intros i l' Hi. rewrite lookup_insert_ne; [done|]. specialize (Hl i l' Hi). lia. }
  assert (Hnew : forall i l', <[ad_next p := l]> (ad_leases p) !! i = Some l' ->
    (i = ad_next p /\ l' = l) \/ ad_leases p !! i = Some l').
  { intros i l' [[<- <-]|[_ Hi]]%lookup_insert_Some; auto. }
  constructor; unfold live in *; cbn.
  - intros i l' [[-> _]|Hi]%Hnew; [lia|]. specialize (Hl i l' Hi). lia.
  - intros c i Hc' En. destruct (Htr c i Hc' En) as [l' Hl']. eauto.
  - intros i l' [[[-> ->]|Hi]%Hnew Hrel] Hfd.
    + destruct Ht as [[? _]|(_ & _ & ->)]; [lia|]. by rewrite lookup_insert_eq.
    + specialize (Hres i l' (conj Hi Hrel) Hfd). destruct Ht as [[_ ->]|(_ & Hnone & ->)]; [done|].
      rewrite lookup_insert_ne; [done|congruence].
  - assert (Hnot : forall i l', ad_leases p !! i = Some l' /\ tl_released l' = false -> tl_fd l = tl_fd l' -> (0 <= tl_fd l')%Z -> False).
    { intros i l' Hi Ef Hfd. specialize (Hres i l' Hi Hfd).
      destruct Ht as [[? _]|(_ & Hnone & _)]; [lia|congruence]. }
    intros i j li lj [[[-> ->]|Hi]%Hnew Hri] [[[-> ->]|Hj]%Hnew Hrj] Hfd Ef; [done| | |by eauto].
    + exfalso. apply (Hnot j lj); [done..|lia].
    + exfalso. apply (Hnot i li); [done..|lia].
  - intros fd o Hfd.
    assert (ad_tunnels p !! fd = Some o \/ fd = tl_fd l /\ (0 <= fd)%Z) as [Hold|[-> Hpos]].
    { destruct Ht as [[_ ->]|(? & _ & ->)]; [by left|].
      apply lookup_insert_Some in Hfd as [[<- _]|[_ ?]]; auto. }
    + destruct (Hback fd o Hold) as (Hpos & i & l' & [Hi Hrel] & Ef). split; [done|]. exists i, l'. auto.
    + split; [done|]. exists (ad_next p), l. by rewrite lookup_insert_eq.
  - intros t i Hi. destruct (Hb t i Hi) as (l' & [Hl' Hrel] & Hbusy). exists l'. auto.
  - done.
  - intros t k Hk. specialize (Hn t k Hk). lia.
  - intros i l' [[-> ->]|Hi]%Hnew; [|by apply Hc]. rewrite Ec. apply times_zero. intros c Hc'.
    apply not_true_is_false. intros ->%is_closed_names. exact (AdInv_untraced p _ HP Hc' eq_refl).
  - intros i l' [[-> ->]|Hi]%Hnew; [|by apply Hr]. rewrite Er. apply times_zero. intros c Hc'.
    apply not_true_is_false. intros ->%is_released_names. exact (AdInv_untraced p _ HP Hc' eq_refl).
  - eapply release_order_ext, Hord. intros c i Hc' En. rewrite has_file_insert. case_decide; [|done].
    subst. destruct (AdInv_untraced p c HP Hc' En).
  - done.
Qed.

(** The lease that keeps its descriptor, busy or idle, closed or not. *)
Lemma AdInv_setLease i l l' closing p :
  ad_leases p !! i = Some l ->
  (tl_file l' = tl_file l /\ tl_fd l' = tl_fd l /\ tl_ref l' = tl_ref l /\ tl_released l' = tl_released l) ->
  ((exists t, ad_tasks p !! t = Some (Releasing i)) -> tl_busy l' = true) ->
  (if closing : bool then tl_file l = true /\ tl_closed l = false /\ tl_closed l' = true
   else tl_closed l' && tl_file l = tl_closed l && tl_file l) ->
  AdInv p -> AdInv ((if closing then calls (FileClosed i) else id) (setTunnelLease i l' p)).
Proof.
  intros Hi (Ef & Efd & Eref & Erel) Hbusy Hclosing [Hl Htr Hres Huni Hback Hb Ho Hn Hc Hr Hord Hg].
  assert (Hold : forall j lj, <[i := l']> (ad_leases p) !! j = Some lj -> exists lo, ad_leases p !! j = Some lo /\
    tl_fd lj = tl_fd lo /\ tl_ref lj = tl_ref lo /\ tl_released lj = tl_released lo /\ (i <> j -> lj = lo)).
  { intros j lj [[<- <-]|[Hne Hj]]%lookup_insert_Some; [exists l|exists lj]; by split_and!. }
  assert (Hkeep : forall j lo, ad_leases p !! j = Some lo -> exists lj, <[i := l']> (ad_leases p) !! j = Some lj /\
    tl_fd lj = tl_fd lo /\ tl_released lj = tl_released lo /\ (i <> j -> lj = lo)).
  { intros j lo Hj. destruct (decide (i = j)) as [<-|].
    - exists l'. assert (lo = l) as -> by congruence. rewrite lookup_insert_eq. by split_and!.
    - exists lo. rewrite lookup_insert_ne by done. by split_and!. }
  assert (HH : AdInv (setTunnelLease i l' p <| ad_trace := (if closing then [FileClosed i] else []) ++ ad_trace p |>)).
  { constructor; unfold live in *; cbn.
    - intros j lj (lo & Hj & _)%Hold. by eapply Hl.
    - intros c j Hc' En. assert (is_Some (ad_leases p !! j)) as [lo Hj].
      { destruct closing; [|by eapply Htr]. apply elem_of_cons in Hc' as [->|Hc']; [|by eapply Htr].
        injection En as <-. eauto. }
      destruct (Hkeep j lo Hj) as (lj & Hj' & _). eauto.
    - intros j lj [(lo & Hj & -> & -> & Er & _)%Hold Hrel]. eapply Hres. split; [exact Hj|congruence].
    - intros j k lj lk [(lo & Hj & E1 & _ & R1 & _)%Hold Hrj] [(lo' & Hk & E2 & _ & R2 & _)%Hold Hrk].
      rewrite E1, E2. eapply Huni; split; [exact Hj|congruence|exact Hk|congruence].
    - intros fd o Hfd. destruct (Hback fd o Hfd) as (Hpos & j & lo & [Hj Hrel] & Efd'). split; [done|].
      destruct (Hkeep j lo Hj) as (lj & Hj' & E1 & R1 & _). exists j, lj. split_and!; [done|congruence..].
    - intros t j Hj. destruct (Hb t j Hj) as (lo & [Hlo Hrel] & Hbu).
      destruct (Hkeep j lo Hlo) as (lj & Hj' & E1 & R1 & Hsame). exists lj. split_and!; [done|congruence|].
      destruct (decide (i = j)) as [<-|]; [|by rewrite Hsame].
      rewrite lookup_insert_eq in Hj'. simplify_eq. eauto.
    - done.
    - done.
    - intros j lj [[<- <-]|[Hne Hj]]%lookup_insert_Some.
      + rewrite Ef. destruct closing; cbn; rewrite ?times_cons, (Hc _ _ Hi).
        * destruct Hclosing as (-> & -> & ->). cbn. by rewrite Nat.eqb_refl.
        * by rewrite Hclosing.
      + destruct closing; cbn; rewrite ?times_cons, (Hc _ _ Hj); [|done]. cbn.
        by rewrite (proj2 (Nat.eqb_neq j i)) by done.
    - intros j lj (lo & Hj & _ & _ & -> & _)%Hold. destruct closing; exact (Hr _ _ Hj).
    - assert (release_order (has_file (<[i := l']> (ad_leases p))) (ad_trace p)).
      { eapply release_order_ext, Hord. intros c j _ _. rewrite has_file_insert. case_decide; [|done]. subst.
        unfold has_file. by rewrite Hi, Ef. }
      by destruct closing.
    - destruct closing; [by constructor|done]. }
  by destruct closing.
Qed.

Lemma CloseTunnel_lease e i l p :
  ad_leases p !! i = Some l ->
  let '(q, l', _) := CloseTunnel e i l p in
  ad_leases q !! i = Some l' /\ tl_closed l' = true /\ tl_file l' = tl_file l /\ tl_fd l' = tl_fd l /\
  tl_ref l' = tl_ref l /\ tl_busy l' = tl_busy l /\ tl_released l' = tl_released l /\ tl_callbacks l' = tl_callbacks l.
Proof.
  intros Hi. unfold CloseTunnel. destruct (tl_closed l) eqn:?; [done|]. cbn. destruct (tl_file l) eqn:?; cbn;
    (split; [apply lookup_insert_eq|done]).
Qed.

Lemma AdInv_CloseTunnel e i l p : ad_leases p !! i = Some l -> AdInv p -> AdInv (CloseTunnel e i l p).1.1.
Proof.
  intros Hi HP. assert (Hbusy : (exists t, ad_tasks p !! t = Some (Releasing i)) -> tl_busy l = true).
  { intros [t Ht]. destruct (pi_busy p HP t i Ht) as (lo & [Hlo _] & Hb). congruence. }
  unfold CloseTunnel. destruct (tl_closed l) eqn:Ec; [done|]. cbn. destruct (tl_file l) eqn:Ef; cbn.
  - eapply (AdInv_setLease i l _ true); [done|by cbn..].
  - eapply (AdInv_setLease i l _ false); [done| |done| |done]; cbn; [done|]. by rewrite Ef, !andb_false_r.
Qed.

(** The shell is asked to take the tunnel of a closed lease back. *)
Lemma AdInv_releasing cb i l g p :
  ad_leases p !! i = Some l -> tl_closed l = true -> tl_busy l = false -> tl_released l = false -> (g <= max_int64)%Z ->
  AdInv p ->
  AdInv (calls (ReleaseTunnel cb i (ref_SessionID (tl_ref l)) g (tl_fd l)) (setTunnelLease i (l <| tl_busy := true |>) p <| ad_next ::= S |>)
    <| ad_tasks ::= <[ad_next p := Releasing i]> |>).
Proof.
  intros Hi Ec Eb Er Hg HP.
  assert (Hno : forall t, ad_tasks p !! t = Some (Releasing i) -> False).
  { intros t Ht. destruct (pi_busy p HP t i Ht) as (lo & [Hlo _] & Hb). congruence. }
  assert (HQ : AdInv (setTunnelLease i (l <| tl_busy := true |>) p)) by (by eapply (AdInv_setLease i l _ false)).
  destruct HQ as [Hl Htr Hres Huni Hback Hb Ho Hn Hc Hr Hord Hgs].
  assert (Hi' : ad_leases (setTunnelLease i (l <| tl_busy := true |>) p) !! i = Some (l <| tl_busy := true |>)).
  { cbn. by rewrite lookup_insert_eq. }
  assert (Hone : forall t j, <[ad_next p := Releasing i]> (ad_tasks p) !! t = Some (Releasing j) ->
    (t = ad_next p /\ j = i) \/ ad_tasks p !! t = Some (Releasing j)).
  { intros t j [[<- [= <-]]|[_ Ht]]%lookup_insert_Some; auto. }
  constructor; unfold live in *; cbn -[setTunnelLease] in *; try done.
  - intros j lj Hj. specialize (Hl j lj Hj). cbn in Hl |- *. lia.
  - intros c j [->|Hc']%elem_of_cons En; [|eauto]. injection En as <-. eauto.
  - intros t j [[_ [= <-]]|[_ Ht]]%lookup_insert_Some; [|eauto]. eauto.
  - intros t u j [[-> ->]|Ht]%Hone [[-> Eu]|Hu]%Hone; try done; try (subst; by destruct (Hno _ Hu)).
    + subst. by destruct (Hno _ Ht).
    + eauto.
  - intros t k [[<- _]|[_ Ht]]%lookup_insert_Some; cbn; [lia|]. specialize (Hn t k Ht). cbn in Hn. lia.
  - split; [|done]. split.
    + unfold has_file. cbn. rewrite lookup_insert_eq. cbn. intros Ef. specialize (Hc _ _ Hi'). cbn in Hc.
      rewrite Ec, Ef in Hc. destruct (times_elem (is_closed i) (ad_trace p)) as (c & Hc' & ->%is_closed_names); [by rewrite Hc|done].
    + intros Hin. specialize (Hr _ _ Hi'). cbn in Hr. rewrite Er in Hr. unfold times in Hr.
      apply length_zero_iff_nil in Hr. apply (not_elem_of_nil (TunnelReleased i)). rewrite <- Hr.
      apply list_elem_of_In, filter_In. split; [by apply list_elem_of_In|]. cbn. apply Nat.eqb_refl.
  - by constructor.
Qed.

(** The shell took the tunnel back: nobody owns its descriptor any more. *)
Lemma AdInv_released i l p :
  ad_leases p !! i = Some l -> tl_released l = false -> (forall t, ad_tasks p !! t <> Some (Releasing i)) ->
  AdInv p ->
  AdInv (calls (TunnelReleased i) (setTunnelLease i (l <| tl_released := true |>)
    (p <| ad_tunnels ::= releaseFD (tl_fd l) (ownerOf (tl_ref l)) |>))).
Proof.
  intros Hi Er Hno [Hl Htr Hres Huni Hback Hb Ho Hn Hc Hr Hord Hg].
  assert (Hold : forall j lj, <[i := l <| tl_released := true |>]> (ad_leases p) !! j = Some lj /\ tl_released lj = false ->
    i <> j /\ ad_leases p !! j = Some lj /\ tl_released lj = false).
  { intros j lj [[[<- <-]|[Hne Hj]]%lookup_insert_Some Hrel]; [done|auto]. }
  assert (Hfree : releaseFD (tl_fd l) (ownerOf (tl_ref l)) (ad_tunnels p) = delete (tl_fd l) (ad_tunnels p)).
  { unfold releaseFD. destruct (ad_tunnels p !! tl_fd l) as [o|] eqn:E; [|by rewrite delete_id].
    destruct (Hback _ _ E) as [Hpos _]. rewrite (Hres i l (conj Hi Er) Hpos) in E. simplify_eq. by case_bool_decide. }
  constructor; unfold live in *; cbn -[releaseFD]; rewrite ?Hfree; try done.
  - intros j lj [[<- _]|[_ Hj]]%lookup_insert_Some; eauto.
  - intros c j [->|Hc']%elem_of_cons En.
    + injection En as <-. by rewrite lookup_insert_eq.
    + apply lookup_insert_is_Some'. eauto.
  - intros j lj (Hne & Hj)%Hold Hfd. rewrite lookup_delete_ne; [by apply (Hres j)|].
    intros Ef. apply Hne, (Huni i j l lj); [done|done| |done]. lia.
  - intros j k lj lk (_ & Hj)%Hold (_ & Hk)%Hold. eauto.
  - intros fd o [Hne Hfd]%lookup_delete_Some. destruct (Hback fd o Hfd) as (Hpos & j & lj & Hj & Ef).
    split; [done|]. exists j, lj. split; [|done]. rewrite lookup_insert_ne; [done|]. intros <-. destruct Hj. congruence.
  - intros t j Ht. destruct (Hb t j Ht) as (lj & Hj & Hbusy). exists lj. split; [|done].
    rewrite lookup_insert_ne; [done|]. intros <-. by destruct (Hno t).
  - intros j lj [[<- <-]|[_ Hj]]%lookup_insert_Some; rewrite times_cons; cbn; by apply Hc.
  - intros j lj [[<- <-]|[Hne Hj]]%lookup_insert_Some; rewrite times_cons; cbn.
    + by rewrite Nat.eqb_refl, (Hr _ _ Hi), Er.
    + rewrite (proj2 (Nat.eqb_neq j i)) by done. by apply Hr.
  - split; [done|]. eapply release_order_ext, Hord. intros c j _ _. rewrite has_file_insert. case_decide; [|done].
    subst. unfold has_file. by rewrite Hi.
  - by constructor.
Qed.

Lemma generationAsInt64_Ok g n : generationAsInt64 g = Ok n -> n = g /\ (g <= max_int64)%Z.
Proof. unfold generationAsInt64. destruct (Z.ltb_spec max_int64 g); [done|]. intros [= <-]. auto. Qed.

Lemma AdInv_acquireBegin ref p : AdInv p -> AdInv (acquireBegin ref p).1.
Proof.
  intros HP. unfold acquireBegin. destruct (ad_callbacks p) as [cb|]; [|done].
  destruct (generationAsInt64 _) as [g|] eqn:Eg; [|done]. apply generationAsInt64_Ok in Eg as [-> Hg]. cbn.
  exact (AdInv_calls (AcquireTunnel cb (ref_SessionID ref) (ref_Generation ref)) _ eq_refl Hg (AdInv_acquiring ref cb p HP)).
Qed.

Lemma acquireResult_cases raw ref p :
  (exists err, acquireResult raw ref p = (p, Err err)) \/
  (exists fd, (0 <= fd)%Z /\ ad_tunnels p !! fd = None /\
    acquireResult raw ref p = (p <| ad_tunnels ::= <[fd := ownerOf ref]> |>, Ok fd)).
Proof.
  unfold acquireResult. destruct (decodeTunnelResult raw) as [r err]. destruct (FD r) as [fd|]; cbn.
  2:{ rewrite orb_true_r. eauto. }
  destruct (Z.ltb_spec fd 0); [rewrite orb_true_r; eauto|]. destruct err; cbn; [eauto|].
  unfold reserve. destruct (ad_tunnels p !! fd) eqn:E; cbn; [|eauto 10].
  left. eexists. by destruct p.
Qed.

Lemma AdInv_acquireEnd raw newFile ref cb p : AdInv p -> AdInv (acquireEnd raw newFile ref cb p).1.1.
Proof.
  intros HP. unfold acquireEnd. destruct (acquireResult_cases raw ref p) as [[[err owned] ->]|(fd & Hfd & Hnone & ->)].
  - destruct owned; [|done].
    exact (AdInv_newLease (mkTunnelLease false (-1) ref cb false None false false) (ad_tunnels p) p
      eq_refl eq_refl (or_introl (conj eq_refl eq_refl)) HP).
  - unfold descriptorAsUintptr. destruct (Z.ltb_spec fd 0); [lia|].
    exact (AdInv_newLease (mkTunnelLease newFile fd ref cb false None false false) _ p
      eq_refl eq_refl (or_intror (conj Hfd (conj Hnone eq_refl))) HP).
Qed.

Lemma AdInv_releaseBegin e late i l p :
  ad_leases p !! i = Some l -> AdInv p ->
  match releaseBegin e late i l p with Some (q, _) => AdInv q | None => True end.
Proof.
  intros Hi HP. unfold releaseBegin. destruct (tl_busy l) eqn:Eb; [done|]. destruct (tl_released l) eqn:Er; [done|].
  pose proof (CloseTunnel_lease e i l p Hi) as Hlease. pose proof (AdInv_CloseTunnel e i l p Hi HP) as HQ.
  destruct (CloseTunnel e i l p) as [[q l'] closed]. destruct Hlease as (Hi' & Ec & _ & _ & _ & Eb' & Er' & _).
  destruct (generationAsInt64 _) as [g|] eqn:Eg; [|done]. apply generationAsInt64_Ok in Eg as [-> Hg].
  destruct late; [done|]. cbn.
  exact (AdInv_releasing _ i l' _ q Hi' Ec (eq_trans Eb' Eb) (eq_trans Er' Er) Hg HQ).
Qed.

Lemma AdInv_releaseEnd raw t i l p :
  ad_tasks p !! t = Some (Releasing i) -> ad_leases p !! i = Some l -> AdInv p ->
  AdInv (releaseEnd raw i l (p <| ad_tasks ::= delete t |>)).1.
Proof.
  intros Ht Hi HP. destruct (pi_busy p HP t i Ht) as (l0 & [Hl0 Er] & _). assert (l0 = l) as -> by congruence.
  assert (Hno : forall u, delete t (ad_tasks p) !! u <> Some (Releasing i)).
  { intros u [Hne Hu]%lookup_delete_Some. exact (Hne (pi_one_release p HP _ _ _ Ht Hu)). }
  set (q := p <| ad_tasks ::= delete t |>).
  assert (HQ : AdInv q) by (eapply AdInv_frame, HP; try done; apply delete_subseteq).
  assert (HI : AdInv (setTunnelLease i (l <| tl_busy := false |>) q)).
  { eapply (AdInv_setLease i l _ false); [done|done| |done|done]. intros [u Hu]. by destruct (Hno u). }
  unfold releaseEnd. destruct (decodeTunnelResult raw) as [r [err|]]; [done|]. destruct (CleanupPending r); [done|].
  pose proof (AdInv_released i (l <| tl_busy := false |>) (setTunnelLease i (l <| tl_busy := false |>) q)) as HF.
  unfold setTunnelLease in HF. cbn -[releaseFD] in HF. rewrite lookup_insert_eq, insert_insert_eq in HF. by apply HF.
Qed.

Lemma AdInv_ProtectRef accepted ref fd p : AdInv p -> AdInv (ProtectRef accepted ref fd p).1.
Proof.
  intros HP. unfold ProtectRef. repeat (case_match; try done); subst; cbn;
  (apply AdInv_calls; [done| |done]); cbn;
  match goal with HE : generationAsInt64 _ = Ok _ |- _ => by apply generationAsInt64_Ok in HE as [-> ?] end.
Qed.

Lemma AdInv_protectActive accepted fd p : AdInv p -> AdInv (protectActive accepted fd p).1.
Proof.
  intros HP. unfold protectActive. repeat (case_match; try done); subst; cbn;
  (apply AdInv_calls; [done| |done]); cbn;
  match goal with HE : generationAsInt64 _ = Ok _ |- _ => by apply generationAsInt64_Ok in HE as [-> ?] end.
Qed.

Lemma AdInv_step op p : AdInv p -> AdInv (platform_step op p).
Proof.
  intros HP. destruct op as [callbacks|ref|ref|ref|task raw newFile|i e|i e late|ref fd accepted|fd accepted]; cbn.
  - by eapply AdInv_frame, HP.
  - unfold PrepareTunnel. repeat case_match; first [done|by eapply AdInv_frame, HP].
  - unfold ReleasePlatform. repeat case_match; first [done|by eapply AdInv_frame, HP].
  - by apply AdInv_acquireBegin.
  - destruct (ad_tasks p !! task) as [[ref cb|i]|] eqn:Et; [| |done].
    + apply AdInv_acquireEnd. eapply AdInv_frame, HP; try done. apply delete_subseteq.
    + destruct (ad_leases p !! i) as [l|] eqn:El; [|done]. by apply AdInv_releaseEnd.
  - destruct (ad_leases p !! i) as [l|] eqn:El; [|done]. by apply AdInv_CloseTunnel.
  - destruct (ad_leases p !! i) as [l|] eqn:El; [|done]. pose proof (AdInv_releaseBegin e late i l p El HP).
    by destruct (releaseBegin e late i l p) as [[q r]|].
  - by apply AdInv_ProtectRef.
  - by apply AdInv_protectActive.
Qed.

Lemma AdInv_run ops p : AdInv p -> AdInv (platform_run ops p).
Proof. revert p. induction ops as [|op ops IH]; [done|]. intros p HP. apply IH, AdInv_step, HP. Qed.

(** ** Who owns a descriptor *)

(** C34: however calls of the session, answers of the shell and replacements of
    its callbacks interleave, a descriptor the shell handed out belongs to one
    lease: two leases the shell has not taken back never share one, each holds
    its reservation under its own session and generation, and nothing else is
    reserved.  Go closes the file of a lease at most once; the shell is asked to
    take a tunnel back only after that, never again once it has, and every
    generation it is told fits its 64 bits. *)
Theorem tunnel_descriptor_has_one_owner callbacks ops :
  let p := platform_run ops (newPlatformAdapter callbacks) in
  (forall i l, live p i l -> (0 <= tl_fd l)%Z ->
    ad_tunnels p !! tl_fd l = Some (ownerOf (tl_ref l)) /\
    forall j lj, live p j lj -> tl_fd lj = tl_fd l -> j = i) /\
  (forall fd o, ad_tunnels p !! fd = Some o ->
    (0 <= fd)%Z /\ exists i l, live p i l /\ tl_fd l = fd /\ ownerOf (tl_ref l) = o) /\
  (forall i, times (is_closed i) (ad_trace p) <= 1 /\ times (is_released i) (ad_trace p) <= 1) /\
  release_order (has_file (ad_leases p)) (ad_trace p) /\
  Forall (fun c => match generation_of c with Some g => (g <= max_int64)%Z | None => True end) (ad_trace p).
Proof.
  cbv zeta. pose proof (AdInv_run ops _ (AdInv_new callbacks)) as HP.
  destruct HP as [_ Htr Hres Huni Hback _ _ _ Hc Hr Hord Hg].
  split_and!; [| | |done|done].
  - intros i l Hl Hfd. split; [by apply (Hres i l)|]. intros j lj Hj Ef. symmetry. by eapply Huni; eauto.
  - intros fd o Hfd. destruct (Hback fd o Hfd) as (Hpos & i & l & Hl & <-). split; [done|].
    exists i, l. split_and!; [done..|]. specialize (Hres i l Hl Hpos). congruence.
  - intros i. destruct (ad_leases (platform_run ops (newPlatformAdapter callbacks)) !! i) as [l|] eqn:El.
    + rewrite (Hc i l El), (Hr i l El). split; case_match; lia.
    + split; rewrite times_zero; try lia; intros c Hc'; apply not_true_is_false.
      * intros ->%is_closed_names. destruct (Htr _ _ Hc' eq_refl). congruence.
      * intros ->%is_released_names. destruct (Htr _ _ Hc' eq_refl). congruence.
Qed.

(** ** What the shell is told *)

Inductive channelOp :=
| ChPublish (event : StateChange)
| ChContinue
| ChTake.

(** The channel with every state [PublishState] was called with. *)
Definition channel_step (op : channelOp) (cp : stateChannel * list StateChange) : stateChannel * list StateChange :=
  match op with
  | ChPublish event =>
      match sc_publisher cp.1 with
      | PublishIdle => (publish_step cp.1 (Some event), cp.2 ++ [event])
      | _ => cp
      end
  | ChContinue => (publish_step cp.1 None, cp.2)
  | ChTake => (takeState cp.1, cp.2)
  end.

Definition channel_run (ops : list channelOp) : stateChannel * list StateChange :=
  fold_left (fun cp op => channel_step op cp) ops (mkStateChannel None PublishIdle [], []).

(** What the shell has seen or will be shown. *)
Definition shown (c : stateChannel) : list StateChange :=
  sc_taken c ++ match sc_slot c with Some event => [event] | None => [] end.

Definition CInv (cp : stateChannel * list StateChange) : Prop :=
  match sc_publisher cp.1 with
  | PublishIdle => shown cp.1 `sublist_of` cp.2 /\ last (shown cp.1) = last cp.2
  | PublishFull event => exists before, cp.2 = before ++ [event] /\ shown cp.1 `sublist_of` before
  | PublishDrained event =>
      sc_slot cp.1 = None /\ exists before, cp.2 = before ++ [event] /\ sc_taken cp.1 `sublist_of` before
  end.

Lemma shown_take c : shown (takeState c) = shown c.
Proof. destruct c as [[event|] publisher taken]; unfold shown; cbn; by rewrite ?app_nil_r. Qed.

Lemma CInv_continue cp : CInv cp -> CInv (publish_step cp.1 None, cp.2).
Proof.
  destruct cp as [[slot publisher taken] published]. unfold CInv, publish_step, shown. cbn.
  destruct publisher as [|event|event]; cbn; [done| |].
  - intros (before & -> & Hs). split; [done|]. exists before. split; [done|].
    etrans; [|exact Hs]. by apply sublist_inserts_r.
  - intros (-> & before & -> & Hs). cbn. rewrite !last_snoc. split; [|done]. by apply sublist_app.
Qed.

Lemma CInv_step op cp : CInv cp -> CInv (channel_step op cp).
Proof.
  intros HC. destruct op as [event| |]; cbn; [|by apply CInv_continue|].
  - destruct cp as [[slot publisher taken] published]. destruct publisher; cbn; [|done..].
    unfold CInv, shown in HC |- *. cbn in HC. destruct HC as [Hs _]. destruct slot as [e|]; cbn.
    + by exists published.
    + rewrite app_nil_r in Hs. rewrite !last_snoc. split; [|done]. by apply sublist_app.
  - unfold CInv in *. cbn. rewrite shown_take. unfold takeState.
    destruct (sc_slot cp.1) eqn:Es; [|by rewrite Es]. cbn.
    destruct (sc_publisher cp.1); [done..|]. by destruct HC.
Qed.

Lemma CInv_run ops : CInv (channel_run ops).
Proof.
  unfold channel_run. set (c0 := (_, [])). assert (HC : CInv c0) by done. clearbody c0. revert c0 HC.
  induction ops as [|op ops IH]; [done|]. intros c HC. apply IH, CInv_step, HC.
Qed.

(** the channel to the shell holds one state, and a newer one replaces the
    one still in it.  Whatever [publishStateChanges] takes between the steps of
    [PublishState], it takes published states only, each at most as often as it
    was published and in that order, and the last state is never the one lost:
    once the publisher has finished and what is there has been taken, the last
    state taken for the shell is the last one published. *)
Theorem platform_sees_the_last_state ops :
  let '(c, published) := channel_run ops in
  shown c `sublist_of` published /\
  last (sc_taken (takeState (publish_step (publish_step c None) None))) = last published.
Proof.
  pose proof (CInv_run ops) as HC. destruct (channel_run ops) as [c published].
  pose proof (CInv_continue _ (CInv_continue _ HC)) as HC2. cbn in HC2. revert HC HC2.
  destruct c as [slot publisher taken]. unfold CInv, shown, takeState. cbn.
  destruct publisher as [|event|event]; cbn; [destruct slot; cbn; rewrite ?app_nil_r; tauto| |].
  - intros (before & -> & Hs) [_ Hl]. split; [|done]. by apply sublist_inserts_r.
  - intros (-> & before & -> & Hs) [_ Hl]. cbn. rewrite app_nil_r. split; [|done]. by apply sublist_inserts_r.
Qed.

(** A descriptor the first session has not given back is refused to the second,
    and granted once it has. *)
Example descriptor_moves_on :
  let one := mkSessionRef "one" 1 in
  let two := mkSessionRef "two" 1 in
  let answer fd := mkRawAnswer true None (mkNativeTunnelResult fd "" false) in
  let first := platform_run [OpAcquire one; OpAnswer 0 (answer (Some 7%Z)) true; OpAcquire two;
    OpAnswer 2 (answer (Some 7%Z)) true] (newPlatformAdapter (Some 0)) in
  let second := platform_run [OpRelease 1 None false; OpAnswer 3 (answer None) false; OpAcquire two;
    OpAnswer 4 (answer (Some 7%Z)) true] first in
  (map_to_list (ad_tunnels first), size (ad_leases first)) = ([(7%Z, ownerOf one)], 1) /\
  (map_to_list (ad_tunnels second), size (ad_leases second)) = ([(7%Z, ownerOf two)], 2).
Proof. split; vm_compute; reflexivity. Qed.
