(* ===== verification/OutputGuard.v ===== *)
(** * The Linux output guard (core/routing/filter_linux.go)

    The kill switch: a table of packet filter rules owned by a netlink socket
    of the process, which lets packets leave through the VPN only, except the
    marked sockets of the program and what the physical link needs.  The rules
    are the expressions the code builds; what the kernel does with them is the
    interface [Netfilter], with the laws of its documentation.  Every call of
    the kernel may fail, and its answer may be lost after the kernel acted. *)

From S2P Require Import Prelude Errors GoStrings Bypass RoutingPlan.
Local Open Scope string_scope.
Local Open Scope list_scope.

(** ** Addresses (package net/netip) *)

Record Addr := mkAddr { addr_bytes : list Z; addr_zone : string }.

Definition addr_Is4 (ip : Addr) : bool := Nat.eqb (length (addr_bytes ip)) 4.
Definition addr_Is6 (ip : Addr) : bool := Nat.eqb (length (addr_bytes ip)) 16.
Definition addr_IsValid (ip : Addr) : bool := addr_Is4 ip || addr_Is6 ip.

(** After [Unmap] of a mapped IPv4 address. *)
Definition addr_IsLoopback (ip : Addr) : bool :=
  match To4 (addr_bytes ip) with
  | Some (a :: _) => (a =? 127)%Z
  | Some [] => false
  | None => bool_decide (addr_bytes ip = replicate 15 0%Z ++ [1%Z])
  end.

Definition addr_IsUnspecified (ip : Addr) : bool :=
  String.eqb (addr_zone ip) "" &&
  (bool_decide (addr_bytes ip = replicate 4 0%Z) || bool_decide (addr_bytes ip = replicate 16 0%Z)).

(** ** Rules *)

Inductive metaKey := OIFNAME | MARK | L4PROTO | NFPROTO | SKUID.
Inductive payloadBase := NetworkHeader | TransportHeader.
Inductive VerdictKind := VerdictAccept | VerdictDrop.

(** The expressions of the rules; a comparison is for equality. *)
Inductive Any :=
| Meta (key : metaKey) (register : Z)
| MetaSet (key : metaKey) (register : Z)
| Cmp (register : Z) (data : list Z)
| Payload (base : payloadBase) (offset len : Z) (register : Z)
| Immediate (register : Z) (data : list Z)
| Counter
| Verdict (kind : VerdictKind).

#[export] Instance metaKey_eq_dec : EqDecision metaKey.
Proof. solve_decision. Defined.
#[export] Instance VerdictKind_eq_dec : EqDecision VerdictKind.
Proof. solve_decision. Defined.

Notation rule := (list Any).

Inductive chainType := ChainTypeFilter | ChainTypeRoute.

Record Chain := mkChain { ch_name : string; ch_type : chainType; ch_priority : Z; ch_policy : option VerdictKind }.

(** What the table holds: its chains in order of creation with their rules. *)
Notation table := (list (Chain * list rule)).

(** ** What the kernel makes of them *)

Class Netfilter := {
  packet : Type;
  meta : metaKey -> packet -> option (list Z);
  payload : payloadBase -> Z -> Z -> packet -> option (list Z);
  (** the packet with another mark, and after the routing decision that follows *)
  with_mark : list Z -> packet -> packet;
  reroute : packet -> packet;
  (** a rule, with the registers; [None] when it does not apply *)
  evaluate : rule -> (Z -> list Z) -> packet -> packet * option VerdictKind;
  (** the rules of a chain *)
  traverse : list rule -> packet -> packet * option VerdictKind;
  (** the output hook over the chains of the table; [None]: dropped *)
  output : table -> packet -> option packet
}.

Definition metaWidth (k : metaKey) : nat :=
  match k with OIFNAME => 16 | MARK | SKUID => 4 | L4PROTO | NFPROTO => 1 end.

Definition load (regs : Z -> list Z) (r : Z) (data : list Z) : Z -> list Z :=
  fun i => if (i =? r)%Z then data else regs i.

Class NetfilterLaws (K : Netfilter) : Prop := {
  meta_width k p b : meta k p = Some b -> length b = metaWidth k;
  payload_width base off len p b : payload base off len p = Some b -> length b = Z.to_nat len;
  mark_marks m p : length m = metaWidth MARK -> meta MARK (with_mark m p) = Some m;
  mark_rerouted p : meta MARK (reroute p) = meta MARK p;
  evaluate_nil regs p : evaluate [] regs p = (p, None);
  evaluate_meta k r es regs p :
    evaluate (Meta k r :: es) regs p =
    match meta k p with Some b => evaluate es (load regs r b) p | None => (p, None) end;
  evaluate_payload base off len r es regs p :
    evaluate (Payload base off len r :: es) regs p =
    match payload base off len p with Some b => evaluate es (load regs r b) p | None => (p, None) end;
  evaluate_cmp r data es regs p : length (regs r) = length data ->
    evaluate (Cmp r data :: es) regs p = if decide (regs r = data) then evaluate es regs p else (p, None);
  evaluate_immediate r data es regs p :
    evaluate (Immediate r data :: es) regs p = evaluate es (load regs r data) p;
  evaluate_mark r es regs p :
    evaluate (MetaSet MARK r :: es) regs p = evaluate es regs (with_mark (regs r) p);
  evaluate_counter es regs p : evaluate (Counter :: es) regs p = evaluate es regs p;
  evaluate_verdict v es regs p : evaluate (Verdict v :: es) regs p = (p, Some v);
  traverse_nil p : traverse [] p = (p, None);
  traverse_cons r rs p :
    traverse (r :: rs) p =
    match evaluate r (fun _ => []) p with
    | (p, Some v) => (p, Some v)
    | (p, None) => traverse rs p
    end;
  output_nil p : output [] p = Some p;
  (** chains run by priority; an accepted packet goes on to the next, and is
      routed again when a chain of type route changed its mark *)
  output_cons c rs rest p :
    Forall (fun d => (ch_priority c < ch_priority d.1)%Z) rest ->
    output ((c, rs) :: rest) p =
    let '(p', v) := traverse rs p in
    match default VerdictAccept (match v with Some v => Some v | None => ch_policy c end) with
    | VerdictDrop => None
    | VerdictAccept =>
        output rest (match ch_type c with
                     | ChainTypeRoute => if decide (meta MARK p' = meta MARK p) then p' else reroute p'
                     | ChainTypeFilter => p'
                     end)
    end
}.

(** ** The kernel's side of a connection *)

Inductive message :=
| NewOwnerTable
| AddChain (c : Chain)
| AddRule (chain : string) (r : rule)
| FlushChain (chain : string)
| DelTable.

Definition editChain (name : string) (f : list rule -> list rule) (t : table) : table :=
  map (fun c => if String.eqb (ch_name c.1) name then (c.1, f c.2) else c) t.

(** What a batch the kernel accepts does to the table; [None]: there is none. *)
Definition applyMessage (t : option table) (m : message) : option table :=
  match m, t with
  | NewOwnerTable, None => Some []
  | NewOwnerTable, Some t => Some t
  | DelTable, _ => None
  | _, None => None
  | AddChain c, Some t => Some (t ++ [(c, [])])
  | AddRule name r, Some t => Some (editChain name (fun rs => rs ++ [r]) t)
  | FlushChain name, Some t => Some (editChain name (fun _ => []) t)
  end.

(** The kernel applies a batch as a whole.  [AckLost]: it did, and the program
    does not learn of it. *)
Inductive ack :=
| Acked
| AckLost (err : gerr)
| Refused (err : gerr).

Definition ackError (a : ack) : option gerr := match a with Acked => None | AckLost e | Refused e => Some e end.
Definition applied (a : ack) : bool := match a with Refused _ => false | _ => true end.

(** ** The guard *)

Record LinuxOutputGuard := mkLinuxOutputGuard {
  g_conn : bool;
  g_socket : bool;
  g_mark : Z;
  g_resolverUID : Z;
  g_dhcpUIDs : list Z;
  g_bootstrapIdentity : string;
  g_created : bool;
  g_closed : bool
}.
#[export] Instance eta_LinuxOutputGuard : Settable LinuxOutputGuard := fun g =>
  mkLinuxOutputGuard (g_conn g) (g_socket g) (g_mark g) (g_resolverUID g) (g_dhcpUIDs g)
    (g_bootstrapIdentity g) (g_created g) (g_closed g).

(** The guard with its socket, the batch it has not sent, and the kernel. *)
Record netlink := mkNetlink {
  nl_guard : LinuxOutputGuard;
  nl_open : bool;
  nl_messages : list message;
  nl_table : option table
}.
#[export] Instance eta_netlink : Settable netlink := fun n =>
  mkNetlink (nl_guard n) (nl_open n) (nl_messages n) (nl_table n).

Definition onGuard (f : LinuxOutputGuard -> LinuxOutputGuard) (n : netlink) : netlink := n <| nl_guard ::= f |>.

Definition queue (m : message) (n : netlink) : netlink := n <| nl_messages ::= fun ms => ms ++ [m] |>.

(** [nftables.Conn.Flush] *)
Definition Flush (a : ack) (n : netlink) : netlink * option gerr :=
  let t := if applied a then fold_left applyMessage (nl_messages n) (nl_table n) else nl_table n in
  (n <| nl_messages := [] |> <| nl_table := t |>, ackError a).

(** The kernel removes the table when its owner's socket closes. *)
Definition dropSocket (n : netlink) : netlink := n <| nl_open := false |> <| nl_table := None |>.

(** The answers around a call: the context before it, its deadline on the
    socket, the context after it, and taking the deadline back. *)
Record opReply := mkOpReply {
  op_before : option gerr;
  op_deadline : option gerr;
  op_after : option gerr;
  op_reset : option gerr
}.

Definition operation (r : opReply) (fn : netlink -> netlink * option gerr) (n : netlink) : netlink * option gerr :=
  match op_before r with
  | Some err => (n, Some err)
  | None =>
      match op_deadline r with
      | Some err => (n, Some err)
      | None => let '(n, err) := fn n in (n, join [err; op_after r; op_reset r])
      end
  end.

(** ** Building rules *)

Definition ifnamsiz : nat := 16.
Definition NFPROTO_IPV4 : Z := 2.
Definition NFPROTO_IPV6 : Z := 10.
Definition IPPROTO_TCP : Z := 6.
Definition IPPROTO_UDP : Z := 17.
Definition IPPROTO_ICMPV6 : Z := 58.

(** [make([]byte, unix.IFNAMSIZ)] with the name copied into it. *)
Definition interfaceData (name : string) : list Z :=
  take ifnamsiz (map byte_of (String.list_ascii_of_string name) ++ replicate ifnamsiz 0%Z).

Definition bigEndian16 (z : Z) : list Z := [z / 256 mod 256; z mod 256]%Z.
Definition bigEndian32 (z : Z) : list Z := [z / 16777216 mod 256; z / 65536 mod 256; z / 256 mod 256; z mod 256]%Z.

(** The byte order of the machine. *)
Class Host := bigEndianHost : bool.

Definition native32 {host : Host} (value : Z) : list Z :=
  if bigEndianHost then bigEndian32 value else rev (bigEndian32 value).

Definition bootstrapChain : Chain := mkChain "bootstrap" ChainTypeRoute (-150) None.
Definition protectChain : Chain := mkChain "protect" ChainTypeFilter 0 (Some VerdictDrop).

Definition matchInterface (name : string) : rule := [Meta OIFNAME 1; Cmp 1 (interfaceData name)].

Definition matchProtocol (protocol : Z) : rule := [Meta L4PROTO 1; Cmp 1 [protocol]].

Definition matchPort (offset port : Z) : rule := [Payload TransportHeader offset 2 1; Cmp 1 (bigEndian16 port)].

Definition matchIP (ip : Addr) : rule :=
  let '(family, offset, length) :=
    if addr_Is4 ip then (NFPROTO_IPV4, 16, 4)%Z else (NFPROTO_IPV6, 24, 16)%Z in
  [Meta NFPROTO 1; Cmp 1 [family]; Payload NetworkHeader offset length 1; Cmp 1 (addr_bytes ip)].

Section guard.
Context {host : Host}.

Definition add (chain : string) (matches : rule) (verdict : VerdictKind) (n : netlink) : netlink :=
  queue (AddRule chain (matches ++ [Verdict verdict])) n.

Definition markTraffic (matches : rule) (n : netlink) : netlink :=
  add (ch_name bootstrapChain) (matches ++ [Immediate 1 (native32 (g_mark (nl_guard n))); MetaSet MARK 1]) VerdictAccept n.

(** The loops of [UpdateBootstrap]. *)
Definition resolverMatches (uid : Z) (server : Addr) (protocol port : Z) : rule :=
  [Meta SKUID 1; Cmp 1 (native32 uid)] ++ matchIP server ++ matchProtocol protocol ++ matchPort 2 port.

Definition resolverRules (uid : Z) (servers : list Addr) : list rule :=
  servers ≫= (fun server =>
    [IPPROTO_TCP; IPPROTO_UDP] ≫= (fun protocol =>
      [53; 853]%Z ≫= (fun port =>
        if (protocol =? IPPROTO_UDP)%Z && (port =? 853)%Z then []
        else [resolverMatches uid server protocol port]))).

Definition dhcpClients : list (Z * Z * Z) := [(NFPROTO_IPV4, 68, 67); (NFPROTO_IPV6, 546, 547)]%Z.

Definition dhcpMatches (family local remote uid : Z) : rule :=
  [Meta NFPROTO 1; Cmp 1 [family]; Meta SKUID 1; Cmp 1 (native32 uid)]
    ++ matchProtocol IPPROTO_UDP ++ matchPort 0 local ++ matchPort 2 remote.

Definition dhcpRules (uids : list Z) : list rule :=
  dhcpClients ≫= (fun '(family, local, remote) => map (dhcpMatches family local remote) uids).

Definition neighbourMatches (kind : Z) : rule :=
  matchProtocol IPPROTO_ICMPV6 ++
    [Payload TransportHeader 0 1 1; Cmp 1 [kind]; Payload NetworkHeader 7 1 1; Cmp 1 [255%Z]].

Definition neighbourRules : list rule := map neighbourMatches [133; 135; 136]%Z.

Definition bootstrapMatches (g : LinuxOutputGuard) (servers : list Addr) : list rule :=
  resolverRules (g_resolverUID g) servers ++ dhcpRules (g_dhcpUIDs g) ++ neighbourRules.

Definition invalidServer (server : Addr) : bool :=
  negb (addr_IsValid server) || addr_IsLoopback server || addr_IsUnspecified server.

(** The operation of [UpdateBootstrap]. *)
Definition replaceBootstrap (servers : list Addr) (a : ack) (n : netlink) : netlink * option gerr :=
  let n := queue (FlushChain (ch_name bootstrapChain)) n in
  let n := fold_left (fun n matches => markTraffic matches n) (bootstrapMatches (nl_guard n) servers) n in
  Flush a n.

Definition UpdateBootstrap (r : opReply) (a : ack) (identity : string) (servers : list Addr) (n : netlink) :
    netlink * option gerr :=
  if g_closed (nl_guard n) then (n, Some (EText "output guard is closed"))
  else if String.eqb (g_bootstrapIdentity (nl_guard n)) identity then (n, None)
  else if existsb invalidServer servers then (n, Some (EText "invalid physical DNS server"))
  else
    let '(n, err) := operation r (replaceBootstrap servers a) n in
    match err with
    | None => (onGuard (fun g => g <| g_bootstrapIdentity := identity |>) n, None)
    | Some err => (n, Some err)
    end.

(** How closing the socket went; a close that fails may have closed it. *)
Record closeReply := mkCloseReply { cr_op : opReply; cr_ack : ack; cr_closeErr : option gerr; cr_closedAnyway : bool }.

Definition ENOENT : gerr := ESent OsErrNotExist.

Definition GuardClose (r : closeReply) (n : netlink) : netlink * option gerr :=
  if g_closed (nl_guard n) then (n, None)
  else
    let '(n, err) :=
      if g_conn (nl_guard n) && g_created (nl_guard n) then
        let '(n, err) := operation (cr_op r) (fun n => Flush (cr_ack r) (queue DelTable n)) n in
        match err with
        | Some e => if is_sent OsErrNotExist e then (onGuard (fun g => g <| g_created := false |>) n, None) else (n, Some e)
        | None => (onGuard (fun g => g <| g_created := false |>) n, None)
        end
      else (n, None) in
    match err with
    | Some e => (n, Some e)
    | None =>
        if g_conn (nl_guard n) || g_socket (nl_guard n) then
          match cr_closeErr r with
          | Some e => (if cr_closedAnyway r then dropSocket n else n, Some e)
          | None => (onGuard (fun g => g <| g_closed := true |>) (dropSocket n), None)
          end
        else (onGuard (fun g => g <| g_closed := true |>) n, None)
    end.

(** ** Acquiring the guard *)

(** [user.Lookup] *)
Inductive userReply :=
| User (uid : string)
| UnknownUser
| LookupFailed (err : gerr).

(** [strconv.ParseUint(s, 10, 32)] *)
Definition ParseUint32 (s : string) : option Z :=
  if String.eqb s "" then None
  else match digits 0 s with
       | Some n => if (n <=? max_uint32)%Z then Some n else None
       | None => None
       end.

Definition badUint : gerr := EText "strconv.ParseUint: invalid syntax".

(** The account the resolver runs as, and those of the DHCP clients. *)
Definition resolverAccount (u : userReply) : result Z gerr :=
  match u with
  | User uid => match ParseUint32 uid with Some n => Ok n | None => Err badUint end
  | UnknownUser => Err (EText "identify underlying resolver service: unknown user")
  | LookupFailed err => Err (EWrap "identify underlying resolver service" err)
  end.

Definition dhcpAccounts (u : userReply) : result (list Z) gerr :=
  match u with
  | User uid =>
      match ParseUint32 uid with
      | Some n => Ok (if (n =? 0)%Z then [0%Z] else [0%Z; n])
      | None => Err (EWrap "identify DHCP service" badUint)
      end
  | UnknownUser => Ok [0%Z]
  | LookupFailed err => Err (EWrap "identify DHCP service" err)
  end.

(** [nftables.New]: the socket may have been made when it fails. *)
Inductive connReply :=
| ConnNew
| ConnFailed (err : gerr) (socket : bool).

Record acquireReply := mkAcquireReply {
  ar_resolver : userReply;
  ar_dhcp : userReply;
  ar_conn : connReply;
  ar_op : opReply;
  ar_create : ack;
  ar_rules : ack
}.

Definition createLinuxOwnerTable (a : ack) (n : netlink) : netlink * option gerr :=
  (if applied a then n <| nl_table ::= fun t => applyMessage t NewOwnerTable |> else n, ackError a).

(** The operation of [AcquireLinuxOutputGuard]. *)
Definition installGuard (tunName : string) (create rules : ack) (n : netlink) : netlink * option gerr :=
  let '(n, createErr) := createLinuxOwnerTable create n in
  match createErr with
  | Some err => (n, Some err)
  | None =>
      let n := onGuard (fun g => g <| g_created := true |>) n in
      let n := queue (AddChain protectChain) (queue (AddChain bootstrapChain) n) in
      let output := ch_name protectChain in
      let n := fold_left (fun n name => add output (matchInterface name) VerdictAccept n) ["lo"; tunName] n in
      let n := add output [Meta MARK 1; Cmp 1 (native32 (g_mark (nl_guard n)))] VerdictAccept n in
      let n := add output [Counter] VerdictDrop n in
      Flush rules n
  end.

(** The resource of the guard's lease, in a plan over the kernel and the answers
    its releases will get. *)
Inductive guardResource := OwnedOutputGuard.

Definition guardApply (_ : guardResource) (w : netlink * list closeReply) : netlink * list closeReply * option gerr := (w, None).

Definition calm : closeReply := mkCloseReply (mkOpReply None None None None) Acked None false.

Definition guardRelease (_ : guardResource) (w : netlink * list closeReply) : netlink * list closeReply * option gerr :=
  let '(n, replies) := w in
  let '(n, err) := GuardClose (hd calm replies) n in
  (n, tl replies, err).

Definition newGuard (mark resolverUID : Z) (dhcpUIDs : list Z) : netlink :=
  mkNetlink (mkLinuxOutputGuard false false mark resolverUID dhcpUIDs "" false false) false [] None.

(** [None]: there is no guard; with an error there may be one, owned by the plan. *)
Definition AcquireLinuxOutputGuard (r : acquireReply) (tunName : string) (mark : Z)
    (p : Plan guardResource) (replies : list closeReply) : Plan guardResource * option netlink * option gerr :=
  if (mark <=? 0)%Z || (max_uint32 <? mark)%Z then (p, None, Some (EText "output guard requires an owned socket mark"))
  else
    match resolverAccount (ar_resolver r) with
    | Err err => (p, None, Some err)
    | Ok resolverUID =>
        match dhcpAccounts (ar_dhcp r) with
        | Err err => (p, None, Some err)
        | Ok dhcpUIDs =>
            let n := newGuard mark resolverUID dhcpUIDs in
            match Acquire guardApply "owned IPv4/IPv6 output guard" OwnedOutputGuard p (n, replies) with
            | (p, _, Err err) => (p, None, Some err)
            | (p, (n, _), Ok _) =>
                match ar_conn r with
                | ConnFailed err socket => (p, Some (onGuard (fun g => g <| g_socket := socket |>) n <| nl_open := socket |>), Some err)
                | ConnNew =>
                    let n := onGuard (fun g => g <| g_conn := true |> <| g_socket := true |>) n <| nl_open := true |> in
                    let '(n, err) := operation (ar_op r) (installGuard tunName (ar_create r) (ar_rules r)) n in
                    (p, Some n, err)
                end
            end
        end
    end.

(** ** The uplink's resolver (sessionapi/runtime/internal/app_linux.go) *)

(** What the system says about the physical interface and its resolver; the
    answers of the guard's update. *)
Record captureReply := mkCaptureReply {
  cp_interface : result Z gerr;
  cp_link : result (string * list Addr) gerr;
  cp_op : opReply;
  cp_ack : ack
}.

Definition captureLinuxResolver (r : captureReply) (n : netlink) : netlink * result (string * Z) gerr :=
  match cp_interface r with
  | Err err =>
      let '(n, updated) := UpdateBootstrap (cp_op r) (cp_ack r) "unavailable" [] n in
      (n, Err (default err (join [Some err; updated])))
  | Ok index =>
      match cp_link r with
      | Err err => (n, Err err)
      | Ok (identity, servers) =>
          let '(n, updated) := UpdateBootstrap (cp_op r) (cp_ack r) identity servers n in
          match updated with
          | Some err => (n, Err err)
          | None => (n, Ok (identity, index))
          end
      end
  end.

(** ** Every history of a guard *)

Inductive guardOp :=
| OpCapture (r : captureReply)
| OpUpdate (r : opReply) (a : ack) (identity : string) (servers : list Addr)
| OpCloseGuard (r : closeReply).

Definition guard_step (op : guardOp) (n : netlink) : netlink :=
  match op with
  | OpCapture r => (captureLinuxResolver r n).1
  | OpUpdate r a identity servers => (UpdateBootstrap r a identity servers n).1
  | OpCloseGuard r => (GuardClose r n).1
  end.

Definition guard_run (ops : list guardOp) (n : netlink) : netlink := fold_left (fun n op => guard_step op n) ops n.
End guard.
