(* ===== verification/OutputGuardTheorems.v ===== *)
(** * What leaves the machine past the output guard, and how the guard ends *)

From S2P Require Import Prelude Errors GoStrings Bypass RoutingPlan OutputGuard.
Local Open Scope string_scope.
Local Open Scope list_scope.

(** ** Rules as conjunctions *)

(** A comparison of something loaded into the register. *)
Inductive test :=
| MetaIs (key : metaKey) (data : list Z)
| PayloadIs (base : payloadBase) (offset len : Z) (data : list Z).

Definition test_exprs (t : test) : rule :=
  match t with
  | MetaIs key data => [Meta key 1; Cmp 1 data]
  | PayloadIs base offset len data => [Payload base offset len 1; Cmp 1 data]
  end.

Definition sized (t : test) : Prop :=
  match t with
  | MetaIs key data => length data = metaWidth key
  | PayloadIs _ _ len data => length data = Z.to_nat len
  end.

Section rules.
Context {K : Netfilter} {L : NetfilterLaws K} {host : Host}.

Definition passes (p : packet) (t : test) : Prop :=
  match t with
  | MetaIs key data => meta key p = Some data
  | PayloadIs base offset len data => payload base offset len p = Some data
  end.

#[export] Instance passes_dec p t : Decision (passes p t).
Proof. destruct t; unfold passes; apply _. Defined.

Lemma evaluate_loaded data b es regs p (out : packet * option VerdictKind) :
  length b = length data -> (forall regs, evaluate es regs p = out) ->
  evaluate (Cmp 1 data :: es) (load regs 1 b) p = if decide (b = data) then out else (p, None).
Proof.
  intros Hl He. rewrite evaluate_cmp by done. unfold load. cbn. destruct (decide (b = data)); [apply He|done].
Qed.

Lemma evaluate_test t es regs p (out : packet * option VerdictKind) :
  sized t -> (forall regs, evaluate es regs p = out) ->
  evaluate (test_exprs t ++ es) regs p = if decide (passes p t) then out else (p, None).
Proof.
  intros Hs He. destruct t as [key data|base offset len data]; cbn in *.
  - rewrite evaluate_meta. destruct (meta key p) as [b|] eqn:Eb; [|by case_decide].
    rewrite (evaluate_loaded data b es regs p out) by (done || by rewrite Hs; eapply meta_width).
    repeat case_decide; congruence.
  - rewrite evaluate_payload. destruct (payload base offset len p) as [b|] eqn:Eb; [|by case_decide].
    rewrite (evaluate_loaded data b es regs p out) by (done || by rewrite Hs; eapply payload_width).
    repeat case_decide; congruence.
Qed.

Lemma evaluate_tests ts es regs p (out : packet * option VerdictKind) :
  Forall sized ts -> (forall regs, evaluate es regs p = out) ->
  evaluate ((ts ≫= test_exprs) ++ es) regs p = if decide (Forall (passes p) ts) then out else (p, None).
Proof.
  intros Hs He. revert regs. induction Hs as [|t ts Ht Hs IH]; intros regs; cbn.
  - rewrite He. by rewrite decide_True by constructor.
  - rewrite <- app_assoc. rewrite (evaluate_test t _ regs p _ Ht IH).
    repeat case_decide; try done; rewrite Forall_cons in *; tauto.
Qed.

(** A chain whose rules all mark what they match. *)
Definition marking (mark : list Z) (matches : rule) : rule :=
  (matches ++ [Immediate 1 mark; MetaSet MARK 1]) ++ [Verdict VerdictAccept].

Lemma evaluate_marking mark ts regs p :
  Forall sized ts ->
  evaluate (marking mark (ts ≫= test_exprs)) regs p =
  if decide (Forall (passes p) ts) then (with_mark mark p, Some VerdictAccept) else (p, None).
Proof.
  intros Hs. unfold marking. rewrite <- app_assoc. apply evaluate_tests; [done|].
  intros r. cbn. rewrite evaluate_immediate, evaluate_mark, evaluate_verdict. by unfold load.
Qed.

Lemma traverse_marking mark tss p :
  Forall (Forall sized) tss ->
  traverse (map (fun ts => marking mark (ts ≫= test_exprs)) tss) p =
  if decide (Exists (Forall (passes p)) tss) then (with_mark mark p, Some VerdictAccept) else (p, None).
Proof.
  induction 1 as [|ts tss Hs _ IH]; cbn.
  - rewrite traverse_nil. case_decide as HE; [by apply Exists_nil in HE|done].
  - rewrite traverse_cons, (evaluate_marking mark ts _ p Hs).
    destruct (decide (Forall (passes p) ts)); rewrite ?IH; repeat case_decide; try done; rewrite Exists_cons in *; tauto.
Qed.

(** A rule that lets what passes one test through. *)
Lemma traverse_accept t rs p :
  sized t ->
  traverse ((test_exprs t ++ [Verdict VerdictAccept]) :: rs) p =
  if decide (passes p t) then (p, Some VerdictAccept) else traverse rs p.
Proof.
  intros Hs. rewrite traverse_cons, (evaluate_test t _ _ p (p, Some VerdictAccept) Hs) by (intros; apply evaluate_verdict).
  by case_decide.
Qed.
End rules.

(** ** What the exceptions are for *)

Section traffic.
Context {K : Netfilter} {host : Host}.

Definition speaks (protocol : Z) (p : packet) : Prop := meta L4PROTO p = Some [protocol].
Definition of_family (family : Z) (p : packet) : Prop := meta NFPROTO p = Some [family].
Definition from_user (uid : Z) (p : packet) : Prop := meta SKUID p = Some (native32 uid).
Definition from_port (port : Z) (p : packet) : Prop := payload TransportHeader 0 2 p = Some (bigEndian16 port).
Definition to_port (port : Z) (p : packet) : Prop := payload TransportHeader 2 2 p = Some (bigEndian16 port).

(** The destination address, in the header of its family. *)
Definition destined (server : Addr) (p : packet) : Prop :=
  if addr_Is4 server
  then of_family NFPROTO_IPV4 p /\ payload NetworkHeader 16 4 p = Some (addr_bytes server)
  else of_family NFPROTO_IPV6 p /\ payload NetworkHeader 24 16 p = Some (addr_bytes server).

(** A query of the system's resolver to a server of the physical link, in the
    clear or over TLS. *)
Definition resolver_query (g : LinuxOutputGuard) (servers : list Addr) (p : packet) : Prop :=
  from_user (g_resolverUID g) p /\
  exists server, server ∈ servers /\ destined server p /\
    ((speaks IPPROTO_TCP p /\ (to_port 53 p \/ to_port 853 p)) \/ (speaks IPPROTO_UDP p /\ to_port 53 p)).

Definition dhcp_request (g : LinuxOutputGuard) (p : packet) : Prop :=
  (exists uid, uid ∈ g_dhcpUIDs g /\ from_user uid p) /\ speaks IPPROTO_UDP p /\
  ((of_family NFPROTO_IPV4 p /\ from_port 68 p /\ to_port 67 p) \/
   (of_family NFPROTO_IPV6 p /\ from_port 546 p /\ to_port 547 p)).

(** Router solicitations and neighbour messages, which no router forwards. *)
Definition neighbour_discovery (p : packet) : Prop :=
  speaks IPPROTO_ICMPV6 p /\
  (exists kind, kind ∈ [133; 135; 136]%Z /\ payload TransportHeader 0 1 p = Some [kind]) /\
  payload NetworkHeader 7 1 p = Some [255%Z].

(** [exceptions] is [None] before the first update. *)
Definition bootstrap_packet (g : LinuxOutputGuard) (exceptions : option (list Addr)) (p : packet) : Prop :=
  match exceptions with
  | None => False
  | Some servers => resolver_query g servers p \/ dhcp_request g p \/ neighbour_discovery p
  end.

Definition leaves_by (name : string) (p : packet) : Prop := meta OIFNAME p = Some (interfaceData name).

#[export] Instance leaves_by_dec name p : Decision (leaves_by name p).
Proof. unfold leaves_by. apply _. Defined.

Definition lets_out (tunName : string) (g : LinuxOutputGuard) (exceptions : option (list Addr)) (p : packet) : Prop :=
  leaves_by "lo" p \/ leaves_by tunName p \/ meta MARK p = Some (native32 (g_mark g)) \/ bootstrap_packet g exceptions p.
End traffic.

(** ** The rules of the guard *)

Section matches.
Context {host : Host}.

Lemma native32_length z : length (native32 z) = 4.
Proof. unfold native32. by destruct bigEndianHost. Qed.

Lemma interfaceData_length name : length (interfaceData name) = 16.
Proof. unfold interfaceData, ifnamsiz. rewrite length_take, length_app, length_replicate. lia. Qed.

Definition addressTests (server : Addr) : list test :=
  if addr_Is4 server
  then [MetaIs NFPROTO [NFPROTO_IPV4]; PayloadIs NetworkHeader 16 4 (addr_bytes server)]
  else [MetaIs NFPROTO [NFPROTO_IPV6]; PayloadIs NetworkHeader 24 16 (addr_bytes server)].

Definition resolverTests (uid : Z) (server : Addr) (protocol port : Z) : list test :=
  MetaIs SKUID (native32 uid) :: addressTests server ++
    [MetaIs L4PROTO [protocol]; PayloadIs TransportHeader 2 2 (bigEndian16 port)].

Definition dhcpTests (family local remote uid : Z) : list test :=
  [MetaIs NFPROTO [family]; MetaIs SKUID (native32 uid); MetaIs L4PROTO [IPPROTO_UDP];
   PayloadIs TransportHeader 0 2 (bigEndian16 local); PayloadIs TransportHeader 2 2 (bigEndian16 remote)].

Definition neighbourTests (kind : Z) : list test :=
  [MetaIs L4PROTO [IPPROTO_ICMPV6]; PayloadIs TransportHeader 0 1 [kind]; PayloadIs NetworkHeader 7 1 [255%Z]].

Definition serverTests (uid : Z) (server : Addr) : list (list test) :=
  [resolverTests uid server IPPROTO_TCP 53; resolverTests uid server IPPROTO_TCP 853; resolverTests uid server IPPROTO_UDP 53].

Definition bootstrapTests (g : LinuxOutputGuard) (servers : list Addr) : list (list test) :=
  (servers ≫= serverTests (g_resolverUID g))
    ++ map (dhcpTests NFPROTO_IPV4 68 67) (g_dhcpUIDs g) ++ map (dhcpTests NFPROTO_IPV6 546 547) (g_dhcpUIDs g)
    ++ map neighbourTests [133; 135; 136]%Z.

Definition exprs (ts : list test) : rule := ts ≫= test_exprs.

Lemma resolverMatches_tests uid server protocol port :
  resolverMatches uid server protocol port = exprs (resolverTests uid server protocol port).
Proof. unfold resolverMatches, resolverTests, matchIP, addressTests. by destruct (addr_Is4 server). Qed.

Lemma bootstrapMatches_tests g servers : bootstrapMatches g servers = map exprs (bootstrapTests g servers).
Proof.
  unfold bootstrapMatches, bootstrapTests. rewrite !map_app. f_equal.
  - induction servers as [|server servers IH]; [done|].
    change (resolverRules (g_resolverUID g) (server :: servers))
      with ([resolverMatches (g_resolverUID g) server IPPROTO_TCP 53; resolverMatches (g_resolverUID g) server IPPROTO_TCP 853;
             resolverMatches (g_resolverUID g) server IPPROTO_UDP 53] ++ resolverRules (g_resolverUID g) servers).
    by rewrite !resolverMatches_tests, IH.
  - unfold dhcpRules. cbn. rewrite app_nil_r, !map_map, <- app_assoc. done.
Qed.

Lemma bootstrapTests_sized g servers :
  existsb invalidServer servers = false -> Forall (Forall sized) (bootstrapTests g servers).
Proof.
  intros Hv. unfold bootstrapTests. rewrite !Forall_app. split_and!.
  - induction servers as [|server servers IH]; [constructor|]. cbn in Hv.
    apply orb_false_iff in Hv as [Hs Hv]. cbn [mbind list_bind]. rewrite Forall_app. split; [|by apply IH].
    unfold invalidServer, addr_IsValid in Hs. repeat apply orb_false_iff in Hs as [Hs _]. apply negb_false_iff in Hs.
    unfold serverTests, resolverTests, addressTests, addr_Is4, addr_Is6 in *.
    destruct (Nat.eqb_spec (length (addr_bytes server)) 4); cbn in Hs;
      repeat constructor; cbn; rewrite ?native32_length; try done; [lia..|by apply Nat.eqb_eq in Hs|by apply Nat.eqb_eq in Hs|by apply Nat.eqb_eq in Hs].
  - apply Forall_map, Forall_true. intros uid. repeat constructor; cbn. apply native32_length.
  - apply Forall_map, Forall_true. intros uid. repeat constructor; cbn. apply native32_length.
  - repeat constructor.
Qed.
End matches.

(** ** What the table lets out *)

Section table.
Context {K : Netfilter} {L : NetfilterLaws K} {host : Host}.

Lemma passes_address server p : Forall (passes p) (addressTests server) <-> destined server p.
Proof.
  unfold addressTests, destined, of_family. destruct (addr_Is4 server); rewrite !Forall_cons, Forall_nil; cbn; tauto.
Qed.

Lemma passes_resolver uid server protocol port p :
  Forall (passes p) (resolverTests uid server protocol port) <->
  from_user uid p /\ destined server p /\ speaks protocol p /\ to_port port p.
Proof.
  unfold resolverTests. rewrite Forall_cons, Forall_app, passes_address, !Forall_cons, Forall_nil. cbn.
  unfold from_user, speaks, to_port. tauto.
Qed.

Lemma passes_server uid server p :
  Exists (Forall (passes p)) (serverTests uid server) <->
  from_user uid p /\ destined server p /\
    ((speaks IPPROTO_TCP p /\ (to_port 53 p \/ to_port 853 p)) \/ (speaks IPPROTO_UDP p /\ to_port 53 p)).
Proof. unfold serverTests. rewrite !Exists_cons, Exists_nil, !passes_resolver. tauto. Qed.

Lemma passes_dhcp family local remote uids p :
  Exists (Forall (passes p)) (map (dhcpTests family local remote) uids) <->
  (exists uid, uid ∈ uids /\ from_user uid p) /\ of_family family p /\ speaks IPPROTO_UDP p /\
    from_port local p /\ to_port remote p.
Proof.
  rewrite Exists_exists. split.
  - intros (ts & Hin & Hts). apply list_elem_of_fmap in Hin as (uid & -> & Hin).
    unfold dhcpTests in Hts. rewrite !Forall_cons in Hts. cbn in Hts. unfold from_user, of_family, speaks, from_port, to_port.
    split; [exists uid|]; tauto.
  - intros ((uid & Hin & Hu) & Hrest). exists (dhcpTests family local remote uid).
    split; [by apply list_elem_of_fmap_2|]. unfold from_user, of_family, speaks, from_port, to_port in *.
    unfold dhcpTests. rewrite !Forall_cons, Forall_nil. cbn. tauto.
Qed.

Lemma passes_neighbour p :
  Exists (Forall (passes p)) (map neighbourTests [133; 135; 136]%Z) <-> neighbour_discovery p.
Proof.
  unfold neighbour_discovery. rewrite Exists_exists. split.
  - intros (ts & Hin & Hts). apply list_elem_of_fmap in Hin as (kind & -> & Hin).
    unfold neighbourTests in Hts. rewrite !Forall_cons in Hts. cbn in Hts. unfold speaks.
    split_and!; [|exists kind|]; tauto.
  - intros (Hs & (kind & Hin & Hk) & Hh). exists (neighbourTests kind).
    split; [by apply list_elem_of_fmap_2|]. unfold speaks, neighbourTests in *. rewrite !Forall_cons, Forall_nil. cbn. tauto.
Qed.

Lemma passes_bootstrap g servers p :
  Exists (Forall (passes p)) (bootstrapTests g servers) <-> bootstrap_packet g (Some servers) p.
Proof.
  unfold bootstrapTests. rewrite !Exists_app, !passes_dhcp, passes_neighbour. unfold bootstrap_packet, dhcp_request.
  assert (Exists (Forall (passes p)) (servers ≫= serverTests (g_resolverUID g)) <-> resolver_query g servers p) as ->; [|tauto].
  unfold resolver_query. induction servers as [|server servers IH]; cbn [mbind list_bind].
  - rewrite Exists_nil. split; [done|]. intros (_ & s & Hs & _). by apply elem_of_nil in Hs.
  - rewrite Exists_app, passes_server, IH. clear IH. split.
    + intros [(Hu & Hd & Hp)|(Hu & s & Hs & Hd & Hp)]; (split; [done|]).
      * exists server. split; [apply elem_of_cons; by left|done].
      * exists s. split; [apply elem_of_cons; by right|done].
    + intros (Hu & s & [->|Hs]%elem_of_cons & Hd & Hp); [left; done|right; split; [done|by exists s]].
Qed.

Definition markRules (mark : list Z) (matches : list rule) : list rule := map (marking mark) matches.

Definition protectRules (tunName : string) (mark : Z) : list rule :=
  [matchInterface "lo" ++ [Verdict VerdictAccept]; matchInterface tunName ++ [Verdict VerdictAccept];
   [Meta MARK 1; Cmp 1 (native32 mark)] ++ [Verdict VerdictAccept]; [Counter] ++ [Verdict VerdictDrop]].

(** The table of a guard that stands, with its exceptions. *)
Definition guardTable (tunName : string) (g : LinuxOutputGuard) (exceptions : option (list Addr)) : table :=
  [(bootstrapChain,
    match exceptions with
    | None => []
    | Some servers => markRules (native32 (g_mark g)) (bootstrapMatches g servers)
    end);
   (protectChain, protectRules tunName (g_mark g))].

Lemma traverse_protect tunName mark p :
  traverse (protectRules tunName mark) p =
  (p, Some (if decide (leaves_by "lo" p \/ leaves_by tunName p \/ meta MARK p = Some (native32 mark))
            then VerdictAccept else VerdictDrop)).
Proof.
  unfold protectRules, leaves_by, matchInterface.
  rewrite (traverse_accept (MetaIs OIFNAME (interfaceData "lo"))) by apply interfaceData_length.
  rewrite (traverse_accept (MetaIs OIFNAME (interfaceData tunName))) by apply interfaceData_length.
   pose proof (traverse_accept (MetaIs MARK (native32 mark)) [[Counter] ++ [Verdict VerdictDrop]] p (native32_length mark)) as E.
  cbn [test_exprs] in E. rewrite E, traverse_cons. cbn [app]. rewrite evaluate_counter, evaluate_verdict. cbn [passes].
  repeat case_decide; first [done|tauto].
Qed.

Lemma output_protect tunName mark p :
  is_Some (output [(protectChain, protectRules tunName mark)] p) <->
  leaves_by "lo" p \/ leaves_by tunName p \/ meta MARK p = Some (native32 mark).
Proof.
  rewrite output_cons by constructor. rewrite traverse_protect. cbn. case_decide as Hd; rewrite ?output_nil.
  - split; [done|by eexists].
  - by rewrite is_Some_alt.
Qed.

Lemma traverse_bootstrap g servers p :
  existsb invalidServer servers = false ->
  (bootstrap_packet g (Some servers) p /\
   traverse (markRules (native32 (g_mark g)) (bootstrapMatches g servers)) p =
     (with_mark (native32 (g_mark g)) p, Some VerdictAccept)) \/
  (~ bootstrap_packet g (Some servers) p /\
   traverse (markRules (native32 (g_mark g)) (bootstrapMatches g servers)) p = (p, None)).
Proof.
  intros Hv. unfold markRules. rewrite bootstrapMatches_tests, map_map.
  rewrite <- (passes_bootstrap g servers p). unfold exprs.
  rewrite (traverse_marking _ _ p (bootstrapTests_sized g servers Hv)). case_decide; auto.
Qed.

Lemma output_exact tunName g exceptions p :
  existsb invalidServer (default [] exceptions) = false ->
  is_Some (output (guardTable tunName g exceptions) p) <-> lets_out tunName g exceptions p.
Proof.
  intros Hv. unfold guardTable, lets_out. rewrite output_cons by (repeat constructor).
  pose proof (output_protect tunName (g_mark g) p) as Hpass.
  destruct exceptions as [servers|]; cbn in Hv.
  - destruct (traverse_bootstrap g servers p Hv) as [[Hb ->]|[Hb ->]]; cbn [default ch_policy bootstrapChain ch_type].
    + split; [tauto|]. intros _. apply output_protect. right; right.
      destruct (decide (meta MARK (with_mark (native32 (g_mark g)) p) = meta MARK p));
        rewrite ?mark_rerouted; apply mark_marks, native32_length.
    + rewrite decide_True, Hpass by done. tauto.
  - rewrite traverse_nil. cbn [default ch_policy bootstrapChain ch_type]. rewrite decide_True, Hpass by done. cbn. tauto.
Qed.
End table.

(** ** The guard in any history *)

Section histories.
Context {host : Host}.

(** The fields the rules are made of never change. *)
Definition same_rules (g g' : LinuxOutputGuard) : Prop :=
  g_mark g = g_mark g' /\ g_resolverUID g = g_resolverUID g' /\ g_dhcpUIDs g = g_dhcpUIDs g'.

Lemma guardTable_same tunName g g' exceptions : same_rules g g' -> guardTable tunName g exceptions = guardTable tunName g' exceptions.
Proof. intros (Em & Er & Ed). unfold guardTable, bootstrapMatches. by rewrite Em, Er, Ed. Qed.

Lemma queue_markTraffic ms n :
  fold_left (fun n m => markTraffic m n) ms n =
  n <| nl_messages ::= fun q => q ++ map (fun m => AddRule (ch_name bootstrapChain) (marking (native32 (g_mark (nl_guard n))) m)) ms |>.
Proof.
  revert n. induction ms as [|m ms IH]; intros [g o q t]; cbn; [by rewrite app_nil_r|].
  rewrite IH. cbn. by rewrite <- app_assoc.
Qed.

Lemma apply_rules rs rs0 q :
  fold_left applyMessage (map (AddRule (ch_name bootstrapChain)) rs) (Some [(bootstrapChain, rs0); (protectChain, q)]) =
  Some [(bootstrapChain, rs0 ++ rs); (protectChain, q)].
Proof.
  revert rs0. induction rs as [|r rs IH]; intros rs0; cbn [fold_left map]; [by rewrite app_nil_r|].
  change (applyMessage _ (AddRule _ r)) with (Some [(bootstrapChain, rs0 ++ [r]); (protectChain, q)]).
  rewrite IH. by rewrite <- app_assoc.
Qed.

Lemma apply_nothing ms : (forall m, m ∈ ms -> m <> NewOwnerTable) -> fold_left applyMessage ms None = None.
Proof.
  induction ms as [|m ms IH]; [done|]. intros Hm. cbn. destruct m; cbn; try (apply IH; set_solver).
  destruct (Hm NewOwnerTable); set_solver.
Qed.

Definition replaced (tunName : string) (g : LinuxOutputGuard) (servers : list Addr) (reached : bool) (t : option table) :
    option table :=
  if reached then (fun _ => guardTable tunName g (Some servers)) <$> t else t.

(** The table is missing or that of a guard that stands. *)
Definition stands (tunName : string) (g : LinuxOutputGuard) (t : option table) : Prop :=
  match t with None => True | Some t => exists exceptions, t = guardTable tunName g exceptions end.

Lemma replaceBootstrap_spec tunName servers a n :
  nl_messages n = [] -> stands tunName (nl_guard n) (nl_table n) ->
  replaceBootstrap servers a n =
    (n <| nl_table ::= replaced tunName (nl_guard n) servers (applied a) |>, ackError a).
Proof.
  destruct n as [g o q t]. cbn [nl_messages nl_guard nl_table]. intros -> Hs.
  assert (E : fold_left applyMessage (FlushChain (ch_name bootstrapChain) ::
      map (fun m => AddRule (ch_name bootstrapChain) (marking (native32 (g_mark g)) m)) (bootstrapMatches g servers)) t =
    (fun _ => guardTable tunName g (Some servers)) <$> t).
  { destruct t as [t|]; cbn in Hs.
    - destruct Hs as [exceptions ->]. cbn [fold_left].
      change (applyMessage _ _) with (Some [(bootstrapChain, []); (protectChain, protectRules tunName (g_mark g))]).
      rewrite <- (map_map (marking (native32 (g_mark g))) (AddRule (ch_name bootstrapChain))). by rewrite apply_rules.
    - apply apply_nothing. intros m [->|Hm]%elem_of_cons; [done|]. by apply list_elem_of_fmap in Hm as (x & -> & _). }
  unfold replaceBootstrap. rewrite queue_markTraffic. unfold Flush, replaced.
  destruct (applied a); [|done].
  match type of E with ?l = ?r => change ((mkNetlink g o [] l, ackError a) = (mkNetlink g o [] r, ackError a)) end.
  by rewrite E.
Qed.

Lemma operation_cases r fn n :
  (exists err, operation r fn n = (n, Some err)) \/
  (exists err, operation r fn n = ((fn n).1, err) /\ (err = None -> (fn n).2 = None)).
Proof.
  unfold operation. destruct (op_before r) as [e|]; [left; eauto|]. destruct (op_deadline r) as [e|]; [left; eauto|].
  right. destruct (fn n) as [n' err]. eexists. split; [done|]. cbn. by destruct err.
Qed.
(** An update: whether it reached the kernel, and the identity recorded. *)
Lemma UpdateBootstrap_spec tunName r a identity servers n :
  nl_messages n = [] -> stands tunName (nl_guard n) (nl_table n) ->
  exists reached recorded,
    (UpdateBootstrap r a identity servers n).1 =
      onGuard (fun g => g <| g_bootstrapIdentity := recorded |>)
        (n <| nl_table ::= replaced tunName (nl_guard n) servers reached |>) /\
    (reached = true -> existsb invalidServer servers = false /\ g_closed (nl_guard n) = false) /\
    match (UpdateBootstrap r a identity servers n).2 with
    | None => g_closed (nl_guard n) = false /\ recorded = identity /\
              (reached = true \/ g_bootstrapIdentity (nl_guard n) = identity)
    | Some _ => recorded = g_bootstrapIdentity (nl_guard n)
    end.
Proof.
  intros Hq Hs.
  assert (Hsame : n = onGuard (fun g => g <| g_bootstrapIdentity := g_bootstrapIdentity (nl_guard n) |>)
    (n <| nl_table ::= replaced tunName (nl_guard n) servers false |>)) by (by destruct n as [[] o q t]).
  unfold UpdateBootstrap. destruct (g_closed (nl_guard n)) eqn:Ec; [by exists false, (g_bootstrapIdentity (nl_guard n))|].
  destruct (String.eqb_spec (g_bootstrapIdentity (nl_guard n)) identity) as [Ei|Ei].
  { exists false, (g_bootstrapIdentity (nl_guard n)). split; [exact Hsame|]. cbn [snd]. split; [done|]. split_and!; [done..|by right]. }
  destruct (existsb invalidServer servers) eqn:Ev; [by exists false, (g_bootstrapIdentity (nl_guard n))|].
  destruct (operation_cases r (replaceBootstrap servers a) n) as [[err ->]|(err & -> & Herr)].
  { by exists false, (g_bootstrapIdentity (nl_guard n)). }
  rewrite (replaceBootstrap_spec tunName) in Herr |- * by done. cbn [fst snd] in *. destruct err as [err|]; cbn.
  - exists (applied a), (g_bootstrapIdentity (nl_guard n)). split_and!; [|done..]. by destruct n as [[] o q t].
  - specialize (Herr eq_refl). exists (applied a), identity. destruct a; try done.
    split; [done|]. split; [done|]. split_and!; [done..|by left].
Qed.

Lemma GuardClose_spec r n :
  nl_messages n = [] -> g_conn (nl_guard n) = true ->
  let '(n', err) := GuardClose r n in
  (g_closed (nl_guard n) = true -> n' = n /\ err = None) /\
  same_rules (nl_guard n') (nl_guard n) /\ g_conn (nl_guard n') = true /\ nl_messages n' = [] /\
  g_bootstrapIdentity (nl_guard n') = g_bootstrapIdentity (nl_guard n) /\
  (nl_table n' = nl_table n \/ nl_table n' = None) /\
  (g_closed (nl_guard n) = false -> err = None ->
     g_closed (nl_guard n') = true /\ nl_table n' = None /\ nl_open n' = false) /\
  (g_closed (nl_guard n) = false -> err <> None -> g_closed (nl_guard n') = false).
Proof.
  destruct n as [g o q t]. cbn [nl_messages nl_guard nl_table]. intros -> Hconn.
  unfold GuardClose. cbn [nl_guard]. destruct (g_closed g) eqn:Ec.
  { cbn. rewrite Ec. split_and!; try done. by left. }
  rewrite Hconn. cbn [andb].
  set (sent := if g_created g then _ else _).
  assert (exists t' created, (t' = t \/ t' = None) /\
    (sent.1 = mkNetlink (g <| g_created := created |>) o [] t')) as (t' & created & Ht' & Hn).
  { subst sent. destruct (g_created g) eqn:Er; [|exists t, false; split; [auto|by destruct g; cbn in *; subst]].
    destruct (operation_cases (cr_op r) (fun n => Flush (cr_ack r) (queue DelTable n)) (mkNetlink g o [] t))
      as [[err ->]|(err & -> & _)]; cbn [fst].
    - destruct (is_sent OsErrNotExist err); [exists t, false|exists t, true]; (split; [auto|]); [done|by destruct g; cbn in *; subst].
    - set (t' := if applied (cr_ack r) then None else t). assert (t' = t \/ t' = None) by (subst t'; destruct (applied _); auto).
      destruct err as [err|]; [destruct (is_sent OsErrNotExist err)|]; [exists t', false|exists t', true|exists t', false];
        (split; [done|]); subst t'; destruct (cr_ack r); cbn; try done; by destruct g; cbn in *; subst. }
  destruct sent as [n1 err]. cbn [fst] in Hn. subst n1.
  destruct err as [err|]; cbn [nl_guard nl_table].
  { by split_and!. }
  cbn. rewrite Hconn. cbn. destruct (cr_closeErr r) as [e|].
  - destruct (cr_closedAnyway r); cbn; split_and!; try done; auto.
  - cbn. split_and!; try done; auto.
Qed.
(** The servers an operation asks exceptions for. *)
Definition tells (op : guardOp) (servers : list Addr) : Prop :=
  match op with
  | OpUpdate _ _ _ servers' => servers = servers'
  | OpCapture r =>
      match cp_interface r, cp_link r with
      | Err _, _ => servers = []
      | Ok _, Ok (_, servers') => servers = servers'
      | Ok _, Err _ => False
      end
  | OpCloseGuard _ => False
  end.

(** Exceptions somebody asked for, none of them for the machine itself. *)
Definition told (ops : list guardOp) (exceptions : option (list Addr)) : Prop :=
  forall servers, exceptions = Some servers ->
    existsb invalidServer servers = false /\ exists op, op ∈ ops /\ tells op servers.

Record GInv (tunName : string) (g0 : LinuxOutputGuard) (ops : list guardOp) (n : netlink) : Prop := {
  gi_sent : nl_messages n = [];
  gi_conn : g_conn (nl_guard n) = true;
  gi_same : same_rules (nl_guard n) g0;
  gi_table : match nl_table n with
             | None => exists r, OpCloseGuard r ∈ ops
             | Some t => exists exceptions, t = guardTable tunName g0 exceptions /\ told ops exceptions
             end;
  gi_closed : g_closed (nl_guard n) = true -> nl_table n = None /\ nl_open n = false
}.

Lemma told_more ops ops' exceptions : ops ⊆ ops' -> told ops exceptions -> told ops' exceptions.
Proof. intros Hsub Ht servers He. destruct (Ht servers He) as (Hv & op & Hop & Htell). eauto. Qed.

Lemma GInv_more tunName g0 ops ops' n : ops ⊆ ops' -> GInv tunName g0 ops n -> GInv tunName g0 ops' n.
Proof.
  intros Hsub [Hq Hc Hs Ht Hcl]. constructor; try done. destruct (nl_table n) as [t|].
  - destruct Ht as (ex & Ht & Htold). exists ex. split; [done|]. by eapply told_more.
  - destruct Ht as [r Hr]. eauto.
Qed.

Lemma GInv_stands tunName g0 ops n : GInv tunName g0 ops n -> stands tunName (nl_guard n) (nl_table n).
Proof.
  intros [_ _ Hs Ht _]. unfold stands. destruct (nl_table n) as [t|]; [|done]. destruct Ht as (ex & -> & _).
  exists ex. symmetry. by apply guardTable_same.
Qed.

Lemma GInv_update tunName g0 ops op r a identity servers n :
  op ∈ ops -> tells op servers -> GInv tunName g0 ops n -> GInv tunName g0 ops (UpdateBootstrap r a identity servers n).1.
Proof.
  intros Hop Htell HG. pose proof (GInv_stands _ _ _ _ HG) as Hst. destruct HG as [Hq Hc Hs Ht Hcl].
  destruct (UpdateBootstrap_spec tunName r a identity servers n Hq Hst) as (reached & recorded & -> & Hr & _).
  destruct n as [g o q t]. cbn in *. constructor; cbn; [done|by destruct g|done| |].
  - destruct t as [t|]; cbn in *; [|by destruct reached]. destruct reached; [|done]. cbn.
    exists (Some servers). split; [by apply f_equal, guardTable_same || by apply guardTable_same|].
    intros servers' [= <-]. destruct (Hr eq_refl) as [Hv _]. eauto.
  - intros Hclosed. destruct (Hcl Hclosed) as [-> ->]. by destruct reached.
Qed.

Lemma GInv_step tunName g0 ops op n : GInv tunName g0 ops n -> GInv tunName g0 (ops ++ [op]) (guard_step op n).
Proof.
  intros HG. assert (HG' : GInv tunName g0 (ops ++ [op]) n) by (eapply GInv_more, HG; set_solver).
  assert (Hop : op ∈ ops ++ [op]) by set_solver.
  destruct op as [r|r a identity servers|r]; cbn [guard_step].
  - unfold captureLinuxResolver. destruct (cp_interface r) as [index|err] eqn:Ei.
    + destruct (cp_link r) as [[identity servers]|err] eqn:El; [|done].
      assert (Ht : tells (OpCapture r) servers) by (cbn; by rewrite Ei, El).
      pose proof (GInv_update _ _ _ _ (cp_op r) (cp_ack r) identity servers n Hop Ht HG') as HU.
      by destruct (UpdateBootstrap _ _ _ _ _) as [n' [err|]].
    + assert (Ht : tells (OpCapture r) []) by (cbn; by rewrite Ei).
      pose proof (GInv_update _ _ _ _ (cp_op r) (cp_ack r) "unavailable" [] n Hop Ht HG') as HU.
      by destruct (UpdateBootstrap _ _ _ _ _) as [n' updated].
  - by eapply GInv_update.
  - pose proof (GuardClose_spec r n (gi_sent _ _ _ _ HG) (gi_conn _ _ _ _ HG)) as HC.
    destruct (GuardClose r n) as [n' err]. cbn [fst].
    destruct HC as (Hdone & (Em & Er & Ed) & Hconn & Hq & _ & Ht & Hok & Hfail).
    destruct (g_closed (nl_guard n)) eqn:Ec; [by destruct (Hdone eq_refl) as [-> _]|].
    destruct HG' as [_ _ (Em' & Er' & Ed') Ht' _]. constructor; try done.
    + split_and!; congruence.
    + destruct Ht as [->| ->]; [done|eauto].
    + intros Hcl. destruct err as [err|]; [|by apply Hok]. rewrite (Hfail eq_refl) in Hcl by done. done.
Qed.

Lemma GInv_run tunName g0 ops n : GInv tunName g0 [] n -> GInv tunName g0 ops (guard_run ops n).
Proof.
  intros HG. unfold guard_run. change ops with ([] ++ ops) at 1. revert HG. generalize (@nil guardOp) as before. revert n.
  induction ops as [|op ops IH]; intros n before HG; [by rewrite app_nil_r|].
  cbn. rewrite (cons_middle op before ops), app_assoc. by apply IH, GInv_step.
Qed.
(** ** Acquiring *)

Lemma installGuard_spec tunName create rules n :
  nl_messages n = [] -> nl_table n = None ->
  let '(n', err) := installGuard tunName create rules n in
  nl_messages n' = [] /\ g_conn (nl_guard n') = g_conn (nl_guard n) /\ g_closed (nl_guard n') = g_closed (nl_guard n) /\
  same_rules (nl_guard n') (nl_guard n) /\
  (err = None -> nl_table n' = Some (guardTable tunName (nl_guard n) None)).
Proof.
  destruct n as [g o q t]. cbn [nl_messages nl_table]. intros -> ->. unfold installGuard.
  destruct create; cbn; [|by split_and!..]. split_and!; [done..|]. intros Hr. by destruct rules.
Qed.

Lemma GInv_acquired r tunName mark plan replies p n :
  AcquireLinuxOutputGuard r tunName mark plan replies = (p, Some n, None) -> GInv tunName (nl_guard n) [] n.
Proof.
  unfold AcquireLinuxOutputGuard. destruct (_ || _); [done|]. destruct (resolverAccount _) as [uid|]; [|done].
  destruct (dhcpAccounts _) as [uids|]; [|done]. destruct (Acquire _ _ _ _ _) as [[p' [n' rest]] [l|err]] eqn:Ea; [|done].
  assert (n' = newGuard mark uid uids) as ->.
  { unfold Acquire in Ea. destruct (p_closed plan); cbn in Ea; congruence. }
  destruct (ar_conn r); [|done].
  set (start := onGuard _ _ <| nl_open := true |>).
  destruct (operation_cases (ar_op r) (installGuard tunName (ar_create r) (ar_rules r)) start) as [[err ->]|(err & -> & Herr)]; [done|].
  pose proof (installGuard_spec tunName (ar_create r) (ar_rules r) start eq_refl eq_refl) as HI.
  destruct (installGuard _ _ _ start) as [n2 err2]. destruct HI as (Hq & Hconn & Hcl & Hsame & Ht).
  intros [= <- <- ->]. specialize (Herr eq_refl). cbn in Herr. specialize (Ht Herr). cbn [fst].
  constructor; [done|done|done| |].
  - rewrite Ht. exists None. split; [symmetry; by apply guardTable_same|done].
  - rewrite Hcl. done.
Qed.
End histories.

(** ** A kernel *)

(** Packets by their fields, and a kernel that does what the laws say. *)
Record frame := mkFrame { fr_meta : metaKey -> option (list Z); fr_header : payloadBase -> list Z }.

Definition frame_meta (k : metaKey) (p : frame) : option (list Z) :=
  (fun b => take (metaWidth k) (b ++ replicate (metaWidth k) 0%Z)) <$> fr_meta p k.

Definition frame_payload (base : payloadBase) (offset len : Z) (p : frame) : option (list Z) :=
  let h := drop (Z.to_nat offset) (fr_header p base) in
  if (Z.to_nat len <=? length h)%nat then Some (take (Z.to_nat len) h) else None.

Definition frame_mark (m : list Z) (p : frame) : frame :=
  mkFrame (fun k => match k with MARK => Some m | _ => fr_meta p k end) (fr_header p).

Fixpoint frame_evaluate (es : rule) (regs : Z -> list Z) (p : frame) : frame * option VerdictKind :=
  match es with
  | [] => (p, None)
  | e :: es =>
      match e with
      | Meta k r => match frame_meta k p with Some b => frame_evaluate es (load regs r b) p | None => (p, None) end
      | Payload base off len r =>
          match frame_payload base off len p with Some b => frame_evaluate es (load regs r b) p | None => (p, None) end
      | Cmp r data => if decide (regs r = data) then frame_evaluate es regs p else (p, None)
      | Immediate r data => frame_evaluate es (load regs r data) p
      | MetaSet MARK r => frame_evaluate es regs (frame_mark (regs r) p)
      | MetaSet _ _ | Counter => frame_evaluate es regs p
      | Verdict v => (p, Some v)
      end
  end.

Fixpoint frame_traverse (rs : list rule) (p : frame) : frame * option VerdictKind :=
  match rs with
  | [] => (p, None)
  | r :: rs =>
      match frame_evaluate r (fun _ => []) p with
      | (p, Some v) => (p, Some v)
      | (p, None) => frame_traverse rs p
      end
  end.

Fixpoint frame_output (t : table) (p : frame) : option frame :=
  match t with
  | [] => Some p
  | (c, rs) :: rest =>
      let '(p', v) := frame_traverse rs p in
      match default VerdictAccept (match v with Some v => Some v | None => ch_policy c end) with
      | VerdictDrop => None
      | VerdictAccept => frame_output rest p'
      end
  end.

#[export] Instance frames : Netfilter := {|
  packet := frame;
  meta := frame_meta;
  payload := frame_payload;
  with_mark := frame_mark;
  reroute := id;
  evaluate := frame_evaluate;
  traverse := frame_traverse;
  output := frame_output
|}.

#[export] Instance frames_laws : NetfilterLaws frames.
Proof.
  constructor; try done.
  - intros k p b Hb. cbn in Hb. apply fmap_Some in Hb as (x & _ & ->). rewrite length_take, length_app, length_replicate. lia.
  - intros base off len p b Hb. cbn in Hb. unfold frame_payload in Hb.
    destruct (Nat.leb_spec (Z.to_nat len) (length (drop (Z.to_nat off) (fr_header p base)))); [|done].
    simplify_eq. rewrite length_take. lia.
  - intros m p Hm. cbn. f_equal. rewrite take_app_le by (cbn in Hm; lia). cbn in Hm. by rewrite <- Hm, firstn_all.
  - intros c rs rest p _. cbn. destruct (frame_traverse rs p) as [p' v].
    destruct (default _ _); [|done]. destruct (ch_type c); [done|]. by case_decide.
Qed.

(** ** What the guard promises *)

Lemma told_valid ops exceptions : told ops exceptions -> existsb invalidServer (default [] exceptions) = false.
Proof. intros Ht. destruct exceptions as [servers|]; [|done]. by destruct (Ht servers eq_refl). Qed.

Lemma closed_for_good {host : Host} ops n : g_closed (nl_guard n) = true -> guard_run ops n = n.
Proof.
  intros Hc. induction ops as [|op ops IH]; [done|]. unfold guard_run in *. cbn [fold_left].
  assert (guard_step op n = n) as ->; [|done].
  destruct op as [r|r a identity servers|r]; cbn; unfold captureLinuxResolver, UpdateBootstrap, GuardClose; rewrite ?Hc; [|done..].
  by repeat case_match.
Qed.

(** C35: the kill switch.  Once the guard is acquired, and whatever updates and
    closes follow with whatever answers of the kernel, lost ones included, the
    table stands until a close was asked for, and while it stands a packet
    leaves the machine exactly if it goes out by the loopback or the VPN
    interface, carries the program's mark, or is bootstrap traffic: a resolver
    query to one of the servers of one update, or DHCP and neighbour messages
    once an update was made.  After an update for a new network that returned
    nil the servers are that update's own. *)
Theorem output_guard_lets_out_exactly (K : Netfilter) (L : NetfilterLaws K) (host : Host)
    r tunName mark plan replies p n ops :
  AcquireLinuxOutputGuard r tunName mark plan replies = (p, Some n, None) ->
  match nl_table (guard_run ops n) with
  | None => exists r, OpCloseGuard r ∈ ops
  | Some t => exists exceptions, told ops exceptions /\
                forall pk, is_Some (output t pk) <-> lets_out tunName (nl_guard n) exceptions pk
  end /\
  forall r a identity servers n' t,
    UpdateBootstrap r a identity servers (guard_run ops n) = (n', None) ->
    identity <> g_bootstrapIdentity (nl_guard (guard_run ops n)) -> nl_table n' = Some t ->
    forall pk, is_Some (output t pk) <-> lets_out tunName (nl_guard n) (Some servers) pk.
Proof.
  intros Ha. pose proof (GInv_run _ _ ops _ (GInv_acquired _ _ _ _ _ _ _ Ha)) as HG.
  pose proof (GInv_stands _ _ _ _ HG) as Hst. destruct HG as [Hq _ Hs Ht _]. split.
  - destruct (nl_table (guard_run ops n)) as [t|]; [|done]. destruct Ht as (ex & -> & Htold).
    exists ex. split; [done|]. intros pk. apply output_exact. by eapply told_valid.
  - intros r' a identity servers n' t HU Hid Htable.
    destruct (UpdateBootstrap_spec tunName r' a identity servers _ Hq Hst) as (reached & recorded & E1 & Hr & E2).
    rewrite HU in E1, E2. cbn in E1, E2. destruct E2 as (_ & _ & [->|E2]); [|congruence]. subst n'.
    destruct (guard_run ops n) as [g o q t0]. cbn in Htable, Hs. destruct t0 as [t0|]; [|done]. injection Htable as <-.
    rewrite (guardTable_same _ _ _ _ Hs). intros pk. apply output_exact. by apply Hr.
Qed.

Definition is_close (op : guardOp) : Prop := exists r, op = OpCloseGuard r.

(** What a guard holds of the kernel, and that its next close can give back,
    however far its acquisition came: a table has the connection that owns it,
    an open socket is one the guard knows of. *)
Record holds_known (n : netlink) : Prop := mkHoldsKnown {
  hk_messages : nl_messages n = [];
  hk_table : is_Some (nl_table n) -> g_conn (nl_guard n) = true;
  hk_open : nl_open n = true -> g_conn (nl_guard n) || g_socket (nl_guard n) = true;
  hk_closed : g_closed (nl_guard n) = true -> nl_open n = false /\ nl_table n = None
}.

(** Whatever a close does, it leaves such a guard; when it succeeds nothing of
    it is left in the kernel. *)
Lemma GuardClose_gives_back {host : Host} r n :
  holds_known n ->
  let '(n', err) := GuardClose r n in
  holds_known n' /\
  match err with
  | None => nl_table n' = None /\ nl_open n' = false /\ g_closed (nl_guard n') = true
  | Some _ => g_closed (nl_guard n') = false
  end.
Proof.
  destruct n as [[conn socket mark uid uids identity created closed] opened q t].
  intros [Hq Ht Ho Hc]. cbn in Hq, Ht, Ho, Hc. subst q. unfold GuardClose. cbn.
  destruct closed; [destruct (Hc eq_refl); subst; done|]. clear Hc.
  destruct conn; cbn.
  - set (start := if created then _ else _).
    assert (exists created' t' err, start =
      (mkNetlink (mkLinuxOutputGuard true socket mark uid uids identity created' false) opened [] t', err))
      as (created' & t' & err & ->).
    { subst start. destruct created; [|by eexists _, _, _].
      destruct (operation_cases (cr_op r) (fun n => Flush (cr_ack r) (queue DelTable n))
        (mkNetlink (mkLinuxOutputGuard true socket mark uid uids identity true false) opened [] t))
        as [[err ->]|(err & -> & _)]; cbn; repeat case_match; by eexists _, _, _. }
    destruct err as [err|]; [split; [by constructor|done]|]. cbn.
    destruct (cr_closeErr r); [|by split; [constructor|]].
    destruct (cr_closedAnyway r); by split; [constructor|].
  - destruct t; [by discriminate (Ht ltac:(eauto))|].
    destruct socket; cbn.
    + destruct (cr_closeErr r); [|by split; [constructor|]].
      destruct (cr_closedAnyway r); by split; [constructor|].
    + destruct opened; [by discriminate Ho|]. by split; [constructor|].
Qed.

Lemma GuardClose_calm {host : Host} n : nl_messages n = [] -> (GuardClose calm n).2 = None.
Proof.
  intros Hq. unfold GuardClose. destruct (g_closed _); [done|].
  destruct (g_conn (nl_guard n)) eqn:Hc; cbn [andb]; [|by destruct (_ || _)].
  destruct (g_created _); cbn; by rewrite Hc.
Qed.

Lemma holds_known_closes {host : Host} ops n :
  Forall is_close ops -> holds_known n -> holds_known (guard_run ops n).
Proof.
  unfold guard_run. intros Hops. revert n.
  induction Hops as [|op ops [r ->] Hops IH]; intros n Hn; [done|]. cbn [fold_left]. apply IH.
  cbn. pose proof (GuardClose_gives_back r n Hn) as HC. destruct (GuardClose r n). by destruct HC.
Qed.

Lemma GInv_known {host : Host} tunName g0 ops n : GInv (host := host) tunName g0 ops n -> holds_known n.
Proof. intros [Hq Hc _ _ Hcl]. constructor; [done|done|by rewrite Hc|]. intros Hx. by destruct (Hcl Hx). Qed.

(** An acquisition leaves a guard that knows what it holds, also when it failed. *)
Lemma holds_known_acquired {host : Host} r tunName mark plan replies p n err :
  AcquireLinuxOutputGuard r tunName mark plan replies = (p, Some n, err) -> holds_known n.
Proof.
  unfold AcquireLinuxOutputGuard. destruct (_ || _); [done|]. destruct (resolverAccount _) as [uid|]; [|done].
  destruct (dhcpAccounts _) as [uids|]; [|done].
  destruct (Acquire _ _ _ _ _) as [[p' [n' rest]] [l|e]] eqn:Ea; [|done].
  assert (n' = newGuard mark uid uids) as ->.
  { unfold Acquire in Ea. destruct (p_closed plan); cbn in Ea; congruence. }
  destruct (ar_conn r) as [|cerr socket].
  - set (start := onGuard _ _ <| nl_open := true |>).
    destruct (operation_cases (ar_op r) (installGuard tunName (ar_create r) (ar_rules r)) start)
      as [[err' ->]|(err' & -> & _)]; intros [= <- <- <-]; [by constructor|].
    pose proof (installGuard_spec tunName (ar_create r) (ar_rules r) start eq_refl eq_refl) as HI.
    destruct (installGuard _ _ _ start) as [n2 err2]. destruct HI as (Hq & Hconn & Hcl & _).
    subst start. cbn in Hconn, Hcl. cbn [fst]. constructor; rewrite ?Hconn, ?Hcl; done.
  - intros [= <- <- <-]. constructor; cbn; done.
Qed.

(** C36: an acquisition that left anything in the kernel is owned by the plan,
    and one that did not is not.  Whatever the acquisition left, also one that
    failed (a socket without a connection, a table whose creation was not
    acknowledged), a close of the guard that returned nil has closed its socket
    and taken its table away, after which no operation does anything; one that
    failed can be asked again, and succeeds when the kernel lets it.  A guard
    whose acquisition failed is only closed, one that was returned is updated
    too. *)
Theorem output_guard_ends_with_its_table (host : Host) r tunName mark plan replies p guard err :
  AcquireLinuxOutputGuard r tunName mark plan replies = (p, guard, err) ->
  match guard with
  | None => err <> None /\ p_leases p = p_leases plan
  | Some n =>
      (exists l, p_leases p = p_leases plan ++ [l] /\ l_resource l = OwnedOutputGuard /\ l_closed l = false) /\
      forall ops, err = None \/ Forall is_close ops ->
        (forall r, match GuardClose r (guard_run ops n) with
         | (n', None) => nl_table n' = None /\ nl_open n' = false /\ forall more, guard_run more n' = n'
         | (n', Some _) => g_closed (nl_guard n') = false
         end) /\
        (GuardClose calm (guard_run ops n)).2 = None
  end.
Proof.
  intros Ha. destruct guard as [n|].
  - split.
    + unfold AcquireLinuxOutputGuard in Ha. destruct (_ || _); [done|]. destruct (resolverAccount _) as [uid|]; [|done].
      destruct (dhcpAccounts _) as [uids|]; [|done]. unfold Acquire in Ha. destruct (p_closed plan); [done|]. cbn in Ha.
      destruct (ar_conn r); [|by injection Ha as <- _ _; eauto]. destruct (operation _ _ _) as [n' err'].
      injection Ha as <- _ _. cbn. eauto.
    + intros ops Hops. assert (holds_known (guard_run ops n)) as Hn.
      { destruct Hops as [-> | Hops].
        - by apply (GInv_known tunName (nl_guard n) ops), GInv_run, (GInv_acquired _ _ _ _ _ _ _ Ha).
        - by eapply holds_known_closes, holds_known_acquired. }
      split; [|by apply GuardClose_calm, Hn]. intros r'.
      pose proof (GuardClose_gives_back r' _ Hn) as HC. destruct (GuardClose r' (guard_run ops n)) as [n' [err'|]].
      * by destruct HC.
      * destruct HC as (_ & Ht & Ho & Hcl). split_and!; [done..|]. intros more. by apply closed_for_good.
  - unfold AcquireLinuxOutputGuard in Ha. destruct (_ || _); [by injection Ha as <- <-|].
    destruct (resolverAccount _) as [uid|]; [|by injection Ha as <- <-].
    destruct (dhcpAccounts _) as [uids|]; [|by injection Ha as <- <-]. unfold Acquire in Ha.
    destruct (p_closed plan); [by injection Ha as <- <-|]. cbn in Ha.
    destruct (ar_conn r); [|done]. by destruct (operation _ _ _) as [n' err'].
Qed.

(** ** A laptop on two networks *)

Definition littleEndian : Host := false.

Definition fine : opReply := mkOpReply None None None None.

(** The context ends after the kernel acted. *)
Definition tooLate : opReply := mkOpReply None None (Some (ESent CtxDeadlineExceeded)) None.

Definition homeDNS : Addr := mkAddr [192; 168; 1; 1]%Z "".
Definition cafeDNS : Addr := mkAddr [10; 0; 0; 1]%Z "".

Definition exampleReply : acquireReply := mkAcquireReply (User "101") (User "998") ConnNew fine Acked Acked.

Definition exampleAcquired : Plan guardResource * option netlink * option gerr :=
  AcquireLinuxOutputGuard (host := littleEndian) exampleReply "tun0" 51820 (NewPlan "session") [].

Definition exampleGuard : netlink := default (newGuard 51820 101 [0; 998]%Z) exampleAcquired.1.2.

(** A UDP datagram of a user to port 53 of an IPv4 address, by the interface wlan0. *)
Definition datagram (uid : Z) (destination : Addr) : frame :=
  mkFrame
    (fun k => match k with
              | OIFNAME => Some (interfaceData "wlan0")
              | MARK => Some [0; 0; 0; 0]%Z
              | L4PROTO => Some [IPPROTO_UDP]
              | NFPROTO => Some [NFPROTO_IPV4]
              | SKUID => Some (native32 (host := littleEndian) uid)
              end)
    (fun base => match base with
                 | NetworkHeader => replicate 16 0%Z ++ addr_bytes destination
                 | TransportHeader => [200; 1; 0; 53; 0; 8; 0; 0]%Z
                 end).

Definition leaves (n : netlink) (p : frame) : bool :=
  match nl_table n with Some t => match output t p with Some _ => true | None => false end | None => true end.

Definition atHome : netlink := guard_run (host := littleEndian) [OpUpdate fine Acked "home" [homeDNS]] exampleGuard.

(** The resolver reaches its server, an application does not. *)
Lemma output_guard_lets_out_exactly_witness :
  (exists t, nl_table atHome = Some t /\
     forall pk, is_Some (output t pk) <->
       lets_out (host := littleEndian) "tun0" (nl_guard exampleGuard) (Some [homeDNS]) pk) /\
  map (leaves atHome) [datagram 101 homeDNS; datagram 101 cafeDNS; datagram 1000 homeDNS] = [true; false; false].
Proof.
  split; [|vm_compute; reflexivity].
  refine (ex_intro _ (default [] (nl_table atHome)) (conj _ _)); [vm_compute; reflexivity|].
  refine (proj2 (output_guard_lets_out_exactly frames frames_laws littleEndian exampleReply "tun0" 51820%Z (NewPlan "session") []
      exampleAcquired.1.1 exampleGuard [] _)
    fine Acked "home" [homeDNS] atHome (default [] (nl_table atHome)) _ _ _); [| |vm_compute; congruence|]; vm_compute; reflexivity.
Defined.

(** An acquisition whose connection failed after its socket was made. *)
Definition exampleHalf : Plan guardResource * option netlink * option gerr :=
  AcquireLinuxOutputGuard (host := littleEndian)
    (mkAcquireReply (User "101") (User "998") (ConnFailed (EText "no netfilter") true) fine Acked Acked)
    "tun0" 51820 (NewPlan "session") [].

Definition halfGuard : netlink := default (newGuard 51820 101 [0; 998]%Z) exampleHalf.1.2.

Lemma output_guard_ends_with_its_table_witness :
  (nl_open halfGuard = true /\ (GuardClose calm halfGuard).2 = None /\
   nl_open (GuardClose calm halfGuard).1 = false) /\
  (GuardClose calm atHome).2 = None /\ nl_table (GuardClose calm atHome).1 = None.
Proof.
  split.
  - split; [vm_compute; reflexivity|]. split; [|vm_compute; reflexivity].
    refine (proj2 (proj2 (output_guard_ends_with_its_table littleEndian
      (mkAcquireReply (User "101") (User "998") (ConnFailed (EText "no netfilter") true) fine Acked Acked)
      "tun0" 51820%Z (NewPlan "session") [] exampleHalf.1.1 (Some halfGuard)
      (Some (EText "no netfilter")) _) [] (or_intror _))); [vm_compute; reflexivity|by constructor].
  - split; [|vm_compute; reflexivity].
    refine (proj2 (proj2 (output_guard_ends_with_its_table littleEndian exampleReply "tun0" 51820%Z
      (NewPlan "session") [] exampleAcquired.1.1 (Some exampleGuard) None _)
      [OpUpdate fine Acked "home" [homeDNS]] (or_introl eq_refl))).
    vm_compute. reflexivity.
Defined.

(** An update that reached the kernel after its context ended is reported as
    failed and not remembered: back on the first network the guard believes its
    rules are still there, reports success, and the resolver stays cut off. *)
Theorem stale_bootstrap_after_lost_update :
  let back := UpdateBootstrap (host := littleEndian) fine Acked "home" [homeDNS]
    (guard_run (host := littleEndian) [OpUpdate tooLate Acked "cafe" [cafeDNS]] atHome) in
  back.2 = None /\ map (leaves back.1) [datagram 101 homeDNS; datagram 101 cafeDNS] = [false; true].
Proof. split; vm_compute; reflexivity. Qed.
