(* ===== verification/Probe.v ===== *)
(** * The connectivity probe (core/probe/probe.go)

    Requests to three endpoints through the protocol's local SOCKS server, at
    once; enough answers make the average latency.  HTTP, the SOCKS dialer and
    url.Parse are outside: what they answer is an argument.  The stage a failed
    request had reached is an atomic integer its hooks raise from other
    goroutines, modelled step by step. *)

From S2P Require Import Prelude Errors GoStrings Dialing.
Local Open Scope string_scope.
Local Open Scope list_scope.

Definition httpProbeMinSuccesses : nat := 2.

Definition httpProbeURLs : list string :=
  ["https://www.google.com/generate_204"; "https://www.cloudflare.com/cdn-cgi/trace"; "https://about.google"].

Record probeEndpointResult := mkProbeEndpointResult {
  latencyMs : Z;
  status : Z;
  failureStage : string;
  errorClass : string;
  pe_err : option gerr
}.

Definition probeFailureStage (stage : Z) : string :=
  match stage with
  | 1 => "connect"
  | 2 => "tls"
  | 3 | 4 => "response"
  | _ => "request"
  end%Z.

(** ** One endpoint *)

Section classes.
(** [errors.As] to [*net.DNSError], and to [net.Error] with its [Timeout]. *)
Context (asDNSError : gerr -> bool) (asNetError : gerr -> option bool).

Definition probeErrorClass (err : gerr) : string :=
  if is_sent CtxDeadlineExceeded err then "timeout"
  else if is_sent CtxCanceled err then "canceled"
  else if asDNSError err then "dns"
  else match asNetError err with
       | Some true => "timeout"
       | Some false => "network"
       | None => "protocol"
       end.

Definition failedProbeEndpoint (st : Z) (stage : string) (err : gerr) : probeEndpointResult :=
  mkProbeEndpointResult 0 st stage (probeErrorClass err) (Some err).

(** What became of the request: it could not be made; [client.Do] failed, when
    the atomic held [stage]; a response, after [elapsed] nanoseconds. *)
Inductive exchange :=
| BadRequest (err : gerr)
| DoFailed (stage : Z) (err : gerr)
| Responded (StatusCode : Z) (elapsed : Z).

(** [time.Duration.Milliseconds] *)
Definition Milliseconds (d : Z) : Z := Z.quot d 1000000.

Definition maxInt64 (a b : Z) : Z := if (b <? a)%Z then a else b.

Definition probeEndpoint (e : exchange) : probeEndpointResult :=
  match e with
  | BadRequest err => failedProbeEndpoint 0 "request" err
  | DoFailed stage err => failedProbeEndpoint 0 (probeFailureStage stage) err
  | Responded StatusCode elapsed =>
      if (StatusCode <? 200)%Z || (400 <=? StatusCode)%Z
      then failedProbeEndpoint StatusCode "status" (EText ("unexpected status " +:+ Itoa StatusCode))
      else mkProbeEndpointResult (maxInt64 1 (Milliseconds elapsed)) StatusCode "" "" None
  end.

(** ** All of them *)

Definition endpointError (index : nat) (result : probeEndpointResult) (err : gerr) : gerr :=
  EWrap ("endpoint " +:+ Itoa (Z.of_nat index) +:+ " failed at " +:+ failureStage result +:+ " (status="
           +:+ Itoa (status result) +:+ ", error_class=" +:+ errorClass result +:+ ")") err.

(** The loop over the results. *)
Fixpoint tally (index : nat) (results : list probeEndpointResult) (sum : Z) (successes : nat) (endpointErrors : list gerr) :
    Z * nat * list gerr :=
  match results with
  | [] => (sum, successes, endpointErrors)
  | result :: results =>
      match pe_err result with
      | Some err => tally (S index) results sum successes (endpointErrors ++ [endpointError index result err])
      | None => tally (S index) results (i64 (sum + latencyMs result)) (S successes) endpointErrors
      end
  end.

Definition requiredSuccesses : nat :=
  if (length httpProbeURLs <? httpProbeMinSuccesses)%nat then length httpProbeURLs else httpProbeMinSuccesses.

(** [exchanges]: one for each endpoint, whenever it ended. *)
Definition measureTunnelProbe (exchanges : list exchange) : result Z gerr :=
  let '(sum, successes, endpointErrors) := tally 0 (map probeEndpoint exchanges) 0 0 [] in
  if (successes <? requiredSuccesses)%nat
  then Err (EWrap ("tunnel probe reached " +:+ Itoa (Z.of_nat successes) +:+ "/" +:+ Itoa (Z.of_nat (length httpProbeURLs))
                     +:+ " successful endpoints; " +:+ Itoa (Z.of_nat requiredSuccesses) +:+ " required")
             (EJoin endpointErrors))
  else Ok (Z.quot sum (Z.of_nat successes)).
End classes.

(** ** The SOCKS endpoint *)

Record proxyURL := mkProxyURL {
  px_Host : string;
  px_Path : string;
  px_RawQuery : string;
  px_Fragment : string;
  px_Hostname : string;
  px_Port : string;
  px_User : option (string * string)
}.

Section dialer.
Context (urlParse : string -> option proxyURL).
(** [proxy.SOCKS5] at an address with credentials, and whether its dialer can be canceled. *)
Context {dialer : Type} (SOCKS5 : string -> option (string * string) -> result (dialer * bool) gerr).

Definition socks5DialContext (proxyAddr : string) : result dialer gerr :=
  if String.eqb proxyAddr "" then Err (EText "empty SOCKS endpoint")
  else
    match urlParse ("socks5://" +:+ proxyAddr) with
    | None => Err (EText "invalid SOCKS endpoint")
    | Some parsed =>
        if String.eqb (px_Host parsed) "" || negb (String.eqb (px_Path parsed) "") ||
           negb (String.eqb (px_RawQuery parsed) "") || negb (String.eqb (px_Fragment parsed) "")
        then Err (EText "invalid SOCKS endpoint")
        else if String.eqb (px_Hostname parsed) "" || String.eqb (px_Port parsed) ""
        then Err (EText "SOCKS endpoint requires host and port")
        else
          match SOCKS5 (JoinHostPort (px_Hostname parsed) (px_Port parsed)) (px_User parsed) with
          | Err err => Err (EWrap "create SOCKS dialer" err)
          | Ok (d, true) => Ok d
          | Ok (_, false) => Err (EText "SOCKS dialer does not support cancellation")
          end
    end.

(** [requests] is what the three requests come to through a dialer. *)
Definition MeasureTunnelProbeAverageLatencyMillisWithContext (asDNSError : gerr -> bool) (asNetError : gerr -> option bool)
    (requests : dialer -> Z -> list exchange) (timeoutMillis : Z) (proxyAddr : string) : result Z gerr :=
  let timeout := i64 (timeoutMillis * 1000000) in
  if (timeout <=? 0)%Z
  then Err (EText ("tunnel probe timeout must be positive: " +:+ Itoa timeoutMillis +:+ "ms"))
  else
    match socks5DialContext proxyAddr with
    | Err err => Err (EWrap "tunnel probe local SOCKS endpoint is unavailable" err)
    | Ok d => measureTunnelProbe asDNSError asNetError (requests d timeout)
    end.
End dialer.

(** ** The stage of a request *)

(** A hook that raises the stage: about to load it, or holding what it loaded. *)
Inductive hook :=
| Loading (next : Z)
| Comparing (next current : Z)
| Raised (next : Z).

(** One step of one hook: the load, or the test with the compare-and-swap. *)
Definition setStage_step (stage : Z) (h : hook) : Z * hook :=
  match h with
  | Loading next => (stage, Comparing next stage)
  | Comparing next current =>
      if (next <=? current)%Z then (stage, Raised next)
      else if (stage =? current)%Z then (next, Raised next)
      else (stage, Loading next)
  | Raised next => (stage, Raised next)
  end.

(** Hooks begin at any time, and any of them takes the next step. *)
Inductive stageEvent :=
| HookStarts (next : Z)
| HookSteps (i : nat).

Definition stage_step (s : Z * list hook) (ev : stageEvent) : Z * list hook :=
  match ev with
  | HookStarts next => (s.1, s.2 ++ [Loading next])
  | HookSteps i =>
      match s.2 !! i with
      | None => s
      | Some h => let '(stage, h) := setStage_step s.1 h in (stage, <[i := h]> s.2)
      end
  end.

Definition stage_run (evs : list stageEvent) : Z * list hook := fold_left stage_step evs (0%Z, []).
