(* ===== verification/ProbeTheorems.v ===== *)
(** * What the probe's answer means *)

From S2P Require Import Prelude Errors GoStrings Dialing Probe.
Local Open Scope string_scope.
Local Open Scope list_scope.

(** ** The average *)

(** The latency of an exchange that counts. *)
Definition answered (e : exchange) : option Z :=
  match e with
  | Responded StatusCode elapsed =>
      if (StatusCode <? 200)%Z || (400 <=? StatusCode)%Z then None else Some (maxInt64 1 (Milliseconds elapsed))
  | _ => None
  end.

(** A duration is a 64-bit number of nanoseconds. *)
Definition timed (e : exchange) : Prop :=
  match e with Responded _ elapsed => (- 2 ^ 63 <= elapsed < 2 ^ 63)%Z | _ => True end.

Definition total (answers : list Z) : Z := foldr Z.add 0%Z answers.

Lemma answered_bounds e a : timed e -> answered e = Some a -> (1 <= a <= 9223372036854)%Z.
Proof.
  destruct e as [err|stage err|code elapsed]; cbn; try done. intros Ht. case_match; [done|]. intros [= <-].
  unfold maxInt64, Milliseconds. assert (Z.quot elapsed 1000000 <= 9223372036854)%Z.
  { change 9223372036854%Z with (Z.quot (2 ^ 63 - 1) 1000000). apply Z.quot_le_mono; lia. }
  case_match; lia.
Qed.

Section quorum.
Context (asDNSError : gerr -> bool) (asNetError : gerr -> option bool).
Notation probeEndpoint := (probeEndpoint asDNSError asNetError).

Lemma probeEndpoint_answered e :
  match answered e with
  | Some a => pe_err (probeEndpoint e) = None /\ latencyMs (probeEndpoint e) = a
  | None => is_Some (pe_err (probeEndpoint e))
  end.
Proof. destruct e as [err|stage err|code elapsed]; cbn; [by eexists..|]. by destruct (_ || _); [eexists|]. Qed.

(** The errors of the endpoints that failed, in order. *)
Definition failures (es : list exchange) : list gerr := omap (fun e => pe_err (probeEndpoint e)) es.

Lemma tally_spec es : forall index sum successes errors,
  Forall timed es -> (0 <= sum)%Z -> (sum + 9223372036854 * Z.of_nat (length es) < 2 ^ 63)%Z ->
  exists reported,
    tally index (map probeEndpoint es) sum successes errors =
      ((sum + total (omap answered es))%Z, successes + length (omap answered es), errors ++ reported) /\
    forall s, existsb (is_sent s) reported = existsb (is_sent s) (failures es).
Proof.
  induction es as [|e es IH]; intros index sum successes errors Ht Hs Hb; cbn.
  { exists []. by rewrite Z.add_0_r, Nat.add_0_r, app_nil_r. }
  apply Forall_cons in Ht as [He Ht]. pose proof (probeEndpoint_answered e) as Ha.
  cbn [length] in Hb. destruct (answered e) as [a|] eqn:Ea.
  - destruct Ha as [-> ->]. pose proof (answered_bounds e a He Ea).
    rewrite i64_small by lia. destruct (IH (S index) (sum + a)%Z (S successes) errors) as (reported & -> & Hr); [done|lia..|].
    exists reported. split; [|done]. unfold total. cbn [foldr length]. f_equal. f_equal; lia.
  - destruct Ha as [err Herr]. rewrite Herr.
    destruct (IH (S index) sum successes (errors ++ [endpointError index (probeEndpoint e) err])) as (reported & -> & Hr); [done|lia..|].
    exists (endpointError index (probeEndpoint e) err :: reported). rewrite <- app_assoc. split; [done|].
    intros s. cbn. by rewrite Hr.
Qed.

Lemma total_bounds lo hi answers :
  Forall (fun a => lo <= a <= hi)%Z answers ->
  (lo * Z.of_nat (length answers) <= total answers <= hi * Z.of_nat (length answers))%Z.
Proof. induction 1 as [|a answers Ha _ IH]; cbn; [lia|]. unfold total in IH. nia. Qed.

Lemma measure_spec es :
  length es = length httpProbeURLs -> Forall timed es ->
  match measureTunnelProbe asDNSError asNetError es with
  | Ok avg =>
      2 <= length (omap answered es) /\ avg = Z.div (total (omap answered es)) (Z.of_nat (length (omap answered es))) /\
      forall lo hi, Forall (fun a => lo <= a <= hi)%Z (omap answered es) -> (lo <= avg <= hi)%Z
  | Err err =>
      length (omap answered es) < 2 /\ forall s, is_sent s err = existsb (is_sent s) (failures es)
  end.
Proof.
  intros Hl Ht. unfold measureTunnelProbe.
  destruct (tally_spec es 0 0 0 [] Ht) as (reported & -> & Hr); [done|rewrite Hl; done|]. cbn [app].
  change requiredSuccesses with 2. rewrite Z.add_0_l, Nat.add_0_l.
  set (answers := omap answered es). destruct (Nat.ltb_spec (length answers) 2) as [Hn|Hn].
  - split; [done|]. intros s. cbn. apply Hr.
  - assert (Hpos : (0 <= total answers)%Z).
    { enough (Forall (fun a => 0 <= a <= 9223372036854)%Z answers) as HF by (pose proof (total_bounds _ _ _ HF); lia).
      apply Forall_forall. intros a (e & He & Ea)%list_elem_of_omap. rewrite Forall_forall in Ht.
      pose proof (answered_bounds e a (Ht e He) Ea). lia. }
    rewrite Z.quot_div_nonneg by lia. split; [done|]. split; [done|]. intros lo hi HF.
    pose proof (total_bounds lo hi answers HF). split.
    + apply Z.div_le_lower_bound; lia.
    + apply Z.div_le_upper_bound; lia.
Qed.
End quorum.

(** The probe succeeds only through a valid local SOCKS endpoint, with a positive
    timeout, and when at least two of the three endpoints answered; its answer
    is the average of the latencies of those that did, with no overflow, at
    least the smallest and at most the largest.  When too few answered, the
    error carries the errors of all that failed, so a canceled probe is
    recognised as canceled. *)
Theorem probe_needs_a_quorum urlParse (dialer : Type) SOCKS5 asDNSError asNetError
    (requests : dialer -> Z -> list exchange) timeoutMillis proxyAddr :
  (forall d timeout, length (requests d timeout) = length httpProbeURLs /\ Forall timed (requests d timeout)) ->
  let timeout := i64 (timeoutMillis * 1000000) in
  match MeasureTunnelProbeAverageLatencyMillisWithContext urlParse SOCKS5 asDNSError asNetError requests timeoutMillis proxyAddr with
  | Ok avg =>
      (0 < timeout)%Z /\
      exists d, socks5DialContext urlParse SOCKS5 proxyAddr = Ok d /\
        let answers := omap answered (requests d timeout) in
        2 <= length answers /\ avg = Z.div (total answers) (Z.of_nat (length answers)) /\
        forall lo hi, Forall (fun a => lo <= a <= hi)%Z answers -> (lo <= avg <= hi)%Z
  | Err err =>
      (timeout <= 0)%Z \/ (exists e, socks5DialContext urlParse SOCKS5 proxyAddr = Err e) \/
      exists d, socks5DialContext urlParse SOCKS5 proxyAddr = Ok d /\
        length (omap answered (requests d timeout)) < 2 /\
        forall s, is_sent s err = existsb (is_sent s) (failures asDNSError asNetError (requests d timeout))
  end.
Proof.
  intros Hreq. cbv zeta. unfold MeasureTunnelProbeAverageLatencyMillisWithContext.
  destruct (Z.leb_spec (i64 (timeoutMillis * 1000000)) 0); [by left|].
  destruct (socks5DialContext urlParse SOCKS5 proxyAddr) as [d|e]; [|right; left; eauto].
  destruct (Hreq d (i64 (timeoutMillis * 1000000))) as [Hl Ht].
  pose proof (measure_spec asDNSError asNetError _ Hl Ht) as HM.
  destruct (measureTunnelProbe _ _ _); [|right; right]; eauto.
Qed.

(** ** The stage *)

Definition next_of (h : hook) : Z := match h with Loading n | Comparing n _ | Raised n => n end.
Definition unraised (h : hook) : bool := match h with Raised _ => false | _ => true end.

Record StageInv (s : Z * list hook) : Prop := {
  si_loaded : Forall (fun h => match h with Comparing _ current => (current <= s.1)%Z | _ => True end) s.2;
  si_raised : Forall (fun h => match h with Raised next => (next <= s.1)%Z | _ => True end) s.2;
  si_reached : s.1 ∈ 0%Z :: map next_of s.2
}.

(** What a step of hook [i] may do. *)
Lemma stage_step_cases s i h :
  s.2 !! i = Some h ->
  exists stage h' n, stage_step s (HookSteps i) = (stage, <[i := h']> s.2) /\ next_of h = n /\ next_of h' = n /\
    ((stage = s.1 /\ h' = Comparing n s.1 /\ h = Loading n) \/
     (stage = s.1 /\ h' = Raised n /\ ((exists c, h = Comparing n c /\ n <= c)%Z \/ h = Raised n)) \/
     (stage = n /\ h' = Raised n /\ h = Comparing n s.1 /\ s.1 < n)%Z \/
     (stage = s.1 /\ h' = Loading n /\ exists c, h = Comparing n c /\ c <> s.1)).
Proof.
  intros Hi. unfold stage_step. rewrite Hi. destruct h as [next|next current|next]; cbn.
  - eexists _, _, next. split; [done|]. auto 10.
  - destruct (Z.leb_spec next current); [|destruct (Z.eqb_spec s.1 current)]; eexists _, _, next; (split; [done|]); (split; [done|]); (split; [done|]).
    + right; left. eauto 10.
    + subst. right; right; left. auto.
    + right; right; right. eauto 10.
  - eexists _, _, next. split; [done|]. split; [done|]. split; [done|]. right; left. auto.
Qed.

Lemma map_next_insert hooks i h h' : hooks !! i = Some h -> next_of h' = next_of h -> map next_of (<[i := h']> hooks) = map next_of hooks.
Proof. intros Hi Hn. rewrite list_fmap_insert, Hn. apply list_insert_id. by rewrite list_lookup_fmap, Hi. Qed.

Lemma stage_step_grows s ev : StageInv s -> StageInv (stage_step s ev) /\ (s.1 <= (stage_step s ev).1)%Z.
Proof.
  intros [Hl Hr Hin]. destruct ev as [next|i].
  - split; [|cbn; lia]. cbn. constructor; cbn.
    + apply Forall_app. by repeat constructor.
    + apply Forall_app. by repeat constructor.
    + rewrite map_app, app_comm_cons. apply elem_of_app. by left.
  - destruct (s.2 !! i) as [h|] eqn:Hi; [|unfold stage_step; rewrite Hi; by split].
    destruct (stage_step_cases s i h Hi) as (stage & h' & n & -> & Hn0 & Hn & Hc). cbn [fst].
    assert (Hge : (s.1 <= stage)%Z) by (destruct Hc as [(-> & _)|[(-> & _)|[(-> & _ & _ & ?)|(-> & _)]]]; lia).
    split; [|done]. pose proof (Forall_lookup_1 _ _ _ _ Hl Hi) as Hlh. pose proof (Forall_lookup_1 _ _ _ _ Hr Hi) as Hrh.
    constructor; cbn.
    + apply Forall_insert; [eapply Forall_impl; [exact Hl|]; intros [] ?; cbn in *; try done; lia|].
      destruct Hc as [(-> & -> & _)|[(-> & -> & _)|[(-> & -> & _)|(-> & -> & _)]]]; done || lia.
    + apply Forall_insert; [eapply Forall_impl; [exact Hr|]; intros [] ?; cbn in *; try done; lia|].
      destruct Hc as [(-> & -> & _)|[(-> & -> & [(c & E & ?)|E])|[(-> & -> & _)|(-> & -> & _)]]]; try done.
      * rewrite E in Hlh. cbn in Hlh. lia.
      * rewrite E in Hrh. done.
    + rewrite (map_next_insert _ _ _ _ Hi (eq_trans Hn (eq_sym Hn0))).
      destruct Hc as [(-> & _)|[(-> & _)|[(-> & _)|(-> & _)]]]; try done.
      apply elem_of_cons. right. apply list_elem_of_fmap. exists h. split; [done|]. by eapply list_elem_of_lookup_2.
Qed.

Lemma stage_run_grows evs s :
  StageInv s -> StageInv (fold_left stage_step evs s) /\ (s.1 <= (fold_left stage_step evs s).1)%Z.
Proof.
  revert s. induction evs as [|ev evs IH]; intros s HS; cbn; [by split|].
  destruct (stage_step_grows s ev HS) as [HS' Hg]. destruct (IH _ HS') as [HS'' Hg']. split; [done|lia].
Qed.

Lemma StageInv_run evs : StageInv (stage_run evs).
Proof. apply stage_run_grows. constructor; cbn; [constructor..|set_solver]. Qed.

Lemma max_is z zs : Forall (fun x => x <= z)%Z zs -> z ∈ 0%Z :: zs -> z = foldr Z.max 0%Z zs \/ (z < 0)%Z.
Proof.
  intros Hle Hin. assert ((forall x, x ∈ zs -> x <= foldr Z.max 0 zs)%Z /\ (0 <= foldr Z.max 0 zs)%Z) as [Hub H0].
  { clear. induction zs as [|y zs [IH1 IH2]]; cbn; [split; [set_solver|lia]|]. split; [|lia].
    intros x [->|Hx]%elem_of_cons; [lia|]. specialize (IH1 x Hx). lia. }
  assert ((0 <= z)%Z -> foldr Z.max 0 zs <= z)%Z.
  { clear - Hle. induction Hle; cbn; lia. }
  apply elem_of_cons in Hin as [->|Hin]; [left; lia|]. specialize (Hub z Hin). lia.
Qed.

(** *** How long the hooks take *)

Definition unraisedCount (hooks : list hook) : nat := length (List.filter unraised hooks).

Definition weight (stage : Z) (left : nat) (h : hook) : nat :=
  match h with
  | Loading _ => 2 + 2 * left
  | Comparing _ current => if (current =? stage)%Z then 1 + 2 * left else 3 + 2 * left
  | Raised _ => 0
  end.

Fixpoint weights (stage : Z) (left : nat) (hooks : list hook) : nat :=
  match hooks with
  | [] => 0
  | h :: hooks => weight stage left h + weights stage left hooks
  end.

Definition work (s : Z * list hook) : nat := weights s.1 (unraisedCount s.2) s.2.

(** The steps of hooks that had not raised the stage. *)
Fixpoint effective (steps : list nat) (s : Z * list hook) : nat :=
  match steps with
  | [] => 0
  | i :: steps =>
      match s.2 !! i with Some h => if unraised h then 1 else 0 | None => 0 end + effective steps (stage_step s (HookSteps i))
  end.

Lemma unraisedCount_cons h hooks : unraisedCount (h :: hooks) = (if unraised h then 1 else 0) + unraisedCount hooks.
Proof. unfold unraisedCount. cbn. by destruct (unraised h). Qed.

Lemma unraisedCount_insert hooks i h h' :
  hooks !! i = Some h ->
  unraisedCount (<[i := h']> hooks) + (if unraised h then 1 else 0) = unraisedCount hooks + (if unraised h' then 1 else 0).
Proof.
  revert i. induction hooks as [|x hooks IH]; intros [|i] Hi; try done.
  - injection Hi as ->. change (<[0 := h']> (h :: hooks)) with (h' :: hooks). rewrite !unraisedCount_cons. lia.
  - specialize (IH i Hi). change (<[S i := h']> (x :: hooks)) with (x :: <[i := h']> hooks). rewrite !unraisedCount_cons. lia.
Qed.

(** The others weigh no more after the step. *)
Lemma weights_insert stage left stage' left' hooks i h h' :
  hooks !! i = Some h -> (forall x, x ∈ hooks -> weight stage' left' x <= weight stage left x) ->
  weights stage' left' (<[i := h']> hooks) + weight stage left h <=
  weights stage left hooks + weight stage' left' h'.
Proof.
  revert i. induction hooks as [|x hooks IH]; intros [|i] Hi Hw; try done.
  - injection Hi as ->. change (<[0 := h']> (h :: hooks)) with (h' :: hooks). cbn [weights].
    enough (weights stage' left' hooks <= weights stage left hooks) by lia.
    assert (Hw' : forall x, x ∈ hooks -> weight stage' left' x <= weight stage left x) by (intros; apply Hw; set_solver).
    clear - Hw'. induction hooks as [|y hooks IH]; cbn [weights]; [lia|]. pose proof (Hw' y ltac:(set_solver)).
    specialize (IH ltac:(intros; apply Hw'; set_solver)). lia.
  - change (<[S i := h']> (x :: hooks)) with (x :: <[i := h']> hooks). cbn [weights].
    pose proof (Hw x ltac:(set_solver)). specialize (IH i Hi ltac:(intros; apply Hw; set_solver)). lia.
Qed.

Lemma work_step s i h : s.2 !! i = Some h -> unraised h = true -> work (stage_step s (HookSteps i)) < work s.
Proof.
  intros Hi Hu. destruct (stage_step_cases s i h Hi) as (stage & h' & next & -> & _ & _ & Hc). unfold work. cbn [fst snd].
  pose proof (unraisedCount_insert s.2 i h h' Hi) as Hcount. rewrite Hu in Hcount.
  set (before := unraisedCount s.2) in *. set (after := unraisedCount (<[i := h']> s.2)) in *.
  assert (Hw : (forall x, x ∈ s.2 -> weight stage after x <= weight s.1 before x) ->
    weight stage after h' < weight s.1 before h ->
    weights stage after (<[i := h']> s.2) < weights s.1 before s.2).
  { intros Hx Hh. pose proof (weights_insert s.1 before stage after s.2 i h h' Hi Hx). lia. }
  destruct Hc as [(-> & -> & ->)|[(-> & -> & [(c & -> & ?)| ->])|[(-> & -> & -> & ?)|(-> & -> & c & -> & Hne)]]]; cbn in Hu, Hcount; try done;
    apply Hw; try (intros [n|n c'|n] _; cbn; repeat case_match; lia); cbn; rewrite ?Z.eqb_refl; repeat case_match; try lia.
  all: match goal with H : (_ =? _)%Z = true |- _ => apply Z.eqb_eq in H; congruence end.
Qed.

Lemma effective_work steps s : effective steps s <= work s.
Proof.
  revert s. induction steps as [|i steps IH]; intros s; cbn [effective]; [lia|]. specialize (IH (stage_step s (HookSteps i))).
  destruct (s.2 !! i) as [h|] eqn:Hi.
  - destruct (unraised h) eqn:Hu; [pose proof (work_step s i h Hi Hu); lia|].
    assert (stage_step s (HookSteps i) = s) as Hsame; [|rewrite Hsame in *; lia].
    unfold stage_step. rewrite Hi. destruct h; try done. cbn. rewrite list_insert_id by done. by destruct s.
  - assert (stage_step s (HookSteps i) = s) as Hsame; [|rewrite Hsame in *; lia]. unfold stage_step. by rewrite Hi.
Qed.

Lemma weights_bound stage left n hooks : left <= n -> weights stage left hooks <= length hooks * (3 + 2 * n).
Proof.
  intros Hn. induction hooks as [|h hooks IH]; cbn [weights length]; [lia|].
  assert (weight stage left h <= 3 + 2 * n) by (destruct h; cbn; try case_match; lia). lia.
Qed.

Lemma unraisedCount_length hooks : unraisedCount hooks <= length hooks.
Proof. induction hooks as [|h hooks IH]; [done|]. rewrite unraisedCount_cons. cbn. destruct (unraised h); lia. Qed.

Lemma work_bound s : work s <= length s.2 * (3 + 2 * length s.2).
Proof. apply weights_bound, unraisedCount_length. Qed.

(** The hooks of a request raise its stage without a lock.  However their loads
    and compare-and-swaps interleave, the stage never falls; once every hook
    that began has returned it is the furthest of their stages; and they return:
    whichever takes the next step, the hooks begun so far make at most a number
    of steps that is quadratic in how many they are. *)
Theorem probe_stage_is_the_furthest evs :
  let s := stage_run evs in
  (forall more, (s.1 <= (stage_run (evs ++ more)).1)%Z) /\
  (Forall (fun h => unraised h = false /\ (0 <= next_of h)%Z) s.2 -> s.1 = foldr Z.max 0%Z (map next_of s.2)) /\
  (forall steps, effective steps s <= length s.2 * (3 + 2 * length s.2)).
Proof.
  cbv zeta. pose proof (StageInv_run evs) as HS. split_and!.
  - intros more. unfold stage_run. rewrite fold_left_app. by apply stage_run_grows.
  - intros Hall. destruct HS as [_ Hr Hin]. destruct (stage_run evs) as [stage hooks]. cbn [fst snd] in *.
    assert (Hle : Forall (fun x => x <= stage)%Z (map next_of hooks)).
    { apply Forall_map, Forall_forall. intros h Hh. rewrite Forall_forall in Hr, Hall.
      specialize (Hr h Hh). destruct (Hall h Hh) as [Hu _]. by destruct h. }
    assert (H0 : (0 <= stage)%Z).
    { apply elem_of_cons in Hin as [->|Hin]; [lia|]. apply list_elem_of_fmap in Hin as (h & -> & Hh).
      rewrite Forall_forall in Hall. by apply Hall. }
    destruct (max_is stage (map next_of hooks) Hle Hin); [done|lia].
  - intros steps. etrans; [apply effective_work|apply work_bound].
Qed.
