(* ===== verification/ControlLines.v ===== *)
(** * Reading one request line (core/clientserver/controljson/server.go)

    [bufio.Reader.ReadSlice] over a connection that delivers its bytes in any
    pieces, and the loop that reads a line of bounded length through it. *)

From S2P Require Import Prelude Errors GoStrings.
From stdpp Require Import list.
From Stdlib Require Import Ascii.
Local Open Scope string_scope.
Local Open Scope list_scope.

Notation bytes := (list ascii).

Definition newlineByte : ascii := ascii_of_nat 10.

(** The text up to and with the first newline, and the rest. *)
Fixpoint cutLine (s : bytes) : option (bytes * bytes) :=
  match s with
  | [] => None
  | c :: s =>
      if Ascii.eqb c newlineByte then Some ([c], s)
      else match cutLine s with Some (line, rest) => Some (c :: line, rest) | None => None end
  end.

(** [rd_chunks] is what the connection's reads will return, [rd_final] the error
    after them.  A read of nothing, which a connection does not return, counts
    as none. *)
Record reader := mkReader { rd_buf : bytes; rd_chunks : list bytes; rd_final : gerr }.

Definition bufferSize : nat := 4096.

Definition newReader (chunks : list bytes) (final : gerr) : reader := mkReader [] chunks final.

(** One read into the free part of the buffer. *)
Definition fill (chunk : bytes) (chunks : list bytes) (r : reader) : reader :=
  let n := (bufferSize - length (rd_buf r))%nat in
  let kept := drop n chunk in
  mkReader (rd_buf r ++ take n chunk) (if kept is [] then chunks else kept :: chunks) (rd_final r).

(** [None]: out of fuel. *)
Fixpoint ReadSlice (fuel : nat) (r : reader) : option (reader * bytes * option gerr) :=
  match fuel with
  | O => None
  | S fuel =>
      match cutLine (rd_buf r) with
      | Some (line, rest) => Some (mkReader rest (rd_chunks r) (rd_final r), line, None)
      | None =>
          if (bufferSize <=? length (rd_buf r))%nat
          then Some (mkReader [] (rd_chunks r) (rd_final r), rd_buf r, Some (ESent BufioErrBufferFull))
          else match rd_chunks r with
               | [] => Some (mkReader [] [] (rd_final r), rd_buf r, Some (rd_final r))
               | chunk :: chunks => ReadSlice fuel (fill chunk chunks r)
               end
      end
  end.

(** The bytes still to come, and a bound on the reads of them. *)
Definition stream (r : reader) : bytes := rd_buf r ++ concat (rd_chunks r).
Definition reads (r : reader) : nat := (length (concat (rd_chunks r)) + length (rd_chunks r))%nat.

Definition tooLong (limit : Z) : gerr := EText ("command request exceeds " +:+ Itoa limit +:+ " bytes").

Fixpoint readLineBounded (fuel : nat) (limit : Z) (line : bytes) (r : reader) : option (result bytes gerr) :=
  match fuel with
  | O => None
  | S fuel =>
      match ReadSlice (S (reads r)) r with
      | None => None
      | Some (r, part, err) =>
          if (limit <? Z.of_nat (length line + length part))%Z then Some (Err (tooLong limit))
          else
            let line := line ++ part in
            match err with
            | None => Some (Ok (take (length line - 1) line))
            | Some err =>
                if negb (is_sent BufioErrBufferFull err) then
                  if is_sent IoEOF err && negb (Nat.eqb (length line) 0) then Some (Ok line) else Some (Err err)
                else readLineBounded fuel limit line r
            end
      end
  end.

(** What the whole stream says the line is. *)
Definition lineOf (limit : Z) (s : bytes) (final : gerr) : result bytes gerr :=
  match cutLine s with
  | Some (line, _) => if (limit <? Z.of_nat (length line))%Z then Err (tooLong limit) else Ok (take (length line - 1) line)
  | None =>
      if (limit <? Z.of_nat (length s))%Z then Err (tooLong limit)
      else if is_sent IoEOF final && negb (Nat.eqb (length s) 0) then Ok s else Err final
  end.

(** ** The loop reads the line of the stream *)

Lemma cutLine_app_some s s' line rest : cutLine s = Some (line, rest) -> cutLine (s ++ s') = Some (line, rest ++ s').
Proof.
  revert line rest. induction s as [|c s IH]; intros line rest; cbn; [done|]. case_match; [by intros [= <- <-]|].
  destruct (cutLine s) as [[l r]|]; [|done]. intros [= <- <-]. by rewrite (IH l r).
Qed.

Lemma cutLine_app_none s s' :
  cutLine s = None -> cutLine (s ++ s') = (fun '(line, rest) => (s ++ line, rest)) <$> cutLine s'.
Proof.
  induction s as [|c s IH]; cbn; [by destruct (cutLine s') as [[]|]|]. case_match; [done|].
  destruct (cutLine s) as [[]|]; [done|]. intros _. rewrite IH by done. by destruct (cutLine s') as [[]|].
Qed.

Lemma cutLine_whole s line rest : cutLine s = Some (line, rest) -> s = line ++ rest.
Proof.
  revert line rest. induction s as [|c s IH]; intros line rest; cbn; [done|]. case_match; [by intros [= <- <-]|].
  destruct (cutLine s) as [[l r]|]; [|done]. intros [= <- <-]. cbn. by rewrite <- (IH l r).
Qed.

Lemma fill_stream chunk chunks r :
  rd_chunks r = chunk :: chunks -> stream (fill chunk chunks r) = stream r.
Proof.
  intros E. unfold stream, fill. rewrite E. cbn [rd_buf rd_chunks]. set (n := (bufferSize - length (rd_buf r))%nat).
  assert (concat (if drop n chunk is [] then chunks else drop n chunk :: chunks) = drop n chunk ++ concat chunks) as ->
    by by destruct (drop n chunk).
  rewrite <- app_assoc. f_equal. cbn [concat]. by rewrite app_assoc, take_drop.
Qed.

Lemma fill_reads chunk chunks r :
  rd_chunks r = chunk :: chunks -> length (rd_buf r) < bufferSize -> reads (fill chunk chunks r) < reads r.
Proof.
  intros E Hb. unfold reads, fill. rewrite E. cbn [rd_chunks concat length].
  destruct (drop (bufferSize - length (rd_buf r)) chunk) as [|c kept] eqn:Ed; [rewrite length_app; lia|].
  assert (length (c :: kept) < length chunk); [|cbn [concat length]; rewrite !length_app in *; cbn in *; lia].
  rewrite <- Ed, length_drop. assert (length (c :: kept) <> 0) by done. rewrite <- Ed, length_drop in *. lia.
Qed.

(** What one slice is. *)
Definition slice_of (r r' : reader) (part : bytes) (err : option gerr) : Prop :=
  rd_final r' = rd_final r /\ part ++ stream r' = stream r /\ reads r' <= reads r /\
  match err with
  | None => cutLine (stream r) = Some (part, stream r')
  | Some err =>
      cutLine part = None /\
      ((err = ESent BufioErrBufferFull /\ length part = bufferSize) \/ (err = rd_final r /\ stream r' = []))
  end.

Lemma ReadSlice_spec fuel r :
  reads r < fuel -> length (rd_buf r) <= bufferSize ->
  exists r' part err, ReadSlice fuel r = Some (r', part, err) /\ length (rd_buf r') <= bufferSize /\ slice_of r r' part err.
Proof.
  revert r. induction fuel as [|fuel IH]; intros r Hf Hb; [lia|]. cbn [ReadSlice].
  destruct (cutLine (rd_buf r)) as [[line rest]|] eqn:Ec.
  { eexists _, _, _. split; [done|]. pose proof (cutLine_whole _ _ _ Ec) as Ew. cbn.
    split; [apply (f_equal length) in Ew; rewrite length_app in Ew; lia|]. unfold slice_of, stream. cbn.
    split_and!; [done| |done|by apply cutLine_app_some]. by rewrite app_assoc, <- Ew. }
  destruct (Nat.leb_spec bufferSize (length (rd_buf r))).
  { eexists _, _, _. split; [done|]. unfold slice_of, stream, reads. cbn. split; [lia|]. split_and!; [done..|]. left. split; [done|lia]. }
  destruct (rd_chunks r) as [|chunk chunks] eqn:E.
  { eexists _, _, _. split; [done|]. unfold slice_of, stream, reads. rewrite E. cbn. split; [lia|]. split_and!; [done..|by right]. }
  pose proof (fill_reads _ _ _ E ltac:(lia)). pose proof (fill_stream _ _ _ E) as Es.
  destruct (IH (fill chunk chunks r)) as (r' & part & err & -> & Hb' & Hfin & Hpart & Hreads & Herr); [lia| |].
  { unfold fill. cbn [rd_buf]. rewrite length_app, length_take. lia. }
  eexists _, _, _. split; [done|]. split; [done|]. unfold slice_of. rewrite <- Es. split_and!; [done|done|lia|done].
Qed.

Lemma readLineBounded_spec fuel limit line r :
  length (stream r) < fuel -> length (rd_buf r) <= bufferSize ->
  is_sent BufioErrBufferFull (rd_final r) = false -> cutLine line = None -> (Z.of_nat (length line) <= limit)%Z ->
  readLineBounded fuel limit line r = Some (lineOf limit (line ++ stream r) (rd_final r)).
Proof.
  revert line r. induction fuel as [|fuel IH]; intros line r Hf Hb Hfin Hl Hlim; [lia|]. cbn [readLineBounded].
  destruct (ReadSlice_spec (S (reads r)) r) as (r' & part & err & -> & Hb' & Efin & Hpart & _ & Herr); [lia|done|].
  unfold lineOf. rewrite (cutLine_app_none line) by done. destruct err as [err|].
  - destruct Herr as [Hcut Herr]. rewrite <- Hpart in *. rewrite length_app in Hf.
    destruct Herr as [[-> Hlen]|[-> Hend]].
    + rewrite (cutLine_app_none part) by done. destruct (Z.ltb_spec limit (Z.of_nat (length line + length part))) as [Hex|Hok].
      * destruct (cutLine (stream r')) as [[l rest]|]; cbn [fmap option_fmap option_map]; rewrite !length_app; 
          match goal with |- context [(limit <? ?x)%Z] => destruct (Z.ltb_spec limit x); [done|lia] end.
      * cbn [is_sent negb bool_decide decide decide_rel]. rewrite bool_decide_true by done. cbn [negb].
        rewrite IH; [|unfold bufferSize in *; lia|done|by rewrite Efin| |by rewrite length_app].
        -- unfold lineOf. rewrite (cutLine_app_none (line ++ part)), Efin.
           ++ rewrite <- !app_assoc. destruct (cutLine (stream r')) as [[l rest]|]; cbn; by rewrite <- ?app_assoc.
           ++ rewrite (cutLine_app_none line) by done. by rewrite Hcut.
        -- rewrite (cutLine_app_none line) by done. by rewrite Hcut.
    + rewrite Hend, app_nil_r, Hcut. cbn. rewrite Hfin. cbn. rewrite <- length_app. by repeat case_match.
  - rewrite Herr. cbn. rewrite length_app. by case_match.
Qed.
