(* ===== verification/Control.v ===== *)
(** * Commands from the shell and the desktop (core/sessionapi/wire, mobilebinding/binding.go, clientserver/controljson)

    One request line of JSON, one response line.  The binding dispatches a
    command to the manager behind the interface [managerAPI]; the server reads
    requests from authenticated local connections; the client is the other end.
    The JSON encoder and decoder are the interface [Codec]. *)

From S2P Require Import Prelude Errors Values Session GoStrings Activation Manager ControlLines.
From Stdlib Require Import Ascii.
Local Open Scope string_scope.
Local Open Scope list_scope.

(** ** The wire types (sessionapi/wire/response.go) *)

Record Failure := mkFailure { wf_Code : string; wf_Message : string }.

Record Response (T : Type) := mkResponse { r_OK : bool; r_Result : option T; r_Error : option Failure }.
Arguments mkResponse {T}.
Arguments r_OK {T}.
Arguments r_Result {T}.
Arguments r_Error {T}.

Record Profile := mkProfile { wp_Index : Z; wp_Protocol : string; wp_Description : string }.

Record Configuration := mkConfiguration {
  wc_Digest : string;
  wc_Sequence : Z;
  wc_SourceKind : string;
  wc_Profiles : list Profile
}.

Record Generation := mkGeneration { wg_Generation : Z; wg_Sequence : Z }.

Record wireSelection := mkWireSelection { wl_Digest : string; wl_Mode : string; wl_Index : Z }.

Record Snapshot := mkSnapshot {
  ws_ActiveDigest : string;
  ws_ActiveMode : string;
  ws_ActiveIndex : Z;
  ws_PendingTarget : option wireSelection;
  ws_CanSwitch : bool;
  ws_SessionID : string;
  ws_Sequence : Z;
  ws_Generation : Z;
  ws_NetworkGeneration : Z;
  ws_VPNActive : bool;
  ws_CanRetry : bool;
  ws_State : string;
  ws_Configured : bool;
  ws_LogsUploadAvailable : bool;
  ws_Digest : string;
  ws_SourceKind : string;
  ws_SourceURL : string;
  ws_SourceError : string;
  ws_Profiles : list Profile;
  ws_ActiveProfile : option Profile;
  ws_LastFailure : option Failure;
  ws_CleanupComplete : bool;
  ws_Recovering : bool;
  ws_PrimaryAction : string
}.

Definition profileResultDTO (p : ProfileSummary) : Profile :=
  mkProfile (ps_Index p) (Protocol_string (ps_Protocol p)) (ps_Description p).

Definition profileResultPtr (p : option ProfileSummary) : option Profile :=
  match p with None => None | Some p => Some (profileResultDTO p) end.

Definition profilesDTO (ps : list ProfileSummary) : list Profile := map profileResultDTO ps.

Definition ConfigurationFrom (c : ConfigureResult) : Configuration :=
  mkConfiguration (cr_Digest c) (cr_Sequence c) (ConfigSourceKind_string (cr_SourceKind c)) (profilesDTO (cr_Profiles c)).

Definition SnapshotFrom (s : SnapshotResult) : Snapshot := {|
  ws_ActiveDigest := sn_ActiveDigest s;
  ws_ActiveMode := StartMode_string (sn_ActiveMode s);
  ws_ActiveIndex := sn_ActiveIndex s;
  ws_PendingTarget :=
    match sn_PendingTarget s with
    | Some t => Some (mkWireSelection (sel_Digest t) (StartMode_string (sel_Mode t)) (sel_Index t))
    | None => None
    end;
  ws_CanSwitch := sn_CanSwitch s;
  ws_SessionID := sn_SessionID s;
  ws_Sequence := sn_Sequence s;
  ws_Generation := sn_Generation s;
  ws_NetworkGeneration := sn_NetworkGeneration s;
  ws_VPNActive := sn_VPNActive s;
  ws_CanRetry := sn_CanRetry s;
  ws_State := State_string (sn_State s);
  ws_Configured := sn_Configured s;
  ws_LogsUploadAvailable := sn_LogsUploadAvailable s;
  ws_Digest := sn_Digest s;
  ws_SourceKind := ConfigSourceKind_string (sn_SourceKind s);
  ws_SourceURL := sn_SourceURL s;
  ws_SourceError := sn_SourceError s;
  ws_Profiles := profilesDTO (sn_Profiles s);
  ws_ActiveProfile := profileResultPtr (sn_ActiveProfile s);
  ws_LastFailure :=
    if bool_decide (sn_LastFailure s = NoFailure) then None
    else Some (mkFailure (FailureCode_string (sn_LastFailure s)) (sn_LastFailureMessage s));
  ws_CleanupComplete := sn_CleanupComplete s;
  ws_Recovering := sn_Recovering s;
  ws_PrimaryAction := sn_PrimaryAction s
|}.

(** ** Commands *)

Record LogUploadPreparation := mkLogUploadPreparation {
  lu_Reference : string;
  lu_Destination : string;
  lu_Authorization : string;
  lu_Provider : string;
  lu_MaxBytes : Z
}.

(** [Manager.PrepareLogUpload] (sessionapi/log_upload.go): the session [get]
    found, [url.Parse] as the user of an endpoint and its text without one,
    [uuid.NewV7]. *)
Section upload.
Context (parseEndpoint : string -> option (option (string * string) * string)) (newReference : result string gerr).

Definition LogUploadMaxBytes : Z := 150000000.

Definition managerPrepareLogUpload (found : result session gerr) (sessionID digest : string) : result LogUploadPreparation gerr :=
  if String.eqb sessionID "" || String.eqb digest ""
  then Err (failure FailureInvalidArgument "session ID and configuration digest are required")
  else
    match found with
    | Err err => Err err
    | Ok s =>
        if negb (String.eqb digest (s_digest s)) then Err (failure FailureConflict "configuration changed; refresh its snapshot")
        else if String.eqb (s_logsEndpoint s) "" then Err (failure FailureConflict "log upload is unavailable")
        else
          match parseEndpoint (s_logsEndpoint s) with
          | None => Err (failure FailureInternal "accepted log endpoint is invalid")
          | Some (user, provider) =>
              let authorization :=
                match user with Some (name, password) => "Basic " +:+ EncodeToString (name +:+ ":" +:+ password) | None => "" end in
              match newReference with
              | Err err => Err (failureWithCause FailureInternal "could not allocate upload reference" (Some err))
              | Ok reference =>
                  Ok (mkLogUploadPreparation reference (provider +:+ reference +:+ ".gz") authorization provider LogUploadMaxBytes)
              end
          end
    end.
End upload.

(** What a successful response carries. *)
Inductive value :=
| VConfiguration (c : Configuration)
| VGeneration (g : Generation)
| VSnapshot (s : Snapshot)
| VUpload (u : LogUploadPreparation).

(** The parameters of a command; an absent field is its zero value. *)
Record Command := mkCommand {
  cm_SessionID : string;
  cm_ExpectedSequence : Z;
  cm_Generation : Z;
  cm_Source : option string;
  cm_Mode : string;
  cm_Index : Z;
  cm_ReplaceCurrent : bool;
  cm_Digest : string
}.

Definition zeroCommand : Command := mkCommand "" 0 0 None "" 0 false "".

(** The methods of the manager the binding uses; a nil source is [None]. *)
Class managerAPI (M : Type) := {
  apiConfigure : string -> Z -> option string -> M -> M * result ConfigureResult gerr;
  apiStart : string -> Z -> StartTarget -> M -> M * result GenerationResult gerr;
  apiStop : string -> Z -> M -> M * result GenerationResult gerr;
  apiSnapshot : string -> M -> M * result SnapshotResult gerr;
  apiPrepareLogUpload : string -> string -> M -> M * result LogUploadPreparation gerr
}.

(** [encoding/json] on the types of the protocol. *)
Class Codec := {
  encodeResponse : Response value -> bytes;
  decodeResponse : bytes -> result (Response bytes) gerr;
  encodeValue : value -> bytes;
  decodeValue : bytes -> result value gerr;
  encodeRequest : string -> bytes -> bytes;
  decodeRequest : bytes -> result (string * bytes) gerr;
  encodeParams : Command -> bytes;
  decodeParams : bytes -> result Command gerr;
  checkRaw : bytes -> option gerr
}.

(** [sessionapi.StartMode(mode)] *)
Definition StartModeOf (mode : string) : StartMode :=
  if String.eqb mode "AUTO_SELECT" then AutoSelect
  else if String.eqb mode "PROFILE_INDEX" then ProfileIndex
  else OtherMode mode.

(** [errors.As(err, **Error)]: the first one in pre-order. *)
Fixpoint domainOf (e : gerr) : option (string * option gerr) :=
  match e with
  | ESent _ | EText _ => None
  | EWrap _ inner => domainOf inner
  | EJoin errs =>
      (fix first (l : list gerr) : option (string * option gerr) :=
         match l with
         | [] => None
         | x :: l' => match domainOf x with Some d => Some d | None => first l' end
         end) errs
  | EDomain _ message cause => Some (message, cause)
  | ECleanup inner => domainOf inner
  end.

Definition failureText (err : gerr) : string :=
  match domainOf err with
  | None => error_text err
  | Some (message, None) => message
  | Some (message, Some cause) => message +:+ ": " +:+ error_text cause
  end.

Definition nonNegative (value : Z) (name : string) : result Z gerr :=
  if (value <? 0)%Z then Err (failure FailureInvalidArgument (name +:+ " must be non-negative")) else Ok value.

(** [append([]byte(nil), raw...)]: nothing appended to nil is nil. *)
Definition appendNil (raw : option string) : option string :=
  match raw with Some raw => if String.eqb raw "" then None else Some raw | None => None end.

Section binding.
Context {M : Type} {api : managerAPI M} {codec : Codec}.

Definition success (v : value) : bytes := encodeResponse (mkResponse true (Some v) None).
Definition failed (err : gerr) : bytes :=
  encodeResponse (mkResponse false None (Some (mkFailure (FailureCode_string (CodeOf (Some err))) (failureText err)))).

Definition ConfigureContext (sessionID : string) (expectedSequence : Z) (rawConfig : option string) (m : M) : M * bytes :=
  match nonNegative expectedSequence "configuration sequence" with
  | Err err => (m, failed err)
  | Ok sequence =>
      let '(m, r) := apiConfigure sessionID sequence (appendNil rawConfig) m in
      match r with
      | Err err => (m, failed err)
      | Ok c => (m, success (VConfiguration (ConfigurationFrom c)))
      end
  end.

Definition startContext (sessionID : string) (expectedSequence : Z) (mode : string) (index : Z) (rawConfig : option string)
    (replaceCurrent : bool) (digest : string) (m : M) : M * bytes :=
  match nonNegative expectedSequence "start sequence" with
  | Err err => (m, failed err)
  | Ok sequence =>
      if (index <? 0)%Z && negb (String.eqb mode "AUTO_SELECT")
      then (m, failed (failure FailureInvalidArgument "profile index must be non-negative"))
      else
        let '(m, r) := apiStart sessionID sequence (mkStartTarget (StartModeOf mode) index replaceCurrent digest rawConfig) m in
        match r with
        | Err err => (m, failed err)
        | Ok g => (m, success (VGeneration (mkGeneration (gr_Generation g) (gr_Sequence g))))
        end
  end.

Definition StopContext (sessionID : string) (generation : Z) (m : M) : M * bytes :=
  if (generation <=? 0)%Z then (m, failed (failure FailureStaleGeneration "generation must be positive"))
  else
    let '(m, r) := apiStop sessionID generation m in
    match r with
    | Err err => (m, failed err)
    | Ok g => (m, success (VGeneration (mkGeneration (gr_Generation g) (gr_Sequence g))))
    end.

Definition SnapshotContext (sessionID : string) (m : M) : M * bytes :=
  let '(m, r) := apiSnapshot sessionID m in
  match r with
  | Err err => (m, failed err)
  | Ok s => (m, success (VSnapshot (SnapshotFrom s)))
  end.

Definition PrepareLogUpload (sessionID digest : string) (m : M) : M * bytes :=
  let '(m, r) := apiPrepareLogUpload sessionID digest m in
  match r with
  | Err err => (m, failed err)
  | Ok u => (m, success (VUpload u))
  end.

(** [configuration] is [Some] when the platform supplies the bytes itself;
    [Some None] is a nil slice. *)
Definition CallJSONWithConfiguration (method : string) (params : bytes) (configuration : option (option string)) (m : M) :
    M * bytes :=
  match (if params is [] then Ok zeroCommand else decodeParams params) with
  | Err err => (m, failed (failureWithCause FailureInvalidArgument "command parameters are invalid" (Some err)))
  | Ok c =>
      if String.eqb method "PrepareLogUpload" then PrepareLogUpload (cm_SessionID c) (cm_Digest c) m
      else if String.eqb method "Snapshot" then SnapshotContext (cm_SessionID c) m
      else if String.eqb method "Configure" then
        match configuration with
        | Some raw => ConfigureContext (cm_SessionID c) (cm_ExpectedSequence c) raw m
        | None => ConfigureContext (cm_SessionID c) (cm_ExpectedSequence c) (cm_Source c) m
        end
      else if String.eqb method "Start" then
        let source := match configuration with Some raw => Some (default "" raw) | None => cm_Source c end in
        startContext (cm_SessionID c) (cm_ExpectedSequence c) (cm_Mode c) (cm_Index c) source (cm_ReplaceCurrent c) (cm_Digest c) m
      else if String.eqb method "Stop" then StopContext (cm_SessionID c) (cm_Generation c) m
      else (m, failed (failure FailureInvalidArgument "unknown command"))
  end.

Definition CallJSON (method : string) (params : bytes) (m : M) : M * bytes := CallJSONWithConfiguration method params None m.

(** ** The server (clientserver/controljson/server.go) *)

Definition maxRequestBytes : Z := 8388608.

(** A connection: setting its deadline, the pieces it delivers and the error
    after them, writing to it, closing it. *)
Record connection := mkConnection {
  cn_deadline : option gerr;
  cn_chunks : list bytes;
  cn_final : gerr;
  cn_write : option gerr;
  cn_close : option gerr
}.

(** What a connection was for: the manager after it, the commands it ran, what
    was written to it, how often it was closed, the error. *)
Record served := mkServed {
  sv_manager : M;
  sv_commands : list (string * bytes);
  sv_written : list bytes;
  sv_closed : nat;
  sv_err : option gerr
}.

Definition failureLine (code message : string) : bytes :=
  encodeResponse (mkResponse false None (Some (mkFailure code message))) ++ [newlineByte].

(** [writeFailureWithCause] returns the cause only with the error of the write. *)
Definition causeIfUnwritten (c : connection) (cause : gerr) : option gerr :=
  match cn_write c with Some err => Some (EJoin [cause; err]) | None => None end.

Definition serveRequest (c : connection) (m : M) : M * list (string * bytes) * list bytes * option gerr :=
  match cn_deadline c with
  | Some err => (m, [], [], Some (EWrap "set desktop control deadline" err))
  | None =>
      match readLineBounded (S (length (concat (cn_chunks c)))) maxRequestBytes [] (newReader (cn_chunks c) (cn_final c)) with
      | None => (m, [], [], Some (EText "unreachable"))
      | Some (Err err) =>
          (m, [], [failureLine "INVALID_ARGUMENT" ("command request could not be read: " +:+ error_text err)], causeIfUnwritten c err)
      | Some (Ok requestBytes) =>
          match decodeRequest requestBytes with
          | Err err =>
              (m, [], [failureLine "INVALID_ARGUMENT" ("command request is invalid: " +:+ error_text err)], causeIfUnwritten c err)
          | Ok (method, params) =>
              if String.eqb method "" || Nat.eqb (length params) 0 || bool_decide (params = ["n"; "u"; "l"; "l"]%char)
              then (m, [], [failureLine "INVALID_ARGUMENT" "command method and parameters are required"], cn_write c)
              else
                let '(m, response) := CallJSON method params m in
                match checkRaw response with
                | Some err =>
                    (m, [(method, params)],
                     [failureLine "INTERNAL" ("desktop control returned an invalid response: " +:+ error_text err)], causeIfUnwritten c err)
                | None => (m, [(method, params)], [response ++ [newlineByte]], cn_write c)
                end
          end
      end
  end.

Definition ServeConn (binding : bool) (c : connection) (m : M) : served :=
  if negb binding then mkServed m [] [] 0 (Some (EText "desktop control binding is unavailable"))
  else
    let '(m, commands, written, err) := serveRequest c m in
    mkServed m commands written 1
      (match cn_close c with
       | Some closeErr => join [err; Some (EWrap "close desktop control connection" closeErr)]
       | None => err
       end).

(** ** Accepting (clientserver/controljson/serve.go, controlplane/unix.go) *)

Inductive acceptEvent :=
| AcceptFailed (err : gerr)
| Accepted (peerUID : result Z gerr) (c : connection).

(** What the environment and the system say about the installed user. *)
Record peerPolicy := mkPeerPolicy {
  pp_environment : string;
  pp_currentUID : Z;
  pp_privileged : result Z gerr
}.

Definition expectedPeerUID (p : peerPolicy) : result Z gerr :=
  if negb (String.eqb (pp_environment p) "") then
    match Atoi (pp_environment p) with
    | Some uid => if (uid <? 0)%Z then Err (EText "DOBBYVPN_CONTROL_PEER_UID is invalid") else Ok uid
    | None => Err (EText "DOBBYVPN_CONTROL_PEER_UID is invalid")
    end
  else if negb (pp_currentUID p =? 0)%Z then Ok (pp_currentUID p)
  else
    match pp_privileged p with
    | Ok uid => Ok uid
    | Err err => Err (EWrap "DOBBYVPN_CONTROL_PEER_UID is required for a privileged control service" err)
    end.

Definition AuthenticateLocalPeer (p : peerPolicy) (peerUID : result Z gerr) : option gerr :=
  match expectedPeerUID p with
  | Err err => Some err
  | Ok expected =>
      match peerUID with
      | Err err => Some err
      | Ok uid => if (uid =? expected)%Z then None else Some (EText "control peer UID is not the installed user")
      end
  end.

(** The connections handed to handlers and those closed unread, in order, and
    how the loop ended; [None] while it goes on. *)
Fixpoint Serve (p : peerPolicy) (events : list acceptEvent) : list connection * list connection * option (option gerr) :=
  match events with
  | [] => ([], [], None)
  | AcceptFailed err :: _ => ([], [], Some (if is_sent NetErrClosed err then None else Some err))
  | Accepted peerUID c :: events =>
      let '(handled, rejected, ended) := Serve p events in
      match AuthenticateLocalPeer p peerUID with
      | Some _ => (handled, c :: rejected, ended)
      | None => (c :: handled, rejected, ended)
      end
  end.

(** ** The client (clientserver/controljson/client.go) *)

Inductive callError :=
| CallError (Code Message : string)
| CallLocal (err : gerr)
| CallJoined (err : option callError) (closeErr : gerr).

(** One exchange: [respond] is the connection as the client reads it, given the
    request line; [wanted] whether the caller gave a place for the result. *)
Definition callConn (wanted : bool) (respond : bytes -> list bytes * gerr) (writeErr : option gerr) (method : string)
    (params : Command) : result (option value) callError :=
  let request := encodeRequest method (encodeParams params) in
  match writeErr with
  | Some err => Err (CallLocal (EWrap "send desktop control request" err))
  | None =>
      let '(chunks, final) := respond (request ++ [newlineByte]) in
      match readLineBounded (S (length (concat chunks))) maxRequestBytes [] (newReader chunks final) with
      | None => Err (CallLocal (EText "unreachable"))
      | Some (Err err) => Err (CallLocal (EWrap "read desktop control response" err))
      | Some (Ok line) =>
          match decodeResponse line with
          | Err err => Err (CallLocal (EWrap "decode desktop control response" err))
          | Ok response =>
              if negb (r_OK response) then
                match r_Error response with
                | None => Err (CallLocal (EText "desktop control returned a failure without details"))
                | Some f => Err (CallError (wf_Code f) (wf_Message f))
                end
              else if negb wanted then Ok None
              else
                match r_Result response with
                | None | Some [] => Err (CallLocal (EText "desktop control returned no result"))
                | Some raw =>
                    match decodeValue raw with
                    | Err err => Err (CallLocal (EWrap "decode desktop control result" err))
                    | Ok v => Ok (Some v)
                    end
                end
          end
      end
  end.

(** [dial] is [None] without a dialer, and what dialing answers. *)
Definition Call (wanted : bool) (dial : option (option gerr)) (respond : bytes -> list bytes * gerr)
    (writeErr closeErr : option gerr) (method : string) (params : Command) : result (option value) callError :=
  match dial with
  | None => Err (CallLocal (EText "desktop control dialer is unavailable"))
  | Some (Some err) => Err (CallLocal err)
  | Some None =>
      let r := callConn wanted respond writeErr method params in
      match closeErr with
      | None => r
      | Some err => Err (CallJoined (match r with Err e => Some e | Ok _ => None end) (EWrap "close desktop control connection" err))
      end
  end.
End binding.

(** ** The manager as the binding sees it *)

(** Every method on a manager no other client uses meanwhile: its critical
    sections one after the other, with stores that work and a context that
    lives. *)
Section alone.
Context (now : Z) (loadConfig : option string -> result (LoadedConfig * parsedConfig) gerr).
Context (parseEndpoint : string -> option (option (string * string) * string)) (newReference : result string gerr).

Definition configureAlone (sessionID : string) (expectedSequence : Z) (raw : option string) (m : manager) :
    manager * result ConfigureResult gerr :=
  match get sessionID m with
  | Some err => (m, Err err)
  | None =>
      match Configure_begin None expectedSequence m with
      | (m, Err err) => (m, Err err)
      | (m, Ok request) =>
          match loadConfig raw with
          | Err err => (m, Err err)
          | Ok (loaded, parsed) => Configure_accept now None request loaded parsed io_ok m
          end
      end
  end.

Definition startAlone (sessionID : string) (expectedSequence : Z) (target : StartTarget) (m : manager) :
    manager * result GenerationResult gerr :=
  match Start_begin sessionID None target m with
  | Err err => (m, Err err)
  | Ok (None, target) => Start_locked now io_ok expectedSequence target false m
  | Ok (Some source, target) =>
      match configureAlone sessionID expectedSequence (Some source) m with
      | (m, Err err) => (m, Err err)
      | (m, Ok configured) => Start_locked now io_ok (cr_Sequence configured) target true m
      end
  end.

Definition stopAlone (sessionID : string) (generation : Z) (m : manager) : manager * result GenerationResult gerr :=
  match get sessionID m with
  | Some err => (m, Err err)
  | None =>
      let '(m, res, err) := Stop now None io_ok generation m in
      (m, match err, res with
          | Some err, _ => Err err
          | None, Some g => Ok g
          | None, None => Ok (mkGenerationResult 0 0)
          end)
  end.

Definition managerAlone : managerAPI manager := {|
  apiConfigure := configureAlone;
  apiStart := startAlone;
  apiStop := stopAlone;
  apiSnapshot sessionID m := (m, Manager.Snapshot sessionID m);
  apiPrepareLogUpload sessionID digest m :=
    (m, managerPrepareLogUpload parseEndpoint newReference
          (match get sessionID m with Some err => Err err | None => Ok (m_session m) end) sessionID digest)
|}.
End alone.
