(* ===== verification/ControlTheorems.v ===== *)
(** * What a command does, from the client to the manager and back *)

From S2P Require Import Prelude Errors Values Session GoStrings Activation Manager ControlLines Control.
From Stdlib Require Import Ascii.
Local Open Scope string_scope.
Local Open Scope list_scope.

(** What the program relies on of [encoding/json]: one line, and what is
    representable (numbers of their width, valid UTF-8) comes back. *)
Class CodecLaws (C : Codec) := {
  representable : Response value -> Prop;
  representableCommand : string -> Command -> Prop;
  response_line r : newlineByte ∉ encodeResponse r;
  request_line method c : newlineByte ∉ encodeRequest method (encodeParams c);
  response_roundtrip r : representable r ->
    decodeResponse (encodeResponse r) = Ok (mkResponse (r_OK r) (encodeValue <$> r_Result r) (r_Error r));
  value_roundtrip r v : representable r -> r_Result r = Some v -> decodeValue (encodeValue v) = Ok v;
  value_nonempty v : encodeValue v <> [];
  request_roundtrip method c : representableCommand method c ->
    decodeRequest (encodeRequest method (encodeParams c)) = Ok (method, encodeParams c);
  params_roundtrip method c : representableCommand method c -> decodeParams (encodeParams c) = Ok c;
  params_object c : encodeParams c <> [] /\ encodeParams c <> ["n"; "u"; "l"; "l"]%char;
  response_valid r : checkRaw (encodeResponse r) = None
}.

(** ** Lines *)

Lemma cutLine_line body rest : newlineByte ∉ body -> cutLine (body ++ newlineByte :: rest) = Some (body ++ [newlineByte], rest).
Proof.
  induction body as [|c body IH]; intros Hn; cbn; [done|]. destruct (Ascii.eqb_spec c newlineByte); [set_solver|].
  rewrite IH by set_solver. done.
Qed.

Lemma lineOf_line limit body final :
  newlineByte ∉ body -> (Z.of_nat (length body) < limit)%Z -> lineOf limit (body ++ [newlineByte]) final = Ok body.
Proof.
  intros Hn Hl. unfold lineOf. rewrite (cutLine_line body []) by done. rewrite length_app. cbn [length].
  rewrite (proj2 (Z.ltb_ge _ _)) by lia. f_equal.
  replace (length body + 1 - 1)%nat with (length body) by lia. apply take_app_length.
Qed.

Lemma readLine_reads limit chunks final :
  (0 <= limit)%Z -> is_sent BufioErrBufferFull final = false ->
  readLineBounded (S (length (concat chunks))) limit [] (newReader chunks final) = Some (lineOf limit (concat chunks) final).
Proof.
  intros Hlim Hf. rewrite readLineBounded_spec; [done| |unfold newReader, bufferSize; cbn; lia|done|done|done].
  unfold newReader, stream. cbn. lia.
Qed.

(** whatever pieces a connection delivers its bytes in, and however they
    fall into the reader's buffer, [readLineBounded] ends and returns the first
    line of the stream, the whole rest at an end of file, the connection's own
    error when it has no line, and refuses a line longer than the limit. *)
Theorem lines_are_read_as_written limit chunks final :
  (0 <= limit)%Z -> is_sent BufioErrBufferFull final = false ->
  readLineBounded (S (length (concat chunks))) limit [] (newReader chunks final) = Some (lineOf limit (concat chunks) final).
Proof. apply readLine_reads. Qed.

Section control.
Context {M : Type} {api : managerAPI M} {codec : Codec} {laws : CodecLaws codec}.

(** ** A connection *)

(** The command on a connection, when its request is whole and well formed. *)
Definition requested (c : connection) : option (string * bytes) :=
  match cn_deadline c with
  | Some _ => None
  | None =>
      match lineOf maxRequestBytes (concat (cn_chunks c)) (cn_final c) with
      | Err _ => None
      | Ok line =>
          match decodeRequest line with
          | Err _ => None
          | Ok (method, params) =>
              if String.eqb method "" || Nat.eqb (length params) 0 || bool_decide (params = ["n"; "u"; "l"; "l"]%char) then None
              else Some (method, params)
          end
      end
  end.

Definition a_line (w : bytes) : Prop := exists body, w = body ++ [newlineByte] /\ newlineByte ∉ body.

Lemma failureLine_line code message : a_line (failureLine code message).
Proof using laws. eexists. split; [done|]. apply response_line. Qed.

Lemma CallJSON_response method params m : exists r, (CallJSON method params m).2 = encodeResponse r.
Proof using Type.
  unfold CallJSON, CallJSONWithConfiguration, PrepareLogUpload, SnapshotContext, ConfigureContext, startContext, StopContext.
  unfold success, failed. repeat case_match; cbn; eauto.
Qed.

Lemma serveRequest_spec c m :
  is_sent BufioErrBufferFull (cn_final c) = false ->
  let '(m', commands, written, err) := serveRequest c m in
  commands = option_list (requested c) /\ length written <= 1 /\ Forall a_line written /\
  (cn_deadline c = None -> length written = 1) /\
  match requested c with
  | None => m' = m
  | Some (method, params) => (m', written) = ((CallJSON method params m).1, [(CallJSON method params m).2 ++ [newlineByte]])
  end.
Proof using laws.
  intros Hf. unfold serveRequest, requested. destruct (cn_deadline c); [split_and!; [done|cbn; lia|constructor|done|done]|].
  rewrite readLine_reads by (unfold maxRequestBytes; lia || done).
  assert (Hone : forall code message, Forall a_line [failureLine code message]) by (intros; repeat constructor; apply failureLine_line).
  destruct (lineOf _ _ _) as [line|err]; [|split_and!; [done|cbn; lia|apply Hone|done|done]].
  destruct (decodeRequest line) as [[method params]|err]; [|split_and!; [done|cbn; lia|apply Hone|done|done]].
  destruct (_ || _); [split_and!; [done|cbn; lia|apply Hone|done|done]|].
  destruct (CallJSON_response method params m) as [r Hr]. destruct (CallJSON method params m) as [m' response]. cbn in Hr. subst response.
  rewrite response_valid. cbn [fst snd]. split_and!; [done|cbn; lia| |done|done]. repeat constructor.
  eexists. split; [done|apply response_line].
Qed.
(** ** The manager behind a command *)

(** The method a command stands for, with the checks of its arguments. *)
Definition perform (method : string) (c : Command) (m : M) : M * result value gerr :=
  let generation '(m, r) :=
    (m, match r with Ok g => Ok (VGeneration (mkGeneration (gr_Generation g) (gr_Sequence g))) | Err e => Err e end) in
  if String.eqb method "Snapshot" then
    let '(m, r) := apiSnapshot (cm_SessionID c) m in
    (m, match r with Ok s => Ok (VSnapshot (SnapshotFrom s)) | Err e => Err e end)
  else if String.eqb method "Configure" then
    match nonNegative (cm_ExpectedSequence c) "configuration sequence" with
    | Err e => (m, Err e)
    | Ok sequence =>
        let '(m, r) := apiConfigure (cm_SessionID c) sequence (appendNil (cm_Source c)) m in
        (m, match r with Ok c => Ok (VConfiguration (ConfigurationFrom c)) | Err e => Err e end)
    end
  else if String.eqb method "Start" then
    match nonNegative (cm_ExpectedSequence c) "start sequence" with
    | Err e => (m, Err e)
    | Ok sequence =>
        if (cm_Index c <? 0)%Z && negb (String.eqb (cm_Mode c) "AUTO_SELECT")
        then (m, Err (failure FailureInvalidArgument "profile index must be non-negative"))
        else generation (apiStart (cm_SessionID c) sequence
               (mkStartTarget (StartModeOf (cm_Mode c)) (cm_Index c) (cm_ReplaceCurrent c) (cm_Digest c) (cm_Source c)) m)
    end
  else if String.eqb method "Stop" then
    if (cm_Generation c <=? 0)%Z then (m, Err (failure FailureStaleGeneration "generation must be positive"))
    else generation (apiStop (cm_SessionID c) (cm_Generation c) m)
  else if String.eqb method "PrepareLogUpload" then
    let '(m, r) := apiPrepareLogUpload (cm_SessionID c) (cm_Digest c) m in
    (m, match r with Ok u => Ok (VUpload u) | Err e => Err e end)
  else (m, Err (failure FailureInvalidArgument "unknown command")).

(** The response a result becomes, and what the client makes of it. *)
Definition responseOf (r : result value gerr) : Response value :=
  match r with
  | Ok v => mkResponse true (Some v) None
  | Err e => mkResponse false None (Some (mkFailure (FailureCode_string (CodeOf (Some e))) (failureText e)))
  end.

Definition answerOf (wanted : bool) (r : result value gerr) : result (option value) callError :=
  match r with
  | Ok v => Ok (if wanted then Some v else None)
  | Err e => Err (CallError (FailureCode_string (CodeOf (Some e))) (failureText e))
  end.

Lemma CallJSON_performs method c m :
  representableCommand method c ->
  CallJSON method (encodeParams c) m = ((perform method c m).1, encodeResponse (responseOf (perform method c m).2)).
Proof using Type.
  intros Hr. unfold CallJSON, CallJSONWithConfiguration. destruct (params_object c) as [Hne _].
  assert ((if encodeParams c is [] then Ok zeroCommand else decodeParams (encodeParams c)) = Ok c) as ->.
  { rewrite (params_roundtrip method c Hr). by destruct (encodeParams c). }
  unfold perform, PrepareLogUpload, SnapshotContext, ConfigureContext, startContext, StopContext, success, failed.
  destruct (String.eqb_spec method "PrepareLogUpload") as [->|_]; cbn [String.eqb Ascii.eqb Bool.eqb]; repeat case_match; simplify_eq; done.
Qed.

Lemma responseOf_answer r :
  representable (responseOf r) ->
  exists raw, decodeResponse (encodeResponse (responseOf r)) = Ok raw /\
    match r with
    | Ok v => r_OK raw = true /\ r_Result raw = Some (encodeValue v) /\ encodeValue v <> [] /\ decodeValue (encodeValue v) = Ok v
    | Err e => r_OK raw = false /\ r_Error raw = Some (mkFailure (FailureCode_string (CodeOf (Some e))) (failureText e))
    end.
Proof using Type.
  intros Hr. rewrite (response_roundtrip _ Hr). eexists. split; [done|]. destruct r as [v|e]; cbn; [|done].
  split_and!; [done|done|apply value_nonempty|]. by eapply value_roundtrip.
Qed.
End control.

(** C38: a connection runs at most one command, and only the one its whole
    request line within the limit asks for; the manager changes by that command
    alone.  At most one response is written, exactly one when the deadline could
    be set, as one line; the connection is closed once.  And connections reach
    the handler only when the system says the peer is the installed user. *)
Theorem only_authenticated_requests_run (M : Type) (api : managerAPI M) (codec : Codec) (laws : CodecLaws codec) policy events :
  (forall c m, c ∈ (Serve policy events).1.1 -> is_sent BufioErrBufferFull (cn_final c) = false ->
    (exists uid, expectedPeerUID policy = Ok uid /\ Accepted (Ok uid) c ∈ events) /\
    let s := ServeConn true c m in
    sv_commands s = option_list (requested c) /\ sv_closed s = 1 /\
    length (sv_written s) <= 1 /\ Forall a_line (sv_written s) /\ (cn_deadline c = None -> length (sv_written s) = 1) /\
    sv_manager s = match requested c with None => m | Some (method, params) => (CallJSON method params m).1 end) /\
  (forall c, c ∈ (Serve policy events).1.2 -> exists peer, Accepted peer c ∈ events /\ AuthenticateLocalPeer policy peer <> None).
Proof.
  split.
  - intros c m Hc Hf. split.
    + induction events as [|[err|peer c'] events IH]; cbn in Hc; [set_solver..|].
      destruct (Serve policy events) as [[handled rejected] ended]. unfold AuthenticateLocalPeer in Hc.
      destruct (expectedPeerUID policy) as [uid|err] eqn:Eu; [|destruct (IH Hc) as (u & ? & ?); done].
      destruct peer as [peer|err]; [|destruct (IH Hc) as (u & ? & ?); eexists; split; [done|set_solver]].
      destruct (Z.eqb_spec peer uid) as [->|]; [|destruct (IH Hc) as (u & ? & ?); eexists; split; [done|set_solver]].
      cbn in Hc. apply elem_of_cons in Hc as [->|Hc]; [exists uid; set_solver|].
      destruct (IH Hc) as (u & ? & ?). eexists. split; [done|set_solver].
    + unfold ServeConn. cbn. pose proof (serveRequest_spec c m Hf) as HS.
      destruct (serveRequest c m) as [[[m' commands] written] err]. destruct HS as (-> & Hlen & Hl & Hone & Hm). cbn.
      split_and!; try done. destruct (requested c) as [[method params]|]; [|done]. by injection Hm.
  - intros c Hc. induction events as [|[err|peer c'] events IH]; cbn in Hc; [set_solver..|].
    destruct (Serve policy events) as [[handled rejected] ended].
    destruct (AuthenticateLocalPeer policy peer) as [err|] eqn:Ea; cbn in Hc.
    + apply elem_of_cons in Hc as [->|Hc]; [exists peer; split; [set_solver|congruence]|].
      destruct (IH Hc) as (u & ? & ?). exists u. split; [set_solver|done].
    + destruct (IH Hc) as (u & ? & ?). exists u. split; [set_solver|done].
Qed.

(** C37: a command the client sends over a connection that loses nothing reaches
    the manager as the method and arguments it names, and the client gets back
    what the manager answered, value for value, or the code and the message of
    its failure; cut into whatever pieces either direction delivers. *)
Theorem command_reaches_the_manager_and_back (M : Type) (api : managerAPI M) (codec : Codec) (laws : CodecLaws codec)
    method c m sent final respond wanted :
  method <> "" -> representableCommand method c -> representable (responseOf (perform method c m).2) ->
  let request := encodeRequest method (encodeParams c) in
  let response := encodeResponse (responseOf (perform method c m).2) in
  (Z.of_nat (length request) < maxRequestBytes)%Z -> (Z.of_nat (length response) < maxRequestBytes)%Z ->
  concat sent = request ++ [newlineByte] -> is_sent BufioErrBufferFull final = false ->
  let s := ServeConn true (mkConnection None sent final None None) m in
  concat (respond (request ++ [newlineByte])).1 = concat (sv_written s) ->
  is_sent BufioErrBufferFull (respond (request ++ [newlineByte])).2 = false ->
  sv_written s = [response ++ [newlineByte]] /\ sv_err s = None /\
  sv_manager s = (perform method c m).1 /\
  Call wanted (Some None) respond None None method c = answerOf wanted (perform method c m).2.
Proof.
  cbv zeta. intros Hmethod Hcmd Hrep Hlreq Hlres Hsent Hfin Hback Hfin'.
  assert (Hserve : serveRequest (mkConnection None sent final None None) m =
    ((perform method c m).1, [(method, encodeParams c)], [encodeResponse (responseOf (perform method c m).2) ++ [newlineByte]], None)).
  { unfold serveRequest. cbn [cn_deadline cn_chunks cn_final cn_write]. rewrite readLine_reads by (unfold maxRequestBytes; lia || done).
    rewrite Hsent, lineOf_line by (apply request_line || done). rewrite (request_roundtrip method c Hcmd).
    destruct (params_object c) as [Hne Hnull].
    rewrite (proj2 (String.eqb_neq method "") Hmethod), bool_decide_false by done.
    rewrite (proj2 (Nat.eqb_neq _ _)) by (by intros ?%length_zero_iff_nil). cbn [orb].
    rewrite (CallJSON_performs method c m Hcmd). by rewrite response_valid. }
  unfold ServeConn in *. cbn [negb] in *. rewrite Hserve in *. cbn [sv_written sv_err sv_manager cn_close concat] in *.
  rewrite app_nil_r in Hback. split_and!; [done..|].
  unfold Call, callConn. destruct (respond _) as [chunks final'] eqn:Er. cbn [fst snd] in *.
  rewrite readLine_reads by (unfold maxRequestBytes; lia || done). rewrite Hback, lineOf_line by (apply response_line || done).
  destruct (responseOf_answer _ Hrep) as (raw & -> & Hraw). destruct (perform method c m) as [m' [v|e]]; cbn [fst snd] in *.
  - destruct Hraw as (-> & -> & Hne & Hv). cbn [negb]. destruct wanted; [|done]. cbn [negb]. destruct (encodeValue v) as [|b body] eqn:Ev; [done|]. by rewrite Hv.
  - destruct Hraw as (-> & ->). done.
Qed.

(** ** One stop command *)

Definition text (s : string) : bytes := String.list_ascii_of_string s.

Definition exampleCommand : Command := mkCommand "s" 0 3 None "" 0 false "".
Definition exampleValue : value := VGeneration (mkGeneration 3 9).
Definition exampleResponse : Response value := mkResponse true (Some exampleValue) None.

Definition staleResponse : Response value :=
  mkResponse false None (Some (mkFailure "STALE_GENERATION" "generation is not active for this session")).

(** An encoder that knows the texts of this exchange. *)
#[local] Instance exampleCodec : Codec := {|
  encodeResponse r := text (if r_OK r then "{ok:true,result:{generation:3,sequence:9}}" else "{ok:false}");
  decodeResponse b := if decide (b = text "{ok:true,result:{generation:3,sequence:9}}")
    then Ok (mkResponse true (Some (text "{generation:3,sequence:9}")) None)
    else if decide (b = text "{ok:false}") then Ok (mkResponse false None (r_Error staleResponse)) else Err (EText "invalid");
  encodeValue _ := text "{generation:3,sequence:9}";
  decodeValue b := if decide (b = text "{generation:3,sequence:9}") then Ok exampleValue else Err (EText "invalid");
  encodeRequest _ _ := text "{method:Stop,params:{session_id:s,generation:3}}";
  decodeRequest b := if decide (b = text "{method:Stop,params:{session_id:s,generation:3}}")
    then Ok ("Stop", text "{session_id:s,generation:3}") else Err (EText "invalid");
  encodeParams _ := text "{session_id:s,generation:3}";
  decodeParams b := if decide (b = text "{session_id:s,generation:3}") then Ok exampleCommand else Err (EText "invalid");
  checkRaw _ := None
|}.

#[local] Instance exampleLaws : CodecLaws exampleCodec.
Proof.
  refine {| representable r := r = exampleResponse \/ r = staleResponse; representableCommand method c := method = "Stop" /\ c = exampleCommand |}.
  - intros r. cbn. destruct (r_OK r); vm_compute; intros Hin; by repeat (apply elem_of_cons in Hin as [?|Hin]; [done|]); apply elem_of_nil in Hin.
  - intros method c. vm_compute. intros Hin. by repeat (apply elem_of_cons in Hin as [?|Hin]; [done|]); apply elem_of_nil in Hin.
  - by intros r [->| ->].
  - intros r v [->| ->] [= <-]. done.
  - done.
  - by intros method c [-> ->].
  - by intros method c [-> ->].
  - done.
  - done.
Defined.

(** A manager that counts the stops. *)
#[local] Instance exampleManager : managerAPI nat := {|
  apiConfigure _ _ _ m := (m, Err (failure FailureUnsupported ""));
  apiStart _ _ _ m := (m, Err (failure FailureUnsupported ""));
  apiStop _ generation m := (S m, Ok (mkGenerationResult generation 9));
  apiSnapshot _ m := (m, Err (failure FailureUnsupported ""));
  apiPrepareLogUpload _ _ m := (m, Err (failure FailureUnsupported ""))
|}.

Definition stopPieces : list bytes := [text "{method:Stop,params"; text ":{session_id:s,generation:3}}" ++ [newlineByte]; text "x"].
Definition stopConnection : connection := mkConnection None stopPieces (ESent IoEOF) None None.

Lemma lines_are_read_as_written_witness :
  readLineBounded (S (length (concat stopPieces))) 100 [] (newReader stopPieces (ESent IoEOF)) =
    Some (Ok (text "{method:Stop,params:{session_id:s,generation:3}}")).
Proof. rewrite (lines_are_read_as_written 100 stopPieces (ESent IoEOF)) by done. vm_compute. reflexivity. Defined.

Lemma only_authenticated_requests_run_witness :
  sv_commands (ServeConn true stopConnection 0) = [("Stop", text "{session_id:s,generation:3}")] /\
  sv_manager (ServeConn true stopConnection 0) = 1.
Proof.
  pose proof (only_authenticated_requests_run nat exampleManager exampleCodec exampleLaws
    (mkPeerPolicy "" 1000 (Ok 0%Z)) [Accepted (Ok 7%Z) stopConnection; Accepted (Ok 1000%Z) stopConnection]) as [HT _].
  destruct (HT stopConnection 0) as [_ (Hc & _ & _ & _ & _ & Hm)]; [vm_compute; left|done|].
  split; [etransitivity; [exact Hc|]|etransitivity; [exact Hm|]]; vm_compute; reflexivity.
Defined.

(** The manager of a process that has not started anything. *)
Definition freshManager : manager := NewManager "s" None true None (Ok "").
#[local] Instance realManager : managerAPI manager :=
  managerAlone 0 (fun _ => Err (EText "no source")) (fun _ => None) (Ok "reference").

Definition echo (_ : bytes) : list bytes * gerr := ([encodeResponse staleResponse; [newlineByte]], ESent IoEOF).

(** The client learns that the generation it wants to stop is not there. *)
Lemma command_reaches_the_manager_and_back_witness :
  Call true (Some None) echo None None "Stop" exampleCommand =
    Err (CallError "STALE_GENERATION" "generation is not active for this session").
Proof.
  refine (eq_trans (proj2 (proj2 (proj2 (command_reaches_the_manager_and_back manager realManager exampleCodec exampleLaws
    "Stop" exampleCommand freshManager [encodeRequest "Stop" (encodeParams exampleCommand) ++ [newlineByte]] (ESent IoEOF)
    echo true _ (conj eq_refl eq_refl) _ _ _ _ _ _ _)))) _).
  all: first [right; vm_compute; reflexivity | vm_compute; reflexivity | vm_compute; congruence].
Defined.
