(* ===== verification/Xray.v ===== *)
(** * The Xray device (core/xray/xray_device.go, internal/config.go, utils.go,
    dialer_owner.go)

    The configuration an Xray instance is given, the local port of its SOCKS
    inbound, and the devices of the process.  Xray's system dialer and resolver
    are process globals, so a device opens only while it holds the one lock and
    gives it back when its transports are retired; what retiring does to the
    sockets is [Transports].  The runtime calls one device from under its own
    lock: calls of one device follow each other, those of several devices
    interleave. *)

From S2P Require Import Prelude Errors Values GoStrings.
From Stdlib Require Import Ascii.
Local Open Scope string_scope.
Local Open Scope list_scope.

(** ** Log levels *)

Inductive severity := SeverityUnknown | SeverityError | SeverityWarning | SeverityInfo | SeverityDebug.

#[export] Instance severity_eq_dec : EqDecision severity.
Proof. solve_decision. Defined.

(** [strings.ToLower], right on the texts it turns into ASCII words: besides the
    ASCII capitals U+0130 becomes i and U+212A becomes k. *)
Fixpoint lowerWord (s : string) : string :=
  match s with
  | EmptyString => EmptyString
  | String a s =>
      match nat_of_ascii a, s with
      | 196, String b s' =>
          if (nat_of_ascii b =? 176)%nat then String "i" (lowerWord s') else String a (lowerWord s)
      | 226, String b (String c s') =>
          if (nat_of_ascii b =? 132)%nat && (nat_of_ascii c =? 170)%nat
          then String "k" (lowerWord s') else String a (lowerWord s)
      | _, _ => String (lower a) (lowerWord s)
      end
  end.

Definition defaultXrayLogLevelName : string := "debug".
Definition DefaultXrayLogLevel : severity := SeverityDebug.
Definition NoXrayLogLevel : severity := SeverityUnknown.

Definition XrayLogLevelName (level : severity) : string :=
  match level with
  | SeverityDebug => defaultXrayLogLevelName
  | SeverityInfo => "info"
  | SeverityWarning => "warning"
  | SeverityError => "error"
  | SeverityUnknown => "none"
  end.

Definition is_nil (v : any) : bool := match v with ANil => true | _ => false end.

Definition ExtractLogLevel (config : fields) : result severity gerr :=
  if is_nil (field "log" config) then Ok DefaultXrayLogLevel
  else
    match field "log" config with
    | AMap log =>
        if is_nil (field "loglevel" log) then Ok DefaultXrayLogLevel
        else
          match field "loglevel" log with
          | AString loglevel =>
              let level := lowerWord loglevel in
              if String.eqb level defaultXrayLogLevelName then Ok SeverityDebug
              else if String.eqb level "info" then Ok SeverityInfo
              else if String.eqb level "warning" then Ok SeverityWarning
              else if String.eqb level "error" then Ok SeverityError
              else if String.eqb level "none" then Ok SeverityUnknown
              else Err (EText ("unrecognized log level " +:+ quoted loglevel +:+ ", choose between debug|info|warning|error|none"))
          | _ => Err (EText "could not find log level in config")
          end
    | _ => Err (EText "could not find log level in config")
    end.

(** The level [Open] gives the log bridge. *)
Definition openLogLevel (config : fields) : severity :=
  match ExtractLogLevel config with
  | Err _ => DefaultXrayLogLevel
  | Ok level => if bool_decide (level = NoXrayLogLevel) then DefaultXrayLogLevel else level
  end.

(** ** The configuration *)

Definition ensureXrayLogConfig (userConfig : fields) : fields :=
  let logConfig := match field "log" userConfig with AMap log => log | _ => [] end in
  let level := match field "loglevel" logConfig with AString level => level | _ => "" end in
  let normalizedLevel := lowerWord level in
  let logConfig :=
    if String.eqb normalizedLevel defaultXrayLogLevelName || String.eqb normalizedLevel "info"
       || String.eqb normalizedLevel "warning" || String.eqb normalizedLevel "error"
    then if String.eqb level normalizedLevel then logConfig
         else set_field "loglevel" (AString normalizedLevel) logConfig
    else set_field "loglevel" (AString defaultXrayLogLevelName) logConfig in
  set_field "log" (AMap logConfig) userConfig.

Definition socksInbound (socksListen : string) (socksPort : Z) (user pass : string) : any :=
  AMap [("tag", AString "socks-in"); ("protocol", AString "socks"); ("listen", AString socksListen);
        ("port", AInt socksPort);
        ("settings", AMap [("auth", AString "password");
                           ("accounts", AMapSlice [[("user", AString user); ("pass", AString pass)]]);
                           ("udp", ABool true); ("ip", AString socksListen)]);
        ("sniffing", AMap [("enabled", ABool true); ("destOverride", AStringSlice ["http"; "tls"; "quic"])])].

(** What encoding the document, decoding it by Xray and building it answer. *)
Record buildAnswer := mkBuildAnswer { ba_marshal : option gerr; ba_decode : option gerr; ba_build : option gerr }.

(** The document whose build the instance gets. *)
Definition GenerateXrayConfig (dnsCache : bool) (accepted : fields) (socksListen : string) (socksPort : Z)
    (user pass : string) (answer : buildAnswer) : result fields gerr :=
  if negb dnsCache then Err (EText "DNS cache is required")
  else
    let userConfig := CloneFields accepted in
    let socksListen := if String.eqb socksListen "" then "127.0.0.1" else socksListen in
    if ((socksPort <=? 0) || (65535 <? socksPort))%Z then Err (EText ("invalid socksPort=" +:+ Itoa socksPort))
    else
      let userConfig := delete_field "routing" userConfig in
      let userConfig := set_field "inbounds" (ASlice [socksInbound socksListen socksPort user pass]) userConfig in
      let userConfig := ensureXrayLogConfig userConfig in
      match ba_marshal answer, ba_decode answer, ba_build answer with
      | Some err, _, _ => Err (EWrap "failed to marshal config" err)
      | None, Some err, _ => Err (EWrap "failed to decode xray json config" err)
      | None, None, Some err => Err err
      | None, None, None => Ok userConfig
      end.

(** ** A device *)

(** One try for a port: the UDP listener's port, then a TCP listener on it;
    both are closed again. *)
Record portAttempt := mkPortAttempt { pa_udp : result Z gerr; pa_tcp : option gerr }.

Fixpoint allocateFrom (tries attempt : nat) (attempts : nat -> portAttempt) (lastErr : gerr) : result Z gerr :=
  match tries with
  | O => Err (EWrap "no TCP/UDP localhost port available after 100 attempts" lastErr)
  | S tries =>
      match pa_udp (attempts attempt) with
      | Err err => allocateFrom tries (S attempt) attempts err
      | Ok port =>
          match pa_tcp (attempts attempt) with
          | Some err => allocateFrom tries (S attempt) attempts err
          | None => Ok port
          end
      end
  end.

Definition allocateLocalSocksPort (attempts : nat -> portAttempt) : result Z gerr :=
  allocateFrom 100 1 attempts (EText "no allocation attempts").

(** Where the last call of a device is. *)
Inductive xrayPlace :=
| XrayMade
| XrayOpened (res : option gerr)
| XrayClosed (res : option gerr)
| OpenGenerates
| OpenCreates (document : fields)
| OpenStarts
| CloseInstance
| CloseRetires.

(** [xd_instance] and [xd_retire]: [xrayInstance] and [retireDialer] are not
    nil. *)
Record xrayDevice := mkXrayDevice {
  xd_config : fields;
  xd_proxyAddr : string;
  xd_svrPort : Z;
  xd_socksUser : string;
  xd_socksPass : string;
  xd_canceled : bool;
  xd_instance : bool;
  xd_retire : bool;
  xd_place : xrayPlace
}.
#[export] Instance eta_xrayDevice : Settable xrayDevice := fun x =>
  mkXrayDevice (xd_config x) (xd_proxyAddr x) (xd_svrPort x) (xd_socksUser x) (xd_socksPass x) (xd_canceled x)
    (xd_instance x) (xd_retire x) (xd_place x).

Definition NewXrayDevice (config : fields) (dnsCache : bool) (attempts : nat -> portAttempt)
    (socksUser socksPass : string) : result xrayDevice gerr :=
  if negb dnsCache then Err (EText "DNS cache is required")
  else
    match allocateLocalSocksPort attempts with
    | Err err => Err (EWrap "failed to allocate local port" err)
    | Ok port =>
        Ok (mkXrayDevice config (socksUser +:+ ":" +:+ socksPass +:+ "@127.0.0.1:" +:+ Itoa port) port socksUser socksPass
              false false false XrayMade)
    end.

(** A nil device has no endpoint. *)
Definition GetProxyAddr (d : option xrayDevice) : string := match d with Some d => xd_proxyAddr d | None => "" end.

(** ** The devices of the process *)

(** The calls of Xray. *)
Inductive xrayEvent :=
| InstanceCreated (id : nat) (document : fields)
| InstanceStarted (id : nat)
| InstanceClosed (id : nat).

(** [xw_owner] is [instanceOwner], [xw_dialer] and [xw_dns] the devices whose
    dialer and resolver are installed, [xw_level] the log bridge's level; the
    trace is newest first. *)
Record xrayWorld := mkXrayWorld {
  xw_owner : bool;
  xw_devices : gmap nat xrayDevice;
  xw_dialer : option nat;
  xw_dns : option nat;
  xw_level : option severity;
  xw_trace : list xrayEvent
}.
#[export] Instance eta_xrayWorld : Settable xrayWorld := fun x =>
  mkXrayWorld (xw_owner x) (xw_devices x) (xw_dialer x) (xw_dns x) (xw_level x) (xw_trace x).

Definition noXray : xrayWorld := mkXrayWorld false ∅ None None None [].

Definition putDevice (id : nat) (d : xrayDevice) (w : xrayWorld) : xrayWorld := w <| xw_devices ::= <[id := d]> |>.

Definition opened (res : option gerr) (id : nat) (d : xrayDevice) (w : xrayWorld) : xrayWorld :=
  putDevice id (d <| xd_place := XrayOpened res |>) w.
Definition closed (res : option gerr) (id : nat) (d : xrayDevice) (w : xrayWorld) : xrayWorld :=
  putDevice id (d <| xd_place := XrayClosed res |>) w.

(** [InstallProtectedSystemDialer] and the function it returns, once the sockets
    are closed; [BindUnderlyingDNS]. *)
Definition installDialer (id : nat) (w : xrayWorld) : xrayWorld := w <| xw_dialer := Some id |>.
Definition resetDialer (w : xrayWorld) : xrayWorld := w <| xw_dialer := None |> <| xw_dns := None |>.
Definition BindUnderlyingDNS (id : nat) (w : xrayWorld) : xrayWorld := w <| xw_dns := Some id |>.

(** [Open] up to the generation of the configuration. *)
Definition openBegin (id : nat) (d : xrayDevice) (w : xrayWorld) : xrayWorld :=
  if xd_retire d then opened (Some (EText "xray instance is already owned")) id d w
  else if xw_owner w then opened (Some (EText "another Xray instance owns the process dialer")) id d w
  else
    putDevice id (d <| xd_retire := true |> <| xd_place := OpenGenerates |>)
      (installDialer id (w <| xw_owner := true |>)) <| xw_level := Some (openLogLevel (xd_config d)) |>.

(** [CloseContext] up to its first wait. *)
Definition closeBegin (id : nat) (d : xrayDevice) (w : xrayWorld) : xrayWorld :=
  let d := d <| xd_canceled := true |> in
  if xd_instance d then putDevice id (d <| xd_place := CloseInstance |>) w
  else if xd_retire d then putDevice id (d <| xd_place := CloseRetires |>) w
  else closed None id d w.

Inductive xrayAnswer := Builds (answer : buildAnswer) | Answers (err : option gerr).

(** [None]: unlocking a mutex that is not locked ends the process. *)
Definition device_step (id : nat) (answer : xrayAnswer) (d : xrayDevice) (w : xrayWorld) : option xrayWorld :=
  match xd_place d, answer with
  | OpenGenerates, Builds answer =>
      match GenerateXrayConfig true (xd_config d) "127.0.0.1" (xd_svrPort d) (xd_socksUser d) (xd_socksPass d) answer with
      | Err err => Some (opened (Some (EWrap "failed to generate xray config" err)) id d w)
      | Ok document => Some (putDevice id (d <| xd_place := OpenCreates document |>) w)
      end
  | OpenCreates document, Answers (Some err) => Some (opened (Some (EWrap "failed to create xray instance" err)) id d w)
  | OpenCreates document, Answers None =>
      Some (BindUnderlyingDNS id (putDevice id (d <| xd_instance := true |> <| xd_place := OpenStarts |>) w)
              <| xw_trace ::= cons (InstanceCreated id document) |>)
  | OpenStarts, Answers (Some err) => Some (opened (Some (EWrap "failed to start xray" err)) id d w)
  | OpenStarts, Answers None => Some (opened None id d w <| xw_trace ::= cons (InstanceStarted id) |>)
  | CloseInstance, Answers (Some err) => Some (closed (Some (EWrap "failed to close xray instance" err)) id d w)
  | CloseInstance, Answers None =>
      let d := d <| xd_instance := false |> in
      let w := w <| xw_trace ::= cons (InstanceClosed id) |> in
      Some (if xd_retire d then putDevice id (d <| xd_place := CloseRetires |>) w else closed None id d w)
  | CloseRetires, Answers (Some err) => Some (closed (Some (EWrap "failed to retire Xray transports" err)) id d w)
  | CloseRetires, Answers None =>
      if xw_owner w then Some (closed None id (d <| xd_retire := false |>) (resetDialer (w <| xw_owner := false |>)))
      else None
  | _, _ => Some w
  end.

(** The operations; the methods of a device that was not made only report that
    it is nil. *)
Inductive xrayOp :=
| XrayNew (id : nat) (config : fields) (dnsCache : bool) (attempts : nat -> portAttempt) (socksUser socksPass : string)
| XrayOpen (id : nat)
| XrayClose (id : nat)
| XrayStep (id : nat) (answer : xrayAnswer).

Definition atRest (d : xrayDevice) : bool := match xd_place d with XrayMade | XrayOpened _ | XrayClosed _ => true | _ => false end.

Definition xray_step (op : xrayOp) (w : xrayWorld) : option xrayWorld :=
  match op with
  | XrayNew id config dnsCache attempts socksUser socksPass =>
      match xw_devices w !! id, NewXrayDevice config dnsCache attempts socksUser socksPass with
      | None, Ok d => Some (putDevice id d w)
      | _, _ => Some w
      end
  | XrayOpen id =>
      match xw_devices w !! id with
      | Some d => Some (if atRest d then openBegin id d w else w)
      | None => Some w
      end
  | XrayClose id =>
      match xw_devices w !! id with
      | Some d => Some (if atRest d then closeBegin id d w else w)
      | None => Some w
      end
  | XrayStep id answer =>
      match xw_devices w !! id with Some d => device_step id answer d w | None => Some w end
  end.

Fixpoint xray_run (ops : list xrayOp) (w : xrayWorld) : option xrayWorld :=
  match ops with
  | [] => Some w
  | op :: ops => match xray_step op w with Some w => xray_run ops w | None => None end
  end.
