(* ===== verification/XrayTheorems.v ===== *)
(** * What the Xray device guarantees

    The configuration of an instance is confined to the device's own inbound,
    and the process runs one instance at a time, with its own dialer and
    resolver. *)

From S2P Require Import Prelude Errors Values GoStrings Xray.
From Stdlib Require Import Ascii.
Local Open Scope string_scope.
Local Open Scope list_scope.

(** ** The configuration *)

Lemma lookup_delete key key' m :
  lookup_field key' (delete_field key m) = if String.eqb key key' then None else lookup_field key' m.
Proof.
  unfold delete_field. induction m as [|[k v] m IH]; simpl; [by destruct (String.eqb key key')|].
  destruct (String.eqb_spec k key) as [->|Hk]; simpl; rewrite ?IH.
  - by destruct (String.eqb key key').
  - destruct (String.eqb_spec k key') as [->|]; [|done]. destruct (String.eqb_spec key key'); [congruence|done].
Qed.

Lemma field_set_eq key v m : field key (set_field key v m) = v.
Proof. unfold field. by rewrite lookup_set_field, String.eqb_refl. Qed.

(** The level an Xray configuration names and the level of the log bridge. *)
Lemma ensureXrayLogConfig_level config userConfig :
  field "log" userConfig = cloneValue (field "log" config) ->
  exists log, field "log" (ensureXrayLogConfig userConfig) = AMap log /\
    field "loglevel" log = AString (XrayLogLevelName (openLogLevel config)).
Proof.
  intros Hlog. unfold ensureXrayLogConfig, openLogLevel, ExtractLogLevel. rewrite Hlog.
  cbv zeta.
  match goal with |- context [set_field "log" (AMap ?log) _] => exists log end. split; [apply field_set_eq|].
  destruct (field "log" config) as [| | | | | |m| | | |]; cbn [is_nil cloneValue]; try reflexivity.
  change (map _ m) with (CloneFields m).
  assert (field "loglevel" (CloneFields m) = cloneValue (field "loglevel" m)) as ->
    by (unfold field; rewrite lookup_CloneFields; by destruct (lookup_field "loglevel" m)).
  destruct (field "loglevel" m) as [|level| | | | | | | | |] eqn:El; cbn [is_nil cloneValue];
    try reflexivity.
  assert (field "loglevel" (CloneFields m) = AString level) as Hc
    by (unfold field in *; rewrite lookup_CloneFields; by destruct (lookup_field "loglevel" m); cbn in El; subst).
  cbv zeta.
  assert (forall word, lowerWord level = word ->
    field "loglevel" (if String.eqb level word then CloneFields m else set_field "loglevel" (AString word) (CloneFields m)) = AString word)
    as Hkeep by (intros word _; destruct (String.eqb_spec level word) as [->|]; [done|apply field_set_eq]).
  repeat match goal with
  | |- context [String.eqb (lowerWord level) ?w] => destruct (String.eqb_spec (lowerWord level) w) as [Hw|]
  end; cbn [orb]; rewrite ?field_set_eq; try reflexivity; try congruence; rewrite Hw; by apply Hkeep.
Qed.

(** What an instance is given: one inbound, on the loopback, that asks for the
    device's credentials; no routing rules of the document's; the log level of
    the bridge; all else is the accepted document. *)
Record confined (d : xrayDevice) (document : fields) : Prop := mkConfined {
  cf_inbounds : field "inbounds" document =
    ASlice [socksInbound "127.0.0.1" (xd_svrPort d) (xd_socksUser d) (xd_socksPass d)];
  cf_port : (0 < xd_svrPort d <= 65535)%Z;
  cf_routing : lookup_field "routing" document = None;
  cf_level : exists log, field "log" document = AMap log /\
    field "loglevel" log = AString (XrayLogLevelName (openLogLevel (xd_config d)));
  cf_others : forall key, ~ In key ["inbounds"; "routing"; "log"] ->
    lookup_field key document = option_map cloneValue (lookup_field key (xd_config d))
}.

Lemma GenerateXrayConfig_confined d answer document :
  GenerateXrayConfig true (xd_config d) "127.0.0.1" (xd_svrPort d) (xd_socksUser d) (xd_socksPass d) answer = Ok document ->
  confined d document.
Proof.
  unfold GenerateXrayConfig. cbn [negb String.eqb]. destruct (_ || _) eqn:Hport; [done|].
  apply orb_false_iff in Hport as [H1%Z.leb_gt H2%Z.ltb_ge]. cbv zeta. change (String.eqb "127.0.0.1" "") with false. cbv iota.
  set (userConfig := set_field "inbounds" _ _).
  destruct (ba_marshal answer), (ba_decode answer), (ba_build answer); try done. intros [= <-].
  assert (forall key, String.eqb "log" key = false -> lookup_field key (ensureXrayLogConfig userConfig) = lookup_field key userConfig) as He.
  { intros key Hk. unfold ensureXrayLogConfig. cbv zeta. by rewrite lookup_set_field, Hk. }
  constructor; [|lia| | |].
  - unfold field. rewrite He by done. by subst userConfig; rewrite lookup_set_field.
  - rewrite He by done. subst userConfig. by rewrite lookup_set_field, lookup_delete.
  - apply ensureXrayLogConfig_level. subst userConfig. unfold field.
    rewrite lookup_set_field, lookup_delete. cbn [String.eqb Ascii.eqb Bool.eqb]. rewrite lookup_CloneFields.
    by destruct (lookup_field "log" (xd_config d)).
  - intros key Hk. cbn in Hk. repeat apply Decidable.not_or in Hk as [? Hk].
    rewrite He by (by apply String.eqb_neq). subst userConfig.
    rewrite lookup_set_field, (proj2 (String.eqb_neq _ _)), lookup_delete, (proj2 (String.eqb_neq _ _)) by done.
    apply lookup_CloneFields.
Qed.

(** ** The port *)

Lemma allocateFrom_free tries attempt attempts lastErr port :
  allocateFrom tries attempt attempts lastErr = Ok port ->
  exists i, attempt <= i < attempt + tries /\ pa_udp (attempts i) = Ok port /\ pa_tcp (attempts i) = None.
Proof.
  revert attempt lastErr. induction tries as [|tries IH]; intros attempt lastErr; cbn; [done|].
  assert (forall err, allocateFrom tries (S attempt) attempts err = Ok port ->
    exists i, attempt <= i < attempt + S tries /\ pa_udp (attempts i) = Ok port /\ pa_tcp (attempts i) = None) as Hgo.
  { intros err (i & ? & ?)%IH. exists i. split; [lia|done]. }
  destruct (pa_udp _) as [p|] eqn:Hu; [|by apply Hgo]. destruct (pa_tcp _) eqn:Ht; [by apply Hgo|].
  intros [= ->]. exists attempt. split; [lia|done].
Qed.

Lemma allocateLocalSocksPort_free attempts port :
  allocateLocalSocksPort attempts = Ok port ->
  exists i, 1 <= i <= 100 /\ pa_udp (attempts i) = Ok port /\ pa_tcp (attempts i) = None.
Proof.
  unfold allocateLocalSocksPort. generalize 100 (EText "no allocation attempts"). intros tries err.
  intros (i & ? & ?)%allocateFrom_free. exists i. split; [lia|done].
Qed.

(** The port of a device was free for both protocols in one of a hundred tries,
    and its endpoint names it with its credentials. *)
Lemma NewXrayDevice_endpoint config dnsCache attempts user pass d :
  NewXrayDevice config dnsCache attempts user pass = Ok d ->
  (exists i, 1 <= i <= 100 /\ pa_udp (attempts i) = Ok (xd_svrPort d) /\ pa_tcp (attempts i) = None) /\
  GetProxyAddr (Some d) = xd_socksUser d +:+ ":" +:+ xd_socksPass d +:+ "@127.0.0.1:" +:+ Itoa (xd_svrPort d).
Proof.
  unfold NewXrayDevice. destruct dnsCache; [|done]. cbn [negb].
  destruct (allocateLocalSocksPort attempts) as [port|] eqn:E; [|done]. intros [= <-].
  split; [exact (allocateLocalSocksPort_free _ _ E)|reflexivity].
Qed.

(** ** The devices *)

(** The instances that were created and not closed since. *)
Fixpoint live (trace : list xrayEvent) : gset nat :=
  match trace with
  | [] => ∅
  | InstanceCreated id _ :: trace => {[id]} ∪ live trace
  | InstanceStarted _ :: trace => live trace
  | InstanceClosed id :: trace => live trace ∖ {[id]}
  end.

(** Every instance was created when no other was there. *)
Fixpoint created_alone (trace : list xrayEvent) : Prop :=
  match trace with
  | [] => True
  | InstanceCreated _ _ :: trace => live trace = ∅ /\ created_alone trace
  | _ :: trace => created_alone trace
  end.

Definition place_fits (d : xrayDevice) : Prop :=
  match xd_place d with
  | XrayMade | XrayClosed None => xd_retire d = false /\ xd_instance d = false
  | XrayOpened _ | XrayClosed (Some _) => True
  | OpenGenerates => xd_retire d = true /\ xd_instance d = false
  | OpenCreates document => xd_retire d = true /\ xd_instance d = false /\ confined d document
  | OpenStarts => xd_retire d = true /\ xd_instance d = true
  | CloseInstance => xd_retire d = true /\ xd_instance d = true
  | CloseRetires => xd_retire d = true /\ xd_instance d = false
  end.

Record device_fits (w : xrayWorld) (id : nat) (d : xrayDevice) : Prop := mkDeviceFits {
  df_dialer : xd_retire d = true <-> xw_dialer w = Some id;
  df_live : id ∈ live (xw_trace w) <-> xd_instance d = true;
  df_dns : xd_instance d = true -> xd_retire d = true /\ xw_dns w = Some id;
  df_level : xd_retire d = true -> xw_level w = Some (openLogLevel (xd_config d));
  df_place : place_fits d
}.

Definition event_fits (w : xrayWorld) (e : xrayEvent) : Prop :=
  match e with
  | InstanceCreated id document => exists d, xw_devices w !! id = Some d /\ confined d document
  | _ => True
  end.

Record XInv (w : xrayWorld) : Prop := mkXInv {
  xi_devices : forall id d, xw_devices w !! id = Some d -> device_fits w id d;
  xi_owner : xw_owner w = true <-> is_Some (xw_dialer w);
  xi_dialer : forall id, xw_dialer w = Some id -> is_Some (xw_devices w !! id);
  xi_dns : forall id, xw_dns w = Some id -> xw_dialer w = Some id;
  xi_live : forall id, id ∈ live (xw_trace w) -> is_Some (xw_devices w !! id);
  xi_alone : created_alone (xw_trace w);
  xi_events : Forall (event_fits w) (xw_trace w)
}.

Lemma XInv_new : XInv noXray.
Proof. constructor; cbn; done. Qed.

(** What a device is made with stays. *)
Definition same_device (d d' : xrayDevice) : Prop :=
  xd_config d' = xd_config d /\ xd_svrPort d' = xd_svrPort d /\ xd_socksUser d' = xd_socksUser d /\ xd_socksPass d' = xd_socksPass d.

Lemma confined_same d d' document : same_device d d' -> confined d document -> confined d' document.
Proof. intros (E1 & E2 & E3 & E4) [H1 H2 H3 H4 H5]. constructor; rewrite ?E1, ?E2, ?E3, ?E4; done. Qed.

Lemma events_fit_put id d d' w w' trace :
  xw_devices w !! id = Some d -> same_device d d' -> xw_devices w' = <[id := d']> (xw_devices w) ->
  Forall (event_fits w) trace -> Forall (event_fits w') trace.
Proof.
  intros Hd Hs E HF. eapply Forall_impl; [exact HF|]. intros [id' document| |]; cbn; try done. intros (d0 & H0 & Hc). rewrite E.
  destruct (decide (id' = id)) as [->|]; [|exists d0; by rewrite lookup_insert_ne].
  exists d'. rewrite lookup_insert_eq. split; [done|]. eapply confined_same; [exact Hs|]. congruence.
Qed.

Ltac events_fit := eapply events_fit_put; [eassumption| |reflexivity|eassumption]; done.

(** Only the places of one device change. *)
Lemma XInv_place id d d' w :
  XInv w -> xw_devices w !! id = Some d -> same_device d d' -> xd_instance d' = xd_instance d -> xd_retire d' = xd_retire d ->
  place_fits d' -> XInv (putDevice id d' w).
Proof.
  intros Hi Hd Hs Einst Eret Hp. pose proof Hi as [H1 H2 H3 H4 H5 H6 H7]. constructor; cbn; try done.
  - intros id' d0 [[-> <-]|[Hne H0]]%lookup_insert_Some; [|by destruct (H1 id' d0 H0); constructor].
    destruct (H1 id' d Hd) as [G1 G2 G3 G4 G5]. constructor; cbn; rewrite ?Einst, ?Eret; try done.
    destruct Hs as (-> & _). done.
  - intros id' Hx. destruct (H3 id' Hx) as [x Hx']. destruct (decide (id' = id)) as [->|];
      [by rewrite lookup_insert_eq|by rewrite lookup_insert_ne; [exists x|]].
  - intros id' Hx. destruct (H5 id' Hx) as [x Hx']. destruct (decide (id' = id)) as [->|];
      [by rewrite lookup_insert_eq|by rewrite lookup_insert_ne; [exists x|]].
  - events_fit.
Qed.

Lemma XInv_started id w : XInv w -> XInv (w <| xw_trace ::= cons (InstanceStarted id) |>).
Proof.
  intros [H1 H2 H3 H4 H5 H6 H7]. constructor; cbn; try done; [|by constructor].
  intros id' d Hd. destruct (H1 id' d Hd). by constructor.
Qed.

Lemma XInv_make id d w :
  XInv w -> xw_devices w !! id = None -> xd_place d = XrayMade -> xd_retire d = false -> xd_instance d = false ->
  XInv (putDevice id d w).
Proof.
  intros [H1 H2 H3 H4 H5 H6 H7] Hd Hp Hr Hn.
  assert (forall id', is_Some (xw_devices w !! id') -> is_Some (<[id := d]> (xw_devices w) !! id')) as Hmono.
  { intros id' [x Hx]. rewrite lookup_insert_ne by congruence. by exists x. }
  constructor; cbn; try done; [|intros; apply Hmono; auto..|].
  - intros id' d0 [[-> <-]|[Hne H0]]%lookup_insert_Some; [|by destruct (H1 id' d0 H0); constructor].
    constructor; rewrite ?Hr, ?Hn; try done.
    + split; [done|]. intros Hx%H3. rewrite Hd in Hx. by destruct Hx.
    + split; [|done]. intros Hx%H5. rewrite Hd in Hx. by destruct Hx.
    + unfold place_fits. by rewrite Hp.
  - apply Forall_forall. intros [id' document| |] He; cbn; try done.
    apply (proj1 (Forall_forall _ _) H7) in He as (d0 & H0 & Hc). exists d0. by rewrite lookup_insert_ne by congruence.
Qed.

Lemma live_dialer w id : XInv w -> id ∈ live (xw_trace w) -> xw_dialer w = Some id.
Proof.
  intros Hi Hl. destruct (xi_live w Hi id Hl) as [d Hd]. destruct (xi_devices w Hi id d Hd) as [G1 G2 G3 _ _].
  apply G1, G3, G2, Hl.
Qed.

(** The devices other than [id] see no difference. *)
Lemma device_fits_other w w' id id' d :
  XInv w -> xw_devices w !! id' = Some d -> id' <> id -> (xw_dialer w = None \/ xw_dialer w = Some id) ->
  (xw_dialer w' = None \/ xw_dialer w' = Some id) -> id' ∉ live (xw_trace w') -> device_fits w' id' d.
Proof.
  intros Hi Hd Hne Hw Hw' Hl. destruct (xi_devices w Hi id' d Hd) as [G1 G2 G3 G4 G5].
  assert (xd_retire d <> true) as Hr by (rewrite G1; destruct Hw; congruence).
  assert (xd_instance d <> true) as Hn by (intros [? _]%G3; done).
  constructor; [|tauto..|done]. split; [tauto|]. destruct Hw'; congruence.
Qed.

Lemma XInv_open id d w :
  XInv w -> xw_devices w !! id = Some d -> XInv (openBegin id d w).
Proof.
  intros Hi Hd. unfold openBegin. destruct (xd_retire d) eqn:Hr; [by eapply XInv_place|].
  destruct (xw_owner w) eqn:Ho; [by eapply XInv_place|].
  assert (xw_dialer w = None) as Hdial by (destruct (xw_dialer w) eqn:E; [|done]; destruct (xi_owner w Hi) as [_ Hx]; rewrite E in Hx; rewrite Hx in Ho; done).
  assert (live (xw_trace w) = ∅) as Hlive by (apply elem_of_equiv_empty_L; intros x Hx%live_dialer; congruence).
  assert (xd_instance d = false) as Hn by (destruct (xd_instance d) eqn:E; [|done]; destruct (df_dns _ _ _ (xi_devices w Hi id d Hd) E); congruence).
  pose proof Hi as [H1 H2 H3 H4 H5 H6 H7]. constructor; cbn; try done.
  - intros id' d0 [[-> <-]|[Hne H0]]%lookup_insert_Some.
    + constructor; cbn; try done; rewrite ?Hn, ?Hlive; [set_solver|done..].
    + eapply (device_fits_other w _ id); [done..|by left|by right|]. cbn. rewrite Hlive. set_solver.
  - by intros id' [= <-]; rewrite lookup_insert_eq.
  - intros id' Hx%H4. congruence.
  - rewrite Hlive. set_solver.
  - events_fit.
Qed.

Lemma XInv_create id d document w :
  XInv w -> xw_devices w !! id = Some d -> xd_place d = OpenCreates document ->
  XInv (BindUnderlyingDNS id (putDevice id (d <| xd_instance := true |> <| xd_place := OpenStarts |>) w)
          <| xw_trace ::= cons (InstanceCreated id document) |>).
Proof.
  intros Hi Hd Hp. destruct (xi_devices w Hi id d Hd) as [G1 G2 G3 G4 G5]. unfold place_fits in G5. rewrite Hp in G5.
  destruct G5 as (Hr & Hn & Hc).
  assert (live (xw_trace w) = ∅) as Hlive.
  { apply elem_of_equiv_empty_L. intros x Hx. pose proof (live_dialer w x Hi Hx). pose proof (proj1 G1 Hr).
    assert (x = id) as -> by congruence. apply G2 in Hx. congruence. }
  pose proof Hi as [H1 H2 H3 H4 H5 H6 H7]. constructor; cbn; try done.
  - intros id' d0 [[-> <-]|[Hne H0]]%lookup_insert_Some.
    + constructor; cbn; try done; rewrite ?Hlive; set_solver.
    + eapply (device_fits_other w _ id); [done..|right; by apply G1|right; by apply G1|]. cbn. rewrite Hlive. set_solver.
  - intros id' Hx. destruct (decide (id' = id)) as [->|]; [by rewrite lookup_insert_eq|]. rewrite lookup_insert_ne by done. auto.
  - intros id' [= <-]. by apply G1.
  - intros id'. rewrite Hlive. intros Hx. assert (id' = id) as -> by set_solver. by rewrite lookup_insert_eq.
  - constructor; [|events_fit]. exists (d <| xd_instance := true |> <| xd_place := OpenStarts |>).
    split; [apply lookup_insert_eq|]. eapply confined_same; [|exact Hc]. done.
Qed.

Lemma XInv_closed_instance id d w :
  XInv w -> xw_devices w !! id = Some d -> xd_place d = CloseInstance ->
  XInv (putDevice id (d <| xd_instance := false |> <| xd_place := CloseRetires |>) (w <| xw_trace ::= cons (InstanceClosed id) |>)).
Proof.
  intros Hi Hd Hp. destruct (xi_devices w Hi id d Hd) as [G1 G2 G3 G4 G5]. unfold place_fits in G5. rewrite Hp in G5.
  destruct G5 as (Hr & Hn).
  pose proof Hi as [H1 H2 H3 H4 H5 H6 H7]. constructor; cbn; try done.
  - intros id' d0 [[-> <-]|[Hne H0]]%lookup_insert_Some.
    + constructor; cbn; try done. set_solver.
    + eapply (device_fits_other w _ id); [done..|right; by apply G1|right; by apply G1|]. cbn.
      intros [Hx _]%elem_of_difference. pose proof (live_dialer w id' Hi Hx). pose proof (proj1 G1 Hr). congruence.
  - intros id' Hx. destruct (decide (id' = id)) as [->|]; [by rewrite lookup_insert_eq|]. rewrite lookup_insert_ne by done. auto.
  - intros id' [Hx _]%elem_of_difference. destruct (decide (id' = id)) as [->|]; [by rewrite lookup_insert_eq|].
    rewrite lookup_insert_ne by done. auto.
  - constructor; [done|]. events_fit.
Qed.

Lemma XInv_retired id d w :
  XInv w -> xw_devices w !! id = Some d -> xd_place d = CloseRetires ->
  xw_owner w = true /\ XInv (closed None id (d <| xd_retire := false |>) (resetDialer (w <| xw_owner := false |>))).
Proof.
  intros Hi Hd Hp. destruct (xi_devices w Hi id d Hd) as [G1 G2 G3 G4 G5]. unfold place_fits in G5. rewrite Hp in G5.
  destruct G5 as (Hr & Hn). pose proof (proj1 G1 Hr) as Hdial.
  pose proof Hi as [H1 H2 H3 H4 H5 H6 H7]. split; [apply H2; by exists id|].
  assert (live (xw_trace w) = ∅) as Hlive.
  { apply elem_of_equiv_empty_L. intros x Hx. pose proof (live_dialer w x Hi Hx).
    assert (x = id) as -> by congruence. apply G2 in Hx. congruence. }
  constructor; cbn; try done; [| |events_fit].
  - intros id' d0 [[-> <-]|[Hne H0]]%lookup_insert_Some.
    + constructor; cbn; rewrite ?Hn, ?Hlive; try done; set_solver.
    + eapply (device_fits_other w _ id); [done..|by right|by left|]. cbn. rewrite Hlive. set_solver.
  - rewrite Hlive. set_solver.
Qed.

Lemma xray_step_XInv op w : XInv w -> exists w', xray_step op w = Some w' /\ XInv w'.
Proof.
  intros Hi. destruct op as [id config cache attempts user pass|id|id|id answer]; cbn;
    (destruct (xw_devices w !! id) as [d|] eqn:Hd; [|try (by exists w)]).
  - by exists w.
  - unfold NewXrayDevice. destruct cache; [|by exists w]. cbn [negb].
    destruct (allocateLocalSocksPort attempts); [|by exists w]. eexists. split; [done|]. by apply XInv_make.
  - eexists. split; [done|]. destruct (atRest d); [by apply XInv_open|done].
  - eexists. split; [done|]. destruct (atRest d); [|done]. unfold closeBegin. cbn.
    destruct (xi_devices w Hi id d Hd) as [_ _ G3 _ _].
    destruct (xd_instance d) eqn:Hn; [|destruct (xd_retire d) eqn:Hr]; eapply XInv_place; try done; unfold place_fits; cbn; auto.
    by destruct (G3 eq_refl) as [-> _].
  - destruct (xi_devices w Hi id d Hd) as [_ _ _ _ G5]. unfold place_fits in G5. unfold device_step.
    destruct (xd_place d) as [|res|res| |document| | |] eqn:Hp, answer as [answer|[err|]]; try (by exists w);
      try (eexists; split; [reflexivity|]; by eapply XInv_place).
    + destruct (GenerateXrayConfig _ _ _ _ _ _ _) as [document|err] eqn:E; eexists; (split; [reflexivity|]);
        eapply XInv_place; try done; unfold place_fits; cbn. destruct G5. split_and!; try done.
      eapply confined_same; [|by eapply GenerateXrayConfig_confined]. done.
    + eexists. split; [reflexivity|]. by apply XInv_create.
    + eexists. split; [reflexivity|]. by apply XInv_started; eapply XInv_place.
    + destruct G5 as [Hr Hn]. cbv zeta. change (xd_retire (d <| xd_instance := false |>)) with (xd_retire d). rewrite Hr.
      eexists. split; [reflexivity|]. by apply XInv_closed_instance.
    + destruct (XInv_retired id d w Hi Hd Hp) as [-> ?]. by eexists.
Qed.

Lemma xray_run_XInv ops w : XInv w -> exists w', xray_run ops w = Some w' /\ XInv w'.
Proof.
  revert w. induction ops as [|op ops IH]; intros w Hi; cbn; [by exists w|].
  destruct (xray_step_XInv op w Hi) as (w1 & -> & Hi1). by apply IH.
Qed.

(** A Close whose calls answer without error ends. *)
Definition stands (id : nat) (place : xrayPlace) (w : xrayWorld) : Prop :=
  exists d, xw_devices w !! id = Some d /\ xd_place d = place.

Lemma closed_stays id w : stands id (XrayClosed None) w -> xray_step (XrayStep id (Answers None)) w = Some w.
Proof. intros (d & Hd & Hp). cbn. rewrite Hd. unfold device_step. by rewrite Hp. Qed.

Lemma retires_ends id w :
  stands id CloseRetires w -> xw_owner w = true ->
  exists w', xray_step (XrayStep id (Answers None)) w = Some w' /\ stands id (XrayClosed None) w'.
Proof.
  intros (d & Hd & Hp) Ho. cbn. rewrite Hd. unfold device_step. rewrite Hp, Ho. eexists. split; [done|].
  eexists. split; [apply lookup_insert_eq|done].
Qed.

Lemma instance_ends id d w :
  xw_devices w !! id = Some d -> xd_place d = CloseInstance -> xd_retire d = true ->
  exists w', xray_step (XrayStep id (Answers None)) w = Some w' /\ stands id CloseRetires w' /\ xw_owner w' = xw_owner w.
Proof.
  intros Hd Hp Hr. cbn. rewrite Hd. unfold device_step. rewrite Hp. cbv zeta.
  change (xd_retire (d <| xd_instance := false |>)) with (xd_retire d). rewrite Hr.
  eexists. split; [done|]. split; [|done]. eexists. split; [apply lookup_insert_eq|done].
Qed.

Lemma xray_close_ends id d w :
  XInv w -> xw_devices w !! id = Some d -> atRest d = true ->
  exists w', xray_run [XrayClose id; XrayStep id (Answers None); XrayStep id (Answers None)] w = Some w' /\
    stands id (XrayClosed None) w'.
Proof.
  intros Hi Hd Hr. destruct (xi_devices w Hi id d Hd) as [G1 _ G3 _ _].
  assert (xd_retire d = true -> xw_owner w = true) as Ho by (intros Hx; apply (xi_owner w Hi); exists id; by apply G1).
  assert (xray_step (XrayClose id) w = Some (closeBegin id d w)) as E0 by (cbn; by rewrite Hd, Hr).
  cbn [xray_run]. rewrite E0. unfold closeBegin. set (d' := d <| xd_canceled := true |>).
  change (xd_instance d') with (xd_instance d). change (xd_retire d') with (xd_retire d).
  destruct (xd_instance d) eqn:Hn; [destruct (G3 eq_refl) as [Hret _]|destruct (xd_retire d) eqn:Hret].
  - destruct (instance_ends id (d' <| xd_place := CloseInstance |>) (putDevice id (d' <| xd_place := CloseInstance |>) w))
      as (w1 & -> & Hs & Ho1); [apply lookup_insert_eq|done|done|].
    destruct (retires_ends id w1 Hs) as (w2 & -> & Hs2); [rewrite Ho1; by apply Ho|]. by exists w2.
  - destruct (retires_ends id (putDevice id (d' <| xd_place := CloseRetires |>) w)) as (w1 & -> & Hs);
      [eexists; split; [apply lookup_insert_eq|done]|by apply Ho|].
    rewrite (closed_stays id w1 Hs). by exists w1.
  - assert (stands id (XrayClosed None) (closed None id d' w)) as Hs by (eexists; split; [apply lookup_insert_eq|done]).
    rewrite !(closed_stays id _ Hs). by eexists.
Qed.

(** C40: However the devices of the process are made, opened and closed, and
    whatever Xray, the system and the sockets answer: the lock of the process is
    never released twice; an instance is created only when no other is there, and
    while it lives the dialer, the resolver and the log level installed for the
    whole process are its device's; every instance got a document whose only
    inbound is its device's authenticated one on the loopback, without routing
    rules, and otherwise the accepted one; a Close that returned nil left neither
    the instance nor its dialer behind; and any Close can be repeated until it
    does. *)
Theorem one_xray_instance_at_a_time (ops : list xrayOp) :
  exists w, xray_run ops noXray = Some w /\
  created_alone (xw_trace w) /\
  (forall id, id ∈ live (xw_trace w) ->
    live (xw_trace w) = {[id]} /\ xw_dialer w = Some id /\ xw_dns w = Some id /\
    exists d, xw_devices w !! id = Some d /\ xw_level w = Some (openLogLevel (xd_config d))) /\
  (forall id document, InstanceCreated id document ∈ xw_trace w ->
    exists d, xw_devices w !! id = Some d /\ confined d document) /\
  (forall id d, xw_devices w !! id = Some d -> xd_place d = XrayClosed None ->
    id ∉ live (xw_trace w) /\ xw_dialer w <> Some id /\ xw_dns w <> Some id) /\
  (forall id d, xw_devices w !! id = Some d -> atRest d = true ->
    exists w', xray_run [XrayClose id; XrayStep id (Answers None); XrayStep id (Answers None)] w = Some w' /\
      stands id (XrayClosed None) w').
Proof.
  destruct (xray_run_XInv ops noXray XInv_new) as (w & Hw & Hi). exists w. pose proof Hi as [H1 H2 H3 H4 H5 H6 H7].
  split_and!; [done|done| | | |by intros; eapply xray_close_ends].
  - intros id Hl. pose proof (live_dialer w id Hi Hl) as Hdial. destruct (H5 id Hl) as [d Hd].
    destruct (H1 id d Hd) as [G1 G2 G3 G4 _]. destruct (G3 (proj1 G2 Hl)) as [Hr Hdns].
    split_and!; [|done|done|by exists d; split; [|apply G4]].
    apply set_eq. intros x. rewrite elem_of_singleton. split; [|by intros ->].
    intros Hx%(live_dialer w x Hi). congruence.
  - intros id document He. by apply (proj1 (Forall_forall _ _) H7) in He.
  - intros id d Hd Hp. destruct (H1 id d Hd) as [G1 G2 _ _ G5]. unfold place_fits in G5. rewrite Hp in G5.
    destruct G5 as [Hr Hn]. rewrite G2, Hn, <- G1, Hr. split_and!; [done|done|].
    intros Hx%H4%G1. congruence.
Qed.
