(* ===== verification/Bridge.v ===== *)
(** * Making the device of an attempt (core/sessionapi/runtimebridge/native.go)

    The runtime asks for a device as the interface [protocol.ProtocolDevice].
    The constructors of the protocols return a pointer and an error; the pointer
    is stored in the interface value as it is, also when it is nil.  The
    constructors are those of [Xray] and [TrustTunnel] and the part of
    outline/outline_device.go that can fail; the runtime is [Runtime]. *)

From S2P Require Import Prelude Errors Values Session GoStrings Bypass Dns Dialing TrustTunnel Xray Runtime.
Local Open Scope string_scope.
Local Open Scope list_scope.

(** ** Interface values *)

(** What the runtime reads of a device. *)
Record devicePointer := mkPointer { pt_proxyAddr : string; pt_upstreams : list IP }.

(** An interface value that is not nil: a dynamic type and a pointer, which may
    be nil. *)
Record ProtocolDevice := mkProtocolDevice { pd_protocol : Protocol; pd_pointer : option devicePointer }.

Definition deviceProxyAddr (d : ProtocolDevice) : string :=
  match pd_pointer d with Some p => pt_proxyAddr p | None => "" end.

(** The type assertion to [UpstreamIPs() []net.IP]: TrustTunnel has it. *)
Definition deviceUpstreamIPs (d : ProtocolDevice) : option (list IP) :=
  match pd_protocol d with
  | ProtocolTrustTunnel => Some (match pd_pointer d with Some p => pt_upstreams p | None => [] end)
  | _ => None
  end.

Definition deviceName (p : Protocol) : string :=
  match p with
  | ProtocolOutline => "outline"
  | ProtocolXray => "xray"
  | ProtocolTrustTunnel => "trusttunnel"
  | ProtocolNone => ""
  end.

(** [Close] or [CloseContext]; [answer] is what closing a device that was made
    answers. *)
Definition closeDevice (d : ProtocolDevice) (answer : option gerr) : option gerr :=
  match pd_pointer d with
  | None => Some (EText (deviceName (pd_protocol d) +:+ " device is not initialized"))
  | Some _ => answer
  end.

(** [return constructor(...)] where an interface is returned: the pointer is
    converted whatever the error is. *)
Definition asDevice (p : Protocol) (made : result devicePointer gerr) : reply ProtocolDevice :=
  match made with
  | Ok d => mkReply (Some (mkProtocolDevice p (Some d))) None
  | Err err => mkReply (Some (mkProtocolDevice p None)) (Some err)
  end.

(** ** Constructors *)

(** What the constructors meet: the DNS cache, the dialers of the Outline SDK,
    the listeners, the random credentials and the resolver. *)
Record deviceEnv := mkDeviceEnv {
  de_dnsCache : bool;
  de_streamDialer : option gerr;
  de_packetDialer : option gerr;
  de_listen : result string gerr;
  de_userinfo : string;
  de_ports : nat -> portAttempt;
  de_freePort : result Z gerr;
  de_socksUser : string;
  de_socksPass : string;
  de_lookup : nat -> string -> result (list IPAddr) gerr
}.

(** [NewOutlineDevice] (outline/outline_device.go) up to the device. *)
Definition NewOutlineDevice (env : deviceEnv) : result devicePointer gerr :=
  if negb (de_dnsCache env) then Err (EText "DNS cache is required")
  else
    match de_streamDialer env, de_packetDialer env, de_listen env with
    | Some err, _, _ => Err err
    | None, Some err, _ => Err err
    | None, None, Err err => Err err
    | None, None, Ok address => Ok (mkPointer (de_userinfo env +:+ "@" +:+ address) [])
    end.

Section factory.
Context (ParseAddr : string -> option IPAddr) (IPString : IPAddr -> string).

Definition newDevice (env : deviceEnv) (profile : RuntimeProfile) : reply ProtocolDevice :=
  match ps_Protocol (rp_Summary profile) with
  | ProtocolOutline => asDevice ProtocolOutline (NewOutlineDevice env)
  | ProtocolXray =>
      asDevice ProtocolXray
        (match NewXrayDevice (Values.Xray (rp_Config profile)) (de_dnsCache env) (de_ports env) (de_socksUser env) (de_socksPass env) with
         | Ok d => Ok (mkPointer (xd_proxyAddr d) [])
         | Err err => Err err
         end)
  | ProtocolTrustTunnel =>
      asDevice ProtocolTrustTunnel
        (match newDeviceConfig ParseAddr IPString (de_lookup env) (Values.TrustTunnel (rp_Config profile)) (de_freePort env)
                 (de_socksUser env) (de_socksPass env) with
         | Ok (_, upstreamIPs, socksAddress) =>
             Ok (mkPointer (de_socksUser env +:+ ":" +:+ de_socksPass env +:+ "@" +:+ socksAddress) upstreamIPs)
         | Err err => Err err
         end)
  | ProtocolNone => mkReply None (Some (EText "unsupported protocol"))
  end.
End factory.

(** The reply as [Runtime.startLocked] uses it. *)
Definition deviceReply (r : reply ProtocolDevice) : reply Runtime.device :=
  mkReply (option_map (fun d => Runtime.mkDevice (deviceUpstreamIPs d) (deviceProxyAddr d)) (rp_value r)) (rp_err r).
