(* ===== verification/BridgeTheorems.v ===== *)
(** * What becomes of a device that could not be made

    A nil pointer in an interface value is not a nil interface: the runtime puts
    the close of a device that was never made on the attempt's undo stack, and
    that close always fails. *)

From S2P Require Import Prelude Errors Values Session GoStrings Bypass Dns Dialing TrustTunnel Xray Runtime RuntimeTheorems Bridge.
Local Open Scope string_scope.
Local Open Scope list_scope.

(** ** The factory *)

Lemma asDevice_error p made e :
  rp_err (asDevice p made) = Some e -> rp_value (asDevice p made) = Some (mkProtocolDevice p None).
Proof. by destruct made. Qed.

(** A protocol that is supported always yields a device, made or not. *)
Lemma newDevice_error ParseAddr IPString env profile e :
  rp_err (newDevice ParseAddr IPString env profile) = Some e ->
  rp_value (newDevice ParseAddr IPString env profile) =
    if bool_decide (ps_Protocol (rp_Summary profile) = ProtocolNone) then None
    else Some (mkProtocolDevice (ps_Protocol (rp_Summary profile)) None).
Proof. unfold newDevice. destruct (ps_Protocol _); [done|apply asDevice_error..]. Qed.

Lemma closeDevice_unmade p answer : exists err, closeDevice (mkProtocolDevice p None) answer = Some err.
Proof. by eexists. Qed.

(** ** The runtime that keeps it *)

(** Lease [l] is the live attempt and its device's close is next. *)
Definition stranded (l : nat) (r : runtime) : Prop :=
  Alive r /\ rt_active r = true /\
  exists x, rt_leases r !! l = Some x /\ attempt x /\ ls_undo x = [DeviceClose; ScopeClose].

(** The close of [l]'s device answers as [d] does. *)
Definition closes_as (d : ProtocolDevice) (l : nat) (ev : rtEvent) : Prop :=
  match ev with
  | REStop env l' => l' = l -> exists answer, se_close env DeviceClose = closeDevice d answer
  | _ => True
  end.

Lemma busy_Start env ref empty r :
  rt_active r = true -> exists err, Start env ref empty r = Returned r None (Some err).
Proof. intros Ha. unfold Start. rewrite Ha. destruct (st_ctxErr env); by eexists. Qed.

Lemma busy_PrepareNetwork env ref r :
  rt_active r = true -> PrepareNetwork env ref r = (r, None, Some (EText "previous network is still owned")).
Proof. intros Ha. unfold PrepareNetwork. rewrite Ha. by destruct (rt_network r). Qed.

(** Stopping the lease gets no further than the close. *)
Lemma stranded_Stop env l r err :
  stranded l r -> se_close env DeviceClose = Some err ->
  exists r' err', Stop false env l r = Some (r', Some err') /\ rt_active r' = true /\
    exists x, rt_leases r' !! l = Some x /\ attempt x /\ ls_undo x = [DeviceClose; ScopeClose].
Proof.
  intros (Hi & Ha & x & Hx & [Hs Hd] & Hu) Hc. unfold Stop. rewrite Hx, Hs. cbv zeta.
  set (x1 := if ls_monitor x then _ else x).
  assert (ls_undo x1 = [DeviceClose; ScopeClose] /\ attempt x1) as [Hu1 H1] by (unfold attempt; subst x1; by destruct (ls_monitor x)).
  clearbody x1. destruct (if ls_monitor x1 then se_healthWait env else None) as [e|].
  - do 2 eexists. split; [reflexivity|]. split; [done|]. exists x1. cbn. by rewrite lookup_insert_eq.
  - rewrite Hu1. cbn [unwindLease]. rewrite Hc. do 2 eexists. split; [reflexivity|]. split; [done|].
    exists (x1 <| ls_undo := [DeviceClose; ScopeClose] |>). cbn. by rewrite lookup_insert_eq.
Qed.

(** Stopping another lease does not free the runtime. *)
Lemma stranded_Stop_other env l l' r :
  stranded l r -> l' <> l ->
  exists r' err, Stop false env l' r = Some (r', err) /\ rt_active r' = true /\ rt_leases r' !! l = rt_leases r !! l.
Proof.
  intros ((Hi & _) & Ha & x & Hx & Hat & _) Hne. unfold Stop.
  destruct (rt_leases r !! l') as [y|] eqn:Hy; [|by do 2 eexists]. destruct (ls_stopped y) eqn:Hs; [by do 2 eexists|]. cbv zeta.
  set (y1 := if ls_monitor y then _ else y).
  assert (ls_onDone y1 = ls_onDone y) as Hd1 by (subst y1; by destruct (ls_monitor y)).
  assert (ls_onDone y <> ReleaseActive) as Hd by (intros Hd; apply Hne; by eapply (ri_one r Hi)).
  clearbody y1. destruct (if ls_monitor y1 then se_healthWait env else None) as [e|].
  { do 2 eexists. split; [reflexivity|]. cbn. by rewrite lookup_insert_ne. }
  destruct (unwindLease _ _ _) as [[kept calls] [e|]]; cbn [andb negb].
  { do 2 eexists. split; [reflexivity|]. cbn. by rewrite lookup_insert_ne. }
  do 2 eexists. split; [reflexivity|]. change (ls_onDone (y1 <| ls_undo := kept |>)) with (ls_onDone y1). rewrite Hd1.
  destruct (ls_onDone y); [|cbn; case_match|done]; cbn; by rewrite lookup_insert_ne.
Qed.

Lemma stranded_step p l ev r :
  stranded l r -> closes_as (mkProtocolDevice p None) l ev -> exists r', rt_step ev r = Some r' /\ stranded l r'.
Proof.
  intros Hs Hev. pose proof Hs as (Hi & Ha & x & Hx & Hat & Hu). pose proof Hi as [_ Hp].
  unfold rt_step. rewrite Hp. destruct ev as [env ref|env ref empty|env l'].
  - rewrite busy_PrepareNetwork by done. by eexists.
  - destruct (busy_Start env ref empty r Ha) as [err ->]. by eexists.
  - assert (exists r2 err x', Stop false env l' r = Some (r2, err) /\ rt_active r2 = true /\
      rt_leases r2 !! l = Some x' /\ attempt x' /\ ls_undo x' = [DeviceClose; ScopeClose])
      as (r2 & err & x' & E & Ha2 & Hx2 & Hat2 & Hu2).
    { destruct (decide (l' = l)) as [->|Hne].
      - destruct (Hev eq_refl) as [answer Hc]. destruct (closeDevice_unmade p answer) as [err Herr].
        destruct (stranded_Stop env l r err Hs) as (r2 & e & E2 & ? & x' & ? & ? & ?); [by rewrite Hc|].
        by exists r2, (Some e), x'.
      - destruct (stranded_Stop_other env l l' r Hs Hne) as (r2 & e & E2 & ? & Hl).
        exists r2, e, x. by rewrite Hl. }
    destruct (Stop_RInv env l' r (proj1 Hi)) as (r3 & err3 & E3 & Hi3). rewrite E in E3. injection E3 as <- <-.
    exists r2. cbn. rewrite E. split; [done|]. split; [|split; [done|by exists x']].
    split; [done|]. by rewrite (Stop_panicked _ _ _ _ _ _ E).
Qed.

Lemma stranded_run p l evs r :
  stranded l r -> Forall (closes_as (mkProtocolDevice p None) l) evs -> exists r', rt_run evs r = Some r' /\ stranded l r'.
Proof.
  revert r. induction evs as [|ev evs IH]; intros r Hs Hevs; cbn; [by exists r|].
  apply Forall_cons in Hevs as [Hev Hevs]. destruct (stranded_step p l ev r Hs Hev) as (r1 & -> & Hs1). by apply IH.
Qed.

(** An attempt whose device was not made ends stranded. *)
Lemma Start_strands env ref r e dv err :
  Alive r -> rt_active r = false ->
  (exists n, rt_network r = Some n /\ ref_SessionID (nw_ref n) = ref_SessionID ref) ->
  st_ctxErr env = None -> st_ctxErr1 env = None -> (exists b, st_resolve env = mkReply (Some b) None) ->
  st_device env = mkReply (Some dv) (Some e) -> se_close (st_cleanup env) DeviceClose = Some err ->
  exists r' res, Start env ref false r = Returned r' (Some (rt_next r)) (Some res) /\ has_cleanup res = true /\ stranded (rt_next r) r'.
Proof.
  intros [Hi Hp] Ha (n & Hn & Hsame) Hc Hc1 (b & Hb) Hdv Hclose.
  pose proof (Start_started env ref false r Hi) as H. pose proof (Start_keeps env ref false r) as Hk.
  assert (exists r' res, Start env ref false r = Returned r' (Some (rt_next r)) (Some res) /\
    exists x, rt_leases r' !! rt_next r = Some x /\ ls_undo x = [DeviceClose; ScopeClose]) as (r' & res & E & y & Hy & Hu).
  { unfold Start, startLocked, startFail, Stop. rewrite Hc, Ha, Hn, Hsame, String.eqb_refl, Hc1, Hb, Hdv. cbn.
    rewrite !lookup_alter_eq, lookup_insert_eq. cbn. rewrite Hclose. do 2 eexists. split; [reflexivity|]. cbn.
    rewrite lookup_alter_eq, lookup_insert_eq. by eexists. }
  rewrite E in H, Hk. destruct H as (Hi' & _ & Hcl & Hact & x & Hx & Hat). destruct Hk as (_ & _ & Hk).
  do 2 eexists. split; [exact E|]. split; [done|].
  split_and!; [split; [done|congruence]|done|]. exists x. split_and!; [done|done|congruence].
Qed.

(** C39: When the constructor of a supported protocol fails - a TrustTunnel name
    that does not resolve, a document the constructor refuses, no free port -
    while the network is held and the runtime free, [Start] reports a failed
    cleanup, and it stays so for good: however often the lease is stopped and
    whatever else is tried afterwards, the close of the device that was never
    made fails, so the runtime keeps the attempt, and every start and every
    network is refused until the process ends. *)
Theorem failed_constructor_strands_the_runtime (evs : list rtEvent) (r0 : runtime) (ParseAddr : string -> option IPAddr)
    (IPString : IPAddr -> string) (made : deviceEnv) (profile : RuntimeProfile) (env : startEnv) (ref : SessionRef)
    (e : gerr) (b : BypassPolicy) (answer : option gerr) :
  let reply := newDevice ParseAddr IPString made profile in
  let device := mkProtocolDevice (ps_Protocol (rp_Summary profile)) None in
  rt_run evs newRuntime = Some r0 -> rt_active r0 = false ->
  (exists n, rt_network r0 = Some n /\ ref_SessionID (nw_ref n) = ref_SessionID ref) ->
  ps_Protocol (rp_Summary profile) <> ProtocolNone -> Empty (rp_Config profile) = false -> rp_err reply = Some e ->
  st_ctxErr env = None -> st_ctxErr1 env = None -> st_resolve env = mkReply (Some b) None ->
  st_device env = deviceReply reply -> se_close (st_cleanup env) DeviceClose = closeDevice device answer ->
  exists r l err, Start env ref (Empty (rp_Config profile)) r0 = Returned r (Some l) (Some err) /\ has_cleanup err = true /\
  forall later, Forall (closes_as device l) later ->
  exists r', rt_run later r = Some r' /\
    (exists x, rt_leases r' !! l = Some x /\ ls_stopped x = false /\ ls_undo x = [DeviceClose; ScopeClose]) /\
    (forall env' ref' empty, exists err', Start env' ref' empty r' = Returned r' None (Some err')) /\
    (forall env' ref', exists err', PrepareNetwork env' ref' r' = (r', None, Some err')).
Proof.
  intros reply device Hr0 Ha Hn Hp Hempty He Hc Hc1 Hb Hdv Hclose. rewrite Hempty.
  destruct (rt_run_new evs) as (r0' & Hr0' & Hi). assert (r0' = r0) as -> by congruence.
  destruct Hi as [Hi|(_ & Hact & _)]; [|congruence].
  destruct (closeDevice_unmade (ps_Protocol (rp_Summary profile)) answer) as [cerr Hcerr].
  pose proof (newDevice_error _ _ _ _ _ He) as Hv. rewrite bool_decide_eq_false_2 in Hv by done.
  destruct (Start_strands env ref r0 e (Runtime.mkDevice (deviceUpstreamIPs device) "") cerr Hi Ha Hn Hc Hc1)
    as (r & err & E & Hcl & Hs); [by exists b| |by rewrite Hclose|].
  { rewrite Hdv. unfold deviceReply. subst reply. by rewrite Hv, He. }
  exists r, (rt_next r0), err. split; [done|]. split; [done|]. intros later Hlater.
  destruct (stranded_run _ _ _ _ Hs Hlater) as (r' & E' & _ & Hact & x & Hx & [Hst _] & Hu). exists r'. split; [done|].
  split_and!; [by exists x|intros; by apply busy_Start|intros; eexists; by apply busy_PrepareNetwork].
Qed.

(** A protocol nobody supports yields no device, and its attempt ends. *)
Lemma unsupported_protocol_is_released ParseAddr IPString made profile :
  ps_Protocol (rp_Summary profile) = ProtocolNone ->
  newDevice ParseAddr IPString made profile = mkReply None (Some (EText "unsupported protocol")).
Proof. unfold newDevice. by intros ->. Qed.

(** ** A name that does not resolve *)

Definition unresolved : deviceEnv :=
  mkDeviceEnv true None None (Ok "127.0.0.1:1080") "u:p" (fun _ => mkPortAttempt (Ok 1080%Z) None) (Ok 1080%Z) "u" "p"
    (fun _ _ => Err (EText "no such host")).
Definition trustProfile : RuntimeProfile :=
  mkRuntimeProfile (mkProfileSummary 0 ProtocolTrustTunnel "example")
    (mkConfig "" [] [("endpoint", AMap [("addresses", ASlice [AString "vpn.example:443"])])]) [].
Definition unmade : ProtocolDevice := mkProtocolDevice ProtocolTrustTunnel None.
Definition unmadeCleanup : stopEnv := mkStopEnv None (fun c => if bool_decide (c = DeviceClose) then closeDevice unmade None else None).
Definition unmadeStart : startEnv :=
  mkStartEnv None None (mkReply (Some (mkBypassPolicy [] 0)) None)
    (deviceReply (newDevice (fun _ => None) (fun _ => "") unresolved trustProfile)) None None exReady 6 None unmadeCleanup.

Lemma failed_constructor_strands_the_runtime_witness :
  exists r0 r l err r', rt_run [REPrepare exNet exRef] newRuntime = Some r0 /\
    Start unmadeStart exRef false r0 = Returned r (Some l) (Some err) /\
    rt_run [REStop unmadeCleanup l; REStop unmadeCleanup 0; REStop unmadeCleanup l] r = Some r' /\
    exists err', Start exStart exRef false r' = Returned r' None (Some err').
Proof.
  eexists. pose proof (failed_constructor_strands_the_runtime [REPrepare exNet exRef] _ (fun _ => None) (fun _ => "") unresolved
    trustProfile unmadeStart exRef _ (mkBypassPolicy [] 0) None ltac:(vm_compute; reflexivity) ltac:(vm_compute; reflexivity)
    ltac:(eexists; split; vm_compute; reflexivity) ltac:(vm_compute; congruence) ltac:(vm_compute; reflexivity)
    ltac:(vm_compute; reflexivity) ltac:(vm_compute; reflexivity) ltac:(vm_compute; reflexivity) ltac:(vm_compute; reflexivity)
    ltac:(vm_compute; reflexivity) ltac:(vm_compute; reflexivity)) as (r & l & err & E & _ & H).
  destruct (H [REStop unmadeCleanup l; REStop unmadeCleanup 0; REStop unmadeCleanup l]) as (r' & E' & _ & HS & _).
  { repeat constructor; intros _; exists None; vm_compute; reflexivity. }
  exists r, l, err, r'. split; [vm_compute; reflexivity|]. split; [exact E|]. split; [exact E'|]. apply HS.
Defined.
