(* ===== verification/Cli.v ===== *)
(** * The command line (core/cmd/dobbyvpn/main.go)

    The commands configure, start, stop, snapshot and external-ip as programs
    over the calls of [controljson.Client]: what each call answers, whether the
    context ended in a pause between two polls and whether standard output takes
    the response are arguments, and the calls made are recorded in order.  The
    logs command and the program's own log file are left out. *)

From S2P Require Import Prelude Errors Values Session GoStrings Control.
From Stdlib Require Import Ascii.
Local Open Scope string_scope.
Local Open Scope list_scope.

(** ** Exit codes and failures *)

Definition exitOK : Z := 0.
Definition exitArgs : Z := 2.
Definition exitRuntime : Z := 4.
Definition exitConflict : Z := 8.

Definition sessionIDRequiredMessage : string := "--session-id requires one value".

(** An error of a command: one of the client, one made here, a wrapped one. *)
Inductive cliError :=
| FromCall (err : callError)
| Local (err : gerr)
| Wrapped (message : string) (err : cliError).

(** [errors.As(err, **controljson.CallError)] *)
Fixpoint remoteCall (err : callError) : option (string * string) :=
  match err with
  | CallError code message => Some (code, message)
  | CallLocal _ => None
  | CallJoined (Some err) _ => remoteCall err
  | CallJoined None _ => None
  end.

Fixpoint remoteOf (err : cliError) : option (string * string) :=
  match err with
  | FromCall err => remoteCall err
  | Local _ => None
  | Wrapped _ err => remoteOf err
  end.

(** [Error()] of each. *)
Fixpoint callText (err : callError) : string :=
  match err with
  | CallError code message => code +:+ ": " +:+ message
  | CallLocal err => error_text err
  | CallJoined (Some err) closeErr => callText err +:+ newline +:+ error_text closeErr
  | CallJoined None closeErr => error_text closeErr
  end.

Fixpoint cliText (err : cliError) : string :=
  match err with
  | FromCall err => callText err
  | Local err => error_text err
  | Wrapped message err => message +:+ ": " +:+ cliText err
  end.

Definition reportFailure (err : cliError) : Z :=
  match remoteOf err with
  | Some (code, _) =>
      if String.eqb code "CONFLICT" then exitConflict
      else if String.eqb code "INVALID_ARGUMENT" then exitArgs
      else exitRuntime
  | None => exitRuntime
  end.

(** What a command prints on standard output. *)
Inductive cliValue :=
| CliSnapshot (s : Control.Snapshot)
| CliConfigured (sessionID : string) (c : Control.Configuration).

Inductive printed := PrintedJSON (r : Control.Response cliValue) | PrintedText (s : string).

Record outcome := mkOutcome { oc_exit : Z; oc_printed : option printed }.

Definition usage : outcome := mkOutcome exitArgs None.

(** ** Arguments *)

(** [strconv.ParseInt(value, 10, 32)] and [strconv.ParseUint(value, 10, 64)];
    [None] is an error. *)
Definition ParseInt32 (value : string) : option Z :=
  match Atoi value with
  | Some n => if ((- 2 ^ 31 <=? n) && (n <? 2 ^ 31))%Z then Some n else None
  | None => None
  end.

Definition ParseUint64 (value : string) : option Z :=
  if String.eqb value "" then None
  else match digits 0 value with
       | Some n => if (n <? 2 ^ 64)%Z then Some n else None
       | None => None
       end.

(** The messages of the number's error are left out of the text. *)
Definition parseProfileIndex (value : string) : result Z string :=
  match ParseInt32 value with
  | None => Err "parse profile index"
  | Some index => if (index <? 0)%Z then Err "profile index must be non-negative" else Ok index
  end.

Definition takeOptionValue (args : list string) : option (string * list string) :=
  match args with [] => None | value :: args => Some (value, args) end.

Record startOptions := mkStartOptions {
  so_mode : StartMode;
  so_index : Z;
  so_sessionID : string;
  so_digest : string
}.
#[export] Instance eta_startOptions : Settable startOptions := fun o =>
  mkStartOptions (so_mode o) (so_index o) (so_sessionID o) (so_digest o).

(** Each round takes at least one argument. *)
Fixpoint startOptionsFrom (fuel : nat) (args : list string) (options : startOptions) (selectionSet : bool) :
    result startOptions string :=
  match fuel, args with
  | _, [] =>
      if negb selectionSet || negb (Bool.eqb (String.eqb (so_sessionID options) "") (String.eqb (so_digest options) ""))
      then Err "start requires --auto or --profile and paired --session-id/--config-digest guards"
      else Ok options
  | O, _ => Err "unreachable"
  | S fuel, option :: args =>
      if String.eqb option "--auto" then
        if selectionSet then Err "choose either --auto or --profile" else startOptionsFrom fuel args options true
      else if String.eqb option "--profile" then
        if selectionSet then Err "--profile requires one index"
        else
          match takeOptionValue args with
          | None => Err "--profile requires one index"
          | Some (value, args) =>
              match parseProfileIndex value with
              | Err message => Err message
              | Ok index => startOptionsFrom fuel args (options <| so_index := index |> <| so_mode := ProfileIndex |>) true
              end
          end
      else if String.eqb option "--session-id" then
        if negb (String.eqb (so_sessionID options) "") then Err sessionIDRequiredMessage
        else
          match takeOptionValue args with
          | None => Err sessionIDRequiredMessage
          | Some (value, args) => startOptionsFrom fuel args (options <| so_sessionID := value |>) selectionSet
          end
      else if String.eqb option "--config-digest" then
        if negb (String.eqb (so_digest options) "") then Err "--config-digest requires one value"
        else
          match takeOptionValue args with
          | None => Err "--config-digest requires one value"
          | Some (value, args) => startOptionsFrom fuel args (options <| so_digest := value |>) selectionSet
          end
      else Err "unknown start option"
  end.

Definition parseStartOptions (args : list string) : result startOptions string :=
  startOptionsFrom (length args) args (mkStartOptions AutoSelect 0 "" "") false.

Record stopOptions := mkStopOptions { po_sessionID : string; po_generation : Z }.
#[export] Instance eta_stopOptions : Settable stopOptions := fun o => mkStopOptions (po_sessionID o) (po_generation o).

Fixpoint stopOptionsFrom (fuel : nat) (args : list string) (options : stopOptions) : result stopOptions string :=
  match fuel, args with
  | _, [] =>
      if negb (Bool.eqb (String.eqb (po_sessionID options) "") (po_generation options =? 0)%Z)
      then Err "stop requires paired --session-id/--generation guards"
      else Ok options
  | O, _ => Err "unreachable"
  | S fuel, option :: args =>
      if String.eqb option "--session-id" then
        if negb (String.eqb (po_sessionID options) "") then Err sessionIDRequiredMessage
        else
          match takeOptionValue args with
          | None => Err sessionIDRequiredMessage
          | Some (value, args) => stopOptionsFrom fuel args (options <| po_sessionID := value |>)
          end
      else if String.eqb option "--generation" then
        if negb (po_generation options =? 0)%Z then Err "--generation requires one value"
        else
          match takeOptionValue args with
          | None => Err "--generation requires one value"
          | Some (value, args) =>
              match ParseUint64 value with
              | Some generation =>
                  if (generation =? 0)%Z then Err "--generation must be a positive integer"
                  else stopOptionsFrom fuel args (options <| po_generation := generation |>)
              | None => Err "--generation must be a positive integer"
              end
          end
      else Err "unknown stop option"
  end.

Definition parseStopOptions (args : list string) : result stopOptions string :=
  stopOptionsFrom (length args) args (mkStopOptions "" 0).

(** ** The source of a configuration *)

Definition sourceLimit : nat := 1048576.

Definition containsLineBreak (s : string) : bool := contains newline s || contains (String (ascii_of_nat 13) EmptyString) s.

(** [strings.Split(source, "\n")] *)
Fixpoint splitLines (fuel : nat) (s : string) : list string :=
  match fuel with
  | O => [s]
  | S fuel =>
      if contains newline s then before_byte (ascii_of_nat 10) s :: splitLines fuel (after_byte (ascii_of_nat 10) s) else [s]
  end.

Definition trimSuffixCR (s : string) : string :=
  match reverse s with
  | String c t => if Ascii.eqb c (ascii_of_nat 13) then reverse t else s
  | EmptyString => s
  end.

Fixpoint firstSection (lines : list string) : bool :=
  match lines with
  | [] => false
  | line :: lines =>
      let candidate := TrimSpace (trimSuffixCR line) in
      if String.eqb candidate "" || has_prefix "#" candidate then firstSection lines else has_prefix "[" candidate
  end.

Definition isInlineTOMLSource (source : string) : bool := firstSection (splitLines (String.length source) source).

Definition isWindowsPath (source : string) : bool :=
  match source with
  | String letter (String colon (String slash _)) =>
      let n := nat_of_ascii letter in
      Ascii.eqb colon ":"%char &&
      ((65 <=? n)%nat && (n <=? 90)%nat || (97 <=? n)%nat && (n <=? 122)%nat) &&
      (Ascii.eqb slash (ascii_of_nat 92) || Ascii.eqb slash "/"%char)
  | _ => false
  end.

(** What the file system says about the path a source may be: its status, and
    opening, reading and closing it. *)
Record sourceFile := mkSourceFile {
  sf_stat : option gerr;
  sf_nameTooLong : bool;
  sf_open : option gerr;
  sf_read : result string gerr;
  sf_close : option gerr
}.

(** [io.LimitReader(file, limit+1)] *)
Definition readSourceFile (f : sourceFile) : result string gerr :=
  match sf_open f with
  | Some err => Err (EWrap "cannot read configuration file" err)
  | None =>
      let r :=
        match sf_read f with
        | Err err => Err (EWrap "cannot read configuration file" err)
        | Ok content =>
            if (sourceLimit <? String.length content)%nat then Err (EText "configuration exceeds the 1 MiB size limit") else Ok content
        end in
      match sf_close f, r with
      | None, _ => r
      | Some closeErr, Ok _ => Err (EJoin [closeErr])
      | Some closeErr, Err err => Err (EJoin [err; closeErr])
      end
  end.

Definition readInlineTOMLSource (source : string) (f : sourceFile) : result string gerr :=
  match sf_stat f with
  | None => readSourceFile f
  | Some statErr =>
      if negb (is_sent OsErrNotExist statErr) && negb (sf_nameTooLong f) && negb (containsLineBreak source)
      then Err (EWrap "cannot read configuration file" statErr)
      else if (sourceLimit <? String.length source)%nat then Err (EText "configuration exceeds the 1 MiB size limit")
      else Ok source
  end.

Section url.
(** [url.Parse] as scheme and host. *)
Context (parseURL : string -> result (string * string) gerr).

Definition parseSourceURL (source : string) : bool * option gerr :=
  if isWindowsPath source then (false, None)
  else
    match parseURL source with
    | Err err => (false, Some err)
    | Ok (scheme, host) =>
        if String.eqb scheme "" then (false, None)
        else if negb (EqualFold scheme "https") || String.eqb host "" then (true, Some (EText "source URL must use HTTPS"))
        else (true, None)
    end.

Definition readSource (source : string) (f : sourceFile) : result string gerr :=
  if isInlineTOMLSource source then readInlineTOMLSource source f
  else
    match parseSourceURL source with
    | (_, Some err) => Err (EWrap "invalid configuration URL" err)
    | (true, None) => Ok source
    | (false, None) => readSourceFile f
    end.
End url.

(** ** The external address *)

(** The answers of one endpoint: making the request, sending it, reading and
    closing the body, the status. *)
Record ipReply := mkIPReply {
  ip_request : option gerr;
  ip_do : option gerr;
  ip_body : result string gerr;
  ip_close : option gerr;
  ip_status : Z
}.

Definition ipAnswer (r : ipReply) : result string gerr :=
  match ip_request r, ip_do r, ip_close r, ip_body r with
  | Some err, _, _, _ => Err (EWrap "create external IP request" err)
  | None, Some err, _, _ => Err (EWrap "external IP request failed" err)
  | None, None, Some err, _ => Err (EWrap "close external IP response" err)
  | None, None, None, Err err => Err (EWrap "read external IP response" err)
  | None, None, None, Ok body =>
      if ((ip_status r <? 200) || (300 <=? ip_status r))%Z
      then Err (EText ("external IP response status=" +:+ Itoa (ip_status r) +:+ " body=" +:+ quoted body))
      else if String.eqb (TrimSpace body) "" then Err (EText "external IP response body is empty")
      else Ok (TrimSpace body)
  end.

(** The endpoints in turn. *)
Fixpoint externalIP (replies : list ipReply) : outcome :=
  match replies with
  | [] => mkOutcome exitRuntime None
  | r :: replies =>
      match ipAnswer r with
      | Ok value => mkOutcome exitOK (Some (PrintedText value))
      | Err _ => externalIP replies
      end
  end.

(** ** Commands *)

Definition call : Type := string * Command.

Definition snapshotCall (sessionID : string) : call := ("Snapshot", mkCommand sessionID 0 0 None "" 0 false "").
Definition configureCall (sessionID : string) (sequence : Z) (source : string) : call :=
  ("Configure", mkCommand sessionID sequence 0 (Some source) "" 0 false "").
Definition startCall (sessionID : string) (sequence : Z) (mode : StartMode) (index : Z) : call :=
  ("Start", mkCommand sessionID sequence 0 None (StartMode_string mode) index false "").
Definition stopCall (sessionID : string) (generation : Z) : call := ("Stop", mkCommand sessionID 0 generation None "" 0 false "").

Section commands.
(** What the n-th call answers, by its result; the pause after it, for the
    command and for its cleanup; standard output. *)
Context (snapshots : nat -> result Control.Snapshot callError) (configures : nat -> result Control.Configuration callError).
Context (starts stops : nat -> result Control.Generation callError).
Context (waits cleanupWaits : nat -> option gerr) (stdout : option gerr).

Definition writeJSONResult (v : cliValue) : outcome :=
  match stdout with
  | Some err => mkOutcome (reportFailure (Wrapped "encode CLI response" (Local err))) None
  | None => mkOutcome exitOK (Some (PrintedJSON (mkResponse true (Some v) None)))
  end.

Definition writeJSONFailure (err : option cliError) : outcome :=
  let err := default (Local (EText "desktop backend returned no failure details")) err in
  let '(code, message) := default ("INTERNAL", cliText err) (remoteOf err) in
  mkOutcome (reportFailure err)
    (match stdout with Some _ => None | None => Some (PrintedJSON (mkResponse false None (Some (mkFailure code message)))) end).

Definition rejected (code message : string) : outcome := writeJSONFailure (Some (FromCall (CallError code message))).

Definition failureError (f : option Failure) : option cliError :=
  match f with None => None | Some f => Some (FromCall (CallError (wf_Code f) (wf_Message f))) end.

Definition cleanupFailure (s : Control.Snapshot) : option cliError :=
  match ws_LastFailure s with
  | Some f => if String.eqb (wf_Code f) "CLEANUP_FAILED" then failureError (Some f) else None
  | None => None
  end.

Definition callSnapshot (sessionID : string) (t : list call) : list call * result Control.Snapshot callError :=
  (t ++ [snapshotCall sessionID], snapshots (length t)).

Definition snapshotJSON (t : list call) : list call * outcome :=
  match callSnapshot "" t with
  | (t, Err err) => (t, writeJSONFailure (Some (FromCall err)))
  | (t, Ok s) => (t, writeJSONResult (CliSnapshot s))
  end.

Definition configureJSON (source : result string gerr) (t : list call) : list call * outcome :=
  match source with
  | Err err => (t, rejected "INVALID_ARGUMENT" ("configuration source rejected: " +:+ error_text err))
  | Ok raw =>
      match callSnapshot "" t with
      | (t, Err err) => (t, writeJSONFailure (Some (FromCall err)))
      | (t, Ok current) =>
          (t ++ [configureCall (ws_SessionID current) (ws_Sequence current) raw],
           match configures (length t) with
           | Err err => writeJSONFailure (Some (FromCall err))
           | Ok configured => writeJSONResult (CliConfigured (ws_SessionID current) configured)
           end)
      end
  end.

(** The polls of a cleanup; [None] is out of fuel. *)
Fixpoint cleanupPolls (fuel : nat) (sessionID : string) (generation : Z) (t : list call) : option (list call * option cliError) :=
  match fuel with
  | O => None
  | S fuel =>
      match cleanupWaits (length t) with
      | Some err => Some (t, Some (Local (EWrap "wait for cleanup session" err)))
      | None =>
          match callSnapshot sessionID t with
          | (t, Err err) => Some (t, Some (Wrapped "poll cleanup session snapshot" (FromCall err)))
          | (t, Ok current) =>
              if negb (ws_Generation current =? generation)%Z then Some (t, None)
              else if ws_CleanupComplete current then Some (t, cleanupFailure current)
              else cleanupPolls fuel sessionID generation t
          end
      end
  end.

Definition cleanupSession (fuel : nat) (sessionID : string) (generation : Z) (t : list call) :
    option (list call * option cliError) :=
  if (generation =? 0)%Z then Some (t, None)
  else
    match callSnapshot sessionID t with
    | (t, Err err) => Some (t, Some (Wrapped "read cleanup session snapshot" (FromCall err)))
    | (t, Ok current) =>
        if negb (ws_Generation current =? generation)%Z || ws_CleanupComplete current then Some (t, cleanupFailure current)
        else
          let '(t, r) := (t ++ [stopCall sessionID generation], stops (length t)) in
          match r with
          | Err err => Some (t, Some (Wrapped "stop cleanup session" (FromCall err)))
          | Ok _ => cleanupPolls fuel sessionID generation t
          end
    end.

(** The polls of [waitForConnection]: the calls, whether it connected, the
    outcome. *)
Fixpoint connectPolls (fuel : nat) (sessionID : string) (t : list call) : option (list call * bool * outcome) :=
  match fuel with
  | O => None
  | S fuel =>
      match callSnapshot sessionID t with
      | (t, Err err) => Some (t, false, writeJSONFailure (Some (FromCall err)))
      | (t, Ok s) =>
          if String.eqb (ws_State s) (State_string StateConnected) then Some (t, true, writeJSONResult (CliSnapshot s))
          else if String.eqb (ws_State s) (State_string StateFailed)
          then Some (t, false, writeJSONFailure (failureError (ws_LastFailure s)))
          else
            match waits (length t) with
            | Some err => Some (t, false, writeJSONFailure (Some (Local (EWrap "wait for connection" err))))
            | None => connectPolls fuel sessionID t
            end
      end
  end.

(** The deferred cleanup only reports its error. *)
Definition waitForConnection (fuel : nat) (sessionID : string) (started : Control.Generation) (t : list call) :
    option (list call * outcome) :=
  match connectPolls fuel sessionID t with
  | None => None
  | Some (t, true, out) => Some (t, out)
  | Some (t, false, out) =>
      match cleanupSession fuel sessionID (wg_Generation started) t with
      | None => None
      | Some (t, _) => Some (t, out)
      end
  end.

Definition startJSON (fuel : nat) (args : list string) (t : list call) : option (list call * outcome) :=
  match parseStartOptions args with
  | Err _ => Some (t, usage)
  | Ok options =>
      match callSnapshot "" t with
      | (t, Err err) => Some (t, writeJSONFailure (Some (FromCall err)))
      | (t, Ok current) =>
          if negb (String.eqb (so_sessionID options) "") &&
             (negb (String.eqb (ws_SessionID current) (so_sessionID options)) || negb (String.eqb (ws_Digest current) (so_digest options)))
          then Some (t, rejected "CONFLICT" "accepted configuration changed; configure and select again")
          else if negb (ws_Configured current)
          then Some (t, rejected "NOT_CONFIGURED" "configure a session before starting it")
          else
            let '(t, r) :=
              (t ++ [startCall (ws_SessionID current) (ws_Sequence current) (so_mode options) (so_index options)], starts (length t)) in
            match r with
            | Err err => Some (t, writeJSONFailure (Some (FromCall err)))
            | Ok started => waitForConnection fuel (ws_SessionID current) started t
            end
      end
  end.

Fixpoint waitForDisconnect (fuel : nat) (sessionID : string) (t : list call) : option (list call * outcome) :=
  match fuel with
  | O => None
  | S fuel =>
      match callSnapshot sessionID t with
      | (t, Err err) => Some (t, writeJSONFailure (Some (FromCall err)))
      | (t, Ok current) =>
          if ws_CleanupComplete current then
            Some (t, match cleanupFailure current with
                     | Some err => writeJSONFailure (Some err)
                     | None => writeJSONResult (CliSnapshot current)
                     end)
          else
            match waits (length t) with
            | Some err => Some (t, writeJSONFailure (Some (Local (EWrap "wait for disconnect cleanup" err))))
            | None => waitForDisconnect fuel sessionID t
            end
      end
  end.

Definition stopJSON (fuel : nat) (args : list string) (t : list call) : option (list call * outcome) :=
  match parseStopOptions args with
  | Err _ => Some (t, usage)
  | Ok options =>
      match callSnapshot "" t with
      | (t, Err err) => Some (t, writeJSONFailure (Some (FromCall err)))
      | (t, Ok s) =>
          if negb (String.eqb (po_sessionID options) "") &&
             (negb (String.eqb (ws_SessionID s) (po_sessionID options)) || negb (ws_Generation s =? po_generation options)%Z)
          then Some (t, rejected "CONFLICT" "session generation changed; refresh its snapshot before stopping")
          else if (ws_Generation s =? 0)%Z || ws_CleanupComplete s
          then Some (t, match cleanupFailure s with
                        | Some err => writeJSONFailure (Some err)
                        | None => writeJSONResult (CliSnapshot s)
                        end)
          else
            let '(t, r) := (t ++ [stopCall (ws_SessionID s) (ws_Generation s)], stops (length t)) in
            match r with
            | Err err => Some (t, writeJSONFailure (Some (FromCall err)))
            | Ok _ => waitForDisconnect fuel (ws_SessionID s) t
            end
      end
  end.

(** [source] is what [readSource] makes of an argument, [endpoints] the answers
    of the two endpoints. *)
Definition runServiceCommand (source : string -> result string gerr) (endpoints : ipReply * ipReply) (fuel : nat) (args : list string) :
    option (list call * outcome) :=
  match args with
  | [] => Some ([], usage)
  | command :: args =>
      if String.eqb command "configure" then
        match args with [raw] => Some (configureJSON (source raw) []) | _ => Some ([], usage) end
      else if String.eqb command "start" then startJSON fuel args []
      else if String.eqb command "stop" then stopJSON fuel args []
      else if String.eqb command "snapshot" then
        match args with [] => Some (snapshotJSON []) | _ => Some ([], usage) end
      else if String.eqb command "external-ip" then Some ([], externalIP [endpoints.1; endpoints.2])
      else Some ([], usage)
  end.
End commands.
