(* ===== verification/CliTheorems.v ===== *)
(** * What a command reports and leaves behind

    A start that exits with success has seen its session connected; any other
    start that was accepted is cleaned up; a stop names what it has seen; and
    every command ends. *)

From S2P Require Import Prelude Errors Values Session GoStrings Control Cli.
Local Open Scope string_scope.
Local Open Scope list_scope.

Section commands.
Context (snapshots : nat -> result Control.Snapshot callError) (configures : nat -> result Control.Configuration callError).
Context (starts stops : nat -> result Control.Generation callError).
Context (waits cleanupWaits : nat -> option gerr).

Abbreviation startJSON := (startJSON snapshots starts stops waits cleanupWaits None).
Abbreviation stopJSON := (stopJSON snapshots stops waits None).
Abbreviation connectPolls := (connectPolls snapshots waits None).
Abbreviation cleanupSession := (cleanupSession snapshots stops cleanupWaits).
Abbreviation cleanupPolls := (cleanupPolls snapshots cleanupWaits).
Abbreviation waitForDisconnect := (waitForDisconnect snapshots waits None).
Abbreviation failureOf := (writeJSONFailure None).
Abbreviation resultOf := (writeJSONResult None).

(** ** Exit codes *)

Lemma reportFailure_not_ok err : reportFailure err <> exitOK.
Proof. unfold reportFailure. by destruct (remoteOf err) as [[code ?]|]; [destruct (String.eqb code "CONFLICT"), (String.eqb code "INVALID_ARGUMENT")|]. Qed.

Lemma failure_not_ok err : oc_exit (failureOf err) <> exitOK.
Proof. unfold writeJSONFailure. destruct (default _ (remoteOf _)). apply reportFailure_not_ok. Qed.

Lemma result_ok v : oc_exit (resultOf v) = exitOK.
Proof. done. Qed.

(** ** Polls *)

Definition inBetween (s : Control.Snapshot) : Prop :=
  ws_State s <> State_string StateConnected /\ ws_State s <> State_string StateFailed.

Lemma repeat_polls c (t : list call) k : (t ++ [c]) ++ repeat c k = t ++ repeat c (S k).
Proof. by rewrite <- app_assoc. Qed.

Lemma connectPolls_spec fuel sid t t' ok out :
  connectPolls fuel sid t = Some (t', ok, out) ->
  exists k, t' = t ++ repeat (snapshotCall sid) (S k) /\
    (forall i, i < k -> exists s, snapshots (length t + i) = Ok s /\ inBetween s) /\
    if ok then exists s, snapshots (length t + k) = Ok s /\ ws_State s = State_string StateConnected /\ out = resultOf (CliSnapshot s)
    else exists err, out = failureOf err.
Proof.
  revert t. induction fuel as [|fuel IH]; intros t; cbn [Cli.connectPolls]; [done|]. unfold callSnapshot.
  assert (forall ok' out', Some (t ++ [snapshotCall sid], ok', out') = Some (t', ok, out) ->
    t' = t ++ repeat (snapshotCall sid) 1 /\ ok = ok' /\ out = out') as Hend by by intros ok' out' [= <- <- <-].
  destruct (snapshots (length t)) as [s|err] eqn:Es.
  - destruct (String.eqb_spec (ws_State s) (State_string StateConnected)) as [Hs|Hs].
    { intros (-> & -> & ->)%Hend. exists 0. split_and!; [done|lia|]. exists s. by rewrite Nat.add_0_r. }
    destruct (String.eqb_spec (ws_State s) (State_string StateFailed)) as [Hf|Hf].
    { intros (-> & -> & ->)%Hend. exists 0. split_and!; [done|lia|by eexists]. }
    destruct (waits _) as [err|]; [intros (-> & -> & ->)%Hend; exists 0; split_and!; [done|lia|by eexists]|].
    intros (k & -> & Hk & Hok)%IH. rewrite length_app in *. cbn [length] in *. exists (S k). split; [apply repeat_polls|].
    split.
    + intros [|i] Hi; [exists s; by rewrite Nat.add_0_r|]. replace (length t + S i) with (length t + 1 + i) by lia. apply Hk. lia.
    + by replace (length t + S k) with (length t + 1 + k) by lia.
  - intros (-> & -> & ->)%Hend. exists 0. split_and!; [done|lia|by eexists].
Qed.

(** What a cleanup of a generation does from the n-th call on: it looks, and
    stops what is still that generation and not clean, and watches. *)
Definition cleaned (sid : string) (generation : Z) (n : nat) (calls : list call) : Prop :=
  if (generation =? 0)%Z then calls = []
  else
    match snapshots n with
    | Err _ => calls = [snapshotCall sid]
    | Ok s =>
        if negb (ws_Generation s =? generation)%Z || ws_CleanupComplete s then calls = [snapshotCall sid]
        else exists k, calls = snapshotCall sid :: stopCall sid generation :: repeat (snapshotCall sid) k
    end.

Lemma cleanupPolls_spec fuel sid generation t t' err :
  cleanupPolls fuel sid generation t = Some (t', err) -> exists k, t' = t ++ repeat (snapshotCall sid) k.
Proof.
  revert t. induction fuel as [|fuel IH]; intros t; cbn [Cli.cleanupPolls]; [done|].
  destruct (cleanupWaits _); [intros [= <- <-]; exists 0; by rewrite app_nil_r|]. unfold callSnapshot.
  assert (forall e, Some (t ++ [snapshotCall sid], e) = Some (t', err) -> exists k, t' = t ++ repeat (snapshotCall sid) k) as Hend
    by (intros e [= <- <-]; by exists 1).
  destruct (snapshots _) as [s|e]; [|by apply Hend]. destruct (negb _); [by apply Hend|].
  destruct (ws_CleanupComplete s); [by apply Hend|]. intros (k & ->)%IH. exists (S k). apply repeat_polls.
Qed.

Lemma cleanupSession_spec fuel sid generation t t' err :
  cleanupSession fuel sid generation t = Some (t', err) -> exists calls, t' = t ++ calls /\ cleaned sid generation (length t) calls.
Proof.
  unfold Cli.cleanupSession, cleaned. destruct (generation =? 0)%Z; [intros [= <- <-]; exists []; by rewrite app_nil_r|].
  unfold callSnapshot. destruct (snapshots (length t)) as [s|e]; [|intros [= <- <-]; by eexists].
  destruct (_ || _); [intros [= <- <-]; by eexists|].
  destruct (stops _) as [g|e].
  - intros (k & ->)%cleanupPolls_spec. rewrite <- !app_assoc. eexists. split; [done|]. by exists k.
  - intros [= <- <-]. rewrite <- app_assoc. eexists. split; [done|]. by exists 0.
Qed.

Lemma waitForDisconnect_spec fuel sid t t' out :
  waitForDisconnect fuel sid t = Some (t', out) ->
  exists k, t' = t ++ repeat (snapshotCall sid) (S k) /\
    (oc_exit out = exitOK -> exists s, snapshots (length t + k) = Ok s /\ ws_CleanupComplete s = true /\
       cleanupFailure s = None /\ out = resultOf (CliSnapshot s)).
Proof.
  revert t. induction fuel as [|fuel IH]; intros t; cbn [Cli.waitForDisconnect]; [done|]. unfold callSnapshot.
  assert (forall e, Some (t ++ [snapshotCall sid], failureOf e) = Some (t', out) ->
    exists k, t' = t ++ repeat (snapshotCall sid) (S k) /\ (oc_exit out = exitOK -> exists s, snapshots (length t + k) = Ok s /\
      ws_CleanupComplete s = true /\ cleanupFailure s = None /\ out = resultOf (CliSnapshot s))) as Hend.
  { intros e [= <- <-]. exists 0. split; [done|]. by intros ?%failure_not_ok. }
  destruct (snapshots (length t)) as [s|err] eqn:Es; [|by apply Hend].
  destruct (ws_CleanupComplete s) eqn:Ec.
  - destruct (cleanupFailure s) eqn:Ef; [by apply Hend|]. intros [= <- <-]. exists 0. split; [done|].
    intros _. exists s. by rewrite Nat.add_0_r.
  - destruct (waits _); [by apply Hend|]. intros (k & -> & Hk)%IH. rewrite length_app in *. cbn [length] in *.
    exists (S k). split; [apply repeat_polls|]. by replace (length t + S k) with (length t + 1 + k) by lia.
Qed.

(** ** Start *)

(** The options name another session or inventory than the one there is. *)
Definition guarded_away (o : startOptions) (s : Control.Snapshot) : bool :=
  negb (String.eqb (so_sessionID o) "") &&
  (negb (String.eqb (ws_SessionID s) (so_sessionID o)) || negb (String.eqb (ws_Digest s) (so_digest o))).

(** A start that was accepted as generation [g], from the third call on. *)
Definition followed (sid : string) (g : Control.Generation) (calls : list call) (out : outcome) : Prop :=
  exists k rest, calls = repeat (snapshotCall sid) (S k) ++ rest /\
    (forall i, i < k -> exists s, snapshots (2 + i) = Ok s /\ inBetween s) /\
    (oc_exit out = exitOK -> rest = [] /\
       exists s, snapshots (2 + k) = Ok s /\ ws_State s = State_string StateConnected /\ out = resultOf (CliSnapshot s)) /\
    (oc_exit out <> exitOK -> cleaned sid (wg_Generation g) (3 + k) rest).

Lemma waitForConnection_followed fuel sid g t t' out :
  length t = 2 -> waitForConnection snapshots stops waits cleanupWaits None fuel sid g t = Some (t', out) ->
  exists calls, t' = t ++ calls /\ followed sid g calls out.
Proof.
  intros Hl. unfold waitForConnection. destruct (connectPolls fuel sid t) as [[[t1 ok] out1]|] eqn:Ep; [|done].
  apply connectPolls_spec in Ep as (k & -> & Hk & Hok). rewrite Hl in *. destruct ok.
  - intros [= <- <-]. destruct Hok as (s & Hs & Hc & ->). eexists. split; [done|]. exists k, [].
    split_and!; [by rewrite app_nil_r|done|by split; [|exists s]|by rewrite result_ok].
  - destruct Hok as [err ->]. destruct (cleanupSession _ _ _ _) as [[t2 e]|] eqn:Ec; [|done]. intros [= <- <-].
    apply cleanupSession_spec in Ec as (calls & -> & Hc). rewrite <- app_assoc. eexists. split; [done|].
    exists k, calls. split_and!; [done|done|by intros ?%failure_not_ok|]. intros _.
    rewrite length_app, repeat_length, Hl in Hc. exact Hc.
Qed.

(** What a start command does: arguments it does not understand reach
    nobody; otherwise it looks once, and a session it was not meant for or that
    is not configured is left alone; the start it sends carries the session and
    the sequence it saw and the selection of the arguments; a start that was
    accepted ends with success only behind a snapshot that says connected, which
    it prints, and in every other case the generation it started is looked up
    again and stopped unless it is gone or clean. *)
Theorem start_command_is_accountable (fuel : nat) (args : list string) (t : list call) (out : outcome)
    (H : startJSON fuel args [] = Some (t, out)) :
  match parseStartOptions args with
  | Err _ => t = [] /\ oc_exit out = exitArgs
  | Ok o =>
      match snapshots 0 with
      | Err _ => t = [snapshotCall ""] /\ oc_exit out <> exitOK
      | Ok s =>
          if guarded_away o s || negb (ws_Configured s) then t = [snapshotCall ""] /\ oc_exit out <> exitOK
          else
            let start := startCall (ws_SessionID s) (ws_Sequence s) (so_mode o) (so_index o) in
            match starts 1 with
            | Err _ => t = [snapshotCall ""; start] /\ oc_exit out <> exitOK
            | Ok g => exists calls, t = snapshotCall "" :: start :: calls /\ followed (ws_SessionID s) g calls out
            end
      end
  end.
Proof.
  unfold Cli.startJSON in H. destruct (parseStartOptions args) as [o|message]; [|by injection H as <- <-].
  unfold callSnapshot in H. cbn [length app] in H. destruct (snapshots 0) as [s|err]; [|injection H as <- <-; split; [done|apply failure_not_ok]].
  fold (guarded_away o s) in H. destruct (guarded_away o s); [injection H as <- <-; split; [done|apply failure_not_ok]|].
  destruct (ws_Configured s); [|injection H as <- <-; split; [done|apply failure_not_ok]]. cbn [orb negb] in *. cbv zeta.
  cbn [length app] in H. destruct (starts 1) as [g|err]; [|injection H as <- <-; split; [done|apply failure_not_ok]].
  by apply waitForConnection_followed in H.
Qed.

(** ** Stop *)

(** A stop names the session and the generation of the snapshot it took, and
    succeeds only behind a snapshot without anything left to clean. *)
Theorem stop_command_is_accountable (fuel : nat) (args : list string) (t : list call) (out : outcome)
    (H : stopJSON fuel args [] = Some (t, out)) :
  (forall c, ("Stop", c) ∈ t -> exists s, snapshots 0 = Ok s /\ ("Stop", c) = stopCall (ws_SessionID s) (ws_Generation s) /\
     ws_Generation s <> 0%Z /\ ws_CleanupComplete s = false) /\
  (oc_exit out = exitOK -> exists n s, snapshots n = Ok s /\ (ws_Generation s = 0%Z \/ ws_CleanupComplete s = true) /\
     cleanupFailure s = None /\ out = resultOf (CliSnapshot s)).
Proof.
  unfold Cli.stopJSON in H. destruct (parseStopOptions args) as [o|message]; [|injection H as <- <-; split; [set_solver|done]].
  unfold callSnapshot in H. cbn [length app] in H.
  assert (forall e, Some ([snapshotCall ""], failureOf e) = Some (t, out) ->
    (forall c, ("Stop", c) ∈ t -> False) /\ oc_exit out <> exitOK) as Hfail.
  { intros e [= <- <-]. split; [|apply failure_not_ok]. intros c [?|Hc]%elem_of_cons; [done|set_solver]. }
  assert (forall (P : Command -> Prop) (Q : Prop), (forall c, ("Stop", c) ∈ t -> False) /\ oc_exit out <> exitOK ->
    (forall c, ("Stop", c) ∈ t -> P c) /\ (oc_exit out = exitOK -> Q)) as Hnone by (intros P Q [H1 H2]; split; [intros c []%H1|done]).
  destruct (snapshots 0) as [s|err] eqn:Es; [|by eapply Hnone, Hfail].
  destruct (_ && _); [by eapply Hnone, Hfail|].
  destruct (_ || _) eqn:Ed.
  - destruct (cleanupFailure s) eqn:Ef; [by eapply Hnone, Hfail|]. injection H as <- <-. split.
    + intros c [?|Hc]%elem_of_cons; [done|set_solver].
    + intros _. exists 0, s. split_and!; [done| |done|done]. apply orb_true_iff in Ed as [?%Z.eqb_eq|?]; auto.
  - apply orb_false_iff in Ed as [Hg%Z.eqb_neq Hc].
    assert (forall c (l : list call), ("Stop", c) ∈ snapshotCall "" :: stopCall (ws_SessionID s) (ws_Generation s) :: l ->
      (forall x, x ∈ l -> x.1 = "Snapshot") -> exists s0, @Ok Control.Snapshot callError s = Ok s0 /\ ("Stop", c) = stopCall (ws_SessionID s0) (ws_Generation s0) /\
        ws_Generation s0 <> 0%Z /\ ws_CleanupComplete s0 = false) as Hstop.
    { intros c l [?|[E|Hx]%elem_of_cons]%elem_of_cons Hl; [done|exists s; split_and!; done|]. apply Hl in Hx. done. }
    cbn [length app] in H. destruct (stops 1) as [g|err].
    + apply waitForDisconnect_spec in H as (k & -> & Hk). split.
      * intros c Hin. eapply Hstop; [exact Hin|]. intros x Hx. apply list_elem_of_In, repeat_spec in Hx. by subst.
      * intros He. destruct (Hk He) as (s' & Hs' & ? & ? & ?). exists (2 + k), s'. auto.
    + injection H as <- <-. split; [|by intros ?%failure_not_ok]. intros c Hin. eapply Hstop; [exact Hin|set_solver].
Qed.

(** ** Every command ends *)

Section ends.
Context (N : nat) (Hwaits : forall n, N <= n -> waits n <> None) (Hcleanup : forall n, N <= n -> cleanupWaits n <> None).

Lemma connectPolls_ends fuel sid t : 0 < fuel -> N < fuel + length t -> connectPolls fuel sid t <> None.
Proof using Hwaits.
  revert t. induction fuel as [|fuel IH]; intros t H0 Hn; cbn [Cli.connectPolls]; [lia|]. unfold callSnapshot.
  destruct (snapshots _) as [s|]; [|done]. destruct (String.eqb _ _); [done|]. destruct (String.eqb _ _); [done|].
  destruct (waits _) eqn:Ew; [done|]. rewrite length_app in Ew. cbn in Ew.
  assert (length t + 1 < N) by (destruct (decide (length t + 1 < N)); [done|destruct (Hwaits (length t + 1)); [lia|done]]).
  apply IH; rewrite ?length_app; cbn; lia.
Qed.

Lemma waitForDisconnect_ends fuel sid t : 0 < fuel -> N < fuel + length t -> waitForDisconnect fuel sid t <> None.
Proof using Hwaits.
  revert t. induction fuel as [|fuel IH]; intros t H0 Hn; cbn [Cli.waitForDisconnect]; [lia|]. unfold callSnapshot.
  destruct (snapshots _) as [s|]; [|done]. destruct (ws_CleanupComplete s); [done|].
  destruct (waits _) eqn:Ew; [done|]. rewrite length_app in Ew. cbn in Ew.
  assert (length t + 1 < N) by (destruct (decide (length t + 1 < N)); [done|destruct (Hwaits (length t + 1)); [lia|done]]).
  apply IH; rewrite ?length_app; cbn; lia.
Qed.

Lemma cleanupPolls_ends fuel sid g t : 0 < fuel -> N < fuel + length t -> cleanupPolls fuel sid g t <> None.
Proof using Hcleanup.
  revert t. induction fuel as [|fuel IH]; intros t H0 Hn; cbn [Cli.cleanupPolls]; [lia|].
  destruct (cleanupWaits _) eqn:Ew; [done|]. unfold callSnapshot. destruct (snapshots _) as [s|]; [|done].
  destruct (negb _); [done|]. destruct (ws_CleanupComplete s); [done|].
  assert (length t < N) by (destruct (decide (length t < N)); [done|destruct (Hcleanup (length t)); [lia|done]]).
  apply IH; rewrite ?length_app; cbn; lia.
Qed.

Lemma cleanupSession_ends fuel sid g t : N < fuel -> cleanupSession fuel sid g t <> None.
Proof using Hcleanup.
  intros Hn. unfold Cli.cleanupSession. destruct (g =? 0)%Z; [done|]. unfold callSnapshot. destruct (snapshots _) as [s|]; [|done].
  destruct (_ || _); [done|]. destruct (stops _); [|done]. apply cleanupPolls_ends; lia.
Qed.

(** Once the contexts of the command and of its cleanup have ended by the N-th
    call, N + 1 polls are enough for any command. *)
Theorem every_command_ends source endpoints fuel args :
  N < fuel -> exists t out, runServiceCommand snapshots configures starts stops waits cleanupWaits None source endpoints fuel args = Some (t, out).
Proof using Hwaits Hcleanup.
  intros Hn. assert (forall A (x : option (A * outcome)), x <> None -> exists t out, x = Some (t, out)) as Hsome
    by (intros A [[t out]|] Hx; [by exists t, out|done]).
  apply Hsome. unfold runServiceCommand. destruct args as [|command args]; [done|].
  destruct (String.eqb command "configure"); [by destruct args as [|? []]|].
  destruct (String.eqb command "start").
  { unfold Cli.startJSON. destruct (parseStartOptions args); [|done]. unfold callSnapshot. destruct (snapshots _) as [s|]; [|done].
    destruct (_ && _); [done|]. destruct (negb _); [done|]. destruct (starts _) as [g|]; [|done]. unfold waitForConnection.
    match goal with |- context [Cli.connectPolls _ _ _ _ ?sid ?t] => destruct (connectPolls fuel sid t) as [[[t1 ok] out]|] eqn:E end.
    - destruct ok; [done|]. destruct (cleanupSession _ _ _ _) as [[]|] eqn:Ec; [done|]. by apply cleanupSession_ends in Ec.
    - apply connectPolls_ends in E; [done|lia..]. }
  destruct (String.eqb command "stop").
  { unfold Cli.stopJSON. destruct (parseStopOptions args); [|done]. unfold callSnapshot. destruct (snapshots _) as [s|]; [|done].
    destruct (_ && _); [done|]. destruct (_ || _); [done|]. destruct (stops _); [|done]. apply waitForDisconnect_ends; lia. }
  destruct (String.eqb command "snapshot"); [by destruct args|]. by destruct (String.eqb command "external-ip").
Qed.
End ends.
End commands.

(** ** A start that fails to connect *)

Definition exampleSnapshot (state : string) (failure : option Failure) : Control.Snapshot :=
  Control.mkSnapshot "" "" 0 None false "s" 4 7 1 false false state true false "d" "" "" "" [] None failure false false "".

(** The session prepares, then fails; the cleanup finds it still there, and
    its context ends after the first poll. *)
Definition exampleSnapshots (n : nat) : result Control.Snapshot callError :=
  Ok (if (n <? 3)%nat then exampleSnapshot "PREPARING" None else exampleSnapshot "FAILED" (Some (mkFailure "PROBE_FAILED" "no answer"))).
Definition exampleStarts (_ : nat) : result Control.Generation callError := Ok (Control.mkGeneration 7 5).
Definition exampleWaits (_ : nat) : option gerr := None.
Definition exampleCleanupWaits (n : nat) : option gerr := if (n <? 7)%nat then None else Some (ESent CtxDeadlineExceeded).

Lemma start_command_is_accountable_witness :
  exists out, startJSON exampleSnapshots exampleStarts exampleStarts exampleWaits exampleCleanupWaits None 9 ["--auto"] [] =
    Some (snapshotCall "" :: startCall "s" 4 AutoSelect 0 :: repeat (snapshotCall "s") 2 ++ [snapshotCall "s"; stopCall "s" 7; snapshotCall "s"], out) /\
  followed exampleSnapshots "s" (Control.mkGeneration 7 5)
    (repeat (snapshotCall "s") 2 ++ [snapshotCall "s"; stopCall "s" 7; snapshotCall "s"]) out.
Proof.
  eexists. split; [vm_compute; reflexivity|].
  refine (match start_command_is_accountable exampleSnapshots exampleStarts exampleStarts exampleWaits exampleCleanupWaits 9 ["--auto"] _ _ _ with
          | ex_intro _ calls (conj E F) => _
          end); [vm_compute; reflexivity|].
  injection E as <-. exact F.
Defined.
