(* ===== verification/UdpAssociation.v ===== *)
(** * The UDP associations of the Outline SOCKS server
    (core/outline/udp_association.go)

    One association: its handler, the goroutine that relays the client's
    datagrams, and one goroutine per upstream connection that relays the
    replies, cut at their critical sections and at every call, in any order.
    The close of a connection a critical section took out is part of that step:
    nobody else has it any more.  Sockets, the dialer and the datagram parser of
    the SOCKS library answer as they like; [Submit] of the device never fails. *)

From S2P Require Import Prelude Errors Bypass.
Local Open Scope string_scope.
Local Open Scope list_scope.

(** ** The client of an association *)

(** [net.IP.Equal] and [net.IP.IsUnspecified] *)
Definition normalIP (ip : IP) : IP := default ip (To4 ip).
Definition EqualIP (a b : IP) : bool := bool_decide (normalIP a = normalIP b).
Definition IsUnspecified (ip : IP) : bool := EqualIP ip [0; 0; 0; 0]%Z || EqualIP ip (repeat 0%Z 16).

Record udpAddr := mkUDPAddr { ua_IP : IP; ua_Port : Z }.

(** The destination address of the request, which may be nil, admits a sender
    when it does not name another one. *)
Definition admits (announced : option udpAddr) (client : udpAddr) : bool :=
  match announced with
  | None => false
  | Some a =>
      negb (negb (IsUnspecified (ua_IP a)) && negb (EqualIP (ua_IP a) (ua_IP client)) ||
            negb (ua_Port a =? 0)%Z && negb (ua_Port a =? ua_Port client)%Z)
  end.

(** The reserved bytes and the fragment number are zero. *)
Definition wellFramed (datagram : list Z) : bool :=
  match datagram with
  | (0%Z) :: (0%Z) :: (0%Z) :: _ => true
  | _ => false
  end.

Record udpPacket := mkUDPPacket { up_destination : string; up_header : list Z; up_data : list Z }.

(** ** The state *)

(** The relay of the client's datagrams. *)
Inductive clientRelay :=
| Reads
| Looks (client : udpAddr) (p : udpPacket)
| Dials (client : udpAddr) (p : udpPacket)
| Enters (client : udpAddr) (p : udpPacket) (conn : nat)
| Writes (client : udpAddr) (p : udpPacket) (conn : nat)
| Drops (key : string) (conn : nat)
| Exited.

(** The relay of one connection's replies. *)
Inductive replyPlace := ReplyReads | ReplyWrites (reply : list Z) | ReplyDrops | ReplyDone.

Record replyRelay := mkReplyRelay {
  rr_key : string;
  rr_conn : nat;
  rr_client : udpAddr;
  rr_header : list Z;
  rr_place : replyPlace
}.
#[export] Instance eta_replyRelay : Settable replyRelay := fun x =>
  mkReplyRelay (rr_key x) (rr_conn x) (rr_client x) (rr_header x) (rr_place x).

(** The handler: holding the control connection, ending, after [closeUpstreams],
    after closing the relay, returned. *)
Inductive associationPhase := AssocHolds | AssocEnds | AssocClosesRelay | AssocWaits | AssocReturned.

Inductive udpEvent :=
| UDPSent (conn : nat) (client : udpAddr) (destination : string) (data : list Z)
| UDPReplied (client : udpAddr) (reply : list Z).

(** [ud_dialed] remembers for whom and to where each connection was dialed, [ud_closings] are
    the connections that were closed, newest first. *)
Record udpAssociation := mkAssociation {
  ud_client : option udpAddr;
  ud_upstream : gmap string nat;
  ud_closed : bool;
  ud_dialed : gmap nat (udpAddr * string);
  ud_closings : list nat;
  ud_next : nat;
  ud_relayClosed : bool;
  ud_reader : clientRelay;
  ud_replies : gmap nat replyRelay;
  ud_phase : associationPhase;
  ud_trace : list udpEvent
}.
#[export] Instance eta_udpAssociation : Settable udpAssociation := fun x =>
  mkAssociation (ud_client x) (ud_upstream x) (ud_closed x) (ud_dialed x) (ud_closings x) (ud_next x) (ud_relayClosed x)
    (ud_reader x) (ud_replies x) (ud_phase x) (ud_trace x).

(** The association once its relay socket listens and the client was told. *)
Definition newAssociation (client : option udpAddr) : udpAssociation :=
  mkAssociation client ∅ false ∅ [] 0 false Reads ∅ AssocHolds [].

Definition closeConn (conn : nat) (a : udpAssociation) : udpAssociation := a <| ud_closings ::= cons conn |>.

(** [dropUpstream] *)
Definition dropUpstream (key : string) (conn : nat) (a : udpAssociation) : udpAssociation :=
  if bool_decide (ud_upstream a !! key = Some conn) then closeConn conn (a <| ud_upstream ::= delete key |>) else a.

Definition closeUpstreams (a : udpAssociation) : udpAssociation :=
  a <| ud_closed := true |> <| ud_upstream := ∅ |> <| ud_closings ::= app (map snd (map_to_list (ud_upstream a))) |>.

Section association.
(** [net.UDPAddr.String] and [statute.ParseDatagram]. *)
Context (AddrString : udpAddr -> string) (ParseDatagram : list Z -> option udpPacket).

Definition keyOf (client : udpAddr) (destination : string) : string := AddrString client +:+ "|" +:+ destination.

(** What the client's relay meets. *)
Inductive relayAnswer :=
| RelayFails
| RelayReads (client : udpAddr) (datagram : list Z)
| DialAnswers (err : option gerr)
| WriteAnswers (err : option gerr)
| Proceeds.

(** The second critical section of [upstreamFor]. *)
Definition enterUpstream (client : udpAddr) (p : udpPacket) (conn : nat) (a : udpAssociation) : udpAssociation :=
  let key := keyOf client (up_destination p) in
  if ud_closed a then closeConn conn a <| ud_reader := Reads |>
  else
    match ud_upstream a !! key with
    | Some existing => closeConn conn a <| ud_reader := Writes client p existing |>
    | None =>
        a <| ud_upstream ::= <[key := conn]> |>
          <| ud_replies ::= <[conn := mkReplyRelay key conn client (up_header p) ReplyReads]> |>
          <| ud_reader := Writes client p conn |>
    end.

Definition relayFromClient_step (answer : relayAnswer) (a : udpAssociation) : udpAssociation :=
  match ud_reader a, answer with
  | Reads, RelayFails => a <| ud_reader := Exited |>
  | Reads, RelayReads client datagram =>
      if ud_relayClosed a then a
      else if negb (admits (ud_client a) client) then a
      else if negb (wellFramed datagram) then a
      else match ParseDatagram datagram with
           | Some p => a <| ud_reader := Looks client p |>
           | None => a
           end
  | Looks client p, Proceeds =>
      match ud_upstream a !! keyOf client (up_destination p) with
      | Some conn => a <| ud_reader := Writes client p conn |>
      | None => a <| ud_reader := Dials client p |>
      end
  | Dials client p, DialAnswers (Some _) => a <| ud_reader := Reads |>
  | Dials client p, DialAnswers None =>
      a <| ud_dialed ::= <[ud_next a := (client, up_destination p)]> |> <| ud_next ::= S |>
        <| ud_reader := Enters client p (ud_next a) |>
  | Enters client p conn, Proceeds => enterUpstream client p conn a
  | Writes client p conn, WriteAnswers None =>
      a <| ud_trace ::= cons (UDPSent conn client (up_destination p) (up_data p)) |> <| ud_reader := Reads |>
  | Writes client p conn, WriteAnswers (Some _) => a <| ud_reader := Drops (keyOf client (up_destination p)) conn |>
  | Drops key conn, Proceeds => dropUpstream key conn a <| ud_reader := Reads |>
  | _, _ => a
  end.

Inductive replyAnswer := UpstreamReads (data : option (list Z)) | ClientWrites (ok : bool) | ReplyProceeds.

Definition setReply (w : nat) (r : replyRelay) (a : udpAssociation) : udpAssociation := a <| ud_replies ::= <[w := r]> |>.

Definition relayToClient_step (w : nat) (answer : replyAnswer) (r : replyRelay) (a : udpAssociation) : udpAssociation :=
  match rr_place r, answer with
  | ReplyReads, UpstreamReads None => setReply w (r <| rr_place := ReplyDrops |>) a
  | ReplyReads, UpstreamReads (Some data) => setReply w (r <| rr_place := ReplyWrites (rr_header r ++ data) |>) a
  | ReplyWrites reply, ClientWrites true =>
      setReply w (r <| rr_place := ReplyReads |>) a <| ud_trace ::= cons (UDPReplied (rr_client r) reply) |>
  | ReplyWrites reply, ClientWrites false => setReply w (r <| rr_place := ReplyDrops |>) a
  | ReplyDrops, ReplyProceeds => setReply w (r <| rr_place := ReplyDone |>) (dropUpstream (rr_key r) (rr_conn r) a)
  | _, _ => a
  end.

Definition replyDone (r : replyRelay) : bool := match rr_place r with ReplyDone => true | _ => false end.

Definition workersDone (a : udpAssociation) : bool :=
  match ud_reader a with Exited => true | _ => false end &&
  forallb (fun w => replyDone w.2) (map_to_list (ud_replies a)).

(** The deferred functions of [handleAssociate]. *)
Definition handleAssociate_step (a : udpAssociation) : udpAssociation :=
  match ud_phase a with
  | AssocHolds => a <| ud_phase := AssocEnds |>
  | AssocEnds => closeUpstreams a <| ud_phase := AssocClosesRelay |>
  | AssocClosesRelay => a <| ud_relayClosed := true |> <| ud_phase := AssocWaits |>
  | AssocWaits => if workersDone a then a <| ud_phase := AssocReturned |> else a
  | AssocReturned => a
  end.

Inductive udpOp :=
| UDPHandler
| UDPCancels
| UDPRelay (answer : relayAnswer)
| UDPReply (w : nat) (answer : replyAnswer).

(** A canceled context closes the relay. *)
Definition udp_step (op : udpOp) (a : udpAssociation) : udpAssociation :=
  match op with
  | UDPHandler => handleAssociate_step a
  | UDPCancels => a <| ud_relayClosed := true |>
  | UDPRelay answer => relayFromClient_step answer a
  | UDPReply w answer =>
      match ud_replies a !! w with Some r => relayToClient_step w answer r a | None => a end
  end.

Definition udp_run (ops : list udpOp) (a : udpAssociation) : udpAssociation := fold_left (fun a op => udp_step op a) ops a.
End association.
