(* ===== verification/UdpAssociationTheorems.v ===== *)
(** * What a UDP association guarantees

    A datagram of the association's client goes to the connection dialed for its
    sender and its destination, and when the handler returns every connection
    that was dialed is closed, once. *)

From S2P Require Import Prelude Errors GoStrings Bypass UdpAssociation.
From Stdlib Require Import Ascii.
Local Open Scope string_scope.
Local Open Scope list_scope.

Section association.
Context (AddrString : udpAddr -> string) (ParseDatagram : list Z -> option udpPacket).

Abbreviation keyOf := (keyOf AddrString).
Abbreviation udp_step := (udp_step AddrString ParseDatagram).
Abbreviation udp_run := (udp_run AddrString ParseDatagram).

(** ** Who has a connection *)

(** Every connection that was dialed is closed, listed, or held by the client's
    relay, and only one of these. *)
Record UCore (upstream : gmap string nat) (closed : bool) (dialed : gmap nat (udpAddr * string)) (closings : list nat)
    (next : nat) (held : option nat) : Prop := mkUCore {
  uc_listed : forall key conn, upstream !! key = Some conn -> conn ∉ closings /\ held <> Some conn /\
    exists c d, dialed !! conn = Some (c, d) /\ key = keyOf c d;
  uc_dialed : forall conn, is_Some (dialed !! conn) <-> conn < next;
  uc_nodup : NoDup closings;
  uc_closings : forall conn, conn ∈ closings -> conn < next;
  uc_open : forall conn, conn < next -> conn ∈ closings \/ held = Some conn \/ exists key, upstream !! key = Some conn;
  uc_held : forall conn, held = Some conn -> conn < next /\ conn ∉ closings;
  uc_closed : closed = true -> upstream = ∅
}.

Lemma core_new : UCore ∅ false ∅ [] 0 None.
Proof. constructor; cbn; try done; [split; [by intros []|lia]|constructor|by intros ? ?%not_elem_of_nil|lia]. Qed.

(** A listed connection is listed once. *)
Lemma core_unique u cl dl cs n h key key' conn :
  UCore u cl dl cs n h -> u !! key = Some conn -> u !! key' = Some conn -> key = key'.
Proof.
  intros HC (_ & _ & c & d & H1 & ->)%(uc_listed _ _ _ _ _ _ HC) (_ & _ & c' & d' & H2 & ->)%(uc_listed _ _ _ _ _ _ HC).
  congruence.
Qed.

Lemma core_drop u cl dl cs n h key conn :
  UCore u cl dl cs n h -> u !! key = Some conn -> UCore (delete key u) cl dl (conn :: cs) n h.
Proof.
  intros HC Hu. pose proof HC as [C1 C2 C3 C4 C5 C6 C7]. destruct (C1 key conn Hu) as (Hc & Hh & c & d & Hd & Hk).
  assert (conn < n) as Hn by (apply C2; by eexists). constructor.
  - intros key' conn' [Hne Hu']%lookup_delete_Some. destruct (C1 key' conn' Hu') as (? & ? & ?). split_and!; [|done|done].
    intros [->|?]%elem_of_cons; [|done]. apply Hne. by eapply core_unique.
  - done.
  - by constructor.
  - intros conn' [->|?]%elem_of_cons; [done|by apply C4].
  - intros conn' Hn'. destruct (C5 conn' Hn') as [?|[?|[key' ?]]]; [left; by right|by right; left|].
    destruct (decide (key' = key)) as [->|]; [left; simplify_eq; by left|right; right; exists key'; by rewrite lookup_delete_ne].
  - intros conn' Hx. destruct (C6 conn' Hx). split; [done|]. intros [->|?]%elem_of_cons; done.
  - intros ->%C7. by rewrite delete_empty.
Qed.

Lemma core_closeUpstreams u cl dl cs n h :
  UCore u cl dl cs n h -> UCore ∅ true dl (map snd (map_to_list u) ++ cs) n h.
Proof.
  intros HC. pose proof HC as [C1 C2 C3 C4 C5 C6 C7].
  assert (forall conn, conn ∈ map snd (map_to_list u) <-> exists key, u !! key = Some conn) as Hin.
  { intros conn. rewrite list_elem_of_fmap. split; [intros ([key x] & -> & Hx)|intros [key Hx]].
    - exists key. by apply elem_of_map_to_list.
    - exists (key, conn). by rewrite elem_of_map_to_list. }
  constructor; try done.
  - apply NoDup_app. split_and!; [|intros conn [key Hx]%Hin; by apply (C1 key)|done].
    apply NoDup_fmap_2_strong; [|apply NoDup_map_to_list].
    intros [k1 x1] [k2 x2] H1%elem_of_map_to_list H2%elem_of_map_to_list. cbn. intros ->. f_equal. by eapply core_unique.
  - intros conn [[key Hx]%Hin|?]%elem_of_app; [|by apply C4]. destruct (C1 key conn Hx) as (_ & _ & c & d & Hd & _).
    apply C2. by eexists.
  - intros conn Hn. rewrite elem_of_app, Hin. destruct (C5 conn Hn) as [?|[?|?]]; tauto.
  - intros conn Hx. destruct (C6 conn Hx). split; [done|]. intros [[key Hk]%Hin|?]%elem_of_app; [|done].
    by destruct (C1 key conn Hk) as (_ & ? & _).
Qed.

Lemma core_dial u cl dl cs n c d :
  UCore u cl dl cs n None -> UCore u cl (<[n := (c, d)]> dl) cs (S n) (Some n).
Proof.
  intros [C1 C2 C3 C4 C5 C6 C7].
  assert (dl !! n = None) as Hfresh by (apply eq_None_not_Some; rewrite C2; lia).
  constructor; try done.
  - intros key conn Hu. destruct (C1 key conn Hu) as (? & _ & c' & d' & Hd & ->). split; [done|].
    assert (conn <> n) by (intros ->; congruence). split; [congruence|]. exists c', d'. by rewrite lookup_insert_ne.
  - intros conn. destruct (decide (conn = n)) as [->|]; [rewrite lookup_insert_eq; split; [lia|by eexists]|].
    rewrite lookup_insert_ne, C2 by done. lia.
  - intros conn ?%C4. lia.
  - intros conn Hn. destruct (decide (conn = n)) as [->|]; [by right; left|].
    destruct (C5 conn) as [?|[?|?]]; [lia|by left|done|by right; right].
  - intros conn [= <-]. split; [lia|]. intros ?%C4. lia.
Qed.

Lemma core_close_held u cl dl cs n conn : UCore u cl dl cs n (Some conn) -> UCore u cl dl (conn :: cs) n None.
Proof.
  intros [C1 C2 C3 C4 C5 C6 C7]. destruct (C6 conn eq_refl) as [Hn Hc]. constructor; try done.
  - intros key conn' Hu. destruct (C1 key conn' Hu) as (? & Hne & ?). split_and!; [|done|done].
    intros [->|?]%elem_of_cons; congruence.
  - by constructor.
  - intros conn' [->|?]%elem_of_cons; [done|by apply C4].
  - intros conn' Hn'. destruct (C5 conn' Hn') as [?|[[= <-]|?]]; [left; by right|left; by left|by right; right].
Qed.

Lemma core_enter u dl cs n c d conn :
  UCore u false dl cs n (Some conn) -> dl !! conn = Some (c, d) -> u !! keyOf c d = None ->
  UCore (<[keyOf c d := conn]> u) false dl cs n None.
Proof.
  intros [C1 C2 C3 C4 C5 C6 C7] Hd Hu. destruct (C6 conn eq_refl) as [Hn Hc]. constructor; try done.
  - intros key conn' [[<- <-]|[Hne Hu']]%lookup_insert_Some; [split_and!; [done|done|by exists c, d]|].
    destruct (C1 key conn' Hu') as (? & ? & ?). by split_and!.
  - intros conn' Hn'. destruct (C5 conn' Hn') as [?|[[= <-]|[key Hk]]]; [by left|right; right; exists (keyOf c d); by rewrite lookup_insert_eq|].
    right; right. exists key. rewrite lookup_insert_ne; [done|]. intros <-. congruence.
Qed.

(** ** The invariant *)

(** A datagram the association may relay for its client. *)
Definition relayed (a : udpAssociation) (client : udpAddr) (p : udpPacket) : Prop :=
  admits (ud_client a) client = true /\ exists datagram, wellFramed datagram = true /\ ParseDatagram datagram = Some p.

(** A connection was dialed for this sender and destination. *)
Definition dialedFor (dl : gmap nat (udpAddr * string)) (conn : nat) (client : udpAddr) (destination : string) : Prop :=
  exists c d, dl !! conn = Some (c, d) /\ keyOf c d = keyOf client destination.

Definition heldBy (r : clientRelay) : option nat := match r with Enters _ _ conn => Some conn | _ => None end.

Definition reader_ok (a : udpAssociation) : Prop :=
  match ud_reader a with
  | Reads | Exited | Drops _ _ => True
  | Looks client p | Dials client p => relayed a client p
  | Enters client p conn => relayed a client p /\ ud_dialed a !! conn = Some (client, up_destination p)
  | Writes client p conn => relayed a client p /\ dialedFor (ud_dialed a) conn client (up_destination p)
  end.

Definition reply_ok (a : udpAssociation) (w : nat) (r : replyRelay) : Prop :=
  rr_conn r = w /\ exists d, ud_dialed a !! w = Some (rr_client r, d) /\ rr_key r = keyOf (rr_client r) d.

Definition event_ok (a : udpAssociation) (e : udpEvent) : Prop :=
  match e with
  | UDPSent conn client destination data =>
      exists p, relayed a client p /\ up_destination p = destination /\ up_data p = data /\ dialedFor (ud_dialed a) conn client destination
  | UDPReplied client reply => exists conn d, ud_dialed a !! conn = Some (client, d)
  end.

Definition past_close (p : associationPhase) : bool :=
  match p with AssocHolds | AssocEnds => false | _ => true end.

Record UInv (a : udpAssociation) : Prop := mkUInv {
  ui_core : UCore (ud_upstream a) (ud_closed a) (ud_dialed a) (ud_closings a) (ud_next a) (heldBy (ud_reader a));
  ui_reader : reader_ok a;
  ui_replies : forall w r, ud_replies a !! w = Some r -> reply_ok a w r;
  ui_trace : Forall (event_ok a) (ud_trace a);
  ui_phase : past_close (ud_phase a) = true -> ud_closed a = true;
  ui_returned : ud_phase a = AssocReturned -> workersDone a = true
}.

Lemma UInv_new client : UInv (newAssociation client).
Proof. constructor; cbn; try done. apply core_new. Qed.

(** ** Steps *)

Lemma relaying_not_returned a : UInv a -> ud_reader a <> Exited -> ud_phase a <> AssocReturned.
Proof. intros Hi Hr Hp. pose proof (ui_returned a Hi Hp) as Hw. unfold workersDone in Hw. by destruct (ud_reader a). Qed.

Lemma replying_not_returned a w r :
  UInv a -> ud_replies a !! w = Some r -> replyDone r = false -> ud_phase a <> AssocReturned.
Proof.
  intros Hi Hw Hr Hp. pose proof (ui_returned a Hi Hp) as Hd. unfold workersDone in Hd. apply andb_true_iff in Hd as [_ Hd].
  rewrite forallb_forall in Hd. assert (In (w, r) (map_to_list (ud_replies a))) as Hin
    by (by apply list_elem_of_In, elem_of_map_to_list).
  apply Hd in Hin. cbn in Hin. congruence.
Qed.

Lemma UInv_reader a rd :
  UInv a -> ud_phase a <> AssocReturned -> heldBy rd = heldBy (ud_reader a) -> reader_ok (a <| ud_reader := rd |>) ->
  UInv (a <| ud_reader := rd |>).
Proof. intros [H1 H2 H3 H4 H5 H6] Hp Hh Hr. constructor; cbn; try done. by rewrite Hh. Qed.

Lemma UInv_event a e : event_ok a e -> UInv a -> UInv (a <| ud_trace ::= cons e |>).
Proof. intros He [H1 H2 H3 H4 H5 H6]. constructor; cbn; try done. by constructor. Qed.

Lemma UInv_drop a key conn : UInv a -> UInv (dropUpstream key conn a).
Proof.
  intros Hi. unfold dropUpstream. case_bool_decide as Hu; [|done]. destruct Hi as [H1 H2 H3 H4 H5 H6].
  constructor; cbn; try done. by apply core_drop.
Qed.

Lemma drop_frame key conn a :
  ud_reader (dropUpstream key conn a) = ud_reader a /\ ud_phase (dropUpstream key conn a) = ud_phase a /\
  ud_replies (dropUpstream key conn a) = ud_replies a.
Proof. unfold dropUpstream. by case_bool_decide. Qed.

Lemma UInv_setReply a w r r' :
  UInv a -> ud_replies a !! w = Some r -> replyDone r = false ->
  rr_conn r' = rr_conn r -> rr_client r' = rr_client r -> rr_key r' = rr_key r -> UInv (setReply w r' a).
Proof.
  intros Hi Hw Hd E1 E2 E3. pose proof (replying_not_returned a w r Hi Hw Hd). destruct Hi as [H1 H2 H3 H4 H5 H6].
  constructor; cbn; try done. intros w' r0 [[-> <-]|[Hne Hr]]%lookup_insert_Some; [|by apply H3].
  unfold reply_ok. rewrite E1, E2, E3. by apply H3.
Qed.

Lemma handler_UInv a : UInv a -> UInv (handleAssociate_step a).
Proof.
  intros Hi. pose proof Hi as [H1 H2 H3 H4 H5 H6]. unfold handleAssociate_step. destruct (ud_phase a) eqn:Hp; [..|done].
  - by constructor.
  - constructor; cbn; try done. by eapply core_closeUpstreams.
  - by constructor.
  - destruct (workersDone a) eqn:Hw; [|done]. by constructor.
Qed.

Lemma dialedFor_grows dl n x conn client d :
  dl !! n = None -> dialedFor dl conn client d -> dialedFor (<[n := x]> dl) conn client d.
Proof. intros Hn (c & d' & Hd & Hk). exists c, d'. split; [|done]. rewrite lookup_insert_ne by congruence. done. Qed.

Lemma UInv_dial a client p :
  UInv a -> ud_reader a = Dials client p ->
  UInv (a <| ud_dialed ::= <[ud_next a := (client, up_destination p)]> |> <| ud_next ::= S |> <| ud_reader := Enters client p (ud_next a) |>).
Proof.
  intros Hi Hr. pose proof (relaying_not_returned a Hi ltac:(congruence)) as Hp. destruct Hi as [H1 H2 H3 H4 H5 H6].
  unfold reader_ok in H2. rewrite Hr in *.
  assert (ud_dialed a !! ud_next a = None) as Hfresh by (apply eq_None_not_Some; rewrite (uc_dialed _ _ _ _ _ _ H1); lia).
  constructor; cbn; try done.
  - by apply core_dial.
  - split; [exact H2|]. apply lookup_insert_eq.
  - intros w r Hw. destruct (H3 w r Hw) as (Hc & d & Hd & Hk). split; [done|]. exists d. cbn. by rewrite lookup_insert_ne by congruence.
  - eapply Forall_impl; [exact H4|]. intros [conn c d data|c reply]; cbn.
    + intros (p' & ? & ? & ? & ?). exists p'. split_and!; try done. by apply dialedFor_grows.
    + intros (conn & d & Hd). exists conn, d. cbn. by rewrite lookup_insert_ne by congruence.
Qed.

Lemma UInv_enter a client p conn :
  UInv a -> ud_reader a = Enters client p conn -> UInv (enterUpstream AddrString client p conn a).
Proof.
  intros Hi Hr. pose proof (relaying_not_returned a Hi ltac:(congruence)) as Hp. destruct Hi as [H1 H2 H3 H4 H5 H6].
  unfold reader_ok in H2. rewrite Hr in *. destruct H2 as [Hrel Hd]. cbn [heldBy] in H1.
  unfold enterUpstream. destruct (ud_closed a) eqn:Hc.
  { constructor; cbn; try done. rewrite Hc. by apply core_close_held. }
  destruct (ud_upstream a !! _) as [existing|] eqn:Hu.
  - constructor; cbn; try done; rewrite ?Hc; [by apply core_close_held| |done]. split; [exact Hrel|].
    destruct (uc_listed _ _ _ _ _ _ H1 _ _ Hu) as (_ & _ & c & d & Hd' & Hk). by exists c, d.
  - constructor; cbn; try done; rewrite ?Hc; [by apply core_enter| | |done].
    + split; [exact Hrel|]. by exists client, (up_destination p).
    + intros w r [[-> <-]|[Hne Hw]]%lookup_insert_Some; [|by apply H3]. split; [done|]. by exists (up_destination p).
Qed.

Lemma relay_UInv answer a : UInv a -> UInv (relayFromClient_step AddrString ParseDatagram answer a).
Proof.
  intros Hi. unfold relayFromClient_step. pose proof (ui_reader a Hi) as Hr. unfold reader_ok in Hr.
  destruct (ud_reader a) as [|client p|client p|client p conn|client p conn|key conn|] eqn:Er; [..|done];
    pose proof (relaying_not_returned a Hi ltac:(congruence)) as Hp;
    destruct answer as [|client' datagram|[err|]|[err|]|]; try done;
    try (apply UInv_reader; rewrite ?Er; done).
  - destruct (ud_relayClosed a); [done|]. destruct (admits _ _) eqn:Ea; [|done]. destruct (wellFramed _) eqn:Ew; [|done].
    cbn [negb]. destruct (ParseDatagram _) as [p|] eqn:Ep; [|done]. apply UInv_reader; rewrite ?Er; try done.
    split; [done|by exists datagram].
  - destruct (ud_upstream a !! _) as [conn|] eqn:Hu; apply UInv_reader; rewrite ?Er; try done. split; [exact Hr|].
    pose proof (ui_core a Hi) as HC. destruct (uc_listed _ _ _ _ _ _ HC _ _ Hu) as (_ & _ & c & d & Hd' & Hk). by exists c, d.
  - by apply UInv_dial.
  - by apply UInv_enter.
  - assert (UInv (a <| ud_trace ::= cons (UDPSent conn client (up_destination p) (up_data p)) |>)) as Hi1
      by (apply UInv_event; [destruct Hr; by exists p|done]).
    apply (UInv_reader _ Reads Hi1); cbn; rewrite ?Er; done.
  - destruct (drop_frame key conn a) as (E1 & E2 & E3). apply UInv_reader; rewrite ?E1, ?E2, ?Er; try done. by apply UInv_drop.
Qed.

Lemma reply_UInv w answer r a :
  UInv a -> ud_replies a !! w = Some r -> UInv (relayToClient_step w answer r a).
Proof.
  intros Hi Hw. unfold relayToClient_step. destruct (rr_place r) as [|reply| |] eqn:Hp, answer as [[data|]|[]|]; try done;
    try (eapply UInv_setReply; [exact Hi|exact Hw|unfold replyDone; by rewrite Hp|done..]).
  - apply UInv_event.
    + destruct (ui_replies a Hi w r Hw) as (_ & d & Hd & _). by exists w, d.
    + eapply UInv_setReply; [exact Hi|exact Hw|unfold replyDone; by rewrite Hp|done..].
  - destruct (drop_frame (rr_key r) (rr_conn r) a) as (E1 & E2 & E3).
    eapply UInv_setReply; [by apply UInv_drop|by rewrite E3|unfold replyDone; by rewrite Hp|done..].
Qed.

Lemma udp_run_UInv ops a : UInv a -> UInv (udp_run ops a).
Proof.
  revert a. induction ops as [|op ops IH]; intros a Hi; cbn; [done|]. apply IH. destruct op as [| |answer|w answer]; cbn.
  - by apply handler_UInv.
  - destruct Hi as [H1 H2 H3 H4 H5 H6]. by constructor.
  - by apply relay_UInv.
  - destruct (ud_replies a !! w) as [r|] eqn:Hw; [by apply reply_UInv|done].
Qed.

Lemma udp_step_client op a : ud_client (udp_step op a) = ud_client a.
Proof.
  destruct op as [| |answer|w answer]; cbn.
  - unfold handleAssociate_step. destruct (ud_phase a); try done. by destruct (workersDone a).
  - done.
  - unfold relayFromClient_step. destruct (ud_reader a), answer as [|? ?|[?|]|[?|]|]; try done; repeat case_match; try done.
    + unfold enterUpstream. by repeat case_match.
    + unfold dropUpstream. by case_bool_decide.
  - destruct (ud_replies a !! w) as [r|]; [|done]. unfold relayToClient_step, dropUpstream. by repeat case_match.
Qed.

Lemma udp_run_client ops a : ud_client (udp_run ops a) = ud_client a.
Proof. revert a. induction ops as [|op ops IH]; intros a; [done|].
  transitivity (ud_client (udp_step op a)); [apply IH|apply udp_step_client].
Qed.

(** ** Keys *)

Fixpoint barFree (s : string) : Prop :=
  match s with String c s => c <> "|"%char /\ barFree s | EmptyString => True end.

Lemma bar_split s1 s2 t1 t2 :
  barFree s1 -> barFree s2 -> s1 +:+ "|" +:+ t1 = s2 +:+ "|" +:+ t2 -> s1 = s2 /\ t1 = t2.
Proof.
  revert s2. induction s1 as [|c1 s1 IH]; intros [|c2 s2] H1 H2; cbn in *.
  - intros E. injection E as E. by split.
  - intros E. injection E as E _. by destruct H2.
  - intros E. injection E as E _. by destruct H1.
  - intros E. injection E as -> E. destruct H1 as [_ H1], H2 as [_ H2]. by destruct (IH s2 H1 H2 E) as [-> ->].
Qed.

(** ** The properties *)

(** A destination that cannot be dialed or written to costs its own datagram and
    its own connection: the others stay, and the relay reads on. *)
Theorem one_failure_costs_one_destination (a : udpAssociation) (client : udpAddr) (p : udpPacket) (err : gerr) :
  (ud_reader a = Dials client p ->
    udp_step (UDPRelay (DialAnswers (Some err))) a = a <| ud_reader := Reads |>) /\
  (forall conn, ud_reader a = Writes client p conn ->
    let a' := udp_run [UDPRelay (WriteAnswers (Some err)); UDPRelay Proceeds] a in
    ud_reader a' = Reads /\ ud_phase a' = ud_phase a /\ ud_replies a' = ud_replies a /\
    forall key, key <> keyOf client (up_destination p) -> ud_upstream a' !! key = ud_upstream a !! key).
Proof.
  split; [intros Hr; cbn; unfold relayFromClient_step; by rewrite Hr|]. intros conn Hr.
  assert (udp_step (UDPRelay (WriteAnswers (Some err))) a = a <| ud_reader := Drops (keyOf client (up_destination p)) conn |>) as E
    by (cbn; unfold relayFromClient_step; by rewrite Hr).
  intros a'. assert (a' = dropUpstream (keyOf client (up_destination p)) conn (a <| ud_reader := Drops (keyOf client (up_destination p)) conn |>)
    <| ud_reader := Reads |>) as -> by (subst a'; cbn [UdpAssociation.udp_run fold_left]; by rewrite E).
  unfold dropUpstream. cbn. case_bool_decide; cbn; split_and!; try done. intros key Hk. by rewrite lookup_delete_ne by congruence.
Qed.

(** However the handler, its relays, the context and the sockets step: a
    datagram is sent only for the announced client, well framed, as the parser
    read it, on a connection dialed to its destination for a sender that prints
    the same; replies go to the sender their connection was dialed for; no
    connection is closed twice; and when the handler has returned, every
    connection that was dialed is closed. *)
Theorem udp_association_is_isolated_and_closed (announced : option udpAddr) (ops : list udpOp)
    (Hbar : forall client, barFree (AddrString client)) :
  let a := udp_run ops (newAssociation announced) in
  (forall conn client destination data, UDPSent conn client destination data ∈ ud_trace a ->
    admits announced client = true /\
    (exists datagram p, wellFramed datagram = true /\ ParseDatagram datagram = Some p /\ up_destination p = destination /\ up_data p = data) /\
    exists c, ud_dialed a !! conn = Some (c, destination) /\ AddrString c = AddrString client) /\
  (forall client reply, UDPReplied client reply ∈ ud_trace a -> exists conn destination, ud_dialed a !! conn = Some (client, destination)) /\
  NoDup (ud_closings a) /\
  (ud_phase a = AssocReturned -> forall conn, is_Some (ud_dialed a !! conn) -> conn ∈ ud_closings a).
Proof.
  intros a. assert (UInv a) as Hi by apply udp_run_UInv, UInv_new.
  assert (ud_client a = announced) as Hc by (unfold a; by rewrite udp_run_client). clearbody a.
  pose proof (ui_core a Hi) as HC. split_and!.
  - intros conn client destination data He. apply (proj1 (Forall_forall _ _) (ui_trace a Hi)) in He.
    destruct He as (p & (Ha & datagram & Hw & Hp) & <- & <- & c & d & Hd & Hk). rewrite Hc in Ha.
    split_and!; [done|by exists datagram, p|]. destruct (bar_split _ _ _ _ (Hbar c) (Hbar client) Hk) as [Hs ->]. by exists c.
  - intros client reply He. by apply (proj1 (Forall_forall _ _) (ui_trace a Hi)) in He.
  - apply (uc_nodup _ _ _ _ _ _ HC).
  - intros Hp conn Hn. apply (uc_dialed _ _ _ _ _ _ HC) in Hn.
    pose proof (ui_returned a Hi Hp) as Hw. unfold workersDone in Hw. destruct (ud_reader a) eqn:Er; try done.
    destruct (uc_open _ _ _ _ _ _ HC conn Hn) as [?|[?|[key Hk]]]; [done..|].
    rewrite (uc_closed _ _ _ _ _ _ HC) in Hk; [done|]. apply (ui_phase a Hi). by rewrite Hp.
Qed.
End association.

(** ** One datagram to a destination that hangs up *)

Definition exampleClient : udpAddr := mkUDPAddr [127; 0; 0; 1]%Z 4000%Z.
Definition exampleAddrString (a : udpAddr) : string := if (ua_Port a =? 4000)%Z then "127.0.0.1:4000" else "127.0.0.1:1".
Definition exampleParse (d : list Z) : option udpPacket := Some (mkUDPPacket "example:53" [0; 0; 0]%Z (drop 3 d)).
Definition exampleOps : list udpOp :=
  [UDPRelay (RelayReads exampleClient [0; 0; 0; 7]%Z); UDPRelay Proceeds; UDPRelay (DialAnswers None); UDPRelay Proceeds;
   UDPRelay (WriteAnswers None); UDPReply 0 (UpstreamReads None); UDPHandler; UDPHandler; UDPReply 0 ReplyProceeds;
   UDPHandler; UDPRelay RelayFails; UDPHandler].

Lemma udp_association_is_isolated_and_closed_witness :
  let a := udp_run exampleAddrString exampleParse exampleOps (newAssociation (Some (mkUDPAddr [0; 0; 0; 0]%Z 0%Z))) in
  ud_phase a = AssocReturned /\ ud_trace a = [UDPSent 0 exampleClient "example:53" [7%Z]] /\
  ud_dialed a !! 0 = Some (exampleClient, "example:53") /\ 0 ∈ ud_closings a /\ NoDup (ud_closings a).
Proof.
  destruct (udp_association_is_isolated_and_closed exampleAddrString exampleParse (Some (mkUDPAddr [0; 0; 0; 0]%Z 0%Z)) exampleOps)
    as (_ & _ & HN & HC).
  { intros client. unfold exampleAddrString. destruct (_ =? _)%Z; cbn; repeat split; done. }
  cbv zeta in *. split; [vm_compute; reflexivity|]. split; [vm_compute; reflexivity|]. split; [vm_compute; reflexivity|].
  split; [apply HC; [vm_compute; reflexivity|eexists; vm_compute; reflexivity]|exact HN].
Defined.
